(* ===== verification/_CoqProject ===== *)
-Q . S2P
Prelude.v
Exceptions.v
Types.v
Chainbase.v
BlockTimestamp.v
Accumulators.v
ResourceLimits.v
Name.v
Assets.v
Merkle.v
ForkDatabase.v
ForkTree.v
ForkBranch.v
ForkPersist.v
Authority.v
AuthorityChecker.v
AuthorizationManager.v
ProtocolFeatures.v
ProtocolFeatureProps.v
ProducerSchedule.v
BlockHeaderState.v
AccessLists.v
TransactionContext.v
TransactionContextProps.v
ObjectIndex.v
IteratorCache.v
ContractTables.v
SecondaryIndex.v
ContractTableProps.v
ContractTableOps.v
SecondaryIndexOps.v
ContractTableWalk.v
SecondaryIndexWalk.v
ContractTableTheorems.v
ContractTableSpecs.v
ActionExecution.v
ActionExecutionProps.v
ActionTraces.v
TableCalls.v
NativeActions.v
NativeCode.v
NativeAccounts.v
NativeActionProps.v
NativeReachable.v
Packing.v
ChainPacking.v
Transactions.v
ChainConfig.v
Genesis.v
Privileged.v
Deferred.v
HostCalls.v
ReducePolicy.v
NodeWorld.v
TransactionRam.v
NodeExample.v
SchedulePipeline.v
UnappliedQueue.v
SubjectiveBilling.v
Intrinsics.v
SnapshotScheduler.v
Controller.v
ControllerProps.v
ControllerFaults.v
ControllerExample.v
