(* ===== verification/Prelude.v ===== *)
(** * Verification of the wire-sysio chain library

    wire-sysio is a blockchain node derived from EOSIO.  This library models the
    deterministic core of its chain library ([libraries/chain]) as Rocq functions
    and proves what makes that core correct.  The functions are executable: every
    witness at the end of a file runs them on a concrete input.

    ** The program and how its parts interact

    Blocks arrive as signed headers with transactions.  The header state
    ([block_header_state.cpp]) steps from a parent header to its child: it finds
    the scheduled producer, counts confirmations, derives the irreversible block
    number, promotes schedules, activates protocol features and checks the
    signatures against the producer's authority.  The resulting block states
    live in the fork database ([fork_database.cpp]), a tree whose best validated
    branch is the head; it is written to a file on shutdown.  The controller
    ([controller.cpp]) follows that head: it applies blocks to its database, switches
    to a better branch and back when a block of it fails, and appends what is
    irreversible to the block log.  It activates protocol features at the start of a
    block and undoes them when the block is abandoned ([protocol_feature_manager.cpp]).
    Transactions are authorized by the authorization manager
    ([authorization_manager.cpp]), which asks the authority checker
    ([authority_checker.hpp]) whether keys, permissions and delays satisfy
    weighted authorities ([authority.hpp]).  A transaction ([transaction_context.cpp])
    sets its limits, then runs its actions: each is applied to its receiver and to
    the accounts notified of it, by a native handler ([sysio_contract.cpp]) or by a
    contract, and may send further inline actions ([apply_context.cpp]).  Contracts
    keep rows in the contract tables through iterators.  At the end the CPU time,
    NET and RAM of the transaction are billed to one account by the resource limits
    manager ([resource_limits.cpp]) through decaying accumulators.
    Merkle trees ([merkle.cpp], [incremental_merkle.hpp]), names
    ([name.hpp]), assets ([asset.hpp]), digests and timestamps are shared values.
    Everything that is hashed, sent or stored has a packed form ([raw.hpp]); a chain is
    identified by the hash of its packed genesis ([genesis_state.hpp]), a transaction by
    the hash of its packed form ([transaction.cpp]).  Privileged contracts set the
    configuration ([chain_config.cpp]) and propose producers ([privileged.cpp]); a
    proposed schedule becomes pending and then active through the header states.
    Protocol features open host functions by name ([whitelisted_intrinsics.cpp]).  Around
    the chain a node keeps the transactions not yet in a block
    ([unapplied_transaction_queue.hpp]), bills accounts for failed ones
    ([subjective_billing.hpp]) and schedules snapshots ([snapshot_scheduler.cpp]).

    ** Files

    - [Prelude]: the result monad of throwing operations, loops, machine integers,
      shared lemmas and tactics.
    - [Exceptions]: the exception classes of [exceptions.hpp] with codes and bases.
    - [Types]: digests, their orders, block numbers inside block ids.
    - [Chainbase]: the interface [ChainIndex] of a chainbase table.  chainbase is a
      submodule outside the sources, so components are proved against the laws of
      this class; [gmap_index] is the instance the witnesses run.
    - [BlockTimestamp]: slots and time points ([block_timestamp.hpp]).
    - [Accumulators]: the two accumulators of [resource_limits_private.hpp].
    - [ResourceLimits]: the state and the operations of [resource_limits.cpp].
    - [Name]: the base-32 names of [name.hpp] and [name.cpp].
    - [Merkle]: batch and incremental merkle roots.
    - [ForkDatabase]: the operations of [fork_database.cpp].  Block states are shared
      pointers there, and [mark_valid] changes a state every holder sees, so the
      model has a heap of block states and the index holds pointers into it.
      [ForkTree], [ForkBranch] and [ForkPersist] prove the tree invariant, the branch
      queries, and the round trip through the file.
    - [Authority], [AuthorityChecker], [AuthorizationManager]: weighted authorities,
      the recursive check with its cache, and the permission tables.
    - [ProtocolFeatures]: the recognised set, the manager, and the controller's
      checks and activation loop; [ProtocolFeatureProps] holds the theorems.
    - [ProducerSchedule], [BlockHeaderState]: schedules and the header step.
    - [Assets]: symbols, amounts, their checked arithmetic and string forms.
    - [AccessLists]: the actor, contract, action and key lists of the controller.
    - [TransactionContext]: limits, deadlines, timers and billing of a transaction
      ([transaction_context.cpp]); [TransactionContextProps] holds the theorems.
    - [ObjectIndex]: the interface of a chainbase table whose objects are addressed
      by id, with unique keys; [IteratorCache]: the cache of [apply_context.hpp].
    - [ContractTables], [SecondaryIndex]: the database intrinsics on primary rows and
      on the five secondary indices.  [ContractTableProps], [ContractTableOps],
      [SecondaryIndexOps], [ContractTableWalk] and [SecondaryIndexWalk] prove the
      lemmas per operation, [ContractTableTheorems] and [ContractTableSpecs] the
      theorems on all sequences of intrinsics.
    - [ActionExecution]: [apply_context::exec], inline actions, notifications and
      receipts, over the interface [ActionWorld] of what an action can do to the
      rest of the state; a contract is a function of the replies it has received.
      [ActionExecutionProps] proves termination and threads invariants through an
      execution, [ActionTraces] proves the theorems on receipts and traces.
    - [TableCalls]: the database intrinsics as calls of a contract with their replies.
    - [NativeActions]: the native handlers of [sysio_contract.cpp] and the accounts
      of a new chain.  [NativeCode], [NativeAccounts] and [NativeActionProps] prove
      the effect of each, [NativeReachable] the theorems.
    - [Packing]: packers of integers, containers, variants and reflected classes, with
      the classes [Lossless] (unpacking inverts packing) and [Yields] (what unpacking
      can give); [ChainPacking]: the packers of the chain types.
    - [Transactions]: packed and compressed transactions, digests and key recovery.
    - [ChainConfig], [Genesis]: the configurations and the genesis state.
    - [Privileged]: the privileged host functions and the global properties;
      [SchedulePipeline]: a proposed schedule through header states and blocks.
    - [Deferred]: [send_deferred] and [cancel_deferred] with
      [apply_context::schedule_deferred_transaction].
    - [HostCalls]: the calls of native and contract code that reach the chain state;
      [ReducePolicy]: the native action [reducepolicy] of [sysio.roa], a program of such
      calls.
    - [NodeWorld]: the instance of [ActionWorld] in which an action runs its native
      handler, found as [find_apply_handler] finds it, or its contract, which can call
      the database intrinsics, the privileged host functions and those of deferred
      transactions; [TransactionRam] joins it with the billing of the transaction;
      [NodeExample] runs both.
    - [Intrinsics]: the whitelist and the handlers of activated features.
    - [UnappliedQueue], [SubjectiveBilling], [SnapshotScheduler]: these classes.
    - [Controller]: [push_block], [produce_block] (the calls that build and commit a block
      of this node), [apply_block], [commit_block], [maybe_switch_forks],
      [pop_block] and [log_irreversible] of [controller.cpp], over the fork database and
      the protocol feature manager above.  The undo stack of chainbase is the class
      [UndoDatabase] with its [UndoLaws]; what a block does to the database is the class
      [BlockExecutor].  [ControllerProps] proves the theorems, [ControllerFaults] what
      happens to a node outside their conditions, [ControllerExample] runs a controller
      that switches forks.

    A component's state is a record with the fields of the class, each method is a
    definition of the same name that takes the state and returns it, [Throw e]
    stands for an exception.  Where an operation changes state before it throws,
    it returns the state next to the result.

    ** What the theorems show

    - Fork database: in all reachable states, after calls that return or throw, the blocks form a tree under the root,
      the head is a best validated block; [remove] and [advance_root] delete exactly
      what they should; branch queries return the paths to the root and to the
      lowest common ancestor; closing and opening restores the database, as long as
      irreversible numbers do not fall along a branch.
    - Controller: in all reachable states, in either read mode, the database and the
      protocol features are the replay of the logged and the reversible blocks from the
      state of the start; outside of irreversible mode a refused block leaves head, state
      and log as they were, also when a fork switch had begun; the block log only grows
      and the head descends from its last block.  The conditions: no listener asks for a
      stop, the logs can be written and block bodies are there ([quiet]); light validation
      gives the results of full validation ([ExecutorLaws]); no undefined behaviour
      occurred; headers are numbered after their parents; and in irreversible mode the
      irreversible number of a header is not below its parent's.  The code enforces
      neither the first nor the last: [listener_failure_diverges] and
      [decreasing_lib_stops_irreversible_mode] show what then happens, and
      [unapplied_branch_undefined] shows undefined behaviour.
    - Header states: the confirmation bookkeeping stays within its types and bounds;
      the irreversible number is the greatest one a supermajority implies and does
      not go back under one schedule; accepted headers carry the right numbers and
      signatures, and keep activated features closed under dependencies.
    - Authorization: an accepted transaction has every declared authorization granted
      and high enough in the permission tree; the checker is sound on all permission
      graphs and exact on acyclic ones within the depth limit.
    - Protocol features: the manager's linked array mirrors its list of activations,
      undoing blocks restores it exactly, a restart rebuilds it, and a block that
      fails to start leaves it unchanged.
    - Resource limits: totals equal the sums of the accounts' limits in all reachable
      states; billing keeps accounts and blocks within limits; no arithmetic wraps.
    - Contract tables: after any sequence of intrinsics rows are counted, keys are
      unique, iterators are live and the RAM charged is the growth of the rows; the
      intrinsics act as operations on ordered maps; they fail only with errors the
      contract caused.
    - Action execution: every transaction ends, every scheduled action runs once and
      has a receipt with its sequence numbers, traces form a tree, inline actions
      of unprivileged contracts carry only authority their sender has.
    - Native actions: accounts, permissions, links and reference-counted code stay
      consistent from genesis on, and each action charges what it adds to the state.
    - Transactions: exactly one account pays, within its limits.  [node_trx_exec] and
      [transaction_ram_conserved] join the components: RAM is conserved over a whole
      transaction, whatever native actions, database intrinsics, privileged host functions
      and deferred transactions it uses.  [reducepolicy] takes back whole units of RAM
      that the account does not use.
    - Packed forms: the payloads of native actions and packed transactions come back from
      their bytes; a signature commits to the whole transaction; recovery gives exactly
      the keys of the signatures, when they are distinct; selected configuration parameters come back.
    - Configuration and schedules: the stored configuration is valid in all reachable
      states and gives valid block limits; every schedule a header state has was proposed
      in a block that is irreversible when it becomes pending, versions grow by one, and
      active producers are never empty.
    - Host functions: the whitelist is a set of names whatever their hashes are, and
      activation handlers never fail as long as the payers of pending deferred
      transactions use what they are refunded.
    - Queue, billing, snapshots: counters equal the contents up to a drift with two named
      causes; expired bills are moved, not lost; clients waiting for a snapshot are
      answered, and success means that the file is there; the schedule survives a restart
      when its file can be written.
    - Values: merkle roots agree; names, timestamps, symbols and assets survive their
      conversions; checked arithmetic is exact.

    These theorems state limits of the code: [close_open_unlinkable],
    [dpos_irreversible_can_decrease], [needed_key_reported_unused],
    [previous_of_removed_table], [refund_goes_to_contract], [asset_parse_defects],
    [config_eq_ignores_min_cpu], [refused_transaction_queued], [key_types_can_shrink],
    [forked_snapshot_blocks], [restart_loses_request], [uncovered_refund_throws],
    [unapplied_branch_undefined], [decreasing_lib_stops_irreversible_mode] and
    [listener_failure_diverges].

    ** Bounds and fuel

    Integers are [Z] with the wrap-around of their C++ type written at each
    operation.  Loops that are not structural take fuel computed from the data: a
    walk up a tree takes the number of stored rows, the removal queue the number of
    blocks, the unlinking of entries their number, a merkle level the number of
    leaves.  Running out is the separate result [fuel_exhausted], and the theorems
    about these operations show that it is never returned; only [apply_best_loop], the
    loop at the end of [init], has no such theorem.  The execution of a
    transaction takes a bound on the levels of inline actions and on the loop over
    notified accounts and is [None] when one runs out; [trx_exec_terminates] shows
    that 2^16 levels (the depth has 16 bits) and 2^64 notifications (accounts have 64
    bits) are always enough.  Reading past a vector
    or through a null pointer is [undefined_behavior], likewise excluded, but for the
    fork switch of [Controller]: its theorems exclude that result by hypothesis, and
    [unapplied_branch_undefined] shows that it occurs.

    ** What is not modelled

    Hash functions, signature recovery, zlib, [boost::lexical_cast] and
    [boost::trim_copy] are parameters, with the laws used stated at the theorem or in
    a class.  Logging, files, threads, sockets, the virtual machines, the cache of
    compiled code and the plugins are left out.  Instants are integers.  Theorems on
    whole transactions assume sizes within the widths of the counters and no
    collision of code hashes: the field [nd_within] collects these assumptions along an
    execution and no operation reads it.  Of traces the console,
    the elapsed time and the error fields are left out; of transactions the storing of
    delayed ones and the execution of stored ones; of what a contract in [NodeWorld] can
    call, [preactivate_feature] (modelled with the protocol features) and the host
    functions that change no state; of assets [to_real]
    and the variants; of snapshots their content and the text of the schedule's file.  Of
    the controller the transactions that do not get into a block, the replay of the block
    log at a start, the cache of recovered keys and running out of memory are left out;
    ephemeral blocks, which activate no features, are left out of [start_block]. *)

From Stdlib Require Export Ascii.
From Stdlib Require String.
From stdpp Require Export base tactics option list numbers gmap sets strings sorting.
From Stdlib Require Export ZArith Lia.

#[global] Open Scope Z_scope.

(** ** Fallible computations

    A C++ operation that may throw is a [result]: [Ok a] is a normal return,
    [Throw e] is the exception leaving the operation. *)

Inductive result (E A : Type) : Type :=
| Ok (a : A)
| Throw (e : E).
Arguments Ok {E A} a.
Arguments Throw {E A} e.

#[global] Instance result_ret {E} : MRet (result E) := fun A a => Ok a.
#[global] Instance result_bind {E} : MBind (result E) := fun A B f m =>
  match m with Ok a => f a | Throw e => Throw e end.
#[global] Instance result_fmap {E} : FMap (result E) := fun A B f m =>
  match m with Ok a => Ok (f a) | Throw e => Throw e end.

Definition is_ok {E A} (m : result E A) : bool :=
  match m with Ok _ => true | Throw _ => false end.

(** [SYS_ASSERT( cond, exc, ... )]: continue when [cond] holds, throw otherwise. *)
Definition sys_assert {E} (cond : bool) (exc : E) : result E unit :=
  if cond then Ok tt else Throw exc.

Definition of_option {E A} (exc : E) (o : option A) : result E A :=
  match o with Some a => Ok a | None => Throw exc end.

(** A loop [for( x : xs ) s = f(s, x)] whose body may throw. *)
Fixpoint foldM {E S X} (f : S -> X -> result E S) (s : S) (xs : list X) : result E S :=
  match xs with
  | [] => Ok s
  | x :: xs => s' ← f s x; foldM f s' xs
  end.

Section result_lemmas.
Context {E : Type}.

Lemma bind_Ok {A B} (f : A -> result E B) (m : result E A) b :
  (m ≫= f) = Ok b <-> exists a, m = Ok a /\ f a = Ok b.
Proof. destruct m; cbn; naive_solver. Qed.

Lemma bind_Throw {A B} (f : A -> result E B) (m : result E A) e :
  (m ≫= f) = Throw e <-> m = Throw e \/ exists a, m = Ok a /\ f a = Throw e.
Proof. destruct m; cbn; naive_solver. Qed.

Lemma sys_assert_Ok (b : bool) (e : E) (u : unit) : sys_assert b e = Ok u <-> b = true.
Proof. destruct b, u; cbn; naive_solver. Qed.

Lemma sys_assert_Throw (b : bool) (e e' : E) :
  sys_assert b e = Throw e' <-> b = false /\ e = e'.
Proof. destruct b; cbn; naive_solver. Qed.

Lemma of_option_Ok {A} (e : E) (o : option A) a : of_option e o = Ok a <-> o = Some a.
Proof. destruct o; cbn; naive_solver. Qed.

Lemma of_option_Throw {A} (e e' : E) (o : option A) :
  of_option e o = Throw e' <-> o = None /\ e = e'.
Proof. destruct o; cbn; naive_solver. Qed.

(** Step over an assertion that holds, and over one that fails. *)
Lemma bind_assert {A} (b : bool) (e : E) (f : unit -> result E A) :
  b = true -> (sys_assert b e ≫= f) = f tt.
Proof. by intros ->. Qed.

Lemma bind_assert_fails {A} (b : bool) (e : E) (f : unit -> result E A) :
  b = false -> (sys_assert b e ≫= f) = Throw e.
Proof. by intros ->. Qed.

(** An invariant of the body is an invariant of the loop. *)
Lemma foldM_invariant {S X} (P : S -> Prop) (f : S -> X -> result E S) s xs s' :
  (forall s x s', x ∈ xs -> P s -> f s x = Ok s' -> P s') ->
  P s -> foldM f s xs = Ok s' -> P s'.
Proof.
  revert s; induction xs as [|x xs IH]; intros s Hf Hs; cbn.
  - by intros [= <-].
  - intros (s1 & H1 & H2)%bind_Ok. eapply (IH s1); [|by eapply Hf; [left|..]|done].
    intros; eapply Hf; [by right|done..].
Qed.

Lemma foldM_app {S X} (f : S -> X -> result E S) s xs ys :
  foldM f s (xs ++ ys) = foldM f s xs ≫= fun s' => foldM f s' ys.
Proof.
  revert s; induction xs as [|x xs IH]; intros s; [done|]. cbn.
  destruct (f s x); cbn; [apply IH|done].
Qed.

(** Every element of a loop that returns was processed, in a state from which
    the loop went on by [R]-steps. *)
Lemma foldM_each {S X} (R : S -> S -> Prop) `{!PreOrder R} (f : S -> X -> result E S) s xs s' :
  (forall s x s', f s x = Ok s' -> R s s') -> foldM f s xs = Ok s' ->
  R s s' /\ forall x, x ∈ xs -> exists s1 s2, f s1 x = Ok s2 /\ R s2 s'.
Proof.
  intros Hf. revert s; induction xs as [|x xs IH]; intros s; cbn.
  - intros [= <-]. split; [reflexivity|]. by intros x ?%elem_of_nil.
  - intros (s1 & H1 & H2)%bind_Ok. destruct (IH _ H2) as [HR Hall]. split; [etransitivity; eauto|].
    intros y [->|Hy]%elem_of_cons; eauto.
Qed.

Lemma foldM_each_Ok {S X} (f : S -> X -> result E S) s xs s' x :
  foldM f s xs = Ok s' -> x ∈ xs -> exists s1 s2, f s1 x = Ok s2.
Proof.
  intros H Hx. assert (PreOrder (fun _ _ : S => True)) by (by split).
  destruct (foldM_each (fun _ _ => True) f s xs s') as [_ Hall]; [done|done|].
  destruct (Hall x Hx) as (s1 & s2 & ? & _). eauto.
Qed.
End result_lemmas.

(** Decompose the equations a successful (or throwing) run leaves behind. *)
Ltac inv_res1 :=
  match goal with
  | H : (_ ≫= _) = Ok _ |- _ => apply bind_Ok in H; destruct H as (? & ? & H)
  | H : sys_assert _ _ = Ok _ |- _ => apply sys_assert_Ok in H
  | H : of_option _ _ = Ok _ |- _ => apply of_option_Ok in H
  | H : sys_assert _ _ = Throw _ |- _ => apply sys_assert_Throw in H as [? ?]
  | H : of_option _ _ = Throw _ |- _ => apply of_option_Throw in H as [? ?]
  | H : mret _ = Ok _ |- _ => unfold mret, result_ret in H
  | H : Ok _ = Ok _ |- _ => injection H as H
  | H : Throw _ = Throw _ |- _ => injection H as H
  | H : Ok _ = Throw _ |- _ => discriminate H
  | H : Throw _ = Ok _ |- _ => discriminate H
  | p : unit |- _ => destruct p
  end.
Ltac inv_res := repeat (inv_res1; simplify_eq/=).

(** ** Lists *)

Section lists.
Context {A B : Type}.

Lemma NoDup_fmap_inj (f : A -> B) (l : list A) x y :
  NoDup (f <$> l) -> x ∈ l -> y ∈ l -> f x = f y -> x = y.
Proof.
  induction l as [|a l IH]; [by intros _ ?%elem_of_nil|].
  rewrite fmap_cons, NoDup_cons, !elem_of_cons. intros [Ha Hl] [->|Hx] [->|Hy] E; auto;
    destruct Ha; [rewrite E|rewrite <- E]; by apply list_elem_of_fmap_2.
Qed.

Lemma elem_of_List_filter (f : A -> bool) l x :
  x ∈ List.filter f l <-> x ∈ l /\ f x = true.
Proof. by rewrite !list_elem_of_In, filter_In. Qed.

Lemma NoDup_fmap_filter (f : A -> B) (g : A -> bool) l :
  NoDup (f <$> l) -> NoDup (f <$> List.filter g l).
Proof.
  induction l as [|a l IH]; [done|]. rewrite fmap_cons, NoDup_cons. intros [Ha Hl]. cbn.
  destruct (g a); [|auto]. rewrite fmap_cons, NoDup_cons. split; [|auto].
  contradict Ha. apply list_elem_of_fmap in Ha as (y & -> & [??]%elem_of_List_filter).
  by apply list_elem_of_fmap_2.
Qed.

Lemma filter_length_lt (f g : A -> bool) l x :
  x ∈ l -> g x = true -> f x = false -> (forall y, f y = true -> g y = true) ->
  (length (List.filter f l) < length (List.filter g l))%nat.
Proof.
  intros Hx Hg Hf Hfg.
  assert (forall l', (length (List.filter f l') <= length (List.filter g l'))%nat) as Hle.
  { induction l' as [|y l' IH]; [done|]. cbn. destruct (f y) eqn:E; [rewrite (Hfg _ E)|]; cbn; [lia|].
    destruct (g y); cbn; lia. }
  apply list_elem_of_split in Hx as (l1 & l2 & ->). rewrite !List.filter_app, !length_app.
  cbn. rewrite Hf, Hg. cbn. pose proof (Hle l1). pose proof (Hle l2). lia.
Qed.
End lists.

(** ** Strings

    A [std::string] is the list of its characters. *)

Definition chars (s : string) : list ascii := String.list_ascii_of_string s.
Definition char_code (c : ascii) : Z := Z.of_N (N_of_ascii c).

(** ** Machine integers

    A [w]-bit integer of the code is a [Z]; an arithmetic result is reduced
    with the wrap-around of its C++ type. *)

Definition u8 (z : Z) : Z := z mod 2 ^ 8.
Definition u16 (z : Z) : Z := z mod 2 ^ 16.
Definition u32 (z : Z) : Z := z mod 2 ^ 32.
Definition u64 (z : Z) : Z := z mod 2 ^ 64.
Definition u128 (z : Z) : Z := z mod 2 ^ 128.
(** Conversion of an integer to [int64_t] (two's complement). *)
Definition i64 (z : Z) : Z := (z + 2 ^ 63) mod 2 ^ 64 - 2 ^ 63.

Definition u32_max : Z := 2 ^ 32 - 1.
Definition u64_max : Z := 2 ^ 64 - 1.
Definition i64_max : Z := 2 ^ 63 - 1.

Definition is_u16 (z : Z) : Prop := 0 <= z < 2 ^ 16.
Definition is_u32 (z : Z) : Prop := 0 <= z < 2 ^ 32.
Definition is_u64 (z : Z) : Prop := 0 <= z < 2 ^ 64.
Definition is_i64 (z : Z) : Prop := - 2 ^ 63 <= z < 2 ^ 63.

Create HintDb chain.
Create Rewrite HintDb chain.

Lemma u64_small z : 0 <= z < 2 ^ 64 -> u64 z = z.
Proof. apply Z.mod_small. Qed.
Lemma u32_small z : 0 <= z < 2 ^ 32 -> u32 z = z.
Proof. apply Z.mod_small. Qed.
Lemma u128_small z : 0 <= z < 2 ^ 128 -> u128 z = z.
Proof. apply Z.mod_small. Qed.
Lemma i64_small z : - 2 ^ 63 <= z < 2 ^ 63 -> i64 z = z.
Proof. intros. unfold i64. rewrite Z.mod_small by lia. lia. Qed.
Lemma u64_range z : is_u64 (u64 z).
Proof. by apply Z.mod_pos_bound. Qed.
Lemma u32_range z : is_u32 (u32 z).
Proof. by apply Z.mod_pos_bound. Qed.
Lemma i64_range z : is_i64 (i64 z).
Proof. unfold i64, is_i64. pose proof (Z.mod_pos_bound (z + 2 ^ 63) (2 ^ 64) eq_refl). lia. Qed.

Lemma u64_idemp_l a b : u64 (u64 a + b) = u64 (a + b).
Proof. unfold u64. by rewrite Z.add_mod_idemp_l. Qed.

(** Negating a negative [int64_t] and reading it unsigned is exact, even at the
    minimum value. *)
Lemma u64_neg_i64 z : - 2 ^ 63 <= z < 0 -> u64 (i64 (- z)) = - z.
Proof.
  intros. destruct (decide (z = - 2 ^ 63)) as [->|]; [reflexivity|].
  rewrite i64_small, u64_small by lia. done.
Qed.

(** Sums over lists *)
Definition sum_by {A} (f : A -> Z) (l : list A) : Z := foldr (fun x s => f x + s) 0 l.

Lemma sum_by_cons {A} (f : A -> Z) x l : sum_by f (x :: l) = f x + sum_by f l.
Proof. done. Qed.
Lemma sum_by_app {A} (f : A -> Z) l1 l2 : sum_by f (l1 ++ l2) = sum_by f l1 + sum_by f l2.
Proof. induction l1 as [|x l1 IH]; [done|]. cbn [app]. rewrite !sum_by_cons. lia. Qed.

(** The first element with the smallest key: where an index ordered by the key begins. *)
Fixpoint first_min {A} (key : A -> Z) (l : list A) : option A :=
  match l with
  | [] => None
  | x :: l => match first_min key l with
              | Some y => if key y <? key x then Some y else Some x
              | None => Some x
              end
  end.

Lemma first_min_spec {A} (key : A -> Z) l :
  match first_min key l with
  | None => l = []
  | Some x => x ∈ l /\ forall y, y ∈ l -> key x <= key y
  end.
Proof.
  induction l as [|y l IH]; [done|]. cbn. destruct (first_min key l) as [s|].
  - destruct IH as [Hs Hmin]. destruct (Z.ltb_spec (key s) (key y)).
    + split; [by right|]. intros x [->|Hx]%elem_of_cons; [lia|by apply Hmin].
    + split; [by left|]. intros x [->|Hx]%elem_of_cons; [lia|]. pose proof (Hmin x Hx). lia.
  - subst. split; [by left|]. intros x [->|[]%elem_of_nil]%elem_of_cons. lia.
Qed.

(** Decide a statement about a bounded integer by running it. *)
Lemma seqZ_check (P : Z -> bool) n k :
  forallb P (seqZ 0 n) = true -> 0 <= k < n -> P k = true.
Proof.
  intros H Hk. eapply forallb_forall; [exact H|].
  apply list_elem_of_In, elem_of_seqZ. lia.
Qed.

(** Joining bit fields that do not overlap is addition. *)
Lemma lor_shifted a b k : 0 <= k -> 0 <= b < 2 ^ k -> Z.lor (a * 2 ^ k) b = a * 2 ^ k + b.
Proof.
  intros Hk Hb. symmetry. apply Z.add_nocarry_lor, Z.bits_inj'. intros n Hn.
  rewrite Z.land_spec, Z.bits_0, <- Z.shiftl_mul_pow2, Z.shiftl_spec by lia.
  destruct (decide (n < k)).
  - by rewrite (Z.testbit_neg_r a) by lia.
  - destruct (decide (b = 0)) as [->|]; [by rewrite Z.bits_0, andb_false_r|].
    rewrite (Z.bits_above_log2 b), andb_false_r; [done|lia|].
    apply Z.log2_lt_pow2; [lia|]. apply Z.lt_le_trans with (2 ^ k); [lia|].
    apply Z.pow_le_mono_r; lia.
Qed.

#[export] Hint Resolve u64_range u32_range i64_range : chain.
#[export] Hint Rewrite u64_small u32_small u128_small i64_small using lia : chain.

Ltac bool_to_Z :=
  repeat match goal with
  | H : (_ <? _) = true |- _ => apply Z.ltb_lt in H
  | H : (_ <? _) = false |- _ => apply Z.ltb_ge in H
  | H : (_ <=? _) = true |- _ => apply Z.leb_le in H
  | H : (_ <=? _) = false |- _ => apply Z.leb_gt in H
  | H : (_ =? _) = true |- _ => apply Z.eqb_eq in H
  | H : (_ =? _) = false |- _ => apply Z.eqb_neq in H
  | H : (_ && _) = true |- _ => apply andb_true_iff in H as [? ?]
  | H : (_ || _) = false |- _ => apply orb_false_iff in H as [? ?]
  | H : negb _ = true |- _ => apply negb_true_iff in H
  | H : negb _ = false |- _ => apply negb_false_iff in H
  end.
