(* ===== verification/Exceptions.v ===== *)
(** * The exception hierarchy ([exceptions.hpp])

    Every exception class the chain library declares, with its numeric code and
    its base class, and the classes of other libraries (fc, std) that leave the
    modelled operations.  Codes are what API clients and contracts see, so
    their uniqueness is what lets [exn_of_code] recover the class. *)

From S2P Require Import Prelude.

Inductive exn : Set :=
| chain_exception
| chain_type_exception
| name_type_exception
| public_key_type_exception
| private_key_type_exception
| authority_type_exception
| action_type_exception
| transaction_type_exception
| abi_type_exception
| block_id_type_exception
| transaction_id_type_exception
| packed_transaction_type_exception
| asset_type_exception
| chain_id_type_exception
| fixed_key_type_exception
| symbol_type_exception
| unactivated_key_type
| unactivated_signature_type
| fork_database_exception
| fork_db_block_not_found
| block_validate_exception
| unlinkable_block_exception
| block_tx_output_exception
| block_concurrency_exception
| block_lock_exception
| block_resource_exhausted
| block_too_old_exception
| block_from_the_future
| wrong_signing_key
| wrong_producer
| invalid_block_header_extension
| ill_formed_protocol_feature_activation
| invalid_block_extension
| ill_formed_additional_block_signatures_extension
| transaction_exception
| tx_decompression_error
| tx_no_action
| tx_no_auths
| cfa_irrelevant_auth
| expired_tx_exception
| tx_exp_too_far_exception
| invalid_ref_block_exception
| tx_duplicate
| deferred_tx_duplicate
| cfa_inside_generated_tx
| tx_not_found
| too_many_tx_at_once
| tx_too_big
| unknown_transaction_compression
| invalid_transaction_extension
| ill_formed_deferred_transaction_generation_context
| disallowed_transaction_extensions_bad_block_exception
| tx_resource_exhaustion
| action_validate_exception
| account_name_exists_exception
| invalid_action_args_exception
| sysio_assert_message_exception
| sysio_assert_code_exception
| action_not_found_exception
| action_data_and_struct_mismatch
| unaccessible_api
| abort_called
| inline_action_too_big
| unauthorized_ram_usage_increase
| restricted_error_code_exception
| action_return_value_exception
| database_exception
| permission_query_exception
| account_query_exception
| contract_table_query_exception
| contract_query_exception
| bad_database_version_exception
| guard_exception
| database_guard_exception
| wasm_exception
| page_memory_error
| wasm_execution_error
| wasm_serialization_error
| overlapping_memory_error
| binaryen_exception
| resource_exhausted_exception
| ram_usage_exceeded
| tx_net_usage_exceeded
| block_net_usage_exceeded
| tx_cpu_usage_exceeded
| block_cpu_usage_exceeded
| deadline_exception
| greylist_net_usage_exceeded
| greylist_cpu_usage_exceeded
| ro_trx_vm_oc_compile_temporary_failure
| ro_trx_vm_oc_compile_permanent_failure
| leeway_deadline_exception
| authorization_exception
| tx_duplicate_sig
| tx_irrelevant_sig
| unsatisfied_authorization
| missing_auth_exception
| irrelevant_auth_exception
| insufficient_delay_exception
| invalid_permission
| unlinkable_min_permission_action
| invalid_parent_permission
| misc_exception
| rate_limiting_state_inconsistent
| unknown_block_exception
| unknown_transaction_exception
| fixed_reversible_db_exception
| extract_genesis_state_exception
| subjective_block_production_exception
| multiple_voter_info
| unsupported_feature
| node_management_success
| json_parse_exception
| sig_variable_size_limit_exception
| plugin_exception
| missing_chain_api_plugin_exception
| missing_wallet_api_plugin_exception
| missing_history_api_plugin_exception
| missing_net_api_plugin_exception
| missing_chain_plugin_exception
| plugin_config_exception
| missing_trace_api_plugin_exception
| wallet_exception
| wallet_exist_exception
| wallet_nonexistent_exception
| wallet_locked_exception
| wallet_missing_pub_key_exception
| wallet_invalid_password_exception
| wallet_not_available_exception
| wallet_unlocked_exception
| key_exist_exception
| key_nonexistent_exception
| unsupported_key_type_exception
| invalid_lock_timeout_exception
| secure_enclave_exception
| whitelist_blacklist_exception
| actor_whitelist_exception
| actor_blacklist_exception
| contract_whitelist_exception
| contract_blacklist_exception
| action_blacklist_exception
| key_blacklist_exception
| controller_emit_signal_exception
| checkpoint_exception
| state_history_write_exception
| abi_exception
| abi_not_found_exception
| invalid_ricardian_clause_exception
| invalid_ricardian_action_exception
| invalid_type_inside_abi
| duplicate_abi_type_def_exception
| duplicate_abi_struct_def_exception
| duplicate_abi_action_def_exception
| duplicate_abi_table_def_exception
| duplicate_abi_err_msg_def_exception
| abi_serialization_deadline_exception
| abi_recursion_depth_exception
| abi_circular_def_exception
| unpack_exception
| pack_exception
| duplicate_abi_variant_def_exception
| unsupported_abi_version_exception
| duplicate_abi_action_results_def_exception
| contract_exception
| invalid_table_payer
| table_access_violation
| invalid_table_iterator
| table_not_in_cache
| table_operation_not_permitted
| invalid_contract_vm_type
| invalid_contract_vm_version
| set_exact_code
| wasm_file_not_found
| abi_file_not_found
| wasm_config_unknown_version
| config_parse_error
| producer_exception
| producer_priv_key_not_found
| missing_pending_block_state
| producer_double_confirm
| producer_schedule_exception
| producer_not_in_schedule
| snapshot_directory_not_found_exception
| snapshot_exists_exception
| snapshot_finalization_exception
| invalid_protocol_features_to_activate
| no_block_signatures
| unsupported_multiple_block_signatures
| duplicate_snapshot_request
| snapshot_request_not_found
| invalid_snapshot_request
| snapshot_execution_exception
| reversible_blocks_exception
| invalid_reversible_blocks_dir
| reversible_blocks_backup_dir_exist
| gap_in_reversible_blocks_db
| block_log_exception
| block_log_unsupported_version
| block_log_append_fail
| block_log_not_found
| block_log_backup_dir_exist
| block_index_not_found
| http_exception
| invalid_http_client_root_cert
| invalid_http_response
| resolved_to_multiple_ports
| fail_to_resolve_host
| http_request_fail
| invalid_http_request
| resource_limit_exception
| contract_api_exception
| crypto_api_exception
| db_api_exception
| arithmetic_exception
| snapshot_exception
| snapshot_validation_exception
| protocol_feature_exception
| protocol_feature_validation_exception
| protocol_feature_bad_block_exception
| protocol_feature_iterator_exception
(* classes of fc and of the standard library *)
| std_out_of_range | std_logic_error | fc_overflow_exception | fc_underflow_exception
| fc_parse_error_exception | fc_invalid_arg_exception | fc_assert_exception
| fc_out_of_range_exception | fc_std_exception_wrapper | fc_unhandled_exception
| fc_bad_cast_exception | fc_key_not_found_exception
(* a loop of the model that was not given enough fuel: no C++ counterpart *)
| fuel_exhausted
(** No C++ exception either: the code has undefined behaviour, such as reading
    through a null pointer. *)
| undefined_behavior.

(** [TYPE::code_enum::code_value]. *)
Definition exn_code (e : exn) : option Z :=
  match e with
  | chain_exception => Some 3000000
  | chain_type_exception => Some 3010000
  | name_type_exception => Some 3010001
  | public_key_type_exception => Some 3010002
  | private_key_type_exception => Some 3010003
  | authority_type_exception => Some 3010004
  | action_type_exception => Some 3010005
  | transaction_type_exception => Some 3010006
  | abi_type_exception => Some 3010007
  | block_id_type_exception => Some 3010008
  | transaction_id_type_exception => Some 3010009
  | packed_transaction_type_exception => Some 3010010
  | asset_type_exception => Some 3010011
  | chain_id_type_exception => Some 3010012
  | fixed_key_type_exception => Some 3010013
  | symbol_type_exception => Some 3010014
  | unactivated_key_type => Some 3010015
  | unactivated_signature_type => Some 3010016
  | fork_database_exception => Some 3020000
  | fork_db_block_not_found => Some 3020001
  | block_validate_exception => Some 3030000
  | unlinkable_block_exception => Some 3030001
  | block_tx_output_exception => Some 3030002
  | block_concurrency_exception => Some 3030003
  | block_lock_exception => Some 3030004
  | block_resource_exhausted => Some 3030005
  | block_too_old_exception => Some 3030006
  | block_from_the_future => Some 3030007
  | wrong_signing_key => Some 3030008
  | wrong_producer => Some 3030009
  | invalid_block_header_extension => Some 3030010
  | ill_formed_protocol_feature_activation => Some 3030011
  | invalid_block_extension => Some 3030012
  | ill_formed_additional_block_signatures_extension => Some 3030013
  | transaction_exception => Some 3040000
  | tx_decompression_error => Some 3040001
  | tx_no_action => Some 3040002
  | tx_no_auths => Some 3040003
  | cfa_irrelevant_auth => Some 3040004
  | expired_tx_exception => Some 3040005
  | tx_exp_too_far_exception => Some 3040006
  | invalid_ref_block_exception => Some 3040007
  | tx_duplicate => Some 3040008
  | deferred_tx_duplicate => Some 3040009
  | cfa_inside_generated_tx => Some 3040010
  | tx_not_found => Some 3040011
  | too_many_tx_at_once => Some 3040012
  | tx_too_big => Some 3040013
  | unknown_transaction_compression => Some 3040014
  | invalid_transaction_extension => Some 3040015
  | ill_formed_deferred_transaction_generation_context => Some 3040016
  | disallowed_transaction_extensions_bad_block_exception => Some 3040017
  | tx_resource_exhaustion => Some 3040018
  | action_validate_exception => Some 3050000
  | account_name_exists_exception => Some 3050001
  | invalid_action_args_exception => Some 3050002
  | sysio_assert_message_exception => Some 3050003
  | sysio_assert_code_exception => Some 3050004
  | action_not_found_exception => Some 3050005
  | action_data_and_struct_mismatch => Some 3050006
  | unaccessible_api => Some 3050007
  | abort_called => Some 3050008
  | inline_action_too_big => Some 3050009
  | unauthorized_ram_usage_increase => Some 3050010
  | restricted_error_code_exception => Some 3050011
  | action_return_value_exception => Some 3050014
  | database_exception => Some 3060000
  | permission_query_exception => Some 3060001
  | account_query_exception => Some 3060002
  | contract_table_query_exception => Some 3060003
  | contract_query_exception => Some 3060004
  | bad_database_version_exception => Some 3060005
  | guard_exception => Some 3060100
  | database_guard_exception => Some 3060101
  | wasm_exception => Some 3070000
  | page_memory_error => Some 3070001
  | wasm_execution_error => Some 3070002
  | wasm_serialization_error => Some 3070003
  | overlapping_memory_error => Some 3070004
  | binaryen_exception => Some 3070005
  | resource_exhausted_exception => Some 3080000
  | ram_usage_exceeded => Some 3080001
  | tx_net_usage_exceeded => Some 3080002
  | block_net_usage_exceeded => Some 3080003
  | tx_cpu_usage_exceeded => Some 3080004
  | block_cpu_usage_exceeded => Some 3080005
  | deadline_exception => Some 3080006
  | greylist_net_usage_exceeded => Some 3080007
  | greylist_cpu_usage_exceeded => Some 3080008
  | ro_trx_vm_oc_compile_temporary_failure => Some 3080009
  | ro_trx_vm_oc_compile_permanent_failure => Some 3080010
  | leeway_deadline_exception => Some 3081001
  | authorization_exception => Some 3090000
  | tx_duplicate_sig => Some 3090001
  | tx_irrelevant_sig => Some 3090002
  | unsatisfied_authorization => Some 3090003
  | missing_auth_exception => Some 3090004
  | irrelevant_auth_exception => Some 3090005
  | insufficient_delay_exception => Some 3090006
  | invalid_permission => Some 3090007
  | unlinkable_min_permission_action => Some 3090008
  | invalid_parent_permission => Some 3090009
  | misc_exception => Some 3100000
  | rate_limiting_state_inconsistent => Some 3100001
  | unknown_block_exception => Some 3100002
  | unknown_transaction_exception => Some 3100003
  | fixed_reversible_db_exception => Some 3100004
  | extract_genesis_state_exception => Some 3100005
  | subjective_block_production_exception => Some 3100006
  | multiple_voter_info => Some 3100007
  | unsupported_feature => Some 3100008
  | node_management_success => Some 3100009
  | json_parse_exception => Some 3100010
  | sig_variable_size_limit_exception => Some 3100011
  | plugin_exception => Some 3110000
  | missing_chain_api_plugin_exception => Some 3110001
  | missing_wallet_api_plugin_exception => Some 3110002
  | missing_history_api_plugin_exception => Some 3110003
  | missing_net_api_plugin_exception => Some 3110004
  | missing_chain_plugin_exception => Some 3110005
  | plugin_config_exception => Some 3110006
  | missing_trace_api_plugin_exception => Some 3110007
  | wallet_exception => Some 3120000
  | wallet_exist_exception => Some 3120001
  | wallet_nonexistent_exception => Some 3120002
  | wallet_locked_exception => Some 3120003
  | wallet_missing_pub_key_exception => Some 3120004
  | wallet_invalid_password_exception => Some 3120005
  | wallet_not_available_exception => Some 3120006
  | wallet_unlocked_exception => Some 3120007
  | key_exist_exception => Some 3120008
  | key_nonexistent_exception => Some 3120009
  | unsupported_key_type_exception => Some 3120010
  | invalid_lock_timeout_exception => Some 3120011
  | secure_enclave_exception => Some 3120012
  | whitelist_blacklist_exception => Some 3130000
  | actor_whitelist_exception => Some 3130001
  | actor_blacklist_exception => Some 3130002
  | contract_whitelist_exception => Some 3130003
  | contract_blacklist_exception => Some 3130004
  | action_blacklist_exception => Some 3130005
  | key_blacklist_exception => Some 3130006
  | controller_emit_signal_exception => Some 3140000
  | checkpoint_exception => Some 3140001
  | state_history_write_exception => Some 3140002
  | abi_exception => Some 3015000
  | abi_not_found_exception => Some 3015001
  | invalid_ricardian_clause_exception => Some 3015002
  | invalid_ricardian_action_exception => Some 3015003
  | invalid_type_inside_abi => Some 3015004
  | duplicate_abi_type_def_exception => Some 3015005
  | duplicate_abi_struct_def_exception => Some 3015006
  | duplicate_abi_action_def_exception => Some 3015007
  | duplicate_abi_table_def_exception => Some 3015008
  | duplicate_abi_err_msg_def_exception => Some 3015009
  | abi_serialization_deadline_exception => Some 3015010
  | abi_recursion_depth_exception => Some 3015011
  | abi_circular_def_exception => Some 3015012
  | unpack_exception => Some 3015013
  | pack_exception => Some 3015014
  | duplicate_abi_variant_def_exception => Some 3015015
  | unsupported_abi_version_exception => Some 3015016
  | duplicate_abi_action_results_def_exception => Some 3015017
  | contract_exception => Some 3160000
  | invalid_table_payer => Some 3160001
  | table_access_violation => Some 3160002
  | invalid_table_iterator => Some 3160003
  | table_not_in_cache => Some 3160004
  | table_operation_not_permitted => Some 3160005
  | invalid_contract_vm_type => Some 3160006
  | invalid_contract_vm_version => Some 3160007
  | set_exact_code => Some 3160008
  | wasm_file_not_found => Some 3160009
  | abi_file_not_found => Some 3160010
  | wasm_config_unknown_version => Some 3160015
  | config_parse_error => Some 3160016
  | producer_exception => Some 3170000
  | producer_priv_key_not_found => Some 3170001
  | missing_pending_block_state => Some 3170002
  | producer_double_confirm => Some 3170003
  | producer_schedule_exception => Some 3170004
  | producer_not_in_schedule => Some 3170006
  | snapshot_directory_not_found_exception => Some 3170007
  | snapshot_exists_exception => Some 3170008
  | snapshot_finalization_exception => Some 3170009
  | invalid_protocol_features_to_activate => Some 3170010
  | no_block_signatures => Some 3170011
  | unsupported_multiple_block_signatures => Some 3170012
  | duplicate_snapshot_request => Some 3170013
  | snapshot_request_not_found => Some 3170014
  | invalid_snapshot_request => Some 3170015
  | snapshot_execution_exception => Some 3170016
  | reversible_blocks_exception => Some 3180000
  | invalid_reversible_blocks_dir => Some 3180001
  | reversible_blocks_backup_dir_exist => Some 3180002
  | gap_in_reversible_blocks_db => Some 3180003
  | block_log_exception => Some 3190000
  | block_log_unsupported_version => Some 3190001
  | block_log_append_fail => Some 3190002
  | block_log_not_found => Some 3190003
  | block_log_backup_dir_exist => Some 3190004
  | block_index_not_found => Some 3190005
  | http_exception => Some 3200000
  | invalid_http_client_root_cert => Some 3200001
  | invalid_http_response => Some 3200002
  | resolved_to_multiple_ports => Some 3200003
  | fail_to_resolve_host => Some 3200004
  | http_request_fail => Some 3200005
  | invalid_http_request => Some 3200006
  | resource_limit_exception => Some 3210000
  | contract_api_exception => Some 3230000
  | crypto_api_exception => Some 3230001
  | db_api_exception => Some 3230002
  | arithmetic_exception => Some 3230003
  | snapshot_exception => Some 3240000
  | snapshot_validation_exception => Some 3240001
  | protocol_feature_exception => Some 3250000
  | protocol_feature_validation_exception => Some 3250001
  | protocol_feature_bad_block_exception => Some 3250002
  | protocol_feature_iterator_exception => Some 3250003
  | _ => None
  end.

(** The base class, [None] for the classes derived from [fc::exception] or
    from [std::exception]. *)
Definition exn_base (e : exn) : option exn :=
  match e with
  | chain_type_exception => Some chain_exception
  | name_type_exception => Some chain_type_exception
  | public_key_type_exception => Some chain_type_exception
  | private_key_type_exception => Some chain_type_exception
  | authority_type_exception => Some chain_type_exception
  | action_type_exception => Some chain_type_exception
  | transaction_type_exception => Some chain_type_exception
  | abi_type_exception => Some chain_type_exception
  | block_id_type_exception => Some chain_type_exception
  | transaction_id_type_exception => Some chain_type_exception
  | packed_transaction_type_exception => Some chain_type_exception
  | asset_type_exception => Some chain_type_exception
  | chain_id_type_exception => Some chain_type_exception
  | fixed_key_type_exception => Some chain_type_exception
  | symbol_type_exception => Some chain_type_exception
  | unactivated_key_type => Some chain_type_exception
  | unactivated_signature_type => Some chain_type_exception
  | fork_database_exception => Some chain_exception
  | fork_db_block_not_found => Some fork_database_exception
  | block_validate_exception => Some chain_exception
  | unlinkable_block_exception => Some block_validate_exception
  | block_tx_output_exception => Some block_validate_exception
  | block_concurrency_exception => Some block_validate_exception
  | block_lock_exception => Some block_validate_exception
  | block_resource_exhausted => Some block_validate_exception
  | block_too_old_exception => Some block_validate_exception
  | block_from_the_future => Some block_validate_exception
  | wrong_signing_key => Some block_validate_exception
  | wrong_producer => Some block_validate_exception
  | invalid_block_header_extension => Some block_validate_exception
  | ill_formed_protocol_feature_activation => Some block_validate_exception
  | invalid_block_extension => Some block_validate_exception
  | ill_formed_additional_block_signatures_extension => Some block_validate_exception
  | transaction_exception => Some chain_exception
  | tx_decompression_error => Some transaction_exception
  | tx_no_action => Some transaction_exception
  | tx_no_auths => Some transaction_exception
  | cfa_irrelevant_auth => Some transaction_exception
  | expired_tx_exception => Some transaction_exception
  | tx_exp_too_far_exception => Some transaction_exception
  | invalid_ref_block_exception => Some transaction_exception
  | tx_duplicate => Some transaction_exception
  | deferred_tx_duplicate => Some transaction_exception
  | cfa_inside_generated_tx => Some transaction_exception
  | tx_not_found => Some transaction_exception
  | too_many_tx_at_once => Some transaction_exception
  | tx_too_big => Some transaction_exception
  | unknown_transaction_compression => Some transaction_exception
  | invalid_transaction_extension => Some transaction_exception
  | ill_formed_deferred_transaction_generation_context => Some transaction_exception
  | disallowed_transaction_extensions_bad_block_exception => Some transaction_exception
  | tx_resource_exhaustion => Some transaction_exception
  | action_validate_exception => Some chain_exception
  | account_name_exists_exception => Some action_validate_exception
  | invalid_action_args_exception => Some action_validate_exception
  | sysio_assert_message_exception => Some action_validate_exception
  | sysio_assert_code_exception => Some action_validate_exception
  | action_not_found_exception => Some action_validate_exception
  | action_data_and_struct_mismatch => Some action_validate_exception
  | unaccessible_api => Some action_validate_exception
  | abort_called => Some action_validate_exception
  | inline_action_too_big => Some action_validate_exception
  | unauthorized_ram_usage_increase => Some action_validate_exception
  | restricted_error_code_exception => Some action_validate_exception
  | action_return_value_exception => Some action_validate_exception
  | database_exception => Some chain_exception
  | permission_query_exception => Some database_exception
  | account_query_exception => Some database_exception
  | contract_table_query_exception => Some database_exception
  | contract_query_exception => Some database_exception
  | bad_database_version_exception => Some database_exception
  | guard_exception => Some database_exception
  | database_guard_exception => Some guard_exception
  | wasm_exception => Some chain_exception
  | page_memory_error => Some wasm_exception
  | wasm_execution_error => Some wasm_exception
  | wasm_serialization_error => Some wasm_exception
  | overlapping_memory_error => Some wasm_exception
  | binaryen_exception => Some wasm_exception
  | resource_exhausted_exception => Some chain_exception
  | ram_usage_exceeded => Some resource_exhausted_exception
  | tx_net_usage_exceeded => Some resource_exhausted_exception
  | block_net_usage_exceeded => Some resource_exhausted_exception
  | tx_cpu_usage_exceeded => Some resource_exhausted_exception
  | block_cpu_usage_exceeded => Some resource_exhausted_exception
  | deadline_exception => Some resource_exhausted_exception
  | greylist_net_usage_exceeded => Some resource_exhausted_exception
  | greylist_cpu_usage_exceeded => Some resource_exhausted_exception
  | ro_trx_vm_oc_compile_temporary_failure => Some resource_exhausted_exception
  | ro_trx_vm_oc_compile_permanent_failure => Some resource_exhausted_exception
  | leeway_deadline_exception => Some deadline_exception
  | authorization_exception => Some chain_exception
  | tx_duplicate_sig => Some authorization_exception
  | tx_irrelevant_sig => Some authorization_exception
  | unsatisfied_authorization => Some authorization_exception
  | missing_auth_exception => Some authorization_exception
  | irrelevant_auth_exception => Some authorization_exception
  | insufficient_delay_exception => Some authorization_exception
  | invalid_permission => Some authorization_exception
  | unlinkable_min_permission_action => Some authorization_exception
  | invalid_parent_permission => Some authorization_exception
  | misc_exception => Some chain_exception
  | rate_limiting_state_inconsistent => Some misc_exception
  | unknown_block_exception => Some misc_exception
  | unknown_transaction_exception => Some misc_exception
  | fixed_reversible_db_exception => Some misc_exception
  | extract_genesis_state_exception => Some misc_exception
  | subjective_block_production_exception => Some misc_exception
  | multiple_voter_info => Some misc_exception
  | unsupported_feature => Some misc_exception
  | node_management_success => Some misc_exception
  | json_parse_exception => Some misc_exception
  | sig_variable_size_limit_exception => Some misc_exception
  | plugin_exception => Some chain_exception
  | missing_chain_api_plugin_exception => Some plugin_exception
  | missing_wallet_api_plugin_exception => Some plugin_exception
  | missing_history_api_plugin_exception => Some plugin_exception
  | missing_net_api_plugin_exception => Some plugin_exception
  | missing_chain_plugin_exception => Some plugin_exception
  | plugin_config_exception => Some plugin_exception
  | missing_trace_api_plugin_exception => Some plugin_exception
  | wallet_exception => Some chain_exception
  | wallet_exist_exception => Some wallet_exception
  | wallet_nonexistent_exception => Some wallet_exception
  | wallet_locked_exception => Some wallet_exception
  | wallet_missing_pub_key_exception => Some wallet_exception
  | wallet_invalid_password_exception => Some wallet_exception
  | wallet_not_available_exception => Some wallet_exception
  | wallet_unlocked_exception => Some wallet_exception
  | key_exist_exception => Some wallet_exception
  | key_nonexistent_exception => Some wallet_exception
  | unsupported_key_type_exception => Some wallet_exception
  | invalid_lock_timeout_exception => Some wallet_exception
  | secure_enclave_exception => Some wallet_exception
  | whitelist_blacklist_exception => Some chain_exception
  | actor_whitelist_exception => Some whitelist_blacklist_exception
  | actor_blacklist_exception => Some whitelist_blacklist_exception
  | contract_whitelist_exception => Some whitelist_blacklist_exception
  | contract_blacklist_exception => Some whitelist_blacklist_exception
  | action_blacklist_exception => Some whitelist_blacklist_exception
  | key_blacklist_exception => Some whitelist_blacklist_exception
  | controller_emit_signal_exception => Some chain_exception
  | checkpoint_exception => Some controller_emit_signal_exception
  | state_history_write_exception => Some controller_emit_signal_exception
  | abi_exception => Some chain_exception
  | abi_not_found_exception => Some abi_exception
  | invalid_ricardian_clause_exception => Some abi_exception
  | invalid_ricardian_action_exception => Some abi_exception
  | invalid_type_inside_abi => Some abi_exception
  | duplicate_abi_type_def_exception => Some abi_exception
  | duplicate_abi_struct_def_exception => Some abi_exception
  | duplicate_abi_action_def_exception => Some abi_exception
  | duplicate_abi_table_def_exception => Some abi_exception
  | duplicate_abi_err_msg_def_exception => Some abi_exception
  | abi_serialization_deadline_exception => Some abi_exception
  | abi_recursion_depth_exception => Some abi_exception
  | abi_circular_def_exception => Some abi_exception
  | unpack_exception => Some abi_exception
  | pack_exception => Some abi_exception
  | duplicate_abi_variant_def_exception => Some abi_exception
  | unsupported_abi_version_exception => Some abi_exception
  | duplicate_abi_action_results_def_exception => Some abi_exception
  | contract_exception => Some chain_exception
  | invalid_table_payer => Some contract_exception
  | table_access_violation => Some contract_exception
  | invalid_table_iterator => Some contract_exception
  | table_not_in_cache => Some contract_exception
  | table_operation_not_permitted => Some contract_exception
  | invalid_contract_vm_type => Some contract_exception
  | invalid_contract_vm_version => Some contract_exception
  | set_exact_code => Some contract_exception
  | wasm_file_not_found => Some contract_exception
  | abi_file_not_found => Some contract_exception
  | wasm_config_unknown_version => Some contract_exception
  | config_parse_error => Some contract_exception
  | producer_exception => Some chain_exception
  | producer_priv_key_not_found => Some producer_exception
  | missing_pending_block_state => Some producer_exception
  | producer_double_confirm => Some producer_exception
  | producer_schedule_exception => Some producer_exception
  | producer_not_in_schedule => Some producer_exception
  | snapshot_directory_not_found_exception => Some producer_exception
  | snapshot_exists_exception => Some producer_exception
  | snapshot_finalization_exception => Some producer_exception
  | invalid_protocol_features_to_activate => Some producer_exception
  | no_block_signatures => Some producer_exception
  | unsupported_multiple_block_signatures => Some producer_exception
  | duplicate_snapshot_request => Some producer_exception
  | snapshot_request_not_found => Some producer_exception
  | invalid_snapshot_request => Some producer_exception
  | snapshot_execution_exception => Some producer_exception
  | reversible_blocks_exception => Some chain_exception
  | invalid_reversible_blocks_dir => Some reversible_blocks_exception
  | reversible_blocks_backup_dir_exist => Some reversible_blocks_exception
  | gap_in_reversible_blocks_db => Some reversible_blocks_exception
  | block_log_exception => Some chain_exception
  | block_log_unsupported_version => Some block_log_exception
  | block_log_append_fail => Some block_log_exception
  | block_log_not_found => Some block_log_exception
  | block_log_backup_dir_exist => Some block_log_exception
  | block_index_not_found => Some block_log_exception
  | http_exception => Some chain_exception
  | invalid_http_client_root_cert => Some http_exception
  | invalid_http_response => Some http_exception
  | resolved_to_multiple_ports => Some http_exception
  | fail_to_resolve_host => Some http_exception
  | http_request_fail => Some http_exception
  | invalid_http_request => Some http_exception
  | resource_limit_exception => Some chain_exception
  | contract_api_exception => Some chain_exception
  | crypto_api_exception => Some contract_api_exception
  | db_api_exception => Some contract_api_exception
  | arithmetic_exception => Some contract_api_exception
  | snapshot_exception => Some chain_exception
  | snapshot_validation_exception => Some snapshot_exception
  | protocol_feature_exception => Some chain_exception
  | protocol_feature_validation_exception => Some protocol_feature_exception
  | protocol_feature_bad_block_exception => Some protocol_feature_exception
  | protocol_feature_iterator_exception => Some protocol_feature_exception
  | _ => None
  end.

Definition chain_exns : list exn :=
  [chain_exception;
   chain_type_exception;
   name_type_exception;
   public_key_type_exception;
   private_key_type_exception;
   authority_type_exception;
   action_type_exception;
   transaction_type_exception;
   abi_type_exception;
   block_id_type_exception;
   transaction_id_type_exception;
   packed_transaction_type_exception;
   asset_type_exception;
   chain_id_type_exception;
   fixed_key_type_exception;
   symbol_type_exception;
   unactivated_key_type;
   unactivated_signature_type;
   fork_database_exception;
   fork_db_block_not_found;
   block_validate_exception;
   unlinkable_block_exception;
   block_tx_output_exception;
   block_concurrency_exception;
   block_lock_exception;
   block_resource_exhausted;
   block_too_old_exception;
   block_from_the_future;
   wrong_signing_key;
   wrong_producer;
   invalid_block_header_extension;
   ill_formed_protocol_feature_activation;
   invalid_block_extension;
   ill_formed_additional_block_signatures_extension;
   transaction_exception;
   tx_decompression_error;
   tx_no_action;
   tx_no_auths;
   cfa_irrelevant_auth;
   expired_tx_exception;
   tx_exp_too_far_exception;
   invalid_ref_block_exception;
   tx_duplicate;
   deferred_tx_duplicate;
   cfa_inside_generated_tx;
   tx_not_found;
   too_many_tx_at_once;
   tx_too_big;
   unknown_transaction_compression;
   invalid_transaction_extension;
   ill_formed_deferred_transaction_generation_context;
   disallowed_transaction_extensions_bad_block_exception;
   tx_resource_exhaustion;
   action_validate_exception;
   account_name_exists_exception;
   invalid_action_args_exception;
   sysio_assert_message_exception;
   sysio_assert_code_exception;
   action_not_found_exception;
   action_data_and_struct_mismatch;
   unaccessible_api;
   abort_called;
   inline_action_too_big;
   unauthorized_ram_usage_increase;
   restricted_error_code_exception;
   action_return_value_exception;
   database_exception;
   permission_query_exception;
   account_query_exception;
   contract_table_query_exception;
   contract_query_exception;
   bad_database_version_exception;
   guard_exception;
   database_guard_exception;
   wasm_exception;
   page_memory_error;
   wasm_execution_error;
   wasm_serialization_error;
   overlapping_memory_error;
   binaryen_exception;
   resource_exhausted_exception;
   ram_usage_exceeded;
   tx_net_usage_exceeded;
   block_net_usage_exceeded;
   tx_cpu_usage_exceeded;
   block_cpu_usage_exceeded;
   deadline_exception;
   greylist_net_usage_exceeded;
   greylist_cpu_usage_exceeded;
   ro_trx_vm_oc_compile_temporary_failure;
   ro_trx_vm_oc_compile_permanent_failure;
   leeway_deadline_exception;
   authorization_exception;
   tx_duplicate_sig;
   tx_irrelevant_sig;
   unsatisfied_authorization;
   missing_auth_exception;
   irrelevant_auth_exception;
   insufficient_delay_exception;
   invalid_permission;
   unlinkable_min_permission_action;
   invalid_parent_permission;
   misc_exception;
   rate_limiting_state_inconsistent;
   unknown_block_exception;
   unknown_transaction_exception;
   fixed_reversible_db_exception;
   extract_genesis_state_exception;
   subjective_block_production_exception;
   multiple_voter_info;
   unsupported_feature;
   node_management_success;
   json_parse_exception;
   sig_variable_size_limit_exception;
   plugin_exception;
   missing_chain_api_plugin_exception;
   missing_wallet_api_plugin_exception;
   missing_history_api_plugin_exception;
   missing_net_api_plugin_exception;
   missing_chain_plugin_exception;
   plugin_config_exception;
   missing_trace_api_plugin_exception;
   wallet_exception;
   wallet_exist_exception;
   wallet_nonexistent_exception;
   wallet_locked_exception;
   wallet_missing_pub_key_exception;
   wallet_invalid_password_exception;
   wallet_not_available_exception;
   wallet_unlocked_exception;
   key_exist_exception;
   key_nonexistent_exception;
   unsupported_key_type_exception;
   invalid_lock_timeout_exception;
   secure_enclave_exception;
   whitelist_blacklist_exception;
   actor_whitelist_exception;
   actor_blacklist_exception;
   contract_whitelist_exception;
   contract_blacklist_exception;
   action_blacklist_exception;
   key_blacklist_exception;
   controller_emit_signal_exception;
   checkpoint_exception;
   state_history_write_exception;
   abi_exception;
   abi_not_found_exception;
   invalid_ricardian_clause_exception;
   invalid_ricardian_action_exception;
   invalid_type_inside_abi;
   duplicate_abi_type_def_exception;
   duplicate_abi_struct_def_exception;
   duplicate_abi_action_def_exception;
   duplicate_abi_table_def_exception;
   duplicate_abi_err_msg_def_exception;
   abi_serialization_deadline_exception;
   abi_recursion_depth_exception;
   abi_circular_def_exception;
   unpack_exception;
   pack_exception;
   duplicate_abi_variant_def_exception;
   unsupported_abi_version_exception;
   duplicate_abi_action_results_def_exception;
   contract_exception;
   invalid_table_payer;
   table_access_violation;
   invalid_table_iterator;
   table_not_in_cache;
   table_operation_not_permitted;
   invalid_contract_vm_type;
   invalid_contract_vm_version;
   set_exact_code;
   wasm_file_not_found;
   abi_file_not_found;
   wasm_config_unknown_version;
   config_parse_error;
   producer_exception;
   producer_priv_key_not_found;
   missing_pending_block_state;
   producer_double_confirm;
   producer_schedule_exception;
   producer_not_in_schedule;
   snapshot_directory_not_found_exception;
   snapshot_exists_exception;
   snapshot_finalization_exception;
   invalid_protocol_features_to_activate;
   no_block_signatures;
   unsupported_multiple_block_signatures;
   duplicate_snapshot_request;
   snapshot_request_not_found;
   invalid_snapshot_request;
   snapshot_execution_exception;
   reversible_blocks_exception;
   invalid_reversible_blocks_dir;
   reversible_blocks_backup_dir_exist;
   gap_in_reversible_blocks_db;
   block_log_exception;
   block_log_unsupported_version;
   block_log_append_fail;
   block_log_not_found;
   block_log_backup_dir_exist;
   block_index_not_found;
   http_exception;
   invalid_http_client_root_cert;
   invalid_http_response;
   resolved_to_multiple_ports;
   fail_to_resolve_host;
   http_request_fail;
   invalid_http_request;
   resource_limit_exception;
   contract_api_exception;
   crypto_api_exception;
   db_api_exception;
   arithmetic_exception;
   snapshot_exception;
   snapshot_validation_exception;
   protocol_feature_exception;
   protocol_feature_validation_exception;
   protocol_feature_bad_block_exception;
   protocol_feature_iterator_exception].
Definition other_exns : list exn :=
  [std_out_of_range; std_logic_error; fc_overflow_exception; fc_underflow_exception;
   fc_parse_error_exception; fc_invalid_arg_exception; fc_assert_exception; fuel_exhausted;
   undefined_behavior; fc_out_of_range_exception; fc_std_exception_wrapper; fc_unhandled_exception;
   fc_bad_cast_exception; fc_key_not_found_exception].

(** The class that carries a code, if any: the reverse of [exn_code]. *)
Definition exn_of_code (c : Z) : option exn :=
  List.find (fun e => match exn_code e with Some c' => c =? c' | None => false end) chain_exns.

(** [e] is caught by a handler for [b]: [b] is [e] or one of its bases.  The
    hierarchy is at most four deep, so four steps up always reach the top. *)
Fixpoint is_a_fuel (fuel : nat) (beq : exn -> bool) (e : exn) : bool :=
  beq e || match fuel, exn_base e with
           | S n, Some b => is_a_fuel n beq b
           | _, _ => false
           end.

(** Position of an exception in the declaration list; gives decidable equality. *)
Definition exn_tag (e : exn) : Z :=
  match exn_code e with
  | Some c => c
  | None => match e with
            | std_out_of_range => 0 | std_logic_error => 1 | fc_overflow_exception => 2
            | fc_underflow_exception => 3 | fc_parse_error_exception => 4
            | fc_invalid_arg_exception => 5 | fc_assert_exception => 6 | fuel_exhausted => 7
            | undefined_behavior => 8 | fc_out_of_range_exception => 9 | fc_unhandled_exception => 11
            | fc_bad_cast_exception => 12 | fc_key_not_found_exception => 13 | _ => 10
            end
  end.

Definition exn_of_tag (c : Z) : option exn :=
  match exn_of_code c with Some e => Some e | None => other_exns !! Z.to_nat c end.

Lemma exn_of_tag_tag e : exn_of_tag (exn_tag e) = Some e.
Proof. destruct e; vm_compute; reflexivity. Qed.

#[global] Instance exn_tag_inj : Inj (=) (=) exn_tag.
Proof. intros a b H. apply (inj Some). by rewrite <- !exn_of_tag_tag, H. Qed.

#[global] Instance exn_eq_dec : EqDecision exn.
Proof. refine (fun a b => cast_if (decide (exn_tag a = exn_tag b))); abstract naive_solver. Defined.

Definition is_a (e b : exn) : bool := is_a_fuel 4 (fun x => bool_decide (x = b)) e.

Notation res := (result exn).

(** [SYS_RETHROW_EXCEPTIONS( exception_type, ... )] *)
Definition rethrow_as {A} (exception_type : exn) (m : res A) : res A :=
  match m with
  | Throw e => if is_a e chain_exception then Throw e else Throw exception_type
  | Ok a => Ok a
  end.

(** [FC_RETHROW_EXCEPTIONS( ... )]: an exception of the standard library leaves
    wrapped, any other keeps its class. *)
Definition fc_rethrow {A} (m : res A) : res A :=
  match m with
  | Throw std_out_of_range | Throw std_logic_error => Throw fc_std_exception_wrapper
  | _ => m
  end.

Lemma fc_rethrow_Ok {A} (m : res A) a : fc_rethrow m = Ok a <-> m = Ok a.
Proof. by destruct m as [?|[]]. Qed.

(** The code of a chain exception identifies its class;
    no two of the declared classes share a code. *)
Theorem exn_of_code_code e c : exn_code e = Some c -> exn_of_code c = Some e.
Proof. destruct e; intros [= <-]; vm_compute; reflexivity. Qed.

Lemma exn_of_code_code_witness : exn_of_code 3010001 = Some name_type_exception.
Proof. apply (exn_of_code_code name_type_exception). reflexivity. Defined.

(** Every class with a code is caught by a [chain_exception] handler, and the
    walk over base classes is not cut short by the bound used in [is_a]. *)
Theorem coded_is_chain_exception e c :
  exn_code e = Some c -> is_a e chain_exception = true.
Proof. destruct e; intros [= <-]; vm_compute; reflexivity. Qed.

Lemma coded_is_chain_exception_witness : is_a leeway_deadline_exception chain_exception = true.
Proof. apply (coded_is_chain_exception _ 3081001). reflexivity. Defined.
