(* ===== verification/Types.v ===== *)
(** * Shared value types ([types.hpp], [sha256.hpp], [block_header.hpp])

    256-bit digests with the comparisons the containers use, and the block
    number a block id carries. *)

From S2P Require Import Prelude.

(** [sha256::_hash], four 64-bit words. *)
Record digest := mk_digest { hash0 : Z; hash1 : Z; hash2 : Z; hash3 : Z }.

Definition digest_zero : digest := mk_digest 0 0 0 0.

#[global] Instance digest_eq_dec : EqDecision digest.
Proof. solve_decision. Defined.

#[global] Instance digest_inhabited : Inhabited digest := populate digest_zero.

#[global] Instance digest_countable : Countable digest.
Proof.
  apply (inj_countable' (fun d => (hash0 d, hash1 d, hash2 d, hash3 d))
           (fun '(a, b, c, e) => mk_digest a b c e)).
  by intros [].
Defined.

(** [std::tie( xs... ) < std::tie( ys... )]: lexicographic, first component first. *)
Fixpoint tie_less (xs ys : list Z) : bool :=
  match xs, ys with
  | x :: xs, y :: ys => (x <? y) || ((x =? y) && tie_less xs ys)
  | _, _ => false
  end.

Definition hash_words (d : digest) : list Z := [hash0 d; hash1 d; hash2 d; hash3 d].

(** [sha256_less]: by words, not by bytes. *)
Definition sha256_less (lhs rhs : digest) : bool := tie_less (hash_words lhs) (hash_words rhs).

Lemma tie_less_irrefl xs : tie_less xs xs = false.
Proof. induction xs as [|x xs IH]; cbn; [done|]. by rewrite Z.ltb_irrefl, IH, andb_false_r. Qed.

Lemma tie_less_trans xs ys zs :
  tie_less xs ys = true -> tie_less ys zs = true -> tie_less xs zs = true.
Proof.
  revert ys zs; induction xs as [|x xs IH]; intros [|y ys] [|z zs]; cbn; try done.
  rewrite !orb_true_iff, !andb_true_iff, !Z.ltb_lt, !Z.eqb_eq.
  intros [?|[-> ?]] [?|[-> ?]]; [left; lia..|]. right; eauto.
Qed.

Lemma tie_less_total xs ys :
  length xs = length ys -> tie_less xs ys = false -> tie_less ys xs = false -> xs = ys.
Proof.
  revert ys; induction xs as [|x xs IH]; intros [|y ys]; cbn; try done.
  rewrite !orb_false_iff, !andb_false_iff, !Z.ltb_ge, !Z.eqb_neq.
  intros [= Hl] [? H1] [? H2]. assert (x = y) as -> by lia. f_equal. apply IH; naive_solver.
Qed.

(** The negation of a strict lexicographic order is transitive. *)
Lemma tie_less_false_trans xs ys zs :
  length xs = length ys -> length ys = length zs ->
  tie_less xs ys = false -> tie_less ys zs = false -> tie_less xs zs = false.
Proof.
  intros L1 L2 H1 H2. destruct (tie_less xs zs) eqn:H; [|done].
  destruct (tie_less zs ys) eqn:H3.
  - by rewrite (tie_less_trans _ _ _ H H3) in H1.
  - assert (ys = zs) as <- by (apply tie_less_total; done). congruence.
Qed.

(** [fc::endian_reverse_u32] *)
Definition endian_reverse_u32 (x : Z) : Z :=
  let x := u32 x in
  Z.lor (Z.land (Z.shiftr x 0x18) 0xFF)
    (Z.lor (Z.shiftl (Z.land (Z.shiftr x 0x10) 0xFF) 0x08)
       (Z.lor (Z.shiftl (Z.land (Z.shiftr x 0x08) 0xFF) 0x10)
          (Z.shiftl (Z.land x 0xFF) 0x18))).

(** [block_header::num_from_id] *)
Definition num_from_id (id : digest) : Z := endian_reverse_u32 (hash0 id).

(** [block_header::calculate_id]: the header's digest with the block number in
    place of its low 32 bits. *)
Definition calculate_id (header_digest : digest) (block_num : Z) : digest :=
  mk_digest (u64 (Z.land (hash0 header_digest) 0xffffffff00000000 + endian_reverse_u32 block_num))
    (hash1 header_digest) (hash2 header_digest) (hash3 header_digest).

(** ** Block numbers in ids *)

Lemma land_byte x k : 0 <= k -> Z.land (Z.shiftr x k) 0xFF = (x / 2 ^ k) mod 2 ^ 8.
Proof. intros. rewrite Z.shiftr_div_pow2 by lia. change 0xFF with (Z.ones 8). by rewrite Z.land_ones. Qed.

Lemma lor_bytes a b c d :
  0 <= a < 2 ^ 8 -> 0 <= b < 2 ^ 8 -> 0 <= c < 2 ^ 8 -> 0 <= d < 2 ^ 8 ->
  Z.lor a (Z.lor (Z.shiftl b 8) (Z.lor (Z.shiftl c 16) (Z.shiftl d 24))) =
  a + b * 2 ^ 8 + c * 2 ^ 16 + d * 2 ^ 24.
Proof.
  intros. rewrite !Z.shiftl_mul_pow2 by lia.
  rewrite (Z.lor_comm (c * _)), (lor_shifted d (c * 2 ^ 16) 24) by lia.
  replace (d * 2 ^ 24 + c * 2 ^ 16) with ((d * 2 ^ 8 + c) * 2 ^ 16) by lia.
  rewrite (Z.lor_comm (b * _)), (lor_shifted (d * 2 ^ 8 + c) (b * 2 ^ 8) 16) by lia.
  replace ((d * 2 ^ 8 + c) * 2 ^ 16 + b * 2 ^ 8) with (((d * 2 ^ 8 + c) * 2 ^ 8 + b) * 2 ^ 8) by lia.
  rewrite (Z.lor_comm a), (lor_shifted ((d * 2 ^ 8 + c) * 2 ^ 8 + b) a 8) by lia. lia.
Qed.

(** Reversing the bytes of a number given by its bytes. *)
Lemma endian_reverse_bytes a b c d :
  0 <= a < 2 ^ 8 -> 0 <= b < 2 ^ 8 -> 0 <= c < 2 ^ 8 -> 0 <= d < 2 ^ 8 ->
  endian_reverse_u32 (a + b * 2 ^ 8 + c * 2 ^ 16 + d * 2 ^ 24) = d + c * 2 ^ 8 + b * 2 ^ 16 + a * 2 ^ 24.
Proof.
  intros Ha Hb Hc Hd. unfold endian_reverse_u32. rewrite u32_small by lia.
  set (x := a + b * 2 ^ 8 + c * 2 ^ 16 + d * 2 ^ 24).
  rewrite <- (Z.shiftr_0_r x) at 4. rewrite !land_byte by lia.
  assert ((x / 2 ^ 0) mod 2 ^ 8 = a) as ->.
  { rewrite Z.div_1_r. symmetry. apply (Zmod_unique _ _ (b + c * 2 ^ 8 + d * 2 ^ 16)); lia. }
  assert (x / 2 ^ 8 = b + c * 2 ^ 8 + d * 2 ^ 16) as ->.
  { symmetry. apply (Z.div_unique _ _ _ a); lia. }
  assert (x / 2 ^ 16 = c + d * 2 ^ 8) as ->.
  { symmetry. apply (Z.div_unique _ _ _ (a + b * 2 ^ 8)); lia. }
  assert (x / 2 ^ 24 = d) as ->.
  { symmetry. apply (Z.div_unique _ _ _ (a + b * 2 ^ 8 + c * 2 ^ 16)); lia. }
  assert ((b + c * 2 ^ 8 + d * 2 ^ 16) mod 2 ^ 8 = b) as ->.
  { symmetry. apply (Zmod_unique _ _ (c + d * 2 ^ 8)); lia. }
  assert ((c + d * 2 ^ 8) mod 2 ^ 8 = c) as ->.
  { symmetry. apply (Zmod_unique _ _ d); lia. }
  rewrite (Z.mod_small d) by lia. by apply lor_bytes.
Qed.

Lemma u32_bytes n : is_u32 n -> exists a b c d, 0 <= a < 2 ^ 8 /\ 0 <= b < 2 ^ 8 /\ 0 <= c < 2 ^ 8 /\
  0 <= d < 2 ^ 8 /\ n = a + b * 2 ^ 8 + c * 2 ^ 16 + d * 2 ^ 24.
Proof.
  unfold is_u32. intros Hn. exists (n mod 2 ^ 8), (n / 2 ^ 8 mod 2 ^ 8), (n / 2 ^ 16 mod 2 ^ 8), (n / 2 ^ 24).
  split_and!; try by apply Z.mod_pos_bound.
  - apply Z.div_pos; lia.
  - apply Z.div_lt_upper_bound; lia.
  - pose proof (Z.div_mod n (2 ^ 8)) as E1. pose proof (Z.div_mod (n / 2 ^ 8) (2 ^ 8)) as E2.
    pose proof (Z.div_mod (n / 2 ^ 16) (2 ^ 8)) as E3.
    rewrite Z.div_div in E2 by lia. rewrite Z.div_div in E3 by lia.
    change (2 ^ 8 * 2 ^ 8) with (2 ^ 16) in E2. change (2 ^ 16 * 2 ^ 8) with (2 ^ 24) in E3. lia.
Qed.

Lemma endian_reverse_u32_mod x : endian_reverse_u32 x = endian_reverse_u32 (u32 x).
Proof. unfold endian_reverse_u32, u32. by rewrite Z.mod_mod. Qed.

Lemma endian_reverse_range n : is_u32 n -> is_u32 (endian_reverse_u32 n).
Proof.
  intros (a & b & c & d & ? & ? & ? & ? & ->)%u32_bytes. rewrite endian_reverse_bytes by done.
  unfold is_u32. lia.
Qed.

Lemma endian_reverse_involutive n : is_u32 n -> endian_reverse_u32 (endian_reverse_u32 n) = n.
Proof.
  intros (a & b & c & d & ? & ? & ? & ? & ->)%u32_bytes.
  rewrite endian_reverse_bytes by done. by rewrite endian_reverse_bytes by done.
Qed.

(** Reading the number back from an id. *)
Lemma num_from_calculate_id dg n :
  is_u64 (hash0 dg) -> is_u32 n -> num_from_id (calculate_id dg n) = n.
Proof.
  unfold is_u64. intros Hh Hn. unfold num_from_id, calculate_id. cbn [hash0].
  pose proof (endian_reverse_range n Hn) as Hr. unfold is_u32 in Hr.
  assert (Z.land (hash0 dg) 0xffffffff00000000 = hash0 dg / 2 ^ 32 * 2 ^ 32) as ->.
  { change 0xffffffff00000000 with (Z.shiftl (Z.ones 32) 32).
    apply Z.bits_inj'. intros k Hk. rewrite Z.land_spec, <- Z.shiftr_div_pow2, <- Z.shiftl_mul_pow2 by lia.
    rewrite !Z.shiftl_spec by lia. destruct (decide (k < 32)).
    - by rewrite !(Z.testbit_neg_r _ (k - 32)), andb_false_r by lia.
    - rewrite Z.shiftr_spec by lia. replace (k - 32 + 32) with k by lia.
      destruct (decide (k < 64)); [by rewrite Z.ones_spec_low, andb_true_r by lia|].
      rewrite Z.ones_spec_high, andb_false_r by lia. symmetry.
      destruct (decide (hash0 dg = 0)) as [->|]; [apply Z.bits_0|].
      apply Z.bits_above_log2; [lia|]. apply Z.lt_le_trans with 64; [|lia].
      apply Z.log2_lt_pow2; lia. }
  assert (0 <= hash0 dg / 2 ^ 32 < 2 ^ 32).
  { split; [apply Z.div_pos; lia|apply Z.div_lt_upper_bound; lia]. }
  rewrite u64_small by lia. rewrite endian_reverse_u32_mod.
  assert (u32 (hash0 dg / 2 ^ 32 * 2 ^ 32 + endian_reverse_u32 n) = endian_reverse_u32 n) as ->.
  { unfold u32 at 1. rewrite Z.add_comm, Z_mod_plus_full. by apply Z.mod_small. }
  by apply endian_reverse_involutive.
Qed.
