(* ===== verification/Chainbase.v ===== *)
(** * The database interface (chainbase)

    The chain library keeps its consensus state in chainbase multi-index
    tables.  chainbase is a separate package, so a table is a parameter of the
    models: a type [T] with the operations the chain library calls, and the
    documented laws those operations obey.  [idx_view] is the abstract content
    of a table, the finite map from its unique key to its row.  The clients are
    verified against this interface; [gmap_index] shows that it can be
    implemented and is what the witnesses run on.

    An operation that throws leaves no state in the models: chainbase reverts
    the modifications of the enclosing undo session. *)

From S2P Require Import Prelude Exceptions.

Class ChainIndex (K V T : Type) `{Countable K} := {
  idx_empty : T;
  idx_find : K -> T -> option V;             (* find<T,by_key>(k) *)
  idx_emplace : K -> V -> T -> option T;     (* create: fails on a taken key *)
  idx_modify : K -> (V -> V) -> T -> T;      (* modify(obj, f) *)
  idx_remove : K -> T -> T;                  (* remove(obj) *)
  idx_rows : T -> list (K * V);              (* rows in index order *)

  idx_view : T -> gmap K V;
  idx_empty_view : idx_view idx_empty = ∅;
  idx_find_view k t : idx_find k t = idx_view t !! k;
  idx_emplace_view k v t t' :
    idx_emplace k v t = Some t' -> idx_view t !! k = None /\ idx_view t' = <[k := v]> (idx_view t);
  idx_emplace_free k v t : idx_view t !! k = None -> is_Some (idx_emplace k v t);
  idx_modify_view k f t : idx_view (idx_modify k f t) = alter f k (idx_view t);
  idx_remove_view k t : idx_view (idx_remove k t) = delete k (idx_view t);
  idx_rows_view t : idx_rows t ≡ₚ map_to_list (idx_view t);
}.

#[global] Hint Mode ChainIndex - - ! - - : typeclass_instances.

#[global] Program Instance gmap_index {K V} `{Countable K} : ChainIndex K V (gmap K V) := {
  idx_empty := ∅;
  idx_find k t := t !! k;
  idx_emplace k v t := match t !! k with None => Some (<[k := v]> t) | Some _ => None end;
  idx_modify k f t := alter f k t;
  idx_remove k t := delete k t;
  idx_rows t := map_to_list t;
  idx_view t := t;
}.
Next Obligation. done. Qed.
Next Obligation. done. Qed.
Next Obligation. intros K V ?? k v t t' H'; cbn in *. by destruct (t !! k) eqn:?; simplify_eq. Qed.
Next Obligation. intros K V ?? k v t E; cbn in *. rewrite E. eauto. Qed.
Solve All Obligations with done.

Section operations.
Context {K V T : Type} `{ChainIndex K V T}.

(** [db.get<T>(k)] throws [std::out_of_range] when there is no such row. *)
Definition db_get (k : K) (t : T) : res V := of_option std_out_of_range (idx_find k t).
(** [db.create<T>(...)] throws [std::logic_error] on a uniqueness violation. *)
Definition db_create (k : K) (v : V) (t : T) : res T :=
  of_option std_logic_error (idx_emplace k v t).
(** [db.modify( db.get(k), f )] with a modifier that may throw. *)
Definition db_modify (k : K) (f : V -> res V) (t : T) : res T :=
  v ← db_get k t; v' ← f v; Ok (idx_modify k (fun _ => v') t).
(** First row, in index order, whose key satisfies [p]: [lower_bound] with a
    partial key. *)
Definition idx_first (p : K -> bool) (t : T) : option (K * V) :=
  List.find (fun r => p r.1) (idx_rows t).

Lemma db_get_Ok k (t : T) v : db_get k t = Ok v <-> idx_view t !! k = Some v.
Proof. unfold db_get. by rewrite of_option_Ok, idx_find_view. Qed.

Lemma db_create_Ok k v (t t' : T) :
  db_create k v t = Ok t' -> idx_view t !! k = None /\ idx_view t' = <[k := v]> (idx_view t).
Proof. unfold db_create. rewrite of_option_Ok. apply idx_emplace_view. Qed.

Lemma db_modify_Ok k f (t t' : T) :
  db_modify k f t = Ok t' <-> exists v v',
    idx_view t !! k = Some v /\ f v = Ok v' /\ t' = idx_modify k (fun _ => v') t.
Proof.
  unfold db_modify. rewrite bind_Ok. setoid_rewrite bind_Ok. setoid_rewrite db_get_Ok.
  naive_solver.
Qed.

Lemma idx_modify_insert k v v' (t : T) :
  idx_view t !! k = Some v -> idx_view (idx_modify k (fun _ => v') t) = <[k := v']> (idx_view t).
Proof.
  intros E. rewrite idx_modify_view. apply map_eq; intros i.
  destruct (decide (k = i)) as [<-|]; by simplify_map_eq.
Qed.

Lemma db_modify_view k f (t t' : T) :
  db_modify k f t = Ok t' ->
  exists v v', idx_view t !! k = Some v /\ f v = Ok v' /\ idx_view t' = <[k := v']> (idx_view t).
Proof.
  intros (v & v' & ? & ? & ->)%db_modify_Ok.
  exists v, v'. eauto using idx_modify_insert.
Qed.

Lemma elem_of_rows (t : T) k v : (k, v) ∈ idx_rows t <-> idx_view t !! k = Some v.
Proof. by rewrite idx_rows_view, elem_of_map_to_list. Qed.

Lemma idx_first_Some p (t : T) k v :
  idx_first p t = Some (k, v) -> idx_view t !! k = Some v /\ p k = true.
Proof.
  unfold idx_first. intros [Hin Hp]%find_some. cbn in Hp.
  by rewrite <- elem_of_rows, list_elem_of_In.
Qed.

Lemma idx_first_None p (t : T) k v :
  idx_first p t = None -> idx_view t !! k = Some v -> p k = false.
Proof.
  unfold idx_first. intros Hn Hk. apply elem_of_rows, list_elem_of_In in Hk.
  by apply (find_none _ _ Hn) in Hk.
Qed.

Lemma length_rows (t : T) : length (idx_rows t) = size (idx_view t).
Proof. rewrite idx_rows_view. apply length_map_to_list. Qed.
End operations.

Ltac inv_db1 :=
  match goal with
  | H : db_get _ _ = Ok _ |- _ => apply db_get_Ok in H
  | H : db_create _ _ _ = Ok _ |- _ => apply db_create_Ok in H as [? ?]
  | H : db_modify _ _ _ = Ok _ |- _ => apply db_modify_view in H as (? & ? & ? & ? & ?)
  end.
Ltac inv_db := repeat first [inv_db1; simplify_eq/= | inv_res1; simplify_eq/=].
