(* ===== verification/BlockTimestamp.v ===== *)
(** * Block timestamps ([block_timestamp.hpp])

    The clock of the chain: half-second slots since the year 2000. *)

From S2P Require Import Prelude Exceptions.

Definition block_interval_ms : Z := 500.
Definition block_timestamp_epoch : Z := 946684800000.

(** A [block_timestamp] is its [slot]; a [time_point] is a count of microseconds. *)

(** [block_timestamp::next] *)
Definition timestamp_next (slot : Z) : res Z :=
  _ ← sys_assert (1 <=? u32 (u32_max - slot)) fc_overflow_exception;
  Ok (u32 (slot + 1)).

(** [operator fc::time_point] *)
Definition to_time_point (slot : Z) : Z :=
  let msec := i64 (slot * block_interval_ms) in
  let msec := i64 (u64 msec + block_timestamp_epoch) in
  i64 (msec * 1000).

(** [set_time_point( time_point )]: the subtraction of the unsigned epoch makes
    the quotient unsigned. *)
Definition set_time_point (t : Z) : Z :=
  let msec_since_epoch := Z.quot t 1000 in
  u32 (u64 (u64 msec_since_epoch - block_timestamp_epoch) / block_interval_ms).

(** [set_time_point( time_point_sec )] *)
Definition set_time_point_sec (sec : Z) : Z :=
  u32 (u64 (u64 (sec * 1000) - block_timestamp_epoch) / block_interval_ms).

(** [maximum()] and [min()] *)
Definition timestamp_maximum : Z := 65535.
Definition timestamp_min : Z := 0.

Lemma to_time_point_exact slot :
  is_u32 slot -> to_time_point slot = (slot * block_interval_ms + block_timestamp_epoch) * 1000.
Proof.
  unfold is_u32, to_time_point, block_interval_ms, block_timestamp_epoch. intros.
  rewrite (i64_small (slot * 500)) by lia. rewrite u64_small by lia.
  rewrite (i64_small (slot * 500 + _)) by lia. rewrite i64_small by lia. done.
Qed.

(** A slot survives the trip through a time point, later slots are later
    times, and a time inside a slot is rounded down to it. *)
Theorem timestamp_roundtrip slot us :
  is_u32 slot -> 0 <= us < block_interval_ms * 1000 ->
  set_time_point (to_time_point slot + us) = slot /\
  (forall slot', is_u32 slot' -> (to_time_point slot < to_time_point slot' <-> slot < slot')).
Proof.
  intros Hs Hus. rewrite to_time_point_exact by done. split.
  - unfold is_u32, set_time_point, block_interval_ms, block_timestamp_epoch in *.
    rewrite Z.quot_div_nonneg by lia.
    replace ((slot * 500 + 946684800000) * 1000 + us) with (us + (slot * 500 + 946684800000) * 1000) by lia.
    rewrite Z.div_add by lia.
    assert (0 <= us / 1000 < 500) by (split; [apply Z.div_pos; lia|apply Z.div_lt_upper_bound; lia]).
    rewrite (u64_small (_ + _)) by lia. rewrite u64_small by lia.
    replace (us / 1000 + (slot * 500 + 946684800000) - 946684800000) with (us / 1000 + slot * 500) by lia.
    rewrite Z.div_add, (Z.div_small (us / 1000)) by lia. rewrite u32_small; lia.
  - intros slot' Hs'. rewrite to_time_point_exact by done. unfold block_interval_ms. lia.
Qed.

Lemma timestamp_roundtrip_witness : set_time_point (to_time_point 1000 + 3) = 1000.
Proof. apply (timestamp_roundtrip 1000 3); unfold is_u32, block_interval_ms; lia. Defined.

(** [maximum] is not an upper bound of the timestamps: its slot has sixteen
    bits, and every slot after the first nine hours of the year 2000 is later. *)
Theorem timestamp_maximum_not_maximal :
  timestamp_next timestamp_maximum = Ok 65536 /\ timestamp_maximum < 65536 /\ is_u32 65536 /\
  to_time_point timestamp_maximum < to_time_point 65536.
Proof. unfold is_u32. split_and!; try done; vm_compute; reflexivity. Qed.
