(* ===== verification/Accumulators.v ===== *)
(** * Usage accumulators ([resource_limits_private.hpp], namespace [impl])

    The fixed-point arithmetic under the resource limits: ratios, rounding
    division, checked narrowing, the exponential moving average that measures
    account and block usage, and the linearly decaying accumulator of the
    subjective billing.  Widths are kept: [uint64_t] and [uint128_t] results are
    reduced, and the theorems show where no reduction takes place. *)

From S2P Require Import Prelude Exceptions.

(** ** Arithmetic helpers *)

Record ratio := make_ratio { numerator : Z; denominator : Z }.

#[global] Instance ratio_eq_dec : EqDecision ratio.
Proof. solve_decision. Defined.

(** [T operator*(T value, const ratio<T>& r)] at an unsigned [T] with the given
    maximum. *)
Definition ratio_mul (tmax value : Z) (r : ratio) : res Z :=
  _ ← sys_assert ((numerator r =? 0) || (value <=? tmax / numerator r))
        rate_limiting_state_inconsistent;
  Ok ((value * numerator r) mod (tmax + 1) / denominator r).

Definition integer_divide_ceil (num den : Z) : Z :=
  num / den + (if 0 <? num mod den then 1 else 0).

(** [downgrade_cast<uint64_t>(uint128_t)]: signedness matches. *)
Definition downgrade_cast_u64 (val : Z) : res Z :=
  _ ← sys_assert ((0 <=? val) && (val <=? u64_max)) rate_limiting_state_inconsistent;
  Ok val.

(** [downgrade_cast<int64_t>(uint128_t)]: signedness differs, minimum 0. *)
Definition downgrade_cast_i64 (val : Z) : res Z :=
  _ ← sys_assert ((0 <=? val) && (val <=? i64_max)) rate_limiting_state_inconsistent;
  Ok val.

(** [config::rate_limiting_precision] *)
Definition rate_limiting_precision : Z := 1000 * 1000.
Definition max_raw_value : Z := u64_max / rate_limiting_precision.

(** ** [exponential_moving_average_accumulator] *)

Record usage_accumulator := mk_usage_accumulator {
  last_ordinal : Z;   (* uint32_t *)
  value_ex : Z;       (* uint64_t *)
  consumed : Z;       (* uint64_t *)
}.

Definition new_usage_accumulator : usage_accumulator := mk_usage_accumulator 0 0 0.

Definition average_of (v : Z) : Z := integer_divide_ceil v rate_limiting_precision.
Definition average (a : usage_accumulator) : Z := average_of (value_ex a).

Definition ema_add (a : usage_accumulator) (units ordinal window_size : Z) : res usage_accumulator :=
  _ ← sys_assert (units <=? max_raw_value) rate_limiting_state_inconsistent;
  _ ← sys_assert (units <=? u64_max - consumed a) rate_limiting_state_inconsistent;
  value_ex_contrib ← downgrade_cast_u64
    (integer_divide_ceil (u128 (units * rate_limiting_precision)) window_size);
  _ ← sys_assert (value_ex_contrib <=? u64_max - value_ex a) rate_limiting_state_inconsistent;
  a' ← (if last_ordinal a =? ordinal then Ok a else
          _ ← sys_assert (last_ordinal a <? ordinal) resource_limit_exception;
          v ← (if ordinal <? u64 (last_ordinal a + window_size) then
                 let delta := u32 (ordinal - last_ordinal a) in
                 let decay := make_ratio (u64 (window_size - delta)) window_size in
                 ratio_mul u64_max (value_ex a) decay
               else Ok 0);
          Ok (mk_usage_accumulator ordinal v (average_of v)));
  Ok (mk_usage_accumulator (last_ordinal a')
        (u64 (value_ex a' + value_ex_contrib))
        (u64 (consumed a' + units))).

(** ** [exponential_decay_accumulator] *)

Record decay_accumulator := mk_decay_accumulator {
  d_last_ordinal : Z;   (* uint32_t *)
  d_value_ex : Z;       (* uint64_t *)
}.

Definition new_decay_accumulator : decay_accumulator := mk_decay_accumulator 0 0.

Definition u128_max : Z := 2 ^ 128 - 1.

Definition value_ex_at (a : decay_accumulator) (ordinal window_size : Z) : res Z :=
  if d_last_ordinal a <? ordinal then
    if ordinal <? u64 (d_last_ordinal a + window_size) then
      let delta := u32 (ordinal - d_last_ordinal a) in
      let decay := make_ratio (u128 (window_size - delta)) window_size in
      v ← ratio_mul u128_max (d_value_ex a) decay;
      downgrade_cast_u64 v
    else Ok 0
  else Ok (d_value_ex a).

Definition value_at (a : decay_accumulator) (ordinal window_size : Z) : res Z :=
  v ← value_ex_at a ordinal window_size;
  Ok (integer_divide_ceil v rate_limiting_precision).

Definition decay_add (a : decay_accumulator) (units ordinal window_size : Z) : res decay_accumulator :=
  _ ← sys_assert (units <=? max_raw_value) rate_limiting_state_inconsistent;
  let units_ex := u128 (units * rate_limiting_precision) in
  a' ← (if d_last_ordinal a <? ordinal then
          v ← value_ex_at a ordinal window_size;
          Ok (mk_decay_accumulator ordinal v)
        else Ok a);
  v ← downgrade_cast_u64 (Z.min (u128 (units_ex + d_value_ex a')) u64_max);
  Ok (mk_decay_accumulator (d_last_ordinal a') v).

(** ** Lemmas *)

Lemma integer_divide_ceil_spec num den :
  0 <= num -> 0 < den ->
  integer_divide_ceil num den * den - den < num <= integer_divide_ceil num den * den.
Proof.
  intros. unfold integer_divide_ceil.
  pose proof (Z.div_mod num den ltac:(lia)). pose proof (Z.mod_pos_bound num den ltac:(lia)).
  destruct (0 <? num mod den) eqn:?; bool_to_Z; nia.
Qed.

Lemma integer_divide_ceil_nonneg num den : 0 <= num -> 0 < den -> 0 <= integer_divide_ceil num den.
Proof. intros. pose proof (integer_divide_ceil_spec num den). nia. Qed.

(** The rounded-up quotient is the least upper bound. *)
Lemma integer_divide_ceil_le num den q :
  0 < den -> num <= q * den -> 0 <= num -> integer_divide_ceil num den <= q.
Proof. intros. pose proof (integer_divide_ceil_spec num den). nia. Qed.

Lemma ratio_mul_Ok tmax value r v :
  0 <= value <= tmax -> 0 <= numerator r ->
  ratio_mul tmax value r = Ok v -> v = value * numerator r / denominator r.
Proof.
  unfold ratio_mul; intros Hv Hn ?. inv_res. f_equal. apply Z.mod_small.
  destruct (numerator r =? 0) eqn:?; cbn in *; bool_to_Z; [nia|].
  pose proof (Z.mul_div_le tmax (numerator r) ltac:(lia)). nia.
Qed.

Lemma ratio_mul_decay_le tmax value num den v :
  0 <= value <= tmax -> 0 <= num <= den -> 0 < den ->
  ratio_mul tmax value (make_ratio num den) = Ok v -> 0 <= v <= value.
Proof.
  intros Hv Hn Hd H%ratio_mul_Ok; cbn in *; [|lia..]. subst.
  split; [apply Z.div_pos; nia|]. apply Z.div_le_upper_bound; nia.
Qed.

Lemma downgrade_cast_u64_Ok val v : downgrade_cast_u64 val = Ok v <-> v = val /\ is_u64 val.
Proof.
  unfold downgrade_cast_u64, is_u64, u64_max. rewrite bind_Ok. setoid_rewrite sys_assert_Ok.
  split; [intros (?&?&?); inv_res; bool_to_Z; lia|].
  intros [-> ?]. exists tt. split; [|done]. rewrite andb_true_iff, !Z.leb_le. lia.
Qed.

Lemma downgrade_cast_u64_small val : is_u64 val -> downgrade_cast_u64 val = Ok val.
Proof. intros. by apply downgrade_cast_u64_Ok. Qed.

Lemma downgrade_cast_i64_Ok val v :
  downgrade_cast_i64 val = Ok v <-> v = val /\ 0 <= val <= i64_max.
Proof.
  unfold downgrade_cast_i64. rewrite bind_Ok. setoid_rewrite sys_assert_Ok.
  split; [intros (?&?&?); inv_res; bool_to_Z; lia|].
  intros [-> ?]. exists tt. split; [|done]. rewrite andb_true_iff, !Z.leb_le. lia.
Qed.

Lemma max_raw_value_eq : max_raw_value = 18446744073709.
Proof. reflexivity. Qed.

(** The fields fit their types. *)
Definition acc_wf (a : usage_accumulator) : Prop :=
  is_u32 (last_ordinal a) /\ is_u64 (value_ex a) /\ is_u64 (consumed a).

(** The contribution of [units] to the stored average. *)
Definition contrib (units window_size : Z) : Z :=
  integer_divide_ceil (units * rate_limiting_precision) window_size.

(** The stored average carried from the last ordinal to [ordinal]: linear in the
    remaining part of the window, zero once the window has passed. *)
Definition decayed (a : usage_accumulator) (ordinal window_size : Z) : Z :=
  if ordinal <=? last_ordinal a then value_ex a
  else if ordinal <? last_ordinal a + window_size
  then value_ex a * (window_size - (ordinal - last_ordinal a)) / window_size
  else 0.

Lemma decayed_range a ordinal w :
  acc_wf a -> 0 < w -> 0 <= decayed a ordinal w <= value_ex a.
Proof.
  unfold acc_wf, is_u64, decayed. intros (_&Hv&_) Hw.
  destruct (ordinal <=? last_ordinal a) eqn:?; [lia|].
  destruct (ordinal <? last_ordinal a + w) eqn:?; [|lia]. bool_to_Z.
  split; [apply Z.div_pos; nia|]. apply Z.div_le_upper_bound; nia.
Qed.

Lemma units_ex_small units :
  0 <= units <= max_raw_value -> u128 (units * rate_limiting_precision) = units * rate_limiting_precision.
Proof.
  intros H. apply u128_small. unfold max_raw_value, u64_max, rate_limiting_precision in *.
  pose proof (Z.mul_div_le (2 ^ 64 - 1) (1000 * 1000) ltac:(lia)). nia.
Qed.

Lemma average_of_bound v : is_u64 v -> 0 <= average_of v <= max_raw_value + 1.
Proof.
  unfold is_u64, average_of. intros Hv. split.
  - apply integer_divide_ceil_nonneg; [lia|done].
  - apply integer_divide_ceil_le; [done| |lia].
    unfold max_raw_value, rate_limiting_precision.
    pose proof (Z.mod_pos_bound u64_max (1000 * 1000) ltac:(lia)).
    pose proof (Z.div_mod u64_max (1000 * 1000) ltac:(lia)). unfold u64_max in *. lia.
Qed.

(** The first half of [add] when the ordinal advances. *)
Lemma ema_decay_Ok a ordinal w v :
  acc_wf a -> is_u32 ordinal -> 0 < w < 2 ^ 32 -> last_ordinal a < ordinal ->
  (if ordinal <? u64 (last_ordinal a + w) then
     ratio_mul u64_max (value_ex a) (make_ratio (u64 (w - u32 (ordinal - last_ordinal a))) w)
   else Ok 0) = Ok v ->
  v = decayed a ordinal w.
Proof.
  unfold acc_wf, is_u64, is_u32, decayed. intros (?&?&?) ? ? Hlt.
  rewrite u64_small by lia. destruct (ordinal <=? last_ordinal a) eqn:?; bool_to_Z; [lia|].
  destruct (ordinal <? last_ordinal a + w) eqn:?; bool_to_Z; intros Hv; [|by inv_res].
  rewrite (u32_small (ordinal - last_ordinal a)), u64_small in Hv by lia.
  apply ratio_mul_Ok in Hv; cbn in *; [done|unfold u64_max; lia..].
Qed.

(** The effect of a call that returns, shared by the theorems below. *)
Lemma ema_add_Ok a units ordinal w a' :
  acc_wf a -> is_u64 units -> is_u32 ordinal -> 0 < w < 2 ^ 32 ->
  ema_add a units ordinal w = Ok a' ->
  acc_wf a' /\ last_ordinal a <= ordinal /\ last_ordinal a' = ordinal /\
  value_ex a' = decayed a ordinal w + contrib units w /\
  consumed a' = (if last_ordinal a =? ordinal then consumed a
                 else average_of (decayed a ordinal w)) + units.
Proof.
  intros Hwf Hu Ho Hw H. pose proof (decayed_range a ordinal w Hwf ltac:(lia)) as Hd.
  pose proof Hwf as (Hl & Hv & Hc). unfold ema_add in H.
  apply bind_Ok in H as ([] & Hraw%sys_assert_Ok & H).
  apply bind_Ok in H as ([] & Hcons%sys_assert_Ok & H).
  apply bind_Ok in H as (c & [-> Hcb]%downgrade_cast_u64_Ok & H).
  apply bind_Ok in H as ([] & Hval%sys_assert_Ok & H).
  apply bind_Ok in H as (b & Hb & [= <-]). cbn. bool_to_Z.
  unfold is_u64, is_u32 in *. rewrite units_ex_small in * by lia. fold (contrib units w) in *.
  destruct (last_ordinal a =? ordinal) eqn:El; bool_to_Z.
  - injection Hb as <-. assert (decayed a ordinal w = value_ex a) as ->.
    { unfold decayed. by rewrite El, Z.leb_refl. }
    unfold acc_wf, is_u32, is_u64, u64_max in *; cbn. rewrite !u64_small by lia. lia.
  - apply bind_Ok in Hb as ([] & Hlt%sys_assert_Ok & Hb). bool_to_Z.
    apply bind_Ok in Hb as (v & Hdec & [= <-]). cbn.
    apply ema_decay_Ok in Hdec as ->; [|done..].
    pose proof (average_of_bound (decayed a ordinal w) ltac:(unfold is_u64; lia)).
    rewrite max_raw_value_eq in *. unfold acc_wf, is_u32, is_u64, u64_max in *; cbn.
    rewrite !u64_small by lia. lia.
Qed.

(** [exponential_moving_average_accumulator::add] keeps every field inside
    its machine type and never wraps: the new average is exactly the decayed
    old average plus the rounded-up contribution, the ordinal never goes back,
    and [consumed] restarts from the decayed average when the ordinal moves. *)
Theorem ema_add_spec a units ordinal w a' :
  acc_wf a -> is_u64 units -> is_u32 ordinal -> 0 < w < 2 ^ 32 ->
  ema_add a units ordinal w = Ok a' ->
  acc_wf a' /\ last_ordinal a <= ordinal /\ last_ordinal a' = ordinal /\
  value_ex a' = decayed a ordinal w + contrib units w /\
  consumed a' = (if last_ordinal a =? ordinal then consumed a
                 else average_of (decayed a ordinal w)) + units.
Proof. apply ema_add_Ok. Qed.

Lemma ema_add_spec_witness :
  exists a', ema_add (mk_usage_accumulator 10 5000000 3) 7 20 100 = Ok a' /\
             value_ex a' = 5000000 * 90 / 100 + 70000 /\ last_ordinal a' = 20.
Proof.
  eexists; split; [reflexivity|].
  destruct (ema_add_spec (mk_usage_accumulator 10 5000000 3) 7 20 100
              (mk_usage_accumulator 20 4570000 12)) as (_ & _ & Hl & Hv & _);
    unfold acc_wf, is_u32, is_u64; cbn; try lia; [reflexivity|].
  split; [exact Hv|exact Hl].
Defined.

(** A time slot that does not go back is always accepted while the stored
    average has headroom for the window: [add] throws in no other case than the
    ones its assertions name. *)
Theorem ema_add_total a units ordinal w :
  acc_wf a -> 0 <= units <= max_raw_value -> is_u32 ordinal -> 0 < w < 2 ^ 32 ->
  last_ordinal a <= ordinal ->
  units <= u64_max - consumed a -> contrib units w <= u64_max - value_ex a ->
  value_ex a * w <= u64_max ->
  exists a', ema_add a units ordinal w = Ok a'.
Proof.
  intros (Hl & Hv & Hc) Hu Ho Hw Hle H1 H2 H3. unfold ema_add, is_u64, is_u32 in *.
  rewrite bind_assert by (apply Z.leb_le; lia). cbn.
  rewrite bind_assert by (apply Z.leb_le; lia). cbn.
  rewrite units_ex_small by done. fold (contrib units w).
  assert (0 <= contrib units w).
  { apply integer_divide_ceil_nonneg; unfold rate_limiting_precision; lia. }
  rewrite downgrade_cast_u64_small by (unfold is_u64, u64_max in *; lia). cbn.
  rewrite bind_assert by (apply Z.leb_le; lia). cbn.
  destruct (last_ordinal a =? ordinal) eqn:?; bool_to_Z; [by eexists|].
  rewrite bind_assert by (apply Z.ltb_lt; lia). cbn.
  destruct (ordinal <? u64 (last_ordinal a + w)) eqn:Ed; [|by eexists].
  rewrite u64_small in Ed by lia. bool_to_Z. unfold ratio_mul.
  rewrite bind_assert; [by eexists|]. cbn.
  rewrite u32_small, u64_small by lia. apply orb_true_iff. right. apply Z.leb_le.
  apply Z.div_le_lower_bound; nia.
Qed.

Lemma ema_add_total_witness : exists a', ema_add new_usage_accumulator 1000 5 172800 = Ok a'.
Proof.
  apply ema_add_total; unfold acc_wf, is_u32, is_u64; cbn;
    try (vm_compute; split; congruence); try (vm_compute; congruence).
  repeat split; lia.
Defined.

(** An idle interval never raises the measured usage, and an interval of a
    whole window clears it. *)
Theorem ema_idle_decays a ordinal w a' :
  acc_wf a -> is_u32 ordinal -> 0 < w < 2 ^ 32 ->
  ema_add a 0 ordinal w = Ok a' ->
  value_ex a' <= value_ex a /\ (last_ordinal a + w <= ordinal -> value_ex a' = 0).
Proof.
  intros Hwf Ho Hw H. pose proof (decayed_range a ordinal w Hwf ltac:(lia)).
  apply ema_add_Ok in H as (_ & Hle & _ & -> & _); [|done|unfold is_u64; lia|done..].
  replace (contrib 0 w) with 0; [split; [lia|]|].
  - intros Hpast. unfold decayed. destruct (ordinal <=? last_ordinal a) eqn:?; bool_to_Z; [lia|].
    destruct (ordinal <? last_ordinal a + w) eqn:?; bool_to_Z; lia.
  - unfold contrib, integer_divide_ceil. rewrite Z.mul_0_l, Z.div_0_l, Z.mod_0_l by lia. done.
Qed.

Lemma ema_idle_decays_witness :
  value_ex (mk_usage_accumulator 200 0 0) = 0.
Proof.
  destruct (ema_idle_decays (mk_usage_accumulator 10 5000000 3) 200 100
              (mk_usage_accumulator 200 0 0)) as [_ H];
    [repeat split; cbn; lia|split; lia|lia|reflexivity|].
  apply H; cbn; lia.
Defined.

(** ** The decay accumulator *)

Definition dacc_wf (a : decay_accumulator) : Prop :=
  is_u32 (d_last_ordinal a) /\ is_u64 (d_value_ex a).

Definition d_decayed (a : decay_accumulator) (ordinal window_size : Z) : Z :=
  if ordinal <=? d_last_ordinal a then d_value_ex a
  else if ordinal <? d_last_ordinal a + window_size
  then d_value_ex a * (window_size - (ordinal - d_last_ordinal a)) / window_size
  else 0.

(** Reading the accumulator at a later ordinal cannot throw. *)
Lemma value_ex_at_total a ordinal w :
  dacc_wf a -> is_u32 ordinal -> 0 <= w < 2 ^ 32 ->
  value_ex_at a ordinal w = Ok (d_decayed a ordinal w) /\ 0 <= d_decayed a ordinal w <= d_value_ex a.
Proof.
  unfold dacc_wf, is_u32, is_u64, value_ex_at, d_decayed. intros [? ?] ? ?.
  destruct (d_last_ordinal a <? ordinal) eqn:?, (ordinal <=? d_last_ordinal a) eqn:?;
    bool_to_Z; try lia; [|split; [done|lia]].
  rewrite u64_small by lia. destruct (ordinal <? d_last_ordinal a + w) eqn:?; bool_to_Z; [|split; [done|lia]].
  rewrite (u32_small (ordinal - d_last_ordinal a)), (u128_small (w - _)) by lia.
  set (k := w - (ordinal - d_last_ordinal a)).
  assert (0 <= d_value_ex a * k / w <= d_value_ex a) as Hr.
  { split; [apply Z.div_pos; nia|]. apply Z.div_le_upper_bound; nia. }
  split; [|done]. unfold ratio_mul. cbn.
  rewrite bind_assert; cbn.
  - unfold u128_max. rewrite Z.mod_small by nia.
    apply downgrade_cast_u64_Ok. split; [done|]. unfold is_u64; lia.
  - apply orb_true_iff. right. apply Z.leb_le. apply Z.div_le_lower_bound; unfold u128_max; nia.
Qed.

(** Adding to the decay accumulator throws only for [units] above the
    representable raw value; otherwise the decayed value plus the scaled units
    is stored, saturated at the largest [uint64_t]. *)
Theorem decay_add_spec a units ordinal w :
  dacc_wf a -> is_u64 units -> is_u32 ordinal -> 0 <= w < 2 ^ 32 ->
  decay_add a units ordinal w =
    if units <=? max_raw_value then
      Ok (mk_decay_accumulator (Z.max (d_last_ordinal a) ordinal)
            (Z.min (d_decayed a ordinal w + units * rate_limiting_precision) u64_max))
    else Throw rate_limiting_state_inconsistent.
Proof.
  intros Hwf Hu Ho Hw. pose proof (value_ex_at_total a ordinal w Hwf Ho Hw) as [Hat Hr].
  unfold decay_add. destruct (units <=? max_raw_value) eqn:Hraw; cbn; [|done]. bool_to_Z.
  rewrite Hat. destruct Hwf as [Hl Hv]. unfold is_u64, is_u32 in *. rewrite units_ex_small by lia.
  assert (units * rate_limiting_precision <= u64_max) as Hbig.
  { rewrite max_raw_value_eq in Hraw. unfold rate_limiting_precision, u64_max. lia. }
  assert (0 <= units * rate_limiting_precision) by (unfold rate_limiting_precision; lia).
  destruct (d_last_ordinal a <? ordinal) eqn:?; bool_to_Z; cbn.
  - rewrite u128_small by (unfold u64_max in *; lia).
    rewrite downgrade_cast_u64_small by (unfold is_u64, u64_max in *; lia).
    cbn. f_equal. f_equal; lia.
  - rewrite u128_small by (unfold u64_max in *; lia).
    rewrite downgrade_cast_u64_small by (unfold is_u64, u64_max in *; lia).
    cbn. assert (d_decayed a ordinal w = d_value_ex a) as ->.
    { unfold d_decayed. destruct (ordinal <=? d_last_ordinal a) eqn:?; bool_to_Z; [done|lia]. }
    f_equal. f_equal; lia.
Qed.

Lemma decay_add_spec_witness :
  decay_add (mk_decay_accumulator 10 5000000) 3 20 100 = Ok (mk_decay_accumulator 20 7500000).
Proof.
  rewrite decay_add_spec; unfold dacc_wf, is_u32, is_u64; cbn; try lia. reflexivity.
Defined.
