(* ===== verification/ResourceLimits.v ===== *)
(** * The resource limits manager ([resource_limits.cpp])

    Account limits (RAM, NET, CPU), usage, the elastic block limits and their
    totals.  The account tables are chainbase indices, keyed as in the code: the
    limits by [(pending, owner)], the usage by [owner].  [limit_totals] is the
    invariant that ties the running totals to the rows; [get_account_limits] is
    the view the rest of the chain has of an account. *)

From S2P Require Import Prelude Exceptions Chainbase Accumulators.

(** ** Elastic limits *)

Record elastic_limit_parameters := mk_elp {
  elp_target : Z;          (* uint64_t, the desired usage *)
  elp_max : Z;             (* uint64_t, the maximum usage *)
  elp_periods : Z;         (* uint32_t *)
  elp_max_multiplier : Z;  (* uint32_t *)
  elp_contract_rate : ratio;
  elp_expand_rate : ratio;
}.

#[global] Instance elp_eq_dec : EqDecision elastic_limit_parameters.
Proof. solve_decision. Defined.

Definition elp_validate (p : elastic_limit_parameters) : res unit :=
  _ ← sys_assert (0 <? elp_periods p) resource_limit_exception;
  _ ← sys_assert (0 <? denominator (elp_contract_rate p)) resource_limit_exception;
  sys_assert (0 <? denominator (elp_expand_rate p)) resource_limit_exception.

Definition update_elastic_limit (current_limit average_usage : Z) (p : elastic_limit_parameters)
  : res Z :=
  result ← (if elp_target p <? average_usage
            then ratio_mul u64_max current_limit (elp_contract_rate p)
            else ratio_mul u64_max current_limit (elp_expand_rate p));
  Ok (Z.min (Z.max result (elp_max p)) (u64 (elp_max p * elp_max_multiplier p))).

(** ** Rows and state *)

Record resource_limits_object := mk_limits {
  net_weight : Z;  (* int64_t *)
  cpu_weight : Z;
  ram_bytes : Z;
}.
Definition new_limits : resource_limits_object := mk_limits (-1) (-1) (-1).

Record resource_usage_object := mk_usage {
  net_usage : usage_accumulator;
  cpu_usage : usage_accumulator;
  ram_usage : Z;   (* uint64_t *)
}.
Definition new_usage : resource_usage_object :=
  mk_usage new_usage_accumulator new_usage_accumulator 0.

Record resource_limits_config := mk_config {
  cpu_limit_parameters : elastic_limit_parameters;
  net_limit_parameters : elastic_limit_parameters;
  account_cpu_usage_average_window : Z;   (* uint32_t *)
  account_net_usage_average_window : Z;
}.

Record resource_limits_state := mk_state {
  average_block_net_usage : usage_accumulator;
  average_block_cpu_usage : usage_accumulator;
  pending_net_usage : Z;
  pending_cpu_usage : Z;
  total_net_weight : Z;
  total_cpu_weight : Z;
  total_ram_bytes : Z;
  virtual_net_limit : Z;
  virtual_cpu_limit : Z;
}.

(** [SYS_PERCENT] of [config.hpp]. *)
Definition SYS_PERCENT (value percentage : Z) : Z := u64 (value * percentage) / 10000.

(** Default settings in the declaration of [resource_limits_config_object]. *)
Definition default_config : resource_limits_config := {|
  cpu_limit_parameters :=
    mk_elp (SYS_PERCENT 200000 (10 * 100)) 200000 (60 * 1000 / 500) 1000
           (make_ratio 99 100) (make_ratio 1000 999);
  net_limit_parameters :=
    mk_elp (SYS_PERCENT (1024 * 1024) (10 * 100)) (1024 * 1024) (60 * 1000 / 500) 1000
           (make_ratio 99 100) (make_ratio 1000 999);
  account_cpu_usage_average_window := 24 * 60 * 60 * 1000 / 500;
  account_net_usage_average_window := 24 * 60 * 60 * 1000 / 500;
|}.

Definition maximum_elastic_resource_multiplier : Z := 1000.

Section manager.
Context {LT UT : Type}.
Context `{!ChainIndex (bool * Z) resource_limits_object LT}.
Context `{!ChainIndex Z resource_usage_object UT}.

Record rl_db := mk_rl_db {
  limits_idx : LT;      (* resource_limits_index, by_owner = (pending, owner) *)
  usage_idx : UT;       (* resource_usage_index, by_owner *)
  rl_state : resource_limits_state;
  rl_config : resource_limits_config;
}.

Definition set_limits_idx (t : LT) (d : rl_db) : rl_db :=
  mk_rl_db t (usage_idx d) (rl_state d) (rl_config d).
Definition set_usage_idx (t : UT) (d : rl_db) : rl_db :=
  mk_rl_db (limits_idx d) t (rl_state d) (rl_config d).
Definition set_state (s : resource_limits_state) (d : rl_db) : rl_db :=
  mk_rl_db (limits_idx d) (usage_idx d) s (rl_config d).
Definition set_config (c : resource_limits_config) (d : rl_db) : rl_db :=
  mk_rl_db (limits_idx d) (usage_idx d) (rl_state d) c.

Definition initialize_database : rl_db :=
  mk_rl_db idx_empty idx_empty
    (mk_state new_usage_accumulator new_usage_accumulator 0 0 0 0 0
       (elp_max (net_limit_parameters default_config))
       (elp_max (cpu_limit_parameters default_config)))
    default_config.

Definition initialize_account (account : Z) (d : rl_db) : res rl_db :=
  lt ← db_create (false, account) new_limits (limits_idx d);
  ut ← db_create account new_usage (usage_idx d);
  Ok (set_usage_idx ut (set_limits_idx lt d)).

Definition set_block_parameters (cpu net : elastic_limit_parameters) (d : rl_db) : res rl_db :=
  _ ← elp_validate cpu;
  _ ← elp_validate net;
  let c := rl_config d in
  if decide (cpu_limit_parameters c = cpu /\ net_limit_parameters c = net) then Ok d
  else Ok (set_config (mk_config cpu net (account_cpu_usage_average_window c)
                         (account_net_usage_average_window c)) d).

(** Pending limits of an account if there are any, its actual limits otherwise:
    (ram_bytes, net_weight, cpu_weight). *)
Definition get_account_limits (account : Z) (d : rl_db) : res (Z * Z * Z) :=
  match idx_find (true, account) (limits_idx d) with
  | Some pending_buo => Ok (ram_bytes pending_buo, net_weight pending_buo, cpu_weight pending_buo)
  | None =>
      buo ← db_get (false, account) (limits_idx d);
      Ok (ram_bytes buo, net_weight buo, cpu_weight buo)
  end.

Definition is_unlimited_cpu (account : Z) (d : rl_db) : bool :=
  match idx_find (false, account) (limits_idx d) with
  | Some buo => cpu_weight buo =? -1
  | None => false
  end.

Definition update_account_usage (accounts : list Z) (time_slot : Z) (d : rl_db) : res rl_db :=
  let c := rl_config d in
  foldM (fun d a =>
    ut ← db_modify a (fun bu =>
           net ← ema_add (net_usage bu) 0 time_slot (account_net_usage_average_window c);
           cpu ← ema_add (cpu_usage bu) 0 time_slot (account_cpu_usage_average_window c);
           Ok (mk_usage net cpu (ram_usage bu))) (usage_idx d);
    Ok (set_usage_idx ut d)) d accounts.

(** The window test [add_transaction_usage] applies to CPU and to NET. *)
Definition max_user_use_in_window (virtual_limit window_size weight total : Z) : Z :=
  u128 (u128 (virtual_limit * window_size) * weight) / total.
Definition used_in_window (v window_size : Z) : Z :=
  u128 (v * window_size) / rate_limiting_precision.

Definition add_account_usage (cpu net time_slot : Z) (d : rl_db) (a : Z) : res rl_db :=
  let s := rl_state d in
  let c := rl_config d in
  _ ← db_get a (usage_idx d);
  '(_, netw, cpuw) ← get_account_limits a d;
  ut ← db_modify a (fun bu =>
         n ← ema_add (net_usage bu) net time_slot (account_net_usage_average_window c);
         p ← ema_add (cpu_usage bu) cpu time_slot (account_cpu_usage_average_window c);
         Ok (mk_usage n p (ram_usage bu))) (usage_idx d);
  usage ← db_get a ut;
  _ ← (if (0 <=? cpuw) && (0 <? total_cpu_weight s) then
         let window_size := account_cpu_usage_average_window c in
         sys_assert (used_in_window (value_ex (cpu_usage usage)) window_size <=?
                     max_user_use_in_window (virtual_cpu_limit s) window_size cpuw (total_cpu_weight s))
           tx_cpu_usage_exceeded
       else Ok tt);
  _ ← (if (0 <=? netw) && (0 <? total_net_weight s) then
         let window_size := account_net_usage_average_window c in
         sys_assert (used_in_window (value_ex (net_usage usage)) window_size <=?
                     max_user_use_in_window (virtual_net_limit s) window_size netw (total_net_weight s))
           tx_net_usage_exceeded
       else Ok tt);
  Ok (set_usage_idx ut d).

Definition add_transaction_usage (accounts : list Z) (cpu net time_slot : Z) (d : rl_db) : res rl_db :=
  d' ← foldM (add_account_usage cpu net time_slot) d accounts;
  let s := rl_state d' in
  let s' := mk_state (average_block_net_usage s) (average_block_cpu_usage s)
              (u64 (pending_net_usage s + net)) (u64 (pending_cpu_usage s + cpu))
              (total_net_weight s) (total_cpu_weight s) (total_ram_bytes s)
              (virtual_net_limit s) (virtual_cpu_limit s) in
  let c := rl_config d' in
  _ ← sys_assert (pending_cpu_usage s' <=? elp_max (cpu_limit_parameters c)) block_resource_exhausted;
  _ ← sys_assert (pending_net_usage s' <=? elp_max (net_limit_parameters c)) block_resource_exhausted;
  Ok (set_state s' d').

Definition add_pending_ram_usage (account ram_delta : Z) (d : rl_db) : res rl_db :=
  if ram_delta =? 0 then Ok d else
  usage ← db_get account (usage_idx d);
  _ ← sys_assert ((ram_delta <=? 0) || (u64 ram_delta <=? u64_max - ram_usage usage))
        transaction_exception;
  _ ← sys_assert ((0 <=? ram_delta) || (u64 (i64 (- ram_delta)) <=? ram_usage usage))
        transaction_exception;
  ut ← db_modify account (fun u =>
         Ok (mk_usage (net_usage u) (cpu_usage u) (u64 (ram_usage u + ram_delta)))) (usage_idx d);
  Ok (set_usage_idx ut d).

Definition verify_account_ram_usage (account : Z) (d : rl_db) : res unit :=
  '(ram, _, _) ← get_account_limits account d;
  usage ← db_get account (usage_idx d);
  if 0 <=? ram then sys_assert (ram_usage usage <=? ram) ram_usage_exceeded else Ok tt.

Definition get_account_ram_usage (account : Z) (d : rl_db) : res Z :=
  usage ← db_get account (usage_idx d); Ok (i64 (ram_usage usage)).

(** The pending row of the account, created from its actual row if needed. *)
Definition find_or_create_pending_limits (account : Z) (t : LT) : res (resource_limits_object * LT) :=
  match idx_find (true, account) t with
  | None =>
      limits ← db_get (false, account) t;
      t' ← db_create (true, account)
             (mk_limits (net_weight limits) (cpu_weight limits) (ram_bytes limits)) t;
      Ok (mk_limits (net_weight limits) (cpu_weight limits) (ram_bytes limits), t')
  | Some pending => Ok (pending, t)
  end.

Definition set_account_limits (account ram net cpu : Z) (d : rl_db) : res (bool * rl_db) :=
  '(limits, t) ← find_or_create_pending_limits account (limits_idx d);
  let decreased_limit :=
    if 0 <=? ram then (ram_bytes limits <? 0) || (ram <? ram_bytes limits) else false in
  t' ← db_modify (true, account) (fun _ => Ok (mk_limits net cpu ram)) t;
  Ok (decreased_limit, set_limits_idx t' d).

(** The lambda [update_state_and_value]: (total, value) after the update. *)
Definition update_state_and_value (total value pending_value : Z) : res (Z * Z) :=
  total ← (if 0 <? value then
             _ ← sys_assert (value <=? total) rate_limiting_state_inconsistent;
             Ok (u64 (total - value))
           else Ok total);
  total ← (if 0 <? pending_value then
             _ ← sys_assert (pending_value <=? u64_max - total) rate_limiting_state_inconsistent;
             Ok (u64 (total + pending_value))
           else Ok total);
  Ok (total, pending_value).

(** One turn of the loop: fold the first pending row into the actual row. *)
Definition apply_pending (owner : Z) (p : resource_limits_object) (d : rl_db) : res rl_db :=
  let s := rl_state d in
  actual ← db_get (false, owner) (limits_idx d);
  '(ram_total, ram) ← update_state_and_value (total_ram_bytes s) (ram_bytes actual) (ram_bytes p);
  '(cpu_total, cpu) ← update_state_and_value (total_cpu_weight s) (cpu_weight actual) (cpu_weight p);
  '(net_total, net) ← update_state_and_value (total_net_weight s) (net_weight actual) (net_weight p);
  let t := idx_modify (false, owner) (fun _ => mk_limits net cpu ram) (limits_idx d) in
  Ok (set_state (mk_state (average_block_net_usage s) (average_block_cpu_usage s)
                   (pending_net_usage s) (pending_cpu_usage s) net_total cpu_total ram_total
                   (virtual_net_limit s) (virtual_cpu_limit s))
        (set_limits_idx (idx_remove (true, owner) t) d)).

Fixpoint process_account_limit_updates_loop (fuel : nat) (d : rl_db) : res rl_db :=
  match fuel with
  | O => Throw fuel_exhausted
  | S fuel =>
      match idx_first fst (limits_idx d) with
      | None => Ok d
      | Some ((_, owner), p) =>
          d' ← apply_pending owner p d;
          process_account_limit_updates_loop fuel d'
      end
  end.

(** Every turn removes a row, so the number of rows bounds the turns. *)
Definition process_account_limit_updates (d : rl_db) : res rl_db :=
  process_account_limit_updates_loop (S (length (idx_rows (limits_idx d)))) d.

Definition process_block_usage (block_num : Z) (d : rl_db) : res rl_db :=
  let s := rl_state d in
  let c := rl_config d in
  cpu_avg ← ema_add (average_block_cpu_usage s) (pending_cpu_usage s) block_num
              (elp_periods (cpu_limit_parameters c));
  vcpu ← update_elastic_limit (virtual_cpu_limit s) (average cpu_avg) (cpu_limit_parameters c);
  net_avg ← ema_add (average_block_net_usage s) (pending_net_usage s) block_num
              (elp_periods (net_limit_parameters c));
  vnet ← update_elastic_limit (virtual_net_limit s) (average net_avg) (net_limit_parameters c);
  Ok (set_state (mk_state net_avg cpu_avg 0 0 (total_net_weight s) (total_cpu_weight s)
                   (total_ram_bytes s) vnet vcpu) d).

Definition get_block_cpu_limit (d : rl_db) : Z :=
  u64 (elp_max (cpu_limit_parameters (rl_config d)) - pending_cpu_usage (rl_state d)).
Definition get_block_net_limit (d : rl_db) : Z :=
  u64 (elp_max (net_limit_parameters (rl_config d)) - pending_net_usage (rl_state d)).

Record account_resource_limit := mk_arl {
  arl_used : Z; arl_available : Z; arl_max : Z;
  arl_last_usage_update_time : Z;  (* block_timestamp_type: its slot *)
  arl_current_used : Z;
}.

(** Common body of [get_account_cpu_limit_ex] and [get_account_net_limit_ex]:
    the two functions differ only in the fields they read. *)
Definition account_limit_ex (weight total_weight virtual_limit block_max window_size : Z)
    (usage : usage_accumulator) (greylist_limit : Z) (current_time : option Z)
    : res (account_resource_limit * bool) :=
  if (weight <? 0) || (total_weight =? 0)
  then Ok (mk_arl (-1) (-1) (-1) (last_ordinal usage) (-1), false)
  else
    let greylisted_virtual_limit := u64 (block_max * greylist_limit) in
    let greylisted := (greylist_limit <? maximum_elastic_resource_multiplier) &&
                      (greylisted_virtual_limit <? virtual_limit) in
    let capacity := u128 (window_size *
                      (if greylisted then greylisted_virtual_limit else virtual_limit)) in
    let max_use := u128 (capacity * weight) / total_weight in
    let used := integer_divide_ceil (u128 (value_ex usage * window_size)) rate_limiting_precision in
    available ← (if max_use <=? used then Ok 0 else downgrade_cast_i64 (max_use - used));
    used' ← downgrade_cast_i64 used;
    max' ← downgrade_cast_i64 max_use;
    current_used ← (match current_time with
      | Some slot =>
          if last_ordinal usage <? slot then
            h ← ema_add usage 0 slot (u32 window_size);
            downgrade_cast_i64
              (integer_divide_ceil (u128 (value_ex h * window_size)) rate_limiting_precision)
          else Ok used'
      | None => Ok used'
      end);
    Ok (mk_arl used' available max' (last_ordinal usage) current_used, greylisted).

Definition get_account_cpu_limit_ex (account greylist_limit : Z) (current_time : option Z) (d : rl_db)
    : res (account_resource_limit * bool) :=
  usage ← db_get account (usage_idx d);
  '(_, _, cpuw) ← get_account_limits account d;
  account_limit_ex cpuw (total_cpu_weight (rl_state d)) (virtual_cpu_limit (rl_state d))
    (elp_max (cpu_limit_parameters (rl_config d))) (account_cpu_usage_average_window (rl_config d))
    (cpu_usage usage) greylist_limit current_time.

Definition get_account_net_limit_ex (account greylist_limit : Z) (current_time : option Z) (d : rl_db)
    : res (account_resource_limit * bool) :=
  usage ← db_get account (usage_idx d);
  '(_, netw, _) ← get_account_limits account d;
  account_limit_ex netw (total_net_weight (rl_state d)) (virtual_net_limit (rl_state d))
    (elp_max (net_limit_parameters (rl_config d))) (account_net_usage_average_window (rl_config d))
    (net_usage usage) greylist_limit current_time.

Definition get_account_cpu_limit (account greylist_limit : Z) (d : rl_db) : res (Z * bool) :=
  '(arl, greylisted) ← get_account_cpu_limit_ex account greylist_limit None d;
  Ok (arl_available arl, greylisted).

Definition get_account_net_limit (account greylist_limit : Z) (d : rl_db) : res (Z * bool) :=
  '(arl, greylisted) ← get_account_net_limit_ex account greylist_limit None d;
  Ok (arl_available arl, greylisted).
End manager.

Arguments rl_db : clear implicits.

(** ** Totals of a limits table *)

(** What a row adds to a running total: actual rows count, and only when the
    limit is set (a negative value means unlimited). *)
Definition row_weight (f : resource_limits_object -> Z) (k : bool * Z) (v : resource_limits_object) : Z :=
  if k.1 then 0 else Z.max 0 (f v).
Definition total_of (f : resource_limits_object -> Z) (m : gmap (bool * Z) resource_limits_object) : Z :=
  map_fold (fun k v acc => row_weight f k v + acc) 0 m.

Lemma total_of_empty f : total_of f ∅ = 0.
Proof. apply map_fold_empty. Qed.

Lemma total_of_insert f m k v :
  m !! k = None -> total_of f (<[k := v]> m) = row_weight f k v + total_of f m.
Proof. intros. unfold total_of. rewrite map_fold_insert_L; [done|intros; lia|done]. Qed.

Lemma total_of_delete f m k v :
  m !! k = Some v -> total_of f m = row_weight f k v + total_of f (delete k m).
Proof.
  intros E. rewrite <- (insert_delete_id m k v E) at 1. apply total_of_insert, lookup_delete_eq.
Qed.

Lemma total_of_overwrite f m k v v' :
  m !! k = Some v ->
  total_of f (<[k := v']> m) = total_of f m - row_weight f k v + row_weight f k v'.
Proof.
  intros E. rewrite <- insert_delete_eq, total_of_insert by apply lookup_delete_eq.
  rewrite (total_of_delete f m k v) by done. lia.
Qed.

Lemma row_weight_nonneg f k v : 0 <= row_weight f k v.
Proof. unfold row_weight. destruct k.1; lia. Qed.

Lemma total_of_nonneg f m : 0 <= total_of f m.
Proof.
  induction m as [|k v m Hm IH] using map_ind; [by rewrite total_of_empty|].
  rewrite total_of_insert by done. pose proof (row_weight_nonneg f k v). lia.
Qed.

Lemma update_state_and_value_Ok total value pending total' value' :
  is_u64 total -> update_state_and_value total value pending = Ok (total', value') ->
  value' = pending /\ is_u64 total' /\ total' = total - Z.max 0 value + Z.max 0 pending.
Proof.
  unfold update_state_and_value, is_u64, u64_max. intros Ht.
  destruct (0 <? value) eqn:?, (0 <? pending) eqn:?; bool_to_Z; intros H; inv_res; bool_to_Z;
    rewrite ?(u64_small (total - value)) in * by lia; rewrite ?u64_small by lia; lia.
Qed.

Section invariants.
Context {LT UT : Type}.
Context `{!ChainIndex (bool * Z) resource_limits_object LT}.
Context `{!ChainIndex Z resource_usage_object UT}.
Implicit Types d : rl_db LT UT.

Abbreviation limits_of d := (idx_view (limits_idx d)).
Abbreviation usage_of d := (idx_view (usage_idx d)).

(** The running totals are the sums over the actual rows, a pending row always
    has an actual row under it, and every account with limits has usage. *)
Record rl_inv (d : rl_db LT UT) : Prop := {
  inv_ram : total_ram_bytes (rl_state d) = total_of ram_bytes (limits_of d);
  inv_cpu : total_cpu_weight (rl_state d) = total_of cpu_weight (limits_of d);
  inv_net : total_net_weight (rl_state d) = total_of net_weight (limits_of d);
  inv_u64 : is_u64 (total_ram_bytes (rl_state d)) /\ is_u64 (total_cpu_weight (rl_state d)) /\
            is_u64 (total_net_weight (rl_state d));
  inv_pending a : is_Some (limits_of d !! (true, a)) -> is_Some (limits_of d !! (false, a));
  inv_usage a : is_Some (limits_of d !! (false, a)) <-> is_Some (usage_of d !! a);
}.

(** What the manager answers about an account depends on the limits view. *)
Definition limits_view (d : rl_db LT UT) (a : Z) : option resource_limits_object :=
  match limits_of d !! (true, a) with Some p => Some p | None => limits_of d !! (false, a) end.

Lemma get_account_limits_view a d :
  get_account_limits a d =
    match limits_view d a with
    | Some r => Ok (ram_bytes r, net_weight r, cpu_weight r)
    | None => Throw std_out_of_range
    end.
Proof.
  unfold get_account_limits, limits_view, db_get. rewrite !idx_find_view.
  destruct (limits_of d !! (true, a)); [done|]. by destruct (limits_of d !! (false, a)).
Qed.

Lemma initialize_database_inv : rl_inv initialize_database.
Proof.
  split; cbn; rewrite ?idx_empty_view, ?total_of_empty; try done.
  intros a. rewrite !lookup_empty. split; by intros [? [=]].
Qed.

(** A new row with unset limits changes no total. *)
Lemma initialize_account_inv a d d' :
  rl_inv d -> initialize_account a d = Ok d' -> rl_inv d'.
Proof.
  intros [? ? ? ? Hp Hu] H. unfold initialize_account in H.
  apply bind_Ok in H as (lt & [Hfl Hl]%db_create_Ok & H).
  apply bind_Ok in H as (ut & [Hfu Hut]%db_create_Ok & [= <-]).
  assert (forall f, f new_limits = -1 -> total_of f (idx_view lt) = total_of f (limits_of d)) as Ht.
  { intros f Hf. rewrite Hl, total_of_insert by done. unfold row_weight. cbn. lia. }
  split; cbn; rewrite ?Ht by done; try done.
  - intros b. rewrite Hl. intros Hb. rewrite lookup_insert_ne in Hb by done.
    destruct (decide (a = b)) as [<-|]; [rewrite lookup_insert_eq; by eexists|].
    rewrite lookup_insert_ne by congruence. auto.
  - intros b. rewrite Hl, Hut. destruct (decide (a = b)) as [<-|].
    + rewrite !lookup_insert_eq. split; eauto.
    + rewrite !lookup_insert_ne by congruence. auto.
Qed.

(** Operations that only touch usage rows keep the invariant. *)
Lemma set_usage_idx_inv d k v v' ut :
  usage_of d !! k = Some v -> idx_view ut = <[k := v']> (usage_of d) ->
  rl_inv d -> rl_inv (set_usage_idx ut d).
Proof.
  intros Hk Hv [? ? ? ? Hp Hu]. split; cbn; try done.
  intros a. rewrite Hu, Hv. destruct (decide (k = a)) as [<-|].
  - rewrite Hk, lookup_insert_eq. split; eauto.
  - by rewrite lookup_insert_ne.
Qed.

Lemma set_account_limits_view a ram net cpu d b d' :
  set_account_limits a ram net cpu d = Ok (b, d') ->
  limits_of d' = <[(true, a) := mk_limits net cpu ram]> (limits_of d) /\
  is_Some (limits_view d a) /\ usage_idx d' = usage_idx d /\ rl_state d' = rl_state d /\
  rl_config d' = rl_config d.
Proof.
  unfold set_account_limits, find_or_create_pending_limits, limits_view.
  rewrite idx_find_view. intros H. apply bind_Ok in H as ([l t] & Ht & H).
  apply bind_Ok in H as (t' & Hm & [= <- <-]).
  apply db_modify_view in Hm as (v & v' & Hv & [= <-] & Hm). cbn. rewrite Hm.
  destruct (limits_of d !! (true, a)) eqn:Ep.
  - injection Ht as <- <-. eauto.
  - apply bind_Ok in Ht as (r & Hr%db_get_Ok & Ht).
    apply bind_Ok in Ht as (t2 & [_ Hc]%db_create_Ok & [= <- <-]).
    rewrite Hc, insert_insert_eq, Hr. eauto.
Qed.

Lemma total_of_pending f m a v : total_of f (<[(true, a) := v]> m) = total_of f m.
Proof.
  destruct (m !! (true, a)) eqn:E.
  - rewrite (total_of_overwrite f m _ _ _ E). cbn. lia.
  - by rewrite total_of_insert.
Qed.

Lemma set_account_limits_inv a ram net cpu d b d' :
  rl_inv d -> set_account_limits a ram net cpu d = Ok (b, d') -> rl_inv d'.
Proof.
  intros [? ? ? ? Hp Hu] (Hv & Hs & Eu & Es & _)%set_account_limits_view.
  unfold limits_view in Hs.
  split; rewrite ?Es, ?Hv, ?Eu, ?total_of_pending; try done.
  - intros b'. rewrite (lookup_insert_ne _ _ (false, b')) by done.
    destruct (decide (a = b')) as [<-|].
    + intros _. destruct (limits_of d !! (true, a)) eqn:E; [|done]. apply Hp; eauto.
    + rewrite lookup_insert_ne by congruence. auto.
  - intros b'. by rewrite lookup_insert_ne by done.
Qed.

(** One turn of the update loop. *)
Lemma apply_pending_Ok o p d d' :
  rl_inv d -> limits_of d !! (true, o) = Some p -> apply_pending o p d = Ok d' ->
  rl_inv d' /\ limits_of d' = delete (true, o) (<[(false, o) := p]> (limits_of d)) /\
  usage_idx d' = usage_idx d.
Proof.
  intros [Hram Hcpu Hnet (Hr & Hc & Hn) Hp Hu] Hop H. unfold apply_pending in H.
  apply bind_Ok in H as (actual & Ha%db_get_Ok & H).
  apply bind_Ok in H as ([rt r] & (-> & Hrt & Ert)%update_state_and_value_Ok & H); [|done].
  apply bind_Ok in H as ([ct c] & (-> & Hct & Ect)%update_state_and_value_Ok & H); [|done].
  apply bind_Ok in H as ([nt n] & (-> & Hnt & Ent)%update_state_and_value_Ok & [= <-]); [|done].
  assert (limits_of d !! (false, o) = Some actual) as Ha' by done.
  assert (idx_view (idx_remove (true, o)
            (idx_modify (false, o) (fun _ => mk_limits (net_weight p) (cpu_weight p) (ram_bytes p))
               (limits_idx d))) = delete (true, o) (<[(false, o) := p]> (limits_of d))) as Hview.
  { rewrite idx_remove_view, (idx_modify_insert _ actual) by done. by destruct p. }
  assert (forall f, total_of f (delete (true, o) (<[(false, o) := p]> (limits_of d)))
                    = total_of f (limits_of d) - Z.max 0 (f actual) + Z.max 0 (f p)) as Ht.
  { intros f. pose proof (total_of_overwrite f _ _ _ p Ha') as Eo.
    rewrite (total_of_delete f _ (true, o) p) in Eo by by rewrite lookup_insert_ne.
    cbn in Eo. lia. }
  split; [|done]. split; cbn; rewrite ?Hview, ?Ht; try lia; try done.
  - intros a Hs. destruct (decide (a = o)) as [->|].
    { rewrite lookup_delete_eq in Hs. by destruct Hs. }
    rewrite lookup_delete_ne, lookup_insert_ne in Hs by congruence.
    rewrite lookup_delete_ne, lookup_insert_ne by congruence. auto.
  - intros a. rewrite lookup_delete_ne by done. rewrite <- Hu.
    destruct (decide (a = o)) as [->|]; [rewrite lookup_insert_eq, Ha'; split; eauto|].
    by rewrite lookup_insert_ne by congruence.
Qed.

(** What a whole run of the loop has done when it stops at [d']. *)
Definition updates_applied (d d' : rl_db LT UT) : Prop :=
  rl_inv d' /\ usage_idx d' = usage_idx d /\
  (forall a, limits_of d' !! (true, a) = None) /\
  (forall a, limits_of d' !! (false, a) = limits_view d a).

Lemma limits_view_apply_pending o p d d' a :
  limits_of d !! (true, o) = Some p ->
  limits_of d' = delete (true, o) (<[(false, o) := p]> (limits_of d)) ->
  limits_view d' a = limits_view d a.
Proof.
  intros Ho E. unfold limits_view. rewrite E. destruct (decide (a = o)) as [->|].
  - by rewrite lookup_delete_eq, lookup_delete_ne, lookup_insert_eq, Ho by done.
  - by rewrite !lookup_delete_ne, !lookup_insert_ne by congruence.
Qed.

Lemma process_loop_Ok fuel d d' :
  rl_inv d -> process_account_limit_updates_loop fuel d = Ok d' -> updates_applied d d'.
Proof.
  revert d. induction fuel as [|fuel IH]; intros d Hinv; [done|]. cbn.
  destruct (idx_first fst (limits_idx d)) as [[[b o] p]|] eqn:Ef.
  - apply idx_first_Some in Ef as [Hp Hb]. cbn in Hb; subst b.
    intros H. apply bind_Ok in H as (d1 & Hd1 & H).
    apply (apply_pending_Ok _ _ _ _ Hinv Hp) in Hd1 as (Hi1 & Hv1 & Hu1).
    apply IH in H as (Hi & Hu & Hnone & Hsame); [|done].
    split; [done|]. split; [congruence|]. split; [done|].
    intros a. rewrite Hsame. eauto using limits_view_apply_pending.
  - intros [= <-]. split; [done|]. split; [done|].
    assert (forall a, limits_of d !! (true, a) = None) as Hn.
    { intros a. destruct (limits_of d !! (true, a)) eqn:E; [|done].
      by apply (idx_first_None fst _ _ _ Ef) in E. }
    split; [done|]. intros a. unfold limits_view. by rewrite Hn.
Qed.
End invariants.

Section theorems.
Context {LT UT : Type}.
Context `{!ChainIndex (bool * Z) resource_limits_object LT}.
Context `{!ChainIndex Z resource_usage_object UT}.
Implicit Types d : rl_db LT UT.

Abbreviation limits_of d := (idx_view (limits_idx d)).
Abbreviation usage_of d := (idx_view (usage_idx d)).

(** Applying the pending limit changes keeps the totals equal to the sums of
    the account limits, leaves no pending row, leaves usage alone, and is
    invisible to every reader: [get_account_limits] answers the same before
    and after. *)
Theorem process_account_limit_updates_spec d d' :
  rl_inv d -> process_account_limit_updates d = Ok d' ->
  rl_inv d' /\ usage_idx d' = usage_idx d /\
  (forall a, idx_find (true, a) (limits_idx d') = None) /\
  (forall a, get_account_limits a d' = get_account_limits a d).
Proof.
  intros Hi (Hi' & Hu & Hn & Hs)%process_loop_Ok; [|done]. split; [done|]. split; [done|].
  split; [intros a; by rewrite idx_find_view|].
  intros a. rewrite !get_account_limits_view. unfold limits_view at 1. by rewrite Hn, Hs.
Qed.

Lemma apply_pending_size o p d d' :
  limits_of d !! (true, o) = Some p -> apply_pending o p d = Ok d' ->
  size (limits_of d) = S (size (limits_of d')).
Proof.
  intros Hop H. unfold apply_pending in H.
  apply bind_Ok in H as (actual & Ha%db_get_Ok & H).
  apply bind_Ok in H as ([rt r] & _ & H). apply bind_Ok in H as ([ct c] & _ & H).
  apply bind_Ok in H as ([nt n] & _ & [= <-]). cbn.
  rewrite idx_remove_view, (idx_modify_insert _ actual) by done.
  rewrite map_size_delete, lookup_insert_ne, Hop, map_size_insert by done.
  change (idx_view (limits_idx d) !! (false, o) = Some actual) in Ha. rewrite Ha. unfold id.
  assert (size (limits_of d) <> 0%nat); [|lia].
  intros E%map_size_empty_inv. by rewrite E, lookup_empty in Hop.
Qed.

Lemma update_state_and_value_fuel t v p : update_state_and_value t v p <> Throw fuel_exhausted.
Proof.
  unfold update_state_and_value. intros H.
  apply bind_Throw in H as [H|(t1 & _ & H)].
  { destruct (0 <? v); [|done]. apply bind_Throw in H as [H|(?&?&H)]; inv_res. }
  apply bind_Throw in H as [H|(t2 & _ & H)]; [|done].
  destruct (0 <? p); [|done]. apply bind_Throw in H as [H|(?&?&H)]; inv_res.
Qed.

Lemma apply_pending_fuel o p d : apply_pending o p d <> Throw fuel_exhausted.
Proof.
  unfold apply_pending. intros H. apply bind_Throw in H as [H|(a & _ & H)].
  { unfold db_get in H. inv_res. }
  do 3 (apply bind_Throw in H as [H|([] & _ & H)]; [by apply update_state_and_value_fuel in H|]).
  done.
Qed.

Lemma process_loop_fuel fuel d :
  (size (limits_of d) < fuel)%nat ->
  process_account_limit_updates_loop fuel d <> Throw fuel_exhausted.
Proof.
  revert d. induction fuel as [|fuel IH]; intros d Hf; [lia|]. cbn.
  destruct (idx_first fst (limits_idx d)) as [[[b o] p]|] eqn:Ef; [|done].
  apply idx_first_Some in Ef as [Hp Hb]. cbn in Hb; subst b.
  intros [H|(d1 & H1 & H)]%bind_Throw; [by apply apply_pending_fuel in H|].
  apply apply_pending_size in H1; [|done]. eapply IH; [|exact H]. lia.
Qed.

(** The update loop always terminates: the number of rows is enough fuel,
    whatever the table holds. *)
Theorem process_account_limit_updates_terminates d :
  process_account_limit_updates d <> Throw fuel_exhausted.
Proof. apply process_loop_fuel. rewrite length_rows. lia. Qed.

(** New limits are what readers see at once, for that account only; the
    totals and the actual row wait for the next [process_account_limit_updates].
    The result tells whether a RAM limit that was unset or higher got lower. *)
Theorem set_account_limits_spec a ram net cpu d b d' :
  set_account_limits a ram net cpu d = Ok (b, d') ->
  get_account_limits a d' = Ok (ram, net, cpu) /\
  (forall a', a' <> a -> get_account_limits a' d' = get_account_limits a' d) /\
  rl_state d' = rl_state d /\ usage_idx d' = usage_idx d /\
  (exists old netw cpuw, get_account_limits a d = Ok (old, netw, cpuw) /\
     (b = true <-> 0 <= ram /\ (old < 0 \/ ram < old))).
Proof.
  intros H. pose proof (set_account_limits_view _ _ _ _ _ _ _ H) as (Hv & _ & Hu & Hs & _).
  split; [|split; [|split; [done|split; [done|]]]].
  - rewrite get_account_limits_view. unfold limits_view. by rewrite Hv, lookup_insert_eq.
  - intros a' Hne. rewrite !get_account_limits_view. unfold limits_view.
    rewrite Hv, !lookup_insert_ne by congruence. done.
  - unfold set_account_limits, find_or_create_pending_limits in H.
    rewrite idx_find_view in H. apply bind_Ok in H as ([l t] & Ht & H).
    apply bind_Ok in H as (t' & _ & [= <- _]).
    assert (exists r, limits_view d a = Some r /\ ram_bytes r = ram_bytes l) as (r & Er & Eb).
    { unfold limits_view. destruct (limits_of d !! (true, a)); [injection Ht as <- <-; eauto|].
      apply bind_Ok in Ht as (r & Hr%db_get_Ok & Ht).
      apply bind_Ok in Ht as (t2 & _ & [= <- _]). eauto. }
    eexists _, _, _. rewrite get_account_limits_view, Er, Eb. split; [done|].
    destruct (0 <=? ram) eqn:?; bool_to_Z; [|split; [done|lia]].
    rewrite orb_true_iff, !Z.ltb_lt. lia.
Qed.

(** RAM accounting is exact: the stored usage moves by the signed delta and
    never wraps; a delta that would leave the range is refused. *)
Theorem add_pending_ram_usage_spec a delta d u :
  usage_of d !! a = Some u -> is_u64 (ram_usage u) -> is_i64 delta ->
  if bool_decide (is_u64 (ram_usage u + delta)) then
    exists d', add_pending_ram_usage a delta d = Ok d' /\
      (forall b, usage_of d' !! b =
         if decide (b = a) then Some (mk_usage (net_usage u) (cpu_usage u) (ram_usage u + delta))
         else usage_of d !! b) /\
      limits_idx d' = limits_idx d /\ rl_state d' = rl_state d
  else add_pending_ram_usage a delta d = Throw transaction_exception.
Proof.
  unfold is_u64, is_i64. intros Hu Hr Hd. unfold add_pending_ram_usage.
  destruct (delta =? 0) eqn:E0; bool_to_Z.
  { subst. rewrite bool_decide_eq_true_2 by lia. exists d. repeat split; [|done..].
    intros b. case_decide; subst; [|done]. rewrite Hu, Z.add_0_r. by destruct u. }
  assert (db_get a (usage_idx d) = Ok u) as -> by by apply db_get_Ok. cbn.
  case_bool_decide as Hin.
  - rewrite bind_assert, bind_assert.
    + unfold db_modify. assert (db_get a (usage_idx d) = Ok u) as -> by by apply db_get_Ok. cbn.
      eexists; split; [done|]. cbn. split; [|done]. intros b.
      rewrite (idx_modify_insert _ u) by done. rewrite u64_small by done.
      case_decide; subst; [by rewrite lookup_insert_eq|by rewrite lookup_insert_ne].
    + destruct (0 <=? delta) eqn:?; [done|]. bool_to_Z. cbn. apply Z.leb_le.
      rewrite u64_neg_i64 by lia. lia.
    + destruct (delta <=? 0) eqn:?; [done|]. bool_to_Z. cbn. apply Z.leb_le.
      rewrite u64_small by lia. unfold u64_max. lia.
  - destruct (delta <=? 0) eqn:?; bool_to_Z; cbn.
    + rewrite bind_assert_fails; [done|]. apply orb_false_iff. split; [apply Z.leb_gt; lia|].
      apply Z.leb_gt. rewrite u64_neg_i64 by lia. lia.
    + rewrite bind_assert_fails; [done|]. apply Z.leb_gt. rewrite u64_small by lia. unfold u64_max. lia.
Qed.

Lemma add_account_usage_Ok cpu net slot d a d' :
  add_account_usage cpu net slot d a = Ok d' ->
  exists u u' r, usage_of d !! a = Some u /\ limits_view d a = Some r /\
    ema_add (net_usage u) net slot (account_net_usage_average_window (rl_config d)) = Ok (net_usage u') /\
    ema_add (cpu_usage u) cpu slot (account_cpu_usage_average_window (rl_config d)) = Ok (cpu_usage u') /\
    ram_usage u' = ram_usage u /\
    usage_of d' = <[a := u']> (usage_of d) /\
    limits_idx d' = limits_idx d /\ rl_state d' = rl_state d /\ rl_config d' = rl_config d /\
    (0 <= cpu_weight r -> 0 < total_cpu_weight (rl_state d) ->
       used_in_window (value_ex (cpu_usage u')) (account_cpu_usage_average_window (rl_config d)) <=
       max_user_use_in_window (virtual_cpu_limit (rl_state d))
         (account_cpu_usage_average_window (rl_config d)) (cpu_weight r)
         (total_cpu_weight (rl_state d))) /\
    (0 <= net_weight r -> 0 < total_net_weight (rl_state d) ->
       used_in_window (value_ex (net_usage u')) (account_net_usage_average_window (rl_config d)) <=
       max_user_use_in_window (virtual_net_limit (rl_state d))
         (account_net_usage_average_window (rl_config d)) (net_weight r)
         (total_net_weight (rl_state d))).
Proof.
  unfold add_account_usage. intros H. apply bind_Ok in H as (u0 & _ & H).
  apply bind_Ok in H as ([[rb nw] cw] & Hl & H). rewrite get_account_limits_view in Hl.
  destruct (limits_view d a) as [r|] eqn:Er; [|done]. injection Hl as <- <- <-.
  apply bind_Ok in H as (ut & Hm & H).
  apply db_modify_view in Hm as (u & u' & Hu & Hf & Hut).
  apply bind_Ok in Hf as (n & Hn & Hf). apply bind_Ok in Hf as (p & Hp & [= <-]).
  apply bind_Ok in H as (u'' & Hu''%db_get_Ok & H). rewrite Hut, lookup_insert_eq in Hu''.
  injection Hu'' as <-. cbn in H.
  apply bind_Ok in H as ([] & Hc & H). apply bind_Ok in H as ([] & Hne & [= <-]). cbn.
  exists u, (mk_usage n p (ram_usage u)), r. cbn. do 9 (split; [eassumption || done|]). split.
  - intros H1%Z.leb_le H2%Z.ltb_lt. rewrite H1, H2 in Hc. cbn in Hc. inv_res. by apply Z.leb_le.
  - intros H1%Z.leb_le H2%Z.ltb_lt. rewrite H1, H2 in Hne. cbn in Hne. inv_res. by apply Z.leb_le.
Qed.

(** An account is within the share of the window its weights give it. *)
Definition within_limits (d : rl_db LT UT) (a : Z) : Prop :=
  forall u r, usage_of d !! a = Some u -> limits_view d a = Some r ->
  let s := rl_state d in let c := rl_config d in
  (0 <= cpu_weight r -> 0 < total_cpu_weight s ->
     used_in_window (value_ex (cpu_usage u)) (account_cpu_usage_average_window c) <=
     max_user_use_in_window (virtual_cpu_limit s) (account_cpu_usage_average_window c)
       (cpu_weight r) (total_cpu_weight s)) /\
  (0 <= net_weight r -> 0 < total_net_weight s ->
     used_in_window (value_ex (net_usage u)) (account_net_usage_average_window c) <=
     max_user_use_in_window (virtual_net_limit s) (account_net_usage_average_window c)
       (net_weight r) (total_net_weight s)).

(** The billing loop: what holds once the accounts of [xs] are charged. *)
Lemma billing_loop_Ok cpu net slot xs d d' :
  NoDup xs -> foldM (add_account_usage cpu net slot) d xs = Ok d' ->
  limits_idx d' = limits_idx d /\ rl_state d' = rl_state d /\ rl_config d' = rl_config d /\
  (forall a, a ∈ xs -> within_limits d' a /\ exists u u',
     usage_of d !! a = Some u /\ usage_of d' !! a = Some u' /\
     ema_add (net_usage u) net slot (account_net_usage_average_window (rl_config d)) = Ok (net_usage u') /\
     ema_add (cpu_usage u) cpu slot (account_cpu_usage_average_window (rl_config d)) = Ok (cpu_usage u')) /\
  (forall a, a ∉ xs -> usage_of d' !! a = usage_of d !! a).
Proof.
  intros Hnd. revert d. induction Hnd as [|x xs Hx Hnd IH]; intros d; cbn.
  { intros [= <-]. split_and!; [done..| |done]. by intros a ?%not_elem_of_nil. }
  intros (d1 & H1 & H)%bind_Ok.
  apply add_account_usage_Ok in H1
    as (u & u' & r & Hu & Hr & Hn & Hc & Hram & Hv & El & Es & Ec & Hw1 & Hw2).
  apply IH in H as (El' & Es' & Ec' & Hin & Hout).
  assert (forall a, limits_view d' a = limits_view d a) as Hlv.
  { intros a. unfold limits_view. by rewrite El', El. }
  split_and!; [congruence..| |].
  - intros a [->|Ha]%elem_of_cons.
    + assert (usage_of d' !! x = Some u') as Hx'.
      { rewrite Hout by done. by rewrite Hv, lookup_insert_eq. }
      split; [|eauto 10]. intros u2 r2 Hu2 Hr2. rewrite Hx' in Hu2. rewrite Hlv, Hr in Hr2.
      simplify_eq. cbn. rewrite Es', Es, Ec', Ec. done.
    + assert (a <> x) by by intros ->.
      apply Hin in Ha as [Hwl (v & v' & Hv1 & Hv2 & ? & ?)]. split; [done|].
      rewrite Hv, lookup_insert_ne in Hv1 by done. rewrite Ec in *. eauto 10.
  - intros a [Ha1 Ha2]%not_elem_of_cons. rewrite Hout by done. by rewrite Hv, lookup_insert_ne.
Qed.

(** When a transaction is billed, every billed account ends inside its share
    of the CPU and NET windows, its averages are advanced exactly once, other
    accounts and all limits are untouched, and the block's pending usage does
    not exceed the block maximum. *)
Theorem add_transaction_usage_spec accounts cpu net slot d d' :
  NoDup accounts -> add_transaction_usage accounts cpu net slot d = Ok d' ->
  (forall a, a ∈ accounts -> within_limits d' a /\ exists u u',
     usage_of d !! a = Some u /\ usage_of d' !! a = Some u' /\
     ema_add (net_usage u) net slot (account_net_usage_average_window (rl_config d)) = Ok (net_usage u') /\
     ema_add (cpu_usage u) cpu slot (account_cpu_usage_average_window (rl_config d)) = Ok (cpu_usage u')) /\
  (forall a, a ∉ accounts -> usage_of d' !! a = usage_of d !! a) /\
  limits_idx d' = limits_idx d /\
  pending_cpu_usage (rl_state d') = u64 (pending_cpu_usage (rl_state d) + cpu) /\
  pending_net_usage (rl_state d') = u64 (pending_net_usage (rl_state d) + net) /\
  pending_cpu_usage (rl_state d') <= elp_max (cpu_limit_parameters (rl_config d)) /\
  pending_net_usage (rl_state d') <= elp_max (net_limit_parameters (rl_config d)).
Proof.
  intros Hnd H. unfold add_transaction_usage in H. apply bind_Ok in H as (d1 & H1 & H).
  apply billing_loop_Ok in H1 as (El & Es & Ec & Hin & Hout); [|done].
  apply bind_Ok in H as ([] & Hc%sys_assert_Ok & H).
  apply bind_Ok in H as ([] & Hn%sys_assert_Ok & [= <-]). cbn in *. bool_to_Z.
  rewrite Es, Ec in *. split_and!; try done.
  intros a [Hwl Hu]%Hin. split; [|done].
  unfold within_limits, limits_view in *; cbn in *. by rewrite Es in Hwl.
Qed.

(** *** Reachable states *)

Inductive rl_step : rl_db LT UT -> rl_db LT UT -> Prop :=
| step_initialize_account a d d' : initialize_account a d = Ok d' -> rl_step d d'
| step_set_block_parameters c n d d' : set_block_parameters c n d = Ok d' -> rl_step d d'
| step_update_account_usage xs t d d' : update_account_usage xs t d = Ok d' -> rl_step d d'
| step_add_transaction_usage xs c n t d d' :
    NoDup xs -> add_transaction_usage xs c n t d = Ok d' -> rl_step d d'
| step_add_pending_ram_usage a r d d' : add_pending_ram_usage a r d = Ok d' -> rl_step d d'
| step_set_account_limits a r n c b d d' : set_account_limits a r n c d = Ok (b, d') -> rl_step d d'
| step_process_account_limit_updates d d' : process_account_limit_updates d = Ok d' -> rl_step d d'
| step_process_block_usage b d d' : process_block_usage b d = Ok d' -> rl_step d d'.

Lemma rl_inv_transport d d' :
  limits_idx d' = limits_idx d ->
  (forall a, is_Some (usage_of d' !! a) <-> is_Some (usage_of d !! a)) ->
  total_ram_bytes (rl_state d') = total_ram_bytes (rl_state d) ->
  total_cpu_weight (rl_state d') = total_cpu_weight (rl_state d) ->
  total_net_weight (rl_state d') = total_net_weight (rl_state d) ->
  rl_inv d -> rl_inv d'.
Proof.
  intros El Hu E1 E2 E3 [? ? ? ? ? ?]. split; rewrite ?E1, ?E2, ?E3, ?El; try done.
  intros a. by rewrite Hu.
Qed.

Lemma rl_step_inv d d' : rl_inv d -> rl_step d d' -> rl_inv d'.
Proof.
  intros Hi. destruct 1 as [a d d' H|c n d d' H|xs t d d' H|xs c n t d d' Hnd H|a r d d' H
                           |a r n c b d d' H|d d' H|b d d' H].
  - eauto using initialize_account_inv.
  - unfold set_block_parameters in H. inv_res. case_decide; inv_res; [done|].
    by apply (rl_inv_transport d).
  - unfold update_account_usage in H. eapply foldM_invariant; [|exact Hi|exact H].
    intros d1 a d2 _ Hd1 H1. apply bind_Ok in H1 as (ut & Hm & [= <-]).
    apply db_modify_view in Hm as (v & v' & ? & _ & ?). by eapply set_usage_idx_inv.
  - unfold add_transaction_usage in H. apply bind_Ok in H as (d1 & H1 & H).
    assert (rl_inv d1) as Hi1.
    { eapply foldM_invariant; [|exact Hi|exact H1]. intros d2 a d3 _ Hd2 H2.
      apply add_account_usage_Ok in H2 as (u & u' & r & Hu & _ & _ & _ & _ & Hv & El & Es & _).
      eapply (rl_inv_transport d2); rewrite ?Es; try done.
      intros b. rewrite Hv. destruct (decide (a = b)) as [<-|].
      - rewrite lookup_insert_eq, Hu. split; eauto.
      - by rewrite lookup_insert_ne. }
    inv_res. by apply (rl_inv_transport d1).
  - unfold add_pending_ram_usage in H. destruct (r =? 0); [by inv_res|].
    apply bind_Ok in H as (u & _ & H). do 2 apply bind_Ok in H as ([] & _ & H).
    apply bind_Ok in H as (ut & Hm & [= <-]).
    apply db_modify_view in Hm as (v & v' & ? & _ & ?). by eapply set_usage_idx_inv.
  - eauto using set_account_limits_inv.
  - by apply process_loop_Ok in H as [? _].
  - unfold process_block_usage in H. inv_res. by apply (rl_inv_transport d).
Qed.

(** C10: In every state the manager can reach from an initialised database, the
    running totals of RAM, CPU and NET equal the sums of the limits of the
    accounts, and no pending row is without an actual row and a usage row. *)
Theorem rl_reachable_inv d : rtc rl_step initialize_database d -> rl_inv d.
Proof.
  apply (rtc_ind_r (fun d => rl_inv d)).
  - apply initialize_database_inv.
  - intros ?? _ ? ?. by eapply rl_step_inv.
Qed.
End theorems.

(** An elastic limit stays between the configured maximum and its multiple;
    it does not grow while usage is above target (beyond the floor) and does not
    shrink while usage is at or below target (beyond the cap). *)
Theorem update_elastic_limit_spec cur avg p r :
  is_u64 cur -> 0 <= elp_max p -> 1 <= elp_max_multiplier p ->
  is_u64 (elp_max p * elp_max_multiplier p) ->
  0 <= numerator (elp_contract_rate p) <= denominator (elp_contract_rate p) ->
  0 < denominator (elp_expand_rate p) <= numerator (elp_expand_rate p) ->
  update_elastic_limit cur avg p = Ok r ->
  elp_max p <= r <= elp_max p * elp_max_multiplier p /\
  (elp_target p < avg -> r <= Z.max cur (elp_max p)) /\
  (avg <= elp_target p -> Z.min cur (elp_max p * elp_max_multiplier p) <= r).
Proof.
  unfold is_u64. intros Hcur Hmax Hmul Hcap Hc He H. unfold update_elastic_limit in H.
  apply bind_Ok in H as (v & Hv & [= <-]). rewrite u64_small by done.
  destruct (elp_target p <? avg) eqn:Et; bool_to_Z;
    (apply ratio_mul_Ok in Hv; [|unfold u64_max; lia|lia]).
  - assert (v <= cur).
    { subst v. destruct (decide (denominator (elp_contract_rate p) = 0)) as [->|].
      - rewrite Z.div_0_r. lia.
      - apply Z.div_le_upper_bound; nia. }
    nia.
  - assert (cur <= v) by (subst v; apply Z.div_le_lower_bound; nia). nia.
Qed.

Lemma update_elastic_limit_spec_witness :
  200000 <= 200200 <= 200000 * 1000 /\ Z.min 200000 (200000 * 1000) <= 200200.
Proof.
  destruct (update_elastic_limit_spec 200000 0 (cpu_limit_parameters default_config) 200200)
    as (H1 & _ & H2); [unfold is_u64; cbn; lia..|vm_compute; reflexivity|].
  split; [exact H1|apply H2; vm_compute; congruence].
Defined.

(** What an account is told is available is what its share of the window
    leaves after its (rounded-up) usage, never negative; a greylisted account is
    told a share of the smaller, greylisted capacity. *)
Theorem account_limit_ex_spec w total vlimit bmax window u gl ct arl g :
  0 <= w -> 0 < total -> is_u64 vlimit -> is_u32 window ->
  window * vlimit * w < 2 ^ 128 -> is_u64 (bmax * gl) ->
  account_limit_ex w total vlimit bmax window u gl ct = Ok (arl, g) ->
  arl_available arl = Z.max 0 (arl_max arl - arl_used arl) /\
  0 <= arl_used arl <= i64_max /\
  (g = true <-> gl < maximum_elastic_resource_multiplier /\ bmax * gl < vlimit) /\
  arl_max arl = window * (if g then bmax * gl else vlimit) * w / total /\
  arl_max arl <= window * vlimit * w / total.
Proof.
  unfold is_u64, is_u32. intros Hw Ht Hv Hwin Hprod Hgl H. unfold account_limit_ex in H.
  destruct ((w <? 0) || (total =? 0)) eqn:E.
  { apply orb_true_iff in E as [?|?]; bool_to_Z; lia. }
  rewrite (u64_small (bmax * gl)) in H by done.
  set (g0 := (gl <? _) && _) in H.
  set (base := if g0 then bmax * gl else vlimit) in H.
  assert (0 <= base <= vlimit) as Hbase.
  { unfold base, g0. destruct (gl <? maximum_elastic_resource_multiplier); cbn; [|lia].
    destruct (bmax * gl <? vlimit) eqn:?; bool_to_Z; lia. }
  assert (0 <= window * base <= window * vlimit) as Hwb by nia.
  assert (window * vlimit <= 2 ^ 32 * 2 ^ 64) by (apply Z.mul_le_mono_nonneg; lia).
  assert (0 <= window * base * w <= window * vlimit * w) as Hwbw by nia.
  rewrite (u128_small (window * base)), (u128_small (window * base * w)) in H by lia.
  set (mx := window * base * w / total) in H.
  set (used := integer_divide_ceil _ _) in H.
  apply bind_Ok in H as (av & Hav & H).
  apply bind_Ok in H as (us & [-> Hus]%downgrade_cast_i64_Ok & H).
  apply bind_Ok in H as (m & [-> Hm]%downgrade_cast_i64_Ok & H).
  apply bind_Ok in H as (cu & _ & [= <- <-]). cbn.
  split.
  { destruct (mx <=? used) eqn:?; bool_to_Z; [injection Hav; lia|].
    apply downgrade_cast_i64_Ok in Hav as [-> _]. lia. }
  split; [done|]. split.
  { unfold g0. rewrite andb_true_iff, !Z.ltb_lt. done. }
  split; [done|]. apply Z.div_le_mono; lia.
Qed.

Lemma account_limit_ex_spec_witness :
  arl_available (mk_arl 10 990 1000 5 10) = 990.
Proof.
  destruct (account_limit_ex_spec 1 1000 10000 200 100 (mk_usage_accumulator 5 100000 0) 1000 None
              (mk_arl 10 990 1000 5 10) false) as (-> & _);
    [unfold is_u64, is_u32; cbn; lia..|reflexivity|reflexivity].
Defined.

(** ** Witnesses on the [gmap] tables *)

Module ResourceLimitsWitness.
Definition db := rl_db (gmap (bool * Z) resource_limits_object) (gmap Z resource_usage_object).

Definition run (m : res db) : db := match m with Ok d => d | Throw _ => initialize_database end.

(** Two accounts; the first has a pending change of its limits. *)
Definition d1 : db := run (initialize_account 1 initialize_database ≫= initialize_account 2).
Definition d2 : db :=
  run (r ← set_account_limits 1 1000 7 9 d1; Ok r.2).

Lemma d2_reachable : rtc rl_step initialize_database d2.
Proof.
  eapply rtc_l; [apply (step_initialize_account 1); reflexivity|].
  eapply rtc_l; [apply (step_initialize_account 2); reflexivity|].
  eapply rtc_l; [apply (step_set_account_limits 1 1000 7 9 true); reflexivity|].
  exact (rtc_refl _ _).
Defined.

Lemma d2_inv : rl_inv d2.
Proof.
  apply (set_account_limits_inv 1 1000 7 9 d1 true); [|reflexivity].
  apply (initialize_account_inv 2 (run (initialize_account 1 initialize_database))); [|reflexivity].
  apply (initialize_account_inv 1 initialize_database); [|reflexivity].
  apply initialize_database_inv.
Qed.

Lemma rl_reachable_inv_witness :
  total_cpu_weight (rl_state d2) = total_of cpu_weight (limits_idx d2) /\ d2 <> initialize_database.
Proof. split; [apply (inv_cpu _ (rl_reachable_inv d2 d2_reachable))|vm_compute; congruence]. Defined.

Lemma process_account_limit_updates_spec_witness :
  exists d', process_account_limit_updates d2 = Ok d' /\
    get_account_limits 1 d' = Ok (1000, 7, 9) /\ total_cpu_weight (rl_state d') = 9.
Proof.
  eexists; split; [vm_compute; reflexivity|]. split; [|reflexivity].
  edestruct (process_account_limit_updates_spec d2) as (_ & _ & _ & H).
  - apply d2_inv.
  - vm_compute. reflexivity.
  - rewrite H. reflexivity.
Defined.

Lemma set_account_limits_spec_witness :
  get_account_limits 1 d2 = Ok (1000, 7, 9) /\ get_account_limits 2 d2 = get_account_limits 2 d1.
Proof.
  destruct (set_account_limits_spec 1 1000 7 9 d1 true d2) as (H1 & H2 & _); [reflexivity|].
  split; [exact H1|apply H2; lia].
Defined.

Lemma add_pending_ram_usage_spec_witness :
  (exists d', add_pending_ram_usage 1 500 d1 = Ok d' /\ get_account_ram_usage 1 d' = Ok 500) /\
  add_pending_ram_usage 1 (-1) d1 = Throw transaction_exception.
Proof.
  split.
  - destruct (add_pending_ram_usage_spec 1 500 d1 new_usage) as (d' & Hd & Hu & _);
      [reflexivity|unfold is_u64, is_i64; cbn; lia..|].
    exists d'. split; [exact Hd|]. specialize (Hu 1). vm_compute in Hd. injection Hd as <-. reflexivity.
  - apply (add_pending_ram_usage_spec 1 (-1) d1 new_usage);
      [reflexivity|unfold is_u64, is_i64; cbn; lia..].
Defined.

Definition d3 : db := run (add_transaction_usage [1; 2] 100 200 5 d2).

Lemma add_transaction_usage_spec_witness :
  add_transaction_usage [1; 2] 100 200 5 d2 = Ok d3 /\ within_limits d3 1 /\ pending_cpu_usage (rl_state d3) = 100.
Proof.
  assert (add_transaction_usage [1; 2] 100 200 5 d2 = Ok d3) as H by (vm_compute; reflexivity).
  split; [exact H|]. destruct (add_transaction_usage_spec [1; 2] 100 200 5 d2 d3) as (Hin & _ & _ & Hc & _).
  - apply (bool_decide_unpack (NoDup [1; 2])). vm_compute. exact I.
  - exact H.
  - split; [apply (Hin 1); left|rewrite Hc; vm_compute; reflexivity].
Defined.
End ResourceLimitsWitness.
