(* ===== verification/Name.v ===== *)
(** * Account names ([name.hpp], [name.cpp])

    A name is a [uint64_t] that packs up to 13 characters: twelve 5-bit
    characters from the high end and a 4-bit thirteenth.  Strings are lists of
    characters. *)

From S2P Require Import Prelude Exceptions.

Definition char_to_symbol (c : ascii) : Z :=
  if (char_code "a" <=? char_code c) && (char_code c <=? char_code "z")
  then char_code c - char_code "a" + 6
  else if (char_code "1" <=? char_code c) && (char_code c <=? char_code "5")
  then char_code c - char_code "1" + 1
  else 0.

(** The loop of [string_to_uint64_t]: [i] characters of the string are consumed,
    [n] is the value so far. *)
Fixpoint string_to_uint64_loop (i n : Z) (str : list ascii) : Z :=
  match str with
  | [] => n
  | c :: rest =>
      if i <? 12
      then string_to_uint64_loop (i + 1)
             (Z.lor n (Z.shiftl (Z.land (char_to_symbol c) 31) (64 - 5 * (i + 1)))) rest
      else (* i = 12 and i < str.size() *)
           Z.lor n (Z.land (char_to_symbol c) 15)
  end.
Definition string_to_uint64_t (str : list ascii) : Z := string_to_uint64_loop 0 0 str.

Definition charmap : list ascii :=
  chars ".12345abcdefghijklmnopqrstuvwxyz".
Definition charmap_at (i : Z) : ascii := List.nth (Z.to_nat i) charmap "."%char.

(** The loop of [name::to_string] fills the 13 characters from the right. *)
Fixpoint to_string_loop (n : nat) (i tmp : Z) (str : list ascii) : list ascii :=
  match n with
  | O => str
  | S n =>
      let c := charmap_at (Z.land tmp (if i =? 0 then 15 else 31)) in
      to_string_loop n (i + 1) (Z.shiftr tmp (if i =? 0 then 4 else 5)) (c :: str)
  end.

Definition is_dot (c : ascii) : bool := Ascii.eqb c ".".

(** [boost::algorithm::trim_right_if]: drop the longest suffix satisfying [p]. *)
Fixpoint trim_right_if (p : ascii -> bool) (s : list ascii) : list ascii :=
  match s with
  | [] => []
  | c :: s => match trim_right_if p s with
              | [] => if p c then [] else [c]
              | t => c :: t
              end
  end.

(** The 13 characters of a name, trailing dots included. *)
Definition name_chars (value : Z) : list ascii := to_string_loop 13 0 value [].
Definition to_string (value : Z) : list ascii := trim_right_if is_dot (name_chars value).

(** [name::set], the constructor from a string. *)
Definition name_set (str : list ascii) : res Z :=
  _ ← sys_assert (Z.of_nat (length str) <=? 13) name_type_exception;
  let value := string_to_uint64_t str in
  _ ← sys_assert (bool_decide (to_string value = str)) name_type_exception;
  Ok value.

(** The loop of [name::prefix]; 13 turns cover offsets 0, 4, 9, ..., 59. *)
Fixpoint prefix_loop (n : nat) (value offset mask : Z) (not_dot_character_seen : bool) : Z :=
  match n with
  | O => value
  | S n =>
      if offset <=? 59 then
        let c := Z.land (Z.shiftr value offset) mask in
        if c =? 0 then
          if not_dot_character_seen
          then u64 (Z.shiftl (Z.shiftr value offset) offset)
          else prefix_loop n value (if offset =? 0 then offset + 4 else offset + 5) 31
                 not_dot_character_seen
        else prefix_loop n value (if offset =? 0 then offset + 4 else offset + 5) 31 true
      else value
  end.
Definition prefix (value : Z) : Z := prefix_loop 13 value 0 15 false.

Example name_sysio : string_to_uint64_t (chars "sysio") = 14389258095169634304.
Proof. reflexivity. Qed.
Example name_sysio_string : to_string 14389258095169634304 = chars "sysio".
Proof. reflexivity. Qed.
Example prefix_sysio_any :
  to_string (prefix (string_to_uint64_t (chars "sysio.any"))) =
  chars "sysio".
Proof. reflexivity. Qed.

(** ** Characters and symbols *)

(** The characters a name is made of. *)
Definition name_char (c : ascii) : bool := is_dot c || (0 <? char_to_symbol c).

Lemma char_to_symbol_range c : 0 <= char_to_symbol c < 32.
Proof.
  unfold char_to_symbol, char_code. destruct c as [[] [] [] [] [] [] [] []]; vm_compute; split; congruence.
Qed.

Lemma charmap_at_symbol c : name_char c = true -> charmap_at (char_to_symbol c) = c.
Proof. destruct c as [[] [] [] [] [] [] [] []]; vm_compute; congruence. Qed.

Lemma symbol_charmap_at d : 0 <= d < 32 -> char_to_symbol (charmap_at d) = d /\ name_char (charmap_at d) = true.
Proof.
  intros Hd. rewrite <- (Z.eqb_eq _ d), <- andb_true_iff. revert Hd.
  apply (seqZ_check (fun d => (char_to_symbol (charmap_at d) =? d) && name_char (charmap_at d))).
  vm_compute. reflexivity.
Qed.

Lemma symbol_dot c : is_dot c = true -> char_to_symbol c = 0.
Proof. unfold is_dot. intros ->%Ascii.eqb_eq. reflexivity. Qed.

Lemma symbol_zero_dot c : name_char c = true -> char_to_symbol c = 0 -> is_dot c = true.
Proof. unfold name_char. intros Hc Hz. rewrite Hz in Hc. by destruct (is_dot c). Qed.

(** Big-endian base-32 value of a run of characters. *)
Fixpoint be_val (cs : list ascii) : Z :=
  match cs with
  | [] => 0
  | c :: r => char_to_symbol c * 32 ^ Z.of_nat (length r) + be_val r
  end.

Lemma be_val_range cs : 0 <= be_val cs < 32 ^ Z.of_nat (length cs).
Proof.
  induction cs as [|c r IH]; [cbn; lia|]. cbn [be_val length].
  pose proof (char_to_symbol_range c). rewrite Nat2Z.inj_succ, Z.pow_succ_r by lia. nia.
Qed.

Lemma be_val_app cs ds : be_val (cs ++ ds) = be_val cs * 32 ^ Z.of_nat (length ds) + be_val ds.
Proof.
  induction cs as [|c r IH]; [cbn; lia|]. cbn [be_val app].
  rewrite IH, length_app, Nat2Z.inj_add, Z.pow_add_r by lia. lia.
Qed.

(** Contribution of the characters from position [i] on to the packed value. *)
Fixpoint name_val (i : Z) (cs : list ascii) : Z :=
  match cs with
  | [] => 0
  | c :: r => if i <? 12 then char_to_symbol c * 2 ^ (59 - 5 * i) + name_val (i + 1) r
              else char_to_symbol c mod 16
  end.

Lemma name_val_range i cs : 0 <= i <= 12 -> 0 <= name_val i cs < 2 ^ (64 - 5 * i).
Proof.
  revert i. induction cs as [|c r IH]; intros i Hi; cbn [name_val].
  { split; [lia|]. apply Z.pow_pos_nonneg; lia. }
  pose proof (char_to_symbol_range c). destruct (i <? 12) eqn:?; bool_to_Z.
  - specialize (IH (i + 1) ltac:(lia)). replace (64 - 5 * i) with (5 + (59 - 5 * i)) by lia.
    replace (64 - 5 * (i + 1)) with (59 - 5 * i) in IH by lia. rewrite Z.pow_add_r by lia. nia.
  - assert (i = 12) as -> by lia. change (2 ^ (64 - 5 * 12)) with 16. apply Z.mod_pos_bound. lia.
Qed.

(** The bit operations of the packing loop are plain arithmetic. *)
Lemma string_to_uint64_loop_val cs i m :
  0 <= i <= 12 -> 0 <= m ->
  string_to_uint64_loop i (m * 2 ^ (64 - 5 * i)) cs = m * 2 ^ (64 - 5 * i) + name_val i cs.
Proof.
  revert i m. induction cs as [|c r IH]; intros i m Hi Hm; cbn [string_to_uint64_loop name_val]; [lia|].
  pose proof (char_to_symbol_range c). destruct (i <? 12) eqn:?; bool_to_Z.
  - change 31 with (Z.ones 5). rewrite Z.land_ones, (Z.mod_small _ (2 ^ 5)) by lia.
    replace (64 - 5 * (i + 1)) with (59 - 5 * i) by lia. rewrite Z.shiftl_mul_pow2 by lia.
    rewrite lor_shifted.
    2: lia.
    2: { replace (64 - 5 * i) with (5 + (59 - 5 * i)) by lia. rewrite Z.pow_add_r by lia.
         pose proof (Z.pow_pos_nonneg 2 (59 - 5 * i)). nia. }
    replace (m * 2 ^ (64 - 5 * i) + char_to_symbol c * 2 ^ (59 - 5 * i))
      with ((m * 32 + char_to_symbol c) * 2 ^ (64 - 5 * (i + 1))).
    + rewrite IH by lia. replace (64 - 5 * (i + 1)) with (59 - 5 * i) by lia.
      replace (64 - 5 * i) with (5 + (59 - 5 * i)) by lia. rewrite Z.pow_add_r by lia. lia.
    + replace (64 - 5 * (i + 1)) with (59 - 5 * i) by lia.
      replace (64 - 5 * i) with (5 + (59 - 5 * i)) by lia. rewrite Z.pow_add_r by lia. lia.
  - assert (i = 12) as -> by lia. change 15 with (Z.ones 4). rewrite Z.land_ones by lia.
    change (64 - 5 * 12) with 4. apply lor_shifted; [lia|]. apply Z.mod_pos_bound. lia.
Qed.

Lemma string_to_uint64_val cs : string_to_uint64_t cs = name_val 0 cs.
Proof. unfold string_to_uint64_t. by apply (string_to_uint64_loop_val cs 0 0). Qed.

(** Twelve characters and a thirteenth. *)
Lemma name_val_be i cs :
  0 <= i -> i + Z.of_nat (length cs) <= 12 ->
  name_val i cs = be_val cs * 2 ^ (64 - 5 * (i + Z.of_nat (length cs))).
Proof.
  revert i. induction cs as [|c r IH]; intros i Hi Hl; [done|]. cbn [name_val be_val length] in *.
  rewrite Nat2Z.inj_succ in *. destruct (i <? 12) eqn:?; bool_to_Z; [|lia].
  rewrite IH by lia. replace (i + 1 + Z.of_nat (length r)) with (i + Z.succ (Z.of_nat (length r))) by lia.
  rewrite Z.mul_add_distr_r, <- Z.mul_assoc. f_equal. f_equal.
  change 32 with (2 ^ 5). rewrite <- Z.pow_mul_r, <- Z.pow_add_r by lia. f_equal. lia.
Qed.

Lemma name_val_app i cs ds :
  0 <= i -> i + Z.of_nat (length cs) <= 12 ->
  name_val i (cs ++ ds) = name_val i cs + name_val (i + Z.of_nat (length cs)) ds.
Proof.
  revert i. induction cs as [|c r IH]; intros i Hi Hl; cbn [name_val app length] in *.
  { change (Z.of_nat 0) with 0. by rewrite Z.add_0_r. }
  rewrite Nat2Z.inj_succ in *. destruct (i <? 12) eqn:?; bool_to_Z; [|lia].
  rewrite IH by lia. rewrite Z.add_assoc. f_equal. f_equal. lia.
Qed.

Lemma name_val_trim i cs : name_val i (trim_right_if is_dot cs) = name_val i cs.
Proof.
  revert i. induction cs as [|c r IH]; intros i; [done|]. cbn [trim_right_if].
  destruct (trim_right_if is_dot r) as [|t ts] eqn:Et.
  - destruct (is_dot c) eqn:Ed; cbn [name_val].
    + rewrite (symbol_dot c Ed), <- IH. by destruct (i <? 12).
    + by rewrite <- IH.
  - cbn [name_val]. by rewrite <- IH.
Qed.

(** The unpacking loop past its first turn. *)
Lemma to_string_loop_be n i tmp acc :
  0 < i -> 0 <= tmp -> exists L, to_string_loop n i tmp acc = L ++ acc /\ length L = n /\
    be_val L = tmp mod 32 ^ Z.of_nat n /\ Forall (fun c => name_char c = true) L.
Proof.
  revert i tmp acc. induction n as [|n IH]; intros i tmp acc Hi Ht.
  { exists []. repeat split; [by rewrite Z.mod_1_r|constructor]. }
  cbn [to_string_loop]. destruct (i =? 0) eqn:?; bool_to_Z; [lia|].
  change 31 with (Z.ones 5). rewrite Z.land_ones by lia.
  pose proof (Z.mod_pos_bound tmp (2 ^ 5) ltac:(lia)) as Hd.
  destruct (symbol_charmap_at _ Hd) as [Hs Hc].
  rewrite Z.shiftr_div_pow2 by lia.
  destruct (IH (i + 1) (tmp / 2 ^ 5) (charmap_at (tmp mod 2 ^ 5) :: acc)) as (L & -> & HL & Hv & Hf);
    [lia|apply Z.div_pos; lia|].
  exists (L ++ [charmap_at (tmp mod 2 ^ 5)]). split; [by rewrite <- app_assoc|].
  split; [rewrite length_app; cbn; lia|]. split.
  - rewrite be_val_app, Hv. cbn [be_val length]. rewrite Hs, (Nat2Z.inj_succ n), Z.pow_succ_r by lia.
    change (Z.of_nat 1) with 1. change (Z.of_nat 0) with 0. change (2 ^ 5) with 32.
    pose proof (Z.pow_pos_nonneg 32 (Z.of_nat n)). rewrite Z.rem_mul_r by lia. lia.
  - apply Forall_app_2; [done|]. by constructor.
Qed.

Lemma name_chars_split v :
  0 <= v -> exists L, name_chars v = L ++ [charmap_at (v mod 16)] /\ length L = 12%nat /\
    be_val L = (v / 16) mod 32 ^ 12 /\ Forall (fun c => name_char c = true) L.
Proof.
  intros Hv. unfold name_chars.
  change (to_string_loop 13 0 v [])
    with (to_string_loop 12 1 (Z.shiftr v 4) [charmap_at (Z.land v (Z.ones 4))]).
  rewrite Z.land_ones, Z.shiftr_div_pow2 by lia.
  apply (to_string_loop_be 12 1 (v / 2 ^ 4) [charmap_at (v mod 2 ^ 4)]); [lia|].
  apply Z.div_pos; lia.
Qed.

(** Printing a name and packing the string again gives back the name, for
    every 64-bit value. *)
Theorem name_roundtrip v : is_u64 v -> string_to_uint64_t (to_string v) = v.
Proof.
  unfold is_u64. intros Hv. rewrite string_to_uint64_val. unfold to_string. rewrite name_val_trim.
  destruct (name_chars_split v) as (L & -> & HL & Hbe & _); [lia|].
  rewrite name_val_app by lia. rewrite name_val_be by lia. rewrite HL, Hbe.
  cbn [name_val]. change (0 + Z.of_nat 12 <? 12) with false. cbn iota.
  pose proof (Z.mod_pos_bound v 16 ltac:(lia)).
  destruct (symbol_charmap_at (v mod 16)) as [-> _]; [lia|].
  rewrite (Z.mod_small (v / 16)), (Z.mod_small (v mod 16)) by (try split; try apply Z.div_pos; try apply Z.div_lt_upper_bound; lia).
  change (2 ^ (64 - 5 * (0 + Z.of_nat 12))) with 16. pose proof (Z.div_mod v 16 ltac:(lia)). lia.
Qed.

Lemma name_roundtrip_witness :
  string_to_uint64_t (to_string 14389258095169634304) = 14389258095169634304.
Proof. apply name_roundtrip. vm_compute. split; congruence. Defined.

(** ** Which strings are names *)

(** A normalised name: at most 13 characters of the alphabet, no trailing dot,
    and a thirteenth character that fits four bits. *)
Definition normalized (str : list ascii) : Prop :=
  (length str <= 13)%nat /\ Forall (fun c => name_char c = true) str /\
  (forall c, last str = Some c -> is_dot c = false) /\
  (forall c, str !! 12%nat = Some c -> char_to_symbol c < 16).

Lemma be_val_inj cs ds :
  length cs = length ds -> Forall (fun c => name_char c = true) cs ->
  Forall (fun c => name_char c = true) ds -> be_val cs = be_val ds -> cs = ds.
Proof.
  revert ds. induction cs as [|c r IH]; intros [|d s]; try done. cbn. intros [= Hl] Hc Hd Hv.
  inversion Hc as [|?? Hc1 Hc2]; inversion Hd as [|?? Hd1 Hd2]; subst.
  pose proof (be_val_range r) as Br. pose proof (be_val_range s) as Bs. rewrite Hl in *.
  assert (char_to_symbol c = char_to_symbol d) as Es by nia.
  f_equal; [by rewrite <- (charmap_at_symbol c Hc1), Es, charmap_at_symbol|].
  apply IH; [done..|]. rewrite Es in Hv. lia.
Qed.

Lemma trim_right_if_app p s t :
  Forall (fun c => p c = true) t -> trim_right_if p (s ++ t) = trim_right_if p s.
Proof.
  intros Ht. induction s as [|c s IH]; [|by cbn; rewrite IH]. cbn.
  induction Ht as [|d t Hd _ IH]; [done|]. cbn. by rewrite IH, Hd.
Qed.

Lemma trim_right_if_id p s : (forall c, last s = Some c -> p c = false) -> trim_right_if p s = s.
Proof.
  induction s as [|c s IH]; [done|]. intros Hl. cbn. destruct s as [|d s].
  - cbn. by rewrite (Hl c).
  - by rewrite IH by (intros e He; apply Hl; done).
Qed.

(** [trim_right_if] splits off a suffix of [p] characters and stops at the first
    other one. *)
Lemma trim_right_if_spec p s :
  exists t, s = trim_right_if p s ++ t /\ Forall (fun c => p c = true) t /\
            (forall c, last (trim_right_if p s) = Some c -> p c = false).
Proof.
  induction s as [|c s (t & Hs & Ht & Hl)]; [by exists []|]. cbn.
  destruct (trim_right_if p s) as [|d u] eqn:E.
  - cbn in Hs. subst t. destruct (p c) eqn:Hp.
    + exists (c :: s). split; [done|]. split; [by constructor|done].
    + exists s. split; [done|]. split; [done|]. by intros ? [= <-].
  - exists t. split; [cbn; by rewrite Hs at 1|]. split; [done|]. by intros e He; apply Hl.
Qed.

Lemma name_chars_val L c :
  length L = 12%nat -> Forall (fun c => name_char c = true) L -> name_char c = true ->
  char_to_symbol c < 16 -> name_chars (name_val 0 (L ++ [c])) = L ++ [c].
Proof.
  intros HL Hf Hc Hlt. pose proof (char_to_symbol_range c) as Hr.
  pose proof (be_val_range L) as Hbl. rewrite HL in Hbl.
  assert (name_val 0 (L ++ [c]) = be_val L * 16 + char_to_symbol c) as Hval.
  { rewrite name_val_app, name_val_be, HL by lia. cbn [name_val].
    change (0 + Z.of_nat 12 <? 12) with false. cbn iota. rewrite Z.mod_small by lia. done. }
  destruct (name_chars_split (name_val 0 (L ++ [c]))) as (L' & -> & HL' & Hbe & Hf'); [lia|].
  rewrite Hval in *. rewrite Z.add_comm, Z.mod_add in * by lia.
  rewrite Z.div_add, Z.div_small, Z.mod_small in Hbe by lia.
  rewrite (Z.mod_small (char_to_symbol c)), charmap_at_symbol by lia || done. f_equal.
  apply be_val_inj; [congruence|done..|]. lia.
Qed.

Lemma to_string_normalized v : 0 <= v -> normalized (to_string v).
Proof.
  intros Hv. destruct (name_chars_split v) as (L & Hn & HL & _ & Hf); [done|].
  pose proof (Z.mod_pos_bound v 16 ltac:(lia)) as Hm.
  destruct (symbol_charmap_at (v mod 16)) as [Hs Hc]; [lia|].
  unfold to_string. destruct (trim_right_if_spec is_dot (name_chars v)) as (t & Ht & _ & Hl).
  rewrite Hn in Ht. assert (Forall (fun c => name_char c = true) (L ++ [charmap_at (v mod 16)])) as Hall.
  { apply Forall_app_2; [done|by constructor]. }
  rewrite Hn in Hl |- *. set (s := trim_right_if is_dot _) in *. clearbody s.
  split; [|split; [|split; [done|]]].
  - apply (f_equal length) in Ht. rewrite !length_app in Ht. cbn in Ht. lia.
  - rewrite Ht in Hall. by apply Forall_app in Hall as [? _].
  - intros c Hc'. assert ((L ++ [charmap_at (v mod 16)]) !! 12%nat = Some c) as Hlk.
    { rewrite Ht. by apply lookup_app_l_Some. }
    rewrite lookup_app_r, HL in Hlk by lia.
    change (Some (charmap_at (v mod 16)) = Some c) in Hlk. injection Hlk as <-. lia.
Qed.

Lemma to_string_val str : normalized str -> to_string (name_val 0 str) = str.
Proof.
  intros (Hlen & Hf & Hlast & H13).
  set (P := str ++ replicate (13 - length str) "."%char).
  assert (Forall (fun c => is_dot c = true) (replicate (13 - length str) "."%char)) as Hdots.
  { by apply Forall_replicate. }
  assert (trim_right_if is_dot P = str) as HP.
  { unfold P. by rewrite trim_right_if_app, trim_right_if_id. }
  assert (length P = 13%nat) as HlP by (unfold P; rewrite length_app, length_replicate; lia).
  assert (Forall (fun c => name_char c = true) P) as HfP.
  { apply Forall_app_2; [done|]. by apply Forall_replicate. }
  rewrite <- HP at 1. rewrite name_val_trim.
  destruct (exists_last (l := P)) as (L & c & HLc); [by intros E; rewrite E in HlP|].
  rewrite HLc in HlP, HfP |- *. rewrite length_app in HlP. cbn in HlP.
  apply Forall_app in HfP as [HfL [Hc1 _]%Forall_cons].
  assert (char_to_symbol c < 16) as H16.
  { assert (P !! 12%nat = Some c) as Hlk.
    { rewrite HLc, lookup_app_r by lia. by replace (12 - length L)%nat with 0%nat by lia. }
    unfold P in Hlk. apply lookup_app_Some in Hlk as [Hlk|[_ Hlk]]; [by apply H13|].
    apply lookup_replicate in Hlk as [-> _]. reflexivity. }
  unfold to_string. rewrite name_chars_val by (done || lia). congruence.
Qed.

(** The name constructor accepts exactly the normalised strings, returns their
    packed value, whose printed form is the string itself, and refuses every
    other string with [name_type_exception]. *)
Theorem name_set_spec str :
  (normalized str -> name_set str = Ok (string_to_uint64_t str) /\
                     to_string (string_to_uint64_t str) = str) /\
  (~ normalized str -> name_set str = Throw name_type_exception).
Proof.
  unfold name_set. split.
  - intros Hn. rewrite string_to_uint64_val, to_string_val by done.
    split; [|done]. destruct Hn as (Hl & _). rewrite bind_assert by (apply Z.leb_le; lia).
    by rewrite bind_assert by by apply bool_decide_eq_true_2.
  - intros Hn. destruct (Z.of_nat (length str) <=? 13) eqn:E; cbn; [|done].
    case_bool_decide as Hs; cbn; [|done]. exfalso. apply Hn. rewrite <- Hs.
    apply to_string_normalized. rewrite string_to_uint64_val. apply name_val_range. lia.
Qed.

Lemma name_set_spec_witness :
  name_set (chars "sysio.any") = Ok (string_to_uint64_t (chars "sysio.any")) /\
  name_set (chars "Sysio") = Throw name_type_exception.
Proof.
  split.
  - apply (name_set_spec (chars "sysio.any")). split; [cbn; lia|]. split; [repeat constructor|].
    split; [by intros c [= <-]|done].
  - apply (name_set_spec (chars "Sysio")). intros (_ & H & _). by inversion H.
Defined.
