(* ===== verification/Assets.v ===== *)
(** * Symbols and assets ([symbol.hpp], [symbol.cpp], [asset.hpp], [asset.cpp])

    Token symbols packed into 64 bits, asset amounts, their checked arithmetic
    ([fc/safe.hpp]) and their string forms.  [boost::lexical_cast] and
    [boost::trim_copy] are parameters with their documented behaviour. *)

From S2P Require Import Prelude Exceptions.

Open Scope char_scope.
Open Scope Z_scope.

(** ** Decimal numbers *)

Definition digit (d : Z) : ascii := ascii_of_N (Z.to_N (48 + d)).

Fixpoint dec_loop (fuel : nat) (n : Z) (acc : list ascii) : list ascii :=
  match fuel with
  | O => acc
  | S fuel => let acc := digit (n mod 10) :: acc in if n / 10 =? 0 then acc else dec_loop fuel (n / 10) acc
  end.

(** [std::to_string] of a number that is not negative and has at most 20 digits. *)
Definition to_dec (n : Z) : list ascii := dec_loop 20 n [].

Definition is_digit (c : ascii) : bool := (48 <=? char_code c) && (char_code c <=? 57).
Definition dval (ds : list ascii) : Z := fold_left (fun v c => 10 * v + (char_code c - 48)) ds 0.
Definition is_space (c : ascii) : bool := (char_code c =? 32) || ((9 <=? char_code c) && (char_code c <=? 13)).

Class LexicalCast := {
  lexical_cast : list ascii -> option Z;          (* boost::lexical_cast<int64_t> *)
  trim_copy : list ascii -> list ascii;           (* boost::algorithm::trim_copy *)
  lexical_digits ds :
    ds <> [] -> forallb is_digit ds = true -> dval ds < 2 ^ 63 -> lexical_cast ds = Some (dval ds);
  lexical_negative ds :
    ds <> [] -> forallb is_digit ds = true -> dval ds <= 2 ^ 63 -> lexical_cast ("-" :: ds) = Some (- dval ds);
  trim_id c s : is_space c = false -> is_space (List.last s c) = false -> trim_copy (c :: s) = c :: s }.

(** ** Checked arithmetic ([fc::safe<int64_t>]) *)

Definition i64_min : Z := - 2 ^ 63.

Definition safe_add (a b : Z) : res Z :=
  if (0 <? b) && (i64_max - b <? a) then Throw fc_overflow_exception
  else if (b <? 0) && (a <? i64_min - b) then Throw fc_underflow_exception
  else Ok (a + b).

Definition safe_mul (a b : Z) : res Z :=
  if 0 <? a then
    if 0 <? b then (if Z.quot i64_max b <? a then Throw fc_overflow_exception else Ok (a * b))
    else if b <? Z.quot i64_min a then Throw fc_underflow_exception else Ok (a * b)
  else if 0 <? b then (if a <? Z.quot i64_min b then Throw fc_underflow_exception else Ok (a * b))
  else if negb (a =? 0) && (b <? Z.quot i64_max a) then Throw fc_overflow_exception else Ok (a * b).

(** ** Symbols *)

Definition is_upper (c : ascii) : bool := (char_code "A" <=? char_code c) && (char_code c <=? char_code "Z").

(** Shifting a 64-bit number by 64 bits or more is undefined. *)
Fixpoint string_to_symbol_loop (i result : Z) (str : list ascii) : res Z :=
  match str with
  | [] => Ok result
  | c :: str =>
    _ ← sys_assert (is_upper c) symbol_type_exception;
    if 8 * (i + 1) <? 64
    then string_to_symbol_loop (i + 1) (Z.lor result (u64 (Z.shiftl (char_code c) (8 * (i + 1))))) str
    else Throw undefined_behavior
  end.

(** A C string ends at its first zero. *)
Fixpoint c_str (s : list ascii) : list ascii :=
  match s with
  | c :: s => if char_code c =? 0 then [] else c :: c_str s
  | [] => []
  end.

Definition string_to_symbol (precision : Z) (str : list ascii) : res Z :=
  fc_rethrow (result ← string_to_symbol_loop 0 0 (c_str str); Ok (Z.lor result precision)).

Definition max_precision : Z := 18.

Definition decimals (v : Z) : Z := Z.land v 255.

Fixpoint symbol_name_loop (fuel : nat) (v : Z) : list ascii :=
  match fuel with
  | O => []
  | S fuel => if 0 <? v then ascii_of_N (Z.to_N (Z.land v 255)) :: symbol_name_loop fuel (Z.shiftr v 8) else []
  end.

(** [symbol::name()]; seven bytes are left after the shift. *)
Definition symbol_name (v : Z) : list ascii := symbol_name_loop 8 (Z.shiftr v 8).

Definition symbol_valid (v : Z) : bool := (decimals v <=? max_precision) && forallb is_upper (symbol_name v).

Definition make_symbol (v : Z) : res Z := _ ← sys_assert (symbol_valid v) symbol_type_exception; Ok v.

Fixpoint p10_loop (p : nat) (p10 : Z) : Z :=
  match p with O => p10 | S p => p10_loop p (u64 (p10 * 10)) end.

Definition precision (v : Z) : res Z :=
  _ ← sys_assert (decimals v <=? max_precision) symbol_type_exception;
  Ok (p10_loop (Z.to_nat (decimals v)) 1).

Definition symbol_to_string (v : Z) : list ascii := to_dec (decimals v) ++ "," :: symbol_name v.

Section strings.
Context `{LexicalCast}.

Definition to_int64 (i : list ascii) : res Z := of_option fc_parse_error_exception (lexical_cast i).

(** [s.find( c )] *)
Fixpoint find_char (c : ascii) (s : list ascii) : option nat :=
  match s with
  | [] => None
  | x :: s => if Ascii.eqb x c then Some O else S <$> find_char c s
  end.

Definition symbol_from_string (from : list ascii) : res Z :=
  fc_rethrow (
    let s := trim_copy from in
    _ ← sys_assert (negb (bool_decide (s = []))) symbol_type_exception;
    comma_pos ← of_option symbol_type_exception (find_char "," s);
    p ← to_int64 (take comma_pos s);
    let p := u8 p in
    let name_part := drop (comma_pos + 1) s in
    _ ← sys_assert (p <=? max_precision) symbol_type_exception;
    v ← string_to_symbol p name_part;
    make_symbol v).

(** ** Assets *)

Record asset := mk_asset { amount : Z; sym : Z }.

Definition max_amount : Z := 2 ^ 62 - 1.
Definition is_amount_within_range (amount : Z) : bool := (- max_amount <=? amount) && (amount <=? max_amount).

Definition make_asset (amount sym : Z) : res asset :=
  _ ← sys_assert (is_amount_within_range amount) asset_type_exception;
  _ ← sys_assert (symbol_valid sym) asset_type_exception;
  Ok (mk_asset amount sym).

Definition asset_to_string (a : asset) : res (list ascii) :=
  let sign := if amount a <? 0 then ["-"] else [] in
  _ ← sys_assert (negb (amount a =? i64_min)) undefined_behavior;
  let abs_amount := Z.abs (amount a) in
  prec ← precision (sym a);
  let result := to_dec (Z.quot abs_amount prec) in
  let result := if negb (decimals (sym a) =? 0)
                then result ++ "." :: tail (to_dec (prec + Z.rem abs_amount prec)) else result in
  Ok (sign ++ result ++ " " :: symbol_name (sym a)).

(** The parts of the amount: its sign counts for the fraction too. *)
Definition parse_amount (amount_str : list ascii) (dot_pos : option nat) : res (Z * Z) :=
  match dot_pos with
  | Some dot =>
    int_part ← to_int64 (take dot amount_str);
    fract_part ← to_int64 (drop (dot + 1) amount_str);
    fract_part ← (if bool_decide (head amount_str = Some "-") then safe_mul fract_part (-1) else Ok fract_part);
    Ok (int_part, fract_part)
  | None => int_part ← to_int64 amount_str; Ok (int_part, 0)
  end.

(** The part of [asset::from_string] after the split at the space. *)
Definition asset_of_parts (amount_str symbol_str : list ascii) : res asset :=
  let dot_pos := find_char "." amount_str in
  _ ← match dot_pos with
      | Some dot => sys_assert (negb (dot =? length amount_str - 1)%nat) asset_type_exception
      | None => Ok tt
      end;
  let precision_digit_str :=
    match dot_pos with
    | Some dot => to_dec (Z.of_nat (length amount_str - dot - 1))
    | None => ["0"]
    end in
  sym ← symbol_from_string (precision_digit_str ++ "," :: symbol_str);
  '(int_part, fract_part) ← parse_amount amount_str dot_pos;
  prec ← precision sym;
  amount ← safe_mul int_part prec;
  amount ← safe_add amount fract_part;
  make_asset amount sym.

Definition asset_from_string (from : list ascii) : res asset :=
  fc_rethrow (
    let s := trim_copy from in
    space_pos ← of_option asset_type_exception (find_char " " s);
    let symbol_str := trim_copy (drop (space_pos + 1) s) in
    let amount_str := take space_pos s in
    asset_of_parts amount_str symbol_str).

(** [operator +], [operator -], [operator +=], [operator -=]: the first two check
    the range of their result, the last two only that the symbols agree. *)
Definition asset_add (a b : asset) : res asset :=
  _ ← sys_assert (sym a =? sym b) asset_type_exception;
  if bool_decide (is_i64 (amount a + amount b)) then make_asset (amount a + amount b) (sym a)
  else Throw undefined_behavior.

Definition asset_sub (a b : asset) : res asset :=
  _ ← sys_assert (sym a =? sym b) asset_type_exception;
  if bool_decide (is_i64 (amount a - amount b)) then make_asset (amount a - amount b) (sym a)
  else Throw undefined_behavior.

Definition asset_add_assign (a b : asset) : res asset :=
  _ ← sys_assert (sym a =? sym b) asset_type_exception;
  if bool_decide (is_i64 (amount a + amount b)) then Ok (mk_asset (amount a + amount b) (sym a))
  else Throw undefined_behavior.

Definition asset_sub_assign (a b : asset) : res asset :=
  _ ← sys_assert (sym a =? sym b) asset_type_exception;
  if bool_decide (is_i64 (amount a - amount b)) then Ok (mk_asset (amount a - amount b) (sym a))
  else Throw undefined_behavior.

Definition asset_neg (a : asset) : res asset :=
  _ ← sys_assert (negb (amount a =? i64_min)) undefined_behavior;
  make_asset (- amount a) (sym a).

Definition asset_eq (a b : asset) : bool := (sym a =? sym b) && (amount a =? amount b).

Definition asset_lt (a b : asset) : res bool :=
  _ ← sys_assert (sym a =? sym b) asset_type_exception;
  Ok ((amount a <? amount b) || ((amount a =? amount b) && (sym a <? sym b))).

Definition asset_le (a b : asset) : res bool := if asset_eq a b then Ok true else asset_lt a b.
Definition asset_gt (a b : asset) : res bool := r ← asset_le a b; Ok (negb r).
Definition asset_ge (a b : asset) : res bool := r ← asset_lt a b; Ok (negb r).

(** [reflector_init], run on every symbol and asset read from binary data *)
Definition symbol_reflector_init (v : Z) : res unit :=
  _ ← sys_assert (decimals v <=? max_precision) symbol_type_exception;
  sys_assert (forallb is_upper (symbol_name v)) symbol_type_exception.

Definition asset_reflector_init (a : asset) : res unit :=
  _ ← sys_assert (is_amount_within_range (amount a)) asset_type_exception;
  sys_assert (symbol_valid (sym a)) asset_type_exception.
End strings.

(** ** Decimal numbers: lemmas *)

Lemma dval_acc ds : forall v,
  fold_left (fun v c => 10 * v + (char_code c - 48)) ds v = v * 10 ^ Z.of_nat (length ds) + dval ds.
Proof.
  unfold dval. induction ds as [|c ds IH]; intros v; cbn [fold_left].
  - rewrite Z.pow_0_r. lia.
  - rewrite IH, (IH (10 * 0 + _)). cbn [length]. rewrite Nat2Z.inj_succ, Z.pow_succ_r by lia. ring.
Qed.

Lemma dval_cons c ds : dval (c :: ds) = (char_code c - 48) * 10 ^ Z.of_nat (length ds) + dval ds.
Proof. unfold dval at 1. cbn [fold_left]. rewrite dval_acc. ring. Qed.

Lemma is_digit_code c : is_digit c = true <-> 48 <= char_code c <= 57.
Proof. unfold is_digit. rewrite andb_true_iff, !Z.leb_le. done. Qed.

Lemma dval_bounds ds : forallb is_digit ds = true -> 0 <= dval ds < 10 ^ Z.of_nat (length ds).
Proof.
  induction ds as [|c ds IH]; cbn [forallb]; [done|].
  intros [Hc%is_digit_code Hds]%andb_true_iff. specialize (IH Hds).
  rewrite dval_cons. cbn [length]. rewrite Nat2Z.inj_succ, Z.pow_succ_r by lia. nia.
Qed.

Lemma char_code_ascii z : 0 <= z < 256 -> char_code (ascii_of_N (Z.to_N z)) = z.
Proof. intros ?. unfold char_code. rewrite N_ascii_embedding by lia. lia. Qed.

Lemma char_code_digit d : 0 <= d < 10 -> char_code (digit d) = 48 + d.
Proof. intros ?. unfold digit. apply char_code_ascii. lia. Qed.

(** The loop prints the digits of its number, without leading zeros. *)
Lemma dec_loop_spec fuel : forall n acc,
  0 <= n < 10 ^ Z.of_nat fuel -> (0 < fuel)%nat ->
  exists ds, dec_loop fuel n acc = ds ++ acc /\ forallb is_digit ds = true /\ dval ds = n /\
             ds <> [] /\ (10 ^ (Z.of_nat (length ds) - 1) <= n \/ length ds = 1%nat).
Proof.
  induction fuel as [|fuel IH]; intros n acc Hn Hf; [lia|]. cbn [dec_loop].
  pose proof (Z.mod_pos_bound n 10 eq_refl) as Hm. pose proof (Z.div_mod n 10 ltac:(lia)) as Hdm.
  assert (is_digit (digit (n mod 10)) = true) as Hd
    by (apply is_digit_code; rewrite char_code_digit; lia).
  destruct (Z.eqb_spec (n / 10) 0) as [E|E].
  - exists [digit (n mod 10)]. cbn [forallb length]. rewrite Hd, dval_cons, char_code_digit by lia.
    cbn. split_and!; [done..| lia | done | by right].
  - rewrite Nat2Z.inj_succ, Z.pow_succ_r in Hn by lia.
    assert (0 < n / 10) by (pose proof (Z.div_pos n 10); lia).
    destruct fuel as [|fuel]; [cbn in Hn; lia|].
    destruct (IH (n / 10) (digit (n mod 10) :: acc)) as (ds & -> & Hds & Hv & Hne & Hl); [lia..|].
    exists (ds ++ [digit (n mod 10)]). rewrite <- app_assoc, forallb_app, Hds. cbn [forallb]. rewrite Hd.
    split_and!; [done..| | by destruct ds |].
    + unfold dval. rewrite fold_left_app. fold (dval ds). cbn [fold_left]. rewrite char_code_digit by lia. lia.
    + left. rewrite length_app. cbn [length]. destruct Hl as [Hl| ->]; [|cbn; lia].
      assert (0 < length ds)%nat by (destruct ds; [done|cbn; lia]).
      replace (Z.of_nat (length ds + 1) - 1) with (Z.succ (Z.of_nat (length ds) - 1)) by lia.
      rewrite Z.pow_succ_r by lia. lia.
Qed.

Lemma to_dec_spec n :
  0 <= n < 10 ^ 20 ->
  forallb is_digit (to_dec n) = true /\ dval (to_dec n) = n /\ to_dec n <> [] /\
  (10 ^ (Z.of_nat (length (to_dec n)) - 1) <= n \/ length (to_dec n) = 1%nat).
Proof.
  intros Hn. unfold to_dec. destruct (dec_loop_spec 20 n [] Hn ltac:(lia)) as (ds & -> & ?).
  by rewrite app_nil_r.
Qed.

(** The digits after the leading one of [10 ^ d + f] are [f] padded to [d] digits. *)
Lemma to_dec_padded d f :
  0 <= f < 10 ^ Z.of_nat d -> (d <= 18)%nat ->
  let ds := tail (to_dec (10 ^ Z.of_nat d + f)) in
  forallb is_digit ds = true /\ dval ds = f /\ length ds = d.
Proof.
  intros Hf Hd. pose proof (Z.pow_le_mono_r 10 (Z.of_nat d) 18 eq_refl ltac:(lia)) as Hp.
  destruct (to_dec_spec (10 ^ Z.of_nat d + f)) as (Hds & Hv & Hne & Hl); [lia|].
  destruct (to_dec _) as [|c ds]; [done|]. cbn [tail].
  pose proof (dval_bounds _ Hds) as Hb. rewrite Hv in Hb.
  cbn [forallb] in Hds. apply andb_true_iff in Hds as [Hc%is_digit_code Hds].
  cbn [length] in *. pose proof (dval_bounds _ Hds) as Hb'. rewrite dval_cons in Hv.
  assert (length ds = d) as E.
  { destruct (Nat.lt_trichotomy (length ds) d) as [L|[L|L]]; [|done|]; exfalso.
    - pose proof (Z.pow_le_mono_r 10 (Z.of_nat (S (length ds))) (Z.of_nat d) eq_refl ltac:(lia)). lia.
    - pose proof (Z.pow_le_mono_r 10 (Z.of_nat (S d)) (Z.of_nat (length ds)) eq_refl ltac:(lia)) as Q.
      rewrite Nat2Z.inj_succ, Z.pow_succ_r in Q by lia.
      destruct Hl as [Hl|Hl]; [|lia].
      replace (Z.of_nat (S (length ds)) - 1) with (Z.of_nat (length ds)) in Hl by lia. lia. }
  rewrite E in *. split_and!; [done| |done].
  set (P := 10 ^ Z.of_nat d) in *. set (k := char_code c - 48) in *.
  assert (k = 1) as K; [|rewrite K in Hv; lia].
  destruct (Z.le_gt_cases k 0); [|destruct (Z.le_gt_cases 2 k); [|lia]]; nia.
Qed.

Lemma find_char_app c a b :
  forallb (fun x => negb (Ascii.eqb x c)) a = true -> find_char c (a ++ c :: b) = Some (length a).
Proof.
  induction a as [|x a IH]; cbn; [by rewrite Ascii.eqb_refl|].
  intros [->%negb_true_iff Ha]%andb_true_iff. by rewrite IH.
Qed.

Lemma find_char_none c a : forallb (fun x => negb (Ascii.eqb x c)) a = true -> find_char c a = None.
Proof.
  induction a as [|x a IH]; cbn; [done|].
  intros [->%negb_true_iff Ha]%andb_true_iff. by rewrite IH.
Qed.

Lemma forallb_avoid P c a :
  P c = false -> forallb P a = true -> forallb (fun x => negb (Ascii.eqb x c)) a = true.
Proof.
  intros Hc. rewrite !forallb_forall. intros Ha x Hx. apply negb_true_iff, Ascii.eqb_neq.
  intros ->. rewrite Ha in Hc; done.
Qed.

(** ** Checked arithmetic *)

Lemma safe_add_spec a b :
  is_i64 a -> is_i64 b ->
  safe_add a b = if a + b <? i64_min then Throw fc_underflow_exception
                 else if i64_max <? a + b then Throw fc_overflow_exception else Ok (a + b).
Proof.
  unfold is_i64, safe_add, i64_min, i64_max. intros Ha Hb.
  destruct (Z.ltb_spec 0 b), (Z.ltb_spec b 0); cbn [andb]; repeat case_match; bool_to_Z; done || lia.
Qed.

Lemma quot_bound m b : 0 < b -> forall x, (x <= Z.quot m b -> 0 <= m -> x * b <= m) /\
  (Z.quot m b < x -> 0 <= m -> m < x * b).
Proof.
  intros Hb x. split; intros Hx Hm; rewrite Z.quot_div_nonneg in Hx by lia;
    pose proof (Z.div_mod m b ltac:(lia)); pose proof (Z.mod_pos_bound m b Hb); nia.
Qed.

(** The bound tests of [safe_mul] are exact, with the quotients truncated towards zero. *)
Lemma safe_mul_spec a b :
  is_i64 a -> is_i64 b ->
  safe_mul a b = if a * b <? i64_min then Throw fc_underflow_exception
                 else if i64_max <? a * b then Throw fc_overflow_exception else Ok (a * b).
Proof.
  unfold is_i64, safe_mul. intros Ha Hb.
  assert (forall x, 0 < x -> Z.quot i64_min x = - Z.quot (2 ^ 63) x) as Hmin.
  { intros x Hx. unfold i64_min. rewrite Z.quot_opp_l by lia. reflexivity. }
  destruct (Z.ltb_spec 0 a), (Z.ltb_spec 0 b).
  - destruct (quot_bound i64_max b ltac:(lia) a) as [Q1 Q2].
    repeat case_match; bool_to_Z; unfold i64_min, i64_max in *; done || nia.
  - rewrite (Hmin a) by lia. destruct (quot_bound (2 ^ 63) a ltac:(lia) (- b)) as [Q1 Q2].
    repeat case_match; bool_to_Z; unfold i64_min, i64_max in *; done || nia.
  - rewrite (Hmin b) by lia. destruct (quot_bound (2 ^ 63) b ltac:(lia) (- a)) as [Q1 Q2].
    repeat case_match; bool_to_Z; unfold i64_min, i64_max in *; done || nia.
  - destruct (Z.eqb_spec a 0) as [->|Ha0]; cbn [negb andb]; [done|].
    replace (Z.quot i64_max a) with (- Z.quot i64_max (- a))
      by (rewrite Z.quot_opp_r by lia; lia).
    destruct (quot_bound i64_max (- a) ltac:(lia) (- b)) as [Q1 Q2].
    repeat case_match; bool_to_Z; unfold i64_min, i64_max in *; done || nia.
Qed.

Lemma safe_mul_fits a b : is_i64 a -> is_i64 b -> is_i64 (a * b) -> safe_mul a b = Ok (a * b).
Proof.
  intros Ha Hb Hab. rewrite safe_mul_spec by done. unfold is_i64, i64_min, i64_max in *.
  repeat case_match; bool_to_Z; done || lia.
Qed.

Lemma safe_add_fits a b : is_i64 a -> is_i64 b -> is_i64 (a + b) -> safe_add a b = Ok (a + b).
Proof.
  intros Ha Hb Hab. rewrite safe_add_spec by done. unfold is_i64, i64_min, i64_max in *.
  repeat case_match; bool_to_Z; done || lia.
Qed.

(** ** Symbols *)

Lemma decimals_range v : 0 <= decimals v < 256.
Proof. unfold decimals. change 255 with (Z.ones 8). rewrite Z.land_ones by lia. by apply Z.mod_pos_bound. Qed.

Lemma p10_loop_pow p : forall q, (p + q <= 19)%nat -> p10_loop p (10 ^ Z.of_nat q) = 10 ^ Z.of_nat (p + q).
Proof.
  induction p as [|p IH]; intros q Hq; [done|]. cbn [p10_loop].
  replace (10 ^ Z.of_nat q * 10) with (10 ^ Z.of_nat (S q))
    by (rewrite Nat2Z.inj_succ, Z.pow_succ_r by lia; ring).
  pose proof (Z.pow_le_mono_r 10 (Z.of_nat (S q)) 19 eq_refl ltac:(lia)).
  pose proof (Z.pow_pos_nonneg 10 (Z.of_nat (S q)) eq_refl ltac:(lia)).
  unfold u64. rewrite Z.mod_small by lia. rewrite IH by lia. f_equal. lia.
Qed.

Lemma precision_valid v : symbol_valid v = true -> decimals v <= 18 /\ precision v = Ok (10 ^ decimals v).
Proof.
  unfold symbol_valid, precision. intros [Hd _]%andb_true_iff. rewrite Hd. apply Z.leb_le in Hd.
  pose proof (decimals_range v). split; [done|]. cbn. change 1 with (10 ^ Z.of_nat 0).
  unfold max_precision in Hd. rewrite p10_loop_pow by lia. f_equal. f_equal. lia.
Qed.

Lemma is_upper_code c : is_upper c = true <-> 65 <= char_code c <= 90.
Proof. unfold is_upper. rewrite andb_true_iff, !Z.leb_le. done. Qed.

Lemma c_str_upper s : forallb is_upper s = true -> c_str s = s.
Proof.
  induction s as [|c s IH]; cbn; [done|]. intros [Hc%is_upper_code Hs]%andb_true_iff.
  destruct (Z.eqb_spec (char_code c) 0); [lia|]. by rewrite IH.
Qed.

Lemma low_byte v : 0 <= Z.land v 255 < 256.
Proof. apply decimals_range. Qed.

(** A byte and the bytes above it, packed at their places. *)
Lemma pack_byte v s :
  0 <= v -> 0 <= s ->
  Z.lor (Z.shiftl (Z.land v 255) s) (Z.shiftl (Z.shiftr v 8) (s + 8)) = Z.shiftl v s.
Proof.
  intros Hv Hs. change 255 with (Z.ones 8). apply Z.bits_inj'. intros n Hn.
  rewrite Z.lor_spec, !Z.shiftl_spec, Z.land_spec by lia.
  destruct (Z.le_gt_cases s n); [|rewrite !(Z.testbit_neg_r _ (n - s)), Z.testbit_neg_r by lia; done].
  destruct (Z.le_gt_cases (s + 8) n).
  - rewrite Z.shiftr_spec, Z.ones_spec_high by lia. rewrite andb_false_r. cbn. f_equal. lia.
  - rewrite Z.ones_spec_low, (Z.testbit_neg_r _ (n - (s + 8))) by lia. by rewrite andb_true_r, orb_false_r.
Qed.

Lemma string_to_symbol_loop_name k : forall fuel v i r,
  (k <= fuel)%nat -> 0 <= v < 256 ^ Z.of_nat k -> 0 <= i -> i + Z.of_nat k <= 7 ->
  forallb is_upper (symbol_name_loop fuel v) = true ->
  string_to_symbol_loop i r (symbol_name_loop fuel v) = Ok (Z.lor r (Z.shiftl v (8 * (i + 1)))).
Proof.
  induction k as [|k IH]; intros fuel v i r Hk Hv Hi Hik Hup.
  { replace v with 0 in * by (cbn in Hv; lia). rewrite Z.shiftl_0_l, Z.lor_0_r. by destruct fuel. }
  destruct fuel as [|fuel]; [lia|]. cbn [symbol_name_loop] in *.
  destruct (Z.ltb_spec 0 v) as [Hp|Hp].
  2: { replace v with 0 in * by lia. by rewrite Z.shiftl_0_l, Z.lor_0_r. }
  cbn [forallb] in Hup. apply andb_true_iff in Hup as [Hc Hup].
  cbn [string_to_symbol_loop]. rewrite Hc. cbn [sys_assert mbind].
  pose proof (low_byte v) as Hb. rewrite char_code_ascii by done.
  destruct (Z.ltb_spec (8 * (i + 1)) 64); [|lia].
  assert (0 <= Z.shiftl (Z.land v 255) (8 * (i + 1)) < 2 ^ 64) as Hsh.
  { rewrite Z.shiftl_mul_pow2 by lia.
    pose proof (Z.pow_le_mono_r 2 (8 * (i + 1)) 56 eq_refl ltac:(lia)).
    pose proof (Z.pow_pos_nonneg 2 (8 * (i + 1)) eq_refl ltac:(lia)).
    change (2 ^ 64) with (256 * 2 ^ 56). nia. }
  unfold u64. rewrite Z.mod_small by done. cbn.
  rewrite IH; [|lia| |lia|lia|done].
  - rewrite <- Z.lor_assoc. f_equal. f_equal. rewrite <- (pack_byte v (8 * (i + 1))) by lia.
    f_equal. f_equal. lia.
  - rewrite Z.shiftr_div_pow2 by lia. change (2 ^ 8) with 256.
    rewrite Nat2Z.inj_succ, Z.pow_succ_r in Hv by lia.
    split; [apply Z.div_pos; lia|]. apply Z.div_lt_upper_bound; lia.
Qed.

Lemma string_to_symbol_name v :
  0 <= v < 2 ^ 64 -> symbol_valid v = true -> string_to_symbol (decimals v) (symbol_name v) = Ok v.
Proof.
  intros Hv [Hd Hup]%andb_true_iff. unfold string_to_symbol. apply fc_rethrow_Ok.
  rewrite c_str_upper by done. unfold symbol_name.
  rewrite (string_to_symbol_loop_name 7); [|lia| |lia|lia|done].
  - cbn. f_equal. rewrite Z.lor_comm. pose proof (pack_byte v 0) as Q.
    rewrite !Z.shiftl_0_r in Q. apply Q; lia.
  - rewrite Z.shiftr_div_pow2 by lia. split; [apply Z.div_pos; lia|].
    apply Z.div_lt_upper_bound; [lia|]. change (2 ^ 8 * 256 ^ Z.of_nat 7) with (2 ^ 64). lia.
Qed.

Lemma digit_not_space c : is_digit c = true -> is_space c = false.
Proof. intros ?%is_digit_code. unfold is_space. repeat (destruct (Z.eqb_spec _ _) || destruct (Z.leb_spec _ _)); cbn; lia || done. Qed.

Lemma upper_not_space c : is_upper c = true -> is_space c = false.
Proof. intros ?%is_upper_code. unfold is_space. repeat (destruct (Z.eqb_spec _ _) || destruct (Z.leb_spec _ _)); cbn; lia || done. Qed.

Lemma last_upper s d : is_space d = false -> forallb is_upper s = true -> is_space (List.last s d) = false.
Proof.
  intros Hd. induction s as [|c s IH]; cbn [forallb]; [done|].
  intros [Hc Hs]%andb_true_iff. destruct s; [by apply upper_not_space|]. by apply IH.
Qed.

Lemma last_app_cons {A} (a b : list A) x d : List.last (a ++ x :: b) d = List.last b x.
Proof.
  induction a as [|y a IH]; cbn.
  - revert x. induction b as [|z b IHb]; intros x; [done|]. destruct b; [done|]. exact (IHb x).
  - destruct (a ++ x :: b) eqn:E; [by destruct a|]. exact IH.
Qed.

Lemma drop_past {A} (a b : list A) x : drop (length a + 1) (a ++ x :: b) = b.
Proof. induction a as [|y a IH]; [done|exact IH]. Qed.

Section roundtrip.
Context `{LexicalCast}.

(** Reading a precision and a name back, as both string forms need it. *)
Lemma symbol_from_parts v :
  0 <= v < 2 ^ 64 -> symbol_valid v = true ->
  symbol_from_string (to_dec (decimals v) ++ "," :: symbol_name v) = Ok v.
Proof.
  intros Hv Hval. pose proof (decimals_range v) as Hr. pose proof (precision_valid v Hval) as [Hd _].
  destruct (to_dec_spec (decimals v)) as (Hds & Hn & Hne & _); [lia|].
  pose proof Hval as [_ Hup]%andb_true_iff.
  unfold symbol_from_string. apply fc_rethrow_Ok.
  destruct (to_dec (decimals v)) as [|c ds] eqn:E; [done|].
  pose proof Hds as [Hc _]%andb_true_iff.
  cbn [app]. rewrite trim_id; [|by apply digit_not_space|by rewrite last_app_cons; apply last_upper].
  rewrite app_comm_cons, find_char_app by (by apply (forallb_avoid is_digit)).
  rewrite bool_decide_eq_false_2 by done.
  cbn -[take drop u8 Z.pow length app]. rewrite take_app_length.
  unfold to_int64. rewrite lexical_digits by (done || lia). rewrite Hn. cbn -[take drop u8 length app].
  rewrite drop_past.
  unfold u8. rewrite Z.mod_small by lia.
  unfold max_precision. destruct (Z.leb_spec (decimals v) 18); [cbn|lia].
  rewrite string_to_symbol_name by done. cbn. unfold make_symbol. by rewrite Hval.
Qed.

(** A valid symbol survives the way through its string form: printing it as
    precision, comma and name and parsing the text gives the same 64-bit value,
    also for precision 0 and for the empty name. *)
Theorem symbol_roundtrip v :
  0 <= v < 2 ^ 64 -> symbol_valid v = true -> symbol_from_string (symbol_to_string v) = Ok v.
Proof. apply symbol_from_parts. Qed.

(** The amount's text: an optional sign, the integral digits, and the fraction. *)
Lemma parse_amount_parts (neg : bool) ip fp n f :
  forallb is_digit ip = true -> ip <> [] -> dval ip = n -> n < 2 ^ 63 ->
  forallb is_digit fp = true -> fp <> [] -> dval fp = f -> f < 2 ^ 63 ->
  let text := (if neg then ["-"] else []) ++ ip in
  parse_amount (text ++ "." :: fp) (Some (length text)) =
    Ok (if neg then - n else n, if neg then - f else f).
Proof.
  intros Hip Hne Hn Hnb Hfp Hfne Hf Hfb text. unfold parse_amount, to_int64.
  pose proof (dval_bounds fp Hfp).
  rewrite take_app_length.
  rewrite drop_past, (lexical_digits fp) by (done || lia).
  destruct neg; subst text; cbn [app head].
  - rewrite lexical_negative by (done || lia). cbn -[dval Z.mul]. rewrite safe_mul_fits; [|unfold is_i64; lia..].
    cbn -[dval Z.mul]. rewrite Hn, Hf, <- Z.opp_eq_mul_m1. reflexivity.
  - rewrite lexical_digits by (done || lia). cbn -[dval]. rewrite bool_decide_eq_false_2; [cbn; by subst|].
    destruct ip as [|c ip]; [done|]. cbn. intros [= ->]. by cbn in Hip.
Qed.

Lemma parse_amount_whole (neg : bool) ip n :
  forallb is_digit ip = true -> ip <> [] -> dval ip = n -> n < 2 ^ 63 ->
  parse_amount ((if neg then ["-"] else []) ++ ip) None = Ok (if neg then - n else n, 0).
Proof.
  intros Hip Hne Hn Hnb. unfold parse_amount, to_int64. destruct neg; cbn [app].
  - rewrite lexical_negative by (done || lia). cbn. by subst.
  - rewrite lexical_digits by (done || lia). cbn. by subst.
Qed.

Lemma last_name name c : name <> [] -> forallb is_upper name = true -> is_space (List.last name c) = false.
Proof.
  induction name as [|x name IH]; [done|]. intros _ [Hx Hn]%andb_true_iff.
  destruct name as [|y name]; [by apply upper_not_space|]. by apply IH.
Qed.

Lemma asset_from_string_split c t name :
  is_space c = false -> forallb (fun x => negb (Ascii.eqb x " ")) (c :: t) = true ->
  name <> [] -> forallb is_upper name = true ->
  asset_from_string ((c :: t) ++ " " :: name) = fc_rethrow (asset_of_parts (c :: t) name).
Proof.
  intros Hc Ht Hne Hup. unfold asset_from_string. f_equal.
  rewrite <- app_comm_cons, trim_id; [|done|rewrite last_app_cons; by apply last_name].
  rewrite app_comm_cons, find_char_app by done.
  cbn -[take drop length app asset_of_parts]. rewrite drop_past, take_app_length.
  destruct name as [|x name]; [done|]. pose proof Hup as [Hx Hn]%andb_true_iff.
  rewrite trim_id; [done|by apply upper_not_space|].
  apply last_upper; [by apply upper_not_space|done].
Qed.

(** The asset is rebuilt from the two parts of its amount. *)
Lemma rebuild_asset a n f :
  is_amount_within_range (amount a) = true -> symbol_valid (sym a) = true ->
  is_i64 n -> is_i64 f -> is_i64 (n * 10 ^ decimals (sym a)) -> n * 10 ^ decimals (sym a) + f = amount a ->
  (prec ← precision (sym a); x ← safe_mul n prec; x ← safe_add x f; make_asset x (sym a)) = Ok a.
Proof.
  intros Hr Hval Hn Hf Hm Ha. destruct (precision_valid _ Hval) as [Hd ->]. pose proof (decimals_range (sym a)).
  pose proof (Z.pow_le_mono_r 10 (decimals (sym a)) 18 eq_refl ltac:(lia)).
  pose proof (Z.pow_pos_nonneg 10 (decimals (sym a)) eq_refl ltac:(lia)).
  pose proof Hr as [?%Z.leb_le ?%Z.leb_le]%andb_true_iff. unfold max_amount in *.
  cbn -[Z.pow safe_mul safe_add make_asset]. rewrite safe_mul_fits by (unfold is_i64 in *; lia || done).
  cbn -[Z.pow safe_add make_asset]. rewrite safe_add_fits; [|done|done|rewrite Ha; unfold is_i64; lia].
  cbn -[Z.pow make_asset]. rewrite Ha. unfold make_asset. rewrite Hr, Hval. by destruct a.
Qed.

Lemma asset_text_ok (neg : bool) ip t :
  forallb is_digit ip = true -> ip <> [] -> forallb (fun x => negb (Ascii.eqb x " ")) t = true ->
  exists c u, (if neg then ["-"] else []) ++ ip ++ t = c :: u /\ is_space c = false /\
              forallb (fun x => negb (Ascii.eqb x " ")) (c :: u) = true.
Proof.
  intros Hip Hne Ht. destruct ip as [|x ip]; [done|].
  assert (forallb (fun x => negb (Ascii.eqb x " ")) ((x :: ip) ++ t) = true) as Hall.
  { rewrite forallb_app, Ht, (forallb_avoid is_digit) by done. done. }
  destruct neg; cbn [app] in *; eexists _, _; (split; [done|]); (split; [|done || by cbn; rewrite Hall]).
  - done.
  - apply digit_not_space. by apply andb_true_iff in Hip as [].
Qed.

Lemma quot_rem_parts (x : Z) p :
  - 2 ^ 62 < x < 2 ^ 62 -> 0 < p ->
  let q := Z.quot (Z.abs x) p in let r := Z.rem (Z.abs x) p in
  0 <= q < 2 ^ 62 /\ 0 <= r < p /\ r < 2 ^ 62 /\ q * p + r = Z.abs x.
Proof.
  intros Hx Hp q r. subst q r. rewrite Z.quot_div_nonneg, Z.rem_mod_nonneg by lia.
  pose proof (Z.div_mod (Z.abs x) p ltac:(lia)). pose proof (Z.mod_pos_bound (Z.abs x) p Hp).
  pose proof (Z.div_pos (Z.abs x) p ltac:(lia) Hp). nia.
Qed.

Section one_asset.
Context (a : asset) (Hrange : is_amount_within_range (amount a) = true).
Context (Hsym : 0 <= sym a < 2 ^ 64) (Hval : symbol_valid (sym a) = true).

Let P : Z := 10 ^ decimals (sym a).
Let q : Z := Z.quot (Z.abs (amount a)) P.
Let r : Z := Z.rem (Z.abs (amount a)) P.
Let neg : bool := amount a <? 0.
Let text : list ascii := (if neg then ["-"] else []) ++ to_dec q.

Lemma asset_parts :
  0 <= decimals (sym a) <= 18 /\ 0 < P /\ 0 <= q < 2 ^ 62 /\ 0 <= r < P /\ r < 2 ^ 62 /\
  q * P + r = Z.abs (amount a) /\ - 2 ^ 62 < amount a < 2 ^ 62.
Proof.
  destruct (precision_valid _ Hval) as [Hd _]. pose proof (decimals_range (sym a)).
  assert (0 < P) by (apply Z.pow_pos_nonneg; lia).
  pose proof Hrange as [?%Z.leb_le ?%Z.leb_le]%andb_true_iff. unfold max_amount in *.
  destruct (quot_rem_parts (amount a) P) as (? & ? & ? & ?); [lia..|]. split_and!; lia || done.
Qed.

Lemma rebuild n f :
  n = (if neg then - q else q) -> f = (if neg then - r else r) ->
  (prec ← precision (sym a); x ← safe_mul n prec; x ← safe_add x f; make_asset x (sym a)) = Ok a.
Proof.
  intros -> ->. destruct asset_parts as (Hd & HP & Hq & Hr & Hr2 & Hqr & Ha).
  apply rebuild_asset; [done|done|..]; fold P; subst neg; unfold is_i64;
    destruct (Z.ltb_spec (amount a) 0); nia.
Qed.

Lemma text_avoids c : is_digit c = false -> c <> "-" -> forallb (fun x => negb (Ascii.eqb x c)) text = true.
Proof.
  intros Hc Hm. destruct asset_parts as (_ & _ & Hq & _).
  destruct (to_dec_spec q) as (Hds & _); [lia|]. unfold text. rewrite forallb_app, (forallb_avoid is_digit c (to_dec q)) by done.
  destruct neg; [|done]. cbn [forallb]. rewrite (proj2 (Ascii.eqb_neq "-" c)) by done. done.
Qed.

Lemma asset_of_whole : decimals (sym a) = 0 -> asset_of_parts text (symbol_name (sym a)) = Ok a.
Proof.
  intros Hz. destruct asset_parts as (_ & _ & Hq & Hr & _). unfold asset_of_parts.
  destruct (to_dec_spec q) as (Hds & Hv & Hne & _); [lia|].
  rewrite find_char_none by (by apply text_avoids). cbn -[symbol_from_string parse_amount precision symbol_name to_dec safe_add safe_mul].
  pose proof (symbol_from_parts (sym a) Hsym Hval) as Hp. rewrite Hz in Hp.
  change (to_dec 0 ++ "," :: symbol_name (sym a)) with ("0" :: "," :: symbol_name (sym a)) in Hp.
  rewrite Hp. cbn -[parse_amount precision symbol_name to_dec safe_add safe_mul].
  unfold text. rewrite (parse_amount_whole neg _ q) by (done || lia). cbn -[precision symbol_name to_dec safe_add safe_mul].
  apply rebuild; [done|]. replace r with 0; [by destruct neg|]. unfold P in Hr. rewrite Hz in Hr. lia.
Qed.

Lemma asset_of_fraction :
  decimals (sym a) <> 0 ->
  asset_of_parts (text ++ "." :: tail (to_dec (P + r))) (symbol_name (sym a)) = Ok a.
Proof.
  intros Hz. destruct asset_parts as (Hd & HP & Hq & Hr & Hr2 & _). unfold asset_of_parts.
  destruct (to_dec_spec q) as (Hds & Hv & Hne & _); [lia|].
  assert (P = 10 ^ Z.of_nat (Z.to_nat (decimals (sym a)))) as EP by (unfold P; f_equal; lia).
  destruct (to_dec_padded (Z.to_nat (decimals (sym a))) r) as (Hfd & Hfv & Hfl); [lia..|].
  rewrite <- EP in *. set (fp := tail (to_dec (P + r))) in *.
  assert (fp <> []) by (intros E; rewrite E in Hfl; cbn in Hfl; lia).
  rewrite find_char_app by (by apply text_avoids).
  rewrite length_app. cbn [length]. rewrite Hfl.
  destruct (Nat.eqb_spec (length text) (length text + S (Z.to_nat (decimals (sym a))) - 1)); [lia|].
  cbn -[symbol_from_string parse_amount precision symbol_name to_dec safe_add safe_mul].
  replace (length text + S (Z.to_nat (decimals (sym a))) - length text - 1)%nat
    with (Z.to_nat (decimals (sym a))) by lia.
  rewrite Z2Nat.id, symbol_from_parts by (done || lia). cbn -[parse_amount precision symbol_name to_dec safe_add safe_mul].
  unfold text. rewrite (parse_amount_parts neg _ fp q r) by (done || lia). cbn -[precision symbol_name to_dec safe_add safe_mul]. by apply rebuild.
Qed.
End one_asset.

(** An asset survives the way through its string form: an asset in range, of a
    valid symbol whose name is not empty, prints to a text, and parsing that text
    gives the same amount and the same symbol, negative amounts between -1 and 0
    and symbols without decimals included; no step of the parse overflows. *)
Theorem asset_roundtrip a :
  is_amount_within_range (amount a) = true -> 0 <= sym a < 2 ^ 64 ->
  symbol_valid (sym a) = true -> symbol_name (sym a) <> [] ->
  exists s, asset_to_string a = Ok s /\ asset_from_string s = Ok a.
Proof.
  intros Hr Hs Hval Hne. destruct (asset_parts a Hr Hval) as (Hd & HP & Hq & Hrm & _ & _ & Ha).
  pose proof Hval as [_ Hup]%andb_true_iff. destruct (precision_valid _ Hval) as [_ Hprec].
  unfold asset_to_string. rewrite Hprec.
  destruct (Z.eqb_spec (amount a) i64_min) as [E|_]; [unfold i64_min in E; lia|]. cbn -[Z.pow to_dec symbol_name decimals].
  eexists. split; [reflexivity|]. destruct (to_dec_spec (Z.abs (amount a) ÷ 10 ^ decimals (sym a))) as (Hds & _ & Hdn & _); [lia|].
  destruct (Z.eqb_spec (decimals (sym a)) 0) as [Hz|Hz]; cbn -[Z.pow to_dec symbol_name decimals].
  - destruct (asset_text_ok (amount a <? 0) _ [] Hds Hdn eq_refl) as (c & u & E & Hc & Hu).
    rewrite app_nil_r in E. rewrite app_assoc, E, asset_from_string_split, <- E by done.
    by rewrite asset_of_whole.
  - destruct (to_dec_padded (Z.to_nat (decimals (sym a))) (Z.rem (Z.abs (amount a)) (10 ^ decimals (sym a)))) as (Hfd & _);
      [rewrite Z2Nat.id by lia; done|lia|]. rewrite Z2Nat.id in Hfd by lia.
    destruct (asset_text_ok (amount a <? 0) _ ("." :: tail (to_dec (10 ^ decimals (sym a) + Z.rem (Z.abs (amount a)) (10 ^ decimals (sym a)))))
                Hds Hdn) as (c & u & E & Hc & Hu); [cbn; by apply (forallb_avoid is_digit)|].
    rewrite app_assoc, E, asset_from_string_split, <- E, app_assoc by done. by rewrite asset_of_fraction.
Qed.
End roundtrip.

(** ** Arithmetic of assets *)

Definition asset_valid (a : asset) : bool := is_amount_within_range (amount a) && symbol_valid (sym a).

(** Arithmetic of valid assets has no undefined behaviour, although the 64-bit
    sums are taken before the range test: the sum, difference and negation return
    exactly the mathematical result when the symbols agree and the result is within
    2^62 - 1, and refuse with asset_type_exception otherwise. *)
Theorem asset_arith_spec a b :
  asset_valid a = true -> asset_valid b = true ->
  (asset_add a b = if (sym a =? sym b) && is_amount_within_range (amount a + amount b)
                   then Ok (mk_asset (amount a + amount b) (sym a)) else Throw asset_type_exception) /\
  (asset_sub a b = if (sym a =? sym b) && is_amount_within_range (amount a - amount b)
                   then Ok (mk_asset (amount a - amount b) (sym a)) else Throw asset_type_exception) /\
  asset_neg a = Ok (mk_asset (- amount a) (sym a)).
Proof.
  unfold asset_valid, asset_add, asset_sub, asset_neg, make_asset.
  intros [Ha Hs]%andb_true_iff [Hb _]%andb_true_iff. rewrite Hs.
  pose proof Ha as [A1%Z.leb_le A2%Z.leb_le]%andb_true_iff.
  pose proof Hb as [B1%Z.leb_le B2%Z.leb_le]%andb_true_iff.
  assert (is_amount_within_range (- amount a) = true) as ->
    by (apply andb_true_iff; rewrite !Z.leb_le; lia).
  unfold max_amount in *. rewrite !bool_decide_eq_true_2 by (unfold is_i64; lia).
  destruct (Z.eqb_spec (amount a) i64_min) as [E|_]; [unfold i64_min in E; lia|].
  destruct (sym a =? sym b); cbn -[is_amount_within_range]; repeat case_match; done.
Qed.

(** ** A concrete instance *)
Module AssetExample.

Definition parse_digits (ds : list ascii) : option Z :=
  if bool_decide (ds = []) || negb (forallb is_digit ds) then None else Some (dval ds).

Definition parse_int64 (s : list ascii) : option Z :=
  v ← match s with
      | c :: ds => if Ascii.eqb c "-" then Z.opp <$> parse_digits ds
                   else if Ascii.eqb c "+" then parse_digits ds else parse_digits s
      | [] => None
      end;
  if bool_decide (is_i64 v) then Some v else None.

Fixpoint drop_spaces (s : list ascii) : list ascii :=
  match s with
  | c :: s' => if is_space c then drop_spaces s' else s
  | [] => []
  end.

Definition trim (s : list ascii) : list ascii := rev (drop_spaces (rev (drop_spaces s))).

Lemma parse_digits_ok ds : ds <> [] -> forallb is_digit ds = true -> parse_digits ds = Some (dval ds).
Proof. intros Hne Hd. unfold parse_digits. by rewrite Hd, bool_decide_eq_false_2. Qed.

Lemma parse_int64_digits ds :
  ds <> [] -> forallb is_digit ds = true -> dval ds < 2 ^ 63 -> parse_int64 ds = Some (dval ds).
Proof.
  intros Hne Hd Hb. pose proof (dval_bounds ds Hd). pose proof (parse_digits_ok ds Hne Hd) as Hp.
  destruct ds as [|c ds]; [done|]. unfold parse_int64.
  pose proof Hd as [Hc _]%andb_true_iff.
  rewrite (proj2 (Ascii.eqb_neq c "-")), (proj2 (Ascii.eqb_neq c "+")) by (intros ->; done).
  rewrite Hp. cbn -[dval]. by rewrite bool_decide_eq_true_2 by (unfold is_i64; lia).
Qed.

Lemma parse_int64_negative ds :
  ds <> [] -> forallb is_digit ds = true -> dval ds <= 2 ^ 63 -> parse_int64 ("-" :: ds) = Some (- dval ds).
Proof.
  intros Hne Hd Hb. pose proof (dval_bounds ds Hd). unfold parse_int64. cbn -[dval].
  rewrite parse_digits_ok by done. cbn -[dval]. by rewrite bool_decide_eq_true_2 by (unfold is_i64; lia).
Qed.

Lemma trim_same c s : is_space c = false -> is_space (List.last s c) = false -> trim (c :: s) = c :: s.
Proof.
  intros Hc Hl. unfold trim. cbn [drop_spaces]. rewrite Hc.
  destruct s as [|x s _] using rev_ind; [cbn; by rewrite Hc|].
  rewrite List.last_last in Hl. rewrite app_comm_cons, rev_app_distr. cbn [rev app drop_spaces].
  rewrite Hl. cbn [rev]. by rewrite rev_app_distr, rev_involutive.
Qed.

#[export] Instance example_cast : LexicalCast := {
  lexical_cast := parse_int64; trim_copy := trim;
  lexical_digits := parse_int64_digits; lexical_negative := parse_int64_negative; trim_id := trim_same }.

(** "4,SYS" *)
Definition core_symbol : Z := 4 + 83 * 2 ^ 8 + 89 * 2 ^ 16 + 83 * 2 ^ 24.

Lemma symbol_roundtrip_witness :
  symbol_to_string core_symbol = chars "4,SYS" /\ symbol_from_string (symbol_to_string core_symbol) = Ok core_symbol.
Proof. split; [reflexivity|]. apply symbol_roundtrip; [unfold core_symbol; lia|reflexivity]. Defined.

Lemma asset_roundtrip_witness :
  asset_to_string (mk_asset (-5) core_symbol) = Ok (chars "-0.0005 SYS") /\
  exists s, asset_to_string (mk_asset (-5) core_symbol) = Ok s /\ asset_from_string s = Ok (mk_asset (-5) core_symbol).
Proof.
  split; [reflexivity|].
  apply asset_roundtrip; [reflexivity|unfold core_symbol; cbn; lia|reflexivity|discriminate].
Defined.

Lemma asset_arith_spec_witness :
  asset_add (mk_asset 70000 core_symbol) (mk_asset (-5) core_symbol) = Ok (mk_asset 69995 core_symbol).
Proof. apply (asset_arith_spec (mk_asset 70000 core_symbol) (mk_asset (-5) core_symbol)); reflexivity. Defined.

(** Text that is not the form of any asset or symbol is accepted. The precision
    is narrowed to eight bits before it is compared with 18, so "260,SYS" parses as
    the symbol "4,SYS"; a fraction may carry a sign of its own, so "1.-5 SYS" parses
    as 0.95 SYS; and an asset of the valid symbol without a name prints to a text
    that the parser refuses. *)
Theorem asset_parse_defects :
  symbol_from_string (chars "260,SYS") = Ok core_symbol /\
  (a ← asset_from_string (chars "1.-5 SYS"); asset_to_string a) = Ok (chars "0.95 SYS") /\
  asset_valid (mk_asset 1 4) = true /\ asset_to_string (mk_asset 1 4) = Ok (chars "0.0001 ") /\
  asset_from_string (chars "0.0001 ") = Throw asset_type_exception.
Proof. split_and!; vm_compute; reflexivity. Qed.
End AssetExample.
