(* ===== verification/Merkle.v ===== *)
(** * Merkle trees ([merkle.cpp], [incremental_merkle.hpp])

    The batch root over a list of digests and the incremental tree that block
    headers carry.  The hash of a pair is a parameter (SHA-256 of the packed
    pair); nothing is assumed about it. *)

From S2P Require Import Prelude Exceptions Types.

Definition make_canonical_left (v : digest) : digest :=
  mk_digest (Z.land (hash0 v) 0xFFFFFFFFFFFFFF7F) (hash1 v) (hash2 v) (hash3 v).
Definition make_canonical_right (v : digest) : digest :=
  mk_digest (Z.lor (hash0 v) 0x80) (hash1 v) (hash2 v) (hash3 v).
Definition is_canonical_left (v : digest) : bool := Z.land (hash0 v) 0x80 =? 0.
Definition is_canonical_right (v : digest) : bool := negb (Z.land (hash0 v) 0x80 =? 0).
Definition make_canonical_pair (l r : digest) : digest * digest :=
  (make_canonical_left l, make_canonical_right r).

(** ** [detail]: depth arithmetic on 64-bit words *)

Definition next_power_of_2 (value : Z) : Z :=
  let value := u64 (value - 1) in
  let value := Z.lor value (Z.shiftr value 1) in
  let value := Z.lor value (Z.shiftr value 2) in
  let value := Z.lor value (Z.shiftr value 4) in
  let value := Z.lor value (Z.shiftr value 8) in
  let value := Z.lor value (Z.shiftr value 16) in
  let value := Z.lor value (Z.shiftr value 32) in
  u64 (value + 1).

Definition clz_power_2 (value : Z) : Z :=
  let lz := 64 in
  let lz := if negb (value =? 0) then lz - 1 else lz in
  let lz := if negb (Z.land value 0x00000000FFFFFFFF =? 0) then lz - 32 else lz in
  let lz := if negb (Z.land value 0x0000FFFF0000FFFF =? 0) then lz - 16 else lz in
  let lz := if negb (Z.land value 0x00FF00FF00FF00FF =? 0) then lz - 8 else lz in
  let lz := if negb (Z.land value 0x0F0F0F0F0F0F0F0F =? 0) then lz - 4 else lz in
  let lz := if negb (Z.land value 0x3333333333333333 =? 0) then lz - 2 else lz in
  let lz := if negb (Z.land value 0x5555555555555555 =? 0) then lz - 1 else lz in
  lz.

Definition calcluate_max_depth (node_count : Z) : Z :=
  if node_count =? 0 then 0
  else clz_power_2 (next_power_of_2 node_count) + 1.

Section trees.
(** [digest_type::hash( std::pair<digest_type, digest_type> )] *)
Variable hash : digest * digest -> digest.

Definition node (l r : digest) : digest := hash (make_canonical_pair l r).

(** ** The batch root *)

(** [for (i = 0; i < ids.size()/2; i++) ids[i] = hash(ids[2i], ids[2i+1])], in
    place. *)
Fixpoint level_loop (n i : nat) (ids : list digest) : list digest :=
  match n with
  | O => ids
  | S n =>
      level_loop n (S i)
        (<[i := node (List.nth (2 * i) ids digest_zero) (List.nth (2 * i + 1) ids digest_zero)]> ids)
  end.

(** One turn of the [while] loop of [merkle]. *)
Definition merkle_level (ids : list digest) : list digest :=
  let ids := if Nat.odd (length ids)
             then ids ++ [List.last ids digest_zero] else ids in
  take (length ids / 2) (level_loop (length ids / 2) 0 ids).

Fixpoint merkle_loop (fuel : nat) (ids : list digest) : res digest :=
  match fuel with
  | O => Throw fuel_exhausted
  | S fuel =>
      match ids with
      | [] => Ok digest_zero
      | [d] => Ok d
      | _ => merkle_loop fuel (merkle_level ids)
      end
  end.

(** Every turn halves the list (rounding up), so its length is enough fuel. *)
Definition merkle (ids : list digest) : res digest := merkle_loop (S (length ids)) ids.

(** ** The incremental tree *)

Record incremental_merkle := mk_im {
  _node_count : Z;               (* uint64_t *)
  _active_nodes : list digest;
}.

Definition empty_im : incremental_merkle := mk_im 0 [].

(** Loop state of [append]: the collapsed node, whether it is partial, the
    unread old active nodes and the new ones. *)
Record append_state := mk_as {
  as_index : Z; as_top : digest; as_partial : bool;
  as_active : list digest; as_updated : list digest;
}.

(** One level up.  [None]: dereferencing [active_iter] past the end. *)
Definition append_step (s : append_state) : option append_state :=
  if Z.land (as_index s) 1 =? 0 then
    Some (mk_as (Z.shiftr (as_index s) 1) (node (as_top s) (as_top s)) true (as_active s)
            (if as_partial s then as_updated s else as_updated s ++ [as_top s]))
  else
    match as_active s with
    | [] => None
    | left_value :: active =>
        Some (mk_as (Z.shiftr (as_index s) 1) (node left_value (as_top s)) (as_partial s) active
                (if as_partial s then as_updated s ++ [left_value] else as_updated s))
    end.

Fixpoint append_loop (current_depth : nat) (s : append_state) : option append_state :=
  match current_depth with
  | O => Some s
  | S n => s' ← append_step s; append_loop n s'
  end.

Definition append (d : digest) (m : incremental_merkle) : option incremental_merkle :=
  let max_depth := calcluate_max_depth (u64 (_node_count m + 1)) in
  s ← append_loop (Z.to_nat (max_depth - 1))
        (mk_as (_node_count m) d false (_active_nodes m) []);
  Some (mk_im (u64 (_node_count m + 1)) (as_updated s ++ [as_top s])).

(** Append the digests of a list in order. *)
Fixpoint append_all (ds : list digest) (m : incremental_merkle) : option incremental_merkle :=
  match ds with
  | [] => Some m
  | d :: ds => m' ← append d m; append_all ds m'
  end.

Definition get_root (m : incremental_merkle) : digest :=
  if 0 <? _node_count m then List.last (_active_nodes m) digest_zero else digest_zero.
End trees.

Example depth_5 : calcluate_max_depth 5 = 4.
Proof. reflexivity. Qed.
Example clz_8 : clz_power_2 8 = 3.
Proof. reflexivity. Qed.

(** ** Depth arithmetic *)

(** Bits [lo, hi] of [v] are set and there are none above. *)
Definition ones_between (v lo hi : Z) : Prop :=
  forall i, 0 <= i -> (lo <= i <= hi -> Z.testbit v i = true) /\ (hi < i -> Z.testbit v i = false).

Lemma smear_step v lo hi w :
  0 <= w -> hi - lo + 1 = w -> ones_between v lo hi ->
  ones_between (Z.lor v (Z.shiftr v w)) (lo - w) hi.
Proof.
  intros Hw Hlo H i Hi. rewrite Z.lor_spec, Z.shiftr_spec by lia. split; intros Hb.
  - destruct (decide (lo <= i)).
    + destruct (H i Hi) as [Ht _]. rewrite Ht by lia. done.
    + destruct (H (i + w) ltac:(lia)) as [Ht _]. rewrite Ht by lia. apply orb_true_r.
  - destruct (H i Hi) as [_ ->]; [|lia]. destruct (H (i + w) ltac:(lia)) as [_ ->]; [done|lia].
Qed.

Lemma ones_between_all v lo hi : 0 <= hi -> lo <= 0 -> ones_between v lo hi -> v = 2 ^ (hi + 1) - 1.
Proof.
  intros Hhi Hlo H. rewrite Z.sub_1_r, <- Z.ones_equiv. apply Z.bits_inj'. intros i Hi.
  rewrite Z.testbit_ones_nonneg by lia. destruct (H i Hi) as [H1 H2].
  destruct (i <? hi + 1) eqn:?; bool_to_Z; [apply H1|apply H2]; lia.
Qed.

Lemma ones_between_log2 v : 0 < v -> ones_between v (Z.log2 v) (Z.log2 v).
Proof.
  intros Hv i Hi. split; intros Hb.
  - replace i with (Z.log2 v) by lia. by apply Z.bit_log2.
  - apply Z.bits_above_log2; lia.
Qed.

Lemma next_power_of_2_spec n : 1 <= n <= 2 ^ 63 -> next_power_of_2 n = 2 ^ Z.log2_up n.
Proof.
  intros Hn. unfold next_power_of_2. rewrite (u64_small (n - 1)) by lia.
  destruct (decide (n = 1)) as [->|]; [reflexivity|].
  assert (0 <= Z.log2 (n - 1) < 63) as Hl.
  { split; [apply Z.log2_nonneg|]. apply Z.log2_lt_pow2; lia. }
  pose proof (ones_between_log2 (n - 1) ltac:(lia)) as H.
  apply (smear_step _ _ _ 1) in H; [|lia..]. apply (smear_step _ _ _ 2) in H; [|lia..].
  apply (smear_step _ _ _ 4) in H; [|lia..]. apply (smear_step _ _ _ 8) in H; [|lia..].
  apply (smear_step _ _ _ 16) in H; [|lia..]. apply (smear_step _ _ _ 32) in H; [|lia..].
  apply ones_between_all in H; [|lia..]. rewrite H.
  rewrite Z.log2_up_eqn by lia. replace (Z.pred n) with (n - 1) by lia.
  replace (2 ^ (Z.log2 (n - 1) + 1) - 1 + 1) with (2 ^ Z.succ (Z.log2 (n - 1))) by (unfold Z.succ; lia).
  apply u64_small. split; [apply Z.pow_nonneg; lia|]. apply Z.pow_lt_mono_r; lia.
Qed.

Lemma clz_power_2_spec k : 0 <= k < 64 -> clz_power_2 (2 ^ k) = k.
Proof.
  intros Hk. apply Z.eqb_eq. revert Hk.
  apply (seqZ_check (fun k => clz_power_2 (2 ^ k) =? k)). vm_compute. reflexivity.
Qed.

Lemma calcluate_max_depth_log2 n :
  1 <= n <= 2 ^ 63 -> calcluate_max_depth n = Z.log2_up n + 1.
Proof.
  intros Hn. unfold calcluate_max_depth. destruct (n =? 0) eqn:?; bool_to_Z; [lia|].
  rewrite next_power_of_2_spec, clz_power_2_spec; [done| |done].
  split; [apply Z.log2_up_nonneg|]. apply Z.le_lt_trans with 63; [|lia].
  apply Z.log2_up_le_pow2; lia.
Qed.

(** The bit tricks compute the depth of the tree: one more than the number of
    halvings that bring [n] leaves down to a root.  ([clz_power_2] counts the
    zeros below the bit, which is what makes this hold.) *)
Theorem calcluate_max_depth_spec n :
  1 <= n <= 2 ^ 63 -> calcluate_max_depth n = Z.log2_up n + 1.
Proof. apply calcluate_max_depth_log2. Qed.

Lemma calcluate_max_depth_spec_witness : calcluate_max_depth 1000 = Z.log2_up 1000 + 1.
Proof. apply calcluate_max_depth_spec. lia. Defined.

(** ** The reference tree

    The root of the tree of depth [k] over at most [2^k] leaves, defined top-down:
    a missing right half is implied to equal the left half. *)

Section reference.
Variable hash : digest * digest -> digest.
Local Abbreviation node := (node hash).
Local Open Scope nat_scope.

Fixpoint root (k : nat) (ds : list digest) : digest :=
  match k with
  | O => List.hd digest_zero ds
  | S k => if length ds <=? 2 ^ k then node (root k ds) (root k ds)
           else node (root k (take (2 ^ k) ds)) (root k (drop (2 ^ k) ds))
  end.

(** Pair the elements of a list, the last one with itself if it is alone. *)
Fixpoint pair_up (ids : list digest) : list digest :=
  match ids with
  | [] => []
  | [d] => [node d d]
  | l :: r :: rest => node l r :: pair_up rest
  end.

Lemma list_pair_ind (P : list digest -> Prop) :
  P [] -> (forall d, P [d]) -> (forall a b l, P l -> P (a :: b :: l)) -> forall l, P l.
Proof. intros H0 H1 H2. fix F 1. intros [|a [|b l]]; [done..|]. apply H2, F. Qed.

Lemma length_pair_up ids : length (pair_up ids) = (length ids + 1) / 2.
Proof.
  induction ids as [|d|a b l IH] using list_pair_ind; [done..|]. cbn [pair_up length].
  rewrite IH. replace (S (S (length l)) + 1) with (length l + 1 + 1 * 2) by lia.
  rewrite Nat.div_add by lia. lia.
Qed.

Lemma pair_up_app ids rest :
  Nat.even (length ids) = true -> pair_up (ids ++ rest) = pair_up ids ++ pair_up rest.
Proof.
  induction ids as [|d|a b l IH] using list_pair_ind; [done..|]. cbn. intros H. by rewrite IH.
Qed.

(** *** One level of the batch root *)

Lemma nth_insert_ne (ids : list digest) i j x :
  i <> j -> List.nth j (<[i := x]> ids) digest_zero = List.nth j ids digest_zero.
Proof.
  intros. rewrite !nth_lookup. by rewrite list_lookup_insert_ne.
Qed.

(** The in-place loop writes behind what it has yet to read. *)
Lemma level_loop_spec n i ids :
  2 * (i + n) <= length ids ->
  forall j, level_loop hash n i ids !! j =
    if decide (i <= j < i + n)
    then Some (node (List.nth (2 * j) ids digest_zero) (List.nth (2 * j + 1) ids digest_zero))
    else ids !! j.
Proof.
  revert i ids. induction n as [|n IH]; intros i ids Hl j; cbn [level_loop].
  { case_decide; [lia|done]. }
  rewrite IH by (rewrite length_insert; lia).
  destruct (decide (j = i)) as [->|].
  - rewrite !decide_False, decide_True by lia. by rewrite list_lookup_insert_eq by lia.
  - destruct (decide (S i <= j < S i + n)).
    + rewrite decide_True, !nth_insert_ne by lia. done.
    + rewrite decide_False, list_lookup_insert_ne by lia. done.
Qed.

Lemma length_level_loop n i ids : length (level_loop hash n i ids) = length ids.
Proof. revert i ids; induction n; intros; cbn; [done|]. by rewrite IHn, length_insert. Qed.

Lemma lookup_pair_up ids j :
  Nat.even (length ids) = true -> j < length ids / 2 ->
  pair_up ids !! j = Some (node (List.nth (2 * j) ids digest_zero) (List.nth (2 * j + 1) ids digest_zero)).
Proof.
  revert j. induction ids as [|d|a b l IH] using list_pair_ind; intros j He Hj; [cbn in Hj; lia|done|].
  destruct j as [|j]; [done|]. cbn [pair_up]. rewrite lookup_cons.
  change (length (a :: b :: l)) with (2 + length l) in Hj.
  replace (2 + length l) with (length l + 1 * 2) in Hj by lia. rewrite Nat.div_add in Hj by lia.
  rewrite IH by (done || lia). replace (2 * S j) with (S (S (2 * j))) by lia. done.
Qed.

Lemma pair_up_double_last ids :
  Nat.odd (length ids) = true -> pair_up (ids ++ [List.last ids digest_zero]) = pair_up ids.
Proof.
  induction ids as [|d|a b l IH] using list_pair_ind; [done..|]. intros H.
  destruct l as [|c l]; [done|]. change (List.last (a :: b :: c :: l) digest_zero) with
    (List.last (c :: l) digest_zero). cbn [app pair_up]. f_equal. apply IH. exact H.
Qed.

Lemma take_level_loop ids :
  Nat.even (length ids) = true ->
  take (length ids / 2) (level_loop hash (length ids / 2) 0 ids) = pair_up ids.
Proof.
  intros He. pose proof (Nat.div_mod_eq (length ids) 2) as Hdm.
  rewrite Nat.even_spec in He. destruct He as [m Hm].
  assert (length ids / 2 = m) as Hd by (rewrite Hm, Nat.mul_comm, Nat.div_mul; lia).
  apply list_eq. intros j. destruct (decide (j < m)).
  - rewrite lookup_take_lt, level_loop_spec, decide_True by lia.
    rewrite lookup_pair_up; [done| |lia]. apply Nat.even_spec. by exists m.
  - rewrite lookup_take_ge by lia. symmetry. apply lookup_ge_None. rewrite length_pair_up.
    rewrite Hm. replace (2 * m + 1) with (1 + m * 2) by lia. rewrite Nat.div_add; cbn; lia.
Qed.

Lemma merkle_level_pair_up ids : merkle_level hash ids = pair_up ids.
Proof.
  unfold merkle_level. destruct (Nat.odd (length ids)) eqn:Ho.
  - rewrite take_level_loop, pair_up_double_last; [done..|].
    rewrite length_app, Nat.add_1_r, Nat.even_succ. done.
  - apply take_level_loop. by rewrite <- Nat.negb_odd, Ho.
Qed.

(** Collapsing one level at the bottom takes one off the depth. *)
Lemma root_pair_up k ds :
  0 < length ds <= 2 ^ S k -> root (S k) ds = root k (pair_up ds).
Proof.
  revert ds. induction k as [|k IH]; intros ds Hl.
  { destruct ds as [|a [|b [|]]]; cbn in *; try lia; done. }
  pose proof (length_pair_up ds) as Hp.
  assert (length ds + 1 = 2 * ((length ds + 1) / 2) + (length ds + 1) mod 2) as Hdm by apply Nat.div_mod_eq.
  pose proof (Nat.mod_upper_bound (length ds + 1) 2 ltac:(lia)).
  change (root (S (S k)) ds) with
    (if length ds <=? 2 ^ S k then node (root (S k) ds) (root (S k) ds)
     else node (root (S k) (take (2 ^ S k) ds)) (root (S k) (drop (2 ^ S k) ds))).
  change (root (S k) (pair_up ds)) with
    (if length (pair_up ds) <=? 2 ^ k then node (root k (pair_up ds)) (root k (pair_up ds))
     else node (root k (take (2 ^ k) (pair_up ds))) (root k (drop (2 ^ k) (pair_up ds)))).
  assert (2 ^ S k = 2 * 2 ^ k) as Hpow by apply Nat.pow_succ_r'.
  change (2 ^ S (S k)) with (2 * 2 ^ S k) in Hl.
  destruct (Nat.leb_spec (length ds) (2 ^ S k)).
  - rewrite (proj2 (Nat.leb_le _ _)) by lia. by rewrite IH by lia.
  - rewrite (proj2 (Nat.leb_gt _ _)) by lia.
    assert (length (take (2 ^ S k) ds) = 2 ^ S k) as Ht by (rewrite length_take; lia).
    assert (pair_up ds = pair_up (take (2 ^ S k) ds) ++ pair_up (drop (2 ^ S k) ds)) as Hsplit.
    { rewrite <- pair_up_app, take_drop; [done|]. rewrite Ht, Hpow. apply Nat.even_spec. by exists (2 ^ k). }
    assert (length (pair_up (take (2 ^ S k) ds)) = 2 ^ k) as Hlp.
    { rewrite length_pair_up, Ht, Hpow. replace (2 * 2 ^ k + 1) with (1 + 2 ^ k * 2) by lia.
      by rewrite Nat.div_add by lia. }
    rewrite Hsplit, take_app_length', drop_app_length' by done.
    rewrite !IH; [done|rewrite length_drop; lia|lia].
Qed.

(** The depth of a tree with [n] leaves. *)
Lemma merkle_loop_root fuel k ds :
  0 < length ds <= fuel -> length ds <= 2 ^ k -> (k = 0 \/ 2 ^ (k - 1) < length ds) ->
  merkle_loop hash fuel ds = Ok (root k ds).
Proof.
  revert k ds. induction fuel as [|fuel IH]; intros k ds Hf Hk Hmin; [lia|].
  destruct k as [|k].
  { destruct ds as [|d [|]]; cbn in *; try lia; done. }
  rewrite Nat.sub_succ, Nat.sub_0_r in Hmin.
  assert (1 <= 2 ^ k) by (clear; induction k; cbn; lia).
  destruct ds as [|a [|b l]]; [cbn in *; lia|cbn in *; lia|].
  set (ds := a :: b :: l) in *. change (merkle_loop hash (S fuel) ds)
    with (merkle_loop hash fuel (merkle_level hash ds)).
  rewrite merkle_level_pair_up, root_pair_up by (cbn in *; lia).
  assert (length ds + 1 = 2 * ((length ds + 1) / 2) + (length ds + 1) mod 2) as Hdm by apply Nat.div_mod_eq.
  pose proof (Nat.mod_upper_bound (length ds + 1) 2 ltac:(lia)).
  assert (2 <= length ds) by (cbn; lia).
  change (2 ^ S k) with (2 * 2 ^ k) in Hk.
  apply IH; rewrite length_pair_up; [lia..|].
  destruct k as [|k]; [by left|right]. rewrite Nat.sub_succ, Nat.sub_0_r.
  change (2 ^ S k) with (2 * 2 ^ k) in Hmin. lia.
Qed.
End reference.

(** ** The incremental tree computes the reference *)

Section incremental.
Variable hash : digest * digest -> digest.
Local Abbreviation node := (node hash).
Local Abbreviation root := (root hash).
Local Open Scope nat_scope.

(** Roots of the complete subtrees of [ds], the smallest (rightmost) first:
    the binary digits of the number of leaves. *)
Fixpoint peaks (k : nat) (ds : list digest) : list digest :=
  match k with
  | O => []
  | S k => if 2 ^ k <=? length ds
           then peaks k (drop (2 ^ k) ds) ++ [root k (take (2 ^ k) ds)]
           else peaks k ds
  end.

Lemma pow2_pos k : 1 <= 2 ^ k.
Proof. induction k; cbn; lia. Qed.

Lemma peaks_nil k : peaks k [] = [].
Proof.
  induction k as [|k IH]; [done|]. cbn. pose proof (pow2_pos k).
  destruct (Nat.leb_spec (2 ^ k) 0); [lia|done].
Qed.

Lemma peaks_S k ds : length ds < 2 ^ k -> peaks (S k) ds = peaks k ds.
Proof. intros. cbn. destruct (Nat.leb_spec (2 ^ k) (length ds)); [lia|done]. Qed.

Lemma peaks_full k ds : length ds = 2 ^ k -> peaks (S k) ds = [root k ds].
Proof.
  intros Hl. cbn. rewrite Hl, Nat.leb_refl.
  by rewrite <- Hl, drop_all, firstn_all, peaks_nil.
Qed.

Lemma peaks_mono k k' ds : length ds < 2 ^ k -> k <= k' -> peaks k' ds = peaks k ds.
Proof.
  intros Hl. induction 1 as [|k' Hk IH]; [done|]. rewrite peaks_S, IH; [done|].
  apply Nat.lt_le_trans with (2 ^ k); [done|]. apply Nat.pow_le_mono_r; lia.
Qed.

(** The bit of the leaf index that decides left or right at level [k]. *)
Lemma index_bit n k : Z.land (Z.shiftr (Z.of_nat n) (Z.of_nat k)) 1 = Z.of_nat ((n / 2 ^ k) mod 2).
Proof.
  change 1%Z with (Z.ones 1). rewrite Z.land_ones, Z.shiftr_div_pow2 by lia.
  change (2 ^ 1)%Z with (Z.of_nat 2). change 2%Z with (Z.of_nat 2).
  by rewrite <- Nat2Z.inj_pow, <- Nat2Z.inj_div, <- Nat2Z.inj_mod.
Qed.

Lemma append_loop_S k s :
  append_loop hash (S k) s = append_loop hash k s ≫= append_step hash.
Proof.
  revert s. induction k as [|k IH]; intros s; cbn [append_loop].
  - cbn. by destruct (append_step hash s).
  - cbn [append_loop] in IH. destruct (append_step hash s) as [s'|]; [|done]. cbn. apply IH.
Qed.

(** The collapse of [append] through [k] levels.  [ds] are the leaves already
    under the subtree of depth [k] that receives the new leaf, [hi] the number
    of complete subtrees of that depth before it. *)
Lemma append_loop_spec k hi ds d rest :
  length ds < 2 ^ k ->
  append_loop hash k (mk_as (Z.of_nat (hi * 2 ^ k + length ds)) d false (peaks k ds ++ rest) []) =
  Some (mk_as (Z.shiftr (Z.of_nat (hi * 2 ^ k + length ds)) (Z.of_nat k)) (root k (ds ++ [d]))
          (negb (length ds + 1 =? 2 ^ k)) rest
          (if length ds + 1 =? 2 ^ k then [] else peaks k (ds ++ [d]))).
Proof.
  revert hi ds rest. induction k as [|k IH]; intros hi ds rest Hl.
  { destruct ds; [|cbn in Hl; lia]. cbn. by rewrite Z.shiftr_0_r. }
  pose proof (pow2_pos k) as Hpos. assert (2 ^ S k = 2 * 2 ^ k) as Hpow by apply Nat.pow_succ_r'.
  rewrite append_loop_S. cbn [peaks].
  destruct (Nat.leb_spec (2 ^ k) (length ds)) as [Hge|Hlt].
  - (* the leaf falls in the right half of the subtree *)
    set (L := take (2 ^ k) ds). set (R := drop (2 ^ k) ds).
    assert (length L = 2 ^ k) as HL by (unfold L; rewrite length_take; lia).
    assert (length R = length ds - 2 ^ k) as HR by (unfold R; rewrite length_drop; lia).
    assert (ds = L ++ R) as Eds by (unfold L, R; by rewrite take_drop).
    replace (hi * 2 ^ S k + length ds) with ((2 * hi + 1) * 2 ^ k + length R) by lia.
    assert (Z.land (Z.shiftr (Z.of_nat ((2 * hi + 1) * 2 ^ k + length R)) (Z.of_nat k)) 1 = 1%Z) as Hbit.
    { rewrite index_bit, Nat.div_add_l, (Nat.div_small (length R)), Nat.add_0_r by lia.
      by rewrite Nat.add_comm, Nat.mul_comm, Nat.Div0.mod_add. }
    rewrite <- app_assoc, IH by lia. set (I := Z.of_nat (_ * _ + _)) in *. clearbody I.
    cbn. unfold append_step. cbn. rewrite Hbit. cbn. rewrite Z.shiftr_shiftr by lia.
    replace (Z.of_nat k + 1)%Z with (Z.of_nat (S k)) by lia.
    rewrite (proj2 (Nat.leb_gt _ _)) by (rewrite length_app; cbn; lia).
    rewrite (proj2 (Nat.leb_le (2 ^ k) _)) by (rewrite length_app; cbn; lia).
    assert (take (2 ^ k) (ds ++ [d]) = L) as -> by (rewrite take_app_le by lia; done).
    assert (drop (2 ^ k) (ds ++ [d]) = R ++ [d]) as -> by (rewrite drop_app_le by lia; done).
    destruct (Nat.eqb_spec (length R + 1) (2 ^ k)), (Nat.eqb_spec (length ds + 1) (2 ^ k + (2 ^ k + 0)));
      try lia; done.
  - (* the leaf falls in the left half *)
    replace (hi * 2 ^ S k + length ds) with ((2 * hi) * 2 ^ k + length ds) by lia.
    assert (Z.land (Z.shiftr (Z.of_nat (2 * hi * 2 ^ k + length ds)) (Z.of_nat k)) 1 = 0%Z) as Hbit.
    { rewrite index_bit, Nat.div_add_l, (Nat.div_small (length ds)), Nat.add_0_r by lia.
      by rewrite Nat.mul_comm, Nat.Div0.mod_mul. }
    rewrite IH by lia. set (I := Z.of_nat (_ * _ + _)) in *. clearbody I.
    cbn. unfold append_step. cbn. rewrite Hbit. cbn. rewrite Z.shiftr_shiftr by lia.
    replace (Z.of_nat k + 1)%Z with (Z.of_nat (S k)) by lia.
    rewrite (proj2 (Nat.leb_le (length (ds ++ [d])) _)) by (rewrite length_app; cbn; lia).
    destruct (Nat.eqb_spec (length ds + 1) (2 ^ k + (2 ^ k + 0))); [lia|].
    destruct (Nat.eqb_spec (length ds + 1) (2 ^ k)) as [He|]; cbn.
    + rewrite (proj2 (Nat.leb_le (2 ^ k) _)) by (rewrite length_app; cbn; lia).
      assert (length (ds ++ [d]) = 2 ^ k) as E by (rewrite length_app; cbn; lia).
      by rewrite <- E, drop_all, firstn_all, peaks_nil.
    + rewrite (proj2 (Nat.leb_gt (2 ^ k) _)) by (rewrite length_app; cbn; lia). done.
Qed.

(** [k] halvings bring [n] leaves down to one. *)
Definition is_depth (n k : nat) : Prop := n <= 2 ^ k /\ (k = 0 \/ 2 ^ (k - 1) < n).

Lemma is_depth_log2_up n : 1 <= n -> is_depth n (Z.to_nat (Z.log2_up (Z.of_nat n))).
Proof.
  intros Hn. set (l := Z.log2_up (Z.of_nat n)).
  assert (0 <= l)%Z as Hl0 by apply Z.log2_up_nonneg.
  assert (forall j, Z.of_nat (2 ^ Z.to_nat j) = 2 ^ Z.max 0 j)%Z as Hpow.
  { intros j. rewrite Nat2Z.inj_pow. f_equal. lia. }
  split.
  - apply Nat2Z.inj_le. rewrite Hpow, Z.max_r by done. apply Z.log2_up_le_pow2; [lia|]. unfold l. lia.
  - destruct (decide (l = 0)%Z) as [->|]; [by left|right].
    replace (Z.to_nat l - 1) with (Z.to_nat (l - 1)) by lia.
    apply Nat2Z.inj_lt. rewrite Hpow, Z.max_r by lia. apply Z.log2_up_lt_pow2; [lia|]. unfold l. lia.
Qed.

(** State of the incremental tree after the leaves [ds]. *)
Definition im_inv (ds : list digest) (m : incremental_merkle) : Prop :=
  _node_count m = Z.of_nat (length ds) /\
  match ds with
  | [] => _active_nodes m = []
  | _ => exists k, is_depth (length ds) k /\
           _active_nodes m = (if length ds =? 2 ^ k then [] else peaks k ds) ++ [root k ds]
  end.

(** The old active nodes start with the complete subtrees [append] reads. *)
Lemma im_inv_active ds m K :
  im_inv ds m -> is_depth (S (length ds)) K -> exists rest, _active_nodes m = peaks K ds ++ rest.
Proof.
  intros [_ Ha] [HK1 HK2]. destruct ds as [|d0 ds0]; [by exists []; rewrite Ha, peaks_nil|].
  set (ds := d0 :: ds0) in *. destruct Ha as (k & [Hk1 Hk2] & ->).
  destruct (Nat.eqb_spec (length ds) (2 ^ k)) as [He|Hne]; cbn [app].
  - exists []. assert (K = S k) as ->.
    { destruct (Nat.lt_trichotomy K (S k)) as [|[|Hgt]]; [|done|]; exfalso.
      - assert (2 ^ K <= 2 ^ k) by (apply Nat.pow_le_mono_r; lia). lia.
      - destruct HK2 as [|HK2]; [lia|].
        assert (2 ^ S k <= 2 ^ (K - 1)) by (apply Nat.pow_le_mono_r; lia).
        rewrite Nat.pow_succ_r' in *. pose proof (pow2_pos k). lia. }
    by rewrite peaks_full.
  - exists [root k ds]. assert (K = k) as ->; [|done].
    destruct (Nat.lt_trichotomy K k) as [|[|Hgt]]; [|done|]; exfalso.
    + destruct Hk2 as [|Hk2]; [lia|].
      assert (2 ^ K <= 2 ^ (k - 1)) by (apply Nat.pow_le_mono_r; lia). lia.
    + destruct HK2 as [|HK2]; [lia|].
      assert (2 ^ k <= 2 ^ (K - 1)) by (apply Nat.pow_le_mono_r; lia). lia.
Qed.

Lemma append_inv ds m d :
  im_inv ds m -> (Z.of_nat (S (length ds)) <= 2 ^ 63)%Z ->
  exists m', append hash d m = Some m' /\ im_inv (ds ++ [d]) m'.
Proof.
  intros Hinv Hb. pose proof Hinv as [Hc _]. unfold append. rewrite Hc.
  rewrite u64_small by lia. replace (Z.of_nat (length ds) + 1)%Z with (Z.of_nat (S (length ds))) by lia.
  rewrite calcluate_max_depth_log2 by lia.
  set (K := Z.to_nat _). assert (is_depth (S (length ds)) K) as HK.
  { unfold K. rewrite Z.add_simpl_r. apply is_depth_log2_up. lia. }
  destruct (im_inv_active ds m K Hinv HK) as [rest ->].
  destruct HK as [HK1 HK2].
  pose proof (append_loop_spec K 0 ds d rest ltac:(lia)) as Hloop. cbn [Nat.mul Nat.add] in Hloop.
  rewrite Hloop. cbn. eexists; split; [done|].
  assert (length (ds ++ [d]) = S (length ds)) as Hlen by (rewrite length_app; cbn; lia).
  split; [cbn; by rewrite Hlen|].
  destruct (ds ++ [d]) as [|x xs] eqn:E; [done|]. rewrite <- E in *.
  exists K. split; [by rewrite Hlen|]. rewrite Hlen, Nat.add_1_r. by cbn.
Qed.

Lemma append_all_inv ds0 ds m :
  im_inv ds0 m -> (Z.of_nat (length ds0 + length ds) <= 2 ^ 63)%Z ->
  exists m', append_all hash ds m = Some m' /\ im_inv (ds0 ++ ds) m'.
Proof.
  revert ds0 m. induction ds as [|d ds IH]; intros ds0 m Hinv Hb; cbn [append_all].
  { exists m. by rewrite app_nil_r. }
  cbn in Hb. destruct (append_inv ds0 m d Hinv) as (m1 & -> & H1); [lia|]. cbn.
  destruct (IH (ds0 ++ [d]) m1 H1) as (m' & Hm & Hi); [rewrite length_app; cbn; lia|].
  exists m'. split; [done|]. by rewrite <- app_assoc in Hi.
Qed.

(** C8: Appending leaves one at a time never reads past the stored nodes, and
    after any sequence of appends the incremental root is the batch merkle
    root of the leaves. *)
Theorem incremental_merkle_correct ds :
  (Z.of_nat (length ds) <= 2 ^ 63)%Z ->
  exists m, append_all hash ds empty_im = Some m /\
    _node_count m = Z.of_nat (length ds) /\ merkle hash ds = Ok (get_root m).
Proof.
  intros Hb. destruct (append_all_inv [] ds empty_im) as (m & Hm & Hc & Ha); [done|done|].
  exists m. split; [done|]. split; [done|]. cbn in Hc, Ha. unfold get_root. rewrite Hc.
  destruct ds as [|d ds']; [done|]. set (ds := d :: ds') in *.
  destruct Ha as (k & [Hk1 Hk2] & ->). rewrite (proj2 (Z.ltb_lt _ _)) by (cbn; lia).
  unfold merkle. rewrite (merkle_loop_root hash _ k) by (done || cbn; lia).
  by rewrite last_last.
Qed.
End incremental.

(** The batch loop always ends: the number of digests is enough fuel. *)
Theorem merkle_terminates hash ids : exists d, merkle hash ids = Ok d.
Proof.
  destruct ids as [|d ids]; [by eexists|].
  destruct (is_depth_log2_up (length (d :: ids))) as [H1 H2]; [cbn; lia|].
  eexists. unfold merkle. eapply (merkle_loop_root hash); [|exact H1|exact H2]. cbn; lia.
Qed.

Definition xor_hash (p : digest * digest) : digest :=
  mk_digest (u64 (hash0 p.1 * 31 + hash0 p.2)) (hash1 p.1) (hash2 p.2) (hash3 p.1).

Lemma incremental_merkle_correct_witness :
  exists m, append_all xor_hash [mk_digest 1 2 3 4; mk_digest 5 6 7 8; mk_digest 9 10 11 12] empty_im = Some m /\
    merkle xor_hash [mk_digest 1 2 3 4; mk_digest 5 6 7 8; mk_digest 9 10 11 12] = Ok (get_root m).
Proof.
  destruct (incremental_merkle_correct xor_hash
              [mk_digest 1 2 3 4; mk_digest 5 6 7 8; mk_digest 9 10 11 12]) as (m & H1 & _ & H2);
    [cbn; lia|]. exists m. split; [exact H1|exact H2].
Defined.

(** The side of a node can be read off the node that went into the hash: the
    canonical marks of left and right inputs never coincide, and marking does
    not lose any other bit. *)
Theorem canonical_marks l r :
  is_canonical_left (make_canonical_left l) = true /\
  is_canonical_right (make_canonical_right r) = true /\
  make_canonical_left l <> make_canonical_right r /\
  (forall i, i <> 7 -> 0 <= i < 64 ->
     Z.testbit (hash0 (make_canonical_left l)) i = Z.testbit (hash0 l) i /\
     Z.testbit (hash0 (make_canonical_right r)) i = Z.testbit (hash0 r) i).
Proof.
  assert (forall i, 0 <= i < 64 -> Z.testbit 0xFFFFFFFFFFFFFF7F i = negb (i =? 7)) as Hm.
  { intros i Hi. apply eqb_true_iff. revert Hi.
    apply (seqZ_check (fun i => Bool.eqb (Z.testbit 0xFFFFFFFFFFFFFF7F i) (negb (i =? 7)))).
    vm_compute. reflexivity. }
  assert (forall i, 0 <= i -> Z.testbit 0x80 i = (i =? 7)) as Hs.
  { intros i Hi. change 0x80 with (2 ^ 7). rewrite Z.pow2_bits_eqb by lia. apply Z.eqb_sym. }
  assert (forall x, Z.land (Z.lor x 0x80) 0x80 <> 0) as Hr.
  { intros x E. apply (f_equal (fun z => Z.testbit z 7)) in E.
    rewrite Z.land_spec, Z.lor_spec, Hs, orb_true_r, Z.bits_0 in E by lia. done. }
  assert (forall x, Z.land (Z.land x 0xFFFFFFFFFFFFFF7F) 0x80 = 0) as Hl.
  { intros x. apply Z.bits_inj'. intros n Hn. rewrite !Z.land_spec, Z.bits_0, Hs by lia.
    destruct (n =? 7) eqn:?; bool_to_Z; [|by rewrite andb_false_r].
    subst. by rewrite Hm, andb_false_r by lia. }
  unfold is_canonical_left, is_canonical_right, make_canonical_left, make_canonical_right. cbn.
  split; [by rewrite Hl|]. split.
  { destruct (Z.eqb_spec (Z.land (Z.lor (hash0 r) 0x80) 0x80) 0) as [E|]; [by apply Hr in E|done]. }
  split.
  { intros [= E _ _ _]. apply (Hr (hash0 r)). rewrite <- E. apply Hl. }
  intros i Hne Hi. rewrite Z.land_spec, Z.lor_spec, Hm, Hs by lia.
  destruct (i =? 7) eqn:?; bool_to_Z; [lia|]. by rewrite andb_true_r, orb_false_r.
Qed.
