(* ===== verification/ForkDatabase.v ===== *)
(** * The fork database ([fork_database.cpp], [fork_database.hpp])

    The tree of blocks that are not yet irreversible.  Block states are shared
    objects: the multi-index, [root], [head] and the callers hold pointers to
    them, and [validated] is changed through those pointers, so the model has a
    heap.  An operation that throws before it changes anything yields no state;
    the two operations that can throw half way yield the state they leave. *)

From S2P Require Import Prelude Exceptions Types.

Module fork_database.

Definition ptr := positive.

(** [block_state], with what the fork database reads of it. [new_protocol_features]
    is the [protocol_feature_activation] header extension, if present. *)
Record block_state := mk_block_state {
  id : digest;
  block_num : Z;
  previous : digest;
  timestamp : Z;
  dpos_irreversible_blocknum : Z;
  activated_protocol_features : gset digest;
  new_protocol_features : option (list digest);
  validated : bool }.

#[export] Instance block_state_inhabited : Inhabited block_state :=
  populate (mk_block_state digest_zero 0 digest_zero 0 0 ∅ None false).

Definition set_validated (v : bool) (b : block_state) : block_state :=
  mk_block_state (id b) (block_num b) (previous b) (timestamp b)
    (dpos_irreversible_blocknum b) (activated_protocol_features b)
    (new_protocol_features b) v.

(** [fork_database_impl]; [index] holds the pointers in insertion order. *)
Record fork_db := mk_fork_db {
  heap : gmap ptr block_state;
  index : list ptr;
  root : option ptr;
  head : option ptr }.

Definition deref (d : fork_db) (p : ptr) : block_state := heap d !!! p.
Definition set_index (d : fork_db) (l : list ptr) : fork_db := mk_fork_db (heap d) l (root d) (head d).
Definition set_head (d : fork_db) (h : option ptr) : fork_db := mk_fork_db (heap d) (index d) (root d) h.
Definition set_root (d : fork_db) (r : option ptr) : fork_db := mk_fork_db (heap d) (index d) r (head d).
Definition set_heap (d : fork_db) (h : gmap ptr block_state) : fork_db :=
  mk_fork_db h (index d) (root d) (head d).

(** ** The three indices of [fork_multi_index_type] *)

(** [by_block_id] *)
Definition find_id (d : fork_db) (i : digest) : option ptr :=
  List.find (fun p => bool_decide (id (deref d p) = i)) (index d).
Definition erase_id (i : digest) (d : fork_db) : fork_db :=
  set_index d (List.filter (fun p => negb (bool_decide (id (deref d p) = i))) (index d)).

(** [by_prev]: the range of a key; equal keys are in insertion order. *)
Definition children (d : fork_db) (i : digest) : list ptr :=
  List.filter (fun p => bool_decide (previous (deref d p) = i)) (index d).

(** [by_lib_block_num]: valid blocks first, then the greater irreversible block
    number, then the greater block number, then the smaller id.  A component
    compared with [std::greater] is negated. *)
Definition lib_key (b : block_state) : list Z :=
  [if validated b then -1 else 0; - dpos_irreversible_blocknum b; - block_num b]
    ++ hash_words (id b).
Definition lib_le (d : fork_db) (p q : ptr) : Prop :=
  tie_less (lib_key (deref d q)) (lib_key (deref d p)) = false.
#[export] Instance lib_le_dec d : RelDecision (lib_le d) := fun p q => decide (_ = false).

Definition by_lib_block_num (d : fork_db) : list ptr := merge_sort (lib_le d) (index d).

Definition first_preferred (lhs rhs : block_state) : bool :=
  tie_less [dpos_irreversible_blocknum rhs; block_num rhs]
           [dpos_irreversible_blocknum lhs; block_num lhs].

(** ** Lookups *)

Definition get_block_impl (d : fork_db) (i : digest) : option ptr := find_id d i.

Definition get_block_header_impl (d : fork_db) (i : digest) : res (option ptr) :=
  r ← of_option undefined_behavior (root d);
  Ok (if bool_decide (id (deref d r) = i) then Some r else find_id d i).

(** ** Changing the tree *)

(** [std::make_shared] *)
Definition make_shared (d : fork_db) (b : block_state) : ptr * fork_db :=
  let p := fresh (dom (heap d)) in (p, set_heap d (<[p := b]> (heap d))).

(** [reset_impl]; [root_bhs] is the header part, its [validated] is not read. *)
Definition reset_impl (d : fork_db) (root_bhs : block_state) : fork_db :=
  let d := set_index d [] in
  let '(p, d) := make_shared d (set_validated true root_bhs) in
  set_head (set_root d (Some p)) (Some p).

Definition modify_validated (v : bool) (p : ptr) (d : fork_db) : fork_db :=
  set_heap d (<[p := set_validated v (deref d p)]> (heap d)).

Definition rollback_head_to_root_impl (d : fork_db) : fork_db :=
  let d := fold_left (fun d p => modify_validated false p d) (index d) d in
  set_head d (root d).

Section validator.
(** The callback that checks protocol feature activations. *)
Variable validator : Z -> gset digest -> list digest -> res unit.

Definition add_impl (d : fork_db) (n : option ptr) (ignore_duplicate validate : bool)
  : res fork_db :=
  _ ← sys_assert (bool_decide (is_Some (root d))) fork_database_exception;
  n ← of_option fork_database_exception n;
  prev_bh ← get_block_header_impl d (previous (deref d n));
  prev_bh ← of_option unlinkable_block_exception prev_bh;
  _ ← (if validate then
         rethrow_as fork_database_exception
           match new_protocol_features (deref d n) with
           | Some fs => validator (timestamp (deref d n))
                          (activated_protocol_features (deref d prev_bh)) fs
           | None => Ok tt
           end
       else Ok tt);
  match find_id d (id (deref d n)) with
  | Some _ => if ignore_duplicate then Ok d else Throw fork_database_exception
  | None =>
      let d := set_index d (index d ++ [n]) in
      match by_lib_block_num d with
      | candidate :: _ =>
          Ok (if validated (deref d candidate) then set_head d (Some candidate) else d)
      | [] => Throw undefined_behavior
      end
  end.
End validator.

Definition add (d : fork_db) (n : option ptr) (ignore_duplicate : bool) : res fork_db :=
  add_impl (fun _ _ _ => Ok tt) d n ignore_duplicate false.

(** The queue of [remove_impl]; [visited] are the positions below [i]. *)
Fixpoint remove_queue (fuel : nat) (d : fork_db) (head_id : digest)
    (visited todo : list digest) : res (list digest) :=
  match todo with
  | [] => Ok visited
  | x :: todo =>
      match fuel with
      | O => Throw fuel_exhausted
      | S fuel =>
          _ ← sys_assert (negb (bool_decide (x = head_id))) fork_database_exception;
          remove_queue fuel d head_id (visited ++ [x])
            (todo ++ map (fun p => id (deref d p)) (children d x))
      end
  end.

Definition remove_impl (d : fork_db) (i : digest) : res fork_db :=
  h ← of_option undefined_behavior (head d);
  q ← remove_queue (S (length (index d))) d (id (deref d h)) [] [i];
  Ok (fold_left (fun d i => erase_id i d) q d).

Definition mark_valid_impl (d : fork_db) (h : ptr) : res fork_db :=
  if validated (deref d h) then Ok d
  else
    p ← of_option fork_database_exception (find_id d (id (deref d h)));
    let d := modify_validated true p d in
    match by_lib_block_num d with
    | candidate :: _ =>
        h ← of_option undefined_behavior (head d);
        Ok (if first_preferred (deref d candidate) (deref d h)
            then set_head d (Some candidate) else d)
    | [] => Throw undefined_behavior
    end.

(** The loop of [advance_root_impl] that collects the ids below [b]. *)
Fixpoint collect_ancestors (fuel : nat) (d : fork_db) (root_id : digest) (b : ptr)
  : res (list digest) :=
  match fuel with
  | O => Throw fuel_exhausted
  | S fuel =>
      let prev := previous (deref d b) in
      match get_block_impl d prev with
      | Some b => l ← collect_ancestors fuel d root_id b; Ok (prev :: l)
      | None => _ ← sys_assert (bool_decide (prev = root_id)) fork_database_exception; Ok [prev]
      end
  end.

(** The removal loop; what was removed before a throw stays removed. *)
Fixpoint remove_all (d : fork_db) (ids : list digest) : fork_db * res unit :=
  match ids with
  | [] => (d, Ok tt)
  | i :: ids => match remove_impl d i with
                | Ok d => remove_all d ids
                | Throw e => (d, Throw e)
                end
  end.

Definition advance_root_prepare (d : fork_db) (i : digest) : res (ptr * list digest) :=
  r ← of_option fork_database_exception (root d);
  new_root ← of_option fork_database_exception (get_block_impl d i);
  _ ← sys_assert (validated (deref d new_root)) fork_database_exception;
  l ← collect_ancestors (length (index d)) d (id (deref d r)) new_root;
  Ok (new_root, l).

Definition advance_root_impl (d : fork_db) (i : digest) : fork_db * res unit :=
  match advance_root_prepare d i with
  | Throw e => (d, Throw e)
  | Ok (new_root, blocks_to_remove) =>
      match remove_all (erase_id i d) blocks_to_remove with
      | (d, Ok _) => (set_root d (Some new_root), Ok tt)
      | (d, Throw e) => (d, Throw e)
      end
  end.

(** ** Queries *)

Definition pending_head (d : fork_db) : res (option ptr) :=
  match List.find (fun p => negb (validated (deref d p))) (by_lib_block_num d) with
  | Some p =>
      h ← of_option undefined_behavior (head d);
      Ok (if first_preferred (deref d p) (deref d h) then Some p else head d)
  | None => Ok (head d)
  end.

Fixpoint fetch_branch_loop (fuel : nat) (d : fork_db) (s : option ptr) (trim : Z) : res (list ptr) :=
  match s with
  | None => Ok []
  | Some p =>
      match fuel with
      | O => Throw fuel_exhausted
      | S fuel =>
          l ← fetch_branch_loop fuel d (get_block_impl d (previous (deref d p))) trim;
          Ok (if block_num (deref d p) <=? trim then p :: l else l)
      end
  end.

Definition fetch_branch_impl (d : fork_db) (h : digest) (trim_after_block_num : Z) : res (list ptr) :=
  fetch_branch_loop (length (index d)) d (get_block_impl d h) trim_after_block_num.

Fixpoint search_on_branch_loop (fuel : nat) (d : fork_db) (s : option ptr) (num : Z)
  : res (option ptr) :=
  match s with
  | None => Ok None
  | Some p =>
      match fuel with
      | O => Throw fuel_exhausted
      | S fuel =>
          if block_num (deref d p) =? num then Ok (Some p)
          else search_on_branch_loop fuel d (get_block_impl d (previous (deref d p))) num
      end
  end.

Definition search_on_branch_impl (d : fork_db) (h : digest) (num : Z) : res (option ptr) :=
  search_on_branch_loop (length (index d)) d (get_block_impl d h) num.

(** [( i == root->id ) ? root : get_block_impl( i )] *)
Definition root_or_block (d : fork_db) (r : ptr) (i : digest) : option ptr :=
  if bool_decide (i = id (deref d r)) then Some r else get_block_impl d i.

(** The first two loops of [fetch_branch_from_impl]: walk down from [b] to the
    height [num]. *)
Fixpoint descend_to (fuel : nat) (d : fork_db) (r : ptr) (num : Z) (b : ptr) (acc : list ptr)
  : res (ptr * list ptr) :=
  if num <? block_num (deref d b) then
    match fuel with
    | O => Throw fuel_exhausted
    | S fuel =>
        b' ← of_option fork_db_block_not_found (root_or_block d r (previous (deref d b)));
        descend_to fuel d r num b' (acc ++ [b])
    end
  else Ok (b, acc).

(** The third loop: walk both sides down until they hang off the same block. *)
Fixpoint descend_both (fuel : nat) (d : fork_db) (b1 b2 : ptr) (l1 l2 : list ptr)
  : res (list ptr * list ptr) :=
  if bool_decide (previous (deref d b1) = previous (deref d b2)) then Ok (l1 ++ [b1], l2 ++ [b2])
  else
    match fuel with
    | O => Throw fuel_exhausted
    | S fuel =>
        let p1 := get_block_impl d (previous (deref d b1)) in
        let p2 := get_block_impl d (previous (deref d b2)) in
        b1' ← of_option fork_db_block_not_found p1;
        b2' ← of_option fork_db_block_not_found p2;
        descend_both fuel d b1' b2' (l1 ++ [b1]) (l2 ++ [b2])
    end.

Definition fetch_branch_from_impl (d : fork_db) (first second : digest)
  : res (list ptr * list ptr) :=
  r ← of_option undefined_behavior (root d);
  let first_branch := root_or_block d r first in
  let second_branch := root_or_block d r second in
  b1 ← of_option fork_db_block_not_found first_branch;
  b2 ← of_option fork_db_block_not_found second_branch;
  '(b1, l1) ← descend_to (length (index d)) d r (block_num (deref d b2)) b1 [];
  '(b2, l2) ← descend_to (length (index d)) d r (block_num (deref d b1)) b2 [];
  if bool_decide (id (deref d b1) = id (deref d b2)) then Ok (l1, l2)
  else descend_both (length (index d)) d b1 b2 l1 l2.

End fork_database.
