(* ===== verification/ForkTree.v ===== *)
(** * The fork database stays a tree

    Well-formedness of the fork database, preserved by every operation of
    [fork_database.cpp]; what [remove] and [advance_root] delete; and that the
    head is always a best valid block. *)

From S2P Require Import Prelude Exceptions Types ForkDatabase.
Import fork_database.

(** ** Well-formedness *)

(** A block's id carries its number, which is one more than its parent's. *)
Definition header_wf (b : block_state) : Prop :=
  num_from_id (id b) = block_num b /\ block_num b = num_from_id (previous b) + 1.

Definition ids (d : fork_db) : list digest := (fun p => id (deref d p)) <$> index d.

Record forest_wf (d : fork_db) : Prop := {
  fw_nodup : NoDup (ids d);
  fw_header : forall p, p ∈ index d -> header_wf (deref d p) }.

Record tree_wf (d : fork_db) (r : ptr) : Prop := {
  tw_forest : forest_wf d;
  tw_root : num_from_id (id (deref d r)) = block_num (deref d r);
  tw_above : forall p, p ∈ index d -> block_num (deref d r) < block_num (deref d p);
  tw_linked : forall p, p ∈ index d ->
    exists q, (q = r \/ q ∈ index d) /\ previous (deref d p) = id (deref d q) }.

(** [x] descends from [a] by blocks of the index; [a] need not be one. *)
Inductive desc (d : fork_db) (a : digest) : digest -> Prop :=
| desc_refl : desc d a a
| desc_step p : p ∈ index d -> desc d a (previous (deref d p)) -> desc d a (id (deref d p)).
#[export] Hint Constructors desc : chain.

Record fdb_wf (d : fork_db) (r h : ptr) : Prop := {
  wf_root : root d = Some r;
  wf_head : head d = Some h;
  wf_tree : tree_wf d r;
  wf_head_in : h = r \/ h ∈ index d;
  wf_alive : forall p, p = r \/ p ∈ index d -> is_Some (heap d !! p);
  wf_root_valid : validated (deref d r) = true;
  wf_head_valid : validated (deref d h) = true;
  wf_best : forall p, p ∈ index d -> validated (deref d p) = true ->
    first_preferred (deref d p) (deref d h) = false }.

(** ** Lookup by id *)

Lemma find_id_Some d i p : find_id d i = Some p -> p ∈ index d /\ id (deref d p) = i.
Proof.
  unfold find_id. intros [Hin Hp]%find_some. by apply list_elem_of_In in Hin; case_bool_decide.
Qed.

Lemma elem_of_ids d i : i ∈ ids d <-> exists p, p ∈ index d /\ id (deref d p) = i.
Proof. unfold ids. rewrite list_elem_of_fmap. naive_solver. Qed.

Lemma find_id_None d i : find_id d i = None <-> i ∉ ids d.
Proof.
  rewrite elem_of_ids. split.
  - intros H (p & Hp%list_elem_of_In & <-).
    pose proof (find_none _ _ H p Hp) as E. cbn in E. by case_bool_decide.
  - intros H. destruct (find_id d i) as [p|] eqn:E; [|done].
    apply find_id_Some in E. naive_solver.
Qed.

Lemma find_id_in d p : forest_wf d -> p ∈ index d -> find_id d (id (deref d p)) = Some p.
Proof.
  intros Hf Hp. destruct (find_id d _) as [q|] eqn:E.
  - apply find_id_Some in E as [Hq E]. f_equal. eapply NoDup_fmap_inj; [apply Hf|..]; done.
  - apply find_id_None in E. rewrite elem_of_ids in E. naive_solver.
Qed.

Lemma forest_inj d p q :
  forest_wf d -> p ∈ index d -> q ∈ index d -> id (deref d p) = id (deref d q) -> p = q.
Proof. intros Hf. apply (NoDup_fmap_inj (fun p => id (deref d p)) (index d)), Hf. Qed.

(** The root's id is not in the index: the numbers differ. *)
Lemma root_not_in_ids d r p :
  tree_wf d r -> p ∈ index d -> id (deref d p) <> id (deref d r).
Proof.
  intros Ht Hp E. pose proof (tw_above _ _ Ht p Hp). pose proof (tw_root _ _ Ht).
  destruct (fw_header _ (tw_forest _ _ Ht) p Hp) as [Hn _]. rewrite E in Hn. lia.
Qed.

(** The parent of a block: the root, or the block [get_block_impl] finds. *)
Lemma parent_cases d r p :
  tree_wf d r -> p ∈ index d ->
  (previous (deref d p) = id (deref d r) /\ get_block_impl d (previous (deref d p)) = None) \/
  exists q, get_block_impl d (previous (deref d p)) = Some q /\ q ∈ index d /\
    previous (deref d p) = id (deref d q) /\ block_num (deref d p) = block_num (deref d q) + 1.
Proof.
  intros Ht Hp. pose proof (tw_forest _ _ Ht) as Hf.
  destruct (fw_header _ Hf p Hp) as [_ Hn]. destruct (tw_linked _ _ Ht p Hp) as (q & [->|Hq] & E).
  - left. split; [done|]. apply find_id_None. intros (q & Hq & Eq)%elem_of_ids.
    eapply root_not_in_ids; [done..|]. by rewrite Eq, E.
  - right. exists q. destruct (fw_header _ Hf q Hq) as [Hq' _]. unfold get_block_impl. rewrite E.
    rewrite find_id_in by done. split_and!; [done..|]. rewrite Hn, E, Hq'. done.
Qed.

(** ** Descendants *)

Lemma desc_num d a x : forest_wf d -> desc d a x -> num_from_id a <= num_from_id x.
Proof.
  intros Hf. induction 1 as [|p Hp _ IH]; [lia|].
  destruct (fw_header _ Hf p Hp) as [-> ->]. lia.
Qed.

(** A block that descends from [a] is [a], or its parent descends from [a]. *)
Lemma desc_inv d a p :
  forest_wf d -> p ∈ index d -> desc d a (id (deref d p)) ->
  a = id (deref d p) \/ desc d a (previous (deref d p)).
Proof.
  intros Hf Hp H. inversion H as [|q Hq Hd E]; [by left|right].
  by apply forest_inj in E as ->.
Qed.

Lemma desc_trans d a x y : desc d a x -> desc d x y -> desc d a y.
Proof. intros H. induction 1; eauto with chain. Qed.

(** Nothing that descends from a block's children comes back to the block. *)
Lemma desc_acyclic d a p : forest_wf d -> p ∈ index d -> desc d a (previous (deref d p)) ->
  id (deref d p) <> a.
Proof.
  intros Hf Hp H%desc_num E; [|done]. destruct (fw_header _ Hf p Hp). subst a. lia.
Qed.

Lemma tree_desc_root d r p : tree_wf d r -> p ∈ index d -> desc d (id (deref d r)) (id (deref d p)).
Proof.
  intros Ht. remember (Z.to_nat (block_num (deref d p) - block_num (deref d r))) as n eqn:En.
  revert p En. induction n as [n IH] using lt_wf_ind. intros p -> Hp.
  pose proof (tw_above _ _ Ht p Hp). apply desc_step; [done|].
  destruct (parent_cases d r p Ht Hp) as [[-> _]|(q & _ & Hq & -> & Hn)]; [constructor|].
  pose proof (tw_above _ _ Ht q Hq). eapply IH; [|done|done]. lia.
Qed.

(** ** [remove_impl] *)

Lemma elem_of_children d i p : p ∈ children d i <-> p ∈ index d /\ previous (deref d p) = i.
Proof. unfold children. rewrite elem_of_List_filter. by case_bool_decide; naive_solver. Qed.

Lemma elem_of_child_ids d i x :
  x ∈ map (fun p => id (deref d p)) (children d i) <->
  exists p, p ∈ index d /\ previous (deref d p) = i /\ id (deref d p) = x.
Proof.
  rewrite list_elem_of_In, in_map_iff. setoid_rewrite <- list_elem_of_In.
  setoid_rewrite elem_of_children. naive_solver.
Qed.

(** State of the removal queue for [i]. *)
Record queue_wf (d : fork_db) (i head_id : digest) (visited todo : list digest) : Prop := {
  qw_nodup : NoDup (visited ++ todo);
  qw_first : i ∈ visited ++ todo;
  qw_desc : forall x, x ∈ visited ++ todo -> desc d i x;
  qw_origin : forall x, x ∈ visited ++ todo -> x = i \/
    exists p, p ∈ index d /\ id (deref d p) = x /\ previous (deref d p) ∈ visited;
  qw_closed : forall p, p ∈ index d -> previous (deref d p) ∈ visited ->
    id (deref d p) ∈ visited ++ todo;
  qw_head : head_id ∉ visited }.

Lemma queue_wf_length d i h visited todo :
  queue_wf d i h visited todo -> (length visited + length todo <= S (length (index d)))%nat.
Proof.
  intros Q. rewrite <- length_app. transitivity (length (i :: ids d)).
  - apply NoDup_incl_length; [apply NoDup_ListNoDup, Q|]. intros x Hx%list_elem_of_In.
    apply list_elem_of_In, elem_of_cons. destruct (qw_origin _ _ _ _ _ Q x Hx) as [|(p&?&?&?)]; [auto|].
    right. apply elem_of_ids. eauto.
  - unfold ids. cbn. by rewrite length_fmap.
Qed.

Lemma queue_wf_step d i h visited x todo :
  forest_wf d -> queue_wf d i h visited (x :: todo) -> x <> h ->
  queue_wf d i h (visited ++ [x]) (todo ++ map (fun p => id (deref d p)) (children d x)).
Proof.
  intros Hf Q Hx. set (cs := map _ _).
  assert ((visited ++ [x]) ++ todo ++ cs = (visited ++ x :: todo) ++ cs) as Eq.
  { by rewrite <- !app_assoc. }
  pose proof (qw_nodup _ _ _ _ _ Q) as Hnd.
  assert (x ∉ visited) as Hxv.
  { apply NoDup_app in Hnd as (_ & Hd & _). intros ?. eapply Hd; [done|]. by left. }
  split; rewrite ?Eq.
  - apply NoDup_app. split_and!; [done| |].
    + intros y Hy (p & Hp & Ep & <-)%elem_of_child_ids.
      destruct (qw_origin _ _ _ _ _ Q _ Hy) as [E|(q & Hq & E & Hv)].
      * eapply desc_acyclic; [done|exact Hp| |exact E]. rewrite Ep. apply Q. set_solver.
      * apply forest_inj in E as ->; [|done..]. by rewrite Ep in Hv.
    + unfold cs, children. apply NoDup_fmap_filter, Hf.
  - apply elem_of_app. left. apply Q.
  - intros y [Hy|(p & Hp & Ep & <-)%elem_of_child_ids]%elem_of_app; [by apply Q|].
    apply desc_step; [done|]. rewrite Ep. apply Q. set_solver.
  - intros y [Hy|(p & Hp & Ep & <-)%elem_of_child_ids]%elem_of_app.
    + destruct (qw_origin _ _ _ _ _ Q _ Hy) as [|(q & ? & ? & ?)]; [auto|].
      right. exists q. split_and!; [done..|]. set_solver.
    + right. exists p. split_and!; [done..|]. set_solver.
  - intros p Hp [Hv|Hv%list_elem_of_singleton]%elem_of_app; apply elem_of_app.
    + left. by apply Q.
    + right. apply elem_of_child_ids. eauto.
  - rewrite elem_of_app, list_elem_of_singleton. intros [?|?]; [by apply (qw_head _ _ _ _ _ Q)|congruence].
Qed.

(** The queue is the set of descendants; the loop throws only when the head is one. *)
Lemma remove_queue_spec d i h fuel visited todo :
  forest_wf d -> queue_wf d i h visited todo -> (S (length (index d)) <= fuel + length visited)%nat ->
  (exists q, remove_queue fuel d h visited todo = Ok q /\
     (forall x, x ∈ q <-> desc d i x) /\ ~ desc d i h) \/
  (remove_queue fuel d h visited todo = Throw fork_database_exception /\ desc d i h).
Proof.
  intros Hf. revert visited todo; induction fuel as [|fuel IH]; intros visited [|x todo] Q Hfuel.
  1, 3: left; exists visited;
    assert (forall y, y ∈ visited <-> desc d i y) as Hiff;
    [ intros y; split; [intros; apply Q; rewrite app_nil_r; done|];
      induction 1 as [|p Hp _ IH']; [by pose proof (qw_first _ _ _ _ _ Q) as H; rewrite app_nil_r in H|];
      pose proof (qw_closed _ _ _ _ _ Q p Hp IH') as H; by rewrite app_nil_r in H
    | split_and!; [by cbn|done|]; rewrite <- Hiff; apply Q ].
  - apply queue_wf_length in Q. cbn in *. lia.
  - cbn [remove_queue]. destruct (decide (x = h)) as [->|Hx].
    + right. rewrite bind_assert_fails; [|by rewrite bool_decide_eq_true_2]. split; [done|].
      apply Q. set_solver.
    + rewrite bind_assert; [|by rewrite bool_decide_eq_false_2].
      apply IH; [by apply queue_wf_step|]. rewrite length_app. cbn. lia.
Qed.

(** [d'] is [d] with some blocks taken out of the index. *)
Definition shrinks (d d' : fork_db) : Prop :=
  exists f, d' = set_index d (List.filter f (index d)).

Lemma shrinks_refl d : shrinks d d.
Proof.
  exists (fun _ => true). destruct d as [h l r hd]; unfold set_index; cbn. f_equal.
  induction l as [|x l IH]; cbn; congruence.
Qed.

Lemma shrinks_trans d1 d2 d3 : shrinks d1 d2 -> shrinks d2 d3 -> shrinks d1 d3.
Proof.
  intros [f ->] [g ->]. exists (fun p => f p && g p). unfold set_index; cbn. f_equal.
  induction (index d1) as [|x l IH]; cbn; [done|]. destruct (f x); cbn; [|done].
  destruct (g x); congruence.
Qed.

Lemma shrinks_fields d d' : shrinks d d' ->
  heap d' = heap d /\ root d' = root d /\ head d' = head d /\
  (forall p, deref d' p = deref d p) /\ (forall p, p ∈ index d' -> p ∈ index d).
Proof. intros [f ->]. split_and!; try done. intros p [? _]%elem_of_List_filter. done. Qed.

Lemma shrinks_forest d d' : forest_wf d -> shrinks d d' -> forest_wf d'.
Proof.
  intros Hf [f ->]. split.
  - apply NoDup_fmap_filter, Hf.
  - intros p [? _]%elem_of_List_filter. by apply Hf.
Qed.

Lemma desc_shrinks d d' a x : shrinks d d' -> desc d' a x -> desc d a x.
Proof.
  intros (_ & _ & _ & Hd & Hi)%shrinks_fields. induction 1 as [|p Hp _ IH]; [constructor|].
  rewrite Hd in *. constructor; auto.
Qed.

Lemma erase_all_spec d q :
  let d' := fold_left (fun d i => erase_id i d) q d in
  shrinks d d' /\ forall p, p ∈ index d' <-> p ∈ index d /\ id (deref d p) ∉ q.
Proof.
  revert d; induction q as [|i q IH]; intros d; cbn.
  - split; [apply shrinks_refl|]. intros p. rewrite elem_of_nil. naive_solver.
  - destruct (IH (erase_id i d)) as [H1 H2].
    assert (shrinks d (erase_id i d)) as Hs by (unfold erase_id, shrinks; eauto).
    split; [by eapply shrinks_trans|]. intros p. rewrite H2. unfold erase_id; cbn.
    rewrite elem_of_List_filter, elem_of_cons.
    change (deref (set_index _ _) p) with (deref d p). case_bool_decide; naive_solver.
Qed.

Lemma queue_wf_init d i h : queue_wf d i h [] [i].
Proof.
  split; cbn.
  - apply NoDup_singleton.
  - by left.
  - intros x ->%list_elem_of_singleton. constructor.
  - intros x ->%list_elem_of_singleton. by left.
  - intros p _ []%elem_of_nil.
  - apply not_elem_of_nil.
Qed.

Lemma remove_impl_cases d i h :
  forest_wf d -> head d = Some h ->
  (~ desc d i (id (deref d h)) /\ exists d', remove_impl d i = Ok d' /\ shrinks d d' /\
     forall p, p ∈ index d' <-> p ∈ index d /\ ~ desc d i (id (deref d p))) \/
  (desc d i (id (deref d h)) /\ remove_impl d i = Throw fork_database_exception).
Proof.
  intros Hf Hh. unfold remove_impl. rewrite Hh. cbn [of_option mbind result_bind].
  destruct (remove_queue_spec d i (id (deref d h)) (S (length (index d))) [] [i])
    as [(q & -> & Hq & Hn)|[-> Hd]]; [done|apply queue_wf_init|cbn; lia| |]; cbn [mbind result_bind].
  - left. split; [done|]. destruct (erase_all_spec d q) as [Hs Hi]. eexists; split; [done|].
    split; [done|]. intros p. rewrite Hi, Hq. done.
  - by right.
Qed.

(** Removing the descendants of a block keeps the tree. *)
Lemma remove_tree d d' i r :
  tree_wf d r -> shrinks d d' ->
  (forall p, p ∈ index d' <-> p ∈ index d /\ ~ desc d i (id (deref d p))) -> tree_wf d' r.
Proof.
  intros Ht Hs Hi. pose proof (shrinks_fields _ _ Hs) as (_ & _ & _ & Hd & Hsub).
  split.
  - eapply shrinks_forest; [apply (tw_forest _ _ Ht)|done].
  - rewrite Hd. apply (tw_root _ _ Ht).
  - intros p Hp. rewrite !Hd. apply (tw_above _ _ Ht). auto.
  - intros p Hp. pose proof Hp as [Hp' Hn]%Hi.
    destruct (tw_linked _ _ Ht p Hp') as (q & Hq & E). exists q. rewrite !Hd. split; [|done].
    destruct Hq as [|Hq]; [auto|right]. apply Hi. split; [done|]. contradict Hn.
    constructor; [done|]. by rewrite E.
Qed.

(** ** The best block *)

Lemma lib_key_length b : length (lib_key b) = 7%nat.
Proof. done. Qed.

#[export] Instance lib_le_total d : Total (lib_le d).
Proof.
  intros p q. unfold lib_le. destruct (tie_less (lib_key (deref d q)) _) eqn:H; [right|by left].
  destruct (tie_less (lib_key (deref d p)) _) eqn:H'; [|done].
  by rewrite <- (tie_less_irrefl (lib_key (deref d p))), (tie_less_trans _ _ _ H' H).
Qed.

#[export] Instance lib_le_trans d : Transitive (lib_le d).
Proof. intros p q s H1 H2. eapply tie_less_false_trans; [..|exact H2|exact H1]; done. Qed.

(** [by_lib_block_num().begin()] is a least block in the order of the index. *)
Lemma by_lib_begin d c l :
  by_lib_block_num d = c :: l -> c ∈ index d /\ forall q, q ∈ index d -> lib_le d c q.
Proof.
  intros E. pose proof (merge_sort_Permutation (lib_le d) (index d)) as Hp.
  pose proof (StronglySorted_merge_sort (lib_le d) (index d)) as Hs.
  unfold by_lib_block_num in E. rewrite E in Hp, Hs.
  split; [rewrite <- Hp; by left|]. intros q. rewrite <- Hp, elem_of_cons.
  apply StronglySorted_inv in Hs as [_ Hall]. rewrite Forall_forall in Hall.
  intros [->|Hq]; [|by apply Hall]. apply tie_less_irrefl.
Qed.

Lemma by_lib_nil d : by_lib_block_num d = [] -> index d = [].
Proof.
  intros E. pose proof (merge_sort_Permutation (lib_le d) (index d)) as Hp.
  unfold by_lib_block_num in E. rewrite E in Hp. by apply Permutation_nil_l in Hp.
Qed.

(** What the order says about two blocks of the index. *)
Lemma lib_le_valid d c q :
  lib_le d c q -> validated (deref d q) = true ->
  validated (deref d c) = true /\ first_preferred (deref d q) (deref d c) = false.
Proof.
  unfold lib_le, lib_key, first_preferred. intros H Hv. rewrite Hv in H. cbn in *.
  destruct (validated (deref d c)); cbn in H; [|done]. split; [done|].
  apply orb_false_iff in H as [H1 H2]. apply orb_false_iff. split; [lia|].
  destruct (_ =? _) eqn:E in |- *; [|done]. cbn. bool_to_Z.
  rewrite E, Z.eqb_refl in H2. cbn in H2. apply orb_false_iff in H2 as [H2 _].
  rewrite andb_false_r, orb_false_r. lia.
Qed.

Lemma first_preferred_irrefl b : first_preferred b b = false.
Proof. apply tie_less_irrefl. Qed.

Lemma first_preferred_false_trans a b c :
  first_preferred a b = false -> first_preferred b c = false -> first_preferred a c = false.
Proof. intros H1 H2. eapply tie_less_false_trans; [..|exact H2|exact H1]; done. Qed.

(** When any block of the index is valid, the first one is, and none is preferred to it. *)
Lemma begin_best d c l p :
  by_lib_block_num d = c :: l -> p ∈ index d -> validated (deref d p) = true ->
  validated (deref d c) = true /\ first_preferred (deref d p) (deref d c) = false.
Proof. intros [_ H]%by_lib_begin Hp. by apply lib_le_valid, H. Qed.

(** ** Operations keep the fork database well formed *)

(** Block states that differ at most in [validated]. *)
Definition same_shape (a b : block_state) : Prop := set_validated false a = set_validated false b.

Lemma same_shape_fields a b : same_shape a b ->
  id a = id b /\ block_num a = block_num b /\ previous a = previous b /\
  dpos_irreversible_blocknum a = dpos_irreversible_blocknum b.
Proof. unfold same_shape, set_validated. intros H. by injection H. Qed.

Lemma same_shape_tree d d' r :
  index d' = index d -> (forall p, p = r \/ p ∈ index d -> same_shape (deref d' p) (deref d p)) ->
  tree_wf d r -> tree_wf d' r.
Proof.
  intros Ei Hs Ht.
  assert (forall p, p = r \/ p ∈ index d -> id (deref d' p) = id (deref d p) /\
    block_num (deref d' p) = block_num (deref d p) /\ previous (deref d' p) = previous (deref d p)) as H.
  { intros p Hp. destruct (same_shape_fields _ _ (Hs p Hp)) as (?&?&?&?). done. }
  split.
  - split.
    + replace (ids d') with (ids d); [apply (tw_forest _ _ Ht)|]. unfold ids. rewrite Ei.
      apply list_fmap_ext. intros k p Hp%list_elem_of_lookup_2. symmetry. apply H. auto.
    + intros p Hp. rewrite Ei in Hp. unfold header_wf. destruct (H p) as (-> & -> & ->); [auto|].
      by apply (tw_forest _ _ Ht).
  - destruct (H r) as (-> & -> & _); [auto|]. apply (tw_root _ _ Ht).
  - intros p Hp. rewrite Ei in Hp. destruct (H r) as (_ & -> & _); [auto|].
    destruct (H p) as (_ & -> & _); [auto|]. by apply (tw_above _ _ Ht).
  - intros p Hp. rewrite Ei in *. destruct (tw_linked _ _ Ht p Hp) as (q & Hq & E). exists q.
    split; [done|]. destruct (H p) as (_ & _ & ->); [auto|]. destruct (H q) as (-> & _); auto.
Qed.

Lemma deref_modify d v p q :
  deref (modify_validated v p d) q =
  if decide (q = p) then set_validated v (deref d p) else deref d q.
Proof.
  unfold deref, modify_validated, set_heap; cbn. destruct (decide (q = p)) as [->|].
  - by rewrite lookup_total_insert_eq.
  - by rewrite lookup_total_insert_ne.
Qed.

Lemma modify_shape d v p q : same_shape (deref (modify_validated v p d) q) (deref d q).
Proof. rewrite deref_modify. by destruct (decide (q = p)) as [->|]. Qed.

(** [first_preferred] does not read [validated]. *)
Lemma first_preferred_shape a a' b b' :
  same_shape a a' -> same_shape b b' -> first_preferred a b = first_preferred a' b'.
Proof.
  intros (_ & E1 & _ & E2)%same_shape_fields (_ & E3 & _ & E4)%same_shape_fields.
  unfold first_preferred. by rewrite E1, E2, E3, E4.
Qed.

Lemma root_not_in_index d r : tree_wf d r -> r ∉ index d.
Proof. intros Ht Hr. by eapply root_not_in_ids in Hr. Qed.

Lemma reset_wf d b :
  num_from_id (id b) = block_num b ->
  let p := fresh (dom (heap d)) in fdb_wf (reset_impl d b) p p.
Proof.
  intros Hn p. change (reset_impl d b) with
    (mk_fork_db (<[p := set_validated true b]> (heap d)) [] (Some p) (Some p)).
  clearbody p. set (d' := mk_fork_db _ _ _ _).
  assert (deref d' p = set_validated true b) as E by apply lookup_total_insert_eq.
  assert (forall q, q ∉ index d') as Hnil by (intros q; apply not_elem_of_nil).
  split; try done; try (intros q Hq; by destruct (Hnil q)).
  - split; [split; [constructor|]|by rewrite E|..]; intros q Hq; by destruct (Hnil q).
  - by left.
  - intros q [->|Hq]; [|by destruct (Hnil q)]. exists (set_validated true b). apply lookup_insert_eq.
  - by rewrite E.
  - by rewrite E.
Qed.

Lemma modify_all_spec v l d :
  let d' := fold_left (fun d p => modify_validated v p d) l d in
  index d' = index d /\ root d' = root d /\ head d' = head d /\
  (forall p, is_Some (heap d !! p) -> is_Some (heap d' !! p)) /\
  forall p, deref d' p = if decide (p ∈ l) then set_validated v (deref d p) else deref d p.
Proof.
  revert d; induction l as [|q l IH]; intros d; cbn.
  - split_and!; auto.
  - destruct (IH (modify_validated v q d)) as (-> & -> & -> & Hs & Hd). split_and!; [done..| |].
    + intros p Hp. apply Hs. cbn. destruct (decide (p = q)) as [->|];
        [rewrite lookup_insert_eq|rewrite lookup_insert_ne]; eauto.
    + intros p. rewrite Hd, !deref_modify. clear.
      destruct (decide (p ∈ q :: l)) as [[->|H]%elem_of_cons|H].
      * rewrite (decide_True (P := q = q)) by done. by destruct (decide _).
      * rewrite (decide_True (P := p ∈ l)) by done. by destruct (decide _) as [->|].
      * rewrite not_elem_of_cons in H. destruct H. by rewrite !decide_False.
Qed.

Lemma rollback_wf d r h : fdb_wf d r h -> fdb_wf (rollback_head_to_root_impl d) r r.
Proof.
  intros W. unfold rollback_head_to_root_impl.
  destruct (modify_all_spec false (index d) d) as (Ei & Er & Eh & Hs & Hd).
  set (d1 := fold_left _ _ _) in *. clearbody d1.
  rewrite Er, (wf_root _ _ _ W). pose proof (wf_tree _ _ _ W) as Ht.
  pose proof (root_not_in_index _ _ Ht) as Hr.
  assert (validated (deref d1 r) = true) as Hv by (rewrite Hd, decide_False by done; apply W).
  split; cbn; rewrite ?Ei; try done.
  - by rewrite Er, (wf_root _ _ _ W).
  - eapply same_shape_tree; [..|exact Ht]; [done|]. intros p _.
    change (deref (set_head _ _) p) with (deref d1 p). rewrite Hd. by destruct (decide _).
  - by left.
  - intros p Hp. by apply Hs, (wf_alive _ _ _ W).
  - intros p Hp. change (deref (set_head _ _) p) with (deref d1 p). by rewrite Hd, decide_True.
Qed.

Lemma tree_wf_set_head d r h : tree_wf d r -> tree_wf (set_head d h) r.
Proof. by apply same_shape_tree. Qed.

Lemma mark_valid_wf d r h p d' :
  fdb_wf d r h -> mark_valid_impl d p = Ok d' -> exists h', fdb_wf d' r h'.
Proof.
  intros W. unfold mark_valid_impl. destruct (validated (deref d p)); [intros [= <-]; eauto|].
  intros (q & [Hq _]%of_option_Ok%find_id_Some & H)%bind_Ok.
  set (d1 := modify_validated true q d) in *.
  assert (index d1 = index d) as Ei by done.
  assert (forall x, x = r \/ x ∈ index d -> is_Some (heap d1 !! x)) as Ha.
  { intros x Hx. cbn. destruct (decide (x = q)) as [->|];
      [rewrite lookup_insert_eq; eauto|rewrite lookup_insert_ne by done]. by apply W. }
  assert (tree_wf d1 r) as Ht.
  { eapply same_shape_tree; [done|intros; apply modify_shape|apply W]. }
  assert (validated (deref d1 q) = true) as Hqv.
  { unfold d1. by rewrite deref_modify, decide_True. }
  assert (forall x, validated (deref d x) = true -> validated (deref d1 x) = true) as Hkeep.
  { intros x Hx. unfold d1. rewrite deref_modify. by destruct (decide _). }
  destruct (by_lib_block_num d1) as [|c l] eqn:Hc; [done|].
  change (head d1) with (head d) in H. rewrite (wf_head _ _ _ W) in H.
  cbn [of_option mbind result_bind] in H. injection H as <-.
  pose proof (by_lib_begin _ _ _ Hc) as [Hcin _]. rewrite Ei in Hcin.
  destruct (begin_best _ _ _ _ Hc Hq Hqv) as [Hcv _].
  pose proof (wf_root _ _ _ W). pose proof (Hkeep _ (wf_root_valid _ _ _ W)).
  destruct (first_preferred (deref d1 c) (deref d1 h)) eqn:Hfp; [exists c|exists h].
  - split; [done|done|by apply tree_wf_set_head|by right|done|done|done|].
    intros x Hx Hxv. by eapply begin_best.
  - split; [done|apply (wf_head _ _ _ W)|done|apply (wf_head_in _ _ _ W)|done|done| |].
    + apply Hkeep, (wf_head_valid _ _ _ W).
    + intros x Hx Hxv. eapply first_preferred_false_trans; [|done]. by eapply begin_best.
Qed.

Lemma remove_wf d r h i d' :
  fdb_wf d r h -> remove_impl d i = Ok d' -> fdb_wf d' r h.
Proof.
  intros W H. pose proof (wf_tree _ _ _ W) as Ht.
  destruct (remove_impl_cases d i h (tw_forest _ _ Ht) (wf_head _ _ _ W))
    as [(Hn & d1 & E & Hs & Hi)|[_ E]]; [|congruence].
  rewrite E in H. injection H as <-. pose proof (shrinks_fields _ _ Hs) as (Hh & Hr & Hd & Hde & Hsub).
  split; rewrite ?Hr, ?Hd, ?Hde; [apply W|apply W|by eapply remove_tree|..].
  - destruct (wf_head_in _ _ _ W) as [|Hin]; [by left|right]. by apply Hi.
  - intros p Hp. rewrite Hh. apply (wf_alive _ _ _ W). naive_solver.
  - apply (wf_root_valid _ _ _ W).
  - apply (wf_head_valid _ _ _ W).
  - intros p Hp. rewrite Hde. apply (wf_best _ _ _ W). auto.
Qed.

(** What a call of [add_impl] that returns has done. *)
Lemma add_impl_Ok validator d n ign val r d' :
  root d = Some r -> add_impl validator d (Some n) ign val = Ok d' ->
  exists q, (q = r \/ q ∈ index d) /\ previous (deref d n) = id (deref d q) /\
    ((id (deref d n) ∈ ids d /\ d' = d) \/
     (id (deref d n) ∉ ids d /\ exists c l, let d1 := set_index d (index d ++ [n]) in
        by_lib_block_num d1 = c :: l /\
        d' = if validated (deref d1 c) then set_head d1 (Some c) else d1)).
Proof.
  intros Hr. unfold add_impl, get_block_header_impl. rewrite Hr.
  rewrite bind_assert by (apply bool_decide_eq_true_2; eauto). cbn [of_option mbind result_bind].
  intros (q & Hq%of_option_Ok & H)%bind_Ok. exists q.
  apply bind_Ok in H as (_ & _ & H).
  assert ((q = r \/ q ∈ index d) /\ previous (deref d n) = id (deref d q)) as [Hin Hp].
  { case_bool_decide; simplify_eq; [auto|]. apply find_id_Some in Hq as [? <-]. auto. }
  split_and!; [done..|].
  - destruct (find_id d (id (deref d n))) as [x|] eqn:Hf.
    + left. apply find_id_Some in Hf as [? Hx]. split; [apply elem_of_ids; eauto|].
      destruct ign; by inv_res.
    + right. apply find_id_None in Hf. split; [done|].
      destruct (by_lib_block_num _) as [|c l] eqn:Hc; [done|]. injection H as <-. eauto.
Qed.

Lemma add_tree d r n q :
  tree_wf d r -> header_wf (deref d n) -> (q = r \/ q ∈ index d) ->
  previous (deref d n) = id (deref d q) -> id (deref d n) ∉ ids d ->
  tree_wf (set_index d (index d ++ [n])) r.
Proof.
  intros Ht Hn Hq Hp Hnew. split; cbn.
  - split.
    + unfold ids; cbn. rewrite fmap_app. apply NoDup_app. split_and!.
      * apply (tw_forest _ _ Ht).
      * intros x Hx ->%list_elem_of_singleton. done.
      * apply NoDup_singleton.
    + cbn. intros p [Hin| ->%list_elem_of_singleton]%elem_of_app; [by apply (tw_forest _ _ Ht)|done].
  - apply (tw_root _ _ Ht).
  - intros p [Hin| ->%list_elem_of_singleton]%elem_of_app; [by apply (tw_above _ _ Ht)|].
    change (block_num (deref d r) < block_num (deref d n)). destruct Hn as [_ ->]. rewrite Hp.
    destruct Hq as [->|Hq]; [rewrite (tw_root _ _ Ht); lia|].
    destruct (fw_header _ (tw_forest _ _ Ht) q Hq) as [-> _]. pose proof (tw_above _ _ Ht q Hq). lia.
  - intros p [Hin| ->%list_elem_of_singleton]%elem_of_app.
    + destruct (tw_linked _ _ Ht p Hin) as (x & Hx & E). exists x. rewrite elem_of_app. naive_solver.
    + exists q. rewrite elem_of_app. naive_solver.
Qed.

Lemma add_wf validator d r h n ign val d' :
  fdb_wf d r h -> is_Some (heap d !! n) -> header_wf (deref d n) ->
  add_impl validator d (Some n) ign val = Ok d' -> exists h', fdb_wf d' r h'.
Proof.
  intros W Ha Hn (q & Hq & Hp & H)%(add_impl_Ok _ _ _ _ _ r); [|apply W].
  destruct H as [[_ ->]|(Hnew & c & l & Hc & ->)]; [eauto|].
  set (d1 := set_index d (index d ++ [n])) in *.
  assert (tree_wf d1 r) as Ht by (eapply add_tree; [apply (wf_tree _ _ _ W)|done..]).
  assert (forall p, p = r \/ p ∈ index d1 -> is_Some (heap d1 !! p)) as Hal.
  { intros p [->|[Hin| ->%list_elem_of_singleton]%elem_of_app]; [|..|done];
      apply (wf_alive _ _ _ W); auto. }
  pose proof (wf_root _ _ _ W). pose proof (wf_root_valid _ _ _ W) as Hrv.
  change (deref d r) with (deref d1 r) in Hrv.
  destruct (validated (deref d1 c)) eqn:Hcv; [exists c|exists h].
  - split; [done|done|by apply tree_wf_set_head|right; eapply by_lib_begin, Hc|done|done|done|].
    intros p Hp'. by eapply begin_best.
  - split; [done|apply (wf_head _ _ _ W)|done| |done|done|apply (wf_head_valid _ _ _ W)|].
    + destruct (wf_head_in _ _ _ W); [by left|right]. apply elem_of_app. auto.
    + intros p Hp' Hv. exfalso. destruct (begin_best _ _ _ _ Hc Hp' Hv). congruence.
Qed.

(** ** [advance_root_impl] *)

(** Number of blocks at or below the height of [p]: the length of a walk from
    [p] towards the root is at most that. *)
Definition rank (d : fork_db) (p : ptr) : nat :=
  length (List.filter (fun q => block_num (deref d q) <=? block_num (deref d p)) (index d)).

Lemma rank_le d p : (rank d p <= length (index d))%nat.
Proof. apply List.filter_length_le. Qed.

Lemma rank_parent d p q :
  p ∈ index d -> block_num (deref d p) = block_num (deref d q) + 1 -> (rank d q < rank d p)%nat.
Proof. intros Hp Hn. eapply (filter_length_lt _ _ _ p); [done|lia|lia|]. intros y. lia. Qed.

Lemma rank_pos d p : p ∈ index d -> (0 < rank d p)%nat.
Proof.
  intros Hp. unfold rank. assert (p ∈ List.filter (fun q => block_num (deref d q) <=? block_num (deref d p)) (index d)) as H.
  { apply elem_of_List_filter. split; [done|lia]. }
  destruct (List.filter _ _); [by apply elem_of_nil in H|cbn; lia].
Qed.

Lemma collect_ancestors_spec d r p fuel :
  tree_wf d r -> p ∈ index d -> (rank d p <= fuel)%nat ->
  exists l, collect_ancestors fuel d (id (deref d r)) p = Ok (l ++ [id (deref d r)]) /\
    forall a, a ∈ l ++ [id (deref d r)] -> num_from_id a < block_num (deref d p).
Proof.
  intros Ht. revert p; induction fuel as [|fuel IH]; intros p Hp Hr.
  { pose proof (rank_pos d p Hp). lia. }
  cbn [collect_ancestors]. pose proof (fw_header _ (tw_forest _ _ Ht) p Hp) as [_ Hn].
  destruct (parent_cases d r p Ht Hp) as [[E ->]|(q & -> & Hq & E & Hnum)].
  - exists []. rewrite E, bind_assert by (by apply bool_decide_eq_true_2). split; [done|].
    intros a ->%list_elem_of_singleton. rewrite Hn, E. lia.
  - pose proof (rank_parent _ _ _ Hp Hnum). destruct (IH q Hq) as (l & -> & Hl); [lia|].
    exists (previous (deref d p) :: l). split; [done|].
    intros a [->|Ha]%elem_of_cons; [lia|]. apply Hl in Ha. lia.
Qed.

(** Every block of [d'] has its parent in [d'] if it has one in [d]. *)
Definition parents_kept (d d' : fork_db) : Prop :=
  forall p q, p ∈ index d' -> q ∈ index d -> previous (deref d p) = id (deref d q) -> q ∈ index d'.

(** Every block of [d] with id [x] is in [d']. *)
Definition kept (d d' : fork_db) (x : digest) : Prop :=
  forall q, q ∈ index d -> id (deref d q) = x -> q ∈ index d'.

Lemma desc_kept d d' a x :
  shrinks d d' -> parents_kept d d' -> kept d d' x -> desc d a x <-> desc d' a x.
Proof.
  intros Hs Hc Hk. split; [|by apply desc_shrinks].
  pose proof (shrinks_fields _ _ Hs) as (_ & _ & _ & Hd & _). intros H. revert Hk.
  induction H as [|p Hp _ IH]; intros Hk; [constructor|].
  rewrite <- Hd. constructor; [by apply Hk|]. rewrite Hd. apply IH. intros q Hq E.
  eapply (Hc p); [by apply Hk|done|done].
Qed.

Lemma remove_all_spec d d' h l :
  forest_wf d -> head d = Some h -> shrinks d d' -> parents_kept d d' -> kept d d' (id (deref d h)) ->
  ((forall a, a ∈ l -> ~ desc d a (id (deref d h))) /\ exists d2, remove_all d' l = (d2, Ok tt) /\
     shrinks d d2 /\
     forall p, p ∈ index d2 <-> p ∈ index d' /\ forall a, a ∈ l -> ~ desc d a (id (deref d p))) \/
  ((exists a, a ∈ l /\ desc d a (id (deref d h))) /\
   exists d2, remove_all d' l = (d2, Throw fork_database_exception) /\ shrinks d' d2).
Proof.
  intros Hf Hh. revert d'. induction l as [|a l IH]; intros d' Hs Hc Hk.
  { left. split; [by intros a ?%elem_of_nil|]. exists d'. split_and!; [done..|].
    intros p. split; [|tauto]. intros. split; [done|]. by intros a ?%elem_of_nil. }
  pose proof (shrinks_fields _ _ Hs) as (_ & _ & Hhd & Hd & Hsub). cbn [remove_all].
  assert (forall p, p ∈ index d' -> desc d' a (id (deref d' p)) <-> desc d a (id (deref d p))) as Hdesc.
  { intros p Hp. rewrite Hd. symmetry. apply desc_kept; [done..|]. intros q Hq E.
    apply forest_inj in E as ->; auto. }
  destruct (remove_impl_cases d' a h) as [(Hn & d1 & -> & Hs1 & Hi1)|[Hy ->]];
    [by eapply shrinks_forest|congruence| |].
  - rewrite Hd, <- desc_kept in Hn by done.
    destruct (IH d1) as [[Hall (d2 & E & Hs2 & Hi2)]|[(b & Hb & Hdb) (d2 & E & Hs2)]].
    + by eapply shrinks_trans.
    + intros p q [Hp Hpn]%Hi1 Hq E. assert (q ∈ index d') as Hq' by by eapply Hc.
      apply Hi1. split; [done|]. contradict Hpn. rewrite Hdesc in * by done.
      constructor; [auto|]. by rewrite E.
    + intros q Hq E. apply Hi1. assert (q ∈ index d') as Hq' by by apply Hk.
      split; [done|]. rewrite Hdesc by done. by rewrite E.
    + left. split; [by intros b [->|Hb]%elem_of_cons; auto|]. exists d2. split_and!; [done..|].
      intros p. rewrite Hi2, Hi1. split.
      * intros [[Hp Hpn] Hl]. split; [done|]. rewrite Hdesc in Hpn by done.
        by intros b [->|Hb]%elem_of_cons; auto.
      * intros [Hp Hl]. rewrite Hdesc by done. split_and!; [done|..].
        -- apply Hl. by left.
        -- intros b Hb. apply Hl. by right.
    + right. split; [exists b; split; [by right|done]|]. exists d2. split; [done|].
      by eapply shrinks_trans.
  - right. rewrite Hd, <- desc_kept in Hy by done. split; [exists a; split; [by left|done]|].
    exists d'. split; [done|apply shrinks_refl].
Qed.

(** Taking one block out splits the tree in its descendants and the rest. *)
Lemma erase_id_spec d i :
  shrinks d (erase_id i d) /\
  forall p, p ∈ index (erase_id i d) <-> p ∈ index d /\ id (deref d p) <> i.
Proof.
  split; [unfold shrinks, erase_id; eauto|]. intros p. unfold erase_id; cbn.
  rewrite elem_of_List_filter. case_bool_decide; naive_solver.
Qed.

Lemma desc_split d r i x :
  desc d r x -> desc d i x \/ desc (erase_id i d) r x.
Proof.
  destruct (erase_id_spec d i) as [Hs Hi]. induction 1 as [|p Hp _ [IH|IH]].
  - right. constructor.
  - left. by constructor.
  - destruct (decide (id (deref d p) = i)) as [<-|Hne]; [left; constructor|right].
    by apply (desc_step (erase_id i d)); [apply Hi|].
Qed.

Lemma desc_apart d i a x :
  forest_wf d -> num_from_id a < num_from_id i -> desc (erase_id i d) a x -> ~ desc d i x.
Proof.
  intros Hf Hlt. destruct (erase_id_spec d i) as [_ Hi]. induction 1 as [|p Hp _ IH].
  - intros H%desc_num; [lia|done].
  - change (deref (erase_id i d) p) with (deref d p) in *. apply Hi in Hp as [Hp Hne].
    intros H. destruct (desc_inv d i p Hf Hp H) as [E|H']; [congruence|]. by apply IH.
Qed.

Lemma advance_root_cases d r h i nr :
  fdb_wf d r h -> find_id d i = Some nr -> validated (deref d nr) = true ->
  (desc d i (id (deref d h)) /\ exists d', advance_root_impl d i = (d', Ok tt) /\
     heap d' = heap d /\ root d' = Some nr /\ head d' = Some h /\
     (exists f, index d' = List.filter f (index d)) /\
     forall p, p ∈ index d' <-> p ∈ index d /\ p <> nr /\ desc d i (id (deref d p))) \/
  (~ desc d i (id (deref d h)) /\ exists d', advance_root_impl d i = (d', Throw fork_database_exception) /\
     shrinks d d' /\ nr ∉ index d').
Proof.
  intros W Hi Hv. pose proof (wf_tree _ _ _ W) as Ht. pose proof (tw_forest _ _ Ht) as Hf.
  apply find_id_Some in Hi as Hnr. destruct Hnr as [Hnr Eid].
  unfold advance_root_impl, advance_root_prepare, get_block_impl. rewrite (wf_root _ _ _ W), Hi.
  cbn [of_option mbind result_bind]. rewrite bind_assert by done.
  destruct (collect_ancestors_spec d r nr (length (index d)) Ht Hnr (rank_le _ _)) as (l & -> & Hl).
  cbn [mbind result_bind]. set (ancestors := l ++ [id (deref d r)]) in *.
  destruct (erase_id_spec d i) as [Hs He]. pose proof (shrinks_fields _ _ Hs) as (Hhp & Hr & Hhd & Hd & Hsub).
  destruct (fw_header _ Hf nr Hnr) as [Hnum _]. rewrite Eid in Hnum.
  assert (id (deref d r) ∈ ancestors) as Hra by (apply elem_of_app; right; by left).
  assert (forall x, (exists a, a ∈ ancestors /\ desc (erase_id i d) a x) -> ~ desc d i x) as Hapart.
  { intros x (a & Ha & Hx). eapply desc_apart; [done| |done]. rewrite Hnum. by apply Hl. }
  assert (desc d (id (deref d r)) (id (deref d h))) as Hrh.
  { destruct (wf_head_in _ _ _ W) as [->|Hh]; [constructor|by apply tree_desc_root]. }
  destruct (remove_all_spec (erase_id i d) (erase_id i d) h ancestors)
    as [[Hall (d2 & -> & Hs2 & Hi2)]|[Hex (d2 & -> & Hs2)]];
    [by eapply shrinks_forest|rewrite Hhd; apply W|apply shrinks_refl|by intros ?|by intros ?|left|right].
  - split. { destruct (desc_split d _ i _ Hrh) as [|H]; [done|]. by destruct (Hall _ Hra). }
    pose proof (shrinks_fields _ _ (shrinks_trans _ _ _ Hs Hs2)) as (E1 & _ & E3 & _).
    eexists. split_and!; [reflexivity|done|done|rewrite <- (wf_head _ _ _ W); exact E3|..].
    { destruct (shrinks_trans _ _ _ Hs Hs2) as [f ->]. by exists f. }
    intros p. cbn. rewrite Hi2, He. split.
    + intros [[Hp Hne] Hn]. split_and!; [done|congruence|].
      destruct (desc_split d _ i _ (tree_desc_root d r p Ht Hp)) as [|H]; [done|].
      by destruct (Hn _ Hra).
    + intros (Hp & Hne & Hdp). split_and!; [done| |].
      * rewrite <- Eid. intros E. by apply forest_inj in E.
      * intros a Ha Hda. eapply Hapart; eauto.
  - split; [by apply Hapart|]. exists d2. split_and!; [done|by eapply shrinks_trans|].
    destruct (shrinks_fields _ _ Hs2) as (_ & _ & _ & _ & Hsub2). intros [_ Hne]%Hsub2%He. done.
Qed.

Lemma advance_root_wf d r h i d' :
  fdb_wf d r h -> advance_root_impl d i = (d', Ok tt) -> exists r', fdb_wf d' r' h.
Proof.
  intros W H. destruct (find_id d i) as [nr|] eqn:Hi.
  2: { unfold advance_root_impl, advance_root_prepare, get_block_impl in H.
       by rewrite (wf_root _ _ _ W), Hi in H. }
  destruct (validated (deref d nr)) eqn:Hv.
  2: { unfold advance_root_impl, advance_root_prepare, get_block_impl in H.
       rewrite (wf_root _ _ _ W), Hi in H. cbn [of_option mbind result_bind] in H.
       by rewrite bind_assert_fails in H. }
  destruct (advance_root_cases d r h i nr W Hi Hv)
    as [(Hdh & d1 & E & Hh & Hr & Hhd & (f & Hfil) & Hin)|(_ & d1 & E & _)]; rewrite E in H; [|done].
  injection H as <-. exists nr. pose proof (wf_tree _ _ _ W) as Ht. pose proof (tw_forest _ _ Ht) as Hf.
  apply find_id_Some in Hi as [Hnr Eid]. destruct (fw_header _ Hf nr Hnr) as [Hnum _].
  assert (forall p, deref d1 p = deref d p) as Hd by (intros p; unfold deref; by rewrite Hh).
  split; rewrite ?Hd; [done|done| |..].
  - assert (shrinks d (set_root d1 (root d))) as Hs.
    { exists f. destruct d, d1; unfold set_index, set_root in *; cbn in *. f_equal; [done..|].
      rewrite Hhd. symmetry. apply (wf_head _ _ _ W). }
    pose proof (shrinks_forest _ _ Hf Hs) as [Hf1 Hf2]. split; rewrite ?Hd.
    + by split.
    + done.
    + intros p (Hp & Hne & Hdp)%Hin. rewrite Hd. apply desc_inv in Hdp as [Hdp|Hdp]; [| |done..].
      * destruct Hne. apply (forest_inj d); [done..|]. by rewrite <- Hdp, Eid.
      * apply desc_num in Hdp; [|done]. destruct (fw_header _ Hf p Hp). rewrite <- Eid in Hdp. lia.
    + intros p (Hp & Hne & Hdp)%Hin. rewrite Hd. apply desc_inv in Hdp as [Hdp|Hdp]; [| |done..].
      * destruct Hne. apply (forest_inj d); [done..|]. by rewrite <- Hdp, Eid.
      * inversion Hdp as [E'|q Hq Hdq E'].
        -- exists nr. rewrite Hd. split; [by left|]. by rewrite Eid.
        -- exists q. rewrite Hd. split; [|done]. destruct (decide (q = nr)); [by left|right].
           apply Hin. split_and!; [done..|]. by constructor.
  - destruct (decide (h = nr)); [by left|right]. destruct (wf_head_in _ _ _ W) as [->|Hhi].
    + apply desc_num in Hdh; [|done]. pose proof (tw_above _ _ Ht nr Hnr).
      rewrite (tw_root _ _ Ht), <- Eid in Hdh. lia.
    + by apply Hin.
  - intros p Hp. rewrite Hh. apply (wf_alive _ _ _ W). destruct Hp as [->|Hp%Hin]; naive_solver.
  - done.
  - apply (wf_head_valid _ _ _ W).
  - intros p (Hp & _)%Hin. rewrite Hd. by apply (wf_best _ _ _ W).
Qed.

Lemma make_shared_wf d r h b : fdb_wf d r h -> fdb_wf (make_shared d b).2 r h.
Proof.
  intros W. unfold make_shared. cbn. pose proof (is_fresh (dom (heap d))) as Hfr. set (x := fresh _) in *.
  clearbody x. set (d1 := set_heap _ _).
  assert (forall p, p = r \/ p ∈ index d -> deref d1 p = deref d p /\ heap d1 !! p = heap d !! p) as Hd.
  { intros p Hp. assert (p <> x) as Hne.
    { intros ->. apply Hfr, elem_of_dom, (wf_alive _ _ _ W), Hp. }
    unfold deref; cbn. by rewrite lookup_total_insert_ne, lookup_insert_ne. }
  pose proof (wf_head_in _ _ _ W) as Hh.
  split; [apply (wf_root _ _ _ W)|apply (wf_head _ _ _ W)| |done|..].
  - apply (same_shape_tree d); [done| |apply (wf_tree _ _ _ W)].
    intros p Hp. by rewrite (proj1 (Hd p Hp)).
  - intros p Hp. rewrite (proj2 (Hd p Hp)). by apply (wf_alive _ _ _ W).
  - rewrite (proj1 (Hd r (or_introl eq_refl))). apply (wf_root_valid _ _ _ W).
  - rewrite (proj1 (Hd h Hh)). apply (wf_head_valid _ _ _ W).
  - intros p Hp. rewrite (proj1 (Hd h Hh)), (proj1 (Hd p (or_intror Hp))).
    by apply (wf_best _ _ _ W).
Qed.

(** ** Reachable states *)

(** What a call that throws before any change leaves. *)
Definition unless_thrown (d : fork_db) (m : res fork_db) : fork_db := match m with Ok d' => d' | Throw _ => d end.

(** One call of the interface, whether it returns or throws, or the creation of a
    block state outside of it.  Added blocks carry the number of their id and of
    their parent's, as every header does.  The root is only advanced to blocks the
    head descends from, as [log_irreversible] does; an unknown or unvalidated block
    is refused without a change. *)
Inductive fdb_step (d : fork_db) : fork_db -> Prop :=
| step_new b : fdb_step d (make_shared d b).2
| step_reset b : num_from_id (id b) = block_num b -> fdb_step d (reset_impl d b)
| step_rollback : fdb_step d (rollback_head_to_root_impl d)
| step_add n ign : (forall p, n = Some p -> is_Some (heap d !! p) /\ header_wf (deref d p)) ->
    fdb_step d (unless_thrown d (add d n ign))
| step_remove i : fdb_step d (unless_thrown d (remove_impl d i))
| step_mark_valid p : fdb_step d (unless_thrown d (mark_valid_impl d p))
| step_advance_root i :
    (forall p h, find_id d i = Some p -> validated (deref d p) = true -> head d = Some h -> desc d i (id (deref d h))) ->
    fdb_step d (advance_root_impl d i).1.

Inductive fdb_reachable : fork_db -> Prop :=
| reach_reset d b : num_from_id (id b) = block_num b -> fdb_reachable (reset_impl d b)
| reach_step d d' : fdb_reachable d -> fdb_step d d' -> fdb_reachable d'.

Lemma advance_root_allowed_wf d r h i : fdb_wf d r h ->
  (forall p h, find_id d i = Some p -> validated (deref d p) = true -> head d = Some h -> desc d i (id (deref d h))) ->
  exists r' h', fdb_wf (advance_root_impl d i).1 r' h'.
Proof.
  intros W Hd. destruct (find_id d i) as [p|] eqn:Ep.
  - destruct (validated (deref d p)) eqn:Hv.
    + destruct (advance_root_cases d r h i p W Ep Hv) as [(_ & d' & E & _)|(Hn & _)].
      * destruct (advance_root_wf _ _ _ _ _ W E) as [r' W']. rewrite E. by exists r', h.
      * destruct Hn. by apply (Hd p h eq_refl Hv), (wf_head _ _ _ W).
    + exists r, h. unfold advance_root_impl, advance_root_prepare. rewrite (wf_root _ _ _ W).
      unfold get_block_impl. rewrite Ep. cbn [of_option mbind result_bind]. by rewrite Hv.
  - exists r, h. unfold advance_root_impl, advance_root_prepare. rewrite (wf_root _ _ _ W).
    unfold get_block_impl. by rewrite Ep.
Qed.

Lemma fdb_step_wf d d' r h : fdb_wf d r h -> fdb_step d d' -> exists r' h', fdb_wf d' r' h'.
Proof.
  intros W [b|b Hb| |n ign Hn|i|p|i Hi].
  - eauto using make_shared_wf.
  - do 2 eexists. by apply reset_wf.
  - eauto using rollback_wf.
  - destruct (add d n ign) as [d1|] eqn:E; cbn [unless_thrown]; [|eauto]. destruct n as [p|].
    + destruct (Hn p eq_refl). edestruct add_wf; eauto.
    + unfold add, add_impl in E. by destruct (root d).
  - destruct (remove_impl d i) eqn:E; cbn [unless_thrown]; eauto using remove_wf.
  - destruct (mark_valid_impl d p) eqn:E; cbn [unless_thrown]; [|eauto]. edestruct mark_valid_wf; eauto.
  - by eapply advance_root_allowed_wf.
Qed.

Lemma reachable_wf d : fdb_reachable d -> exists r h, fdb_wf d r h.
Proof.
  induction 1 as [d b Hb|d d' _ (r & h & W) Hs].
  - do 2 eexists. by apply reset_wf.
  - by eapply fdb_step_wf.
Qed.

(** C2: In every state the fork database can reach through its interface, by calls that
    return or throw, the blocks form one tree under the root, ids are unique, block
    numbers grow by one along each branch, and the head is a valid block to which no
    valid block is preferred.  The callers add only block states whose number is that
    of their id and one more than that of their previous id, and advance the root only
    to a block the head descends from; a call that breaks the latter throws and leaves
    the block erased ([advance_root_spec]). *)
Theorem fork_db_reachable_wf d : fdb_reachable d -> exists r h, fdb_wf d r h.
Proof. apply reachable_wf. Qed.

(** [remove] deletes exactly the block and its descendants, and throws without
    any change exactly when the head is one of them. *)
Theorem remove_impl_spec d r h i :
  fdb_wf d r h ->
  match remove_impl d i with
  | Ok d' => ~ desc d i (id (deref d h)) /\ fdb_wf d' r h /\
             forall p, p ∈ index d' <-> p ∈ index d /\ ~ desc d i (id (deref d p))
  | Throw e => e = fork_database_exception /\ desc d i (id (deref d h))
  end.
Proof.
  intros W. destruct (remove_impl_cases d i h) as [(Hn & d' & E & Hs & Hi)|[Hd ->]];
    [apply (tw_forest _ _ (wf_tree _ _ _ W))|apply W| |done].
  rewrite E. split_and!; [done|by eapply remove_wf|done].
Qed.

(** C18: [advance_root] to a valid block of the index succeeds exactly when the head
    descends from it; it then keeps just that block's descendants.  Otherwise
    it throws, and by then it has already erased the block. *)
Theorem advance_root_spec d r h i nr :
  fdb_wf d r h -> find_id d i = Some nr -> validated (deref d nr) = true ->
  (desc d i (id (deref d h)) /\ exists d', advance_root_impl d i = (d', Ok tt) /\ fdb_wf d' nr h /\
     forall p, p ∈ index d' <-> p ∈ index d /\ p <> nr /\ desc d i (id (deref d p))) \/
  (~ desc d i (id (deref d h)) /\ exists d', advance_root_impl d i = (d', Throw fork_database_exception) /\
     nr ∈ index d /\ nr ∉ index d').
Proof.
  intros W Hi Hv. destruct (advance_root_cases d r h i nr W Hi Hv)
    as [(Hd & d' & E & _ & Hr & _ & _ & Hin)|(Hd & d' & E & _ & Hnot)]; [left|right]; split; try done.
  - exists d'. split_and!; [done| |done]. destruct (advance_root_wf _ _ _ _ _ W E) as [r' W'].
    pose proof (wf_root _ _ _ W') as Hr'. congruence.
  - apply find_id_Some in Hi as [? _]. eauto.
Qed.

(** ** A concrete fork database: a root at height 1 and two branches *)

Module ForkExample.

Definition blk (num k : Z) (prev : digest) (v : bool) : block_state :=
  mk_block_state (mk_digest (endian_reverse_u32 num) k 0 0) num prev num 0 ∅ None v.
Definition b1 := blk 1 0 digest_zero true.
Definition b2a := blk 2 1 (id b1) true.
Definition b2b := blk 2 2 (id b1) false.
Definition b3a := blk 3 3 (id b2a) true.
Definition b3b := blk 3 4 (id b2b) false.

Definition push (d : fork_db) (b : block_state) : fork_db :=
  let '(p, d) := make_shared d b in
  match add d (Some p) false with Ok d => d | Throw _ => d end.

Definition start : fork_db := reset_impl (mk_fork_db ∅ [] None None) b1.
Definition ex : fork_db := fold_left push [b2a; b2b; b3a; b3b] start.

Lemma push_reachable d b : fdb_reachable d -> header_wf b -> fdb_reachable (push d b).
Proof.
  intros Hr Hb. unfold push. destruct (make_shared d b) as [p d1] eqn:E.
  apply (reach_step d1); [|apply (step_add d1 (Some p) false)].
  - change d1 with (p, d1).2. rewrite <- E. eapply reach_step; [done|constructor].
  - intros q [= <-]. injection E as <- <-. cbn. rewrite lookup_insert_eq. unfold deref; cbn.
    rewrite lookup_total_insert_eq. eauto.
Qed.

Lemma ex_reachable : fdb_reachable ex.
Proof.
  unfold ex. cbn [fold_left].
  repeat (apply push_reachable; [|by split]).
  by constructor.
Qed.

Definition ex_root : ptr := 1%positive.
Definition ex_head : ptr := 4%positive.

Lemma ex_wf : fdb_wf ex ex_root ex_head.
Proof.
  destruct (reachable_wf ex ex_reachable) as (r & h & W).
  pose proof (wf_root _ _ _ W) as Hr. pose proof (wf_head _ _ _ W) as Hh.
  vm_compute in Hr, Hh. by simplify_eq.
Qed.

Lemma fork_db_reachable_wf_witness : exists r h, fdb_wf ex r h.
Proof. apply (fork_db_reachable_wf ex), ex_reachable. Defined.

Lemma remove_impl_spec_witness :
  match remove_impl ex (id b2b) with
  | Ok d' => forall p, p ∈ index d' <-> p ∈ index ex /\ ~ desc ex (id b2b) (id (deref ex p))
  | Throw _ => False
  end.
Proof.
  pose proof (remove_impl_spec ex ex_root ex_head (id b2b) ex_wf) as H.
  destruct (remove_impl ex (id b2b)) as [d'|e] eqn:E; [apply H|].
  vm_compute in E. discriminate E.
Defined.

Lemma advance_root_spec_witness :
  exists d', advance_root_impl ex (id b2a) = (d', Ok tt) /\ fdb_wf d' 2%positive ex_head.
Proof.
  destruct (advance_root_spec ex ex_root ex_head (id b2a) 2%positive ex_wf)
    as [(_ & d' & E & W & _)|(_ & d' & E & _)]; [by vm_compute|by vm_compute|eauto|].
  vm_compute in E. discriminate E.
Defined.

End ForkExample.
