(* ===== verification/ForkBranch.v ===== *)
(** * Branch queries of the fork database

    [fetch_branch], [search_on_branch] and [fetch_branch_from] terminate, do not
    throw on the blocks of the tree, and return the paths they promise. *)

From S2P Require Import Prelude Exceptions Types ForkDatabase ForkTree.
Import fork_database.

(** The blocks from [i] down to [j], [j] excluded, newest first. *)
Inductive chain (d : fork_db) (j : digest) : digest -> list ptr -> Prop :=
| chain_nil : chain d j j []
| chain_cons p l : p ∈ index d -> chain d j (previous (deref d p)) l ->
    chain d j (id (deref d p)) (p :: l).

Lemma chain_in d j i l q : chain d j i l -> q ∈ l -> q ∈ index d.
Proof. induction 1 as [|p l Hp _ IH]; [by intros ?%elem_of_nil|]. intros [->|]%elem_of_cons; auto. Qed.

Lemma chain_desc d j i l : chain d j i l -> desc d j i.
Proof. induction 1; eauto with chain. Qed.

Lemma chain_num d j i l q :
  forest_wf d -> chain d j i l -> q ∈ l ->
  num_from_id j < block_num (deref d q) <= num_from_id i.
Proof.
  intros Hf. induction 1 as [|p l Hp Hc IH]; [by intros ?%elem_of_nil|].
  pose proof (fw_header _ Hf p Hp) as [H1 H2]. pose proof (desc_num _ _ _ Hf (chain_desc _ _ _ _ Hc)).
  intros [->|Hq]%elem_of_cons; [lia|]. specialize (IH Hq). lia.
Qed.

(** The [k]-th block of a branch is [k] below its top. *)
Lemma chain_lookup_num d j i l (k : nat) q :
  forest_wf d -> chain d j i l -> l !! k = Some q ->
  block_num (deref d q) = num_from_id i - Z.of_nat k.
Proof.
  intros Hf Hc. revert k; induction Hc as [|p l Hp Hc IH]; intros k Hk; [done|].
  pose proof (fw_header _ Hf p Hp) as [H1 H2].
  destruct k as [|k]; cbn in Hk; [injection Hk as <-; lia|]. apply IH in Hk. lia.
Qed.

(** An ancestor of the top of a branch is on the branch or below it. *)
Lemma chain_ancestor d j i l x :
  forest_wf d -> chain d j i l -> desc d x i ->
  desc d x j \/ exists p, p ∈ l /\ id (deref d p) = x.
Proof.
  intros Hf. induction 1 as [|p l Hp Hc IH]; intros Hd; [by left|].
  apply desc_inv in Hd as [->|Hd]; [| |done..].
  - right. exists p. split; [by left|done].
  - destruct (IH Hd) as [|(q & Hq & E)]; [by left|right]. exists q. split; [by right|done].
Qed.

(** ** [fetch_branch] and [search_on_branch] *)

Lemma fetch_branch_loop_spec d r p trim fuel :
  tree_wf d r -> p ∈ index d -> (rank d p <= fuel)%nat ->
  exists l, chain d (id (deref d r)) (id (deref d p)) l /\
    fetch_branch_loop fuel d (Some p) trim =
      Ok (List.filter (fun q => block_num (deref d q) <=? trim) l) /\
    forall num, search_on_branch_loop fuel d (Some p) num =
      Ok (List.find (fun q => block_num (deref d q) =? num) l).
Proof.
  intros Ht. revert p; induction fuel as [|fuel IH]; intros p Hp Hr.
  { pose proof (rank_pos d p Hp). lia. }
  cbn [fetch_branch_loop search_on_branch_loop].
  destruct (parent_cases d r p Ht Hp) as [[E ->]|(q & -> & Hq & E & Hn)].
  - exists [p]. split; [constructor; [done|rewrite E; constructor]|].
    split; [by destruct fuel; cbn; destruct (_ <=? _)|]. intros num.
    destruct fuel; cbn; by destruct (_ =? _).
  - pose proof (rank_parent _ _ _ Hp Hn). destruct (IH q Hq) as (l & Hc & E1 & E2); [lia|].
    exists (p :: l). split; [constructor; [done|by rewrite E]|]. split.
    + rewrite E1. cbn. by destruct (_ <=? _).
    + intros num. rewrite E2. cbn. by destruct (_ =? _).
Qed.

(** For a block of the fork database, [fetch_branch] returns the path from it
    down to the root (exclusive), in descending block numbers, less the blocks
    above [trim_after_block_num]; [search_on_branch] finds the block of the
    given height on that same path. *)
Theorem fetch_branch_spec d r p trim :
  tree_wf d r -> p ∈ index d ->
  exists l, chain d (id (deref d r)) (id (deref d p)) l /\
    (forall (k : nat) q, l !! k = Some q ->
       block_num (deref d q) = block_num (deref d p) - Z.of_nat k) /\
    fetch_branch_impl d (id (deref d p)) trim =
      Ok (List.filter (fun q => block_num (deref d q) <=? trim) l) /\
    forall num, search_on_branch_impl d (id (deref d p)) num =
      Ok (List.find (fun q => block_num (deref d q) =? num) l).
Proof.
  intros Ht Hp. pose proof (tw_forest _ _ Ht) as Hf.
  destruct (fetch_branch_loop_spec d r p trim (length (index d)) Ht Hp (rank_le _ _))
    as (l & Hc & E1 & E2).
  exists l. unfold fetch_branch_impl, search_on_branch_impl, get_block_impl.
  rewrite find_id_in by done. split_and!; [done| |done|done].
  intros k q Hk. rewrite (chain_lookup_num _ _ _ _ _ _ Hf Hc Hk).
  by rewrite (proj1 (fw_header _ Hf p Hp)).
Qed.

(** Asked for an id that is not in the index (the root's included),
    [fetch_branch] returns the empty branch; it does not throw. *)
Theorem fetch_branch_missing d i trim :
  i ∉ ids d -> fetch_branch_impl d i trim = Ok [].
Proof.
  intros H%find_id_None. unfold fetch_branch_impl, get_block_impl. rewrite H.
  by destruct (length (index d)).
Qed.

(** ** [fetch_branch_from] *)

Section fetch_branch_from.
Context (d : fork_db) (r : ptr) (Ht : tree_wf d r).

Local Abbreviation num p := (block_num (deref d p)).
Local Abbreviation bid p := (id (deref d p)).

Lemma root_or_block_in p : p = r \/ p ∈ index d -> root_or_block d r (bid p) = Some p.
Proof.
  unfold root_or_block, get_block_impl. intros [->|Hp]; case_bool_decide as E; try done.
  - by eapply root_not_in_ids in E.
  - by apply find_id_in, Hp; apply (tw_forest _ _ Ht).
Qed.

Lemma bid_num p : p = r \/ p ∈ index d -> num_from_id (bid p) = num p.
Proof. intros [->|Hp]; [apply (tw_root _ _ Ht)|by apply (tw_forest _ _ Ht)]. Qed.

Lemma descend_to_spec n fuel b acc :
  (b = r \/ b ∈ index d) -> num r <= n -> (b ∈ index d -> (rank d b <= fuel)%nat) ->
  exists b' m, descend_to fuel d r n b acc = Ok (b', acc ++ m) /\ (b' = r \/ b' ∈ index d) /\
    chain d (bid b') (bid b) m /\ num b' = Z.min (num b) n /\ (num b <= n -> m = []).
Proof.
  intros Hb Hn. revert b acc Hb. induction fuel as [|fuel IH]; intros b acc Hb Hfuel; cbn [descend_to].
  all: destruct (n <? num b) eqn:E; bool_to_Z;
    [|exists b, []; rewrite app_nil_r; split_and!; [done|done|constructor|lia|done]].
  all: destruct Hb as [->|Hb]; [lia|]; specialize (Hfuel Hb).
  { pose proof (rank_pos d b Hb). lia. }
  destruct (tw_linked _ _ Ht b Hb) as (q & Hq & Ep). rewrite Ep, root_or_block_in by done.
  assert (num b = num q + 1) as Hnum.
  { rewrite <- (bid_num q Hq), <- Ep. by apply (tw_forest _ _ Ht). }
  destruct (IH q (acc ++ [b])) as (b' & m & E' & Hb' & Hc & Hn' & _); [done| |].
  { intros Hq'. pose proof (rank_parent d b q Hb Hnum). lia. }
  exists b', (b :: m). cbn [of_option mbind result_bind]. rewrite E', <- app_assoc.
  split_and!; [done|done|constructor; [done|by rewrite Ep]|lia|lia].
Qed.

Lemma descend_both_spec fuel b1 b2 l1 l2 :
  b1 ∈ index d -> b2 ∈ index d -> num b1 = num b2 -> bid b1 <> bid b2 -> (rank d b1 <= fuel)%nat ->
  exists a m1 m2, descend_both fuel d b1 b2 l1 l2 = Ok (l1 ++ m1, l2 ++ m2) /\
    chain d a (bid b1) m1 /\ chain d a (bid b2) m2 /\ (forall x, x ∈ m1 -> x ∈ m2 -> False).
Proof.
  pose proof (tw_forest _ _ Ht) as Hf.
  revert b1 b2 l1 l2; induction fuel as [|fuel IH]; intros b1 b2 l1 l2 H1 H2 Hn Hne Hr.
  { pose proof (rank_pos d b1 H1). lia. }
  cbn [descend_both]. case_bool_decide as Ep.
  - exists (previous (deref d b1)), [b1], [b2]. split_and!; [done|..].
    + constructor; [done|constructor].
    + constructor; [done|rewrite Ep; constructor].
    + intros x ->%list_elem_of_singleton ->%list_elem_of_singleton. done.
  - assert (num b1 = num_from_id (previous (deref d b1)) + 1) as N1 by by apply Hf.
    assert (num b2 = num_from_id (previous (deref d b2)) + 1) as N2 by by apply Hf.
    destruct (parent_cases d r b1 Ht H1) as [[E1 _]|(q1 & -> & Hq1 & E1 & M1)];
      destruct (parent_cases d r b2 Ht H2) as [[E2 _]|(q2 & -> & Hq2 & E2 & M2)].
    1: congruence.
    1: pose proof (tw_above _ _ Ht q2 Hq2); rewrite E1, (tw_root _ _ Ht) in N1; lia.
    1: pose proof (tw_above _ _ Ht q1 Hq1); rewrite E2, (tw_root _ _ Ht) in N2; lia.
    pose proof (rank_parent d b1 q1 H1 M1).
    destruct (IH q1 q2 (l1 ++ [b1]) (l2 ++ [b2])) as (a & m1 & m2 & E & C1 & C2 & Hdis);
      [done|done|lia|congruence|lia|].
    exists a, (b1 :: m1), (b2 :: m2). cbn [of_option mbind result_bind].
    rewrite E, <- !app_assoc. split_and!; [done|constructor; [done|by rewrite E1]|constructor; [done|by rewrite E2]|].
    pose proof (bid_num q1 (or_intror Hq1)). pose proof (bid_num q2 (or_intror Hq2)).
    intros x [->|X1]%elem_of_cons [->|X2]%elem_of_cons; [done|..].
    + pose proof (chain_num _ _ _ _ _ Hf C2 X2). lia.
    + pose proof (chain_num _ _ _ _ _ Hf C1 X1). lia.
    + by eapply Hdis.
Qed.

Lemma same_height_root b1 b2 :
  (b1 = r \/ b1 ∈ index d) -> (b2 = r \/ b2 ∈ index d) -> num b1 = num b2 -> bid b1 <> bid b2 ->
  b1 ∈ index d /\ b2 ∈ index d.
Proof.
  intros [->|H1] [->|H2] Hn Hne; try done.
  - pose proof (tw_above _ _ Ht b2 H2). lia.
  - pose proof (tw_above _ _ Ht b1 H1). lia.
Qed.

Lemma chain_app a b c l m : chain d b c l -> chain d a b m -> chain d a c (l ++ m).
Proof. induction 1; [done|]. cbn. constructor; auto. Qed.

Lemma above_root p : p = r \/ p ∈ index d -> num r <= num p.
Proof. intros [->|Hp]; [lia|]. pose proof (tw_above _ _ Ht p Hp). lia. Qed.

Lemma fetch_branch_from_disjoint p1 p2 :
  root d = Some r -> (p1 = r \/ p1 ∈ index d) -> (p2 = r \/ p2 ∈ index d) ->
  exists a l1 l2, fetch_branch_from_impl d (bid p1) (bid p2) = Ok (l1, l2) /\
    chain d a (bid p1) l1 /\ chain d a (bid p2) l2 /\ (forall x, x ∈ l1 -> x ∈ l2 -> False).
Proof.
  intros Hr H1 H2. pose proof (tw_forest _ _ Ht) as Hf. unfold fetch_branch_from_impl.
  rewrite Hr. cbn [of_option mbind result_bind]. rewrite !root_or_block_in by done.
  cbn [of_option mbind result_bind].
  destruct (descend_to_spec (num p2) (length (index d)) p1 [])
    as (b1 & m1 & -> & Hb1 & C1 & N1 & Z1); [done|by apply above_root|by intros; apply rank_le|].
  cbn [mbind result_bind app].
  destruct (descend_to_spec (num b1) (length (index d)) p2 [])
    as (b2 & m2 & -> & Hb2 & C2 & N2 & Z2); [done|by apply above_root|by intros; apply rank_le|].
  cbn [mbind result_bind app]. case_bool_decide as E.
  - exists (bid b1), m1, m2. rewrite E in *. split_and!; [done..|].
    intros x X1 X2. destruct (decide (num p1 <= num p2)).
    + rewrite Z1 in X1 by done. by apply elem_of_nil in X1.
    + rewrite Z2 in X2 by lia. by apply elem_of_nil in X2.
  - destruct (same_height_root b1 b2) as [I1 I2]; [done|done|lia|done|].
    destruct (descend_both_spec (length (index d)) b1 b2 m1 m2)
      as (a & k1 & k2 & -> & D1 & D2 & Hdis); [done|done|lia|done|apply rank_le|].
    exists a, (m1 ++ k1), (m2 ++ k2). split_and!; [done|eapply chain_app; done|eapply chain_app; done|].
    pose proof (bid_num b1 Hb1). pose proof (bid_num b2 Hb2).
    intros x [X1|X1]%elem_of_app [X2|X2]%elem_of_app; [| | |by eapply Hdis].
    + destruct (decide (num p1 <= num p2)).
      * rewrite Z1 in X1 by done. by apply elem_of_nil in X1.
      * rewrite Z2 in X2 by lia. by apply elem_of_nil in X2.
    + pose proof (chain_num _ _ _ _ _ Hf C1 X1). pose proof (chain_num _ _ _ _ _ Hf D2 X2). lia.
    + pose proof (chain_num _ _ _ _ _ Hf D1 X1). pose proof (chain_num _ _ _ _ _ Hf C2 X2). lia.
Qed.
End fetch_branch_from.

(** For any two blocks of the tree, the root included, [fetch_branch_from]
    returns the two paths down to their lowest common ancestor: every common
    ancestor of the two blocks is an ancestor of it. *)
Theorem fetch_branch_from_spec d r p1 p2 :
  tree_wf d r -> root d = Some r -> (p1 = r \/ p1 ∈ index d) -> (p2 = r \/ p2 ∈ index d) ->
  exists a l1 l2, fetch_branch_from_impl d (id (deref d p1)) (id (deref d p2)) = Ok (l1, l2) /\
    chain d a (id (deref d p1)) l1 /\ chain d a (id (deref d p2)) l2 /\
    forall x, desc d x (id (deref d p1)) -> desc d x (id (deref d p2)) -> desc d x a.
Proof.
  intros Ht Hr H1 H2. pose proof (tw_forest _ _ Ht) as Hf.
  destruct (fetch_branch_from_disjoint d r Ht p1 p2 Hr H1 H2) as (a & l1 & l2 & E & C1 & C2 & Hdis).
  exists a, l1, l2. split_and!; [done..|]. intros x X1 X2.
  destruct (chain_ancestor _ _ _ _ _ Hf C1 X1) as [|(q1 & Q1 & E1)]; [done|].
  destruct (chain_ancestor _ _ _ _ _ Hf C2 X2) as [|(q2 & Q2 & E2)]; [done|].
  exfalso. apply (Hdis q1); [done|]. replace q1 with q2; [done|].
  apply (forest_inj d); [done|exact (chain_in _ _ _ _ _ C2 Q2)|exact (chain_in _ _ _ _ _ C1 Q1)|congruence].
Qed.

Module ForkBranchWitness.
Import ForkExample.

Lemma fetch_branch_spec_witness :
  exists l, chain ex (id b1) (id b3b) l /\
    fetch_branch_impl ex (id b3b) 2 = Ok (List.filter (fun q => block_num (deref ex q) <=? 2) l).
Proof.
  destruct (fetch_branch_spec ex ex_root 5%positive 2) as (l & H1 & _ & H2 & _).
  - apply (wf_tree _ _ _ ex_wf).
  - apply list_elem_of_In. vm_compute. tauto.
  - exists l. split; [exact H1|exact H2].
Defined.

Lemma fetch_branch_missing_witness : fetch_branch_impl ex (id b1) 100 = Ok [].
Proof.
  apply (fetch_branch_missing ex (id b1) 100), find_id_None. vm_compute. reflexivity.
Defined.

Lemma fetch_branch_from_spec_witness :
  exists a l1 l2, fetch_branch_from_impl ex (id b3a) (id b2b) = Ok (l1, l2) /\
    chain ex a (id b3a) l1 /\ chain ex a (id b2b) l2.
Proof.
  destruct (fetch_branch_from_spec ex ex_root 4%positive 3%positive) as (a & l1 & l2 & H1 & H2 & H3 & _).
  - apply (wf_tree _ _ _ ex_wf).
  - by vm_compute.
  - right. apply list_elem_of_In. vm_compute. tauto.
  - right. apply list_elem_of_In. vm_compute. tauto.
  - exists a, l1, l2. split; [exact H1|]. split; [exact H2|exact H3].
Defined.
End ForkBranchWitness.
