(* ===== verification/ForkPersist.v ===== *)
(** * Saving and loading the fork database ([close_impl], [open_impl])

    The file is modelled as the sequence of values packed into it; the byte
    encoding of a block state is the job of [fc::raw].  Loading what was saved
    gives back the same tree, root and head. *)

From S2P Require Import Prelude Exceptions Types ForkDatabase ForkTree.
Import fork_database.

Definition magic_number : Z := 0x30510FDB.
Definition min_supported_version : Z := 1.
Definition max_supported_version : Z := 1.

(** [fork_db.dat]; the head id is missing when [head] was not set. *)
Record fork_db_file := mk_fork_db_file {
  file_totem : Z;
  file_version : Z;
  file_root : block_state;
  file_blocks : list block_state;
  file_head : option digest }.

(** The loop of [close_impl] over the two reversed ranges of [by_lib_block_num]. *)
Fixpoint write_order (d : fork_db) (validated_itr : list ptr) : list ptr -> list ptr :=
  fix inner (unvalidated_itr : list ptr) : list ptr :=
    match validated_itr, unvalidated_itr with
    | v :: vs, u :: us =>
        if first_preferred (deref d v) (deref d u) then u :: inner us
        else v :: write_order d vs unvalidated_itr
    | [], us => us
    | vs, [] => vs
    end.

(** Valid blocks come first in the index, so the ranges before and after
    [lower_bound( false )] hold the valid and the other blocks. *)
Definition blocks_to_write (d : fork_db) : list ptr :=
  let indx := by_lib_block_num d in
  write_order d (rev (List.filter (fun p => validated (deref d p)) indx))
                (rev (List.filter (fun p => negb (validated (deref d p))) indx)).

Definition close_impl (d : fork_db) : option fork_db_file * fork_db :=
  match root d with
  | None => (None, d)
  | Some r =>
      (Some (mk_fork_db_file magic_number max_supported_version (deref d r)
               (map (deref d) (blocks_to_write d)) (id ∘ deref d <$> head d)),
       set_index d [])
  end.

Section validator.
Variable validator : Z -> gset digest -> list digest -> res unit.

(** The loop of [open_impl]; blocks added before a throw stay. *)
Fixpoint load_blocks (d : fork_db) (bs : list block_state) : fork_db * res unit :=
  match bs with
  | [] => (d, Ok tt)
  | s :: bs =>
      let '(p, d) := make_shared d s in
      match add_impl validator d (Some p) false true with
      | Ok d => load_blocks d bs
      | Throw e => (d, Throw e)
      end
  end.

(** The last part of [open_impl]: set the head and cross-check it. *)
Definition restore_head (d : fork_db) (head_id : option digest) : fork_db * res unit :=
  match head_id, root d with
  | None, _ => (d, Throw fc_out_of_range_exception)
  | _, None => (d, Throw undefined_behavior)
  | Some head_id, Some r =>
      let d := set_head d (if bool_decide (id (deref d r) = head_id) then Some r
                           else get_block_impl d head_id) in
      match head d with
      | None => (d, Throw fork_database_exception)
      | Some h =>
          (d, sys_assert
                match by_lib_block_num d with
                | candidate :: _ =>
                    if validated (deref d candidate)
                    then negb (first_preferred (deref d candidate) (deref d h))
                    else bool_decide (id (deref d h) = id (deref d r))
                | [] => bool_decide (id (deref d h) = id (deref d r))
                end fork_database_exception)
      end
  end.

Definition open_impl (d : fork_db) (file : option fork_db_file) : fork_db * res unit :=
  match file with
  | None => (d, Ok tt)
  | Some f =>
      if negb (file_totem f =? magic_number) then (d, Throw fork_database_exception)
      else if negb ((min_supported_version <=? file_version f)
                    && (file_version f <=? max_supported_version))
      then (d, Throw fork_database_exception)
      else
        match load_blocks (reset_impl d (file_root f)) (file_blocks f) with
        | (d, Ok _) => restore_head d (file_head f)
        | (d, Throw e) => (d, Throw e)
        end
  end.
End validator.

(** ** The order of the written blocks *)

Definition written_before (d : fork_db) (a b : ptr) : Prop :=
  first_preferred (deref d a) (deref d b) = false.

#[export] Instance written_before_trans d : Transitive (written_before d).
Proof. intros a b c. apply first_preferred_false_trans. Qed.

Lemma first_preferred_asym a b : first_preferred a b = true -> first_preferred b a = false.
Proof.
  intros H. destruct (first_preferred b a) eqn:H'; [|done]. unfold first_preferred in *.
  pose proof (tie_less_trans _ _ _ H H') as E. by rewrite tie_less_irrefl in E.
Qed.

Lemma write_order_cons d v vs u us :
  write_order d (v :: vs) (u :: us) =
  if first_preferred (deref d v) (deref d u) then u :: write_order d (v :: vs) us
  else v :: write_order d vs (u :: us).
Proof. done. Qed.

Lemma write_order_perm d vs us : write_order d vs us ≡ₚ vs ++ us.
Proof.
  revert us; induction vs as [|v vs IHv]; intros us; [by destruct us|].
  induction us as [|u us IHu]; [by rewrite app_nil_r|]. rewrite write_order_cons.
  destruct (first_preferred _ _).
  - by rewrite <- Permutation_middle, IHu.
  - by rewrite IHv.
Qed.

Lemma write_order_sorted d vs us :
  StronglySorted (written_before d) vs -> StronglySorted (written_before d) us ->
  StronglySorted (written_before d) (write_order d vs us).
Proof.
  revert us; induction vs as [|v vs IHv]; intros us Hv Hu; [by destruct us|].
  induction us as [|u us IHu]; [done|].
  apply StronglySorted_inv in Hv as Hv'. destruct Hv' as [Hvs Hvall].
  apply StronglySorted_inv in Hu as Hu'. destruct Hu' as [Hus Huall]. rewrite Forall_forall in *.
  rewrite write_order_cons. destruct (first_preferred _ _) eqn:E.
  - constructor; [by apply IHu|]. apply Forall_forall. intros x.
    rewrite write_order_perm, elem_of_app, elem_of_cons.
    pose proof (first_preferred_asym _ _ E : written_before d u v).
    intros [[->|Hx]|Hx]; [done| |by apply Huall]. etrans; [done|by apply Hvall].
  - constructor; [by apply IHv|]. apply Forall_forall. intros x.
    rewrite write_order_perm, elem_of_app, elem_of_cons.
    intros [Hx|[->|Hx]]; [by apply Hvall|done|]. transitivity u; [done|by apply Huall].
Qed.

(** Within blocks of one validity, the order of the index is [first_preferred]. *)
Lemma lib_le_same d c q :
  lib_le d c q -> validated (deref d c) = validated (deref d q) -> written_before d q c.
Proof.
  unfold lib_le, lib_key, written_before, first_preferred. intros H Hv. rewrite Hv in H. cbn in *.
  rewrite Z.ltb_irrefl, Z.eqb_refl in H. cbn in H.
  apply orb_false_iff in H as [H1 H2]. apply orb_false_iff. split; [lia|].
  destruct (_ =? _) eqn:E in |- *; [|done]. cbn. bool_to_Z.
  rewrite E, Z.eqb_refl in H2. cbn in H2. apply orb_false_iff in H2 as [H2 _].
  rewrite andb_false_r, orb_false_r. lia.
Qed.

Lemma StronglySorted_rev {A} (R : A -> A -> Prop) l :
  StronglySorted (flip R) l -> StronglySorted R (rev l).
Proof.
  induction l as [|x l IH]; [constructor|]. intros [Hs Hall]%StronglySorted_inv. cbn.
  rewrite Forall_forall in Hall. apply StronglySorted_app. split_and!; [|auto|repeat constructor].
  intros a b Ha%list_elem_of_In%in_rev%list_elem_of_In ->%list_elem_of_singleton. by apply Hall.
Qed.

Lemma range_sorted d (f : ptr -> bool) :
  (forall p q, f p = true -> f q = true -> validated (deref d p) = validated (deref d q)) ->
  StronglySorted (written_before d) (rev (List.filter f (by_lib_block_num d))).
Proof.
  intros Hf. apply StronglySorted_rev.
  pose proof (StronglySorted_merge_sort (lib_le d) (index d)) as Hs.
  fold (by_lib_block_num d) in Hs. induction Hs as [|p l _ IH Hall]; [constructor|].
  cbn. destruct (f p) eqn:Hp; [|done]. constructor; [done|]. rewrite Forall_forall in *.
  intros q [Hq Hfq]%elem_of_List_filter. apply lib_le_same; auto.
Qed.

Lemma blocks_to_write_sorted d : StronglySorted (written_before d) (blocks_to_write d).
Proof.
  apply write_order_sorted; apply range_sorted; intros p q.
  - congruence.
  - rewrite !negb_true_iff. congruence.
Qed.

Lemma blocks_to_write_perm d : blocks_to_write d ≡ₚ index d.
Proof.
  unfold blocks_to_write. rewrite write_order_perm, <- !Permutation_rev.
  etrans; [|apply (merge_sort_Permutation (lib_le d))].
  fold (by_lib_block_num d). induction (by_lib_block_num d) as [|p l IH]; [done|]. cbn.
  destruct (validated (deref d p)); cbn; [by rewrite IH|]. by rewrite <- Permutation_middle, IH.
Qed.

(** ** Loading *)

Section loading.
Context (validator : Z -> gset digest -> list digest -> res unit).

(** The validator accepts the features [b] activates on top of [parent]. *)
Definition accepts (parent b : block_state) : Prop :=
  forall fs, new_protocol_features b = Some fs ->
    validator (timestamp b) (activated_protocol_features parent) fs = Ok tt.

(** Each block is new and hangs off the root or an earlier block. *)
Fixpoint linkable (rb : block_state) (seen bs : list block_state) : Prop :=
  match bs with
  | [] => True
  | b :: bs =>
      (exists q, q ∈ rb :: seen /\ id q = previous b) /\
      (forall q, q ∈ rb :: seen -> id q = previous b -> accepts q b) /\
      id b ∉ id <$> seen /\ linkable rb (seen ++ [b]) bs
  end.

Record loaded (d : fork_db) (r : ptr) (rb : block_state) (bs : list block_state) : Prop := {
  ld_root : root d = Some r;
  ld_state : deref d r = rb;
  ld_blocks : deref d <$> index d = bs;
  ld_alive : forall p, p = r \/ p ∈ index d -> is_Some (heap d !! p) }.

Lemma loaded_new d r rb bs b :
  loaded d r rb bs -> let '(p, d1) := make_shared d b in
  loaded d1 r rb bs /\ deref d1 p = b /\ is_Some (heap d1 !! p).
Proof.
  intros [Hr Hs Hb Ha]. unfold make_shared. pose proof (is_fresh (dom (heap d))) as Hfr.
  set (x := fresh _) in *. clearbody x. set (d1 := set_heap _ _).
  assert (forall p, p = r \/ p ∈ index d -> deref d1 p = deref d p /\ heap d1 !! p = heap d !! p) as Hd.
  { intros p Hp. assert (p <> x) as Hne by (intros ->; by apply Hfr, elem_of_dom, Ha).
    unfold deref; cbn. by rewrite lookup_total_insert_ne, lookup_insert_ne. }
  split_and!.
  - split; [done|by rewrite (proj1 (Hd r (or_introl eq_refl)))| |].
    + rewrite <- Hb. apply list_fmap_ext. intros k p Hp%list_elem_of_lookup_2. apply Hd. auto.
    + intros p Hp. rewrite (proj2 (Hd p Hp)). auto.
  - apply lookup_total_insert_eq.
  - cbn. rewrite lookup_insert_eq. eauto.
Qed.

Lemma ids_states d : ids d = id <$> (deref d <$> index d).
Proof. unfold ids. by rewrite <- list_fmap_compose. Qed.

Lemma add_impl_succeeds d r rb bs n :
  loaded d r rb bs -> is_Some (heap d !! n) -> linkable rb bs [deref d n] ->
  exists x, add_impl validator d (Some n) false true = Ok (set_head (set_index d (index d ++ [n])) x).
Proof.
  intros [Hr Hs Hb Ha] Hn ((q & Hq & Eq) & Hacc & Hnew & _).
  unfold add_impl, get_block_header_impl. rewrite Hr, bind_assert by (apply bool_decide_eq_true_2; eauto).
  cbn [of_option mbind result_bind]. rewrite Hs.
  assert (exists pr, (if bool_decide (id rb = previous (deref d n)) then Some r
                      else find_id d (previous (deref d n))) = Some pr /\
                     deref d pr ∈ rb :: bs /\ id (deref d pr) = previous (deref d n)) as (pr & -> & Hpr & Epr).
  { case_bool_decide as Er; [exists r; rewrite Hs; split_and!; [done|by left|done]|].
    destruct (find_id d _) as [pr|] eqn:Ef.
    - exists pr. apply find_id_Some in Ef as [Hin E]. split_and!; [done| |done].
      right. rewrite <- Hb. by apply list_elem_of_fmap_2.
    - apply find_id_None in Ef. destruct Ef. apply elem_of_cons in Hq as [->|Hq]; [done|].
      rewrite ids_states, Hb, <- Eq. by apply list_elem_of_fmap_2. }
  cbn [of_option mbind result_bind].
  assert (find_id d (id (deref d n)) = None) as ->.
  { apply find_id_None. by rewrite ids_states, Hb. }
  set (d1 := set_index d (index d ++ [n])).
  assert (exists c l, by_lib_block_num d1 = c :: l) as (c & l & ->).
  { destruct (by_lib_block_num d1) as [|c l] eqn:E; [|eauto]. apply by_lib_nil in E.
    by apply app_nil in E as [_ ?]. }
  exists (if validated (deref d1 c) then Some c else head d1).
  destruct (new_protocol_features (deref d n)) as [fs|] eqn:Ef.
  - rewrite (Hacc _ Hpr Epr fs Ef). cbn [rethrow_as mbind result_bind].
    by destruct (validated (deref d1 c)).
  - cbn [rethrow_as mbind result_bind]. by destruct (validated (deref d1 c)).
Qed.

Lemma load_blocks_spec d r rb seen bs :
  loaded d r rb seen -> linkable rb seen bs ->
  exists d', load_blocks validator d bs = (d', Ok tt) /\ loaded d' r rb (seen ++ bs).
Proof.
  revert d seen; induction bs as [|b bs IH]; intros d seen Hl Hk.
  { exists d. by rewrite app_nil_r. }
  cbn [load_blocks]. pose proof (loaded_new d r rb seen b Hl) as Hnew.
  destruct (make_shared d b) as [p d1]. destruct Hnew as (Hl1 & Eb & Hp).
  destruct Hk as (Hpar & Hacc & Hid & Hk).
  destruct (add_impl_succeeds d1 r rb seen p) as [x ->]; [done|done|rewrite Eb; cbn; tauto|].
  destruct (IH (set_head (set_index d1 (index d1 ++ [p])) x) (seen ++ [b])) as (d' & E & H'); [|done|].
  - destruct Hl1 as [Hr1 Hs1 Hb1 Ha1]. split; [done|done| |]; cbn.
    + rewrite fmap_app, <- Hb1. cbn. by rewrite <- Eb.
    + intros q [->|[Hq| ->%list_elem_of_singleton]%elem_of_app]; auto.
  - exists d'. split; [done|]. by rewrite <- app_assoc in H'.
Qed.
End loading.

(** ** Round trip *)

(** The irreversible block number never goes back along a branch. *)
Definition lib_monotone (d : fork_db) (r : ptr) : Prop :=
  forall p q, p ∈ index d -> (q = r \/ q ∈ index d) -> previous (deref d p) = id (deref d q) ->
    dpos_irreversible_blocknum (deref d q) <= dpos_irreversible_blocknum (deref d p).

(** The validator accepts each block's activations, as it did when they came in. *)
Definition features_accepted validator (d : fork_db) (r : ptr) : Prop :=
  forall p q, p ∈ index d -> (q = r \/ q ∈ index d) -> previous (deref d p) = id (deref d q) ->
    accepts validator (deref d q) (deref d p).

Lemma set_validated_true b : validated b = true -> set_validated true b = b.
Proof. destruct b; cbn. by intros ->. Qed.

Section roundtrip.
Context (validator : Z -> gset digest -> list digest -> res unit).
Context (d : fork_db) (r h : ptr) (W : fdb_wf d r h).
Context (Hlib : lib_monotone d r) (Hacc : features_accepted validator d r).

Lemma parent_written_first p q l1 l2 :
  blocks_to_write d = l1 ++ p :: l2 -> q ∈ index d ->
  previous (deref d p) = id (deref d q) -> q ∈ l1.
Proof.
  intros E Hq Ep. pose proof (tw_forest _ _ (wf_tree _ _ _ W)) as Hf.
  assert (p ∈ index d) as Hp by (rewrite <- blocks_to_write_perm, E; set_solver).
  pose proof (Hlib p q Hp (or_intror Hq) Ep).
  pose proof (fw_header _ Hf p Hp) as [_ Hn]. rewrite Ep in Hn.
  rewrite (proj1 (fw_header _ Hf q Hq)) in Hn.
  pose proof Hq as Hl. rewrite <- blocks_to_write_perm, E in Hl.
  apply elem_of_app in Hl as [|[->|Hl]%elem_of_cons]; [done|lia|]. exfalso.
  pose proof (blocks_to_write_sorted d) as Hs. rewrite E in Hs.
  apply StronglySorted_app in Hs as (_ & _ & [_ Hall]%StronglySorted_inv).
  rewrite Forall_forall in Hall. specialize (Hall q Hl). unfold written_before, first_preferred in Hall.
  cbn in Hall. rewrite andb_false_r, orb_false_r in Hall. bool_to_Z. lia.
Qed.

Lemma written_linkable l1 l2 :
  blocks_to_write d = l1 ++ l2 ->
  linkable validator (deref d r) (deref d <$> l1) (deref d <$> l2).
Proof.
  revert l1; induction l2 as [|p l2 IH]; intros l1 E; [done|]. cbn.
  pose proof (wf_tree _ _ _ W) as Ht. pose proof (tw_forest _ _ Ht) as Hf.
  assert (forall x, x ∈ l1 ++ p :: l2 -> x ∈ index d) as Hin.
  { intros x. by rewrite <- E, blocks_to_write_perm. }
  assert (p ∈ index d) as Hp by (apply Hin; set_solver). split_and!.
  - destruct (tw_linked _ _ Ht p Hp) as (q & [->|Hq] & Eq); [exists (deref d r); split; [by left|done]|].
    exists (deref d q). split; [right|done]. apply list_elem_of_fmap_2. by eapply parent_written_first.
  - intros q [->|(x & -> & Hx)%list_elem_of_fmap]%elem_of_cons Eq.
    + apply Hacc; [done|by left|done].
    + apply Hacc; [done|right; apply Hin; set_solver|done].
  - rewrite <- list_fmap_compose. intros (x & Ex & Hx)%list_elem_of_fmap.
    assert (NoDup (blocks_to_write d)) as Hnd.
    { rewrite blocks_to_write_perm. eapply NoDup_fmap_1, Hf. }
    rewrite E in Hnd. apply NoDup_app in Hnd as (_ & Hd & _). apply (Hd x Hx).
    replace x with p; [by left|]. apply (forest_inj d); [done|done|apply Hin; set_solver|done].
  - change [deref d p] with (deref d <$> [p]). rewrite <- fmap_app. apply IH. by rewrite <- app_assoc.
Qed.

Lemma restore_head_spec d' r' :
  loaded d' r' (deref d r) (deref d <$> blocks_to_write d) ->
  exists d2 h', restore_head d' (Some (id (deref d h))) = (d2, Ok tt) /\ d2 = set_head d' (Some h') /\
    deref d' h' = deref d h.
Proof.
  intros [Hr Hs Hb _]. pose proof (wf_tree _ _ _ W) as Ht. pose proof (tw_forest _ _ Ht) as Hf.
  assert (forall x, x ∈ index d' -> exists y, y ∈ index d /\ deref d' x = deref d y) as Hfrom.
  { intros x Hx%(list_elem_of_fmap_2 (deref d')). rewrite Hb in Hx.
    apply list_elem_of_fmap in Hx as (y & E & Hy). rewrite blocks_to_write_perm in Hy. eauto. }
  assert (forall y, y ∈ index d -> exists x, x ∈ index d' /\ deref d' x = deref d y) as Hto.
  { intros y Hy. rewrite <- blocks_to_write_perm in Hy. apply (list_elem_of_fmap_2 (deref d)) in Hy.
    rewrite <- Hb in Hy. apply list_elem_of_fmap in Hy as (x & E & Hx). eauto. }
  unfold restore_head. rewrite Hr, Hs.
  assert (exists h', (if bool_decide (id (deref d r) = id (deref d h)) then Some r'
      else get_block_impl d' (id (deref d h))) = Some h' /\ deref d' h' = deref d h) as (h' & -> & Eh).
  { destruct (wf_head_in _ _ _ W) as [->|Hh]; [rewrite bool_decide_eq_true_2 by done; eauto|].
    rewrite bool_decide_eq_false_2; [|intros E; by apply (root_not_in_ids d r h Ht Hh)].
    unfold get_block_impl. destruct (find_id d' _) as [x|] eqn:Ef.
    - apply find_id_Some in Ef as [Hx Ex]. exists x. split; [done|].
      destruct (Hfrom x Hx) as (y & Hy & Ey). rewrite Ey in *. by apply forest_inj in Ex as ->.
    - apply find_id_None in Ef. destruct Ef. destruct (Hto h Hh) as (x & Hx & Ex).
      apply elem_of_ids. exists x. by rewrite Ex. }
  exists (set_head d' (Some h')), h'. split_and!; [|done|done]. cbn [head set_head].
  f_equal. apply sys_assert_Ok. change (deref (set_head d' (Some h'))) with (deref d').
  change (by_lib_block_num (set_head d' (Some h'))) with (by_lib_block_num d'). rewrite Eh, Hs.
  assert ((forall x, x ∈ index d' -> validated (deref d' x) = false) ->
          bool_decide (id (deref d h) = id (deref d r)) = true) as Hnone.
  { intros H. apply bool_decide_eq_true_2. destruct (wf_head_in _ _ _ W) as [->|Hh]; [done|].
    destruct (Hto h Hh) as (x & Hx & Ex). specialize (H x Hx). rewrite Ex in H.
    pose proof (wf_head_valid _ _ _ W). congruence. }
  destruct (by_lib_block_num d') as [|c l] eqn:Hc.
  - apply by_lib_nil in Hc. apply Hnone. rewrite Hc. by intros x ?%elem_of_nil.
  - destruct (by_lib_begin _ _ _ Hc) as [Hcin _]. destruct (validated (deref d' c)) eqn:Hv.
    + destruct (Hfrom c Hcin) as (y & Hy & Ey). rewrite Ey in *.
      by rewrite (wf_best _ _ _ W).
    + apply Hnone. intros x Hx. destruct (validated (deref d' x)) eqn:Hxv; [|done].
      destruct (begin_best _ _ _ _ Hc Hx Hxv). congruence.
Qed.
End roundtrip.

(** C16: Closing a well-formed fork database and opening the file again restores the
    root, every block state and the head, whatever the state it is opened into:
    the merged write order puts each parent before its children.  Two conditions are
    needed: the irreversible number of a block is never below that of its parent
    (without it the file cannot be opened, [close_open_unlinkable]), and the validator
    given to [open] accepts the protocol features each block activates. *)
Theorem close_open_roundtrip validator d d0 r h :
  fdb_wf d r h -> lib_monotone d r -> features_accepted validator d r ->
  exists d' r' h', open_impl validator d0 (close_impl d).1 = (d', Ok tt) /\
    root d' = Some r' /\ head d' = Some h' /\
    deref d' r' = deref d r /\ deref d' h' = deref d h /\
    deref d' <$> index d' ≡ₚ deref d <$> index d.
Proof.
  intros W Hlib Hacc. unfold close_impl. rewrite (wf_root _ _ _ W), (wf_head _ _ _ W).
  unfold open_impl. cbn [fst file_totem file_version file_root file_blocks file_head].
  change (negb (magic_number =? magic_number)) with false.
  change (negb ((min_supported_version <=? max_supported_version) &&
                (max_supported_version <=? max_supported_version))) with false. cbn iota.
  set (p := fresh (dom (heap d0))).
  assert (loaded (reset_impl d0 (deref d r)) p (deref d r) []) as Hl.
  { split; [done| |done|].
    - etrans; [apply lookup_total_insert_eq|]. apply set_validated_true, (wf_root_valid _ _ _ W).
    - intros q [->|[]%elem_of_nil]. cbn. rewrite lookup_insert_eq. eauto. }
  destruct (load_blocks_spec validator _ p (deref d r) [] (deref d <$> blocks_to_write d) Hl)
    as (d' & E & Hl'); [by apply (written_linkable validator d r h W Hlib Hacc [])|].
  change (map (deref d) (blocks_to_write d)) with (deref d <$> blocks_to_write d). rewrite E.
  destruct (restore_head_spec d r h W d' p Hl') as (d2 & h' & E2 & -> & Eh).
  exists (set_head d' (Some h')), p, h'. destruct Hl' as [Hr Hs Hb _].
  split_and!; [exact E2|done|done|done|done|].
  change (deref d' <$> index d' ≡ₚ deref d <$> index d). by rewrite Hb, blocks_to_write_perm.
Qed.

Module ForkPersistWitness.
Import ForkExample.

(** A validator that rejects activations before time 5. *)
Definition some_validator (t : Z) (_ : gset digest) (_ : list digest) : res unit :=
  sys_assert (5 <=? t) protocol_feature_exception.

Lemma ex_forall (P : block_state -> bool) :
  forallb (fun p => P (deref ex p)) (ex_root :: index ex) = true ->
  forall p, p = ex_root \/ p ∈ index ex -> P (deref ex p) = true.
Proof.
  intros H p Hp. rewrite forallb_forall in H. apply H. rewrite <- list_elem_of_In, elem_of_cons.
  exact Hp.
Qed.

Lemma ex_dpos p : p = ex_root \/ p ∈ index ex -> dpos_irreversible_blocknum (deref ex p) = 0.
Proof.
  intros Hp. apply Z.eqb_eq.
  apply (ex_forall (fun b => dpos_irreversible_blocknum b =? 0)); [vm_compute; reflexivity|exact Hp].
Qed.

Lemma ex_features p : p ∈ index ex -> new_protocol_features (deref ex p) = None.
Proof.
  intros Hp. assert ((if new_protocol_features (deref ex p) then false else true) = true) as H.
  { apply (ex_forall (fun b => if new_protocol_features b then false else true));
      [vm_compute; reflexivity|right; exact Hp]. }
  destruct (new_protocol_features (deref ex p)); [discriminate H|reflexivity].
Qed.

Lemma close_open_roundtrip_witness :
  exists d' r' h', open_impl some_validator start (close_impl ex).1 = (d', Ok tt) /\
    root d' = Some r' /\ head d' = Some h' /\
    deref d' r' = deref ex ex_root /\ deref d' h' = deref ex ex_head /\
    deref d' <$> index d' ≡ₚ deref ex <$> index ex.
Proof.
  apply (close_open_roundtrip some_validator ex start ex_root ex_head ex_wf).
  - intros p q Hp Hq _. rewrite !ex_dpos; [lia|by right|exact Hq].
  - intros p q Hp _ _ fs Hfs. rewrite ex_features in Hfs by exact Hp. discriminate Hfs.
Defined.
(** Blocks 51 and 52 of a branch whose irreversible number goes from 30 back to 10. *)
Definition blk_lib (num lib k : Z) (prev : digest) : block_state :=
  mk_block_state (mk_digest (endian_reverse_u32 num) k 0 0) num prev num lib ∅ None true.
Definition k50 := blk_lib 50 30 0 digest_zero.
Definition k51 := blk_lib 51 30 1 (id k50).
Definition k52 := blk_lib 52 10 2 (id k51).
Definition falling : fork_db := fold_left push [k51; k52] (reset_impl (mk_fork_db ∅ [] None None) k50).

(** Without [lib_monotone] the file is lost: a reachable, well-formed database
    whose branch has a child with a smaller irreversible number than its parent
    is written child first, and opening that file throws [unlinkable_block_exception]. *)
Theorem close_open_unlinkable :
  (exists r h, fdb_wf falling r h) /\
  (open_impl (fun _ _ _ => Ok tt) start (close_impl falling).1).2 = Throw unlinkable_block_exception.
Proof.
  split; [|vm_compute; reflexivity]. apply reachable_wf. unfold falling. cbn [fold_left].
  repeat (apply push_reachable; [|by split]). by constructor.
Qed.
End ForkPersistWitness.
