(* ===== verification/Authority.v ===== *)
(** * Authorities ([authority.hpp], [action.hpp], [public_key.cpp])

    Keys, permission levels and weighted authorities, with the check that an
    authority is well formed. *)

From S2P Require Import Prelude Exceptions Types.

(** ** Public keys *)

(** [fc::crypto::public_key]: the alternative of the variant and what
    [serialize] yields for it, as a sequence of characters. *)
Record public_key := mk_public_key { key_which : Z; key_data : list Z }.

#[global] Instance public_key_eq_dec : EqDecision public_key.
Proof. solve_decision. Defined.

(** [std::lexicographical_compare], the order of arrays and strings. *)
Fixpoint lex_less (xs ys : list Z) : bool :=
  match xs, ys with
  | x :: xs, y :: ys => (x <? y) || ((x =? y) && lex_less xs ys)
  | [], _ :: _ => true
  | _, [] => false
  end.

(** [less_comparator<storage_type>::apply] *)
Definition key_less (a b : public_key) : bool :=
  (key_which a <? key_which b) || ((key_which a =? key_which b) && lex_less (key_data a) (key_data b)).

(** ** Permission levels *)

Record permission_level := mk_level { actor : Z; permission : Z }.

#[global] Instance permission_level_eq_dec : EqDecision permission_level.
Proof. solve_decision. Defined.
#[global] Instance permission_level_countable : Countable permission_level.
Proof.
  apply (inj_countable' (fun l => (actor l, permission l)) (fun '(a, p) => mk_level a p)). by intros [].
Defined.

Definition level_less (lhs rhs : permission_level) : bool :=
  tie_less [actor lhs; permission lhs] [actor rhs; permission rhs].

(** ** Authorities *)

Record permission_level_weight := mk_plw { plw_permission : permission_level; plw_weight : Z }.
Record key_weight := mk_kw { kw_key : public_key; kw_weight : Z }.
Record wait_weight := mk_ww { ww_wait_sec : Z; ww_weight : Z }.

Record authority := mk_authority {
  threshold : Z;
  keys : list key_weight;
  accounts : list permission_level_weight;
  waits : list wait_weight }.

(** One of the three loops of [validate]: [bad prev x] is the ordering violation. *)
Fixpoint tally {A} (bad : A -> A -> bool) (weight : A -> Z) (prev : option A) (xs : list A)
    (total_weight : Z) : option Z :=
  match xs with
  | [] => Some total_weight
  | x :: xs =>
      if match prev with Some p => bad p x | None => false end then None
      else tally bad weight (Some x) xs (u32 (total_weight + weight x))
  end.

(** [validate( auth )] *)
Definition validate (auth : authority) : bool :=
  if 2 ^ 16 <? u64 (Z.of_nat (length (keys auth)) + Z.of_nat (length (accounts auth))
                    + Z.of_nat (length (waits auth))) then false
  else if threshold auth =? 0 then false
  else
    match
      t ← tally (fun p k => negb (key_less (kw_key p) (kw_key k))) kw_weight None (keys auth) 0;
      t ← tally (fun p a => negb (level_less (plw_permission p) (plw_permission a)))
            plw_weight None (accounts auth) t;
      if match waits auth with w :: _ => ww_wait_sec w =? 0 | [] => false end then None
      else tally (fun p w => ww_wait_sec w <=? ww_wait_sec p) ww_weight None (waits auth) t
    with
    | Some total_weight => threshold auth <=? total_weight
    | None => false
    end.

(** [billable_size_v]: a size rounded up to the alignment. *)
Definition billable_size_v (value : Z) : Z := (value + 16 - 1) / 16 * 16.

(** [shared_authority::get_billable_size], with the packed sizes of the keys. *)
Definition get_billable_size (pack_size : public_key -> Z) (auth : authority) : Z :=
  let accounts_size := u64 (Z.of_nat (length (accounts auth)) * billable_size_v 24) in
  let waits_size := u64 (Z.of_nat (length (waits auth)) * billable_size_v 16) in
  let keys_size := fold_left (fun sz k => u64 (u64 (sz + billable_size_v 8) + pack_size (kw_key k))) (keys auth) 0 in
  u64 (accounts_size + waits_size + keys_size).

(** ** What [validate] accepts *)

Definition weights_wf (auth : authority) : Prop :=
  Forall (fun k => is_u16 (kw_weight k)) (keys auth) /\
  Forall (fun a => is_u16 (plw_weight a)) (accounts auth) /\
  Forall (fun w => is_u16 (ww_weight w)) (waits auth).

Definition total_weight (auth : authority) : Z :=
  sum_by kw_weight (keys auth) + sum_by plw_weight (accounts auth) + sum_by ww_weight (waits auth).

Lemma sum_by_bound {A} (f : A -> Z) (l : list A) :
  Forall (fun x => is_u16 (f x)) l -> 0 <= sum_by f l <= Z.of_nat (length l) * (2 ^ 16 - 1).
Proof.
  unfold sum_by, is_u16. induction 1 as [|x l Hx _ IH]; cbn [foldr length]; [lia|].
  rewrite Nat2Z.inj_succ. lia.
Qed.

(** Neighbours are in strict order. *)
Fixpoint chained {A} (good : A -> A -> Prop) (prev : option A) (xs : list A) : Prop :=
  match xs with
  | [] => True
  | x :: xs => match prev with Some p => good p x | None => True end /\ chained good (Some x) xs
  end.

Lemma tally_spec {A} (bad : A -> A -> bool) (good : A -> A -> Prop) weight prev (xs : list A) t :
  (forall a b, bad a b = false <-> good a b) ->
  Forall (fun x => is_u16 (weight x)) xs -> 0 <= t -> t + sum_by weight xs < 2 ^ 32 ->
  (chained good prev xs /\ tally bad weight prev xs t = Some (t + sum_by weight xs)) \/
  (~ chained good prev xs /\ tally bad weight prev xs t = None).
Proof.
  intros Hb. revert prev t; induction xs as [|x xs IH]; intros prev t Hw Ht Hs; cbn [chained tally].
  { left. split; [done|]. f_equal. change (sum_by weight []) with 0. lia. }
  apply Forall_cons in Hw as [Hx Hxs].
  change (sum_by weight (x :: xs)) with (weight x + sum_by weight xs) in *. pose proof (sum_by_bound _ _ Hxs). unfold is_u16 in Hx.
  destruct (match prev with Some p => bad p x | None => false end) eqn:E.
  - right. split; [|done]. destruct prev as [p|]; [|done]. intros [Hg%Hb _]. congruence.
  - assert (match prev with Some p => good p x | None => True end) as Hp.
    { destruct prev; [by apply Hb|done]. }
    rewrite u32_small by lia.
    destruct (IH (Some x) (t + weight x)) as [[H1 ->]|[H1 ->]]; [done|lia|lia|left|right].
    + split; [done|]. f_equal. lia.
    + split; [tauto|done].
Qed.

(** Keys are strictly ascending, and so unique. *)
Definition key_lt (a b : key_weight) : Prop := key_less (kw_key a) (kw_key b) = true.
Definition account_lt (a b : permission_level_weight) : Prop :=
  level_less (plw_permission a) (plw_permission b) = true.
Definition wait_lt (a b : wait_weight) : Prop := ww_wait_sec a < ww_wait_sec b.

Record authority_valid (auth : authority) : Prop := {
  av_size : Z.of_nat (length (keys auth) + length (accounts auth) + length (waits auth)) <= 2 ^ 16;
  av_threshold : threshold auth <> 0;
  av_keys : chained key_lt None (keys auth);
  av_accounts : chained account_lt None (accounts auth);
  av_waits : chained wait_lt None (waits auth);
  av_first_wait : match waits auth with w :: _ => ww_wait_sec w <> 0 | [] => True end;
  av_reachable : threshold auth <= total_weight auth }.

(** [validate] accepts exactly the authorities with a non-zero threshold that
    can be reached, at most 2^16 entries, keys, accounts and waits each in
    strictly ascending order and no zero wait; the 32-bit running total never
    wraps. *)
Theorem validate_spec auth :
  weights_wf auth ->
  Z.of_nat (length (keys auth) + length (accounts auth) + length (waits auth)) < 2 ^ 64 ->
  validate auth = true <-> authority_valid auth.
Proof.
  intros (Hk & Ha & Hw) Hlen. unfold validate. rewrite u64_small by lia.
  pose proof (sum_by_bound _ _ Hk). pose proof (sum_by_bound _ _ Ha). pose proof (sum_by_bound _ _ Hw).
  destruct (2 ^ 16 <? _) eqn:E1; bool_to_Z.
  { split; [done|]. intros []. lia. }
  destruct (threshold auth =? 0) eqn:E2; bool_to_Z; [split; [done|by intros []]|].
  destruct (tally_spec (fun p k => negb (key_less (kw_key p) (kw_key k))) key_lt kw_weight None (keys auth) 0)
    as [[K ->]|[K ->]]; [by intros; rewrite negb_false_iff|done|lia|lia| |split; [done|by intros []]].
  cbn [mbind option_bind].
  destruct (tally_spec (fun p a => negb (level_less (plw_permission p) (plw_permission a))) account_lt
              plw_weight None (accounts auth) (0 + sum_by kw_weight (keys auth)))
    as [[A ->]|[A ->]]; [by intros; rewrite negb_false_iff|done|lia|lia| |split; [done|by intros []]].
  cbn [mbind option_bind].
  destruct (match waits auth with w :: _ => ww_wait_sec w =? 0 | [] => false end) eqn:E3.
  { split; [done|]. intros [? ? ? ? ? Hf ?]. destruct (waits auth); [done|]. bool_to_Z. done. }
  assert (match waits auth with w :: _ => ww_wait_sec w <> 0 | [] => True end) as Hf.
  { destruct (waits auth); [done|]. by bool_to_Z. }
  destruct (tally_spec (fun p w => ww_wait_sec w <=? ww_wait_sec p) wait_lt ww_weight None (waits auth)
              (0 + sum_by kw_weight (keys auth) + sum_by plw_weight (accounts auth)))
    as [[Wt ->]|[Wt ->]]; [by intros; rewrite Z.leb_gt|done|lia|lia| |split; [done|by intros []]].
  rewrite Z.leb_le. split.
  - intros Ht. split; try done; unfold total_weight; lia.
  - intros [? ? ? ? ? ? Hr]. unfold total_weight in Hr. lia.
Qed.

Lemma validate_spec_witness :
  authority_valid (mk_authority 2 [mk_kw (mk_public_key 0 [2; 5]) 1; mk_kw (mk_public_key 0 [3]) 1] []
                     [mk_ww 10 1]).
Proof.
  apply validate_spec; [|cbn; lia|vm_compute; reflexivity].
  repeat split; repeat constructor; cbn; lia.
Defined.

(** Strictly ascending lists have no repetition. *)
Lemma lex_less_irrefl xs : lex_less xs xs = false.
Proof. induction xs as [|x xs IH]; cbn; [done|]. by rewrite Z.ltb_irrefl, IH, andb_false_r. Qed.

Lemma lex_less_trans xs ys zs :
  lex_less xs ys = true -> lex_less ys zs = true -> lex_less xs zs = true.
Proof.
  revert ys zs; induction xs as [|x xs IH]; intros [|y ys] [|z zs]; cbn; try done.
  rewrite !orb_true_iff, !andb_true_iff, !Z.ltb_lt, !Z.eqb_eq.
  intros [?|[-> ?]] [?|[-> ?]]; [left; lia..|]. right; eauto.
Qed.

Lemma key_less_irrefl a : key_less a a = false.
Proof. unfold key_less. by rewrite Z.ltb_irrefl, lex_less_irrefl, andb_false_r. Qed.

Lemma key_less_trans a b c : key_less a b = true -> key_less b c = true -> key_less a c = true.
Proof.
  unfold key_less. rewrite !orb_true_iff, !andb_true_iff, !Z.ltb_lt, !Z.eqb_eq.
  intros [?|[? ?]] [?|[? ?]]; [left; lia..|]. right; split; [lia|eauto using lex_less_trans].
Qed.

Lemma chained_NoDup {A B} (good : A -> A -> Prop) (f : A -> B) prev (xs : list A) :
  (forall a b c, good a b -> good b c -> good a c) -> (forall a b, good a b -> f a <> f b) ->
  chained good prev xs ->
  NoDup (f <$> xs) /\ forall p, prev = Some p -> Forall (good p) xs.
Proof.
  intros Htr Hir. revert prev; induction xs as [|x xs IH]; intros prev Hc; cbn in *.
  { split; [constructor|done]. }
  destruct Hc as [Hp Hc]. destruct (IH _ Hc) as [Hnd Hall]. specialize (Hall x eq_refl). split.
  - rewrite NoDup_cons. split; [|done]. intros (y & E & Hy)%list_elem_of_fmap.
    rewrite Forall_forall in Hall. by eapply Hir; [apply Hall|].
  - intros p ->. constructor; [done|]. eapply Forall_impl; [done|]. eauto.
Qed.

Lemma valid_keys_NoDup auth : authority_valid auth -> NoDup (kw_key <$> keys auth).
Proof.
  intros V. eapply (chained_NoDup key_lt); [..|apply V].
  - intros a b c. apply key_less_trans.
  - intros a b H E. unfold key_lt in H. rewrite E, key_less_irrefl in H. done.
Qed.
