(* ===== verification/AuthorityChecker.v ===== *)
(** * Deciding whether an authority is satisfied ([authority_checker.hpp])

    The recursive check over keys, waits and other permissions, with its cache
    of evaluated permissions and its record of the keys it used.  It is sound
    for every permission graph, and exact on graphs without cycles that fit the
    depth limit. *)

From S2P Require Import Prelude Exceptions Types Authority.

Inductive permission_cache_status := being_evaluated | permission_unsatisfied | permission_satisfied.

Notation permission_cache_type := (gmap permission_level permission_cache_status).

(** The parts of [authority_checker] that a check changes. *)
Record checker_state := mk_checker_state {
  used_keys_ : list bool;
  cached_permissions : permission_cache_type }.

Definition permission_status_in_cache (permissions : permission_cache_type) (level : permission_level)
  : option permission_cache_status :=
  match permissions !! level with
  | Some s => Some s
  | None => permissions !! mk_level (actor level) 0
  end.

(** An entry of [meta_permission_map]. *)
Inductive meta_permission :=
| meta_account (p : permission_level_weight)
| meta_key (k : key_weight)
| meta_wait (w : wait_weight).

Definition meta_weight (m : meta_permission) : Z :=
  match m with
  | meta_account p => plw_weight p | meta_key k => kw_weight k | meta_wait w => ww_weight w
  end.
Definition meta_priority (m : meta_permission) : Z :=
  match m with meta_account _ => 1 | meta_key _ => 2 | meta_wait _ => 3 end.
Definition meta_tuple (m : meta_permission) : list Z := [meta_weight m; meta_priority m].

(** [flat_multimap<..., std::greater<>>::emplace]: descending keys, after equal ones. *)
Fixpoint emplace_permission (m : meta_permission) (l : list meta_permission) : list meta_permission :=
  match l with
  | [] => [m]
  | x :: l => if tie_less (meta_tuple x) (meta_tuple m) then m :: x :: l
              else x :: emplace_permission m l
  end.

(** The entries of an authority in the order they are emplaced. *)
Definition entries (auth : authority) : list meta_permission :=
  (meta_account <$> accounts auth) ++ (meta_key <$> keys auth) ++ (meta_wait <$> waits auth).

Definition meta_permissions (auth : authority) : list meta_permission :=
  fold_left (fun l m => emplace_permission m l) (entries auth) [].

(** Position of a key in [provided_keys]. *)
Fixpoint find_key (k : public_key) (ks : list public_key) : option nat :=
  match ks with
  | [] => None
  | x :: ks => if bool_decide (x = k) then Some O else S <$> find_key k ks
  end.

(** The loop of [satisfied]: [visit] returns the new total weight.  The keys
    used so far are restored when the authority is not satisfied. *)
Fixpoint tally_loop (visit : meta_permission -> Z -> checker_state -> res (Z * checker_state))
    (thr : Z) (saved : list bool) (ms : list meta_permission) (total : Z) (st : checker_state)
  : res (bool * checker_state) :=
  match ms with
  | [] => Ok (false, mk_checker_state saved (cached_permissions st))
  | m :: ms =>
      '(total, st) ← visit m total st;
      if thr <=? total then Ok (true, st) else tally_loop visit thr saved ms total st
  end.

Section checker.
Variable permission_to_authority : permission_level -> res authority.
Variable provided_keys : list public_key.
Variable provided_permissions : gset permission_level.
Variable provided_delay : Z.

(** [weight_tally_visitor::operator()]; [rec] is the check one level deeper, if
    the depth limit allows it. *)
Definition visit (rec : option (authority -> checker_state -> res (bool * checker_state)))
    (m : meta_permission) (total : Z) (st : checker_state) : res (Z * checker_state) :=
  match m with
  | meta_wait w =>
      Ok (if ww_wait_sec w * 1000000 <=? provided_delay then u32 (total + ww_weight w) else total, st)
  | meta_key k =>
      match find_key (kw_key k) provided_keys with
      | Some i => Ok (u32 (total + kw_weight k),
                      mk_checker_state (<[i := true]> (used_keys_ st)) (cached_permissions st))
      | None => Ok (total, st)
      end
  | meta_account p =>
      match permission_status_in_cache (cached_permissions st) (plw_permission p) with
      | None =>
          match rec with
          | None => Ok (total, st)
          | Some rec =>
              match permission_to_authority (plw_permission p) with
              | Throw e => if is_a e permission_query_exception then Ok (total, st) else Throw e
              | Ok auth =>
                  '(r, st) ← rec auth (mk_checker_state (used_keys_ st)
                               (<[plw_permission p := being_evaluated]> (cached_permissions st)));
                  let set (s : permission_cache_status) := mk_checker_state (used_keys_ st)
                                 (<[plw_permission p := s]> (cached_permissions st)) in
                  Ok (if (r : bool) then (u32 (total + plw_weight p), set permission_satisfied)
                      else (total, set permission_unsatisfied))
              end
          end
      | Some permission_satisfied => Ok (u32 (total + plw_weight p), st)
      | Some _ => Ok (total, st)
      end
  end.

(** [satisfied( authority, cached_permissions, depth )] with [n] levels left
    below the limit. *)
Fixpoint satisfied_auth (n : nat) (auth : authority) (st : checker_state)
  : res (bool * checker_state) :=
  tally_loop (visit match n with O => None | S n => Some (satisfied_auth n) end)
    (threshold auth) (used_keys_ st) (meta_permissions auth) 0 st.

Definition rec_of (n : nat) : option (authority -> checker_state -> res (bool * checker_state)) :=
  match n with O => None | S n => Some (satisfied_auth n) end.

Definition initialize_permission_cache : permission_cache_type :=
  gset_to_gmap permission_satisfied provided_permissions.

(** [satisfied( permission )] with a fresh cache; returns the used keys too. *)
Definition satisfied (recursion_depth_limit : Z) (p : permission_level) (used : list bool)
  : res (bool * list bool) :=
  '(total, st) ← visit (rec_of (Z.to_nat recursion_depth_limit)) (meta_account (mk_plw p 1)) 0
                   (mk_checker_state used initialize_permission_cache);
  Ok (0 <? total, used_keys_ st).

(** [satisfied( authority )] with a fresh cache. *)
Definition satisfied_authority (recursion_depth_limit : Z) (auth : authority) (used : list bool)
  : res (bool * list bool) :=
  '(r, st) ← satisfied_auth (Z.to_nat recursion_depth_limit) auth
               (mk_checker_state used initialize_permission_cache);
  Ok (r, used_keys_ st).

Definition all_keys_used (used : list bool) : bool := forallb (fun b => b) used.

(** [filter_data_by_marker] *)
Definition filter_by_marker (used : list bool) (marker : bool) : list public_key :=
  snd <$> List.filter (fun '(u, _) => Bool.eqb u marker) (zip used provided_keys).
End checker.

(** ** What it means to be satisfied *)

Section semantics.
Context (pta : permission_level -> res authority).
Context (provided_keys : list public_key).
Context (provided_permissions : gset permission_level).
Context (delay : Z).

(** The least relation: an authority is granted by a selection of its entries
    that reaches the threshold, each granted on its own. *)
Inductive auth_granted : authority -> Prop :=
| auth_granted_intro auth sel :
    sel ⊆+ entries auth -> Forall entry_granted sel ->
    threshold auth <= sum_by meta_weight sel -> auth_granted auth
with entry_granted : meta_permission -> Prop :=
| key_granted k : kw_key k ∈ provided_keys -> entry_granted (meta_key k)
| wait_granted w : ww_wait_sec w * 1000000 <= delay -> entry_granted (meta_wait w)
| account_granted p : level_granted (plw_permission p) -> entry_granted (meta_account p)
with level_granted : permission_level -> Prop :=
| level_provided l : l ∈ provided_permissions -> level_granted l
| level_wildcard l : level_granted (mk_level (actor l) 0) -> level_granted l
| level_authority l auth : pta l = Ok auth -> auth_granted auth -> level_granted l.

(** ** Soundness *)

Lemma emplace_permission_perm m l : emplace_permission m l ≡ₚ m :: l.
Proof.
  induction l as [|x l IH]; cbn [emplace_permission]; [done|].
  destruct (tie_less (meta_tuple x) (meta_tuple m)); [done|]. rewrite IH. constructor.
Qed.

Lemma meta_permissions_perm auth : meta_permissions auth ≡ₚ entries auth.
Proof.
  unfold meta_permissions. rewrite <- (app_nil_r (entries auth)) at 2.
  generalize (entries auth) ([] : list meta_permission). induction l as [|m l IH]; intros acc; cbn; [done|].
  rewrite IH, emplace_permission_perm. by rewrite Permutation_middle.
Qed.

Lemma find_key_Some k ks i : find_key k ks = Some i -> ks !! i = Some k.
Proof.
  revert i; induction ks as [|x ks IH]; intros i; cbn; [done|]. case_bool_decide; [by intros [= <-]; subst|].
  destruct (find_key k ks); cbn; [|done]. intros [= <-]. cbn. auto.
Qed.

Lemma find_key_None k ks : find_key k ks = None -> k ∉ ks.
Proof.
  induction ks as [|x ks IH]; cbn; [intros _; apply not_elem_of_nil|]. case_bool_decide; [done|].
  destruct (find_key k ks); cbn; [done|]. intros _. rewrite not_elem_of_cons. auto.
Qed.

Definition cache_sound (st : checker_state) : Prop :=
  forall l, cached_permissions st !! l = Some permission_satisfied -> level_granted l.

Lemma status_sound st l :
  cache_sound st -> permission_status_in_cache (cached_permissions st) l = Some permission_satisfied ->
  level_granted l.
Proof.
  unfold permission_status_in_cache. intros Hc. destruct (cached_permissions st !! l) eqn:E.
  - intros [= ->]. by apply Hc.
  - intros H. apply level_wildcard. by apply Hc.
Qed.

Lemma cache_sound_insert u u' c l s :
  cache_sound (mk_checker_state u c) -> (s = permission_satisfied -> level_granted l) ->
  cache_sound (mk_checker_state u' (<[l := s]> c)).
Proof.
  intros Hc Hs l' H. cbn in H. apply lookup_insert_Some in H as [[<- ->]|[_ H]]; [auto|]. by apply Hc.
Qed.

Definition rec_sound (rec : authority -> checker_state -> res (bool * checker_state)) : Prop :=
  forall auth st r st', weights_wf auth -> cache_sound st -> rec auth st = Ok (r, st') ->
    cache_sound st' /\ (r = true -> auth_granted auth).

Context (Hpta : forall l auth, pta l = Ok auth -> weights_wf auth).

Lemma u32_le z : 0 <= z -> 0 <= u32 z <= z.
Proof. intros. unfold u32. split; [by apply Z.mod_pos_bound|by apply Z.mod_le]. Qed.

Lemma visit_sound rec m total st total' st' :
  (forall f, rec = Some f -> rec_sound f) -> 0 <= total -> 0 <= meta_weight m -> cache_sound st ->
  visit pta provided_keys delay rec m total st = Ok (total', st') ->
  cache_sound st' /\ 0 <= total' /\
  (total' <= total \/ (entry_granted m /\ total' <= total + meta_weight m)).
Proof.
  intros Hrec Ht Hw Hc. destruct m as [p|k|w]; cbn [meta_weight visit] in *.
  - pose proof (u32_le (total + plw_weight p)) as Hu.
    destruct (permission_status_in_cache _ _) as [[]|] eqn:Es.
    1, 2: intros [= <- <-]; split_and!; [done|lia|lia].
    + intros [= <- <-]. split_and!; [done|lia|]. right. split; [|lia].
      constructor. by eapply status_sound.
    + destruct rec as [f|]; [|intros [= <- <-]; split_and!; [done|lia|lia]].
      destruct (pta (plw_permission p)) as [auth|e] eqn:Ep.
      2: { destruct (is_a e _); intros [= <- <-]. split_and!; [done|lia|lia]. }
      intros ((r & st1) & Hf & H)%bind_Ok.
      apply Hrec in Hf as [Hc1 Hg]; [|done|by eapply Hpta|].
      2: { apply (cache_sound_insert (used_keys_ st)); [done|done]. }
      destruct st1 as [u c]. destruct r; injection H as <- <-.
      * assert (level_granted (plw_permission p)) by (eapply level_authority; eauto).
        split_and!; [by eapply cache_sound_insert|lia|]. right. split; [by constructor|lia].
      * split_and!; [by eapply cache_sound_insert|lia|lia].
  - pose proof (u32_le (total + kw_weight k)). destruct (find_key _ _) as [i|] eqn:Ek; intros [= <- <-].
    + split_and!; [done|lia|]. right. split; [|lia]. constructor.
      by eapply list_elem_of_lookup_2, find_key_Some.
    + split_and!; [done|lia|lia].
  - pose proof (u32_le (total + ww_weight w)). intros [= <- <-].
    split_and!; [done|by destruct (_ <=? _); lia|]. destruct (_ <=? _) eqn:E; [|lia].
    bool_to_Z. right. split; [by constructor|lia].
Qed.

Lemma tally_loop_sound rec thr saved ms total st r st' done_ sel :
  (forall f, rec = Some f -> rec_sound f) -> Forall (fun m => 0 <= meta_weight m) ms ->
  0 <= total <= sum_by meta_weight sel -> cache_sound st ->
  sel ⊆+ done_ -> Forall entry_granted sel ->
  tally_loop (visit pta provided_keys delay rec) thr saved ms total st = Ok (r, st') ->
  cache_sound st' /\
  (r = true -> exists sel', sel' ⊆+ done_ ++ ms /\ Forall entry_granted sel' /\ thr <= sum_by meta_weight sel').
Proof.
  intros Hrec. revert total st done_ sel; induction ms as [|m ms IH];
    intros total st done_ sel Hw Ht Hc Hsub Hsel; cbn [tally_loop].
  { intros [= <- <-]. done. }
  apply Forall_cons in Hw as [Hwm Hw].
  intros ((total1 & st1) & Hv & H)%bind_Ok.
  destruct (visit_sound _ _ _ _ _ _ Hrec (proj1 Ht) Hwm Hc Hv) as (Hc1 & Ht1 & Hcase).
  assert (exists sel1, sel1 ⊆+ done_ ++ [m] /\ Forall entry_granted sel1 /\
            total1 <= sum_by meta_weight sel1) as (sel1 & Hsub1 & Hsel1 & Hs1).
  { destruct Hcase as [Hle|[Hg Hle]].
    - exists sel. split_and!; [|done|lia]. etrans; [done|]. apply submseteq_inserts_r. done.
    - exists (m :: sel). split_and!; [|by constructor|unfold sum_by in *; cbn; lia].
      rewrite <- Permutation_cons_append. by apply submseteq_skip. }
  destruct (thr <=? total1) eqn:E; bool_to_Z.
  - injection H as <- <-. split; [done|]. intros _. exists sel1. split_and!; [|done|lia].
    etrans; [done|]. apply submseteq_app; [done|]. apply submseteq_skip, submseteq_nil_l.
  - apply (IH _ _ (done_ ++ [m]) sel1) in H; [|done|lia|done|done|done].
    by rewrite <- app_assoc in H.
Qed.

Lemma entries_weights auth : weights_wf auth -> Forall (fun m => 0 <= meta_weight m) (entries auth).
Proof.
  intros (Hk & Ha & Hw). unfold entries. rewrite !Forall_app, !Forall_fmap. unfold is_u16 in *.
  split_and!; (eapply Forall_impl; [eassumption|cbn; lia]).
Qed.

Lemma satisfied_auth_sound n : rec_sound (satisfied_auth pta provided_keys delay n).
Proof.
  induction n as [|n IH]; intros auth st r st' Hw Hc H; cbn [satisfied_auth] in H.
  all: apply (tally_loop_sound _ _ _ _ _ _ _ _ [] []) in H as [Hc' Hg];
    [| |by rewrite meta_permissions_perm; apply entries_weights|done|done|done|by constructor].
  all: try (intros f [= <-]; exact IH); try done.
  all: split; [done|]; intros Hr; destruct (Hg Hr) as (sel & Hsub & Hsel & Hs);
    econstructor; [|exact Hsel|exact Hs]; cbn in Hsub; by rewrite meta_permissions_perm in Hsub.
Qed.
End semantics.

(** ** The record of used keys *)

Definition used_le (u u' : list bool) : Prop :=
  length u' = length u /\ forall i, u !! i = Some true -> u' !! i = Some true.

#[export] Instance used_le_preorder : PreOrder used_le.
Proof. split; [done|]. intros a b c [H1 H2] [H3 H4]. split; [congruence|auto]. Qed.

Definition rec_used (rec : authority -> checker_state -> res (bool * checker_state)) : Prop :=
  forall auth st r st', rec auth st = Ok (r, st') ->
    used_le (used_keys_ st) (used_keys_ st') /\ (r = false -> used_keys_ st' = used_keys_ st).

Lemma visit_used pta ks delay rec m total st total' st' :
  (forall f, rec = Some f -> rec_used f) ->
  visit pta ks delay rec m total st = Ok (total', st') -> used_le (used_keys_ st) (used_keys_ st').
Proof.
  intros Hrec. destruct m as [p|k|w]; cbn [visit].
  - destruct (permission_status_in_cache _ _) as [[]|]; [by intros [= <- <-]..|].
    destruct rec as [f|]; [|by intros [= <- <-]].
    destruct (pta _) as [auth|e]; [|by destruct (is_a _ _); intros [= <- <-]].
    intros ((r & st1) & [Hf _]%Hrec & H)%bind_Ok; [|done]. by destruct r; injection H as <- <-.
  - destruct (find_key _ _) as [i|]; intros [= <- <-]; [|done]. cbn. split; [by rewrite length_insert|].
    intros j Hj. destruct (decide (i = j)) as [->|]; [|by rewrite list_lookup_insert_ne].
    by rewrite list_lookup_insert_eq by (by eapply lookup_lt_Some).
  - by intros [= <- <-].
Qed.

Lemma tally_loop_used pta ks delay rec thr saved ms total st r st' :
  (forall f, rec = Some f -> rec_used f) -> used_le saved (used_keys_ st) ->
  tally_loop (visit pta ks delay rec) thr saved ms total st = Ok (r, st') ->
  used_le saved (used_keys_ st') /\ (r = false -> used_keys_ st' = saved).
Proof.
  intros Hrec. revert total st; induction ms as [|m ms IH]; intros total st Hs; cbn [tally_loop].
  { by intros [= <- <-]. }
  intros ((total1 & st1) & Hv & H)%bind_Ok. apply visit_used in Hv; [|done].
  assert (used_le saved (used_keys_ st1)) by by etrans.
  destruct (thr <=? total1); [by injection H as <- <-|]. by eapply IH.
Qed.

Lemma satisfied_auth_used pta ks delay n : rec_used (satisfied_auth pta ks delay n).
Proof.
  induction n as [|n IH]; intros auth st r st' H; cbn [satisfied_auth] in H;
    apply tally_loop_used in H; try done. by intros f [= <-].
Qed.

Lemma rec_of_used pta ks delay n f : rec_of pta ks delay n = Some f -> rec_used f.
Proof. destruct n; [done|]. intros [= <-]. apply satisfied_auth_used. Qed.

(** ** Exactness on acyclic graphs *)

Section exact.
Context (pta : permission_level -> res authority).
Context (provided_keys : list public_key).
Context (provided_permissions : gset permission_level).
Context (delay : Z).
Local Abbreviation auth_granted := (auth_granted pta provided_keys provided_permissions delay).
Local Abbreviation entry_granted := (entry_granted pta provided_keys provided_permissions delay).
Local Abbreviation level_granted := (level_granted pta provided_keys provided_permissions delay).

(** Permissions are ranked below the permissions whose authority names them. *)
Context (rank : permission_level -> nat).

(** An authority with sane weights that names only permissions below [b]. *)
Record auth_ok (b : nat) (auth : authority) : Prop := {
  ao_weights : weights_wf auth;
  ao_threshold : 0 < threshold auth;
  ao_total : total_weight auth < 2 ^ 32;
  ao_accounts : forall p, p ∈ accounts auth ->
    (rank (plw_permission p) < b)%nat /\ permission (plw_permission p) <> 0 }.

Record graph_ok : Prop := {
  go_auth : forall l auth, pta l = Ok auth -> auth_ok (rank l) auth /\ permission l <> 0;
  go_missing : forall l e, permission l <> 0 -> pta l = Throw e ->
    is_a e permission_query_exception = true }.
Context (Hgraph : graph_ok).

Definition status_ok (b : nat) (l : permission_level) (s : permission_cache_status) : Prop :=
  match s with
  | permission_satisfied => level_granted l
  | permission_unsatisfied => ~ level_granted l /\ permission l <> 0
  | being_evaluated => (b <= rank l)%nat /\ permission l <> 0
  end.

Record cache_ok (b : nat) (c : permission_cache_type) : Prop := {
  co_status : forall l s, c !! l = Some s -> status_ok b l s;
  co_provided : forall l, l ∈ provided_permissions -> c !! l = Some permission_satisfied }.

(** Nothing new is left under evaluation. *)
Definition settled (c c' : permission_cache_type) : Prop :=
  forall l, c' !! l = Some being_evaluated -> c !! l = Some being_evaluated.

#[local] Instance settled_preorder : PreOrder settled.
Proof. split; [by intros c l|]. intros a b c H1 H2 l H. auto. Qed.

Lemma wildcard_provided a : level_granted (mk_level a 0) -> mk_level a 0 ∈ provided_permissions.
Proof.
  intros H. remember (mk_level a 0) as l eqn:El. induction H as [l Hl|l _ IH|l auth Hp _] using
    level_granted_ind; [done|subst; by apply IH|].
  apply (go_auth Hgraph) in Hp as [_ Hp]. by subst.
Qed.

(** A status found in the cache is the truth. *)
Lemma status_exact b c l s :
  cache_ok b c -> (rank l < b)%nat -> permission_status_in_cache c l = Some s ->
  (s = permission_satisfied /\ level_granted l) \/ (s = permission_unsatisfied /\ ~ level_granted l).
Proof.
  intros [Hs _] Hr. unfold permission_status_in_cache. destruct (c !! l) as [s'|] eqn:E.
  - intros [= ->]. apply Hs in E. destruct s; cbn in E; [lia|naive_solver..].
  - intros E'. apply Hs in E'. destruct s; cbn in E'; [naive_solver..|].
    left. split; [done|]. by apply level_wildcard.
Qed.

(** A permission that is not in the cache is granted by its authority or not at all. *)
Lemma uncached_granted b c l auth :
  cache_ok b c -> permission_status_in_cache c l = None -> pta l = Ok auth ->
  level_granted l <-> auth_granted auth.
Proof.
  intros [_ Hp] E Ha. unfold permission_status_in_cache in E.
  destruct (c !! l) eqn:E1; [done|]. split; [|by apply level_authority].
  intros H. inversion H as [? Hl|? Hl|? ? Hl]; subst.
  - apply Hp in Hl. congruence.
  - apply wildcard_provided, Hp in Hl. congruence.
  - congruence.
Qed.

Lemma uncached_missing b c l e :
  cache_ok b c -> permission_status_in_cache c l = None -> pta l = Throw e -> ~ level_granted l.
Proof.
  intros [_ Hp] E Ha H. unfold permission_status_in_cache in E. destruct (c !! l) eqn:E1; [done|].
  inversion H as [? Hl|? Hl|? ? Hl]; subst.
  - apply Hp in Hl. congruence.
  - apply wildcard_provided, Hp in Hl. congruence.
  - congruence.
Qed.

Lemma cache_ok_insert b b' c l s :
  cache_ok b' c -> (forall k, c !! k = Some being_evaluated -> k <> l -> (b <= rank k)%nat) ->
  l ∉ provided_permissions -> status_ok b l s -> cache_ok b (<[l := s]> c).
Proof.
  intros [Hs Hp] Hb Hl Hok. split.
  - intros k s' [[<- <-]|[Hne E]]%lookup_insert_Some; [done|]. pose proof (Hs _ _ E) as H.
    destruct s'; cbn in *; [|done..]. split; [by apply Hb|naive_solver].
  - intros k Hk. rewrite lookup_insert_ne; [by apply Hp|congruence].
Qed.

Definition rec_exact (b : nat) (rec : authority -> checker_state -> res (bool * checker_state)) : Prop :=
  forall auth st, auth_ok b auth -> cache_ok b (cached_permissions st) ->
    exists r st', rec auth st = Ok (r, st') /\ cache_ok b (cached_permissions st') /\
      settled (cached_permissions st) (cached_permissions st') /\ (r = true <-> auth_granted auth).

Definition entry_ok (b : nat) (m : meta_permission) : Prop :=
  0 <= meta_weight m /\
  match m with
  | meta_account p => (rank (plw_permission p) < b)%nat /\ permission (plw_permission p) <> 0
  | _ => True
  end.

Lemma visit_exact b rec m total st :
  (match rec with
   | Some f => forall b', (b' < b)%nat -> rec_exact b' f
   | None => b = O
   end) ->
  entry_ok b m -> 0 <= total -> total + meta_weight m < 2 ^ 32 -> cache_ok b (cached_permissions st) ->
  exists total' st', visit pta provided_keys delay rec m total st = Ok (total', st') /\
    cache_ok b (cached_permissions st') /\ settled (cached_permissions st) (cached_permissions st') /\
    ((entry_granted m /\ total' = total + meta_weight m) \/ (~ entry_granted m /\ total' = total)).
Proof.
  intros Hrec [Hw Hm] Ht Hsum Hc. destruct m as [p|k|w]; cbn [meta_weight visit] in *.
  - destruct Hm as [Hrk Hp0]. set (l := plw_permission p) in *.
    assert (entry_granted (meta_account p) <-> level_granted l) as Hiff.
    { split; [by inversion 1|by constructor]. }
    setoid_rewrite Hiff. rewrite u32_small by lia. destruct (permission_status_in_cache _ l) as [s|] eqn:Es.
    { destruct (status_exact b _ l s Hc Hrk Es) as [[-> Hg]|[-> Hg]];
        do 2 eexists; (split; [reflexivity|]); split_and!; try done; [left|right]; done. }
    destruct rec as [f|]; [|lia]. specialize (Hrec (rank l) Hrk).
    assert (cached_permissions st !! l = None) as El.
    { unfold permission_status_in_cache in Es. by destruct (_ !! l). }
    assert (l ∉ provided_permissions) as Hnp.
    { intros Hl%(co_provided _ _ Hc). congruence. }
    destruct (pta l) as [auth|e] eqn:Ep.
    2: { rewrite (go_missing Hgraph l e) by done. do 2 eexists. split; [reflexivity|].
         split_and!; [done|done|]. right. split; [by eapply uncached_missing|done]. }
    destruct (Hrec auth (mk_checker_state (used_keys_ st) (<[l := being_evaluated]> (cached_permissions st))))
      as (r & st1 & -> & Hc1 & Hs1 & Hr).
    { by apply (go_auth Hgraph) in Ep as [? _]. }
    { cbn. eapply cache_ok_insert; [done| |done|by split].
      intros k Hk _. apply (co_status _ _ Hc) in Hk as [? _]. lia. }
    cbn [mbind result_bind]. cbn in Hs1.
    assert (forall s, status_ok b l s -> s <> being_evaluated ->
      cache_ok b (<[l := s]> (cached_permissions st1)) /\
      settled (cached_permissions st) (<[l := s]> (cached_permissions st1))) as Hset.
    { intros s Hs Hne. split.
      - eapply cache_ok_insert; [done| |done|done].
        intros k Hk Hkl. apply Hs1 in Hk. rewrite lookup_insert_ne in Hk by done.
        by apply (co_status _ _ Hc) in Hk as [? _].
      - intros k [[<- ?]|[Hkl Hk]]%lookup_insert_Some; [done|].
        apply Hs1 in Hk. by rewrite lookup_insert_ne in Hk. }
    pose proof (uncached_granted b _ l auth Hc Es Ep) as Hg. rewrite <- Hg in Hr.
    destruct r; do 2 eexists; (split; [reflexivity|]); cbn [cached_permissions].
    + destruct (Hset permission_satisfied) as [? ?]; [by apply Hr|done|]. split_and!; [done|done|].
      left. split; [by apply Hr|done].
    + assert (~ level_granted l) as Hn by (intros ?%Hr; done).
      destruct (Hset permission_unsatisfied) as [? ?]; [done|done|]. split_and!; [done|done|]. by right.
  - rewrite u32_small by lia.
    assert (entry_granted (meta_key k) <-> kw_key k ∈ provided_keys) as Hiff.
    { split; [by inversion 1|by constructor]. }
    setoid_rewrite Hiff.
    destruct (find_key _ _) as [i|] eqn:Ek; do 2 eexists; (split; [reflexivity|]); split_and!; try done.
    + left. split; [by eapply list_elem_of_lookup_2, find_key_Some|done].
    + right. split; [by apply find_key_None|done].
  - rewrite u32_small by lia.
    assert (entry_granted (meta_wait w) <-> ww_wait_sec w * 1000000 <= delay) as Hiff.
    { split; [by inversion 1|by constructor]. }
    setoid_rewrite Hiff.
    do 2 eexists. split; [reflexivity|]. split_and!; [done|done|].
    destruct (_ <=? _) eqn:E; bool_to_Z; [left|right]; split; done || lia.
Qed.

Lemma sum_by_perm {A} (f : A -> Z) l l' : l ≡ₚ l' -> sum_by f l = sum_by f l'.
Proof. unfold sum_by. induction 1; cbn; lia. Qed.

Lemma sum_by_nonneg {A} (f : A -> Z) l : Forall (fun x => 0 <= f x) l -> 0 <= sum_by f l.
Proof. unfold sum_by. induction 1; cbn; lia. Qed.

(** A selection of granted entries is part of the granted entries. *)
Lemma granted_selection sel rest sel' :
  Forall (fun m => ~ entry_granted m) rest -> Forall entry_granted sel' -> sel' ⊆+ sel ++ rest ->
  sel' ⊆+ sel.
Proof.
  intros Hr Hs. induction Hr as [|m rest Hm _ IH]; [by rewrite app_nil_r|].
  rewrite <- Permutation_middle. intros [H|(l & E & _)]%submseteq_cons_r; [by apply IH|].
  rewrite E in Hs. by apply Forall_cons in Hs as [? _].
Qed.

Lemma sum_by_submseteq (l l' : list meta_permission) :
  l ⊆+ l' -> Forall (fun m => 0 <= meta_weight m) l' -> sum_by meta_weight l <= sum_by meta_weight l'.
Proof.
  intros (k & E)%submseteq_Permutation H. rewrite E, Forall_app in H. destruct H as [_ H].
  rewrite (sum_by_perm _ _ _ E), sum_by_app. apply sum_by_nonneg in H. lia.
Qed.

Lemma tally_loop_exact b rec thr saved ms total st sel rest :
  (match rec with
   | Some f => forall b', (b' < b)%nat -> rec_exact b' f
   | None => b = O
   end) ->
  Forall (entry_ok b) ms -> Forall (fun m => 0 <= meta_weight m) sel ->
  Forall entry_granted sel -> Forall (fun m => ~ entry_granted m) rest ->
  total = sum_by meta_weight sel -> total < thr -> total + sum_by meta_weight ms < 2 ^ 32 ->
  cache_ok b (cached_permissions st) ->
  exists r st', tally_loop (visit pta provided_keys delay rec) thr saved ms total st = Ok (r, st') /\
    cache_ok b (cached_permissions st') /\ settled (cached_permissions st) (cached_permissions st') /\
    (r = true <-> exists sel', sel' ⊆+ (sel ++ rest) ++ ms /\ Forall entry_granted sel' /\
                         thr <= sum_by meta_weight sel').
Proof.
  intros Hrec. revert total st sel rest; induction ms as [|m ms IH];
    intros total st sel rest Hms Hw Hsel Hrest -> Hthr Hsum Hc; cbn [tally_loop].
  { do 2 eexists. split; [reflexivity|]. cbn. split_and!; [done|done|]. split; [done|].
    rewrite app_nil_r. intros (sel' & Hsub & Hs & Hle).
    eapply granted_selection in Hsub; [|done..]. apply sum_by_submseteq in Hsub; [lia|done]. }
  apply Forall_cons in Hms as [Hm Hms]. pose proof Hm as [Hwm _].
  change (sum_by meta_weight (m :: ms)) with (meta_weight m + sum_by meta_weight ms) in Hsum.
  assert (0 <= sum_by meta_weight ms).
  { apply sum_by_nonneg. eapply Forall_impl; [done|]. by intros ? [? _]. }
  destruct (visit_exact b rec m _ st Hrec Hm (sum_by_nonneg _ _ Hw) ltac:(lia) Hc)
    as (total' & st1 & -> & Hc1 & Hs1 & Hcase).
  cbn [mbind result_bind].
  assert (exists sel1 rest1, sel1 ++ rest1 ≡ₚ (sel ++ rest) ++ [m] /\
    Forall (fun m => 0 <= meta_weight m) sel1 /\ Forall entry_granted sel1 /\
    Forall (fun m => ~ entry_granted m) rest1 /\ total' = sum_by meta_weight sel1 /\
    total' <= sum_by meta_weight sel + meta_weight m)
    as (sel1 & rest1 & Hperm & Hw1 & Hsel1 & Hrest1 & -> & Hle).
  { destruct Hcase as [[Hg ->]|[Hn ->]].
    - exists (m :: sel), rest. split_and!; [by rewrite <- Permutation_cons_append|by constructor..|done| |lia].
      change (sum_by meta_weight (m :: sel)) with (meta_weight m + sum_by meta_weight sel). lia.
    - exists sel, (m :: rest). split_and!; try done; [|by constructor|lia].
      rewrite <- Permutation_cons_append. by rewrite Permutation_middle. }
  destruct (thr <=? sum_by meta_weight sel1) eqn:E; bool_to_Z.
  - do 2 eexists. split; [reflexivity|]. split_and!; [done|done|]. split; [|done]. intros _.
    exists sel1. split_and!; [|done|lia]. rewrite (cons_middle m _ ms), app_assoc, <- Hperm, <- app_assoc.
    by apply submseteq_inserts_r.
  - destruct (IH _ st1 sel1 rest1 Hms Hw1 Hsel1 Hrest1 eq_refl ltac:(lia) ltac:(lia) Hc1)
      as (r & st' & -> & Hc' & Hs' & Hr).
    do 2 eexists. split; [reflexivity|]. split_and!; [done|by etrans|]. rewrite Hr.
    rewrite (cons_middle m _ ms), (app_assoc _ [m] ms). by setoid_rewrite Hperm.
Qed.

Lemma entries_sum auth : sum_by meta_weight (entries auth) = total_weight auth.
Proof.
  assert (forall A (g : A -> meta_permission) (f : A -> Z) l, (forall x, meta_weight (g x) = f x) ->
    sum_by meta_weight (g <$> l) = sum_by f l) as Hmap.
  { intros A g f l Hg. unfold sum_by. induction l as [|x l IH]; [done|]. cbn. rewrite Hg. lia. }
  unfold entries, total_weight. rewrite !sum_by_app.
  rewrite (Hmap _ meta_account plw_weight), (Hmap _ meta_key kw_weight), (Hmap _ meta_wait ww_weight) by done.
  lia.
Qed.

Lemma entries_ok b auth : auth_ok b auth -> Forall (entry_ok b) (entries auth).
Proof.
  intros [Hw _ _ Ha]. apply entries_weights in Hw. rewrite Forall_forall in *. intros m Hm.
  split; [by apply Hw|]. destruct m as [p| |]; [|done..]. apply Ha.
  unfold entries in Hm. rewrite !elem_of_app, !list_elem_of_fmap in Hm. naive_solver.
Qed.

Lemma satisfied_auth_exact n b :
  (b <= n)%nat -> rec_exact b (satisfied_auth pta provided_keys delay n).
Proof.
  revert b; induction n as [|n IH]; intros b Hb auth st Ha Hc; cbn [satisfied_auth].
  all: destruct (tally_loop_exact b (rec_of pta provided_keys delay ltac:(first [exact (S n)|exact O]))
         (threshold auth) (used_keys_ st) (meta_permissions auth) 0 st [] [])
    as (r & st' & E & Hc' & Hs' & Hr); try done; cbn;
    [lia || (intros b' ?; apply IH; lia)|by rewrite meta_permissions_perm; apply entries_ok|apply Ha|
     rewrite (sum_by_perm _ _ _ (meta_permissions_perm auth)), entries_sum; apply Ha|].
  all: exists r, st'; split_and!; try done; rewrite Hr; split;
    [intros (sel & H1 & H2 & H3); rewrite app_nil_l, meta_permissions_perm in H1; by econstructor|].
  all: inversion 1 as [? sel H1 H2 H3]; exists sel; by rewrite app_nil_l, meta_permissions_perm.
Qed.
End exact.

(** ** Theorems *)

Lemma initial_cache_ok pta ks ps delay rank b :
  cache_ok pta ks ps delay rank b (initialize_permission_cache ps).
Proof.
  unfold initialize_permission_cache. split.
  - intros l s [Hl <-]%lookup_gset_to_gmap_Some. by apply level_provided.
  - intros l Hl. by apply lookup_gset_to_gmap_Some.
Qed.

Lemma satisfied_sound_aux pta ks ps delay limit p used used' :
  (forall l auth, pta l = Ok auth -> weights_wf auth) ->
  satisfied pta ks ps delay limit p used = Ok (true, used') -> level_granted pta ks ps delay p.
Proof.
  intros Hpta. unfold satisfied. intros ((total & st) & Hv & [= Ht _])%bind_Ok.
  eapply visit_sound in Hv as (_ & _ & Hcase); [|done| |done|done|].
  - bool_to_Z. destruct Hcase as [?|[Hg _]]; [lia|]. by inversion Hg.
  - intros f Hf. destruct (Z.to_nat limit); [done|]. injection Hf as <-. by apply satisfied_auth_sound.
  - intros l [Hl _]%lookup_gset_to_gmap_Some. by apply level_provided.
Qed.

(** C9: The checker is sound: whatever the permission graph, cyclic or not, and
    whatever the cache hides, a permission it reports as satisfied is granted
    by the provided keys, delay and permissions. *)
Theorem satisfied_sound pta ks ps delay limit p used used' :
  (forall l auth, pta l = Ok auth -> weights_wf auth) ->
  satisfied pta ks ps delay limit p used = Ok (true, used') -> level_granted pta ks ps delay p.
Proof. apply satisfied_sound_aux. Qed.

(** C36: On a permission graph without cycles whose depth is within the limit, the
    checker always returns, and it answers yes exactly when the permission is
    granted: neither the early exit, the cache nor the order of the entries
    loses a way of satisfying it. *)
Theorem satisfied_exact pta ks ps delay rank limit p used :
  graph_ok pta rank -> Z.of_nat (rank p) < limit -> permission p <> 0 ->
  exists b used', satisfied pta ks ps delay limit p used = Ok (b, used') /\
    (b = true <-> level_granted pta ks ps delay p).
Proof.
  intros Hg Hr Hp. unfold satisfied. set (n := Z.to_nat limit).
  destruct (visit_exact pta ks ps delay rank Hg n (rec_of pta ks delay n) (meta_account (mk_plw p 1)) 0
    (mk_checker_state used (initialize_permission_cache ps))) as (total & st & -> & _ & _ & Hcase).
  - destruct n as [|n]; cbn; [done|]. intros b' Hb. apply (satisfied_auth_exact _ _ _ _ _ Hg). lia.
  - split; cbn; [lia|]. split; [lia|done].
  - lia.
  - cbn. lia.
  - apply initial_cache_ok.
  - cbn [mbind result_bind]. do 2 eexists. split; [reflexivity|].
    cbn [meta_weight plw_weight] in Hcase. destruct Hcase as [[Hgr ->]|[Hn ->]]; split; try done.
    + intros _. by inversion Hgr.
    + intros Hl. destruct Hn. by constructor.
Qed.

(** A check that fails leaves the record of used keys as it was, and one that
    succeeds only adds to it. *)
Theorem satisfied_used_keys pta ks ps delay limit p used b used' :
  satisfied pta ks ps delay limit p used = Ok (b, used') ->
  used_le used used' /\ (b = false -> used' = used).
Proof.
  unfold satisfied. intros ((total & st) & Hv & [= <- <-])%bind_Ok.
  split; [by apply visit_used in Hv; [|intros f; apply rec_of_used]|].
  intros Ht. bool_to_Z. cbn [visit plw_permission plw_weight] in Hv.
  destruct (permission_status_in_cache _ p) as [[]|]; [by injection Hv as <- <-..|].
  destruct (rec_of _ _ _ _) as [f|] eqn:Ef; [|by injection Hv as <- <-].
  destruct (pta p) as [auth|e]; [|by destruct (is_a e _); simplify_eq].
  apply bind_Ok in Hv as ((r & st1) & Hf & Hv). apply rec_of_used in Ef.
  destruct r; injection Hv as <- <-; [done|]. by apply Ef in Hf as [_ ->].
Qed.

(** ** A concrete permission graph

    [alice] needs [bob] (weight 2) or [carol]; [bob] needs [dave] and a missing
    permission, [carol] needs only [dave], who has the key. *)
Module CheckerExample.

Definition k : public_key := mk_public_key 0 [7].
Definition lv (a : Z) : permission_level := mk_level a 1.

Definition graph (l : permission_level) : res authority :=
  if bool_decide (l = lv 1) then Ok (mk_authority 1 [] [mk_plw (lv 2) 2; mk_plw (lv 3) 1] [])
  else if bool_decide (l = lv 2) then Ok (mk_authority 2 [] [mk_plw (lv 4) 1; mk_plw (lv 5) 1] [])
  else if bool_decide (l = lv 3) then Ok (mk_authority 1 [] [mk_plw (lv 4) 1] [])
  else if bool_decide (l = lv 4) then Ok (mk_authority 1 [mk_kw k 1] [] [])
  else Throw permission_query_exception.

Definition rank (l : permission_level) : nat := Z.to_nat (10 - actor l).

Lemma graph_is_ok : graph_ok graph rank.
Proof.
  split.
  - intros l auth. unfold graph. repeat case_bool_decide; intros [= <-]; subst l; (split; [|done]).
    all: split; cbn; [unfold weights_wf; cbn; rewrite ?Forall_cons, ?Forall_nil; unfold is_u16; cbn; lia|lia| |].
    1, 3, 5, 7: vm_compute; reflexivity.
    all: intros p Hp; rewrite ?elem_of_cons, ?elem_of_nil in Hp.
    all: destruct_or?; subst; try done; cbn; (split; [unfold rank; cbn; lia|done]).
  - intros l e _. unfold graph. repeat case_bool_decide; intros [= <-]. done.
Qed.

Lemma graph_weights l auth : graph l = Ok auth -> weights_wf auth.
Proof. intros H. apply graph_is_ok in H as [? _]. by eapply ao_weights. Qed.

Lemma satisfied_sound_witness : level_granted graph [k] ∅ 0 (lv 1).
Proof.
  apply (satisfied_sound graph [k] ∅ 0 6 (lv 1) [false] [false]); [exact graph_weights|].
  vm_compute. reflexivity.
Defined.

Lemma satisfied_exact_witness :
  exists b used', satisfied graph [k] ∅ 0 10 (lv 1) [false] = Ok (b, used') /\
    (b = true <-> level_granted graph [k] ∅ 0 (lv 1)).
Proof. apply (satisfied_exact graph [k] ∅ 0 rank); [exact graph_is_ok|vm_compute; reflexivity|discriminate]. Defined.

Lemma satisfied_used_keys_witness :
  used_le [false] [true] /\ (true = false -> [true] = [false]).
Proof.
  apply (satisfied_used_keys graph [k] ∅ 0 6 (lv 4) [false] true [true]). vm_compute. reflexivity.
Defined.

(** A key the permission depends on can be reported as unused: [dave] is first
    evaluated under [bob], whose failure takes back the record of the key, and
    then taken from the cache under [carol], which does not record it again. *)
Theorem needed_key_reported_unused :
  satisfied graph [k] ∅ 0 6 (lv 1) [false] = Ok (true, [false]) /\
  all_keys_used [false] = false /\
  satisfied graph [] ∅ 0 6 (lv 1) [] = Ok (false, []) /\
  forall l auth, graph l = Ok auth -> validate auth = true.
Proof.
  split_and!; [vm_compute; reflexivity..|]. intros l auth. unfold graph.
  repeat case_bool_decide; intros [= <-]; vm_compute; reflexivity.
Qed.
End CheckerExample.
