(* ===== verification/AuthorizationManager.v ===== *)
(** * The authorization manager ([authorization_manager.cpp], [permission_object.hpp],
    [permission_link_object.hpp])

    The tree of permissions of each account, the links from actions to the
    permission they need at least, and the check that a transaction's actions
    are authorized. *)

From S2P Require Import Prelude Exceptions Types Chainbase Name Authority AuthorityChecker.

(** ** Names the code compares with *)

Definition n_ (s : string) : Z := string_to_uint64_t (chars s).
Definition system_account_name : Z := Eval vm_compute in n_ "sysio".
Definition active_name : Z := Eval vm_compute in n_ "active".
Definition sysio_any_name : Z := Eval vm_compute in n_ "sysio.any".
Definition auth_ext_name : Z := Eval vm_compute in n_ "auth.ext".
Definition auth_session_name : Z := Eval vm_compute in n_ "auth.session".
Definition updateauth_name : Z := Eval vm_compute in n_ "updateauth".
Definition deleteauth_name : Z := Eval vm_compute in n_ "deleteauth".
Definition linkauth_name : Z := Eval vm_compute in n_ "linkauth".
Definition unlinkauth_name : Z := Eval vm_compute in n_ "unlinkauth".
Definition canceldelay_name : Z := Eval vm_compute in n_ "canceldelay".

(** ** Rows *)

Record permission_object := mk_permission_object {
  po_id : Z;
  po_usage_id : Z;
  po_parent : Z;
  po_owner : Z;
  po_name : Z;
  po_last_updated : Z;
  po_auth : authority }.

(** The row [initialize_database] reserves. *)
Definition reserved_permission : permission_object :=
  mk_permission_object 0 0 0 0 0 0 (mk_authority 0 [] [] []).

(** [generated_transaction_object]: of the packed transaction only the declared
    authorizations of its actions and its size are read. *)
Record generated_transaction := mk_generated_transaction {
  gt_sender : Z;
  gt_sender_id : Z;
  gt_payer : Z;
  gt_delay_until : Z;
  gt_published : Z;
  gt_expiration : Z;
  gt_authorizations : list (list permission_level);
  gt_packed_size : Z }.

(** ** Native actions and their payloads *)

Record updateauth := mk_updateauth {
  ua_account : Z; ua_permission : Z; ua_parent : Z; ua_auth : authority }.
Record deleteauth := mk_deleteauth { da_account : Z; da_permission : Z }.
Record linkauth := mk_linkauth { la_account : Z; la_code : Z; la_type : Z; la_requirement : Z }.
Record unlinkauth := mk_unlinkauth { ul_account : Z; ul_code : Z; ul_type : Z }.
Record canceldelay := mk_canceldelay { cd_canceling_auth : permission_level; cd_trx_id : digest }.

Record action := mk_action {
  act_account : Z;
  act_name : Z;
  act_authorization : list permission_level;
  act_data : list Z }.

(** [action::data_as<T>()] for the payloads above: unpacking is done by [fc::raw]. *)
Record codec := mk_codec {
  as_updateauth : list Z -> res updateauth;
  as_deleteauth : list Z -> res deleteauth;
  as_linkauth : list Z -> res linkauth;
  as_unlinkauth : list Z -> res unlinkauth;
  as_canceldelay : list Z -> res canceldelay }.

(** What the manager asks of the controller. *)
Record auth_env := mk_auth_env {
  pending_block_time : Z;
  num_supported_key_types : Z;
  fix_linkauth_restriction : bool;
  max_transaction_delay : Z;
  max_authority_depth : Z }.

Section manager.
Context {TP TU TL TG : Type} `{!ChainIndex Z permission_object TP} `{!ChainIndex Z Z TU}
  `{!ChainIndex (Z * Z * Z) Z TL} `{!ChainIndex digest generated_transaction TG}.

(** The tables; [next_permission_id] and [next_usage_id] are the ids chainbase
    gives to the next created rows. *)
Record auth_db := mk_auth_db {
  permissions : TP;
  next_permission_id : Z;
  usages : TU;
  next_usage_id : Z;
  links : TL;
  generated : TG }.

Definition set_permissions (d : auth_db) (t : TP) : auth_db :=
  mk_auth_db t (next_permission_id d) (usages d) (next_usage_id d) (links d) (generated d).
Definition set_usages (d : auth_db) (t : TU) : auth_db :=
  mk_auth_db (permissions d) (next_permission_id d) t (next_usage_id d) (links d) (generated d).

(** [by_owner], a unique index *)
Definition find_by_owner (d : auth_db) (owner name : Z) : option permission_object :=
  snd <$> List.find (fun r => (po_owner r.2 =? owner) && (po_name r.2 =? name)) (idx_rows (permissions d)).

Definition initialize_database (d : auth_db) : res auth_db :=
  t ← db_create (next_permission_id d) reserved_permission (permissions d);
  Ok (mk_auth_db t (next_permission_id d + 1) (usages d) (next_usage_id d) (links d) (generated d)).

(** The loop over the keys of a new authority. *)
Definition check_key_types (env : auth_env) (auth : authority) : res unit :=
  foldM (fun _ k => sys_assert (key_which (kw_key k) <? num_supported_key_types env) unactivated_key_type)
    tt (keys auth).

(** [create_permission]; the time point 0 stands for the default argument. *)
Definition create_permission (env : auth_env) (d : auth_db) (account name parent : Z)
    (auth : authority) (initial_creation_time : Z) : res (auth_db * permission_object) :=
  _ ← check_key_types env auth;
  let creation_time := if initial_creation_time =? 0 then pending_block_time env
                       else initial_creation_time in
  u ← db_create (next_usage_id d) creation_time (usages d);
  let perm := mk_permission_object (next_permission_id d) (next_usage_id d) parent account name
                creation_time auth in
  _ ← sys_assert (bool_decide (find_by_owner d account name = None)) std_logic_error;
  t ← db_create (next_permission_id d) perm (permissions d);
  Ok (mk_auth_db t (next_permission_id d + 1) u (next_usage_id d + 1) (links d) (generated d), perm).

Definition modify_permission (env : auth_env) (d : auth_db) (permission : permission_object)
    (auth : authority) : res auth_db :=
  _ ← check_key_types env auth;
  t ← db_modify (po_id permission) (fun po => Ok (mk_permission_object (po_id po) (po_usage_id po)
        (po_parent po) (po_owner po) (po_name po) (pending_block_time env) auth)) (permissions d);
  Ok (set_permissions d t).

(** The range of [by_parent]. *)
Definition has_children (d : auth_db) (id : Z) : bool :=
  existsb (fun r => po_parent r.2 =? id) (idx_rows (permissions d)).

Definition remove_permission (d : auth_db) (permission : permission_object) : res auth_db :=
  _ ← sys_assert (negb (has_children d (po_id permission))) action_validate_exception;
  _ ← db_get (po_usage_id permission) (usages d);
  let d := set_usages d (idx_remove (po_usage_id permission) (usages d)) in
  Ok (set_permissions d (idx_remove (po_id permission) (permissions d))).

Definition update_permission_usage (env : auth_env) (d : auth_db) (permission : permission_object)
  : res auth_db :=
  t ← db_modify (po_usage_id permission) (fun _ => Ok (pending_block_time env)) (usages d);
  Ok (set_usages d t).

Definition get_permission_last_used (d : auth_db) (permission : permission_object) : res Z :=
  db_get (po_usage_id permission) (usages d).

Definition find_permission (d : auth_db) (level : permission_level) : res (option permission_object) :=
  rethrow_as permission_query_exception (
    _ ← sys_assert (negb (actor level =? 0) && negb (permission level =? 0)) invalid_permission;
    Ok (find_by_owner d (actor level) (permission level))).

Definition get_permission (d : auth_db) (level : permission_level) : res permission_object :=
  rethrow_as permission_query_exception (
    _ ← sys_assert (negb (actor level =? 0) && negb (permission level =? 0)) invalid_permission;
    of_option std_out_of_range (find_by_owner d (actor level) (permission level))).

(** The walk up [other]'s parents in [permission_object::satisfies]. *)
Fixpoint satisfies_loop (fuel : nat) (d : auth_db) (id : Z) (parent : permission_object) : res bool :=
  match fuel with
  | O => Throw fuel_exhausted
  | S fuel =>
      if id =? po_parent parent then Ok true
      else if po_parent parent =? 0 then Ok false
      else
        p ← of_option undefined_behavior (idx_find (po_parent parent) (permissions d));
        satisfies_loop fuel d id p
  end.

Definition satisfies (d : auth_db) (this other : permission_object) : res bool :=
  if negb (po_owner this =? po_owner other) then Ok false
  else if (po_id this =? po_id other) || (po_id this =? po_parent other) then Ok true
  else
    parent ← of_option undefined_behavior (idx_find (po_parent other) (permissions d));
    satisfies_loop (length (idx_rows (permissions d))) d (po_id this) parent.

Definition lookup_linked_permission (d : auth_db) (authorizer_account scope act_name : Z) : option Z :=
  match idx_find (authorizer_account, scope, act_name) (links d) with
  | Some required => Some required
  | None => idx_find (authorizer_account, scope, 0) (links d)
  end.

(** The five native actions with rules of their own. *)
Definition is_native_auth_action (name : Z) : bool :=
  (name =? updateauth_name) || (name =? deleteauth_name) || (name =? linkauth_name)
  || (name =? unlinkauth_name) || (name =? canceldelay_name).

Definition lookup_minimum_permission (d : auth_db) (authorizer_account scope act_name : Z)
  : res (option Z) :=
  _ ← (if scope =? system_account_name
       then sys_assert (negb (is_native_auth_action act_name)) unlinkable_min_permission_action
       else Ok tt);
  Ok match lookup_linked_permission d authorizer_account scope act_name with
     | None => Some active_name
     | Some linked => if linked =? sysio_any_name then None else Some linked
     end.

(** [get_permission( auth ).satisfies( min ) ] as it appears in the checks. *)
Definition assert_satisfies (d : auth_db) (auth : permission_level) (min : permission_object) : res unit :=
  p ← get_permission d auth;
  b ← satisfies d p min;
  sys_assert b irrelevant_auth_exception.

(** [SYS_ASSERT( auths.size() == 1, ... ); auths[0]] *)
Definition only_auth (auths : list permission_level) : res permission_level :=
  match auths with
  | [a] => Ok a
  | _ => Throw irrelevant_auth_exception
  end.

Definition check_updateauth_authorization (d : auth_db) (update : updateauth)
    (auths : list permission_level) : res unit :=
  auth ← only_auth auths;
  _ ← sys_assert ((actor auth =? ua_account update) || (actor auth =? system_account_name))
        irrelevant_auth_exception;
  if (ua_permission update =? auth_ext_name) || (ua_permission update =? auth_session_name) then
    sys_assert (actor auth =? system_account_name) invalid_permission
  else
    min ← find_permission d (mk_level (ua_account update) (ua_permission update));
    min ← match min with
          | Some p => Ok p
          | None => get_permission d (mk_level (ua_account update) (ua_parent update))
          end;
    assert_satisfies d auth min.

Definition check_deleteauth_authorization (d : auth_db) (del : deleteauth)
    (auths : list permission_level) : res unit :=
  auth ← only_auth auths;
  _ ← sys_assert (actor auth =? da_account del) irrelevant_auth_exception;
  min ← get_permission d (mk_level (da_account del) (da_permission del));
  assert_satisfies d auth min.

Definition check_linkauth_authorization (env : auth_env) (d : auth_db) (link : linkauth)
    (auths : list permission_level) : res unit :=
  auth ← only_auth auths;
  _ ← sys_assert (actor auth =? la_account link) irrelevant_auth_exception;
  _ ← (if (la_code link =? system_account_name) || negb (fix_linkauth_restriction env)
       then sys_assert (negb (is_native_auth_action (la_type link))) action_validate_exception
       else Ok tt);
  linked ← lookup_minimum_permission d (la_account link) (la_code link) (la_type link);
  match linked with
  | None => Ok tt
  | Some name =>
      (* the argument is evaluated after the object: both throw alike *)
      p ← get_permission d auth;
      min ← get_permission d (mk_level (la_account link) name);
      b ← satisfies d p min;
      sys_assert b irrelevant_auth_exception
  end.

Definition check_unlinkauth_authorization (d : auth_db) (unlink : unlinkauth)
    (auths : list permission_level) : res unit :=
  auth ← only_auth auths;
  _ ← sys_assert (actor auth =? ul_account unlink) irrelevant_auth_exception;
  name ← of_option transaction_exception
           (lookup_linked_permission d (ul_account unlink) (ul_code unlink) (ul_type unlink));
  if name =? sysio_any_name then Ok tt
  else
    p ← get_permission d auth;
    min ← get_permission d (mk_level (ul_account unlink) name);
    b ← satisfies d p min;
    sys_assert b irrelevant_auth_exception.

(** Returns the delay of the canceled transaction, in microseconds. *)
Definition check_canceldelay_authorization (d : auth_db) (cancel : canceldelay)
    (auths : list permission_level) : res Z :=
  auth ← only_auth auths;
  p ← get_permission d auth;
  min ← get_permission d (cd_canceling_auth cancel);
  b ← satisfies d p min;
  _ ← sys_assert b irrelevant_auth_exception;
  gt ← of_option tx_not_found (idx_find (cd_trx_id cancel) (generated d));
  _ ← sys_assert (gt_sender gt =? 0) tx_not_found;
  _ ← sys_assert (existsb (existsb (fun a => bool_decide (a = cd_canceling_auth cancel)))
                    (gt_authorizations gt)) action_validate_exception;
  Ok (i64 (gt_delay_until gt - gt_published gt)).

(** ** [check_authorization] *)

Definition microseconds_max : Z := i64_max.

Definition effective_delay (env : auth_env) (provided_delay : Z) : Z :=
  if max_transaction_delay env * 1000000 <=? provided_delay then microseconds_max else provided_delay.

(** The function handed to the checker. *)
Definition authority_of (d : auth_db) (l : permission_level) : res authority :=
  po_auth <$> get_permission d l.

(** The branch on native actions: whether the action is one of them, and the
    delay its authorizations have to be satisfied under. *)
Definition native_check (env : auth_env) (cd : codec) (d : auth_db) (act : action) (delay : Z)
  : res (bool * Z) :=
  if negb (act_account act =? system_account_name) then Ok (false, delay)
  else if act_name act =? updateauth_name then
    u ← as_updateauth cd (act_data act);
    _ ← check_updateauth_authorization d u (act_authorization act); Ok (true, delay)
  else if act_name act =? deleteauth_name then
    u ← as_deleteauth cd (act_data act);
    _ ← check_deleteauth_authorization d u (act_authorization act); Ok (true, delay)
  else if act_name act =? linkauth_name then
    u ← as_linkauth cd (act_data act);
    _ ← check_linkauth_authorization env d u (act_authorization act); Ok (true, delay)
  else if act_name act =? unlinkauth_name then
    u ← as_unlinkauth cd (act_data act);
    _ ← check_unlinkauth_authorization d u (act_authorization act); Ok (true, delay)
  else if act_name act =? canceldelay_name then
    u ← as_canceldelay cd (act_data act);
    dl ← check_canceldelay_authorization d u (act_authorization act); Ok (true, Z.max delay dl)
  else Ok (false, delay).

(** [permissions_to_satisfy.emplace], keeping the smaller delay; ascending keys. *)
Fixpoint require_permission (p : permission_level) (delay : Z) (l : list (permission_level * Z))
  : list (permission_level * Z) :=
  match l with
  | [] => [(p, delay)]
  | (q, dq) :: l =>
      if bool_decide (p = q) then (q, if delay <? dq then delay else dq) :: l
      else if level_less p q then (p, delay) :: (q, dq) :: l
      else (q, dq) :: require_permission p delay l
  end.

(** The body of the loop over the declared authorizations of an action. *)
Definition declared_step (d : auth_db) (checktime : res unit)
    (satisfied_authorizations : gset permission_level) (act : action) (special_case : bool) (delay : Z)
    (to_satisfy : list (permission_level * Z)) (declared_auth : permission_level)
  : res (list (permission_level * Z)) :=
  _ ← checktime;
  _ ← (if special_case then Ok tt
       else
         min ← lookup_minimum_permission d (actor declared_auth) (act_account act) (act_name act);
         match min with
         | None => Ok tt
         | Some name =>
             min ← get_permission d (mk_level (actor declared_auth) name);
             assert_satisfies d declared_auth min
         end);
  Ok (if bool_decide (declared_auth ∈ satisfied_authorizations) then to_satisfy
      else require_permission declared_auth delay to_satisfy).

Definition action_step (env : auth_env) (cd : codec) (d : auth_db) (checktime : res unit)
    (satisfied_authorizations : gset permission_level) (effective_provided_delay : Z)
    (to_satisfy : list (permission_level * Z)) (act : action) : res (list (permission_level * Z)) :=
  '(special_case, delay) ← native_check env cd d act effective_provided_delay;
  foldM (declared_step d checktime satisfied_authorizations act special_case delay)
    to_satisfy (act_authorization act).

(** The body of the loop over [permissions_to_satisfy]. *)
Definition verify_step (env : auth_env) (d : auth_db) (checktime : res unit)
    (provided_keys : list public_key) (provided_permissions : gset permission_level)
    (check_but_dont_fail : bool) (used : list bool) (p : permission_level * Z) : res (list bool) :=
  _ ← checktime;
  '(b, used) ← satisfied (authority_of d) provided_keys provided_permissions p.2
                 (max_authority_depth env) p.1 used;
  _ ← sys_assert (b || check_but_dont_fail) unsatisfied_authorization;
  Ok used.

Definition check_authorization (env : auth_env) (cd : codec) (d : auth_db) (actions : list action)
    (provided_keys : list public_key) (provided_permissions : gset permission_level)
    (provided_delay : Z) (checktime : res unit) (allow_unused_keys check_but_dont_fail : bool)
    (satisfied_authorizations : gset permission_level) : res unit :=
  let effective_provided_delay := effective_delay env provided_delay in
  permissions_to_satisfy ←
    foldM (action_step env cd d checktime satisfied_authorizations effective_provided_delay) [] actions;
  used ← foldM (verify_step env d checktime provided_keys provided_permissions check_but_dont_fail)
           (replicate (length provided_keys) false) permissions_to_satisfy;
  if allow_unused_keys then Ok tt
  else sys_assert (all_keys_used used || check_but_dont_fail) tx_irrelevant_sig.

(** The overload for one permission. *)
Definition check_authorization_permission (env : auth_env) (d : auth_db) (account permission : Z)
    (provided_keys : list public_key) (provided_permissions : gset permission_level)
    (provided_delay : Z) (allow_unused_keys : bool) : res unit :=
  '(b, used) ← satisfied (authority_of d) provided_keys provided_permissions
                 (effective_delay env provided_delay) (max_authority_depth env)
                 (mk_level account permission) (replicate (length provided_keys) false);
  _ ← sys_assert b unsatisfied_authorization;
  if allow_unused_keys then Ok tt else sys_assert (all_keys_used used) tx_irrelevant_sig.

Definition get_required_keys (env : auth_env) (d : auth_db) (actions : list action)
    (candidate_keys : list public_key) (provided_delay : Z) : res (list public_key) :=
  used ← foldM (fun used act =>
           foldM (fun used declared_auth =>
             '(b, used) ← satisfied (authority_of d) candidate_keys ∅ provided_delay
                            (max_authority_depth env) declared_auth used;
             _ ← sys_assert b unsatisfied_authorization;
             Ok used) used (act_authorization act))
           (replicate (length candidate_keys) false) actions;
  Ok (filter_by_marker candidate_keys used true).
End manager.
Arguments auth_db : clear implicits.

(** ** Well-formed permission tables *)

Section invariants.
Context {TP TU TL TG : Type} `{!ChainIndex Z permission_object TP} `{!ChainIndex Z Z TU}
  `{!ChainIndex (Z * Z * Z) Z TL} `{!ChainIndex digest generated_transaction TG}.
Local Abbreviation db := (auth_db TP TU TL TG).

(** Parents exist, belong to the same account and were created earlier; owner
    and name identify a row; every permission has a usage row of its own. *)
Record auth_wf (d : db) : Prop := {
  aw_reserved : idx_view (permissions d) !! 0 = Some reserved_permission;
  aw_id : forall i p, idx_view (permissions d) !! i = Some p ->
    po_id p = i /\ 0 <= i < next_permission_id d;
  aw_parent : forall i p, idx_view (permissions d) !! i = Some p -> i <> 0 ->
    0 <= po_parent p < i /\ (po_parent p = 0 \/
      exists q, idx_view (permissions d) !! po_parent p = Some q /\ po_owner q = po_owner p);
  aw_unique : forall i j p q, idx_view (permissions d) !! i = Some p ->
    idx_view (permissions d) !! j = Some q ->
    po_owner p = po_owner q -> po_name p = po_name q -> i = j;
  aw_usage : forall i p, idx_view (permissions d) !! i = Some p -> i <> 0 ->
    is_Some (idx_view (usages d) !! po_usage_id p) /\ po_usage_id p < next_usage_id d;
  aw_usage_inj : forall i j p q, i <> 0 -> j <> 0 -> idx_view (permissions d) !! i = Some p ->
    idx_view (permissions d) !! j = Some q -> po_usage_id p = po_usage_id q -> i = j;
  aw_usage_fresh : forall k, is_Some (idx_view (usages d) !! k) -> k < next_usage_id d }.

Lemma find_by_owner_Some (d : db) o n p :
  find_by_owner d o n = Some p ->
  exists i, idx_view (permissions d) !! i = Some p /\ po_owner p = o /\ po_name p = n.
Proof.
  unfold find_by_owner. destruct (List.find _ _) as [[i q]|] eqn:E; [|done]. intros [= <-].
  apply find_some in E as [Hin Hq]. apply list_elem_of_In, elem_of_rows in Hin. cbn in Hq.
  bool_to_Z. eauto.
Qed.

Lemma find_by_owner_None (d : db) o n i p :
  find_by_owner d o n = None -> idx_view (permissions d) !! i = Some p ->
  ~ (po_owner p = o /\ po_name p = n).
Proof.
  unfold find_by_owner. destruct (List.find _ _) as [[j q]|] eqn:E; [done|]. intros _ Hi [Ho Hn].
  apply elem_of_rows, list_elem_of_In in Hi. apply (find_none _ _ E) in Hi. cbn in Hi. lia.
Qed.

Lemma has_children_false (d : db) i j p :
  has_children d i = false -> idx_view (permissions d) !! j = Some p -> po_parent p <> i.
Proof.
  unfold has_children. intros H Hj E. apply elem_of_rows, list_elem_of_In in Hj.
  assert (existsb (fun r => po_parent r.2 =? i) (idx_rows (permissions d)) = true); [|congruence].
  apply existsb_exists. exists (j, p). split; [done|]. cbn. lia.
Qed.

(** ** The operations keep the tables well formed *)

Lemma create_permission_wf env (d d' : db) account name parent auth time perm :
  auth_wf d ->
  (parent = 0 \/ exists q, idx_view (permissions d) !! parent = Some q /\ po_owner q = account) ->
  create_permission env d account name parent auth time = Ok (d', perm) ->
  auth_wf d' /\ idx_view (permissions d') = <[po_id perm := perm]> (idx_view (permissions d)) /\
  idx_view (permissions d) !! po_id perm = None.
Proof.
  intros W Hpar. unfold create_permission.
  intros (_ & _ & H)%bind_Ok. apply bind_Ok in H as (u & [Hu Hu']%db_create_Ok & H).
  apply bind_Ok in H as (_ & Hnew%sys_assert_Ok%bool_decide_eq_true & H).
  apply bind_Ok in H as (t & [Ht Ht']%db_create_Ok & [= <- <-]). cbn.
  set (n := next_permission_id d) in *. set (m := next_usage_id d) in *.
  assert (0 < n) as Hn. { pose proof (aw_id _ W 0 _ (aw_reserved _ W)). fold n in H. lia. }
  assert (forall i p, idx_view (permissions d) !! i = Some p -> i <> n) as Hne.
  { intros i p Hi ->. congruence. }
  split; [|by rewrite Ht']. split; cbn; rewrite ?Ht', ?Hu'.
  - rewrite lookup_insert_ne by lia. apply W.
  - intros i p [[<- <-]|[_ Hi]]%lookup_insert_Some; [cbn; lia|].
    apply (aw_id _ W) in Hi as [? ?]. fold n in H0. lia.
  - intros i p [[<- <-]|[_ Hi]]%lookup_insert_Some H0; cbn.
    + destruct Hpar as [->|(q & Hq & Ho)]; [lia|].
      pose proof (aw_id _ W _ _ Hq) as [_ ?]. fold n in H. split; [lia|]. right. exists q.
      rewrite lookup_insert_ne by lia. done.
    + destruct (aw_parent _ W i p Hi H0) as [? [?|(q & Hq & Ho)]]; (split; [lia|]); [by left|right].
      exists q. rewrite lookup_insert_ne by (intros E; by apply Hne in Hq). done.
  - intros i j p q [[<- <-]|[_ Hi]]%lookup_insert_Some [[<- <-]|[_ Hj]]%lookup_insert_Some; cbn; [done|..].
    + intros Ho Hn'. by destruct (find_by_owner_None d _ _ _ _ Hnew Hj).
    + intros Ho Hn'. by destruct (find_by_owner_None d _ _ _ _ Hnew Hi).
    + by apply (aw_unique _ W).
  - intros i p [[<- <-]|[_ Hi]]%lookup_insert_Some H0; cbn.
    + rewrite lookup_insert_eq. split; [eauto|lia].
    + destruct (aw_usage _ W i p Hi H0) as [? ?]. fold m in H1. split; [|lia].
      rewrite lookup_insert_ne by lia. done.
  - intros i j p q Hi0 Hj0 [[<- <-]|[_ Hi]]%lookup_insert_Some [[<- <-]|[_ Hj]]%lookup_insert_Some; cbn; [done|..].
    + intros E. destruct (aw_usage _ W j q Hj Hj0) as [_ ?]. fold m in H. lia.
    + intros E. destruct (aw_usage _ W i p Hi Hi0) as [_ ?]. fold m in H. lia.
    + by apply (aw_usage_inj _ W).
  - intros k [x [[<- <-]|[_ Hk]]%lookup_insert_Some]; [lia|].
    assert (k < m) by (apply (aw_usage_fresh _ W); eauto). lia.
Qed.

(** Changing only the authority and the update time of a row. *)
Lemma modify_permission_wf env (d d' : db) perm auth :
  auth_wf d -> po_id perm <> 0 -> modify_permission env d perm auth = Ok d' ->
  auth_wf d' /\ exists p, idx_view (permissions d) !! po_id perm = Some p /\
    idx_view (permissions d') = <[po_id perm := mk_permission_object (po_id p) (po_usage_id p)
      (po_parent p) (po_owner p) (po_name p) (pending_block_time env) auth]> (idx_view (permissions d)).
Proof.
  intros W H0. unfold modify_permission. intros (_ & _ & H)%bind_Ok.
  apply bind_Ok in H as (t & (p & p' & Hp & [= Ep] & Ht)%db_modify_view & [= <-]). cbn. subst p'.
  split; [|eauto]. set (v := mk_permission_object _ _ _ _ _ _ _) in *.
  assert (forall i q, <[po_id perm := v]> (idx_view (permissions d)) !! i = Some q ->
    exists q0, idx_view (permissions d) !! i = Some q0 /\ po_id q = po_id q0 /\
      po_usage_id q = po_usage_id q0 /\ po_parent q = po_parent q0 /\ po_owner q = po_owner q0 /\
      po_name q = po_name q0) as Hold.
  { intros i q [[<- <-]|[_ Hi]]%lookup_insert_Some; [exists p; by subst v|eauto 10]. }
  split; cbn; rewrite ?Ht.
  - rewrite lookup_insert_ne by done. apply W.
  - intros i q (q0 & Hq & E1 & _)%Hold. rewrite E1. by apply (aw_id _ W).
  - intros i q (q0 & Hq & _ & _ & E3 & E4 & _)%Hold Hi0. rewrite E3, E4.
    destruct (aw_parent _ W i q0 Hq Hi0) as [? [?|(x & Hx & Ho)]]; (split; [done|]); [by left|right].
    destruct (decide (po_parent q0 = po_id perm)) as [E|Hne].
    + exists v. rewrite E, lookup_insert_eq. split; [done|]. subst v. cbn. congruence.
    + exists x. by rewrite lookup_insert_ne.
  - intros i j q1 q2 (x & Hx & _ & _ & _ & E1 & E2)%Hold (y & Hy & _ & _ & _ & E3 & E4)%Hold.
    rewrite E1, E2, E3, E4. by apply (aw_unique _ W).
  - intros i q (q0 & Hq & _ & E & _)%Hold Hi0. rewrite E. by apply (aw_usage _ W i).
  - intros i j q1 q2 Hi Hj (x & Hx & _ & E1 & _)%Hold (y & Hy & _ & E2 & _)%Hold.
    rewrite E1, E2. by apply (aw_usage_inj _ W).
  - apply (aw_usage_fresh _ W).
Qed.

Lemma remove_permission_wf (d d' : db) i perm :
  auth_wf d -> idx_view (permissions d) !! i = Some perm -> remove_permission d perm = Ok d' ->
  auth_wf d' /\ i <> 0 /\ idx_view (permissions d') = delete i (idx_view (permissions d)) /\
  idx_view (usages d') = delete (po_usage_id perm) (idx_view (usages d)).
Proof.
  intros W Hi. unfold remove_permission. intros (_ & Hch%sys_assert_Ok & H)%bind_Ok.
  apply bind_Ok in H as (u & _ & [= <-]). apply negb_true_iff in Hch.
  destruct (aw_id _ W i perm Hi) as [Eid _]. rewrite Eid in *.
  assert (i <> 0) as Hi0.
  { intros ->. apply (has_children_false d 0 0 reserved_permission Hch (aw_reserved _ W)). done. }
  split_and!; [|done|cbn; by rewrite idx_remove_view|cbn; by rewrite idx_remove_view].
  split; cbn; rewrite ?idx_remove_view.
  - rewrite lookup_delete_ne by done. apply W.
  - intros j p [_ Hj]%lookup_delete_Some. by apply (aw_id _ W).
  - intros j p [_ Hj]%lookup_delete_Some Hj0.
    destruct (aw_parent _ W j p Hj Hj0) as [? [?|(x & Hx & Ho)]]; (split; [done|]); [by left|right].
    exists x. rewrite lookup_delete_ne; [done|].
    pose proof (has_children_false d i j p Hch Hj). congruence.
  - intros j k p q [_ Hj]%lookup_delete_Some [_ Hk]%lookup_delete_Some. by apply (aw_unique _ W).
  - intros j p [Hne Hj]%lookup_delete_Some Hj0. destruct (aw_usage _ W j p Hj Hj0) as [? ?].
    split; [|done]. rewrite lookup_delete_ne; [done|]. intros E.
    apply Hne. by eapply (aw_usage_inj _ W).
  - intros j k p q Hj0 Hk0 [_ Hj]%lookup_delete_Some [_ Hk]%lookup_delete_Some.
    by apply (aw_usage_inj _ W).
  - intros k [x [_ Hk]%lookup_delete_Some]. apply (aw_usage_fresh _ W). eauto.
Qed.

Lemma update_permission_usage_wf env (d d' : db) perm :
  auth_wf d -> update_permission_usage env d perm = Ok d' ->
  auth_wf d' /\ permissions d' = permissions d /\
  idx_view (usages d') = <[po_usage_id perm := pending_block_time env]> (idx_view (usages d)).
Proof.
  intros W. unfold update_permission_usage.
  intros (t & (v & v' & Hv & [= <-] & Ht)%db_modify_view & [= <-])%bind_Ok. cbn.
  split; [|done]. split; cbn; rewrite ?Ht; try apply W.
  - intros i p Hi Hi0. destruct (aw_usage _ W i p Hi Hi0) as [? ?]. split; [|done].
    destruct (decide (po_usage_id perm = po_usage_id p)) as [->|];
      [rewrite lookup_insert_eq; eauto|by rewrite lookup_insert_ne].
  - intros k [x [[<- <-]|[_ Hk]]%lookup_insert_Some]; apply (aw_usage_fresh _ W); eauto.
Qed.

(** ** Reachable tables *)

(** The tables before [initialize_database]. *)
Definition empty_db : db := mk_auth_db idx_empty 0 idx_empty 0 idx_empty idx_empty.

Inductive auth_reachable : db -> Prop :=
| reach_init d : initialize_database empty_db = Ok d -> auth_reachable d
| reach_create env d d' account name parent auth time perm :
    auth_reachable d ->
    (parent = 0 \/ exists q, idx_view (permissions d) !! parent = Some q /\ po_owner q = account) ->
    create_permission env d account name parent auth time = Ok (d', perm) -> auth_reachable d'
| reach_modify env d d' perm auth :
    auth_reachable d -> po_id perm <> 0 ->
    modify_permission env d perm auth = Ok d' -> auth_reachable d'
| reach_remove d d' i perm :
    auth_reachable d -> idx_view (permissions d) !! i = Some perm ->
    remove_permission d perm = Ok d' -> auth_reachable d'
| reach_usage env d d' perm :
    auth_reachable d -> update_permission_usage env d perm = Ok d' -> auth_reachable d'.

Lemma init_wf d : initialize_database empty_db = Ok d -> auth_wf d.
Proof.
  unfold initialize_database. intros (t & [_ Ht]%db_create_Ok & [= <-])%bind_Ok.
  cbn in Ht. rewrite idx_empty_view in Ht.
  assert (forall i p, idx_view t !! i = Some p -> i = 0 /\ p = reserved_permission) as Hone.
  { intros i p. rewrite Ht. intros [[<- <-]|[_ []%lookup_empty_Some]]%lookup_insert_Some. done. }
  split; cbn; rewrite ?idx_empty_view.
  - rewrite Ht. by rewrite lookup_insert_eq.
  - intros i p [-> ->]%Hone. cbn. lia.
  - intros i p [-> ->]%Hone. done.
  - intros i j p q [-> _]%Hone [-> _]%Hone. done.
  - intros i p [-> _]%Hone. done.
  - intros i j p q Hi _ [-> _]%Hone. done.
  - intros k [x []%lookup_empty_Some].
Qed.

Lemma auth_reachable_wf_aux d : auth_reachable d -> auth_wf d.
Proof.
  induction 1.
  - by apply init_wf.
  - by eapply create_permission_wf.
  - by eapply modify_permission_wf.
  - by eapply remove_permission_wf.
  - by eapply update_permission_usage_wf.
Qed.

(** In every permission table the manager can reach, parents exist, belong to
    the same account and are older than their children, owner and name identify
    a permission, and each permission has a usage record of its own; in
    particular [remove_permission] never leaves a child without its parent. *)
Theorem auth_reachable_wf d : auth_reachable d -> auth_wf d.
Proof. apply auth_reachable_wf_aux. Qed.

(** ** The permission hierarchy *)

(** [a] is [p] or above it. *)
Inductive ancestor (d : db) (a : Z) : permission_object -> Prop :=
| anc_self p : po_id p = a -> ancestor d a p
| anc_up p q : po_parent p <> 0 -> idx_view (permissions d) !! po_parent p = Some q ->
    ancestor d a q -> ancestor d a p.

(** Rows with an id up to [i]: a bound for a walk upwards from [i]. *)
Definition age (d : db) (i : Z) : nat :=
  length (List.filter (fun r => r.1 <=? i) (idx_rows (permissions d))).

Lemma age_lt (d : db) i j p :
  idx_view (permissions d) !! i = Some p -> j < i -> (age d j < age d i)%nat.
Proof.
  intros Hi Hlt. apply (filter_length_lt _ _ _ (i, p)); [by apply elem_of_rows|cbn; lia..|].
  intros [k v]. cbn. lia.
Qed.

Lemma age_pos (d : db) i p : idx_view (permissions d) !! i = Some p -> (0 < age d i)%nat.
Proof. intros Hi. pose proof (age_lt d i (i - 1) p Hi). lia. Qed.

Lemma ancestor_owner (d : db) i p a q :
  auth_wf d -> idx_view (permissions d) !! i = Some p -> idx_view (permissions d) !! a = Some q ->
  ancestor d a p -> po_owner p = po_owner q.
Proof.
  intros W Hi Ha H. revert i Hi. induction H as [p E|p x H0 Hx _ IH]; intros i Hi.
  - destruct (aw_id _ W i p Hi) as [E' _]. rewrite <- E, E' in Ha. congruence.
  - rewrite <- (IH _ Hx). destruct (aw_parent _ W i p Hi) as [_ [?|(y & Hy & Ho)]]; [|done|congruence].
    intros ->. rewrite (aw_reserved _ W) in Hi. injection Hi as <-. done.
Qed.

Lemma satisfies_loop_spec (d : db) a i p fuel :
  auth_wf d -> a <> 0 -> idx_view (permissions d) !! i = Some p -> (age d i <= fuel)%nat ->
  exists b, satisfies_loop fuel d a p = Ok b /\
    (b = true <-> exists q, po_parent p <> 0 /\ idx_view (permissions d) !! po_parent p = Some q /\
                    ancestor d a q).
Proof.
  intros W Ha0. revert i p; induction fuel as [|fuel IH]; intros i p Hi Hfuel.
  { pose proof (age_pos d i p Hi). lia. }
  cbn [satisfies_loop].
  assert (po_parent p <> 0 -> exists q, idx_view (permissions d) !! po_parent p = Some q /\
            po_parent p < i) as Hpar.
  { intros H0. assert (i <> 0) as Hi0.
    { intros ->. rewrite (aw_reserved _ W) in Hi. injection Hi as <-. done. }
    destruct (aw_parent _ W i p Hi Hi0) as [? [?|(q & Hq & _)]]; [done|]. exists q. split; [done|lia]. }
  destruct (a =? po_parent p) eqn:E; bool_to_Z.
  { exists true. split; [done|]. split; [|done]. intros _.
    destruct Hpar as (q & Hq & _); [congruence|]. exists q. split_and!; [congruence|done|].
    apply anc_self. destruct (aw_id _ W _ _ Hq). congruence. }
  destruct (po_parent p =? 0) eqn:E0; bool_to_Z.
  { exists false. split; [done|]. split; [done|]. intros (q & ? & _). done. }
  destruct (Hpar E0) as (q & Hq & Hlt). rewrite idx_find_view, Hq. cbn [of_option mbind result_bind].
  pose proof (age_lt d i (po_parent p) p Hi Hlt). destruct (IH _ q Hq) as (b & -> & Hb); [lia|].
  exists b. split; [done|]. rewrite Hb. split.
  - intros (x & Hx0 & Hx & Hanc). exists q. split_and!; [done..|]. by eapply anc_up.
  - intros (x & _ & [= <-] & Hanc).
    destruct Hanc as [? Eid|? y Hy0 Hy Hanc]; [|eauto].
    destruct (aw_id _ W _ _ Hq). congruence.
Qed.

Lemma satisfies_spec_aux (d : db) i j this other :
  auth_wf d -> i <> 0 -> j <> 0 -> idx_view (permissions d) !! i = Some this ->
  idx_view (permissions d) !! j = Some other ->
  exists b, satisfies d this other = Ok b /\ (b = true <-> ancestor d (po_id this) other).
Proof.
  intros W Hi0 Hj0 Hi Hj. unfold satisfies.
  destruct (aw_id _ W _ _ Hi) as [Ei _]. destruct (aw_id _ W _ _ Hj) as [Ej _].
  destruct (po_owner this =? po_owner other) eqn:Eo; cbn [negb]; bool_to_Z.
  2: { exists false. split; [done|]. split; [done|]. intros Hanc. destruct Eo.
       symmetry. eapply ancestor_owner; [done..|]. by rewrite <- Ei. }
  destruct (aw_parent _ W j other Hj Hj0) as [Hle Hp].
  assert (exists x, idx_view (permissions d) !! po_parent other = Some x) as [x Hx].
  { destruct Hp as [->|(x & Hx & _)]; [eauto using aw_reserved|eauto]. }
  rewrite idx_find_view, Hx, Ei, Ej. cbn [of_option mbind result_bind].
  destruct ((i =? j) || (i =? po_parent other)) eqn:E.
  - exists true. split; [done|]. split; [|done]. intros _. apply orb_true_iff in E as [E|E]; bool_to_Z.
    + apply anc_self. congruence.
    + eapply anc_up; [congruence|done|]. apply anc_self. destruct (aw_id _ W _ _ Hx). congruence.
  - bool_to_Z. destruct (satisfies_loop_spec d i _ x (length (idx_rows (permissions d))) W Hi0 Hx)
      as (b & -> & Hb); [apply List.filter_length_le|].
    exists b. split; [done|]. rewrite Hb. split.
    + intros (q & Hq0 & Hq & Hanc). eapply anc_up; [|exact Hx|by eapply anc_up].
      intros Ez. rewrite Ez, (aw_reserved _ W) in Hx. injection Hx as <-. done.
    + intros Hanc. destruct Hanc as [p Eid|p y Hy0 Hy Hanc]; [congruence|].
      rewrite Hx in Hy. injection Hy as <-.
      destruct Hanc as [p' Eid|p' z Hz0 Hz Hanc]; [|eauto].
      destruct (aw_id _ W _ _ Hx). congruence.
Qed.

(** In a well-formed table, [satisfies] always returns, and it says yes exactly
    when the permission is the other one or above it in the hierarchy. *)
Theorem satisfies_spec (d : db) i j this other :
  auth_wf d -> i <> 0 -> j <> 0 -> idx_view (permissions d) !! i = Some this ->
  idx_view (permissions d) !! j = Some other ->
  exists b, satisfies d this other = Ok b /\ (b = true <-> ancestor d (po_id this) other).
Proof. apply satisfies_spec_aux. Qed.

Lemma get_permission_Ok (d : db) l p :
  auth_wf d -> get_permission d l = Ok p ->
  exists i, i <> 0 /\ idx_view (permissions d) !! i = Some p /\ po_id p = i /\
    po_owner p = actor l /\ po_name p = permission l.
Proof.
  intros W. unfold get_permission, rethrow_as.
  destruct (_ ≫= _) as [q|e] eqn:E; [|by destruct (is_a e _)]. intros [= <-].
  apply bind_Ok in E as (_ & Hne%sys_assert_Ok & E).
  apply of_option_Ok, find_by_owner_Some in E as (i & Hi & Ho & Hn). bool_to_Z.
  exists i. destruct (aw_id _ W _ _ Hi). split_and!; try done. intros ->.
  rewrite (aw_reserved _ W) in Hi. injection Hi as <-. cbn in Ho. congruence.
Qed.

(** A declared permission that stands above (or is) [min]. *)
Definition outranks (d : db) (l : permission_level) (min : permission_object) : Prop :=
  exists p, get_permission d l = Ok p /\ ancestor d (po_id p) min.

Lemma satisfies_outranks (d : db) l p lmin min :
  auth_wf d -> get_permission d l = Ok p -> get_permission d lmin = Ok min ->
  satisfies d p min = Ok true -> outranks d l min.
Proof.
  intros W Hl Hm Hs. destruct (get_permission_Ok d l p W Hl) as (i & Hi0 & Hi & Ei & _).
  destruct (get_permission_Ok d lmin min W Hm) as (j & Hj0 & Hj & Ej & _).
  destruct (satisfies_spec_aux d i j p min W Hi0 Hj0 Hi Hj) as (b & E & Hb).
  exists p. split; [done|]. apply Hb. congruence.
Qed.

Lemma assert_satisfies_Ok (d : db) l lmin min :
  auth_wf d -> get_permission d lmin = Ok min -> assert_satisfies d l min = Ok tt -> outranks d l min.
Proof.
  intros W Hm. unfold assert_satisfies. intros (p & Hp & H)%bind_Ok.
  apply bind_Ok in H as (b & Hb & ->%sys_assert_Ok). by eapply satisfies_outranks.
Qed.

(** ** [check_authorization] is sound *)

Definition covered (l : list (permission_level * Z)) (q : permission_level) (delay : Z) : Prop :=
  exists d', (q, d') ∈ l /\ d' <= delay.

Definition covers (l l' : list (permission_level * Z)) : Prop :=
  forall q delay, covered l q delay -> covered l' q delay.

#[local] Instance covers_preorder : PreOrder covers.
Proof. split; [by intros l q|]. intros a b c H1 H2 q delay H. auto. Qed.

Lemma require_permission_covers p delay l :
  covers l (require_permission p delay l) /\ covered (require_permission p delay l) p delay.
Proof.
  induction l as [|[q dq] l [IH1 IH2]]; cbn [require_permission].
  - split; [by intros q' ? (? & []%elem_of_nil & _)|]. exists delay. split; [by left|lia].
  - case_bool_decide as E; [subst q|destruct (level_less p q)].
    + split.
      * intros q' dl (d' & [[= -> ->]|Hin]%elem_of_cons & Hle).
        -- exists (if delay <? dq then delay else dq). split; [by left|]. destruct (delay <? dq) eqn:?; lia.
        -- exists d'. split; [by right|done].
      * exists (if delay <? dq then delay else dq). split; [by left|]. destruct (delay <? dq) eqn:?; lia.
    + split; [|exists delay; split; [by left|lia]].
      intros q' dl (d' & Hin & Hle). exists d'. split; [by right|done].
    + split.
      * intros q' dl (d' & [[= -> ->]|Hin]%elem_of_cons & Hle); [exists dq; split; [by left|done]|].
        destruct (IH1 q' dl) as (d2 & Hin2 & Hle2); [by exists d'|]. exists d2. split; [by right|done].
      * destruct IH2 as (d2 & Hin2 & Hle2). exists d2. split; [by right|done].
Qed.

(** What the check of one declared authorization establishes. *)
Definition declared_ok (d : db) (act : action) (special_case : bool) (a : permission_level) : Prop :=
  special_case = false -> forall name,
    lookup_minimum_permission d (actor a) (act_account act) (act_name act) = Ok (Some name) ->
    exists min, get_permission d (mk_level (actor a) name) = Ok min /\ outranks d a min.

Lemma declared_step_Ok (d : db) checktime sa act special delay l a l' :
  auth_wf d -> declared_step d checktime sa act special delay l a = Ok l' ->
  covers l l' /\ (a ∈ sa \/ covered l' a delay) /\ declared_ok d act special a.
Proof.
  intros W. unfold declared_step. intros (_ & _ & H)%bind_Ok.
  apply bind_Ok in H as ([] & Hmin & [= <-]). destruct (require_permission_covers a delay l) as [H1 H2].
  split_and!.
  - by case_bool_decide.
  - case_bool_decide; auto.
  - intros -> name Hname. rewrite Hname in Hmin. cbn [mbind result_bind] in Hmin.
    apply bind_Ok in Hmin as (min & Hm & Hs). exists min. split; [done|].
    by eapply assert_satisfies_Ok.
Qed.

Lemma action_step_Ok env cd (d : db) checktime sa eff l act l' :
  auth_wf d -> action_step env cd d checktime sa eff l act = Ok l' ->
  covers l l' /\ exists special delay, native_check env cd d act eff = Ok (special, delay) /\
    forall a, a ∈ act_authorization act ->
      (a ∈ sa \/ covered l' a delay) /\ declared_ok d act special a.
Proof.
  intros W. unfold action_step. intros ([special delay] & Hn & H)%bind_Ok.
  apply (foldM_each covers) in H as [Hc Hall];
    [|intros ? ? ? Hs; by apply (declared_step_Ok d) in Hs as [? _]].
  split; [done|]. exists special, delay. split; [done|]. intros a Ha.
  destruct (Hall a Ha) as (s1 & s2 & Hs & Hc2).
  apply (declared_step_Ok d) in Hs as (_ & [?|?] & ?); [| |done]; auto.
Qed.

Lemma authority_of_weights (d : db) l auth :
  (forall i p, idx_view (permissions d) !! i = Some p -> weights_wf (po_auth p)) ->
  auth_wf d -> authority_of d l = Ok auth -> weights_wf auth.
Proof.
  intros Hw W. unfold authority_of. destruct (get_permission d l) as [p|] eqn:E; cbn; [|done].
  intros [= <-]. apply get_permission_Ok in E as (i & _ & Hi & _); [|done]. by eapply Hw.
Qed.

(** What acceptance establishes for each declared authorization. *)
Lemma check_authorization_accepts env cd (d : db) actions ks ps delay checktime allow_unused sa :
  auth_wf d -> (forall i p, idx_view (permissions d) !! i = Some p -> weights_wf (po_auth p)) ->
  check_authorization env cd d actions ks ps delay checktime allow_unused false sa = Ok tt ->
  forall act, act ∈ actions ->
  exists special dl, native_check env cd d act (effective_delay env delay) = Ok (special, dl) /\
    forall a, a ∈ act_authorization act ->
      (a ∈ sa \/ exists dl', dl' <= dl /\ level_granted (authority_of d) ks ps dl' a) /\
      declared_ok d act special a.
Proof.
  intros W Hw. unfold check_authorization. intros (l & Hl & H)%bind_Ok act Hact.
  apply bind_Ok in H as (used & Hv & _).
  apply (foldM_each covers) in Hl as [_ Hall];
    [|intros ? ? ? Hs; by apply action_step_Ok in Hs as [? _]].
  destruct (Hall act Hact) as (s1 & s2 & Hs & Hc). apply action_step_Ok in Hs as (_ & sp & dl & Hn & Ha); [|done].
  exists sp, dl. split; [done|]. intros a Hin. destruct (Ha a Hin) as [Hor Hd]. split; [|done].
  destruct Hor as [|Hcov]; [by left|right]. destruct (Hc _ _ Hcov) as (dl' & Hin' & Hle).
  exists dl'. split; [done|].
  destruct (foldM_each_Ok _ _ _ _ _ Hv Hin') as (u1 & u2 & Hstep). unfold verify_step in Hstep.
  apply bind_Ok in Hstep as (_ & _ & Hstep). apply bind_Ok in Hstep as ([b u3] & Hsat & Hstep).
  apply bind_Ok in Hstep as (_ & Hb%sys_assert_Ok & _). rewrite orb_false_r in Hb. subst b.
  eapply satisfied_sound_aux; [|exact Hsat]. intros l0 auth. by apply authority_of_weights.
Qed.

(** C3: When [check_authorization] accepts, every declared authorization of every
    action is satisfied by the provided keys and permissions under no more than
    the delay that applies to the action (or was satisfied before), and, unless
    the action has rules of its own, it stands at or above the permission the
    action is linked to. *)
Theorem check_authorization_sound env cd (d : db) actions ks ps delay checktime allow_unused sa :
  auth_wf d -> (forall i p, idx_view (permissions d) !! i = Some p -> weights_wf (po_auth p)) ->
  check_authorization env cd d actions ks ps delay checktime allow_unused false sa = Ok tt ->
  forall act, act ∈ actions ->
  exists special dl, native_check env cd d act (effective_delay env delay) = Ok (special, dl) /\
    forall a, a ∈ act_authorization act ->
      (a ∈ sa \/ exists dl', dl' <= dl /\ level_granted (authority_of d) ks ps dl' a) /\
      declared_ok d act special a.
Proof. apply check_authorization_accepts. Qed.

(** The special permissions [auth.ext] and [auth.session] can only be updated
    under an authorization of the system account; any other update needs one
    authorization of the owner, at or above the updated permission or, when it
    is new, its parent. *)
Theorem check_updateauth_spec (d : db) update auths :
  auth_wf d -> check_updateauth_authorization d update auths = Ok tt ->
  exists a, auths = [a] /\
    if (ua_permission update =? auth_ext_name) || (ua_permission update =? auth_session_name)
    then actor a = system_account_name
    else actor a = ua_account update /\ exists name min,
      get_permission d (mk_level (ua_account update) name) = Ok min /\ outranks d a min /\
      (name = ua_permission update \/
       (name = ua_parent update /\ find_by_owner d (ua_account update) (ua_permission update) = None)).
Proof.
  intros W. unfold check_updateauth_authorization. intros (a & Ha & H)%bind_Ok. exists a.
  assert (auths = [a]) as -> by (destruct auths as [|x [|? ?]]; by inv_res). split; [done|].
  apply bind_Ok in H as (_ & _ & H). destruct (_ || _).
  { apply sys_assert_Ok in H. by bool_to_Z. }
  apply bind_Ok in H as (omin & Hf & H). apply bind_Ok in H as (min & Hm & H).
  assert (exists name, get_permission d (mk_level (ua_account update) name) = Ok min /\
    (name = ua_permission update \/ (name = ua_parent update /\
       find_by_owner d (ua_account update) (ua_permission update) = None))) as (name & Hg & Hor).
  { unfold find_permission in Hf. unfold rethrow_as in Hf.
    destruct (_ ≫= _) as [o|e] eqn:E; [|by destruct (is_a e _)]. injection Hf as ->.
    apply bind_Ok in E as ([] & Hne & [= E]). cbn [actor permission] in *.
    destruct omin as [q|].
    - injection Hm as ->. exists (ua_permission update). split; [|by left].
      unfold get_permission. cbn [actor permission]. rewrite Hne. cbn [mbind result_bind]. by rewrite E.
    - exists (ua_parent update). auto. }
  pose proof (assert_satisfies_Ok d a _ min W Hg H) as Hout.
  split; [|by exists name, min]. destruct Hout as (p & Hp & Hanc).
  destruct (get_permission_Ok d a p W Hp) as (i & _ & Hi & Ei & Ho & _).
  destruct (get_permission_Ok d _ min W Hg) as (j & _ & Hj & Ej & Ho' & _). cbn in Ho'.
  rewrite Ei in Hanc. pose proof (ancestor_owner d j min i p W Hj Hi Hanc). congruence.
Qed.

(** The minimum permission of an action is the one linked to the action, else
    the one linked to its whole contract, else [active]; [sysio.any] stands for
    no requirement, and the native authorization actions have none to look up. *)
Theorem lookup_minimum_permission_spec (d : db) account code act_name :
  lookup_minimum_permission d account code act_name =
  if (code =? system_account_name) && is_native_auth_action act_name
  then Throw unlinkable_min_permission_action
  else Ok match idx_view (links d) !! (account, code, act_name) with
          | Some n => if n =? sysio_any_name then None else Some n
          | None => match idx_view (links d) !! (account, code, 0) with
                    | Some n => if n =? sysio_any_name then None else Some n
                    | None => Some active_name
                    end
          end.
Proof.
  unfold lookup_minimum_permission, lookup_linked_permission. rewrite !idx_find_view.
  destruct (code =? system_account_name); cbn [andb]; [destruct (is_native_auth_action act_name)|];
    cbn; try done; by destruct (_ !! (account, code, act_name)).
Qed.
End invariants.

(** ** A concrete table: an account with an owner and an active permission *)
Module AuthWitness.

Definition db := auth_db (gmap Z permission_object) (gmap Z Z) (gmap (Z * Z * Z) Z)
                   (gmap digest generated_transaction).
Definition alice : Z := Eval vm_compute in n_ "alice".
Definition owner_name : Z := Eval vm_compute in n_ "owner".
Definition k1 : public_key := mk_public_key 0 [1].
Definition k2 : public_key := mk_public_key 0 [2].
Definition env : auth_env := mk_auth_env 1000 2 true 3888000 6.
Definition key_auth (k : public_key) : authority := mk_authority 1 [mk_kw k 1] [] [].

Definition build : res db :=
  d ← initialize_database empty_db;
  '(d, o) ← create_permission env d alice owner_name 0 (key_auth k1) 0;
  '(d, _) ← create_permission env d alice active_name (po_id o) (key_auth k2) 0;
  Ok d.
Definition d3 : db := match build with Ok d => d | Throw _ => empty_db end.

Lemma d3_reachable : auth_reachable d3.
Proof.
  assert (build = Ok d3) as H by (vm_compute; reflexivity). unfold build in H.
  apply bind_Ok in H as (d0 & H0 & H).
  apply bind_Ok in H as ([d1 o] & H1 & H). apply bind_Ok in H as ([d2 p] & H2 & [= H3]).
  rewrite <- H3. assert (auth_reachable d0) as R0 by by apply reach_init.
  assert (auth_reachable d1) as R1 by (eapply reach_create; [exact R0|left; reflexivity|exact H1]).
  eapply reach_create; [exact R1| |exact H2]. right. exists o.
  destruct (create_permission_wf _ _ _ _ _ _ _ _ _ (auth_reachable_wf_aux _ R0) (or_introl eq_refl) H1)
    as (_ & E & _). rewrite E, lookup_insert_eq. split; [done|].
  unfold create_permission in H1. apply bind_Ok in H1 as (_ & _ & H1).
  apply bind_Ok in H1 as (u & _ & H1). apply bind_Ok in H1 as (_ & _ & H1).
  by apply bind_Ok in H1 as (t & _ & [= _ <-]).
Qed.

Lemma d3_wf : auth_wf d3.
Proof. apply auth_reachable_wf_aux, d3_reachable. Qed.

Lemma auth_reachable_wf_witness : auth_wf d3.
Proof. apply (auth_reachable_wf d3), d3_reachable. Defined.

Definition owner_row : permission_object :=
  mk_permission_object 1 0 0 alice owner_name 1000 (key_auth k1).
Definition active_row : permission_object :=
  mk_permission_object 2 1 1 alice active_name 1000 (key_auth k2).

Lemma satisfies_spec_witness :
  exists b, satisfies d3 owner_row active_row = Ok b /\ (b = true <-> ancestor d3 1 active_row).
Proof.
  apply (satisfies_spec d3 1 2 owner_row active_row d3_wf); [lia|lia|vm_compute; reflexivity..].
Defined.

Definition token : Z := Eval vm_compute in n_ "sysio.token".
Definition transfer : action :=
  mk_action token (n_ "transfer") [mk_level alice active_name] [].
Definition no_codec : codec :=
  mk_codec (fun _ => Throw fc_out_of_range_exception) (fun _ => Throw fc_out_of_range_exception)
    (fun _ => Throw fc_out_of_range_exception) (fun _ => Throw fc_out_of_range_exception)
    (fun _ => Throw fc_out_of_range_exception).

Lemma d3_weights i p : idx_view (permissions d3) !! i = Some p -> weights_wf (po_auth p).
Proof.
  intros H. assert (idx_view (permissions d3) = {[0 := reserved_permission; 1 := owner_row; 2 := active_row]})
    as E by (vm_compute; reflexivity).
  rewrite E in H.
  repeat (apply lookup_insert_Some in H as [[<- <-]|[_ H]]);
    [..|apply lookup_singleton_Some in H as [<- <-]];
    unfold weights_wf; cbn; rewrite ?Forall_cons, ?Forall_nil; unfold is_u16; cbn; lia.
Qed.

Lemma check_authorization_sound_witness :
  exists special dl, native_check env no_codec d3 transfer (effective_delay env 0) = Ok (special, dl) /\
    forall a, a ∈ act_authorization transfer ->
      (a ∈ (∅ : gset permission_level) \/
       exists dl', dl' <= dl /\ level_granted (authority_of d3) [k2] ∅ dl' a) /\
      declared_ok d3 transfer special a.
Proof.
  apply (check_authorization_sound env no_codec d3 [transfer] [k2] ∅ 0 (Ok tt) false ∅ d3_wf d3_weights).
  - vm_compute. reflexivity.
  - apply list_elem_of_singleton. reflexivity.
Defined.

Definition new_perm : updateauth := mk_updateauth alice (n_ "game") active_name (key_auth k1).

Lemma check_updateauth_spec_witness :
  exists a, [mk_level alice owner_name] = [a] /\ actor a = alice /\
    exists name min, get_permission d3 (mk_level alice name) = Ok min /\ outranks d3 a min.
Proof.
  destruct (check_updateauth_spec d3 new_perm [mk_level alice owner_name] d3_wf) as (a & E & H).
  - vm_compute. reflexivity.
  - exists a. split; [exact E|]. destruct H as (Ha & name & min & H1 & H2 & _).
    split; [exact Ha|]. exists name, min. split; [exact H1|exact H2].
Defined.
End AuthWitness.
