(* ===== verification/ProtocolFeatures.v ===== *)
(** * Protocol features ([protocol_feature_manager.cpp], [protocol_feature_activation.cpp],
    and the parts of [controller.cpp] that activate features)

    The set of features a node recognises, the record of the activated ones with
    its undo by block number, and the checks a block that activates features has
    to pass. *)

From S2P Require Import Prelude Exceptions Types BlockTimestamp.

(** ** The builtin features *)

Module builtin.

Inductive builtin_protocol_feature_t :=
| preactivate_feature
| only_link_to_existing_permission
| replace_deferred
| no_duplicate_deferred_id
| fix_linkauth_restriction
| disallow_empty_producer_schedule
| restrict_action_to_self
| only_bill_first_authorizer
| forward_setcode
| get_sender
| ram_restrictions
| webauthn_key
| wtmsig_block_signatures
| action_return_value
| blockchain_parameters
| get_code_hash
| configurable_wasm_limits
| crypto_primitives
| get_block_num
| em_key
| bls_primitives
| disable_deferred_trxs_stage_1
| disable_deferred_trxs_stage_2
| disable_compression_in_transaction_merkle
| reserved_private_fork_protocol_features.

#[global] Instance eq_dec : EqDecision builtin_protocol_feature_t.
Proof. solve_decision. Defined.

(** The value of an enumerator, [static_cast<uint32_t>]. *)
Definition value (f : builtin_protocol_feature_t) : Z :=
  match f with
  | preactivate_feature => 0
  | only_link_to_existing_permission => 1
  | replace_deferred => 2
  | no_duplicate_deferred_id => 3
  | fix_linkauth_restriction => 4
  | disallow_empty_producer_schedule => 5
  | restrict_action_to_self => 6
  | only_bill_first_authorizer => 7
  | forward_setcode => 8
  | get_sender => 9
  | ram_restrictions => 10
  | webauthn_key => 11
  | wtmsig_block_signatures => 12
  | action_return_value => 13
  | blockchain_parameters => 16
  | get_code_hash => 17
  | configurable_wasm_limits => 18
  | crypto_primitives => 19
  | get_block_num => 20
  | em_key => 21
  | bls_primitives => 22
  | disable_deferred_trxs_stage_1 => 23
  | disable_deferred_trxs_stage_2 => 24
  | disable_compression_in_transaction_merkle => 25
  | reserved_private_fork_protocol_features => 500000
  end.
End builtin.
Import builtin.

Record restrictions := mk_restrictions {
  earliest_allowed_activation_time : Z;
  preactivation_required : bool;
  enabled : bool }.

Record builtin_protocol_feature_spec := mk_spec {
  codename : string;
  spec_description_digest : digest;
  builtin_dependencies : list builtin_protocol_feature_t;
  spec_restrictions : restrictions }.

(** What a specification has when it does not say otherwise. *)
Definition default_restrictions : restrictions := mk_restrictions 0 true true.

(** [builtin_protocol_feature_codenames]: looking a feature up in the table. *)
Definition builtin_protocol_feature_codenames (f : builtin_protocol_feature_t)
  : option builtin_protocol_feature_spec :=
  match f with
  | preactivate_feature => Some (mk_spec "PREACTIVATE_FEATURE"
      (mk_digest 13728831140041457252 2870446083726321963 14500243411875024632 1167403736956158078)
      [] (mk_restrictions 0 false true))
  | only_link_to_existing_permission => Some (mk_spec "ONLY_LINK_TO_EXISTING_PERMISSION"
      (mk_digest 16342722222464025587 2622870616015401529 1627150836863478117 5272004925579333083)
      [] default_restrictions)
  | replace_deferred => Some (mk_spec "REPLACE_DEFERRED"
      (mk_digest 8395901859368470681 17795080341915642539 17452399119147287248 4961038773247362941)
      [] default_restrictions)
  | no_duplicate_deferred_id => Some (mk_spec "NO_DUPLICATE_DEFERRED_ID"
      (mk_digest 8131973630343222853 9280460809261882903 7625197740471858529 11562171256575370445)
      [replace_deferred] default_restrictions)
  | fix_linkauth_restriction => Some (mk_spec "FIX_LINKAUTH_RESTRICTION"
      (mk_digest 11931428164740435177 11565630231417956035 15443641779602918656 17999476495944753549)
      [] default_restrictions)
  | disallow_empty_producer_schedule => Some (mk_spec "DISALLOW_EMPTY_PRODUCER_SCHEDULE"
      (mk_digest 15324411342478201640 14226640910760509720 393452641307138792 14815403495052764280)
      [] default_restrictions)
  | restrict_action_to_self => Some (mk_spec "RESTRICT_ACTION_TO_SELF"
      (mk_digest 11065769898837220327 3230419187857389644 6637005014972791879 17534512751219425009)
      [] default_restrictions)
  | only_bill_first_authorizer => Some (mk_spec "ONLY_BILL_FIRST_AUTHORIZER"
      (mk_digest 11933914016978771759 17492499501920664482 5454246883334115283 16317450772851939926)
      [] default_restrictions)
  | forward_setcode => Some (mk_spec "FORWARD_SETCODE"
      (mk_digest 3581588568254184916 8075177975471760727 13410104716264688812 2595230777657847145)
      [] default_restrictions)
  | get_sender => Some (mk_spec "GET_SENDER"
      (mk_digest 17646970953071373086 6261655339456973783 11553170040906840170 9980812556504258728)
      [] default_restrictions)
  | ram_restrictions => Some (mk_spec "RAM_RESTRICTIONS"
      (mk_digest 6113758581654098456 2396825215818438052 58081602421199261 7506565347111361317)
      [] default_restrictions)
  | webauthn_key => Some (mk_spec "WEBAUTHN_KEY"
      (mk_digest 12139205154085765010 2304516459505382041 17852789280977433483 3799925416542869851)
      [] default_restrictions)
  | wtmsig_block_signatures => Some (mk_spec "WTMSIG_BLOCK_SIGNATURES"
      (mk_digest 9170871100127803051 234040576158586191 17804423185445529272 1193071932288912509)
      [] default_restrictions)
  | action_return_value => Some (mk_spec "ACTION_RETURN_VALUE"
      (mk_digest 4046359022962782313 11766097861663343841 5304873733363618713 7356931093937140043)
      [] default_restrictions)
  | configurable_wasm_limits => Some (mk_spec "CONFIGURABLE_WASM_LIMITS2"
      (mk_digest 1765332196499470721 16861617676222365423 15767933886676983610 7096825339382744127)
      [] default_restrictions)
  | blockchain_parameters => Some (mk_spec "BLOCKCHAIN_PARAMETERS"
      (mk_digest 3178110718892669040 11082923824551020882 12068535470153190118 1491664546238257592)
      [] default_restrictions)
  | get_code_hash => Some (mk_spec "GET_CODE_HASH"
      (mk_digest 597520791971977682 163696086906962240 12048711237050623530 15307408830349413863)
      [] default_restrictions)
  | crypto_primitives => Some (mk_spec "CRYPTO_PRIMITIVES"
      (mk_digest 16806835367331288680 7284863445381732443 3239934768821457016 9402723905626859724)
      [] default_restrictions)
  | get_block_num => Some (mk_spec "GET_BLOCK_NUM"
      (mk_digest 11756899741241825253 6845284366980767372 18321135286075583063 10499093665535538169)
      [] default_restrictions)
  | em_key => Some (mk_spec "EM_KEY"
      (mk_digest 9317086401545540 13877207375182454007 7892627220930650837 6925809926754303059)
      [] default_restrictions)
  | bls_primitives => Some (mk_spec "BLS_PRIMITIVES2"
      (mk_digest 11680625325165104320 13717585124501134989 17497752162388741741 1946011119149021708)
      [] default_restrictions)
  | disable_deferred_trxs_stage_1 => Some (mk_spec "DISABLE_DEFERRED_TRXS_STAGE_1"
      (mk_digest 14056493834389294148 1425474320210513543 16941139015476190341 12237877090597899585)
      [] default_restrictions)
  | disable_deferred_trxs_stage_2 => Some (mk_spec "DISABLE_DEFERRED_TRXS_STAGE_2"
      (mk_digest 5858188275053647784 138562670259290138 4345046848369178559 13428623270144310889)
      [disable_deferred_trxs_stage_1] default_restrictions)
  | disable_compression_in_transaction_merkle => Some (mk_spec "DISABLE_COMPRESSION_IN_TRANSACTION_MERKLE"
      (mk_digest 14942846224177773783 17993970015735963020 668925724563148182 9724844148243667814)
      [disable_deferred_trxs_stage_2] default_restrictions)
  | reserved_private_fork_protocol_features => None
  end.

(** [builtin_protocol_feature]; [dependencies] is a [flat_set]. *)
Record builtin_protocol_feature := mk_builtin_feature {
  f_codename : builtin_protocol_feature_t;
  f_description_digest : digest;
  f_dependencies : list digest;
  f_restrictions : restrictions }.

(** The constructor of [builtin_protocol_feature]. *)
Definition make_builtin_protocol_feature (c : builtin_protocol_feature_t) (description : digest)
    (dependencies : list digest) (r : restrictions) : res builtin_protocol_feature :=
  match builtin_protocol_feature_codenames c with
  | None => Throw protocol_feature_validation_exception
  | Some _ => Ok (mk_builtin_feature c description dependencies r)
  end.

(** [flat_set::insert] *)
Definition set_insert {A} `{EqDecision A} (x : A) (l : list A) : list A :=
  if bool_decide (x ∈ l) then l else x :: l.

(** ** Recognised features *)

Record protocol_feature := mk_protocol_feature {
  feature_digest : digest;
  description_digest : digest;
  dependencies : list digest;
  pf_restrictions : restrictions;
  builtin_feature : option builtin_protocol_feature_t }.

(** [protocol_feature_set]; the iterators of [_recognized_builtin_protocol_features]
    are the digests they point at, [None] for the end iterator. *)
Record protocol_feature_set := mk_pfs {
  recognized : gmap digest protocol_feature;
  recognized_builtin : list (option digest) }.

Definition empty_pfs : protocol_feature_set := mk_pfs ∅ [].

Inductive recognized_t := unrecognized | disabled | too_early | ready.

Definition is_recognized (pfs : protocol_feature_set) (d : digest) (now : Z) : recognized_t :=
  match recognized pfs !! d with
  | None => unrecognized
  | Some f =>
      if negb (enabled (pf_restrictions f)) then disabled
      else if now <? earliest_allowed_activation_time (pf_restrictions f) then too_early
      else ready
  end.

Definition get_builtin_digest (pfs : protocol_feature_set) (c : builtin_protocol_feature_t) : option digest :=
  match recognized_builtin pfs !! Z.to_nat (value c) with
  | Some (Some d) => feature_digest <$> recognized pfs !! d
  | _ => None
  end.

Definition get_protocol_feature (pfs : protocol_feature_set) (d : digest) : res protocol_feature :=
  of_option protocol_feature_exception (recognized pfs !! d).

Definition validate_dependencies (pfs : protocol_feature_set) (d : digest) (validator : digest -> bool) : bool :=
  match recognized pfs !! d with
  | None => false
  | Some f => forallb validator (dependencies f)
  end.

(** [make_default_builtin_protocol_feature]; the callback may change a state. *)
Definition make_default_builtin_protocol_feature {S} (c : builtin_protocol_feature_t)
    (handle_dependency : S -> builtin_protocol_feature_t -> res (S * digest)) (s : S)
  : res (S * builtin_protocol_feature) :=
  spec ← of_option protocol_feature_validation_exception (builtin_protocol_feature_codenames c);
  '(s, deps) ← foldM (fun '(s, deps) d => '(s, dg) ← handle_dependency s d; Ok (s, set_insert dg deps))
                 (s, []) (builtin_dependencies spec);
  f ← make_builtin_protocol_feature c (spec_description_digest spec) deps (spec_restrictions spec);
  Ok (s, f).

Section pfs.
(** [builtin_protocol_feature::digest], a hash of the packed feature. *)
Context (feature_hash : builtin_protocol_feature -> digest).

(** The loop over the dependencies of an added feature; it collects the expected
    builtin ones. *)
Definition collect_dependencies (pfs : protocol_feature_set) (expected : list builtin_protocol_feature_t)
    (deps : list digest) : res (list builtin_protocol_feature_t) :=
  foldM (fun sat d =>
    f ← of_option protocol_feature_exception (recognized pfs !! d);
    Ok match builtin_feature f with
       | Some b => if bool_decide (b ∈ expected) then set_insert b sat else sat
       | None => sat
       end) [] deps.

(** [protocol_feature_set::add_feature] *)
Definition add_feature (pfs : protocol_feature_set) (f : builtin_protocol_feature)
  : res (protocol_feature_set * protocol_feature) :=
  spec ← of_option protocol_feature_validation_exception (builtin_protocol_feature_codenames (f_codename f));
  let indx := Z.to_nat (value (f_codename f)) in
  _ ← match recognized_builtin pfs !! indx with
      | Some (Some _) => Throw protocol_feature_exception
      | _ => Ok tt
      end;
  let digest := feature_hash f in
  let expected := builtin_dependencies spec in
  sat ← collect_dependencies pfs expected (f_dependencies f);
  _ ← (if (length sat <? length expected)%nat then
         _ ← foldM (fun _ b => of_option protocol_feature_exception
                                 (builtin_protocol_feature_codenames b) ≫= fun _ => Ok tt) tt
               (List.filter (fun b => negb (bool_decide (b ∈ sat))) expected);
         Throw protocol_feature_validation_exception
       else Ok tt);
  let pf := mk_protocol_feature digest (f_description_digest f) (f_dependencies f) (f_restrictions f)
              (Some (f_codename f)) in
  _ ← sys_assert (bool_decide (recognized pfs !! digest = None)) protocol_feature_exception;
  let slots := recognized_builtin pfs ++ replicate (S indx - length (recognized_builtin pfs)) None in
  Ok (mk_pfs (<[digest := pf]> (recognized pfs)) (<[indx := Some digest]> slots), pf).
End pfs.

(** ** Activated features *)

(** [builtin_protocol_feature_entry] *)
Record builtin_entry := mk_entry { previous : Z; activation_block_num : Z }.
Definition no_previous : Z := u64_max.
Definition not_active : Z := u32_max.
Definition inactive_entry : builtin_entry := mk_entry no_previous not_active.

(** [protocol_feature_manager] *)
Record protocol_feature_manager := mk_pfm {
  pfm_set : protocol_feature_set;
  activated_protocol_features : list (digest * Z);
  builtin_protocol_features : list builtin_entry;
  head_of_builtin_activation_list : Z;
  initialized : bool }.

Definition new_manager (pfs : protocol_feature_set) : protocol_feature_manager :=
  mk_pfm pfs [] (replicate (length (recognized_builtin pfs)) inactive_entry) no_previous false.

Definition set_initialized (m : protocol_feature_manager) (b : bool) : protocol_feature_manager :=
  mk_pfm (pfm_set m) (activated_protocol_features m) (builtin_protocol_features m)
    (head_of_builtin_activation_list m) b.

(** [protocol_feature_manager::is_builtin_activated] *)
Definition pfm_is_builtin_activated (m : protocol_feature_manager) (c : builtin_protocol_feature_t)
    (current_block_num : Z) : bool :=
  match builtin_protocol_features m !! Z.to_nat (value c) with
  | None => false
  | Some e => activation_block_num e <=? current_block_num
  end.

Definition activate_feature (m : protocol_feature_manager) (d : digest) (current_block_num : Z)
  : res protocol_feature_manager :=
  _ ← sys_assert (initialized m) protocol_feature_exception;
  f ← of_option protocol_feature_exception (recognized (pfm_set m) !! d);
  _ ← match last (activated_protocol_features m) with
      | Some l => sys_assert (l.2 <=? current_block_num) protocol_feature_exception
      | None => Ok tt
      end;
  b ← of_option protocol_feature_exception (builtin_feature f);
  let indx := Z.to_nat (value b) in
  e ← of_option protocol_feature_exception (builtin_protocol_features m !! indx);
  _ ← sys_assert (activation_block_num e =? not_active) protocol_feature_exception;
  Ok (mk_pfm (pfm_set m) (activated_protocol_features m ++ [(d, current_block_num)])
        (<[indx := mk_entry (head_of_builtin_activation_list m) current_block_num]>
           (builtin_protocol_features m))
        (value b) (initialized m)).

(** The first loop of [popped_blocks_to]: unlink the entries of later blocks.  The
    list visits every entry at most once, so one more round than entries is enough. *)
Fixpoint unlink (fuel : nat) (entries : list builtin_entry) (head block_num : Z)
  : res (list builtin_entry * Z) :=
  if head =? no_previous then Ok (entries, head)
  else match fuel with
  | O => Throw fuel_exhausted
  | S fuel =>
      e ← of_option undefined_behavior (entries !! Z.to_nat head);
      if activation_block_num e <=? block_num then Ok (entries, head)
      else unlink fuel (<[Z.to_nat head := inactive_entry]> entries) (previous e) block_num
  end.

(** The second loop, on the reversed vector. *)
Fixpoint pop_back_while {A} (block_num : Z) (l : list (A * Z)) : list (A * Z) :=
  match l with
  | [] => []
  | e :: l' => if block_num <? e.2 then pop_back_while block_num l' else l
  end.

Definition popped_blocks_to (m : protocol_feature_manager) (block_num : Z)
  : res protocol_feature_manager :=
  _ ← sys_assert (initialized m) protocol_feature_exception;
  '(entries, head) ← unlink (length (builtin_protocol_features m)) (builtin_protocol_features m)
                       (head_of_builtin_activation_list m) block_num;
  Ok (mk_pfm (pfm_set m) (rev (pop_back_while block_num (rev (activated_protocol_features m))))
        entries head (initialized m)).

(** [init( db )] on the features the database holds.  When one of them cannot be
    activated the earlier ones stay, and the manager is uninitialized again. *)
Fixpoint init_loop (m : protocol_feature_manager) (fs : list (digest * Z))
  : protocol_feature_manager * res unit :=
  match fs with
  | [] => (m, Ok tt)
  | (d, n) :: fs =>
      match activate_feature m d n with
      | Ok m => init_loop m fs
      | Throw e => (set_initialized m false, Throw e)
      end
  end.

Definition init (m : protocol_feature_manager) (fs : list (digest * Z))
  : protocol_feature_manager * res unit :=
  if initialized m then (m, Throw protocol_feature_exception)
  else init_loop (set_initialized m true) fs.

(** ** Sets of activated features in block headers *)

(** [protocol_feature_activation::reflector_init], run on an unpacked extension *)
Definition protocol_feature_activation_init (protocol_features : list digest) : res unit :=
  _ ← sys_assert (negb (bool_decide (protocol_features = []))) ill_formed_protocol_feature_activation;
  _ ← foldM (fun s d =>
        _ ← sys_assert (negb (bool_decide (d ∈ s))) ill_formed_protocol_feature_activation;
        Ok (d :: s)) [] protocol_features;
  Ok tt.

(** The constructor of [protocol_feature_activation_set] *)
Definition protocol_feature_activation_set (orig : gset digest) (additional : list digest)
    (enforce_disjoint : bool) : res (gset digest) :=
  let protocol_features := orig ∪ list_to_set additional in
  _ ← sys_assert (negb enforce_disjoint
                  || bool_decide (size protocol_features = (size orig + length additional)%nat))
        invalid_block_header_extension;
  Ok protocol_features.

(** ** The controller's checks ([controller.cpp]) *)

Definition recognized_or_throw (pfs : protocol_feature_set) (d : digest) (now : Z) (e : exn) : res unit :=
  match is_recognized pfs d now with
  | ready => Ok tt
  | _ => Throw e
  end.

(** The loop of [check_protocol_features]; [before] are the features of the list
    already passed. *)
Fixpoint check_features_loop (pfs : protocol_feature_set) (timestamp : Z) (current : gset digest)
    (before features : list digest) : res unit :=
  match features with
  | [] => Ok tt
  | f :: features =>
      _ ← recognized_or_throw pfs f (to_time_point timestamp) protocol_feature_exception;
      _ ← sys_assert (negb (bool_decide (f ∈ current))) protocol_feature_exception;
      _ ← sys_assert (validate_dependencies pfs f
                        (fun d => bool_decide (d ∈ current) || bool_decide (d ∈ before)))
            protocol_feature_exception;
      check_features_loop pfs timestamp current (before ++ [f]) features
  end.

Definition check_protocol_features (pfs : protocol_feature_set) (timestamp : Z)
    (currently_activated : gset digest) (new_features : list digest) : res unit :=
  check_features_loop pfs timestamp currently_activated [] new_features.

Section controller.
(** What activation handlers change: intrinsics, key types and the like. *)
Context {W : Type}.

(** [protocol_state_object] *)
Record protocol_state_object := mk_pso {
  pso_activated : list (digest * Z);
  pso_preactivated : list digest;
  pso_rest : W }.

(** [controller::preactivate_feature]; [activated] is [is_protocol_feature_activated]. *)
Definition preactivate_feature (pfs : protocol_feature_set) (pending_block_time : Z)
    (is_speculative_block : bool) (activated : digest -> bool) (pso : protocol_state_object) (d : digest)
  : res protocol_state_object :=
  _ ← recognized_or_throw pfs d pending_block_time
        (if is_speculative_block then subjective_block_production_exception
         else protocol_feature_bad_block_exception);
  _ ← sys_assert (negb (activated d)) protocol_feature_exception;
  _ ← sys_assert (negb (bool_decide (d ∈ pso_preactivated pso))) protocol_feature_exception;
  _ ← sys_assert (validate_dependencies pfs d
                    (fun x => activated x || bool_decide (x ∈ pso_preactivated pso)))
        protocol_feature_exception;
  Ok (mk_pso (pso_activated pso) (pso_preactivated pso ++ [d]) (pso_rest pso)).

(** [trigger_activation_handler] *)
Context (trigger_activation_handler : builtin_protocol_feature_t -> W -> res W).

(** State of the activation loop of [start_block]: the map from features to whether
    they were activated in this block, and the number of preactivated ones that were. *)
Record activation := mk_activation {
  a_manager : protocol_feature_manager;
  a_rest : W;
  a_seen : gmap digest bool;
  a_count : nat }.

(** One round of the loop. *)
Definition activate_one (block_num : Z) (a : activation) (d : digest)
  : protocol_feature_manager * res activation :=
  let m := a_manager a in
  match
    f ← get_protocol_feature (pfm_set m) d;
    '(seen, count) ←
      match a_seen a !! d with
      | None =>
          _ ← sys_assert (negb (preactivation_required (pf_restrictions f))) protocol_feature_exception;
          Ok (<[d := true]> (a_seen a), a_count a)
      | Some b =>
          _ ← sys_assert (negb b) block_validate_exception;
          Ok (<[d := true]> (a_seen a), S (a_count a))
      end;
    rest ← match builtin_feature f with
           | Some b => trigger_activation_handler b (a_rest a)
           | None => Ok (a_rest a)
           end;
    m' ← activate_feature m d block_num;
    Ok (mk_activation m' rest seen count)
  with
  | Ok a' => (a_manager a', Ok a')
  | Throw e => (m, Throw e)
  end.

(** The loop keeps the manager's changes when a later round throws. *)
Fixpoint activate_all (block_num : Z) (a : activation) (ds : list digest)
  : protocol_feature_manager * res activation :=
  match ds with
  | [] => (a_manager a, Ok a)
  | d :: ds =>
      match activate_one block_num a d with
      | (_, Ok a') => activate_all block_num a' ds
      | (m, Throw e) => (m, Throw e)
      end
  end.

(** The activation part of [start_block], of a block that is not ephemeral, with
    the scope guard that takes the manager back when anything throws; [rest_of_block]
    is what follows. *)
Definition start_block_features (head_block_num : Z) (m : protocol_feature_manager)
    (pso : protocol_state_object) (features : list digest)
    (rest_of_block : protocol_state_object -> res unit)
  : res protocol_feature_manager * res protocol_state_object :=
  let block_num := u32 (head_block_num + 1) in
  let seen := list_to_map ((fun d => (d, false)) <$> pso_preactivated pso) in
  let '(m', r) := activate_all block_num (mk_activation m (pso_rest pso) seen 0) features in
  let handled a := bool_decide (length (pso_preactivated pso) = 0%nat)
    || (negb (bool_decide (features = []))
        && bool_decide (a_count a = length (pso_preactivated pso))) in
  match
    a ← r;
    _ ← sys_assert (handled a) block_validate_exception;
    let pso' := if bool_decide (features = []) then pso
                else mk_pso (pso_activated pso ++ ((fun d => (d, block_num)) <$> features)) [] (a_rest a) in
    _ ← rest_of_block pso';
    Ok pso'
  with
  | Ok pso' => (Ok m', Ok pso')
  | Throw e => (popped_blocks_to m' head_block_num, Throw e)
  end.
End controller.
Arguments mk_pso {W} _ _ _.
Arguments mk_activation {W} _ _ _ _.
