(* ===== verification/ProtocolFeatureProps.v ===== *)
(** * Properties of the protocol feature bookkeeping

    The recognised set is closed under dependencies and has no cycles; the
    manager's linked list of builtin entries mirrors its list of activations and
    undoing blocks restores it exactly; checked activations keep the dependencies
    of activated features activated. *)

From S2P Require Import Prelude Exceptions Types BlockTimestamp ProtocolFeatures.
Import builtin.

(** ** The recognised set *)

Record pfs_wf (pfs : protocol_feature_set) : Prop := {
  pw_digest : forall d f, recognized pfs !! d = Some f -> feature_digest f = d;
  pw_slot : forall d f, recognized pfs !! d = Some f ->
    exists b spec, builtin_feature f = Some b /\ builtin_protocol_feature_codenames b = Some spec /\
      recognized_builtin pfs !! Z.to_nat (value b) = Some (Some d) /\
      forall c, c ∈ builtin_dependencies spec ->
        exists x g, x ∈ dependencies f /\ recognized pfs !! x = Some g /\ builtin_feature g = Some c;
  pw_back : forall i d, recognized_builtin pfs !! i = Some (Some d) ->
    exists f b, recognized pfs !! d = Some f /\ builtin_feature f = Some b /\ i = Z.to_nat (value b);
  pw_deps : forall d f x, recognized pfs !! d = Some f -> x ∈ dependencies f -> is_Some (recognized pfs !! x);
  pw_acyclic : exists rank : digest -> nat, forall d f x,
    recognized pfs !! d = Some f -> x ∈ dependencies f -> (rank x < rank d)%nat }.

Lemma empty_pfs_wf : pfs_wf empty_pfs.
Proof.
  split; cbn; try (intros *; rewrite lookup_empty; done).
  exists (fun _ => O). intros *. by rewrite lookup_empty.
Qed.

Lemma elem_of_set_insert {A} `{EqDecision A} (x y : A) l : y ∈ set_insert x l <-> y = x \/ y ∈ l.
Proof. unfold set_insert. case_bool_decide; [naive_solver|]. by rewrite elem_of_cons. Qed.

Lemma NoDup_set_insert {A} `{EqDecision A} (x : A) l : NoDup l -> NoDup (set_insert x l).
Proof. unfold set_insert. case_bool_decide; [done|]. by constructor. Qed.

(** What the dependency loop collects. *)
Lemma collect_dependencies_spec pfs expected deps sat :
  collect_dependencies pfs expected deps = Ok sat ->
  NoDup sat /\ (forall x, x ∈ deps -> is_Some (recognized pfs !! x)) /\
  forall b, b ∈ sat -> b ∈ expected /\
    exists x g, x ∈ deps /\ recognized pfs !! x = Some g /\ builtin_feature g = Some b.
Proof.
  unfold collect_dependencies. intros H. split_and!.
  - revert H. apply (foldM_invariant (fun l => NoDup l)); [|apply NoDup_nil_2].
    intros s x s' _ Hs (f & _ & [= <-])%bind_Ok.
    destruct (builtin_feature f) as [b|]; [case_bool_decide|]; auto using NoDup_set_insert.
  - intros x Hx. destruct (foldM_each_Ok _ _ _ _ x H Hx) as (s1 & s2 & (f & Hf%of_option_Ok & _)%bind_Ok). eauto.
  - revert H. apply (foldM_invariant (fun l => forall b, b ∈ l -> b ∈ expected /\
      exists x g, x ∈ deps /\ recognized pfs !! x = Some g /\ builtin_feature g = Some b));
      [|by intros b ?%elem_of_nil].
    intros s x s' Hx Hs (f & Hf%of_option_Ok & [= <-])%bind_Ok b.
    destruct (builtin_feature f) as [c|] eqn:Ec; [case_bool_decide|]; [|auto..].
    rewrite elem_of_set_insert. intros [->|]; eauto 10.
Qed.

Section add_feature.
Context (feature_hash : builtin_protocol_feature -> digest).

Lemma add_feature_Ok pfs f pfs' pf :
  add_feature feature_hash pfs f = Ok (pfs', pf) ->
  let indx := Z.to_nat (value (f_codename f)) in
  let d := feature_hash f in
  exists spec, builtin_protocol_feature_codenames (f_codename f) = Some spec /\
    (forall d', recognized_builtin pfs !! indx <> Some (Some d')) /\
    (forall x, x ∈ f_dependencies f -> is_Some (recognized pfs !! x)) /\
    (forall c, c ∈ builtin_dependencies spec -> exists x g,
       x ∈ f_dependencies f /\ recognized pfs !! x = Some g /\ builtin_feature g = Some c) /\
    recognized pfs !! d = None /\
    pf = mk_protocol_feature d (f_description_digest f) (f_dependencies f) (f_restrictions f) (Some (f_codename f)) /\
    pfs' = mk_pfs (<[d := pf]> (recognized pfs))
      (<[indx := Some d]> (recognized_builtin pfs ++
         replicate (S indx - length (recognized_builtin pfs)) None)).
Proof.
  unfold add_feature. intros (spec & Hspec%of_option_Ok & H)%bind_Ok.
  apply bind_Ok in H as ([] & Hslot & H). apply bind_Ok in H as (sat & Hsat & H).
  apply bind_Ok in H as ([] & Hlen & H). apply bind_Ok in H as ([] & Hnew%sys_assert_Ok & [= <- <-]).
  apply collect_dependencies_spec in Hsat as (Hnd & Hdeps & Hsat). case_bool_decide; [|done].
  exists spec. split_and!; try done.
  - intros d' E. by rewrite E in Hslot.
  - destruct (length sat <? length (builtin_dependencies spec))%nat eqn:E; [by inv_res|].
    apply Nat.ltb_ge in E. intros c Hc. apply Hsat.
    assert (sat ⊆+ builtin_dependencies spec) as Hsub.
    { apply NoDup_submseteq; [done|]. intros b Hb. by apply Hsat. }
    apply submseteq_length_Permutation in Hsub; [|done]. by rewrite Hsub.
Qed.

Lemma slots_lookup (l : list (option digest)) i d j :
  <[i := Some d]> (l ++ replicate (S i - length l) None) !! j =
  if decide (i = j) then Some (Some d) else (l ++ replicate (S i - length l) None) !! j.
Proof.
  case_decide as E; [subst j|by apply list_lookup_insert_ne].
  apply list_lookup_insert_eq. rewrite length_app, length_replicate. lia.
Qed.

Lemma slots_kept (l : list (option digest)) n j d :
  (l ++ replicate n None) !! j = Some (Some d) <-> l !! j = Some (Some d).
Proof.
  rewrite lookup_app. destruct (l !! j) eqn:E; [done|].
  split; [|done]. intros [? _]%lookup_replicate. done.
Qed.

Lemma add_feature_rank f (rank : digest -> nat) :
  exists n, forall x, x ∈ f_dependencies f -> (rank x < n)%nat.
Proof.
  exists (S (foldr max 0%nat (rank <$> f_dependencies f))). intros x Hx.
  induction (f_dependencies f) as [|y l IH]; [by apply elem_of_nil in Hx|].
  apply elem_of_cons in Hx as [->|Hx]; cbn; [lia|]. specialize (IH Hx). lia.
Qed.

Lemma add_feature_wf pfs f pfs' pf :
  pfs_wf pfs -> add_feature feature_hash pfs f = Ok (pfs', pf) -> pfs_wf pfs'.
Proof.
  intros W (spec & Hspec & Hslot & Hdeps & Hexp & Hnew & -> & ->)%add_feature_Ok.
  set (d := feature_hash f) in *. set (pf := mk_protocol_feature _ _ _ _ _) in *.
  assert (forall x, is_Some (recognized pfs !! x) -> d <> x) as Hne.
  { intros x [g Hg] <-. congruence. }
  assert (forall x, is_Some (recognized pfs !! x) -> is_Some (<[d := pf]> (recognized pfs) !! x)) as Hup.
  { intros x Hx. by rewrite lookup_insert_ne by auto. }
  assert (forall x g, recognized pfs !! x = Some g -> <[d := pf]> (recognized pfs) !! x = Some g) as Hkeep.
  { intros x g Hg. by rewrite lookup_insert_ne by eauto. }
  split; cbn.
  - intros x g [[<- <-]|[_ H]]%lookup_insert_Some; [done|]. by eapply pw_digest.
  - intros x g [[<- <-]|[_ H]]%lookup_insert_Some.
    + exists (f_codename f), spec. split_and!; try done; [by rewrite slots_lookup, decide_True|].
      intros c Hc. destruct (Hexp c Hc) as (x & g & ? & ? & ?). eauto 10.
    + destruct (pw_slot _ W _ _ H) as (b & sp & Hb & Hsp & Hsl & Hd). exists b, sp. split_and!; try done.
      * rewrite slots_lookup. case_decide as E; [|by apply slots_kept]. rewrite E in Hslot. naive_solver.
      * intros c Hc. destruct (Hd c Hc) as (y & h & ? & ? & ?). eauto 10.
  - intros i x. rewrite slots_lookup. case_decide as E.
    + intros [= <-]. exists pf, (f_codename f). by rewrite lookup_insert_eq.
    + intros H%slots_kept. destruct (pw_back _ W _ _ H) as (g & b & ? & ? & ?). eauto 10.
  - intros x g y [[<- <-]|[_ H]]%lookup_insert_Some Hy; [by apply Hup, Hdeps|]. apply Hup. by eapply pw_deps.
  - destruct (pw_acyclic _ W) as [rank Hr]. destruct (add_feature_rank f rank) as [n Hn].
    exists (fun x => if decide (d = x) then n else rank x). intros x g y Hx Hy.
    assert (d <> y) as Hdy.
    { apply lookup_insert_Some in Hx as [[<- <-]|[_ Hx]]; apply Hne; [by apply Hdeps|by eapply pw_deps]. }
    rewrite (decide_False (P := d = y)) by done.
    apply lookup_insert_Some in Hx as [[<- <-]|[? Hx]]; [rewrite decide_True by done; by apply Hn|].
    rewrite decide_False by done. by eapply Hr.
Qed.

(** A set of features built by [add_feature] is closed under dependencies, has
    each builtin feature's own dependencies among them, gives every feature the
    slot of its codename, and its dependency graph has no cycle. *)
Theorem recognized_features_wf fs pfs :
  foldM (fun s f => fst <$> add_feature feature_hash s f) empty_pfs fs = Ok pfs -> pfs_wf pfs.
Proof.
  apply foldM_invariant; [|apply empty_pfs_wf].
  intros s f s' _ W H. destruct (add_feature feature_hash s f) as [[s1 pf]|e] eqn:E; [|done].
  injection H as <-. by eapply add_feature_wf.
Qed.
End add_feature.

(** ** The manager *)

Lemma value_bounds b : 0 <= value b <= 500000.
Proof. destruct b; cbn; lia. Qed.

(** The slot of a feature. *)
Definition index_of (pfs : protocol_feature_set) (d : digest) : option nat :=
  f ← recognized pfs !! d; b ← builtin_feature f; Some (Z.to_nat (value b)).

(** The entries reached from [head] through [previous] are [l], the latest
    activation first. *)
Fixpoint linked (entries : list builtin_entry) (head : Z) (l : list (nat * Z)) : Prop :=
  match l with
  | [] => head = no_previous
  | (i, n) :: l => head = Z.of_nat i /\
      exists prev, entries !! i = Some (mk_entry prev n) /\ linked entries prev l
  end.

(** The activations, latest first, with slots for digests. *)
Definition mirrors (pfs : protocol_feature_set) (acts : list (digest * Z)) (l : list (nat * Z)) : Prop :=
  Forall2 (fun a e => index_of pfs a.1 = Some e.1 /\ a.2 = e.2) acts l.

Record pfm_wf (m : protocol_feature_manager) : Prop := {
  mw_len : length (builtin_protocol_features m) = length (recognized_builtin (pfm_set m));
  mw_active : Forall (fun a => 0 <= a.2 < not_active) (activated_protocol_features m);
  mw_sorted : StronglySorted (fun a b => b.2 <= a.2) (rev (activated_protocol_features m));
  mw_list : exists l, mirrors (pfm_set m) (rev (activated_protocol_features m)) l /\
    linked (builtin_protocol_features m) (head_of_builtin_activation_list m) l /\
    NoDup l.*1 /\
    forall j e, builtin_protocol_features m !! j = Some e -> j ∉ l.*1 -> e = inactive_entry }.

Lemma new_manager_wf pfs : pfm_wf (new_manager pfs).
Proof.
  split; cbn.
  - apply length_replicate.
  - constructor.
  - constructor.
  - exists []. split_and!; [constructor|done|constructor|]. intros j e [-> _]%lookup_replicate _. done.
Qed.

Lemma linked_insert entries head l i e :
  i ∉ l.*1 -> linked entries head l -> linked (<[i := e]> entries) head l.
Proof.
  revert head; induction l as [|[j n] l IH]; intros head Hi; cbn; [done|].
  rewrite fmap_cons, elem_of_cons in Hi. cbn in Hi.
  intros (-> & prev & Hj & Hl). split; [done|]. exists prev.
  rewrite list_lookup_insert_ne by naive_solver. split; [done|]. apply IH; naive_solver.
Qed.

Lemma linked_lookup entries head l i n :
  linked entries head l -> (i, n) ∈ l -> exists prev, entries !! i = Some (mk_entry prev n).
Proof.
  revert head; induction l as [|[j k] l IH]; intros head; [by intros _ ?%elem_of_nil|].
  cbn. intros (_ & prev & Hj & Hl) [[= -> ->]|Hin]%elem_of_cons; eauto.
Qed.

Lemma mirrors_active pfs acts l i n :
  mirrors pfs acts l -> (i, n) ∈ l -> exists d, (d, n) ∈ acts /\ index_of pfs d = Some i.
Proof.
  intros H. induction H as [|[d k] [j k'] acts l [Hi E] _ IH]; [by intros ?%elem_of_nil|].
  cbn in *. subst k'. intros [[= -> ->]|Hin]%elem_of_cons.
  - exists d. split; [by left|done].
  - destruct (IH Hin) as (d' & ? & ?). exists d'. split; [by right|done].
Qed.

Lemma mirrors_in pfs acts l d n :
  mirrors pfs acts l -> (d, n) ∈ acts -> exists i, (i, n) ∈ l /\ index_of pfs d = Some i.
Proof.
  intros H. induction H as [|[d' k] [j k'] acts l [Hi E] _ IH]; [by intros ?%elem_of_nil|].
  cbn in *. subst k'. intros [[= -> ->]|Hin]%elem_of_cons.
  - exists j. split; [by left|done].
  - destruct (IH Hin) as (i & ? & ?). exists i. split; [by right|done].
Qed.

Lemma mirrors_fun pfs acts l l' : mirrors pfs acts l -> mirrors pfs acts l' -> l = l'.
Proof.
  intros H. revert l'. induction H as [|a [i n] acts l [Hi E] _ IH]; intros l' H'.
  - by apply Forall2_nil_inv_l in H'.
  - apply Forall2_cons_inv_l in H' as ([j k] & l2 & [Hj Ek] & H' & ->). cbn in *.
    f_equal; [congruence|by apply IH].
Qed.

(** The list determines the entries it visits. *)
Lemma linked_fun e1 h1 e2 h2 l :
  linked e1 h1 l -> linked e2 h2 l -> h1 = h2 /\ forall i, i ∈ l.*1 -> e1 !! i = e2 !! i.
Proof.
  revert h1 h2; induction l as [|[j n] l IH]; intros h1 h2; cbn.
  - intros -> ->. split; [done|]. by intros i ?%elem_of_nil.
  - intros (-> & p1 & Hj1 & H1) (-> & p2 & Hj2 & H2). destruct (IH _ _ H1 H2) as [-> Hl].
    split; [done|]. intros i [->|Hi]%elem_of_cons; [congruence|auto].
Qed.

(** Two managers with the same set and the same activations are equal. *)
Lemma pfm_canonical m m' :
  pfm_wf m -> pfm_wf m' -> pfm_set m = pfm_set m' ->
  activated_protocol_features m = activated_protocol_features m' -> initialized m = initialized m' -> m = m'.
Proof.
  destruct m as [s a e h i], m' as [s' a' e' h' i']. cbn.
  intros [L1 _ _ (l & M1 & K1 & _ & U1)] [L2 _ _ (l' & M2 & K2 & _ & U2)] <- <- <-. cbn in *.
  rewrite <- (mirrors_fun _ _ _ _ M1 M2) in *. destruct (linked_fun _ _ _ _ _ K1 K2) as [-> Hl].
  f_equal. apply list_eq. intros j. destruct (decide (j ∈ l.*1)) as [|Hj]; [auto|].
  destruct (e !! j) as [x|] eqn:E1, (e' !! j) as [y|] eqn:E2; [|exfalso..|done].
  - by rewrite (U1 _ _ E1 Hj), (U2 _ _ E2 Hj).
  - apply lookup_lt_Some in E1. apply lookup_ge_None in E2. lia.
  - apply lookup_lt_Some in E2. apply lookup_ge_None in E1. lia.
Qed.

Lemma activate_feature_Ok m d n m' :
  activate_feature m d n = Ok m' ->
  exists i e, initialized m = true /\ index_of (pfm_set m) d = Some i /\ Z.of_nat i <= 500000 /\
    builtin_protocol_features m !! i = Some e /\ activation_block_num e = not_active /\
    (forall l, last (activated_protocol_features m) = Some l -> l.2 <= n) /\
    m' = mk_pfm (pfm_set m) (activated_protocol_features m ++ [(d, n)])
           (<[i := mk_entry (head_of_builtin_activation_list m) n]> (builtin_protocol_features m))
           (Z.of_nat i) true.
Proof.
  unfold activate_feature. intros ([] & Hi%sys_assert_Ok & H)%bind_Ok.
  apply bind_Ok in H as (f & Hf%of_option_Ok & H). apply bind_Ok in H as ([] & Hlast & H).
  apply bind_Ok in H as (b & Hb%of_option_Ok & H). apply bind_Ok in H as (e & He%of_option_Ok & H).
  apply bind_Ok in H as ([] & Hna%sys_assert_Ok & [= <-]). bool_to_Z.
  pose proof (value_bounds b). exists (Z.to_nat (value b)), e. split_and!; try done.
  - unfold index_of. rewrite Hf. cbn. by rewrite Hb.
  - lia.
  - intros l E. rewrite E in Hlast. apply sys_assert_Ok in Hlast. by bool_to_Z.
  - rewrite Z2Nat.id by lia. by rewrite Hi.
Qed.

Lemma sorted_cons_rev n d (acts : list (digest * Z)) :
  (forall l, last acts = Some l -> l.2 <= n) ->
  StronglySorted (fun a b : digest * Z => b.2 <= a.2) (rev acts) ->
  StronglySorted (fun a b : digest * Z => b.2 <= a.2) ((d, n) :: rev acts).
Proof.
  intros Hl Hs. constructor; [done|]. destruct acts as [|a acts _] using rev_ind; [constructor|].
  rewrite last_snoc in Hl. rewrite rev_unit in *. inversion Hs as [|? ? Hs' Hf]; subst.
  specialize (Hl a eq_refl). constructor; [done|]. eapply Forall_impl; [exact Hf|]. cbn. intros. lia.
Qed.

Lemma activate_feature_wf m d n m' :
  pfm_wf m -> 0 <= n < not_active -> activate_feature m d n = Ok m' -> pfm_wf m'.
Proof.
  intros [L A S (l & M & K & Hnd & U)] Hn (i & e & Hinit & Hidx & _ & He & Hna & Hlast & ->)%activate_feature_Ok.
  assert (i ∉ l.*1) as Hi.
  { intros ([j k] & -> & Hin)%list_elem_of_fmap. cbn in *.
    destruct (linked_lookup _ _ _ _ _ K Hin) as [prev E].
    destruct (mirrors_active _ _ _ _ _ M Hin) as (d' & Hd & _).
    rewrite Forall_forall in A. assert ((d', k) ∈ activated_protocol_features m) as Hd'.
    { rewrite list_elem_of_In. apply in_rev. by rewrite <- list_elem_of_In. }
    specialize (A _ Hd'). cbn in A. rewrite E in He. injection He as <-. cbn in Hna. lia. }
  split; cbn.
  - by rewrite length_insert.
  - rewrite Forall_app, Forall_singleton. done.
  - rewrite rev_unit. by apply sorted_cons_rev.
  - exists ((i, n) :: l). rewrite rev_unit. split_and!.
    + constructor; [done|exact M].
    + cbn. split; [done|]. exists (head_of_builtin_activation_list m).
      rewrite list_lookup_insert_eq by (by eapply lookup_lt_Some). split; [done|]. by apply linked_insert.
    + rewrite fmap_cons. by constructor.
    + intros j x Hj Hni. rewrite fmap_cons, elem_of_cons in Hni. cbn in Hni.
      rewrite list_lookup_insert_ne in Hj by naive_solver. apply (U j); naive_solver.
Qed.

(** ** Undoing blocks *)

Lemma mirrors_pop pfs acts l n :
  mirrors pfs acts l -> mirrors pfs (pop_back_while n acts) (pop_back_while n l).
Proof.
  intros H. induction H as [|a e acts l [Hi E] H IH]; [constructor|]. cbn.
  rewrite E. destruct (n <? e.2); [done|]. by constructor.
Qed.

Lemma pop_suffix {A} n (l : list (A * Z)) : exists k, l = k ++ pop_back_while n l.
Proof.
  induction l as [|e l [k IH]]; [by exists []|]. cbn. destruct (n <? e.2); [|by exists []].
  exists (e :: k). cbn. by rewrite <- IH.
Qed.

Lemma pop_sorted n (l : list (digest * Z)) :
  StronglySorted (fun a b : digest * Z => b.2 <= a.2) l ->
  pop_back_while n l = List.filter (fun a => a.2 <=? n) l.
Proof.
  induction 1 as [|a l Hs IH Hf]; [done|]. cbn. destruct (n <? a.2) eqn:E; bool_to_Z.
  - destruct (a.2 <=? n) eqn:E2; bool_to_Z; [lia|]. done.
  - destruct (a.2 <=? n) eqn:E2; bool_to_Z; [|lia]. f_equal.
    clear IH Hs. induction Hf as [|b l Hb Hf IH]; [done|]. cbn.
    destruct (b.2 <=? n) eqn:E3; bool_to_Z; [by f_equal|lia].
Qed.

Lemma unlink_spec fuel entries head l n :
  (length l <= fuel)%nat -> Forall (fun e => Z.of_nat e.1 <= 500000) l -> NoDup l.*1 ->
  linked entries head l ->
  (forall j e, entries !! j = Some e -> j ∉ l.*1 -> e = inactive_entry) ->
  let l' := pop_back_while n l in
  exists entries' head', unlink fuel entries head n = Ok (entries', head') /\
    length entries' = length entries /\ linked entries' head' l' /\
    (forall j e, entries' !! j = Some e -> j ∉ l'.*1 -> e = inactive_entry).
Proof.
  revert fuel entries head; induction l as [|[i k] l IH]; intros fuel entries head Hf Hb Hnd; cbn.
  { intros -> U. destruct fuel; exists entries, no_previous; cbn; eauto. }
  intros (-> & prev & Hi & Hl) U. cbn in Hf. destruct fuel as [|fuel]; [lia|]. cbn [unlink].
  apply Forall_cons in Hb as [Hi' Hb]. apply NoDup_cons in Hnd as [Hni Hnd]. cbn in Hi'.
  destruct (Z.of_nat i =? no_previous) eqn:E; bool_to_Z; [unfold no_previous, u64_max in E; lia|].
  rewrite Nat2Z.id, Hi. cbn. destruct (n <? k) eqn:E2, (k <=? n) eqn:E3; bool_to_Z; try lia.
  - destruct (IH fuel (<[i := inactive_entry]> entries) prev) as (e' & h' & HE & Hlen & HL & HU).
    + lia.
    + done.
    + done.
    + by apply linked_insert.
    + intros j e Hj Hnj. destruct (decide (i = j)) as [->|].
      * rewrite list_lookup_insert_eq in Hj by (by eapply lookup_lt_Some). congruence.
      * rewrite list_lookup_insert_ne in Hj by done. apply (U j); [done|]. rewrite elem_of_cons. naive_solver.
    + exists e', h'. rewrite length_insert in Hlen. eauto.
  - exists entries, (Z.of_nat i). split_and!; eauto. cbn. eauto.
Qed.

Lemma linked_length entries head l :
  linked entries head l -> NoDup l.*1 -> (length l <= length entries)%nat.
Proof.
  intros K Hnd. rewrite <- (length_fmap fst l), <- (length_seq (length entries) 0).
  apply submseteq_length, NoDup_submseteq; [done|]. intros i ([j k] & -> & Hin)%list_elem_of_fmap.
  destruct (linked_lookup _ _ _ _ _ K Hin) as [prev E%lookup_lt_Some]. apply elem_of_seq. cbn. lia.
Qed.

Lemma index_of_bound pfs d i : index_of pfs d = Some i -> Z.of_nat i <= 500000.
Proof.
  unfold index_of. intros (f & _ & (b & _ & [= <-])%bind_Some)%bind_Some.
  pose proof (value_bounds b). lia.
Qed.

Lemma mirrors_bound pfs acts l : mirrors pfs acts l -> Forall (fun e => Z.of_nat e.1 <= 500000) l.
Proof. induction 1 as [|a e acts l [H _] _ IH]; constructor; eauto using index_of_bound. Qed.

Lemma filter_rev_Z n (l : list (digest * Z)) :
  rev (List.filter (fun a => a.2 <=? n) (rev l)) = List.filter (fun a => a.2 <=? n) l.
Proof. by rewrite <- filter_rev, rev_involutive. Qed.

Lemma popped_blocks_to_aux m n :
  pfm_wf m -> initialized m = true ->
  exists m', popped_blocks_to m n = Ok m' /\ pfm_wf m' /\ pfm_set m' = pfm_set m /\
    initialized m' = true /\
    activated_protocol_features m' = List.filter (fun a => a.2 <=? n) (activated_protocol_features m).
Proof.
  intros [L A S (l & M & K & Hnd & U)] Hinit.
  destruct (unlink_spec (length (builtin_protocol_features m)) _ _ l n
    (linked_length _ _ _ K Hnd) (mirrors_bound _ _ _ M) Hnd K U) as (e' & h' & E & Hlen & K' & U').
  unfold popped_blocks_to. rewrite bind_assert, E by done. cbn [mbind result_bind].
  eexists. split; [done|]. cbn. rewrite pop_sorted by done. split_and!; [|done|done|by apply filter_rev_Z].
  split; cbn.
  - congruence.
  - rewrite filter_rev_Z. apply Forall_forall. intros a [Ha _]%elem_of_List_filter.
    rewrite Forall_forall in A. auto.
  - rewrite rev_involutive. clear -S. induction S as [|a r S IH Hf]; cbn; [constructor|].
    destruct (a.2 <=? n); [|done]. constructor; [done|]. rewrite Forall_forall in *.
    intros b [Hb _]%elem_of_List_filter. auto.
  - exists (pop_back_while n l). rewrite rev_involutive. split_and!; try done.
    + rewrite <- pop_sorted by done. by apply mirrors_pop.
    + destruct (pop_suffix n l) as [k Hk]. rewrite Hk, fmap_app in Hnd. by apply NoDup_app in Hnd as (_ & _ & ?).
Qed.

(** States of a manager: the constructor, [init] on whatever the database holds,
    activations and undone blocks. *)
Inductive pfm_reachable (pfs : protocol_feature_set) : protocol_feature_manager -> Prop :=
| reach_new : pfm_reachable pfs (new_manager pfs)
| reach_init m fs : pfm_reachable pfs m -> Forall (fun a => 0 <= a.2 < not_active) fs ->
    pfm_reachable pfs (fst (init m fs))
| reach_activate m d n m' : pfm_reachable pfs m -> 0 <= n < not_active ->
    activate_feature m d n = Ok m' -> pfm_reachable pfs m'
| reach_popped m n m' : pfm_reachable pfs m -> popped_blocks_to m n = Ok m' -> pfm_reachable pfs m'.

Lemma set_initialized_wf m b : pfm_wf m -> pfm_wf (set_initialized m b).
Proof. by intros []. Qed.

Lemma init_loop_wf m fs :
  pfm_wf m -> Forall (fun a => 0 <= a.2 < not_active) fs -> pfm_wf (fst (init_loop m fs)).
Proof.
  intros W H. revert m W; induction H as [|[d n] fs Hn _ IH]; intros m W; [done|]. cbn [init_loop].
  destruct (activate_feature m d n) as [m'|e] eqn:E; [|by apply set_initialized_wf].
  apply IH. by eapply activate_feature_wf.
Qed.

Lemma pfm_reachable_wf_aux pfs m : pfm_reachable pfs m -> pfm_wf m /\ pfm_set m = pfs.
Proof.
  induction 1 as [|m fs _ [W E] Hfs|m d n m' _ [W E] Hn H|m n m' _ [W E] H].
  - split; [apply new_manager_wf|done].
  - unfold init. destruct (initialized m); [done|]. split; [by apply init_loop_wf, Hfs; apply set_initialized_wf|].
    rewrite <- E. change (pfm_set m) with (pfm_set (set_initialized m true)). generalize (set_initialized m true).
    clear. induction fs as [|[d n] fs IH]; intros m; [done|]. cbn [init_loop].
    destruct (activate_feature m d n) as [m'|e] eqn:H; [|done].
    rewrite IH. by apply activate_feature_Ok in H as (i & e & _ & _ & _ & _ & _ & _ & ->).
  - split; [by eapply activate_feature_wf|]. by apply activate_feature_Ok in H as (i & e & _ & _ & _ & _ & _ & _ & ->).
  - assert (initialized m = true) as Hi.
    { unfold popped_blocks_to in H. by apply bind_Ok in H as (_ & ?%sys_assert_Ok & _). }
    destruct (popped_blocks_to_aux m n W Hi) as (m1 & H1 & W1 & E1 & _). rewrite H1 in H. injection H as <-.
    split; [done|]. congruence.
Qed.

(** In every reachable state the array of builtin entries, linked from its
    head, lists exactly the recorded activations, latest first, in block order;
    all other entries are inactive. *)
Theorem pfm_reachable_wf pfs m : pfm_reachable pfs m -> pfm_wf m /\ pfm_set m = pfs.
Proof. apply pfm_reachable_wf_aux. Qed.

(** Undoing blocks always succeeds on an initialised manager and keeps exactly
    the activations of the remaining blocks. *)
Theorem popped_blocks_to_spec pfs m n :
  pfm_reachable pfs m -> initialized m = true ->
  exists m', popped_blocks_to m n = Ok m' /\ pfm_wf m' /\ pfm_set m' = pfm_set m /\
    initialized m' = true /\
    activated_protocol_features m' = List.filter (fun a => a.2 <=? n) (activated_protocol_features m).
Proof. intros [W _]%pfm_reachable_wf_aux. by apply popped_blocks_to_aux. Qed.

Lemma value_inj a b : value a = value b -> a = b.
Proof. destruct a, b; cbn; congruence. Qed.

Lemma index_of_feature pfs d c :
  index_of pfs d = Some (Z.to_nat (value c)) <->
  exists f, recognized pfs !! d = Some f /\ builtin_feature f = Some c.
Proof.
  unfold index_of. split.
  - intros (f & Hf & (b & Hb & [= E])%bind_Some)%bind_Some. exists f. split; [done|].
    rewrite Hb. f_equal. apply value_inj. pose proof (value_bounds b). pose proof (value_bounds c). lia.
  - intros (f & -> & Hb). cbn. by rewrite Hb.
Qed.

(** A builtin feature counts as activated at a block exactly when an activation
    of it is recorded at that block or an earlier one. *)
Theorem is_builtin_activated_spec pfs m c n :
  pfm_reachable pfs m -> n < not_active ->
  pfm_is_builtin_activated m c n = true <->
  exists d f k, (d, k) ∈ activated_protocol_features m /\ recognized pfs !! d = Some f /\
    builtin_feature f = Some c /\ k <= n.
Proof.
  intros [[L A S (l & M & K & Hnd & U)] <-]%pfm_reachable_wf_aux Hn. unfold pfm_is_builtin_activated.
  assert (forall x, x ∈ activated_protocol_features m <-> x ∈ rev (activated_protocol_features m)) as Hrev.
  { intros x. rewrite !list_elem_of_In. apply in_rev. }
  split.
  - destruct (builtin_protocol_features m !! Z.to_nat (value c)) as [e|] eqn:E; [|done]. intros He. bool_to_Z.
    destruct (decide (Z.to_nat (value c) ∈ l.*1)) as [([i k] & Ei & Hin)%list_elem_of_fmap|Hni].
    + cbn in Ei. subst i. destruct (linked_lookup _ _ _ _ _ K Hin) as [prev E']. rewrite E in E'.
      injection E' as ->. destruct (mirrors_active _ _ _ _ _ M Hin) as (d & Hd & (f & Hf & Hb)%index_of_feature).
      exists d, f, k. by rewrite Hrev.
    + rewrite (U _ _ E Hni) in He. cbn in He. lia.
  - intros (d & f & k & Hd%Hrev & Hf & Hb & Hk).
    destruct (mirrors_in _ _ _ _ _ M Hd) as (i & Hin & Hi).
    assert (index_of (pfm_set m) d = Some (Z.to_nat (value c))) as Hi' by (apply index_of_feature; eauto).
    rewrite Hi in Hi'. injection Hi' as ->. destruct (linked_lookup _ _ _ _ _ K Hin) as [prev ->].
    cbn. by apply Z.leb_le.
Qed.

(** ** Rebuilding the manager from the database *)

Lemma activate_feature_succeeds m d n i l :
  pfm_wf m -> initialized m = true -> index_of (pfm_set m) d = Some i ->
  mirrors (pfm_set m) (rev (activated_protocol_features m)) l -> i ∉ l.*1 ->
  (i < length (builtin_protocol_features m))%nat ->
  (forall a, last (activated_protocol_features m) = Some a -> a.2 <= n) ->
  exists m', activate_feature m d n = Ok m'.
Proof.
  intros [L A S (l' & M & K & Hnd & U)] Hinit Hidx M' Hni Hlt Hlast.
  rewrite (mirrors_fun _ _ _ _ M' M) in Hni. unfold activate_feature. rewrite bind_assert by done.
  apply bind_Some in Hidx as (f & -> & (b & Hb & [= <-])%bind_Some). cbn [of_option mbind result_bind].
  destruct (last (activated_protocol_features m)) as [a|] eqn:Ea;
    [rewrite bind_assert by (apply Z.leb_le; auto)|cbn [mbind result_bind]];
    rewrite Hb; cbn [of_option mbind result_bind];
    destruct (lookup_lt_is_Some_2 _ _ Hlt) as [e He]; rewrite He; cbn [of_option mbind result_bind];
    rewrite (U _ _ He Hni), bind_assert by done; eauto.
Qed.

Lemma last_sorted_snoc (acts fs : list (digest * Z)) d n a :
  StronglySorted (fun a b : digest * Z => b.2 <= a.2) (rev (acts ++ (d, n) :: fs)) ->
  last acts = Some a -> a.2 <= n.
Proof.
  intros HS Ha. apply last_Some in Ha as [l ->].
  rewrite rev_app_distr in HS. cbn [rev] in HS. rewrite rev_unit in HS.
  induction (rev fs) as [|x r IH]; cbn in HS; inversion HS as [|? ? HS' Hf]; subst; [|auto].
  by apply Forall_cons in Hf as [? _].
Qed.

Lemma init_loop_rebuild m fs m0 :
  pfm_wf m -> initialized m = true -> pfm_wf m0 -> initialized m0 = true -> pfm_set m0 = pfm_set m ->
  activated_protocol_features m = activated_protocol_features m0 ++ fs ->
  init_loop m0 fs = (m, Ok tt).
Proof.
  intros W Hi. revert m0; induction fs as [|[d n] fs IH]; intros m0 W0 Hi0 Hset Hact; cbn [init_loop].
  { f_equal. apply pfm_canonical; try congruence. by rewrite app_nil_r in Hact. }
  destruct (mw_list _ W) as (l & M & K & Hnd & U). rewrite Hact, rev_app_distr in M. cbn [rev] in M.
  rewrite <- app_assoc in M. apply Forall2_app_inv_l in M as (l1 & l2 & _ & M & ->). cbn [app] in M.
  apply Forall2_cons_inv_l in M as ([i k] & l3 & [Hidx Ek] & M & ->). cbn in Hidx, Ek. subst k.
  rewrite fmap_app, fmap_cons in Hnd. apply NoDup_app in Hnd as (_ & _ & [Hni _]%NoDup_cons).
  destruct (linked_lookup _ _ _ i n K) as [prev Hp]; [rewrite elem_of_app, elem_of_cons; auto|].
  destruct (activate_feature_succeeds m0 d n i l3) as [m1 E]; try done.
  - by rewrite Hset.
  - rewrite Hset. exact M.
  - rewrite (mw_len _ W0), Hset, <- (mw_len _ W). by eapply lookup_lt_Some.
  - intros a Ha. eapply last_sorted_snoc; [|exact Ha]. rewrite <- Hact. apply (mw_sorted _ W).
  - rewrite E. assert (0 <= n < not_active) as Hn.
    { pose proof (mw_active _ W) as A. rewrite Hact, Forall_app, Forall_cons in A. naive_solver. }
    pose proof (activate_feature_wf _ _ _ _ W0 Hn E) as W1.
    apply activate_feature_Ok in E as (i' & e & _ & _ & _ & _ & _ & _ & ->).
    apply IH; try done. cbn. by rewrite Hact, <- app_assoc.
Qed.

(** Initialising a fresh manager with the activations a running one recorded
    rebuilds that manager, entry by entry. *)
Theorem init_rebuilds pfs m :
  pfm_reachable pfs m -> initialized m = true ->
  init (new_manager pfs) (activated_protocol_features m) = (m, Ok tt).
Proof.
  intros [W E]%pfm_reachable_wf_aux Hi. apply (init_loop_rebuild m); try done.
  apply set_initialized_wf, new_manager_wf.
Qed.

(** ** Activations at the start of a block *)

Section start_block.
Context {W : Type} (trigger : builtin_protocol_feature_t -> W -> res W).

Lemma activate_one_inv bn (a : activation) d m r :
  activate_one trigger bn a d = (m, r) ->
  match r with
  | Throw _ => m = a_manager a
  | Ok a' => activate_feature (a_manager a) d bn = Ok m /\ a_manager a' = m /\
      a_seen a' = <[d := true]> (a_seen a) /\ a_seen a !! d <> Some true /\
      a_count a' = (if bool_decide (a_seen a !! d = None) then a_count a else S (a_count a)) /\
      exists f, recognized (pfm_set (a_manager a)) !! d = Some f /\
        (a_seen a !! d = None -> preactivation_required (pf_restrictions f) = false)
  end.
Proof.
  unfold activate_one. set (body := mbind _ _). destruct body as [a'|e] eqn:E; intros [= <- <-]; [|done].
  unfold body in E. apply bind_Ok in E as (f & Hf%of_option_Ok & E). apply bind_Ok in E as ([seen count] & Hs & E).
  apply bind_Ok in E as (rest & _ & E). apply bind_Ok in E as (m' & Hm & [= <-]). cbn.
  split_and!; [done|done|..|exists f; split; [done|]]; destruct (a_seen a !! d) as [[]|]; inv_res; try done.
  by apply negb_true_iff in H.
Qed.

(** The manager after the loop, however it ends: activations at this block were
    appended. *)
Lemma activate_all_inv bn (a : activation) ds m r :
  activate_all trigger bn a ds = (m, r) -> pfm_wf (a_manager a) -> 0 <= bn < not_active ->
  initialized (a_manager a) = true ->
  pfm_wf m /\ initialized m = true /\ pfm_set m = pfm_set (a_manager a) /\
  exists k, activated_protocol_features m = activated_protocol_features (a_manager a) ++ ((fun d => (d, bn)) <$> k) /\
    match r with Ok a' => k = ds /\ a_manager a' = m | Throw _ => True end.
Proof.
  revert a; induction ds as [|d ds IH]; intros a; cbn [activate_all].
  { intros [= <- <-] Wf Hb Hi. split_and!; try done. exists []. by rewrite app_nil_r. }
  destruct (activate_one trigger bn a d) as [m1 [a1|e]] eqn:E; apply activate_one_inv in E.
  - destruct E as (Hact & <- & _). intros H Wf Hb Hi.
    pose proof (activate_feature_wf _ _ _ _ Wf Hb Hact) as Wf1.
    apply activate_feature_Ok in Hact as (i & e & _ & _ & _ & _ & _ & _ & Em). rewrite Em in Wf1.
    destruct (IH a1 H) as (W2 & I2 & S2 & k & Hk & Hr); [by rewrite Em|done|by rewrite Em|].
    rewrite Em in S2, Hk. cbn in S2, Hk. split_and!; try done. exists (d :: k).
    rewrite Hk, fmap_cons, <- app_assoc. split; [done|]. destruct r; [|done]. by destruct Hr as [-> ->].
  - subst m1. intros [= <- <-] Wf Hb Hi. split_and!; try done. exists []. by rewrite app_nil_r.
Qed.

(** Preactivated features that were activated so far. *)
Definition done_of (pre : list digest) (seen : gmap digest bool) : list digest :=
  List.filter (fun d => bool_decide (seen !! d = Some true)) pre.

Lemma filter_mark_length (f g : digest -> bool) pre d :
  NoDup pre -> g d = true -> f d = false -> (forall x, x <> d -> g x = f x) ->
  length (List.filter g pre) = (length (List.filter f pre) + if bool_decide (d ∈ pre) then 1 else 0)%nat.
Proof.
  intros Hnd Hg Hf Hgf. induction Hnd as [|x pre Hx Hnd IH]; [done|]. cbn [List.filter].
  destruct (decide (x = d)) as [->|Hne].
  - rewrite Hg, Hf, (bool_decide_eq_true_2 (d ∈ d :: pre)) by (by left). cbn [length].
    rewrite IH, (bool_decide_eq_false_2 (d ∈ pre)) by done. lia.
  - rewrite Hgf, (bool_decide_ext (d ∈ x :: pre) (d ∈ pre)) by (rewrite ?elem_of_cons; naive_solver).
    destruct (f x); cbn [length]; rewrite IH; lia.
Qed.

Lemma done_of_insert pre seen d :
  NoDup pre -> seen !! d <> Some true ->
  length (done_of pre (<[d := true]> seen)) =
  (length (done_of pre seen) + if bool_decide (d ∈ pre) then 1 else 0)%nat.
Proof.
  intros Hnd Hs. apply filter_mark_length; [done|..].
  - apply bool_decide_eq_true_2, lookup_insert_eq.
  - by apply bool_decide_eq_false_2.
  - intros x Hx. by rewrite lookup_insert_ne.
Qed.

Lemma activate_all_seen bn (a : activation) ds m a' pre :
  NoDup pre -> activate_all trigger bn a ds = (m, Ok a') ->
  (forall d, a_seen a !! d = Some false -> d ∈ pre) -> (forall d, d ∈ pre -> is_Some (a_seen a !! d)) ->
  a_count a = length (done_of pre (a_seen a)) ->
  a_count a' = length (done_of pre (a_seen a')) /\
  (forall d, a_seen a' !! d = Some true -> a_seen a !! d = Some true \/ d ∈ ds).
Proof.
  intros Hnd. revert a; induction ds as [|d ds IH]; intros a; cbn [activate_all].
  { intros [= <- <-]. auto. }
  destruct (activate_one trigger bn a d) as [m1 [a1|e]] eqn:E; [|done]. apply activate_one_inv in E.
  destruct E as (_ & _ & Hseen & Hnt & Hc & _). intros H Hf Hpre Hcount.
  destruct (IH a1 H) as [H1 H2].
  - intros x. rewrite Hseen. intros [[_ [=]]|[_ ?]]%lookup_insert_Some. auto.
  - intros x Hx. rewrite Hseen. apply lookup_insert_is_Some'. auto.
  - rewrite Hseen, done_of_insert, Hc, Hcount by done.
    destruct (a_seen a !! d) as [[]|] eqn:Ed; [done|..].
    + rewrite bool_decide_eq_false_2, bool_decide_eq_true_2 by auto. lia.
    + rewrite bool_decide_eq_true_2, bool_decide_eq_false_2; [lia| |done].
      intros Hd. destruct (Hpre d Hd). congruence.
  - split; [done|]. intros x Hx. destruct (H2 x Hx) as [Hx'|]; [|rewrite elem_of_cons; auto].
    rewrite Hseen in Hx'. rewrite elem_of_cons. apply lookup_insert_Some in Hx' as [[<- _]|[_ ?]]; auto.
Qed.

Lemma filter_all_length {A} (f : A -> bool) (l : list A) x :
  length (List.filter f l) = length l -> x ∈ l -> f x = true.
Proof.
  induction l as [|y l IH]; [by intros _ ?%elem_of_nil|]. cbn. pose proof (filter_length_le f l).
  destruct (f y) eqn:E; cbn; intros Hl; [|lia]. intros [->|]%elem_of_cons; auto.
Qed.

Lemma activate_all_allowed bn (a : activation) ds m a' d :
  activate_all trigger bn a ds = (m, Ok a') -> d ∈ ds ->
  exists f, recognized (pfm_set (a_manager a)) !! d = Some f /\
    (a_seen a !! d = None -> preactivation_required (pf_restrictions f) = false).
Proof.
  revert a; induction ds as [|x ds IH]; intros a; [by intros _ ?%elem_of_nil|]. cbn [activate_all].
  destruct (activate_one trigger bn a x) as [m1 [a1|e]] eqn:E; [|done]. apply activate_one_inv in E.
  destruct E as (Hact & Em & Hseen & _ & _ & f & Hf & Hp). intros H [->|Hd]%elem_of_cons; [eauto|].
  destruct (IH a1 H Hd) as (g & Hg & Hq). rewrite Hseen in Hq. rewrite Em in Hg.
  apply activate_feature_Ok in Hact as (i & e & _ & _ & _ & _ & _ & _ & ->). cbn in Hg. exists g. split; [done|].
  intros Hn. destruct (decide (x = d)) as [->|]; [|apply Hq; by rewrite lookup_insert_ne].
  rewrite Hf in Hg. injection Hg as <-. auto.
Qed.

Lemma preactivated_seen (pre : list digest) d b :
  (list_to_map ((fun d => (d, false)) <$> pre) : gmap digest bool) !! d = Some b <-> b = false /\ d ∈ pre.
Proof.
  induction pre as [|x pre IH]; [rewrite elem_of_nil; cbn; naive_solver|].
  rewrite fmap_cons, list_to_map_cons, lookup_insert_Some, elem_of_cons, IH. cbn.
  destruct (decide (x = d)); naive_solver.
Qed.

Lemma done_of_none (pre : list digest) :
  length (done_of pre (list_to_map ((fun d => (d, false)) <$> pre))) = 0%nat.
Proof.
  apply length_zero_iff_nil. destruct (done_of _ _) as [|d l] eqn:E; [done|].
  assert (d ∈ done_of pre (list_to_map ((fun d => (d, false)) <$> pre))) as Hd by (rewrite E; by left).
  by apply elem_of_List_filter in Hd as [_ [? _]%bool_decide_eq_true_1%preactivated_seen].
Qed.

Lemma filter_later head bn (acts : list (digest * Z)) k :
  Forall (fun a => a.2 <= head) acts -> head < bn ->
  List.filter (fun a => a.2 <=? head) (acts ++ ((fun d => (d, bn)) <$> k)) = acts.
Proof.
  intros Ha Hb. rewrite List.filter_app.
  assert (List.filter (fun a : digest * Z => a.2 <=? head) ((fun d => (d, bn)) <$> k) = []) as ->.
  { induction k as [|d k IH]; [done|]. rewrite fmap_cons. cbn [List.filter snd].
    destruct (bn <=? head) eqn:E; bool_to_Z; [lia|done]. }
  rewrite app_nil_r. induction Ha as [|a acts Ha _ IH]; [done|]. cbn.
  destruct (a.2 <=? head) eqn:E; bool_to_Z; [by rewrite IH|lia].
Qed.

(** A failed start takes back what the loop did. *)
Lemma popped_restores m m' head bn k :
  pfm_wf m -> initialized m = true -> pfm_wf m' -> initialized m' = true -> pfm_set m' = pfm_set m ->
  Forall (fun a => a.2 <= head) (activated_protocol_features m) -> head < bn ->
  activated_protocol_features m' = activated_protocol_features m ++ ((fun d => (d, bn)) <$> k) ->
  popped_blocks_to m' head = Ok m.
Proof.
  intros Wm Im W' I' Hset Hle Hlt Hact. destruct (popped_blocks_to_aux m' head W' I') as (m1 & -> & W1 & S1 & I1 & A1).
  f_equal. apply pfm_canonical; try congruence. rewrite A1, Hact. by apply filter_later.
Qed.

(** C22: Starting a block that is not ephemeral either records every new activation, in the manager and in
    the database alike, with all preactivated features among them and no other
    one that needed preactivation; or it fails and leaves the manager exactly as
    it was. *)
Theorem start_block_features_spec pfs m pso head features rest :
  pfm_reachable pfs m -> initialized m = true ->
  pso_activated pso = activated_protocol_features m -> NoDup (pso_preactivated pso) ->
  Forall (fun a => a.2 <= head) (activated_protocol_features m) -> 0 <= head -> head + 1 < not_active ->
  match start_block_features trigger head m pso features rest with
  | (rm, Throw _) => rm = Ok m
  | (rm, Ok pso') => exists m', rm = Ok m' /\
      activated_protocol_features m' = pso_activated pso' /\
      pso_activated pso' = pso_activated pso ++ ((fun d => (d, head + 1)) <$> features) /\
      pso_preactivated pso' = [] /\ (forall d, d ∈ pso_preactivated pso -> d ∈ features) /\
      (forall d, d ∈ features -> d ∈ pso_preactivated pso \/
         exists f, recognized pfs !! d = Some f /\ preactivation_required (pf_restrictions f) = false)
  end.
Proof.
  intros [Wf <-]%pfm_reachable_wf_aux Hi Hpso Hnd Hle H0 Hh. unfold start_block_features, not_active, u32_max in *.
  rewrite u32_small by lia. set (pre := pso_preactivated pso) in *. set (a0 := mk_activation _ _ _ _).
  destruct (activate_all trigger (head + 1) a0 features) as [m1 r] eqn:E.
  destruct (activate_all_inv _ _ _ _ _ E Wf ltac:(unfold not_active, u32_max; lia) Hi)
    as (W1 & I1 & S1 & k & Hk & Hr).
  assert (forall e : exn, popped_blocks_to m1 head = Ok m) as Hback.
  { intros _. apply (popped_restores m m1 head (head + 1) k); try done. lia. }
  destruct r as [a|e]; cbn [mbind result_bind]; [|by eauto]. destruct Hr as [-> _].
  match goal with |- context [sys_assert ?b ?x] => destruct (sys_assert b x) as [[]|e] eqn:EA end;
    cbn [mbind result_bind]; [apply sys_assert_Ok in EA|by eauto].
  match goal with |- context [rest ?p] => destruct (rest p) as [[]|e] end; cbn [mbind result_bind]; [|by eauto].
  destruct (activate_all_seen _ _ _ _ _ pre Hnd E) as [Hc Hs]; cbn [a0 a_seen a_count].
  { by intros d [_ ?]%preactivated_seen. }
  { intros d Hd. exists false. by apply preactivated_seen. }
  { by rewrite done_of_none. }
  set (pso' := if bool_decide (features = []) then pso else _).
  assert (pre <> [] -> a_count a = length pre) as Hcount.
  { intros Hne. apply orb_true_iff in EA as [EA|EA]; [|by apply andb_true_iff in EA as [_ ?%bool_decide_eq_true_1]].
    apply bool_decide_eq_true_1, length_zero_iff_nil in EA. done. }
  clear EA. assert (forall d, d ∈ pre -> d ∈ features) as Hall.
  { intros d Hd. rewrite Hc in Hcount. specialize (Hcount ltac:(by intros ->; apply elem_of_nil in Hd)).
    pose proof (filter_all_length _ _ _ Hcount Hd) as Ht%bool_decide_eq_true_1.
    by destruct (Hs _ Ht) as [[? _]%preactivated_seen|]. }
  exists m1. split; [done|].
  assert (pso_activated pso' = pso_activated pso ++ ((fun d => (d, head + 1)) <$> features) /\
          pso_preactivated pso' = []) as [Hact Hpre].
  { unfold pso'. case_bool_decide as Ef; [|done]. subst features. rewrite app_nil_r. split; [done|].
    fold pre. destruct pre as [|d l]; [done|]. specialize (Hall d ltac:(by left)). by apply elem_of_nil in Hall. }
  split_and!; try done; [by rewrite Hact, Hpso, Hk|].
  intros d Hd. destruct (activate_all_allowed _ _ _ _ _ _ E Hd) as (f & Hf & Hp).
  cbn [a0 a_seen a_manager] in Hf, Hp. destruct (list_to_map _ !! d) as [b|] eqn:Eb; [|right; eauto].
  left. by apply preactivated_seen in Eb as [_ ?].
Qed.
End start_block.

(** ** Checked activations *)

(** Every feature is recognised and has its dependencies in the set. *)
Definition features_closed (pfs : protocol_feature_set) (s : gset digest) : Prop :=
  forall d, d ∈ s -> exists f, recognized pfs !! d = Some f /\ forall x, x ∈ dependencies f -> x ∈ s.

Lemma recognized_or_throw_Ok pfs d now e u :
  recognized_or_throw pfs d now e = Ok u <->
  exists f, recognized pfs !! d = Some f /\ enabled (pf_restrictions f) = true /\
    earliest_allowed_activation_time (pf_restrictions f) <= now.
Proof.
  unfold recognized_or_throw, is_recognized. destruct u.
  destruct (recognized pfs !! d) as [f|]; [|by split; [|intros (? & ? & _)]].
  destruct (enabled (pf_restrictions f)) eqn:E; cbn [negb];
    [|split; [done|]; intros (f' & [= <-] & ? & _); congruence].
  destruct (now <? earliest_allowed_activation_time (pf_restrictions f)) eqn:E2; bool_to_Z.
  - split; [done|]. intros (f' & [= <-] & _ & ?). lia.
  - split; [intros _; exists f; split_and!; [done|done|lia]|done].
Qed.

Lemma check_features_loop_Ok pfs ts current before features :
  check_features_loop pfs ts current before features = Ok tt <->
  forall i d, features !! i = Some d -> d ∉ current /\
    exists f, recognized pfs !! d = Some f /\ enabled (pf_restrictions f) = true /\
      earliest_allowed_activation_time (pf_restrictions f) <= to_time_point ts /\
      forall x, x ∈ dependencies f -> x ∈ current \/ x ∈ before \/ x ∈ take i features.
Proof.
  revert before; induction features as [|d features IH]; intros before; cbn [check_features_loop].
  { split; [|done]. intros _ i d. by rewrite lookup_nil. }
  rewrite bind_Ok. setoid_rewrite recognized_or_throw_Ok. setoid_rewrite bind_Ok.
  setoid_rewrite bind_Ok. setoid_rewrite sys_assert_Ok. setoid_rewrite IH. unfold validate_dependencies. split.
  - intros ([] & (f & Hf & He & Ht) & [] & Hc & [] & Hd & Hr) [|i] x; cbn.
    + intros [= <-]. rewrite Hf in Hd. split; [by apply negb_true_iff, bool_decide_eq_false_1 in Hc|]. exists f. split_and!; try done.
      intros y Hy. rewrite forallb_forall in Hd. specialize (Hd y ltac:(by apply list_elem_of_In)).
      apply orb_true_iff in Hd as [?%bool_decide_eq_true_1|?%bool_decide_eq_true_1]; auto.
    + intros Hx. destruct (Hr i x Hx) as (? & g & ? & ? & ? & Hy). split; [done|]. exists g. split_and!; try done.
      intros y Hy'. specialize (Hy y Hy'). rewrite elem_of_app, list_elem_of_singleton in Hy.
      rewrite elem_of_cons. naive_solver.
  - intros H. destruct (H 0%nat d eq_refl) as (Hc & f & Hf & He & Ht & Hd). exists tt. split; [eauto|].
    exists tt. split; [by apply negb_true_iff, bool_decide_eq_false_2|]. exists tt. rewrite Hf. split.
    + apply forallb_forall. intros x Hx%list_elem_of_In. apply orb_true_iff.
      destruct (Hd x Hx) as [|[|Hn]]; [left; by apply bool_decide_eq_true_2|right; by apply bool_decide_eq_true_2|].
      by apply elem_of_nil in Hn.
    + intros i x Hx. destruct (H (S i) x Hx) as (? & g & ? & ? & ? & Hy). split; [done|]. exists g. split_and!; try done.
      intros y Hy'. specialize (Hy y Hy'). cbn in Hy. rewrite elem_of_cons in Hy.
      rewrite elem_of_app, list_elem_of_singleton. naive_solver.
Qed.

Lemma check_keeps_closed pfs ts current features :
  features_closed pfs current -> check_protocol_features pfs ts current features = Ok tt ->
  features_closed pfs (current ∪ list_to_set features).
Proof.
  intros Hcl H d. unfold check_protocol_features in H. rewrite check_features_loop_Ok in H.
  rewrite elem_of_union, elem_of_list_to_set. intros [Hd|[i Hi]%list_elem_of_lookup].
  - destruct (Hcl d Hd) as (f & Hf & Hx). exists f. split; [done|]. set_solver.
  - destruct (H i d Hi) as (_ & f & Hf & _ & _ & Hx). exists f. split; [done|]. intros x Hxd.
    rewrite elem_of_union, elem_of_list_to_set.
    destruct (Hx x Hxd) as [|[Hn|Ht]]; [by left|by apply elem_of_nil in Hn|].
    right. by apply elem_of_take in Ht as (j & ?%list_elem_of_lookup_2 & _).
Qed.

(** The check accepts a list of new features exactly when each one is
    recognised, enabled, not too early and not active yet, and its dependencies
    are active or come before it in the list. *)
Theorem check_protocol_features_spec pfs ts current features :
  check_protocol_features pfs ts current features = Ok tt <->
  forall i d, features !! i = Some d -> d ∉ current /\
    exists f, recognized pfs !! d = Some f /\ enabled (pf_restrictions f) = true /\
      earliest_allowed_activation_time (pf_restrictions f) <= to_time_point ts /\
      forall x, x ∈ dependencies f -> x ∈ current \/ x ∈ take i features.
Proof.
  unfold check_protocol_features. rewrite check_features_loop_Ok.
  apply forall_proper; intros i; apply forall_proper; intros d. setoid_rewrite elem_of_nil. naive_solver.
Qed.

Lemma size_union_list (orig : gset digest) l :
  (size (orig ∪ list_to_set l) <= size orig + length l)%nat /\
  (size (orig ∪ list_to_set l) = (size orig + length l)%nat <->
   NoDup l /\ forall d, d ∈ l -> d ∉ orig).
Proof.
  revert orig; induction l as [|x l IH]; intros orig; cbn [list_to_set length].
  { rewrite union_empty_r_L. split; [lia|]. split; [|lia]. split; [constructor|]. by intros d ?%elem_of_nil. }
  rewrite (union_comm_L {[x]}), union_assoc_L, <- union_assoc_L, (union_comm_L _ {[x]}), union_assoc_L.
  destruct (IH (orig ∪ {[x]})) as [Hle Heq]. rewrite NoDup_cons. setoid_rewrite elem_of_cons.
  destruct (decide (x ∈ orig)) as [Hx|Hx].
  - assert (orig ∪ {[x]} = orig) as E by set_solver. rewrite E in *. split; [lia|]. split; [lia|].
    intros [_ Hd]. destruct (Hd x); auto.
  - assert (size (orig ∪ {[x]}) = S (size orig)) as E by (rewrite size_union, size_singleton; [lia|set_solver]).
    rewrite E in *. split; [lia|]. replace (size orig + S (length l))%nat with (S (size orig) + length l)%nat by lia.
    rewrite Heq. split.
    + intros [Hnd Hd]. split_and!; [|done|].
      * intros Hin. specialize (Hd x Hin). set_solver.
      * intros d [->|Hin]; [done|]. specialize (Hd d Hin). set_solver.
    + intros [[Hni Hnd] Hd]. split; [done|]. intros d Hin. specialize (Hd d (or_intror Hin)).
      assert (d <> x) by (intros ->; done). set_solver.
Qed.

(** The activation set accepts exactly the lists of distinct new features. *)
Lemma protocol_feature_activation_set_Ok orig additional s :
  protocol_feature_activation_set orig additional true = Ok s <->
  s = orig ∪ list_to_set additional /\ NoDup additional /\ forall d, d ∈ additional -> d ∉ orig.
Proof.
  unfold protocol_feature_activation_set. rewrite bind_Ok. cbn [negb orb].
  setoid_rewrite sys_assert_Ok. setoid_rewrite bool_decide_eq_true.
  rewrite <- (proj2 (size_union_list orig additional)). split.
  - by intros (_ & Hs & [= <-]).
  - intros [-> Hs]. by exists tt.
Qed.

(** ** A concrete feature set *)

Module FeatureExample.

Definition hash (f : builtin_protocol_feature) : digest := mk_digest (value (f_codename f) + 1) 0 0 0.
Definition feat (c : builtin_protocol_feature_t) (deps : list digest) (r : restrictions)
  : builtin_protocol_feature := mk_builtin_feature c digest_zero deps r.
Definition fs : list builtin_protocol_feature :=
  [feat builtin.preactivate_feature [] (mk_restrictions 0 false true);
   feat builtin.replace_deferred [] default_restrictions;
   feat builtin.no_duplicate_deferred_id [mk_digest 3 0 0 0] default_restrictions].
Definition pfs : protocol_feature_set :=
  match foldM (fun s f => fst <$> add_feature hash s f) empty_pfs fs with Ok s => s | Throw _ => empty_pfs end.
Definition d0 : digest := mk_digest 1 0 0 0.
Definition d2 : digest := mk_digest 3 0 0 0.
Definition d3 : digest := mk_digest 4 0 0 0.

Definition act (m : protocol_feature_manager) (d : digest) (n : Z) : protocol_feature_manager :=
  match activate_feature m d n with Ok m => m | Throw _ => m end.
Definition m0 : protocol_feature_manager := fst (init (new_manager pfs) []).
Definition m1 : protocol_feature_manager := act m0 d0 10.
Definition m3 : protocol_feature_manager := act (act m1 d2 12) d3 12.

Lemma m1_reachable : pfm_reachable pfs m1.
Proof.
  apply (reach_activate pfs m0 d0 10); [|unfold not_active, u32_max; lia|vm_compute; reflexivity].
  apply (reach_init pfs (new_manager pfs) []); [apply reach_new|constructor].
Qed.
Lemma m3_reachable : pfm_reachable pfs m3.
Proof.
  apply (reach_activate pfs (act m1 d2 12) d3 12); [|unfold not_active, u32_max; lia|vm_compute; reflexivity].
  apply (reach_activate pfs m1 d2 12); [apply m1_reachable|unfold not_active, u32_max; lia|vm_compute; reflexivity].
Qed.

Lemma recognized_features_wf_witness : pfs_wf pfs.
Proof. apply (recognized_features_wf hash fs). vm_compute. reflexivity. Defined.

Lemma pfm_reachable_wf_witness : pfm_wf m3 /\ pfm_set m3 = pfs.
Proof. apply (pfm_reachable_wf pfs m3), m3_reachable. Defined.

Lemma popped_blocks_to_spec_witness :
  exists m', popped_blocks_to m3 11 = Ok m' /\ activated_protocol_features m' = [(d0, 10)].
Proof.
  destruct (popped_blocks_to_spec pfs m3 11 m3_reachable eq_refl) as (m' & H1 & _ & _ & _ & H2).
  exists m'. split; [exact H1|]. rewrite H2. reflexivity.
Defined.

Lemma is_builtin_activated_spec_witness :
  exists d f k, (d, k) ∈ activated_protocol_features m3 /\ recognized pfs !! d = Some f /\
    builtin_feature f = Some replace_deferred /\ k <= 12.
Proof.
  apply (is_builtin_activated_spec pfs m3 replace_deferred 12 m3_reachable eq_refl).
  vm_compute. reflexivity.
Defined.

Lemma init_rebuilds_witness : init (new_manager pfs) [(d0, 10); (d2, 12); (d3, 12)] = (m3, Ok tt).
Proof. apply (init_rebuilds pfs m3 m3_reachable eq_refl). Defined.

Lemma start_block_features_spec_witness :
  exists m', fst (start_block_features (fun _ (w : unit) => Ok w) 11 m1 (mk_pso [(d0, 10)] [d2; d3] tt)
                    [d2; d3] (fun _ => Ok tt)) = Ok m' /\
    activated_protocol_features m' = [(d0, 10); (d2, 12); (d3, 12)].
Proof.
  pose proof (start_block_features_spec (fun _ (w : unit) => Ok w) pfs m1 (mk_pso [(d0, 10)] [d2; d3] tt) 11
    [d2; d3] (fun _ => Ok tt) m1_reachable eq_refl eq_refl
    ltac:(apply (bool_decide_unpack _); vm_compute; exact I)
    ltac:(apply (bool_decide_unpack _); vm_compute; exact I) ltac:(lia) eq_refl) as H.
  destruct (start_block_features _ _ _ _ _ _) as [rm [pso'|e]] eqn:E; [|vm_compute in E; discriminate E].
  destruct H as (m' & -> & H1 & H2 & _). exists m'. split; [reflexivity|]. rewrite H1, H2. reflexivity.
Defined.
End FeatureExample.
