(* ===== verification/ProducerSchedule.v ===== *)
(** * Producer schedules ([producer_schedule.hpp])

    Block signing authorities and the schedule of producers, with the check that
    a set of keys satisfies a signing authority. *)

From S2P Require Import Prelude Exceptions Types Authority.

Record block_signing_authority := mk_bsa { bsa_threshold : Z; bsa_keys : list key_weight }.
Record producer_authority := mk_producer_authority {
  producer_name : Z; pa_authority : block_signing_authority }.
Record producer_authority_schedule := mk_schedule {
  schedule_version : Z; producers : list producer_authority }.

(** [legacy::producer_schedule_type] *)
Record legacy_producer_key := mk_legacy_key { lpk_name : Z; lpk_key : public_key }.
Record legacy_schedule := mk_legacy_schedule {
  legacy_version : Z; legacy_producers : list legacy_producer_key }.

Definition empty_schedule : producer_authority_schedule := mk_schedule 0 [].

(** The constructor that converts a legacy schedule. *)
Definition from_legacy (old : legacy_schedule) : producer_authority_schedule :=
  mk_schedule (legacy_version old)
    (map (fun p => mk_producer_authority (lpk_name p) (mk_bsa 1 [mk_kw (lpk_key p) 1]))
       (legacy_producers old)).

(** The conversion back in [make_block_header]. *)
Definition to_legacy (s : producer_authority_schedule) : res legacy_schedule :=
  l ← foldM (fun acc p =>
        match bsa_keys (pa_authority p) with
        | [k] => _ ← sys_assert (kw_weight k =? bsa_threshold (pa_authority p)) producer_schedule_exception;
                 Ok (acc ++ [mk_legacy_key (producer_name p) (kw_key k)])
        | _ => Throw producer_schedule_exception
        end) [] (producers s);
  Ok (mk_legacy_schedule (schedule_version s) l).

(** [block_signing_authority_v0::keys_satisfy_and_relevant] *)
Definition keys_satisfy_and_relevant (presented : list public_key) (a : block_signing_authority)
  : bool * Z :=
  let '(total_weight, num_relevant_keys) :=
    fold_left (fun '(w, n) kw =>
      if bool_decide (kw_key kw ∈ presented)
      then (if w <? bsa_threshold a then u32 (w + Z.min (u32_max - w) (kw_weight kw)) else w, n + 1)
      else (w, n)) (bsa_keys a) (0, 0) in
  (bsa_threshold a <=? total_weight, num_relevant_keys).

Definition presented_weight (presented : list public_key) (ks : list key_weight) : Z :=
  sum_by (fun kw => if bool_decide (kw_key kw ∈ presented) then kw_weight kw else 0) ks.

Definition presented_count (presented : list public_key) (ks : list key_weight) : Z :=
  sum_by (fun kw => if bool_decide (kw_key kw ∈ presented) then 1 else 0) ks.

Lemma presented_weight_nonneg presented ks :
  Forall (fun k => is_u16 (kw_weight k)) ks -> 0 <= presented_weight presented ks.
Proof.
  unfold presented_weight, sum_by, is_u16. induction 1 as [|k ks Hk _ IH]; cbn [foldr]; [lia|].
  case_bool_decide; lia.
Qed.

Lemma keys_satisfy_aux presented a :
  is_u32 (bsa_threshold a) -> Forall (fun k => is_u16 (kw_weight k)) (bsa_keys a) ->
  keys_satisfy_and_relevant presented a =
    (bsa_threshold a <=? presented_weight presented (bsa_keys a),
     presented_count presented (bsa_keys a)).
Proof.
  unfold keys_satisfy_and_relevant, is_u32. intros Ht Hw. set (thr := bsa_threshold a) in *.
  set (step := fun '(w, n) kw => _).
  assert (forall ks w n, Forall (fun k => is_u16 (kw_weight k)) ks -> 0 <= w <= u32_max ->
    exists w', fold_left step ks (w, n) = (w', n + presented_count presented ks) /\ 0 <= w' <= u32_max /\
      (thr <=? w') = (thr <=? w + presented_weight presented ks)) as Hloop.
  { induction ks as [|k ks IH]; intros w n Hks Hwr.
    - exists w. cbn. unfold presented_count, presented_weight, sum_by; cbn. by rewrite !Z.add_0_r.
    - apply Forall_cons in Hks as [Hk Hks]. pose proof (presented_weight_nonneg presented ks Hks).
      unfold is_u16 in Hk. unfold presented_weight, presented_count, sum_by in *. cbn [fold_left foldr step].
      case_bool_decide.
      + destruct (w <? thr) eqn:E; bool_to_Z.
        * unfold u32_max in *. rewrite u32_small by lia.
          destruct (IH (w + Z.min (2 ^ 32 - 1 - w) (kw_weight k)) (n + 1) Hks ltac:(lia))
            as (w' & -> & Hr & Hc).
          exists w'. split; [f_equal; lia|]. split; [done|]. rewrite Hc.
          apply eq_true_iff_eq. rewrite !Z.leb_le. lia.
        * destruct (IH w (n + 1) Hks Hwr) as (w' & -> & Hr & Hc). exists w'.
          split; [f_equal; lia|]. split; [done|]. rewrite Hc.
          apply eq_true_iff_eq. rewrite !Z.leb_le. lia.
      + destruct (IH w n Hks Hwr) as (w' & -> & Hr & Hc). exists w'.
        split; [f_equal; lia|]. split; [done|]. rewrite Hc. by rewrite Z.add_0_l. }
  destruct (Hloop (bsa_keys a) 0 0 Hw ltac:(unfold u32_max; lia)) as (w' & -> & _ & ->).
  by rewrite !Z.add_0_l.
Qed.

(** A set of keys satisfies a signing authority exactly when the weights of the
    authority's keys among them reach the threshold: neither the saturating
    addition nor the early stop changes the answer; the second component counts
    the authority's keys that were presented. *)
Theorem keys_satisfy_spec presented a :
  is_u32 (bsa_threshold a) -> Forall (fun k => is_u16 (kw_weight k)) (bsa_keys a) ->
  keys_satisfy_and_relevant presented a =
    (bsa_threshold a <=? presented_weight presented (bsa_keys a),
     presented_count presented (bsa_keys a)).
Proof. apply keys_satisfy_aux. Qed.

Lemma keys_satisfy_spec_witness :
  keys_satisfy_and_relevant [mk_public_key 0 [1]]
    (mk_bsa 2 [mk_kw (mk_public_key 0 [1]) 2; mk_kw (mk_public_key 0 [2]) 1]) = (true, 1).
Proof.
  rewrite keys_satisfy_spec; [vm_compute; reflexivity|cbn; split; lia|].
  cbn. rewrite !Forall_cons, Forall_nil. unfold is_u16; cbn; lia.
Defined.

(** Converting a legacy schedule and back gives the schedule. *)
Lemma legacy_roundtrip s : to_legacy (from_legacy s) = Ok s.
Proof.
  unfold to_legacy, from_legacy. cbn [producers schedule_version]. destruct s as [v ps]. cbn.
  set (step := fun acc p => _).
  assert (forall acc, foldM step acc (map (fun p => mk_producer_authority (lpk_name p)
            (mk_bsa 1 [mk_kw (lpk_key p) 1])) ps) = Ok (acc ++ ps)) as ->; [|done].
  induction ps as [|[n k] ps IH]; intros acc; cbn; [by rewrite app_nil_r|].
  rewrite IH. by rewrite <- app_assoc.
Qed.
