(* ===== verification/BlockHeaderState.v ===== *)
(** * Block header states ([block_header_state.cpp], [block_header.cpp])

    The state a node keeps per block header: the schedule, the confirmation
    counts of the delegated-proof-of-stake finality rule, and the step from one
    header to the next.  Hashing, key recovery and unpacking of extensions are
    parameters. *)

From S2P Require Import Prelude Exceptions Types BlockTimestamp ProtocolFeatures ProtocolFeatureProps.
From S2P Require Import Authority ProducerSchedule Merkle.

Definition producer_repetitions : Z := 12.
Definition maximum_tracked_dpos_confirmations : nat := 1024.

Definition signature := list Z.

(** ** Headers *)

(** [block_header_extension] *)
Inductive block_header_extension :=
| ext_protocol_feature_activation (protocol_features : list digest)
| ext_producer_schedule_change (schedule : producer_authority_schedule)
| ext_s_root (data : list Z).

(** [signed_block_header]; a timestamp is its slot. *)
Record block_header := mk_block_header {
  h_timestamp : Z;
  h_producer : Z;
  h_confirmed : Z;
  h_previous : digest;
  h_transaction_mroot : digest;
  h_action_mroot : digest;
  h_schedule_version : Z;
  h_new_producers : option legacy_schedule;
  h_header_extensions : list (Z * list Z);
  h_producer_signature : signature }.

Definition set_producer_signature (h : block_header) (sg : signature) : block_header :=
  mk_block_header (h_timestamp h) (h_producer h) (h_confirmed h) (h_previous h) (h_transaction_mroot h)
    (h_action_mroot h) (h_schedule_version h) (h_new_producers h) (h_header_extensions h) sg.

(** What the code hashes, recovers and unpacks with other libraries.  A header is
    hashed without its signature, see [header_digest]. *)
Record crypto := mk_crypto {
  hash_header : block_header -> digest;
  hash_legacy_schedule : legacy_schedule -> digest;
  hash_schedule : producer_authority_schedule -> digest;
  hash_pair : digest * digest -> digest;
  recover_key : signature -> digest -> res public_key;
  unpack_features : list Z -> res (list digest);
  unpack_schedule : list Z -> res producer_authority_schedule;
  unpack_s_root : list Z -> res (list Z);
  pack_features : list digest -> list Z;
  pack_schedule : producer_authority_schedule -> list Z }.

(** [block_header::digest] *)
Definition header_digest (cr : crypto) (h : block_header) : digest :=
  hash_header cr (set_producer_signature h []).

(** [pfs.get_builtin_digest( wtmsig_block_signatures )] is [wtmsig_digest]. *)
Definition is_builtin_activated (activated : gset digest) (feature_digest : option digest) : bool :=
  match feature_digest with Some d => bool_decide (d ∈ activated) | None => false end.

(** ** States *)

Record schedule_info := mk_schedule_info {
  schedule_lib_num : Z; schedule_hash : digest; schedule : producer_authority_schedule }.

(** [block_header_state_common] *)
Record common := mk_common {
  block_num : Z;
  dpos_proposed_irreversible_blocknum : Z;
  dpos_irreversible_blocknum : Z;
  active_schedule : producer_authority_schedule;
  blockroot_merkle : incremental_merkle;
  producer_to_last_produced : gmap Z Z;
  producer_to_last_implied_irb : gmap Z Z;
  valid_block_signing_authority : block_signing_authority;
  confirm_count : list Z }.

Record block_header_state := mk_bhs {
  bhs_common : common;
  id : digest;
  header : block_header;
  pending_schedule : schedule_info;
  activated_protocol_features : gset digest;
  additional_signatures : list signature;
  header_exts : list (Z * block_header_extension) }.

Record pending_block_header_state := mk_pending {
  p_common : common;
  p_prev_activated_protocol_features : gset digest;
  p_prev_pending_schedule : schedule_info;
  p_was_pending_promoted : bool;
  p_previous : digest;
  p_producer : Z;
  p_timestamp : Z;
  p_active_schedule_version : Z;
  p_confirmed : Z }.

(** ** [validate_and_extract_header_extensions] *)

(** [decompose_t::extract]; all three extensions are unique. *)
Definition extract (cr : crypto) (ext_id : Z) (data : list Z) : res (option block_header_extension) :=
  if ext_id =? 0 then
    l ← unpack_features cr data;
    _ ← protocol_feature_activation_init l;
    Ok (Some (ext_protocol_feature_activation l))
  else if ext_id =? 1 then s ← unpack_schedule cr data; Ok (Some (ext_producer_schedule_change s))
  else if ext_id =? 2 then r ← unpack_s_root cr data; Ok (Some (ext_s_root r))
  else Ok None.

Fixpoint extract_loop (cr : crypto) (first : bool) (id_type_lower_bound : Z)
    (exts : list (Z * list Z)) (results : list (Z * block_header_extension))
  : res (list (Z * block_header_extension)) :=
  match exts with
  | [] => Ok results
  | (ext_id, data) :: exts =>
      _ ← sys_assert (id_type_lower_bound <=? ext_id) invalid_block_header_extension;
      match_ ← extract cr ext_id data;
      e ← of_option invalid_block_header_extension match_;
      _ ← sys_assert (first || (id_type_lower_bound <? ext_id)) invalid_block_header_extension;
      extract_loop cr false ext_id exts (results ++ [(ext_id, e)])
  end.

Definition validate_and_extract_header_extensions (cr : crypto) (h : block_header)
  : res (list (Z * block_header_extension)) :=
  extract_loop cr true 0 (h_header_extensions h) [].

(** [exts.count( key )] and [exts.lower_bound( key )->second] *)
Definition exts_count (exts : list (Z * block_header_extension)) (key : Z) : Z :=
  Z.of_nat (length (List.filter (fun e => e.1 =? key) exts)).
Definition exts_lower_bound (exts : list (Z * block_header_extension)) (key : Z)
  : option block_header_extension :=
  snd <$> List.find (fun e => key <=? e.1) exts.

Definition protocol_feature_activation_id : Z := 0.
Definition producer_schedule_change_id : Z := 1.

(** ** [next] *)

(** An empty schedule makes the code divide by zero. *)
Definition get_scheduled_producer (s : common) (slot : Z) : res producer_authority :=
  let n := Z.of_nat (length (producers (active_schedule s))) in
  _ ← sys_assert (negb (n =? 0)) undefined_behavior;
  let index := slot mod (n * producer_repetitions) in
  let index := index / producer_repetitions in
  of_option undefined_behavior (producers (active_schedule s) !! Z.to_nat index).

(** [nth_element] puts the element of that rank at the position. *)
Definition calc_dpos_last_irreversible (s : common) (producer_of_next_block : Z) : Z :=
  let blocknums := map (fun i : Z * Z => if i.1 =? producer_of_next_block
                                         then dpos_proposed_irreversible_blocknum s else i.2)
                     (map_to_list (producer_to_last_implied_irb s)) in
  match length blocknums with
  | O => 0
  | S n => List.nth (Nat.div n 3) (merge_sort Z.le blocknums) 0
  end.

(** The loop over [result.confirm_count] from its end; [n] is [i + 1].  Returns
    the block number that became proposed irreversible, if any. *)
Fixpoint confirm_loop (n : nat) (blocks_to_confirm new_block_num : Z) (cc : list Z)
  : option Z * list Z :=
  match n with
  | O => (None, cc)
  | S i =>
      if blocks_to_confirm =? 0 then (None, cc)
      else
        let c := u8 (List.nth i cc 0 - 1) in
        let cc := <[i := c]> cc in
        if c =? 0 then
          (Some (u32 (new_block_num - u32 (Z.of_nat (length cc - 1 - i)))), drop (S i) cc)
        else confirm_loop i (u32 (blocks_to_confirm - 1)) new_block_num cc
  end.

Definition grow_confirm_count (cc : list Z) (required_confs : Z) : list Z :=
  if (length cc <? maximum_tracked_dpos_confirmations)%nat then cc ++ [u8 required_confs]
  else drop 1 cc ++ [u8 required_confs].

(** One of the two maps rebuilt for a promoted schedule. *)
Definition carry_over (old : gmap Z Z) (next_producer own default : Z)
    (ps : list producer_authority) : gmap Z Z :=
  fold_left (fun m pro =>
    <[producer_name pro :=
        if producer_name pro =? next_producer then own
        else match old !! producer_name pro with Some v => v | None => default end]> m) ps ∅.

Section next.
Variable cr : crypto.

Definition next (s : block_header_state) (when_ num_prev_blocks_to_confirm : Z)
  : res pending_block_header_state :=
  let c := bhs_common s in
  when_ ← (if negb (when_ =? 0)
           then _ ← sys_assert (h_timestamp (header s) <? when_) block_validate_exception; Ok when_
           else Ok (u32 (h_timestamp (header s) + 1)));
  proauth ← get_scheduled_producer c when_;
  let producer := producer_name proauth in
  _ ← match producer_to_last_produced c !! producer with
      | Some last => sys_assert (last <? u32 (u32 (block_num c + 1) - num_prev_blocks_to_confirm))
                       producer_double_confirm
      | None => Ok tt
      end;
  let new_block_num := u32 (block_num c + 1) in
  new_merkle ← of_option undefined_behavior (append (hash_pair cr) (id s) (blockroot_merkle c));
  let num_active_producers := Z.of_nat (length (producers (active_schedule c))) in
  let required_confs := u32 (u32 (num_active_producers * 2 / 3) + 1) in
  let grown := grow_confirm_count (confirm_count c) required_confs in
  let '(proposed, new_confirm_count) :=
    confirm_loop (length grown) (num_prev_blocks_to_confirm + 1) new_block_num grown in
  let new_proposed := match proposed with
                      | Some n => n
                      | None => dpos_proposed_irreversible_blocknum c
                      end in
  let new_irreversible := calc_dpos_last_irreversible c producer in
  let pending := pending_schedule s in
  let promoted := negb (Z.of_nat (length (producers (schedule pending))) =? 0)
                  && (schedule_lib_num pending <=? new_irreversible) in
  let last_produced :=
    if promoted
    then <[producer := new_block_num]>
           (carry_over (producer_to_last_produced c) producer new_block_num new_irreversible
              (producers (schedule pending)))
    else <[producer := new_block_num]> (producer_to_last_produced c) in
  let implied_irb :=
    if promoted
    then carry_over (producer_to_last_implied_irb c) producer (dpos_proposed_irreversible_blocknum c)
           new_irreversible (producers (schedule pending))
    else <[producer := dpos_proposed_irreversible_blocknum c]> (producer_to_last_implied_irb c) in
  Ok (mk_pending
        (mk_common new_block_num new_proposed new_irreversible
           (if promoted then schedule pending else active_schedule c)
           new_merkle last_produced implied_irb (pa_authority proauth) new_confirm_count)
        (activated_protocol_features s) pending promoted (id s) producer when_
        (schedule_version (active_schedule c)) num_prev_blocks_to_confirm).

(** ** [make_block_header] *)

Definition make_block_header (p : pending_block_header_state) (wtmsig_digest : option digest)
    (transaction_mroot action_mroot : digest) (new_producers : option producer_authority_schedule)
    (new_protocol_feature_activations : list digest) (s_header : option (list Z)) : res block_header :=
  let exts := if bool_decide (new_protocol_feature_activations = []) then []
              else [(protocol_feature_activation_id, pack_features cr new_protocol_feature_activations)] in
  '(legacy, exts) ←
    match new_producers with
    | None => Ok (None, exts)
    | Some np =>
        if is_builtin_activated (p_prev_activated_protocol_features p) wtmsig_digest
        then Ok (None, exts ++ [(producer_schedule_change_id, pack_schedule cr np)])
        else l ← to_legacy np; Ok (Some l, exts)
    end;
  let exts := match s_header with Some d => exts ++ [(2, d)] | None => exts end in
  Ok (mk_block_header (p_timestamp p) (p_producer p) (p_confirmed p) (p_previous p)
        transaction_mroot action_mroot (p_active_schedule_version p) legacy exts []).

(** ** [_finish_next] and [finish_next] *)

Definition header_block_num (h : block_header) : Z := u32 (num_from_id (h_previous h) + 1).
Definition header_calculate_id (h : block_header) : digest :=
  calculate_id (header_digest cr h) (header_block_num h).

(** The checks a new schedule of either form has to pass. *)
Definition check_new_schedule (p : pending_block_header_state) (version : Z) : res unit :=
  _ ← sys_assert (negb (p_was_pending_promoted p)) producer_schedule_exception;
  _ ← sys_assert (version =? u32 (schedule_version (active_schedule (p_common p)) + 1))
        producer_schedule_exception;
  sys_assert (bool_decide (producers (schedule (p_prev_pending_schedule p)) = []))
    producer_schedule_exception.

Definition _finish_next (p : pending_block_header_state) (h : block_header) (wtmsig_digest : option digest)
    (validator : Z -> gset digest -> list digest -> res unit) : res block_header_state :=
  _ ← sys_assert (h_timestamp h =? p_timestamp p) block_validate_exception;
  _ ← sys_assert (bool_decide (h_previous h = p_previous p)) unlinkable_block_exception;
  _ ← sys_assert (h_confirmed h =? p_confirmed p) block_validate_exception;
  _ ← sys_assert (h_producer h =? p_producer p) wrong_producer;
  _ ← sys_assert (h_schedule_version h =? p_active_schedule_version p) producer_schedule_exception;
  exts ← validate_and_extract_header_extensions cr h;
  let has_schedule_ext := 0 <? exts_count exts producer_schedule_change_id in
  let wtmsig_enabled := (bool_decide (is_Some (h_new_producers h)) || has_schedule_ext)
    && is_builtin_activated (p_prev_activated_protocol_features p) wtmsig_digest in
  from_legacy_field ←
    match h_new_producers h with
    | None => Ok None
    | Some np =>
        _ ← sys_assert (negb wtmsig_enabled) producer_schedule_exception;
        _ ← check_new_schedule p (legacy_version np);
        Ok (Some (from_legacy np, hash_legacy_schedule cr np))
    end;
  maybe_new ←
    (if has_schedule_ext then
       _ ← sys_assert wtmsig_enabled producer_schedule_exception;
       match exts_lower_bound exts producer_schedule_change_id with
       | Some (ext_producer_schedule_change np) =>
           _ ← check_new_schedule p (schedule_version np);
           Ok (Some (np, hash_schedule cr np))
       | _ => Throw undefined_behavior
       end
     else Ok from_legacy_field);
  (* the code passes the comparison to [count]; the id it compares is 0 *)
  new_features ←
    (if negb (exts_count exts (Z.b2z (0 <? protocol_feature_activation_id)) =? 0) then
       match exts_lower_bound exts protocol_feature_activation_id with
       | Some (ext_protocol_feature_activation fs) =>
           _ ← validator (p_timestamp p) (p_prev_activated_protocol_features p) fs;
           protocol_feature_activation_set (p_prev_activated_protocol_features p) fs true
       | _ => Throw undefined_behavior
       end
     else Ok (p_prev_activated_protocol_features p));
  let prev := p_prev_pending_schedule p in
  let pending :=
    match maybe_new with
    | Some (np, hash) => mk_schedule_info (block_num (p_common p)) hash np
    | None =>
        mk_schedule_info (schedule_lib_num prev) (schedule_hash prev)
          (if p_was_pending_promoted p then mk_schedule (schedule_version (schedule prev)) []
           else schedule prev)
    end in
  Ok (mk_bhs (p_common p) (header_calculate_id h) h pending new_features [] exts).

Definition sig_digest (s : block_header_state) : digest :=
  let header_bmroot := hash_pair cr (header_digest cr (header s), get_root (blockroot_merkle (bhs_common s))) in
  hash_pair cr (header_bmroot, schedule_hash (pending_schedule s)).

Definition verify_signee (s : block_header_state) : res unit :=
  let auth := valid_block_signing_authority (bhs_common s) in
  _ ← sys_assert (1 + Z.of_nat (length (additional_signatures s)) <=? Z.of_nat (length (bsa_keys auth)))
        wrong_signing_key;
  let digest := sig_digest s in
  k ← recover_key cr (h_producer_signature (header s)) digest;
  ks ← foldM (fun ks sg =>
         k ← recover_key cr sg digest;
         _ ← sys_assert (negb (bool_decide (k ∈ ks))) wrong_signing_key;
         Ok (ks ++ [k])) [k] (additional_signatures s);
  let '(is_satisfied, relevant_sig_count) := keys_satisfy_and_relevant ks auth in
  _ ← sys_assert (relevant_sig_count =? Z.of_nat (length ks)) wrong_signing_key;
  sys_assert is_satisfied wrong_signing_key.

Definition set_additional_signatures (s : block_header_state) (sigs : list signature) : block_header_state :=
  mk_bhs (bhs_common s) (id s) (header s) (pending_schedule s) (activated_protocol_features s)
    sigs (header_exts s).

Definition finish_next (p : pending_block_header_state) (h : block_header) (sigs : list signature)
    (wtmsig_digest : option digest) (validator : Z -> gset digest -> list digest -> res unit)
    (skip_validate_signee : bool) : res block_header_state :=
  _ ← (if bool_decide (sigs = []) then Ok tt
       else sys_assert (is_builtin_activated (p_prev_activated_protocol_features p) wtmsig_digest)
              producer_schedule_exception);
  result ← _finish_next p h wtmsig_digest validator;
  let result := if bool_decide (sigs = []) then result else set_additional_signatures result sigs in
  _ ← (if skip_validate_signee then Ok tt else verify_signee result);
  Ok result.

(** [next( h, ... )] *)
Definition next_header (s : block_header_state) (h : block_header) (sigs : list signature)
    (wtmsig_digest : option digest) (validator : Z -> gset digest -> list digest -> res unit)
    (skip_validate_signee : bool) : res block_header_state :=
  p ← next s (h_timestamp h) (h_confirmed h);
  finish_next p h sigs wtmsig_digest validator skip_validate_signee.

(** [sign( signer )] *)
Definition sign (s : block_header_state) (signer : digest -> list signature) : res block_header_state :=
  match rev (signer (sig_digest s)) with
  | [] => Throw no_block_signatures
  | last :: others =>
      let s := mk_bhs (bhs_common s) (id s) (set_producer_signature (header s) last)
                 (pending_schedule s) (activated_protocol_features s) (rev others) (header_exts s) in
      _ ← verify_signee s; Ok s
  end.

(** [finish_next( h, pfs, validator, signer )], the overload the producing node
    calls; the header it signs is returned with the state. *)
Definition finish_next_sign (p : pending_block_header_state) (h : block_header)
    (wtmsig_digest : option digest) (validator : Z -> gset digest -> list digest -> res unit)
    (signer : digest -> list signature) : res (block_header * block_header_state) :=
  let pfa := p_prev_activated_protocol_features p in
  result ← _finish_next p h wtmsig_digest validator;
  result ← sign result signer;
  let h := set_producer_signature h (h_producer_signature (header result)) in
  _ ← (if bool_decide (additional_signatures result = []) then Ok tt
       else sys_assert (is_builtin_activated pfa wtmsig_digest) producer_schedule_exception);
  Ok (h, result).
End next.

Definition get_new_protocol_feature_activations (s : block_header_state) : list digest :=
  if exts_count (header_exts s) protocol_feature_activation_id =? 0 then []
  else match exts_lower_bound (header_exts s) protocol_feature_activation_id with
       | Some (ext_protocol_feature_activation fs) => fs
       | _ => []
       end.

(** ** The schedule *)

(** A slot belongs to one producer of a non-empty schedule: the producers take
    turns of twelve consecutive slots, in the order of the schedule. *)
Theorem get_scheduled_producer_spec s slot :
  producers (active_schedule s) <> [] -> 0 <= slot ->
  exists p, get_scheduled_producer s slot = Ok p /\
    producers (active_schedule s)
      !! Z.to_nat ((slot / producer_repetitions) mod Z.of_nat (length (producers (active_schedule s)))) = Some p.
Proof.
  intros Hne Hs. unfold get_scheduled_producer, producer_repetitions.
  set (ps := producers (active_schedule s)) in *. set (n := Z.of_nat (length ps)).
  assert (0 < n) as Hn by (destruct ps; [done|unfold n; cbn; lia]).
  rewrite bind_assert by (apply negb_true_iff; lia).
  assert (slot mod (n * 12) / 12 = (slot / 12) mod n) as ->.
  { rewrite (Z.mul_comm n), Z.rem_mul_r by lia. rewrite (Z.mul_comm 12), Z.div_add by lia.
    rewrite (Z.div_small (slot mod 12)) by (apply Z.mod_pos_bound; lia). lia. }
  pose proof (Z.mod_pos_bound (slot / 12) n Hn) as Hb.
  destruct (lookup_lt_is_Some_2 ps (Z.to_nat ((slot / 12) mod n))) as [p Hp]; [lia|].
  exists p. by rewrite Hp.
Qed.

(** ** The irreversible block number *)

(** The implied irreversible numbers once [producer] has signed the next block. *)
Definition implied_values (s : common) (producer : Z) : list Z :=
  map (fun i : Z * Z => if i.1 =? producer then dpos_proposed_irreversible_blocknum s else i.2)
    (map_to_list (producer_to_last_implied_irb s)).

Definition count_ge (r : Z) (l : list Z) : Z := Z.of_nat (length (List.filter (fun x => r <=? x) l)).

(** More than two thirds of the values are at least [r]. *)
Definition supermajority (r : Z) (l : list Z) : Prop := 2 * Z.of_nat (length l) < 3 * count_ge r l.

Lemma count_ge_app r l l' : count_ge r (l ++ l') = count_ge r l + count_ge r l'.
Proof. unfold count_ge. rewrite List.filter_app, length_app. lia. Qed.

Lemma count_ge_perm r l l' : l ≡ₚ l' -> count_ge r l = count_ge r l'.
Proof.
  unfold count_ge. induction 1 as [|x l l' _ IH|x y l|l1 l2 l3 _ IH1 _ IH2]; cbn; [done|..|lia].
  - destruct (r <=? x); cbn; lia.
  - destruct (r <=? x), (r <=? y); cbn; lia.
Qed.

Lemma count_ge_all r l : Forall (fun x => r <= x) l -> count_ge r l = Z.of_nat (length l).
Proof.
  unfold count_ge. induction 1 as [|x l Hx _ IH]; [done|]. cbn. rewrite (proj2 (Z.leb_le _ _) Hx). cbn. lia.
Qed.

Lemma count_ge_none r l : Forall (fun x => x < r) l -> count_ge r l = 0.
Proof.
  unfold count_ge. induction 1 as [|x l Hx _ IH]; [done|]. cbn. by rewrite (proj2 (Z.leb_gt _ _) Hx).
Qed.

Lemma count_ge_bound r l : 0 <= count_ge r l <= Z.of_nat (length l).
Proof. unfold count_ge. pose proof (List.filter_length_le (fun x => r <=? x) l). lia. Qed.

(** The element a third into the sorted list is the greatest number that more
    than two thirds of the list reach. *)
Lemma nth_third l :
  StronglySorted Z.le l -> l <> [] -> let r := List.nth ((length l - 1) / 3) l 0 in
  supermajority r l /\ forall r', supermajority r' l -> r' <= r.
Proof.
  intros Hs Hne. set (n := length l). set (i := ((n - 1) / 3)%nat). cbn zeta.
  assert (0 < n)%nat as Hn by (unfold n; destruct l; [done|cbn; lia]).
  assert (3 * i <= n - 1 < 3 * i + 3)%nat as Hi.
  { unfold i. pose proof (Nat.div_mod_eq (n - 1) 3). pose proof (Nat.mod_upper_bound (n - 1) 3). lia. }
  destruct (nth_split l 0 (n := i)) as (l1 & l2 & E & Hl1); [fold n; lia|].
  set (r := List.nth i l 0) in *. clearbody r.
  assert (n = length l1 + S (length l2))%nat as Hl2.
  { unfold n. by rewrite E, length_app. }
  assert (Z.of_nat (length l) = Z.of_nat i + 1 + Z.of_nat (length l2)) as Hlen by (fold n; lia).
  rewrite E in Hs. apply StronglySorted_app in Hs as (H12 & _ & [_ H2]%StronglySorted_inv).
  unfold supermajority. rewrite Hlen.
  assert (forall x, count_ge x l = count_ge x l1 + count_ge x [r] + count_ge x l2) as Hc.
  { intros x. rewrite E at 1. change (r :: l2) with ([r] ++ l2). rewrite !count_ge_app. lia. }
  split.
  - rewrite Hc, (count_ge_all r [r]), (count_ge_all r l2) by (done || by repeat constructor).
    pose proof (count_ge_bound r l1). cbn [length]. lia.
  - intros r' Hr'. apply Z.le_ngt. intros Hlt.
    assert (Forall (fun x => x < r') l1).
    { apply Forall_forall. intros x Hx. assert (x <= r) by (apply H12; [done|by left]). lia. }
    rewrite Hc, (count_ge_none r' l1), (count_ge_none r' [r]) in Hr' by (done || by repeat constructor).
    pose proof (count_ge_bound r' l2). lia.
Qed.

Lemma calc_dpos_aux s producer :
  producer_to_last_implied_irb s <> ∅ ->
  let r := calc_dpos_last_irreversible s producer in
  supermajority r (implied_values s producer) /\
  forall r', supermajority r' (implied_values s producer) -> r' <= r.
Proof.
  intros Hne. unfold calc_dpos_last_irreversible. fold (implied_values s producer).
  set (vs := implied_values s producer).
  assert (vs <> []) as Hvs.
  { unfold vs, implied_values. intros E%map_eq_nil%map_to_list_empty_iff. done. }
  pose proof (merge_sort_Permutation Z.le vs) as Hp.
  pose proof (StronglySorted_merge_sort Z.le vs) as Hs.
  destruct (length vs) as [|n] eqn:En; [by destruct vs|].
  replace n with (length (merge_sort Z.le vs) - 1)%nat by (rewrite (Permutation_length Hp); lia).
  assert (forall r, supermajority r vs <-> supermajority r (merge_sort Z.le vs)) as Hiff.
  { intros r. unfold supermajority. by rewrite (count_ge_perm r _ _ Hp), (Permutation_length Hp). }
  destruct (nth_third (merge_sort Z.le vs) Hs) as [H1 H2].
  { intros E. rewrite E in Hp. by apply Permutation_nil_l in Hp. }
  split; [by apply Hiff|]. intros r' Hr'%Hiff. by apply H2.
Qed.

(** The irreversible block number is the greatest number that more than two
    thirds of the scheduled producers, counting the one about to sign, have
    implied to be irreversible. *)
Theorem calc_dpos_last_irreversible_spec s producer :
  producer_to_last_implied_irb s <> ∅ ->
  let r := calc_dpos_last_irreversible s producer in
  supermajority r (implied_values s producer) /\
  forall r', supermajority r' (implied_values s producer) -> r' <= r.
Proof. apply calc_dpos_aux. Qed.

(** A number a supermajority reaches is reached by some value. *)
Lemma supermajority_in r l : supermajority r l -> exists x, x ∈ l /\ r <= x.
Proof.
  unfold supermajority, count_ge. intros H.
  destruct (List.filter (fun x => r <=? x) l) as [|x l'] eqn:E; [cbn in H; lia|].
  exists x. assert (x ∈ List.filter (fun x => r <=? x) l) as Hx by (rewrite E; by left).
  apply elem_of_List_filter in Hx as [? ?]. split; [done|lia].
Qed.

(** The result is one of the values, or 0. *)
Lemma calc_dpos_all (P : Z -> Prop) s producer :
  P 0 -> P (dpos_proposed_irreversible_blocknum s) ->
  map_Forall (fun _ v => P v) (producer_to_last_implied_irb s) ->
  P (calc_dpos_last_irreversible s producer).
Proof.
  intros P0 Pp Hall. unfold calc_dpos_last_irreversible. fold (implied_values s producer).
  destruct (length (implied_values s producer)); [done|].
  set (i := Nat.div n 3). clearbody i.
  destruct (nth_in_or_default i (merge_sort Z.le (implied_values s producer)) 0) as [H| ->]; [|done].
  generalize dependent (List.nth i (merge_sort Z.le (implied_values s producer)) 0). intros x H.
  apply list_elem_of_In in H. rewrite (merge_sort_Permutation Z.le) in H.
  unfold implied_values in H. apply list_elem_of_In, in_map_iff in H as ([k v] & <- & Hin).
  apply list_elem_of_In, elem_of_map_to_list in Hin. cbn. destruct (k =? producer); [done|].
  by apply (Hall _ _ Hin).
Qed.

(** ** The confirmation counts *)

(** Counts stand for the blocks after the proposed irreversible one, newest
    last, and none has reached zero; the implied numbers of the producers do
    not run ahead of the proposed one. *)
Record common_wf (c : common) : Prop := {
  cw_proposed : 0 <= dpos_proposed_irreversible_blocknum c;
  cw_counts : dpos_proposed_irreversible_blocknum c + Z.of_nat (length (confirm_count c)) <= block_num c;
  cw_tracked : (length (confirm_count c) <= maximum_tracked_dpos_confirmations)%nat;
  cw_positive : Forall (fun n => 1 <= n <= 255) (confirm_count c);
  cw_implied : map_Forall (fun _ v => 0 <= v <= dpos_proposed_irreversible_blocknum c)
                 (producer_to_last_implied_irb c);
  cw_irreversible : 0 <= dpos_irreversible_blocknum c <= dpos_proposed_irreversible_blocknum c }.

Lemma confirm_loop_spec n blocks bn cc :
  (n <= length cc)%nat -> Forall (fun x => 1 <= x <= 255) cc -> Z.of_nat (length cc) <= bn < 2 ^ 32 ->
  let '(proposed, cc') := confirm_loop n blocks bn cc in
  Forall (fun x => 1 <= x <= 255) cc' /\ (length cc' <= length cc)%nat /\
  match proposed with
  | Some m => bn - Z.of_nat (length cc) < m <= bn /\ m + Z.of_nat (length cc') = bn
  | None => length cc' = length cc
  end.
Proof.
  revert blocks cc; induction n as [|i IH]; intros blocks cc Hn Hcc Hbn; cbn [confirm_loop]; [done|].
  destruct (blocks =? 0); [done|].
  destruct (lookup_lt_is_Some_2 cc i ltac:(lia)) as [x Hx].
  rewrite (nth_lookup_Some _ _ _ _ Hx). pose proof (Forall_lookup_1 _ _ _ _ Hcc Hx) as Hxr. cbn in Hxr.
  assert (u8 (x - 1) = x - 1) as Eu by (apply Z.mod_small; lia). rewrite Eu.
  destruct (x - 1 =? 0) eqn:E; bool_to_Z.
  - rewrite length_insert, length_drop, length_insert.
    rewrite (u32_small (Z.of_nat _)), u32_small by lia. split_and!; [|lia..].
    rewrite drop_insert_lt by lia. by apply Forall_drop.
  - assert (Forall (fun x => 1 <= x <= 255) (<[i:=x - 1]> cc)) as Hcc'.
    { apply Forall_insert; [done|lia]. }
    specialize (IH (u32 (blocks - 1)) (<[i:=x - 1]> cc)). rewrite length_insert in IH.
    apply IH; [lia|done|done].
Qed.

Lemma grow_confirm_count_spec cc req :
  Forall (fun x => 1 <= x <= 255) cc -> 1 <= req <= 255 ->
  (length cc <= maximum_tracked_dpos_confirmations)%nat ->
  Forall (fun x => 1 <= x <= 255) (grow_confirm_count cc req) /\
  (1 <= length (grow_confirm_count cc req) <= S (length cc))%nat /\
  (length (grow_confirm_count cc req) <= maximum_tracked_dpos_confirmations)%nat.
Proof.
  intros Hcc Hr Hl. unfold grow_confirm_count.
  assert (u8 req = req) as -> by (apply Z.mod_small; lia).
  destruct (Nat.ltb_spec (length cc) maximum_tracked_dpos_confirmations); rewrite length_app, Forall_app.
  - split_and!; [done|by apply Forall_singleton|cbn; lia..].
  - rewrite length_drop. unfold maximum_tracked_dpos_confirmations in *.
    split_and!; [by apply Forall_drop|by apply Forall_singleton|cbn; lia..].
Qed.

Lemma carry_over_all (P : Z -> Prop) old np own def ps :
  map_Forall (fun _ v => P v) old -> P own -> P def ->
  map_Forall (fun _ v => P v) (carry_over old np own def ps).
Proof.
  intros Ho Hw Hd. unfold carry_over.
  assert (forall m : gmap Z Z, map_Forall (fun _ v => P v) m -> map_Forall (fun _ v => P v)
    (fold_left (fun m pro => <[producer_name pro := if producer_name pro =? np then own
       else match old !! producer_name pro with Some v => v | None => def end]> m) ps m)) as H.
  { induction ps as [|p ps IH]; intros m Hm; [done|]. cbn. apply IH, map_Forall_insert_2; [|done].
    destruct (_ =? _); [done|]. destruct (old !! _) eqn:E; [by apply (Ho _ _ E)|done]. }
  apply H, map_Forall_empty.
Qed.

(** ** One step *)

Definition max_producers : Z := 125.

(** What a call of [next] that returns has computed. *)
Lemma next_Ok cr s when_ confirmed p :
  next cr s when_ confirmed = Ok p ->
  let c := bhs_common s in
  exists proauth m proposed cc,
    get_scheduled_producer c (p_timestamp p) = Ok proauth /\
    p_timestamp p = (if when_ =? 0 then u32 (h_timestamp (header s) + 1) else when_) /\
    (when_ <> 0 -> h_timestamp (header s) < when_) /\
    append (hash_pair cr) (id s) (blockroot_merkle c) = Some m /\
    (forall last, producer_to_last_produced c !! producer_name proauth = Some last ->
       last < u32 (u32 (block_num c + 1) - confirmed)) /\
    (let grown := grow_confirm_count (confirm_count c)
        (u32 (u32 (Z.of_nat (length (producers (active_schedule c))) * 2 / 3) + 1)) in
     confirm_loop (length grown) (confirmed + 1) (u32 (block_num c + 1)) grown = (proposed, cc)) /\
    let irr := calc_dpos_last_irreversible c (producer_name proauth) in
    let promoted := negb (Z.of_nat (length (producers (schedule (pending_schedule s)))) =? 0)
                    && (schedule_lib_num (pending_schedule s) <=? irr) in
    p_was_pending_promoted p = promoted /\ p_previous p = id s /\
    p_producer p = producer_name proauth /\ p_confirmed p = confirmed /\
    p_prev_pending_schedule p = pending_schedule s /\
    p_prev_activated_protocol_features p = activated_protocol_features s /\
    p_active_schedule_version p = schedule_version (active_schedule c) /\
    block_num (p_common p) = u32 (block_num c + 1) /\
    dpos_proposed_irreversible_blocknum (p_common p) =
      match proposed with Some n => n | None => dpos_proposed_irreversible_blocknum c end /\
    dpos_irreversible_blocknum (p_common p) = irr /\
    blockroot_merkle (p_common p) = m /\
    active_schedule (p_common p) = (if promoted then schedule (pending_schedule s) else active_schedule c) /\
    valid_block_signing_authority (p_common p) = pa_authority proauth /\
    confirm_count (p_common p) = cc /\
    producer_to_last_implied_irb (p_common p) =
      if promoted
      then carry_over (producer_to_last_implied_irb c) (producer_name proauth)
             (dpos_proposed_irreversible_blocknum c) irr (producers (schedule (pending_schedule s)))
      else <[producer_name proauth := dpos_proposed_irreversible_blocknum c]>
             (producer_to_last_implied_irb c).
Proof.
  unfold next. intros (w & Hw & H)%bind_Ok. apply bind_Ok in H as (proauth & Hpro & H).
  apply bind_Ok in H as ([] & Hdouble & H). apply bind_Ok in H as (m & Hm%of_option_Ok & H).
  set (grown := grow_confirm_count _ _) in H.
  destruct (confirm_loop (length grown) _ _ grown) as [proposed cc] eqn:Ecl.
  injection H as <-. cbn. exists proauth, m, proposed, cc.
  assert (w = (if when_ =? 0 then u32 (h_timestamp (header s) + 1) else when_) /\
          (when_ <> 0 -> h_timestamp (header s) < when_)) as [Ew Hlt].
  { destruct (when_ =? 0) eqn:E; bool_to_Z; cbn [negb] in Hw; [injection Hw as <-; done|].
    apply bind_Ok in Hw as (_ & Ht%sys_assert_Ok & [= <-]). bool_to_Z. done. }
  split_and!; try done. intros last E. rewrite E in Hdouble. apply sys_assert_Ok in Hdouble. by bool_to_Z.
Qed.

Lemma next_wf cr s when_ confirmed p :
  let c := bhs_common s in
  common_wf c -> block_num c + 1 < 2 ^ 32 ->
  Z.of_nat (length (producers (active_schedule c))) <= max_producers ->
  next cr s when_ confirmed = Ok p ->
  common_wf (p_common p) /\ block_num (p_common p) = block_num c + 1 /\
  dpos_proposed_irreversible_blocknum c <= dpos_proposed_irreversible_blocknum (p_common p) /\
  dpos_irreversible_blocknum (p_common p) <= dpos_proposed_irreversible_blocknum c.
Proof.
  intros c W Hbn Hps (proauth & m & proposed & cc & _ & _ & _ & _ & _ & Hcl & H)%next_Ok.
  fold c in Hcl, H. destruct H as (_ & _ & _ & _ & _ & _ & _ & Ebn & Eprop & Eirr & _ & _ & _ & Ecc & Eimp).
  destruct W as [W1 W2 W3 W4 W5 W6]. unfold max_producers in Hps.
  set (n := Z.of_nat (length (producers (active_schedule c)))) in *.
  assert (0 <= n * 2 / 3 <= 83) as Hreq.
  { split; [apply Z.div_pos; lia|]. apply Z.lt_succ_r. apply Z.div_lt_upper_bound; lia. }
  rewrite (u32_small (n * 2 / 3)), (u32_small (n * 2 / 3 + 1)), (u32_small (block_num c + 1)) in Hcl by lia.
  rewrite u32_small in Ebn by lia.
  destruct (grow_confirm_count_spec (confirm_count c) (n * 2 / 3 + 1)) as (G1 & G2 & G3); [done|lia|done|].
  cbn zeta in Hcl. set (grown := grow_confirm_count _ _) in *.
  pose proof (confirm_loop_spec (length grown) (confirmed + 1) (block_num c + 1) grown) as L.
  rewrite Hcl in L. destruct L as (L1 & L2 & L3); [done|done|lia|].
  set (irr := calc_dpos_last_irreversible c (producer_name proauth)) in *.
  set (prop := dpos_proposed_irreversible_blocknum c) in *.
  assert (0 <= irr <= prop) as Hirr.
  { apply (calc_dpos_all (fun v => 0 <= v <= prop)); [lia|lia|exact W5]. }
  assert (prop <= dpos_proposed_irreversible_blocknum (p_common p) /\
    dpos_proposed_irreversible_blocknum (p_common p) + Z.of_nat (length cc) <= block_num c + 1) as [Hmono Hlen].
  { rewrite Eprop. destruct proposed as [m'|]; lia. }
  split_and!; [|done|done|lia]. split; rewrite ?Ebn, ?Ecc, ?Eirr, ?Eimp; [lia|done|lia|done| |lia].
  set (q := dpos_proposed_irreversible_blocknum (p_common p)) in *.
  assert (map_Forall (fun _ v => 0 <= v <= q) (producer_to_last_implied_irb c)) as W5'.
  { eapply map_Forall_impl; [exact W5|]. cbn. lia. }
  destruct (_ && _).
  - apply (carry_over_all (fun v => 0 <= v <= q)); [done|lia|lia].
  - apply map_Forall_insert_2; [lia|done].
Qed.

(** C20: A step to the next header keeps the finality bookkeeping sound: the 8-bit
    confirmation counts never run below one, at most 1024 are tracked and they
    all stand for blocks after the proposed irreversible one; the proposed
    number never goes back, and the irreversible number never passes it. *)
Theorem next_keeps_wf cr s when_ confirmed p :
  let c := bhs_common s in
  common_wf c -> block_num c + 1 < 2 ^ 32 ->
  Z.of_nat (length (producers (active_schedule c))) <= max_producers ->
  next cr s when_ confirmed = Ok p ->
  common_wf (p_common p) /\ block_num (p_common p) = block_num c + 1 /\
  dpos_proposed_irreversible_blocknum c <= dpos_proposed_irreversible_blocknum (p_common p) /\
  dpos_irreversible_blocknum (p_common p) <= dpos_proposed_irreversible_blocknum c.
Proof. apply next_wf. Qed.

(** ** The irreversible number along a schedule *)

Definition irb_values (m : gmap Z Z) : list Z := map snd (map_to_list m).

Lemma irb_values_insert k v m : m !! k = None -> irb_values (<[k := v]> m) ≡ₚ v :: irb_values m.
Proof. intros H. unfold irb_values. by rewrite map_to_list_insert. Qed.

Lemma implied_values_outside s producer m :
  m !! producer = None ->
  map (fun i : Z * Z => if i.1 =? producer then dpos_proposed_irreversible_blocknum s else i.2)
    (map_to_list m) = irb_values m.
Proof.
  intros H. unfold irb_values. apply map_ext_in. intros [k v] Hin. cbn.
  apply list_elem_of_In, elem_of_map_to_list in Hin. destruct (k =? producer) eqn:E; [|done].
  bool_to_Z. congruence.
Qed.

Lemma implied_values_perm s producer :
  let m := producer_to_last_implied_irb s in
  implied_values s producer ≡ₚ
    match m !! producer with
    | Some _ => dpos_proposed_irreversible_blocknum s :: irb_values (delete producer m)
    | None => irb_values m
    end.
Proof.
  cbn. set (m := producer_to_last_implied_irb s). unfold implied_values. fold m.
  destruct (m !! producer) as [v|] eqn:E; [|by rewrite implied_values_outside].
  rewrite <- (insert_delete_id m producer v E) at 1.
  rewrite map_to_list_insert by apply lookup_delete_eq. cbn. rewrite Z.eqb_refl.
  by rewrite implied_values_outside by apply lookup_delete_eq.
Qed.

Lemma irb_values_split m producer :
  irb_values m ≡ₚ match m !! producer with
                  | Some v => v :: irb_values (delete producer m)
                  | None => irb_values m
                  end.
Proof.
  destruct (m !! producer) as [v|] eqn:E; [|done].
  rewrite <- (insert_delete_id m producer v E) at 1. apply irb_values_insert, lookup_delete_eq.
Qed.

Lemma supermajority_perm r l l' : l ≡ₚ l' -> supermajority r l <-> supermajority r l'.
Proof. intros Hp. unfold supermajority. by rewrite (count_ge_perm r _ _ Hp), (Permutation_length Hp). Qed.

Lemma count_ge_cons r x l : count_ge r (x :: l) = (if r <=? x then 1 else 0) + count_ge r l.
Proof. unfold count_ge. cbn. destruct (r <=? x); cbn; lia. Qed.

Lemma supermajority_raise r x y l : x <= y -> supermajority r (x :: l) -> supermajority r (y :: l).
Proof.
  unfold supermajority. rewrite !count_ge_cons. cbn [length].
  destruct (r <=? x) eqn:?, (r <=? y) eqn:?; lia.
Qed.

Lemma supermajority_add r x l : r <= x -> supermajority r l -> supermajority r (x :: l).
Proof. unfold supermajority. rewrite count_ge_cons. cbn [length]. destruct (r <=? x) eqn:?; lia. Qed.

(** C35: A block under which no new schedule becomes active does not lower the
    irreversible block number, provided that more than two thirds of the producers'
    implied numbers reach the irreversible number of its parent; the block keeps this
    condition, so that the number does not go back along any sequence of such
    blocks. *)
Theorem dpos_irreversible_monotone cr s when_ confirmed p :
  let c := bhs_common s in
  common_wf c -> supermajority (dpos_irreversible_blocknum c) (irb_values (producer_to_last_implied_irb c)) ->
  next cr s when_ confirmed = Ok p -> p_was_pending_promoted p = false ->
  dpos_irreversible_blocknum c <= dpos_irreversible_blocknum (p_common p) /\
  supermajority (dpos_irreversible_blocknum (p_common p))
    (irb_values (producer_to_last_implied_irb (p_common p))).
Proof.
  intros c W Hsup (proauth & m0 & pr & cc & _ & _ & _ & _ & _ & _ & H)%next_Ok Hnp. fold c in H.
  destruct H as (Epr & _ & _ & _ & _ & _ & _ & _ & _ & Eirr & _ & _ & _ & _ & Eimp).
  rewrite Hnp in Epr. rewrite <- Epr in Eimp. rewrite Eirr, Eimp.
  set (m := producer_to_last_implied_irb c) in *. set (P := producer_name proauth) in *.
  set (prop := dpos_proposed_irreversible_blocknum c) in *.
  assert (m <> ∅) as Hne. { intros E. rewrite E in Hsup. by apply supermajority_in in Hsup as (x & ?%elem_of_nil & _). }
  destruct (calc_dpos_aux c P Hne) as [Hs Hmax]. fold m in Hs, Hmax.
  set (irr := calc_dpos_last_irreversible c P) in *.
  assert (irr <= prop) as Hle.
  { apply (calc_dpos_all (fun v => v <= prop)); [apply W|done|].
    eapply map_Forall_impl; [apply (cw_implied _ W)|]. cbn. fold prop. lia. }
  pose proof (implied_values_perm c P) as Hp. cbn zeta in Hp. fold m prop in Hp.
  rewrite (supermajority_perm _ _ _ (irb_values_split m P)) in Hsup.
  split.
  - apply Hmax. rewrite (supermajority_perm _ _ _ Hp). destruct (m !! P) as [v|] eqn:E; [|done].
    eapply supermajority_raise; [|done]. by apply (cw_implied _ W P v).
  - rewrite (supermajority_perm _ _ _ Hp) in Hs. destruct (m !! P) as [v|] eqn:E.
    + rewrite <- insert_delete_eq. by rewrite (supermajority_perm _ _ _ (irb_values_insert _ _ _ (lookup_delete_eq _ _))).
    + rewrite (supermajority_perm _ _ _ (irb_values_insert P prop m E)). by apply supermajority_add.
Qed.

(** ** Accepted headers *)

Section accepted.
Context (cr : crypto).
(** Digests are four 64-bit words. *)
Context (Hdigest : forall h, is_u64 (hash0 (hash_header cr h))).

Lemma next_header_Ok s h sigs wt validator skip s' :
  next_header cr s h sigs wt validator skip = Ok s' ->
  exists p, next cr s (h_timestamp h) (h_confirmed h) = Ok p /\
    h_previous h = id s /\ h_timestamp h = p_timestamp p /\ h_producer h = p_producer p /\
    bhs_common s' = p_common p /\ id s' = header_calculate_id cr h /\ header s' = h /\
    (skip = false -> verify_signee cr s' = Ok tt) /\ additional_signatures s' = sigs.
Proof.
  unfold next_header. intros (p & Hp & H)%bind_Ok. exists p. split; [done|].
  unfold finish_next in H. apply bind_Ok in H as (_ & _ & H). apply bind_Ok in H as (r & Hr & H).
  apply bind_Ok in H as (u & Hv & [= <-]).
  unfold _finish_next in Hr. apply bind_Ok in Hr as (_ & H1%sys_assert_Ok & Hr).
  apply bind_Ok in Hr as (_ & H2%sys_assert_Ok%bool_decide_eq_true & Hr).
  apply bind_Ok in Hr as (_ & _ & Hr). apply bind_Ok in Hr as (_ & H3%sys_assert_Ok & Hr).
  apply bind_Ok in Hr as (_ & _ & Hr). apply bind_Ok in Hr as (exts & _ & Hr).
  apply bind_Ok in Hr as (ol & _ & Hr). apply bind_Ok in Hr as (mn & _ & Hr).
  apply bind_Ok in Hr as (nf & _ & [= <-]). bool_to_Z.
  apply next_Ok in Hp as (pa & m0 & pr & cc & _ & _ & _ & _ & _ & _ & _ & Hprev & _).
  split_and!; try congruence; try (by case_bool_decide).
  - intros ->. by destruct u.
Qed.

(** An accepted header links to the state it was applied to, and its id carries
    the number of its block, which is one more than its parent's; these are the
    facts the fork database relies on. *)
Theorem next_header_numbers s h sigs wt validator skip s' :
  num_from_id (id s) = block_num (bhs_common s) -> 0 <= block_num (bhs_common s) ->
  block_num (bhs_common s) + 1 < 2 ^ 32 ->
  next_header cr s h sigs wt validator skip = Ok s' ->
  h_previous (header s') = id s /\ block_num (bhs_common s') = block_num (bhs_common s) + 1 /\
  num_from_id (id s') = block_num (bhs_common s') /\
  block_num (bhs_common s') = num_from_id (h_previous (header s')) + 1.
Proof.
  intros Hn H0 Hb (p & Hp & Hprev & _ & _ & Ec & Eid & Eh & _)%next_header_Ok.
  apply next_Ok in Hp as (pa & m0 & pr & cc & _ & _ & _ & _ & _ & _ & _ & _ & _ & _ & _ & _ & _ & Ebn & _).
  rewrite u32_small in Ebn by lia. rewrite Ec, Eid, Eh, Ebn. unfold header_calculate_id.
  assert (header_block_num h = block_num (bhs_common s) + 1) as E.
  { unfold header_block_num. rewrite Hprev, Hn, u32_small by lia. done. }
  rewrite num_from_calculate_id; [|apply Hdigest|unfold is_u32; lia].
  split_and!; [done|done|done|]. by rewrite Hprev, Hn.
Qed.

(** What an accepted header activates has passed the validator and is new. *)
Lemma next_header_features s h sigs wt validator skip s' :
  next_header cr s h sigs wt validator skip = Ok s' ->
  activated_protocol_features s' = activated_protocol_features s \/
  exists fs, validator (h_timestamp h) (activated_protocol_features s) fs = Ok tt /\
    protocol_feature_activation_set (activated_protocol_features s) fs true =
      Ok (activated_protocol_features s').
Proof.
  unfold next_header. intros (p & Hp & H)%bind_Ok.
  unfold finish_next in H. apply bind_Ok in H as (_ & _ & H). apply bind_Ok in H as (r & Hr & H).
  apply bind_Ok in H as (u & Hv & [= <-]).
  unfold _finish_next in Hr. apply bind_Ok in Hr as (_ & Ht%sys_assert_Ok & Hr).
  do 4 apply bind_Ok in Hr as (_ & _ & Hr). apply bind_Ok in Hr as (exts & _ & Hr).
  apply bind_Ok in Hr as (ol & _ & Hr). apply bind_Ok in Hr as (mn & _ & Hr).
  apply bind_Ok in Hr as (nf & Hnf & [= <-]). bool_to_Z.
  apply next_Ok in Hp as (pa & m0 & pr & cc & _ & _ & _ & _ & _ & _ & _ & _ & _ & _ & _ & Ef & _).
  rewrite <- Ht, Ef in Hnf. replace (activated_protocol_features _) with nf by (by case_bool_decide).
  destruct (negb _); [|left; by injection Hnf].
  destruct (exts_lower_bound exts _) as [[fs|?|?]|]; [|done..].
  apply bind_Ok in Hnf as ([] & ? & ?). right. eauto.
Qed.

(** Along accepted headers the activated protocol features stay recognised and
    closed under dependencies, when headers are checked as the controller does. *)
Theorem next_header_keeps_features_closed pfs s h sigs wt skip s' :
  features_closed pfs (activated_protocol_features s) ->
  next_header cr s h sigs wt (check_protocol_features pfs) skip = Ok s' ->
  features_closed pfs (activated_protocol_features s').
Proof.
  intros Hcl [->|(fs & Hc & Ha)]%next_header_features; [done|].
  apply protocol_feature_activation_set_Ok in Ha as (-> & _). by eapply check_keeps_closed.
Qed.
End accepted.

(** ** Signatures *)

Lemma presented_count_length ks (keys : list key_weight) :
  presented_count ks keys =
  Z.of_nat (length (List.filter (fun k => bool_decide (k ∈ ks)) (kw_key <$> keys))).
Proof.
  unfold presented_count, sum_by. induction keys as [|k keys IH]; [done|]. cbn.
  rewrite IH. case_bool_decide; cbn; lia.
Qed.

Lemma presented_all ks (keys : list key_weight) :
  NoDup ks -> NoDup (kw_key <$> keys) -> presented_count ks keys = Z.of_nat (length ks) ->
  forall k, k ∈ ks -> k ∈ kw_key <$> keys.
Proof.
  intros Hks Hkeys. rewrite presented_count_length. set (F := List.filter _ _). intros E%Nat2Z.inj.
  assert (NoDup F) as HF.
  { unfold F. pose proof (NoDup_fmap_filter (fun x : public_key => x) (fun k => bool_decide (k ∈ ks))
      (kw_key <$> keys)) as H. rewrite !list_fmap_id in H. by apply H. }
  assert (F ⊆+ ks) as Hsub.
  { apply NoDup_submseteq; [done|]. intros x [_ Hx]%elem_of_List_filter. by case_bool_decide. }
  apply submseteq_length_Permutation in Hsub; [|lia].
  intros k Hk. rewrite <- Hsub in Hk. by apply elem_of_List_filter in Hk as [? _].
Qed.

Lemma recover_loop_spec cr dg sigs ks0 ks :
  NoDup ks0 ->
  foldM (fun ks sg =>
    k ← recover_key cr sg dg;
    _ ← sys_assert (negb (bool_decide (k ∈ ks))) wrong_signing_key;
    Ok (ks ++ [k])) ks0 sigs = Ok ks ->
  NoDup ks /\ exists l, ks = ks0 ++ l /\ Forall2 (fun sg k => recover_key cr sg dg = Ok k) sigs l.
Proof.
  revert ks0; induction sigs as [|sg sigs IH]; intros ks0 Hnd; cbn [foldM].
  { intros [= <-]. split; [done|]. exists []. by rewrite app_nil_r. }
  intros (ks1 & H1 & H2)%bind_Ok. apply bind_Ok in H1 as (k & Hk & H1).
  apply bind_Ok in H1 as (_ & Hnew%sys_assert_Ok & [= <-]).
  apply IH in H2 as (Hnd' & l & -> & Hl).
  - split; [done|]. exists (k :: l). rewrite <- app_assoc. by repeat constructor.
  - apply NoDup_app. case_bool_decide; [done|]. split_and!; [done| |apply NoDup_singleton].
    intros x Hx ->%list_elem_of_singleton. done.
Qed.

(** C19: A block that passes [verify_signee] is signed by distinct keys, all of them
    keys of the scheduled producer's signing authority, whose weights together
    reach its threshold. *)
Theorem verify_signee_spec cr s :
  let auth := valid_block_signing_authority (bhs_common s) in
  is_u32 (bsa_threshold auth) -> Forall (fun k => is_u16 (kw_weight k)) (bsa_keys auth) ->
  NoDup (kw_key <$> bsa_keys auth) -> verify_signee cr s = Ok tt ->
  exists ks, NoDup ks /\
    Forall2 (fun sg k => recover_key cr sg (sig_digest cr s) = Ok k)
      (h_producer_signature (header s) :: additional_signatures s) ks /\
    (forall k, k ∈ ks -> k ∈ kw_key <$> bsa_keys auth) /\
    bsa_threshold auth <= presented_weight ks (bsa_keys auth).
Proof.
  intros auth Ht Hw Hnd. unfold verify_signee. fold auth. intros (_ & _ & H)%bind_Ok.
  apply bind_Ok in H as (k & Hk & H). apply bind_Ok in H as (ks & Hks & H).
  apply recover_loop_spec in Hks as (Hnd' & l & -> & Hl); [|apply NoDup_singleton].
  rewrite keys_satisfy_aux in H by done. apply bind_Ok in H as (_ & Hc%sys_assert_Ok & H%sys_assert_Ok).
  bool_to_Z. exists ([k] ++ l). split_and!; [done|by constructor| |done].
  by apply presented_all.
Qed.

(** ** A concrete chain

    Seven producers, two of which have not signed for a while, and a pending
    schedule made of those two and one other. *)
Module HeaderExample.

Definition cr : crypto :=
  mk_crypto (fun h => mk_digest (u64 (h_timestamp h * 2 ^ 33)) 1 2 3) (fun _ => digest_zero)
    (fun _ => digest_zero) (fun p => p.1) (fun sg _ => Ok (mk_public_key 0 sg)) (fun _ => Ok [])
    (fun _ => Ok empty_schedule) (fun d => Ok d) (fun _ => []) (fun _ => []).

Definition pa (n : Z) : producer_authority :=
  mk_producer_authority n (mk_bsa 1 [mk_kw (mk_public_key 0 [n]) 1]).

Definition genesis_header : block_header :=
  mk_block_header 1 0 0 digest_zero digest_zero digest_zero 0 None [] [].

Definition c0 : common :=
  mk_common 50 40 30 (mk_schedule 1 (pa <$> [1; 2; 3; 4; 5; 6; 7])) empty_im ∅
    (list_to_map [(1, 10); (2, 10); (3, 30); (4, 30); (5, 30); (6, 30); (7, 30)])
    (mk_bsa 0 []) [3; 4; 5; 5; 5].

Definition s0 : block_header_state :=
  mk_bhs c0 (calculate_id digest_zero 50) genesis_header
    (mk_schedule_info 20 digest_zero (mk_schedule 2 (pa <$> [1; 2; 3]))) ∅ [] [].

(** Slot 72 belongs to the seventh producer, slot 24 to the third of three. *)
Definition h1 : block_header :=
  mk_block_header 72 7 0 (id s0) digest_zero digest_zero 1 None [] [7].
Definition s1 : block_header_state :=
  match next_header cr s0 h1 [] None (fun _ _ _ => Ok tt) false with Ok s => s | Throw _ => s0 end.
Definition h2 : block_header :=
  mk_block_header 96 3 0 (id s1) digest_zero digest_zero 2 None [] [3].
Definition s2 : block_header_state :=
  match next_header cr s1 h2 [] None (fun _ _ _ => Ok tt) false with Ok s => s | Throw _ => s0 end.

Lemma c0_wf : common_wf c0.
Proof.
  split; try (cbn; lia); try (cbn; unfold maximum_tracked_dpos_confirmations; lia).
  - cbn. rewrite !Forall_cons, Forall_nil. lia.
  - intros n v H. apply elem_of_list_to_map_2 in H.
    rewrite !elem_of_cons, elem_of_nil in H. cbn. naive_solver lia.
Qed.

Lemma get_scheduled_producer_spec_witness :
  exists p, get_scheduled_producer c0 100 = Ok p /\ producers (active_schedule c0) !! 1%nat = Some p.
Proof.
  apply (get_scheduled_producer_spec c0 100); [discriminate|lia].
Defined.

Lemma calc_dpos_last_irreversible_spec_witness :
  supermajority 30 (implied_values c0 7) /\ forall r', supermajority r' (implied_values c0 7) -> r' <= 30.
Proof.
  apply (calc_dpos_last_irreversible_spec c0 7). intros E.
  assert (producer_to_last_implied_irb c0 !! 1 = None) as H by (rewrite E; reflexivity).
  vm_compute in H. discriminate H.
Defined.

Lemma next_keeps_wf_witness : exists p, next cr s0 72 0 = Ok p /\ common_wf (p_common p).
Proof.
  destruct (next cr s0 72 0) as [p|e] eqn:E; [|vm_compute in E; discriminate E].
  exists p. split; [reflexivity|]. apply (next_keeps_wf cr s0 72 0 p c0_wf); [cbn; lia| |exact E].
  vm_compute. congruence.
Defined.

(** The same state with no schedule waiting. *)
Definition quiet : block_header_state :=
  mk_bhs c0 (calculate_id digest_zero 50) genesis_header
    (mk_schedule_info 20 digest_zero empty_schedule) ∅ [] [].

Lemma dpos_irreversible_monotone_witness :
  exists p, next cr quiet 72 0 = Ok p /\ 30 <= dpos_irreversible_blocknum (p_common p).
Proof.
  destruct (next cr quiet 72 0) as [p|e] eqn:E; [|vm_compute in E; discriminate E].
  exists p. split; [reflexivity|]. apply (dpos_irreversible_monotone cr quiet 72 0 p c0_wf).
  - vm_compute. reflexivity.
  - exact E.
  - vm_compute in E. injection E as <-. reflexivity.
Defined.

Lemma next_header_numbers_witness : num_from_id (id s1) = 51 /\ h_previous (header s1) = id s0.
Proof.
  destruct (next_header_numbers cr ltac:(intros h; apply Z.mod_pos_bound; lia)
    s0 h1 [] None (fun _ _ _ => Ok tt) false s1) as (H1 & H2 & H3 & _).
  - vm_compute. reflexivity.
  - cbn. lia.
  - cbn. lia.
  - vm_compute. reflexivity.
  - split; [rewrite H3, H2; reflexivity|exact H1].
Defined.

Lemma verify_signee_spec_witness :
  exists ks, NoDup ks /\ Forall (fun k => k ∈ [mk_public_key 0 [7]]) ks.
Proof.
  destruct (verify_signee_spec cr s1) as (ks & H1 & _ & H3 & _).
  - vm_compute. split; congruence.
  - apply (bool_decide_unpack _). vm_compute. exact I.
  - apply (bool_decide_unpack _). vm_compute. exact I.
  - vm_compute. reflexivity.
  - exists ks. split; [exact H1|]. apply Forall_forall. exact H3.
Defined.

(** A header that activates the feature [d0]. *)
Definition cr_feature : crypto :=
  mk_crypto (hash_header cr) (hash_legacy_schedule cr) (hash_schedule cr) (hash_pair cr) (recover_key cr)
    (fun _ => Ok [FeatureExample.d0]) (unpack_schedule cr) (unpack_s_root cr) (pack_features cr) (pack_schedule cr).
Definition h_feature : block_header :=
  mk_block_header 72 7 0 (id s0) digest_zero digest_zero 1 None [(0, [])] [7].
Definition s_feature : block_header_state :=
  match next_header cr_feature s0 h_feature [] None (check_protocol_features FeatureExample.pfs) false with
  | Ok s => s | Throw _ => s0 end.

Lemma next_header_keeps_features_closed_witness :
  features_closed FeatureExample.pfs (activated_protocol_features s_feature) /\
  FeatureExample.d0 ∈ activated_protocol_features s_feature.
Proof.
  split; [|apply (bool_decide_unpack _); vm_compute; exact I].
  apply (next_header_keeps_features_closed cr_feature FeatureExample.pfs s0 h_feature [] None false).
  - intros d Hd. apply not_elem_of_empty in Hd. destruct Hd.
  - vm_compute. reflexivity.
Defined.

(** When a schedule is promoted the irreversible block number can go back: the
    laggards of the old schedule keep their numbers in the new, smaller one.
    Both headers below are accepted, signatures included. *)
Theorem dpos_irreversible_can_decrease :
  next_header cr s0 h1 [] None (fun _ _ _ => Ok tt) false = Ok s1 /\
  next_header cr s1 h2 [] None (fun _ _ _ => Ok tt) false = Ok s2 /\
  common_wf c0 /\ supermajority (dpos_irreversible_blocknum c0) (irb_values (producer_to_last_implied_irb c0)) /\
  dpos_irreversible_blocknum (bhs_common s1) = 30 /\ dpos_irreversible_blocknum (bhs_common s2) = 10.
Proof. split_and!; try (vm_compute; reflexivity). apply c0_wf. Qed.
End HeaderExample.
