(* ===== verification/AccessLists.v ===== *)
(** * Node-local white and black lists ([controller.cpp])

    The lists a producer configures, as sorted [flat_set]s, and the four checks.
    [check_actor_list] walks two sorted sets side by side after a comparison of
    their extents; it is shown equal to the subset and intersection tests it
    stands for. *)

From S2P Require Import Prelude Exceptions Authority.

Record list_config := mk_lists {
  actor_whitelist : list Z;
  actor_blacklist : list Z;
  contract_whitelist : list Z;
  contract_blacklist : list Z;
  action_blacklist : list (Z * Z);
  key_blacklist : list public_key }.

(** [std::lower_bound( first, last, x )] on a sorted range: the range from the
    first element that is not less. *)
Fixpoint lower_bound (x : Z) (range : list Z) : list Z :=
  match range with
  | y :: rest => if y <? x then lower_bound x rest else range
  | [] => []
  end.

(** [flat_set::insert] *)
Fixpoint flat_insert (x : Z) (s : list Z) : list Z :=
  match s with
  | [] => [x]
  | y :: rest => if x <? y then x :: s else if x =? y then s else y :: flat_insert x rest
  end.

(** [*s.crbegin()] of a set that is not empty. *)
Definition set_back (s : list Z) : Z := List.last s 0.
Definition set_front (s : list Z) : Z := hd 0 s.

Fixpoint whitelist_walk (range actors : list Z) : bool :=
  match actors with
  | [] => true
  | actor :: actors =>
    match lower_bound actor range with
    | x :: next => if x =? actor then whitelist_walk next actors else false
    | [] => false
    end
  end.

Fixpoint blacklist_walk (range actors : list Z) : bool :=
  match actors with
  | [] => false
  | actor :: actors =>
    match lower_bound actor range with
    | x :: next => if x =? actor then true else blacklist_walk (x :: next) actors
    | [] => false
    end
  end.

Definition check_actor_list (conf : list_config) (actors : list Z) : res unit :=
  match actors with
  | [] => Ok tt
  | _ =>
    if bool_decide (actor_whitelist conf <> []) then
      let whitelist := actor_whitelist conf in
      let is_subset :=
        if (set_front whitelist <=? set_front actors) && (set_back actors <=? set_back whitelist)
        then whitelist_walk whitelist actors else false in
      sys_assert is_subset actor_whitelist_exception
    else if bool_decide (actor_blacklist conf <> []) then
      let blacklist := actor_blacklist conf in
      let intersects :=
        if (set_front actors <=? set_back blacklist) && (set_front blacklist <=? set_back actors)
        then blacklist_walk blacklist actors else false in
      sys_assert (negb intersects) actor_blacklist_exception
    else Ok tt
  end.

Definition check_contract_list (conf : list_config) (code : Z) : res unit :=
  if bool_decide (contract_whitelist conf <> []) then
    sys_assert (bool_decide (code ∈ contract_whitelist conf)) contract_whitelist_exception
  else if bool_decide (contract_blacklist conf <> []) then
    sys_assert (negb (bool_decide (code ∈ contract_blacklist conf))) contract_blacklist_exception
  else Ok tt.

Definition check_action_list (conf : list_config) (code action : Z) : res unit :=
  if bool_decide (action_blacklist conf <> []) then
    sys_assert (negb (bool_decide ((code, action) ∈ action_blacklist conf))) action_blacklist_exception
  else Ok tt.

Definition check_key_list (conf : list_config) (key : public_key) : res unit :=
  if bool_decide (key_blacklist conf <> []) then
    sys_assert (negb (bool_decide (key ∈ key_blacklist conf))) key_blacklist_exception
  else Ok tt.

(** ** The walks decide inclusion and intersection *)

Notation flat_set := (StronglySorted Z.lt).

Lemma flat_set_cons x s : flat_set (x :: s) -> flat_set s /\ forall y, y ∈ s -> x < y.
Proof. inversion 1 as [|? ? Hs Hx]; subst. by rewrite Forall_forall in Hx. Qed.

Lemma lower_bound_suffix x s : flat_set s ->
  flat_set (lower_bound x s) /\ (forall y, y ∈ lower_bound x s <-> y ∈ s /\ x <= y).
Proof.
  induction s as [|y s IH]; cbn; [set_solver|]. intros Hs. pose proof (flat_set_cons _ _ Hs) as [Hs' Hy].
  destruct (y <? x) eqn:E; bool_to_Z.
  - destruct (IH Hs') as [? Hin]. split; [done|]. intros z. rewrite Hin, elem_of_cons.
    split; [tauto|]. intros [[->|?] ?]; [lia|done].
  - split; [done|]. intros z. rewrite elem_of_cons. split; [|tauto].
    intros [->|Hz]; [auto with lia|]. specialize (Hy z Hz). split; [auto|lia].
Qed.

Lemma whitelist_walk_subset s actors : flat_set s -> flat_set actors ->
  whitelist_walk s actors = true <-> forall a, a ∈ actors -> a ∈ s.
Proof.
  revert s. induction actors as [|a actors IH]; intros s Hs Ha; cbn; [set_solver|].
  apply flat_set_cons in Ha as [Ha Hlt]. destruct (lower_bound_suffix a s Hs) as [Hs' Hin].
  destruct (lower_bound a s) as [|x next] eqn:E.
  - split; [done|]. intros H. exfalso. assert (a ∈ @nil Z) as []%elem_of_nil.
    apply Hin. split; [apply H; left|lia].
  - apply flat_set_cons in Hs' as [Hn Hx]. destruct (x =? a) eqn:Ex; bool_to_Z; [subst x|].
    + rewrite (IH next Hn Ha). split.
      * intros H b [->|Hb]%elem_of_cons; apply Hin; [left|right; apply H, Hb].
      * intros H b Hb. assert (b ∈ a :: next) as [->|?]%elem_of_cons; [|specialize (Hlt a Hb); lia|done].
        apply Hin. split; [apply H; by right|specialize (Hlt b Hb); lia].
    + split; [done|]. intros H. exfalso.
      assert (a ∈ x :: next) as [->|Ha']%elem_of_cons; [|done|].
      * apply Hin. split; [apply H; left|lia].
      * assert (x ∈ s /\ a <= x) as [_ ?] by (apply Hin; left). specialize (Hx a Ha'). lia.
Qed.

Lemma blacklist_walk_intersects s actors : flat_set s -> flat_set actors ->
  blacklist_walk s actors = true <-> exists a, a ∈ actors /\ a ∈ s.
Proof.
  revert s. induction actors as [|a actors IH]; intros s Hs Ha; cbn; [set_solver|].
  apply flat_set_cons in Ha as [Ha Hlt]. destruct (lower_bound_suffix a s Hs) as [Hs' Hin].
  destruct (lower_bound a s) as [|x next] eqn:E.
  - split; [done|]. intros (b & Hb & Hbs). exfalso. assert (b ∈ @nil Z) as []%elem_of_nil.
    apply Hin. split; [done|]. apply elem_of_cons in Hb as [->|Hb]; [lia|specialize (Hlt b Hb); lia].
  - destruct (x =? a) eqn:Ex; bool_to_Z; [subst x|].
    + split; [|done]. intros _. exists a. split; [left|]. apply (Hin a). left.
    + rewrite (IH _ Hs' Ha). split.
      * intros (b & Hb & Hbs). exists b. split; [by right|]. by apply Hin.
      * intros (b & [->|Hb]%elem_of_cons & Hbs).
        -- exfalso. assert (a ∈ x :: next) as [->|Ha']%elem_of_cons; [by apply Hin; auto with lia|done|].
           assert (x ∈ s /\ a <= x) as [_ ?] by (apply Hin; left).
           apply flat_set_cons in Hs' as [_ Hx]. specialize (Hx a Ha'). lia.
        -- exists b. split; [done|]. apply Hin. split; [done|]. specialize (Hlt b Hb). lia.
Qed.

Lemma set_front_least s x : flat_set s -> x ∈ s -> set_front s <= x.
Proof.
  destruct s as [|y s]; [set_solver|]. intros [_ Hy]%flat_set_cons [->|Hx]%elem_of_cons; cbn; [lia|].
  specialize (Hy x Hx). lia.
Qed.

Lemma set_back_in s : s <> [] -> set_back s ∈ s.
Proof.
  intros (l & x & ->)%exists_last. unfold set_back. rewrite last_last. set_solver.
Qed.

Lemma set_front_in s : s <> [] -> set_front s ∈ s.
Proof. destruct s; [done|left]. Qed.

Lemma set_back_greatest s x : flat_set s -> x ∈ s -> x <= set_back s.
Proof.
  intros Hs. induction s as [|y s IH]; [set_solver|]. apply flat_set_cons in Hs as [Hs Hy].
  destruct s as [|z s]; [intros [->|?]%elem_of_cons; [cbn; lia|set_solver]|].
  change (set_back (y :: z :: s)) with (set_back (z :: s)).
  intros [->|Hx]%elem_of_cons; [|by apply IH].
  specialize (Hy _ (set_back_in (z :: s) ltac:(done))). lia.
Qed.

(** The extents tell nothing the walk does not. *)
Lemma whitelist_check s actors : flat_set s -> flat_set actors -> s <> [] -> actors <> [] ->
  (if (set_front s <=? set_front actors) && (set_back actors <=? set_back s)
   then whitelist_walk s actors else false) =
  bool_decide (Forall (fun a => a ∈ s) actors).
Proof.
  intros Hs Ha Hns Hna. pose proof (whitelist_walk_subset s actors Hs Ha) as Hw.
  rewrite <- (Forall_forall (fun a => a ∈ s)) in Hw.
  case_bool_decide as Hall; destruct (_ && _) eqn:E; try done; [by apply Hw| |by destruct whitelist_walk; naive_solver].
  rewrite Forall_forall in Hall. bool_to_Z.
  pose proof (set_front_least s _ Hs (Hall _ (set_front_in _ Hna))).
  pose proof (set_back_greatest s _ Hs (Hall _ (set_back_in _ Hna))). lia.
Qed.

Lemma blacklist_check s actors : flat_set s -> flat_set actors -> s <> [] -> actors <> [] ->
  (if (set_front actors <=? set_back s) && (set_front s <=? set_back actors)
   then blacklist_walk s actors else false) =
  bool_decide (Exists (fun a => a ∈ s) actors).
Proof.
  intros Hs Ha Hns Hna. pose proof (blacklist_walk_intersects s actors Hs Ha) as Hw.
  rewrite <- Exists_exists in Hw.
  case_bool_decide as Hex; destruct (_ && _) eqn:E; try done; [by apply Hw| |by destruct blacklist_walk; naive_solver].
  apply Exists_exists in Hex as (a & Haa & Has). bool_to_Z.
  pose proof (set_front_least s a Hs Has). pose proof (set_back_greatest s a Hs Has).
  pose proof (set_front_least actors a Ha Haa). pose proof (set_back_greatest actors a Ha Haa). lia.
Qed.

(** The walk over two sorted sets behind the comparison of their extents decides
    what it stands for: with a whitelist, that every actor is on it; otherwise,
    that no actor is on the blacklist. *)
Theorem check_actor_list_spec conf actors :
  flat_set actors -> flat_set (actor_whitelist conf) -> flat_set (actor_blacklist conf) ->
  check_actor_list conf actors =
    if decide (actors = [] \/ actor_whitelist conf = [] /\ actor_blacklist conf = []) then Ok tt
    else if decide (actor_whitelist conf <> []) then
      if decide (Forall (fun a => a ∈ actor_whitelist conf) actors) then Ok tt
      else Throw actor_whitelist_exception
    else
      if decide (Exists (fun a => a ∈ actor_blacklist conf) actors) then Throw actor_blacklist_exception
      else Ok tt.
Proof.
  intros Ha Hw Hb. unfold check_actor_list. destruct actors as [|a0 actors0]; [by rewrite decide_True by auto|].
  set (actors := a0 :: actors0) in *. assert (actors <> []) as Hne by done.
  case_bool_decide as Hwl; [|case_bool_decide as Hbl].
  - rewrite decide_False by naive_solver. rewrite decide_True by done.
    rewrite whitelist_check by done. by case_bool_decide; case_decide.
  - rewrite !decide_False by naive_solver. rewrite blacklist_check by done. by case_bool_decide; case_decide.
  - rewrite decide_True; [done|]. right. destruct (actor_whitelist conf), (actor_blacklist conf); naive_solver.
Qed.

Module AccessListExample.
Definition lists : list_config := mk_lists [] [10; 20; 30] [] [] [] [].

Lemma check_actor_list_spec_witness :
  check_actor_list lists [11; 20] = Throw actor_blacklist_exception /\
  flat_set [11; 20] /\ flat_set (actor_blacklist lists).
Proof.
  split_and!; [|repeat constructor..].
  rewrite (check_actor_list_spec lists [11; 20]); [reflexivity|repeat constructor..].
Defined.
End AccessListExample.
