(* ===== verification/TransactionContext.v ===== *)
(** * Transaction context ([transaction_context.cpp])

    What surrounds the execution of a transaction's actions: the limits and
    deadlines [init] derives, the checks of the entry points, the billing timer,
    and the billing of [finalize].  Instants and durations are microseconds, as
    integers. *)

From S2P Require Import Prelude Exceptions Types Chainbase BlockTimestamp Accumulators ResourceLimits.
From S2P Require Import Authority AuthorizationManager AccessLists.

(** ** Data *)

(** [transaction_metadata::trx_type] *)
Inductive trx_type := type_input | type_implicit | type_scheduled | type_dry_run | type_read_only.
#[global] Instance trx_type_eq_dec : EqDecision trx_type.
Proof. solve_decision. Defined.

(** The fields of [transaction] read here. *)
Record transaction := mk_transaction {
  t_expiration : Z;          (* seconds *)
  t_ref_block_num : Z;
  t_ref_block_prefix : Z;
  t_max_net_usage_words : Z;
  t_max_cpu_usage_ms : Z;
  t_delay_sec : Z;
  t_context_free_actions : list action;
  t_actions : list action;
  t_extensions : list (Z * list Z) }.

Definition set_reference_block (reference_block : digest) (t : transaction) : transaction :=
  mk_transaction (t_expiration t) (u16 (endian_reverse_u32 (hash0 reference_block))) (u32 (hash1 reference_block))
    (t_max_net_usage_words t) (t_max_cpu_usage_ms t) (t_delay_sec t) (t_context_free_actions t) (t_actions t)
    (t_extensions t).

Definition verify_reference_block (t : transaction) (reference_block : digest) : bool :=
  (t_ref_block_num t =? u16 (endian_reverse_u32 (hash0 reference_block))) &&
  (t_ref_block_prefix t =? u32 (hash1 reference_block)).

(** [transaction::first_authorizer] *)
Fixpoint first_authorizer_of (actions : list action) : Z :=
  match actions with
  | [] => 0
  | a :: actions => match act_authorization a with
                    | u :: _ => actor u
                    | [] => first_authorizer_of actions
                    end
  end.
Definition first_authorizer (t : transaction) : Z := first_authorizer_of (t_actions t).

(** [chain_config]: the fields read here. *)
Record trx_config := mk_trx_config {
  max_transaction_net_usage : Z;
  base_per_transaction_net_usage : Z;
  net_usage_leeway : Z;
  context_free_discount_net_usage_num : Z;
  context_free_discount_net_usage_den : Z;
  max_transaction_cpu_usage : Z;
  min_transaction_cpu_usage : Z;
  max_transaction_lifetime : Z }.

(** What a transaction context is created with, and the controller's answers. *)
Record trx_env := mk_trx_env {
  te_trx : transaction;
  te_type : trx_type;
  te_start : Z;
  te_leeway : Z;
  te_max_transaction_time_subjective : Z;
  te_subjective_cpu_bill_us : Z;
  te_explicit_billed_cpu_time : bool;
  te_enforce_whiteblacklist : bool;
  te_cfg : trx_config;
  te_pending_block_time : Z;
  te_slot : Z;                        (* block_timestamp_type( pending_block_time ).slot *)
  te_skip_trx_checks : bool;
  te_is_speculative_block : bool;
  te_only_bill_first_authorizer : bool;
  te_disable_deferred_trxs_stage_1 : bool;
  te_greylist_limit : Z;
  te_greylist : Z -> bool;            (* is_resource_greylisted *)
  te_lists : list_config }.

Definition is_dry_run (e : trx_env) : bool := bool_decide (te_type e = type_dry_run).
Definition is_read_only (e : trx_env) : bool := bool_decide (te_type e = type_read_only).
Definition is_transient (e : trx_env) : bool := is_read_only e || is_dry_run e.

(** The codes a deadline is reported with. *)
Inductive deadline_code := code_block_cpu | code_tx_cpu | code_leeway | code_deadline.
#[global] Instance deadline_code_eq_dec : EqDecision deadline_code.
Proof. solve_decision. Defined.

Inductive tx_cpu_usage_exceeded_reason :=
| account_cpu_limit_reason
| on_chain_consensus_max_transaction_cpu_usage
| user_specified_trx_max_cpu_usage_ms
| node_configured_max_transaction_time
| speculative_executed_adjusted_max_transaction_time.

Record trx_context := mk_trx_context {
  tc_published : Z;
  tc_bill_to_accounts : list Z;         (* flat_set *)
  tc_validate_ram_usage : list Z;       (* flat_set *)
  tc_is_input : bool;
  tc_apply_context_free : bool;
  tc_scheduled : bool;
  tc_block_deadline : Z;
  tc_billed_cpu_time_us : Z;
  tc_is_initialized : bool;
  tc_net_limit : Z;
  tc_net_limit_due_to_block : bool;
  tc_net_limit_due_to_greylist : bool;
  tc_eager_net_limit : Z;
  tc_net_usage : Z;
  tc_cpu_limit_due_to_greylist : bool;
  tc_paused_time : Z;
  tc_initial_objective_duration_limit : Z;
  tc_objective_duration_limit : Z;
  tc_deadline : Z;
  tc_deadline_exception_code : deadline_code;
  tc_billing_timer_exception_code : deadline_code;
  tc_pseudo_start : Z;
  tc_billed_time : Z;
  tc_total_ram_usage : Z;
  tc_tx_cpu_usage_reason : tx_cpu_usage_exceeded_reason }.

(** [fc::time_point::maximum()] and [fc::microseconds::maximum()] *)
Definition time_maximum : Z := i64_max.

(** The constructor. *)
Definition new_trx_context (e : trx_env) (block_deadline billed_cpu_time_us : Z) : trx_context :=
  {| tc_published := 0; tc_bill_to_accounts := []; tc_validate_ram_usage := []; tc_is_input := false;
     tc_apply_context_free := true; tc_scheduled := false; tc_block_deadline := block_deadline;
     tc_billed_cpu_time_us := billed_cpu_time_us; tc_is_initialized := false; tc_net_limit := 0;
     tc_net_limit_due_to_block := true; tc_net_limit_due_to_greylist := false; tc_eager_net_limit := 0;
     tc_net_usage := 0; tc_cpu_limit_due_to_greylist := false; tc_paused_time := 0;
     tc_initial_objective_duration_limit := 0; tc_objective_duration_limit := 0;
     tc_deadline := time_maximum; tc_deadline_exception_code := code_block_cpu;
     tc_billing_timer_exception_code := code_block_cpu; tc_pseudo_start := te_start e;
     tc_billed_time := 0; tc_total_ram_usage := 0; tc_tx_cpu_usage_reason := account_cpu_limit_reason |}.

Section context.
Context {LT UT : Type} `{!ChainIndex (bool * Z) resource_limits_object LT} `{!ChainIndex Z resource_usage_object UT}.
Context {TP TU TL TG : Type} `{!ChainIndex Z permission_object TP} `{!ChainIndex Z Z TU}
  `{!ChainIndex (Z * Z * Z) Z TL} `{!ChainIndex digest generated_transaction TG}.
Local Abbreviation rl_db := (ResourceLimits.rl_db LT UT).
Local Abbreviation auth_db := (AuthorizationManager.auth_db TP TU TL TG).

(** ** Limits *)

Definition large_number_no_overflow : Z := i64_max / 2.

Record bandwidth := mk_bandwidth {
  bw_net : Z; bw_cpu : Z; bw_greylisted_net : bool; bw_greylisted_cpu : bool }.

Definition account_greylist_limit (e : trx_env) (force_elastic_limits : bool) (a : Z) : Z :=
  if negb force_elastic_limits && te_is_speculative_block e then
    if te_greylist e a then 1 else te_greylist_limit e
  else maximum_elastic_resource_multiplier.

Definition bandwidth_step (e : trx_env) (force_elastic_limits : bool) (rl : rl_db) (b : bandwidth) (a : Z)
  : res bandwidth :=
  let greylist_limit := account_greylist_limit e force_elastic_limits a in
  '(net_limit, net_was_greylisted) ← get_account_net_limit a greylist_limit rl;
  let b := if 0 <=? net_limit
           then mk_bandwidth (Z.min (bw_net b) net_limit) (bw_cpu b)
                  (bw_greylisted_net b || net_was_greylisted) (bw_greylisted_cpu b)
           else b in
  '(cpu_limit, cpu_was_greylisted) ← get_account_cpu_limit a greylist_limit rl;
  Ok (if 0 <=? cpu_limit
      then mk_bandwidth (bw_net b) (Z.min (bw_cpu b) cpu_limit)
             (bw_greylisted_net b) (bw_greylisted_cpu b || cpu_was_greylisted)
      else b).

Definition max_bandwidth_billed_accounts_can_pay (e : trx_env) (force_elastic_limits : bool)
    (bill_to_accounts : list Z) (rl : rl_db) : res bandwidth :=
  b ← foldM (bandwidth_step e force_elastic_limits rl)
        (mk_bandwidth large_number_no_overflow large_number_no_overflow false false) bill_to_accounts;
  _ ← sys_assert ((negb force_elastic_limits && te_is_speculative_block e) ||
                  (negb (bw_greylisted_cpu b) && negb (bw_greylisted_net b))) transaction_exception;
  Ok b.

Definition validate_account_cpu_usage_estimate (e : trx_env) (prev_billed_us account_cpu_limit : Z)
    (objective_duration_limit : Z) (billing_timer_exception_code : deadline_code)
    (cpu_limit_due_to_greylist : bool) : res unit :=
  if (0 <=? prev_billed_us) && negb (te_skip_trx_checks e) then
    let cpu_limited_by_account := account_cpu_limit <=? objective_duration_limit in
    if negb cpu_limited_by_account && bool_decide (billing_timer_exception_code = code_block_cpu) then
      sys_assert (prev_billed_us <? objective_duration_limit) block_cpu_usage_exceeded
    else
      let graylisted := cpu_limit_due_to_greylist && cpu_limited_by_account in
      let account_limit := if graylisted then account_cpu_limit
                           else if cpu_limited_by_account then account_cpu_limit
                           else objective_duration_limit in
      if account_limit <=? prev_billed_us then
        Throw (if graylisted then greylist_cpu_usage_exceeded else tx_cpu_usage_exceeded)
      else Ok tt
  else Ok tt.

Definition checktime (e : trx_env) (c : trx_context) (expired : bool) : res unit :=
  if negb expired then Ok tt
  else if te_explicit_billed_cpu_time e || bool_decide (tc_deadline_exception_code c = code_deadline)
  then Throw deadline_exception
  else match tc_deadline_exception_code c with
       | code_block_cpu => Throw block_cpu_usage_exceeded
       | code_tx_cpu => Throw (if tc_cpu_limit_due_to_greylist c then greylist_cpu_usage_exceeded
                               else tx_cpu_usage_exceeded)
       | code_leeway => Throw leeway_deadline_exception
       | code_deadline => Throw transaction_exception
       end.

(** [add_net_usage]; [check_net_usage] is empty. *)
Definition add_net_usage (net_usage u : Z) : Z := u64 (net_usage + u).

(** The accounts to bill: the authorizers (or the first) and the contract. *)
Definition collect_bill_to_accounts (e : trx_env) : list Z :=
  let trx := te_trx e in
  let users := if te_only_bill_first_authorizer e then flat_insert (first_authorizer trx) []
               else fold_left (fun s a => fold_left (fun s u => flat_insert (actor u) s) (act_authorization a) s)
                      (t_actions trx) [] in
  let contract_account := match t_actions trx with a :: _ => act_account a | [] => 0 end in
  if negb (contract_account =? 0) then flat_insert contract_account users else users.

(** The estimate of the previous execution may use nine tenths of what is left. *)
Definition cpu_estimate_limit (limit : Z) : Z :=
  let limit := if 0 <? limit then i64 (limit - SYS_PERCENT limit (10 * 100)) else limit in
  if limit <? 0 then 0 else limit.

(** ** [init] *)

(** The limits and the deadline while [init] lowers them. *)
Record limits := mk_limit_values {
  l_net_limit : Z;
  l_net_limit_due_to_block : bool;
  l_objective_duration_limit : Z;
  l_deadline : Z;
  l_billing_timer_exception_code : deadline_code;
  l_tx_cpu_usage_reason : tx_cpu_usage_exceeded_reason }.

Definition lower_net (cond : bool) (limit : Z) (l : limits) : limits :=
  if cond then mk_limit_values limit false (l_objective_duration_limit l) (l_deadline l)
                 (l_billing_timer_exception_code l) (l_tx_cpu_usage_reason l)
  else l.
Definition lower_duration (e : trx_env) (cond : bool) (limit : Z) (reason : tx_cpu_usage_exceeded_reason)
    (l : limits) : limits :=
  if cond then mk_limit_values (l_net_limit l) (l_net_limit_due_to_block l) limit (te_start e + limit) code_tx_cpu reason
  else l.
Definition lower_deadline (cond : bool) (deadline : Z) (code : deadline_code)
    (reason : tx_cpu_usage_exceeded_reason) (l : limits) : limits :=
  if cond then mk_limit_values (l_net_limit l) (l_net_limit_due_to_block l) (l_objective_duration_limit l)
                 deadline code reason
  else l.

(** The block's limits, lowered to those of the configuration and the transaction. *)
Definition init_limits (e : trx_env) (c : trx_context) (rl : rl_db) : limits :=
  let cfg := te_cfg e in
  let trx := te_trx e in
  let objective_duration_limit := i64 (get_block_cpu_limit rl) in
  let l := mk_limit_values (get_block_net_limit rl) (tc_net_limit_due_to_block c) objective_duration_limit
             (te_start e + objective_duration_limit) (tc_billing_timer_exception_code c) (tc_tx_cpu_usage_reason c) in
  let l := lower_net ((max_transaction_net_usage cfg <=? l_net_limit l) && negb (is_read_only e))
             (max_transaction_net_usage cfg) l in
  let l := lower_duration e ((max_transaction_cpu_usage cfg <=? l_objective_duration_limit l) && negb (is_read_only e))
             (max_transaction_cpu_usage cfg) on_chain_consensus_max_transaction_cpu_usage l in
  let trx_specified_net_usage_limit := t_max_net_usage_words trx * 8 in
  let l := lower_net ((0 <? trx_specified_net_usage_limit) && (trx_specified_net_usage_limit <=? l_net_limit l))
             trx_specified_net_usage_limit l in
  let trx_specified_cpu_usage_limit := t_max_cpu_usage_ms trx * 1000 in
  lower_duration e ((0 <? t_max_cpu_usage_ms trx) && (trx_specified_cpu_usage_limit <=? l_objective_duration_limit l))
    trx_specified_cpu_usage_limit user_specified_trx_max_cpu_usage_ms l.

(** The deadline, lowered to what the accounts can pay, to the node's own limits
    and to the block's wall clock. *)
Definition init_deadline (e : trx_env) (c : trx_context) (block_deadline account_cpu_limit : Z) (l : limits) : limits :=
  let start := te_start e in
  let l := lower_deadline (negb (is_read_only e) && (account_cpu_limit + te_leeway e <=? l_deadline l - start))
             (start + account_cpu_limit + te_leeway e) code_leeway (l_tx_cpu_usage_reason l) l in
  let subjective := te_max_transaction_time_subjective e in
  let l := lower_deadline (negb (subjective =? time_maximum) && (start + subjective <=? l_deadline l))
             (start + subjective) code_tx_cpu
             (if 0 <? tc_billed_cpu_time_us c then speculative_executed_adjusted_max_transaction_time
              else node_configured_max_transaction_time) l in
  let l := lower_deadline (block_deadline <? l_deadline l) block_deadline code_deadline (l_tx_cpu_usage_reason l) l in
  let validate_account_cpu_limit := account_cpu_limit - te_subjective_cpu_bill_us e + te_leeway e in
  lower_deadline (negb (is_read_only e) && negb (te_explicit_billed_cpu_time e) &&
                  (0 <? te_subjective_cpu_bill_us e) && (start + validate_account_cpu_limit <? l_deadline l))
    (start + validate_account_cpu_limit) code_tx_cpu account_cpu_limit_reason l.

Definition init (e : trx_env) (timer_expired : Z -> bool) (initial_net_usage : Z) (c : trx_context) (rl : rl_db)
  : res (trx_context * rl_db) :=
  _ ← sys_assert (negb (tc_is_initialized c)) transaction_exception;
  let block_deadline := if tc_block_deadline c =? time_maximum
                        then te_start e + 24 * 7 * 52 * 3600 * 1000000 else tc_block_deadline c in
  let l := init_limits e c rl in
  let initial_objective_duration_limit := l_objective_duration_limit l in
  '(accounts, b, rl) ←
    (if is_read_only e then Ok (tc_bill_to_accounts c, mk_bandwidth 0 0 false false, rl)
     else
       let accounts := collect_bill_to_accounts e in
       rl ← update_account_usage accounts (te_slot e) rl;
       b ← max_bandwidth_billed_accounts_can_pay e false accounts rl;
       Ok (accounts, b, rl));
  let net_greylist := tc_net_limit_due_to_greylist c || bw_greylisted_net b in
  let cpu_greylist := tc_cpu_limit_due_to_greylist c || bw_greylisted_cpu b in
  let eager_net_limit := l_net_limit l in
  let new_eager_net_limit := Z.min eager_net_limit (u64 (bw_net b + net_usage_leeway (te_cfg e))) in
  let lowered := negb (is_read_only e) && (new_eager_net_limit <? eager_net_limit) in
  let eager_net_limit := if lowered then new_eager_net_limit else eager_net_limit in
  let due_to_block := if lowered then false else l_net_limit_due_to_block l in
  let l := init_deadline e c block_deadline (bw_cpu b) l in
  _ ← (if negb (is_read_only e) && negb (te_explicit_billed_cpu_time e) then
         validate_account_cpu_usage_estimate e (tc_billed_cpu_time_us c)
           (cpu_estimate_limit (bw_cpu b - te_subjective_cpu_bill_us e + te_leeway e))
           (l_objective_duration_limit l) (l_billing_timer_exception_code l) cpu_greylist
       else Ok tt);
  let deadline := if te_explicit_billed_cpu_time e then block_deadline else l_deadline l in
  let code := if te_explicit_billed_cpu_time e then code_deadline else l_billing_timer_exception_code l in
  let c := {| tc_published := tc_published c; tc_bill_to_accounts := accounts;
     tc_validate_ram_usage := tc_validate_ram_usage c; tc_is_input := tc_is_input c;
     tc_apply_context_free := tc_apply_context_free c; tc_scheduled := tc_scheduled c;
     tc_block_deadline := block_deadline; tc_billed_cpu_time_us := tc_billed_cpu_time_us c;
     tc_is_initialized := true; tc_net_limit := l_net_limit l;
     tc_net_limit_due_to_block := due_to_block; tc_net_limit_due_to_greylist := net_greylist;
     tc_eager_net_limit := eager_net_limit / 8 * 8;
     tc_net_usage := if 0 <? initial_net_usage then add_net_usage (tc_net_usage c) initial_net_usage
                     else tc_net_usage c;
     tc_cpu_limit_due_to_greylist := cpu_greylist; tc_paused_time := tc_paused_time c;
     tc_initial_objective_duration_limit := initial_objective_duration_limit;
     tc_objective_duration_limit := l_objective_duration_limit l; tc_deadline := deadline;
     tc_deadline_exception_code := code; tc_billing_timer_exception_code := l_billing_timer_exception_code l;
     tc_pseudo_start := tc_pseudo_start c; tc_billed_time := tc_billed_time c;
     tc_total_ram_usage := tc_total_ram_usage c; tc_tx_cpu_usage_reason := l_tx_cpu_usage_reason l |} in
  _ ← (if te_skip_trx_checks e then Ok tt else checktime e c (timer_expired deadline));
  Ok (c, rl).

(** ** Entry points *)

Context {TA TX TS : Type} `{!ChainIndex Z unit TA} `{!ChainIndex digest Z TX} `{!ChainIndex Z digest TS}.

(** The tables a transaction context works on: the account objects, permissions,
    recorded transactions, block summaries and resource limits. *)
Record trx_dbs := mk_trx_dbs {
  db_accounts : TA;
  db_auth : auth_db;
  db_transactions : TX;
  db_block_summaries : TS;
  db_rl : rl_db }.

Definition set_rl (rl : rl_db) (d : trx_dbs) : trx_dbs :=
  mk_trx_dbs (db_accounts d) (db_auth d) (db_transactions d) (db_block_summaries d) rl.

Definition disallow_transaction_extensions {A} (e : trx_env) : res A :=
  if te_is_speculative_block e then Throw subjective_block_production_exception
  else Throw disallowed_transaction_extensions_bad_block_exception.

(** [controller::validate_expiration] and [controller::validate_tapos] *)
Definition validate_expiration (e : trx_env) : res unit :=
  let expiration := t_expiration (te_trx e) * 1000000 in
  _ ← sys_assert (te_pending_block_time e <=? expiration) expired_tx_exception;
  sys_assert (expiration <=? te_pending_block_time e + max_transaction_lifetime (te_cfg e) * 1000000)
    tx_exp_too_far_exception.

Definition validate_tapos (e : trx_env) (d : trx_dbs) : res unit :=
  fc_rethrow (
    block_id ← db_get (u16 (t_ref_block_num (te_trx e))) (db_block_summaries d);
    sys_assert (verify_reference_block (te_trx e) block_id) invalid_ref_block_exception).

Definition has_account (a : Z) (d : trx_dbs) : bool := bool_decide (is_Some (idx_find a (db_accounts d))).

Definition check_context_free_action (d : trx_dbs) (_ : unit) (a : action) : res unit :=
  _ ← sys_assert (has_account (act_account a) d) transaction_exception;
  sys_assert (bool_decide (act_authorization a = [])) transaction_exception.

Definition check_action_auth (enforce : bool) (d : trx_dbs) (acc : bool * list Z) (auth : permission_level)
  : res (bool * list Z) :=
  let '(_, actors) := acc in
  _ ← sys_assert (has_account (actor auth) d) transaction_exception;
  p ← find_permission (db_auth d) auth;
  _ ← sys_assert (bool_decide (is_Some p)) transaction_exception;
  Ok (true, if enforce then flat_insert (actor auth) actors else actors).

Definition check_referenced_action (e : trx_env) (enforce : bool) (d : trx_dbs) (acc : bool * list Z) (a : action)
  : res (bool * list Z) :=
  _ ← sys_assert (has_account (act_account a) d) transaction_exception;
  _ ← (if is_read_only e then sys_assert (bool_decide (act_authorization a = [])) transaction_exception else Ok tt);
  foldM (check_action_auth enforce d) acc (act_authorization a).

Definition validate_referenced_accounts (e : trx_env) (enforce : bool) (d : trx_dbs) : res unit :=
  let trx := te_trx e in
  _ ← (if negb (te_skip_trx_checks e) then foldM (check_context_free_action d) tt (t_context_free_actions trx)
       else Ok tt);
  '(one_auth, actors) ← foldM (check_referenced_action e enforce d) (false, []) (t_actions trx);
  _ ← sys_assert (one_auth || is_read_only e) tx_no_auths;
  if enforce then check_actor_list (te_lists e) actors else Ok tt.

Definition record_transaction (id : digest) (expire : Z) (d : trx_dbs) : res trx_dbs :=
  match idx_emplace id expire (db_transactions d) with
  | Some t => Ok (mk_trx_dbs (db_accounts d) (db_auth d) t (db_block_summaries d) (db_rl d))
  | None => Throw tx_duplicate
  end.

(** [published], [is_input], [apply_context_free] and [trace->scheduled] as the
    entry points set them. *)
Definition enter (published : Z) (is_input apply_context_free scheduled : bool) (c : trx_context) : trx_context :=
  {| tc_published := published; tc_bill_to_accounts := tc_bill_to_accounts c;
     tc_validate_ram_usage := tc_validate_ram_usage c; tc_is_input := is_input;
     tc_apply_context_free := apply_context_free; tc_scheduled := scheduled;
     tc_block_deadline := tc_block_deadline c; tc_billed_cpu_time_us := tc_billed_cpu_time_us c;
     tc_is_initialized := tc_is_initialized c; tc_net_limit := tc_net_limit c;
     tc_net_limit_due_to_block := tc_net_limit_due_to_block c;
     tc_net_limit_due_to_greylist := tc_net_limit_due_to_greylist c;
     tc_eager_net_limit := tc_eager_net_limit c; tc_net_usage := tc_net_usage c;
     tc_cpu_limit_due_to_greylist := tc_cpu_limit_due_to_greylist c; tc_paused_time := tc_paused_time c;
     tc_initial_objective_duration_limit := tc_initial_objective_duration_limit c;
     tc_objective_duration_limit := tc_objective_duration_limit c; tc_deadline := tc_deadline c;
     tc_deadline_exception_code := tc_deadline_exception_code c;
     tc_billing_timer_exception_code := tc_billing_timer_exception_code c;
     tc_pseudo_start := tc_pseudo_start c; tc_billed_time := tc_billed_time c;
     tc_total_ram_usage := tc_total_ram_usage c; tc_tx_cpu_usage_reason := tc_tx_cpu_usage_reason c |}.

Definition init_dbs (e : trx_env) (timer_expired : Z -> bool) (initial_net_usage : Z) (c : trx_context)
    (d : trx_dbs) : res (trx_context * trx_dbs) :=
  '(c, rl) ← init e timer_expired initial_net_usage c (db_rl d); Ok (c, set_rl rl d).

Definition init_for_implicit_trx (e : trx_env) (timer_expired : Z -> bool) (initial_net_usage : Z)
    (c : trx_context) (d : trx_dbs) : res (trx_context * trx_dbs) :=
  if (0 <? length (t_extensions (te_trx e)))%nat then disallow_transaction_extensions e
  else init_dbs e timer_expired initial_net_usage
         (enter (te_pending_block_time e) (tc_is_input c) (tc_apply_context_free c) (tc_scheduled c) c) d.

Definition transaction_id_net_usage : Z := 32.

(** The net usage charged before execution; the pruned data may be discounted. *)
Definition initial_net_usage_of (e : trx_env) (unprunable_size prunable_size : Z) : Z :=
  let cfg := te_cfg e in
  let num := context_free_discount_net_usage_num cfg in
  let den := context_free_discount_net_usage_den cfg in
  let discounted_size_for_pruned_data :=
    if (0 <? den) && (num <? den) then u64 (u64 (prunable_size * num) + den - 1) / den else prunable_size in
  let usage := u64 (base_per_transaction_net_usage cfg + unprunable_size + discounted_size_for_pruned_data) in
  if 0 <? t_delay_sec (te_trx e)
  then u64 (usage + (base_per_transaction_net_usage cfg + transaction_id_net_usage)) else usage.

Definition init_for_input_trx (e : trx_env) (timer_expired : Z -> bool) (id : digest)
    (unprunable_size prunable_size : Z) (c : trx_context) (d : trx_dbs) : res (trx_context * trx_dbs) :=
  _ ← (if te_disable_deferred_trxs_stage_1 e || is_transient e
       then sys_assert (t_delay_sec (te_trx e) =? 0) transaction_exception else Ok tt);
  if (0 <? length (t_extensions (te_trx e)))%nat then disallow_transaction_extensions e
  else
    let initial_net_usage := initial_net_usage_of e unprunable_size prunable_size in
    let c := enter (te_pending_block_time e) true (tc_apply_context_free c) (tc_scheduled c) c in
    _ ← (if negb (te_skip_trx_checks e) then
           _ ← (if negb (is_read_only e) then _ ← validate_expiration e; validate_tapos e d else Ok tt);
           validate_referenced_accounts e (te_enforce_whiteblacklist e && te_is_speculative_block e) d
         else Ok tt);
    '(c, d) ← init_dbs e timer_expired initial_net_usage c d;
    if negb (is_read_only e) then
      d ← record_transaction id (t_expiration (te_trx e)) d; Ok (c, d)
    else Ok (c, d).

Definition init_for_deferred_trx (e : trx_env) (timer_expired : Z -> bool) (published : Z)
    (c : trx_context) (d : trx_dbs) : res (trx_context * trx_dbs) :=
  if negb (t_expiration (te_trx e) =? 0) && (0 <? length (t_extensions (te_trx e)))%nat
  then disallow_transaction_extensions e
  else init_dbs e timer_expired 0 (enter published (tc_is_input c) false true c) d.

(** What executing the actions leaves: the RAM that [add_ram_usage] has summed up
    and the accounts it went to. *)
Definition set_ram_usage (total_ram_usage : Z) (validate_ram_usage : list Z) (c : trx_context) : trx_context :=
  {| tc_published := tc_published c; tc_bill_to_accounts := tc_bill_to_accounts c;
     tc_validate_ram_usage := validate_ram_usage; tc_is_input := tc_is_input c;
     tc_apply_context_free := tc_apply_context_free c; tc_scheduled := tc_scheduled c;
     tc_block_deadline := tc_block_deadline c; tc_billed_cpu_time_us := tc_billed_cpu_time_us c;
     tc_is_initialized := tc_is_initialized c; tc_net_limit := tc_net_limit c;
     tc_net_limit_due_to_block := tc_net_limit_due_to_block c;
     tc_net_limit_due_to_greylist := tc_net_limit_due_to_greylist c;
     tc_eager_net_limit := tc_eager_net_limit c; tc_net_usage := tc_net_usage c;
     tc_cpu_limit_due_to_greylist := tc_cpu_limit_due_to_greylist c; tc_paused_time := tc_paused_time c;
     tc_initial_objective_duration_limit := tc_initial_objective_duration_limit c;
     tc_objective_duration_limit := tc_objective_duration_limit c; tc_deadline := tc_deadline c;
     tc_deadline_exception_code := tc_deadline_exception_code c;
     tc_billing_timer_exception_code := tc_billing_timer_exception_code c;
     tc_pseudo_start := tc_pseudo_start c; tc_billed_time := tc_billed_time c;
     tc_total_ram_usage := total_ram_usage; tc_tx_cpu_usage_reason := tc_tx_cpu_usage_reason c |}.

(** ** The billing timer *)

Definition set_timer (pseudo_start billed_time paused_time deadline : Z) (code : deadline_code) (c : trx_context)
  : trx_context :=
  {| tc_published := tc_published c; tc_bill_to_accounts := tc_bill_to_accounts c;
     tc_validate_ram_usage := tc_validate_ram_usage c; tc_is_input := tc_is_input c;
     tc_apply_context_free := tc_apply_context_free c; tc_scheduled := tc_scheduled c;
     tc_block_deadline := tc_block_deadline c; tc_billed_cpu_time_us := tc_billed_cpu_time_us c;
     tc_is_initialized := tc_is_initialized c; tc_net_limit := tc_net_limit c;
     tc_net_limit_due_to_block := tc_net_limit_due_to_block c;
     tc_net_limit_due_to_greylist := tc_net_limit_due_to_greylist c;
     tc_eager_net_limit := tc_eager_net_limit c; tc_net_usage := tc_net_usage c;
     tc_cpu_limit_due_to_greylist := tc_cpu_limit_due_to_greylist c; tc_paused_time := paused_time;
     tc_initial_objective_duration_limit := tc_initial_objective_duration_limit c;
     tc_objective_duration_limit := tc_objective_duration_limit c; tc_deadline := deadline;
     tc_deadline_exception_code := code;
     tc_billing_timer_exception_code := tc_billing_timer_exception_code c;
     tc_pseudo_start := pseudo_start; tc_billed_time := billed_time;
     tc_total_ram_usage := tc_total_ram_usage c; tc_tx_cpu_usage_reason := tc_tx_cpu_usage_reason c |}.

(** The context and, when the timer is restarted, the instant it is set to. *)
Definition pause_billing_timer (e : trx_env) (now : Z) (c : trx_context) : trx_context :=
  if te_explicit_billed_cpu_time e || (tc_pseudo_start c =? 0) then c
  else set_timer 0 (now - tc_pseudo_start c) now (tc_deadline c) (tc_deadline_exception_code c) c.

Definition resume_billing_timer (e : trx_env) (now : Z) (c : trx_context) : trx_context :=
  if te_explicit_billed_cpu_time e || negb (tc_pseudo_start c =? 0) then c
  else
    let paused := now - tc_paused_time c in
    let deadline := tc_deadline c + paused in
    let late := tc_block_deadline c <? deadline in
    set_timer (now - tc_billed_time c) (tc_billed_time c) (tc_paused_time c)
      (if late then tc_block_deadline c else deadline)
      (if late then code_deadline else tc_deadline_exception_code c) c.

(** The new [billed_cpu_time_us]. *)
Definition update_billed_cpu_time (e : trx_env) (now : Z) (c : trx_context) : Z :=
  if te_explicit_billed_cpu_time e then tc_billed_cpu_time_us c
  else Z.max (now - tc_pseudo_start c) (min_transaction_cpu_usage (te_cfg e)).

(** ** [finalize] *)

(** The permissions of the declared authorizations are used now. *)
Definition use_permission (aenv : auth_env) (d : auth_db) (auth : permission_level) : res auth_db :=
  p ← get_permission d auth; update_permission_usage aenv d p.
Definition use_permissions (aenv : auth_env) (d : auth_db) (a : action) : res auth_db :=
  foldM (use_permission aenv) d (act_authorization a).

(** The lookups and comparisons [finalize] makes for the contract and for the user. *)
Definition can_pay (account greylist_limit billed_cpu_time_us net_usage total_ram_used : Z) (rl : rl_db) : res bool :=
  '(cpu, _) ← get_account_cpu_limit_ex account greylist_limit None rl;
  '(net, _) ← get_account_net_limit_ex account greylist_limit None rl;
  '(ram_limit, _, _) ← get_account_limits account rl;
  ram_usage ← get_account_ram_usage account rl;
  let unlimited_ram := ram_limit =? -1 in
  let ram_available := if unlimited_ram then -1 else i64 (ram_limit - ram_usage) in
  let can_pay_cpu := (arl_available cpu <? 0) || (billed_cpu_time_us <=? arl_available cpu) in
  let can_pay_net := (arl_available net <? 0) || (i64 net_usage <=? arl_available net) in
  let can_pay_ram := unlimited_ram || (total_ram_used <=? ram_available) in
  Ok (can_pay_cpu && can_pay_net && can_pay_ram).

Definition charge (e : trx_env) (account billed_cpu_time_us net_usage total_ram_used : Z) (rl : rl_db) : res rl_db :=
  rl ← add_pending_ram_usage account total_ram_used rl;
  _ ← verify_account_ram_usage account rl;
  add_transaction_usage [account] (u64 billed_cpu_time_us) net_usage (te_slot e) rl.

Definition contract_account (e : trx_env) : Z :=
  match t_actions (te_trx e) with a :: _ => act_account a | [] => 0 end.

(** The first account to bill that is not the contract, or the contract. *)
Definition user_account (e : trx_env) (c : trx_context) : Z :=
  match List.find (fun a => negb (a =? contract_account e)) (tc_bill_to_accounts c) with
  | Some a => if negb (a =? 0) then a else contract_account e
  | None => contract_account e
  end.

(** The contract pays, or failing that the user. *)
Definition bill (e : trx_env) (greylist_limit billed_cpu_time_us net_usage : Z) (c : trx_context) (rl : rl_db)
  : res rl_db :=
  let contract := contract_account e in
  let user := user_account e c in
  contract_can_pay ← can_pay contract greylist_limit billed_cpu_time_us net_usage (tc_total_ram_usage c) rl;
  if (contract_can_pay : bool) then charge e contract billed_cpu_time_us net_usage (tc_total_ram_usage c) rl
  else if user =? contract then Throw resource_exhausted_exception
  else
    user_can_pay ← can_pay user greylist_limit billed_cpu_time_us net_usage (tc_total_ram_usage c) rl;
    _ ← sys_assert user_can_pay resource_exhausted_exception;
    charge e user billed_cpu_time_us net_usage (tc_total_ram_usage c) rl.

(** What [finalize] leaves in the context. *)
Definition set_final (net_limit : Z) (due_to_block net_greylist cpu_greylist : bool) (eager_net_limit net_usage : Z)
    (objective_duration_limit : Z) (code : deadline_code) (reason : tx_cpu_usage_exceeded_reason)
    (billed_cpu_time_us : Z) (c : trx_context) : trx_context :=
  {| tc_published := tc_published c; tc_bill_to_accounts := tc_bill_to_accounts c;
     tc_validate_ram_usage := tc_validate_ram_usage c; tc_is_input := tc_is_input c;
     tc_apply_context_free := tc_apply_context_free c; tc_scheduled := tc_scheduled c;
     tc_block_deadline := tc_block_deadline c; tc_billed_cpu_time_us := billed_cpu_time_us;
     tc_is_initialized := tc_is_initialized c; tc_net_limit := net_limit;
     tc_net_limit_due_to_block := due_to_block; tc_net_limit_due_to_greylist := net_greylist;
     tc_eager_net_limit := eager_net_limit; tc_net_usage := net_usage;
     tc_cpu_limit_due_to_greylist := cpu_greylist; tc_paused_time := tc_paused_time c;
     tc_initial_objective_duration_limit := tc_initial_objective_duration_limit c;
     tc_objective_duration_limit := objective_duration_limit; tc_deadline := tc_deadline c;
     tc_deadline_exception_code := tc_deadline_exception_code c;
     tc_billing_timer_exception_code := code; tc_pseudo_start := tc_pseudo_start c;
     tc_billed_time := tc_billed_time c; tc_total_ram_usage := tc_total_ram_usage c;
     tc_tx_cpu_usage_reason := reason |}.

Definition round_net_usage (net_usage : Z) : Z := u64 (u64 (net_usage + 7) / 8 * 8).

Definition finalize (e : trx_env) (aenv : auth_env) (now : Z) (c : trx_context) (d : trx_dbs)
  : res (trx_context * trx_dbs) :=
  _ ← sys_assert (tc_is_initialized c) transaction_exception;
  let net_usage := round_net_usage (tc_net_usage c) in
  if is_read_only e then
    Ok (set_final (tc_net_limit c) (tc_net_limit_due_to_block c) (tc_net_limit_due_to_greylist c)
          (tc_cpu_limit_due_to_greylist c) (tc_eager_net_limit c) net_usage (tc_objective_duration_limit c)
          (tc_billing_timer_exception_code c) (tc_tx_cpu_usage_reason c) (tc_billed_cpu_time_us c) c, d)
  else
    auth ← (if tc_is_input c then foldM (use_permissions aenv) (db_auth d) (t_actions (te_trx e))
            else Ok (db_auth d));
    _ ← foldM (fun _ a => verify_account_ram_usage a (db_rl d)) tt (tc_validate_ram_usage c);
    b ← max_bandwidth_billed_accounts_can_pay e false (tc_bill_to_accounts c) (db_rl d);
    let greylist_limit := if bw_greylisted_net b || bw_greylisted_cpu b then 1
                          else maximum_elastic_resource_multiplier in
    let net_lowered := u64 (bw_net b) <=? tc_net_limit c in
    let net_limit := if net_lowered then u64 (bw_net b) else tc_net_limit c in
    let cpu_lowered := bw_cpu b <=? tc_objective_duration_limit c in
    let billed_cpu_time_us := update_billed_cpu_time e now c in
    rl ← bill e greylist_limit billed_cpu_time_us net_usage c (db_rl d);
    Ok (set_final net_limit (if net_lowered then false else tc_net_limit_due_to_block c)
          (tc_net_limit_due_to_greylist c || bw_greylisted_net b)
          (tc_cpu_limit_due_to_greylist c || bw_greylisted_cpu b) net_limit net_usage
          (if cpu_lowered then bw_cpu b else tc_objective_duration_limit c)
          (if cpu_lowered then code_tx_cpu else tc_billing_timer_exception_code c)
          (if cpu_lowered then account_cpu_limit_reason else tc_tx_cpu_usage_reason c) billed_cpu_time_us c,
        mk_trx_dbs (db_accounts d) auth (db_transactions d) (db_block_summaries d) rl).
End context.
