(* ===== verification/TransactionContextProps.v ===== *)
(** * Properties of the transaction context

    Limits and deadlines are the least of their bounds, paused time is not
    billed, an accepted input transaction is valid and new, and [finalize]
    charges one account, within its limits, for everything. *)

From S2P Require Import Prelude Exceptions Types Chainbase BlockTimestamp Accumulators ResourceLimits.
From S2P Require Import Name Authority AuthorizationManager AccessLists TransactionContext.

Section props.
Context {LT UT : Type} `{!ChainIndex (bool * Z) resource_limits_object LT} `{!ChainIndex Z resource_usage_object UT}.
Context {TP TU TL TG : Type} `{!ChainIndex Z permission_object TP} `{!ChainIndex Z Z TU}
  `{!ChainIndex (Z * Z * Z) Z TL} `{!ChainIndex digest generated_transaction TG}.
Context {TA TX TS : Type} `{!ChainIndex Z unit TA} `{!ChainIndex digest Z TX} `{!ChainIndex Z digest TS}.
Local Abbreviation rl_db := (ResourceLimits.rl_db LT UT).
Local Abbreviation auth_db := (AuthorizationManager.auth_db TP TU TL TG).
Local Abbreviation dbs := (@trx_dbs LT UT TP TU TL TG TA TX TS).
Implicit Types (e : trx_env) (c : trx_context) (rl : rl_db) (d : dbs).

(** ** What the billed accounts can pay *)

(** One pass over the accounts only lowers the bounds, and each bound that is not
    the initial one is the limit of some account. *)
Lemma bandwidth_fold e force rl accounts b b' :
  foldM (bandwidth_step e force rl) b accounts = Ok b' ->
  bw_net b' <= bw_net b /\ bw_cpu b' <= bw_cpu b /\
  (forall a, a ∈ accounts -> exists n gn p gp,
     get_account_net_limit a (account_greylist_limit e force a) rl = Ok (n, gn) /\
     get_account_cpu_limit a (account_greylist_limit e force a) rl = Ok (p, gp) /\
     (0 <= n -> bw_net b' <= n) /\ (0 <= p -> bw_cpu b' <= p)) /\
  (bw_net b' = bw_net b \/ exists a g, a ∈ accounts /\ 0 <= bw_net b' /\
     get_account_net_limit a (account_greylist_limit e force a) rl = Ok (bw_net b', g)) /\
  (bw_cpu b' = bw_cpu b \/ exists a g, a ∈ accounts /\ 0 <= bw_cpu b' /\
     get_account_cpu_limit a (account_greylist_limit e force a) rl = Ok (bw_cpu b', g)).
Proof.
  revert b. induction accounts as [|a accounts IH]; intros b; cbn [foldM].
  { intros [= <-]. split_and!; [lia..| |by left|by left]. by intros a ?%not_elem_of_nil. }
  intros (b1 & Hs & Hf)%bind_Ok. apply IH in Hf as (Hn & Hp & Hall & Hen & Hep). clear IH.
  unfold bandwidth_step in Hs. apply bind_Ok in Hs as ([n gn] & En & Hs).
  apply bind_Ok in Hs as ([p gp] & Ep & [= <-]).
  split_and!.
  - etrans; [exact Hn|]. destruct (0 <=? n), (0 <=? p); cbn; lia.
  - etrans; [exact Hp|]. destruct (0 <=? n), (0 <=? p); cbn; lia.
  - intros a' [->|Ha]%elem_of_cons; [|by apply Hall]. exists n, gn, p, gp. split_and!; [done..| |].
    + intros H0. etrans; [exact Hn|]. rewrite (proj2 (Z.leb_le _ _) H0). destruct (0 <=? p); cbn; lia.
    + intros H0. etrans; [exact Hp|]. rewrite (proj2 (Z.leb_le _ _) H0). destruct (0 <=? n); cbn; lia.
  - destruct Hen as [Hen|(a' & g & Ha & ?)]; [|right; exists a', g; split; [by right|done]].
    rewrite Hen. destruct (0 <=? n) eqn:E, (0 <=? p); cbn; try (by left); bool_to_Z;
      (destruct (Z.min_spec (bw_net b) n) as [[? ->]|[? ->]]; [by left|right; exists a, gn; split; [by left|done]]).
  - destruct Hep as [Hep|(a' & g & Ha & ?)]; [|right; exists a', g; split; [by right|done]].
    rewrite Hep. destruct (0 <=? n), (0 <=? p) eqn:E; cbn; try (by left); bool_to_Z;
      (destruct (Z.min_spec (bw_cpu b) p) as [[? ->]|[? ->]]; [by left|right; exists a, gp; split; [by left|done]]).
Qed.

(** What the billed accounts can pay is the least of the limits of the accounts
    that have one, whatever order the accounts are visited in; it is never
    negative, and so large that adding a leeway does not overflow when none has. *)
Theorem max_bandwidth_spec e force accounts rl b :
  max_bandwidth_billed_accounts_can_pay e force accounts rl = Ok b ->
  (forall a, a ∈ accounts -> exists n gn p gp,
     get_account_net_limit a (account_greylist_limit e force a) rl = Ok (n, gn) /\
     get_account_cpu_limit a (account_greylist_limit e force a) rl = Ok (p, gp) /\
     (0 <= n -> bw_net b <= n) /\ (0 <= p -> bw_cpu b <= p)) /\
  (bw_net b = large_number_no_overflow \/ exists a g, a ∈ accounts /\
     get_account_net_limit a (account_greylist_limit e force a) rl = Ok (bw_net b, g)) /\
  (bw_cpu b = large_number_no_overflow \/ exists a g, a ∈ accounts /\
     get_account_cpu_limit a (account_greylist_limit e force a) rl = Ok (bw_cpu b, g)) /\
  0 <= bw_net b <= i64_max - 2 ^ 32 /\ 0 <= bw_cpu b <= i64_max - 2 ^ 32.
Proof.
  unfold max_bandwidth_billed_accounts_can_pay. intros (b' & Hf & H)%bind_Ok.
  apply bind_Ok in H as (_ & _ & [= <-]). apply bandwidth_fold in Hf as (Hn & Hp & Hall & Hen & Hep). cbn in *.
  assert (large_number_no_overflow <= i64_max - 2 ^ 32) by (vm_compute; congruence).
  assert (0 <= large_number_no_overflow) by (vm_compute; congruence).
  assert (0 <= bw_net b') by (destruct Hen as [->|(? & ? & _ & ? & _)]; lia).
  assert (0 <= bw_cpu b') by (destruct Hep as [->|(? & ? & _ & ? & _)]; lia).
  split_and!; [done|..]; try lia.
  - destruct Hen as [?|(a & g & ? & _ & ?)]; [by left|right; by exists a, g].
  - destruct Hep as [?|(a & g & ? & _ & ?)]; [by left|right; by exists a, g].
Qed.

(** ** Limits and deadlines *)

(** A bound that may be absent. *)
Definition min_opt (x : Z) (bound : option Z) : Z := match bound with Some b => Z.min x b | None => x end.
Definition bound_if (b : bool) (v : Z) : option Z := if b then Some v else None.

Lemma lower_net_min b v l :
  let l' := lower_net (b && (v <=? l_net_limit l)) v l in
  l_net_limit l' = min_opt (l_net_limit l) (bound_if b v) /\
  l_objective_duration_limit l' = l_objective_duration_limit l /\ l_deadline l' = l_deadline l.
Proof.
  unfold lower_net, bound_if. destruct b; [|done]. cbn [andb min_opt].
  destruct (v <=? l_net_limit l) eqn:E; bool_to_Z; cbn; split_and!; lia.
Qed.

Lemma lower_duration_min e b v reason l :
  let l' := lower_duration e (b && (v <=? l_objective_duration_limit l)) v reason l in
  l_net_limit l' = l_net_limit l /\
  l_objective_duration_limit l' = min_opt (l_objective_duration_limit l) (bound_if b v) /\
  (l_deadline l = te_start e + l_objective_duration_limit l ->
   l_deadline l' = te_start e + l_objective_duration_limit l').
Proof.
  unfold lower_duration, bound_if. destruct b; [|done]. cbn [andb min_opt].
  destruct (v <=? l_objective_duration_limit l) eqn:E; bool_to_Z; cbn; split_and!; lia.
Qed.

Lemma init_limits_min e c rl :
  is_read_only e = false -> 0 <= t_max_net_usage_words (te_trx e) ->
  let l := init_limits e c rl in
  l_net_limit l =
    min_opt (Z.min (get_block_net_limit rl) (max_transaction_net_usage (te_cfg e)))
      (bound_if (0 <? t_max_net_usage_words (te_trx e)) (t_max_net_usage_words (te_trx e) * 8)) /\
  l_objective_duration_limit l =
    min_opt (Z.min (i64 (get_block_cpu_limit rl)) (max_transaction_cpu_usage (te_cfg e)))
      (bound_if (0 <? t_max_cpu_usage_ms (te_trx e)) (t_max_cpu_usage_ms (te_trx e) * 1000)) /\
  l_deadline l = te_start e + l_objective_duration_limit l.
Proof.
  intros Hro Hw. unfold init_limits. rewrite Hro. cbn [negb]. rewrite !andb_true_r.
  set (l0 := mk_limit_values _ _ _ _ _ _).
  set (l1 := lower_net (max_transaction_net_usage _ <=? _) _ l0).
  set (l2 := lower_duration e (max_transaction_cpu_usage _ <=? _) _ _ l1).
  set (l3 := lower_net _ (_ * 8) l2). set (l4 := lower_duration e _ (_ * 1000) _ l3). cbv zeta.
  destruct (lower_net_min true (max_transaction_net_usage (te_cfg e)) l0) as (N1 & O1 & D1).
  destruct (lower_duration_min e true (max_transaction_cpu_usage (te_cfg e)) on_chain_consensus_max_transaction_cpu_usage l1)
    as (N2 & O2 & D2).
  destruct (lower_net_min (0 <? t_max_net_usage_words (te_trx e) * 8) (t_max_net_usage_words (te_trx e) * 8) l2) as (N3 & O3 & D3).
  destruct (lower_duration_min e (0 <? t_max_cpu_usage_ms (te_trx e)) (t_max_cpu_usage_ms (te_trx e) * 1000)
              user_specified_trx_max_cpu_usage_ms l3) as (N4 & O4 & D4).
  cbn [andb bound_if min_opt] in N1, O1, D1, N2, O2, D2.
  fold l1 in N1, O1, D1. fold l2 in N2, O2, D2. fold l3 in N3, O3, D3. fold l4 in N4, O4, D4.
  replace (0 <? t_max_net_usage_words (te_trx e) * 8) with (0 <? t_max_net_usage_words (te_trx e)) in N3
    by (destruct (0 <? t_max_net_usage_words (te_trx e)) eqn:?, (0 <? _ * 8) eqn:?; bool_to_Z; lia).
  split_and!; [by rewrite N4, N3, N2, N1|by rewrite O4, O3, O2, O1|].
  apply D4. rewrite D3, O3. apply D2. rewrite D1, O1. done.
Qed.

Lemma init_deadline_min e c block_deadline limit l :
  is_read_only e = false -> te_explicit_billed_cpu_time e = false ->
  l_deadline (init_deadline e c block_deadline limit l) =
    min_opt (Z.min (min_opt (Z.min (l_deadline l) (te_start e + limit + te_leeway e))
                      (bound_if (negb (te_max_transaction_time_subjective e =? time_maximum))
                         (te_start e + te_max_transaction_time_subjective e))) block_deadline)
      (bound_if (0 <? te_subjective_cpu_bill_us e)
         (te_start e + (limit - te_subjective_cpu_bill_us e + te_leeway e))) /\
  l_net_limit (init_deadline e c block_deadline limit l) = l_net_limit l /\
  l_objective_duration_limit (init_deadline e c block_deadline limit l) = l_objective_duration_limit l.
Proof.
  intros Hro Hex. unfold init_deadline. rewrite Hro, Hex. cbn [negb andb]. unfold bound_if, min_opt, lower_deadline.
  set (s := te_start e). set (lw := te_leeway e). set (v := limit - _ + lw). set (m := te_max_transaction_time_subjective e).
  destruct (limit + lw <=? l_deadline l - s) eqn:?; cbn;
    (destruct (negb (m =? time_maximum)); cbn);
    try (match goal with |- context [s + m <=? ?x] => destruct (s + m <=? x) eqn:? end; cbn);
    (match goal with |- context [block_deadline <? ?x] => destruct (block_deadline <? x) eqn:? end; cbn);
    (destruct (0 <? te_subjective_cpu_bill_us e); cbn);
    try (match goal with |- context [s + v <? ?x] => destruct (s + v <? x) eqn:? end; cbn);
    bool_to_Z; split_and!; lia.
Qed.

(** After [init] the limits are the least of the bounds that apply: NET and CPU of
    the block, the configuration and the transaction; the deadline also of what the
    billed accounts can pay (plus leeway), the node's own bounds and the block's
    wall clock.  The eager NET limit is within what the accounts can pay and counts
    whole words. *)
Theorem init_spec e timer_expired initial_net_usage c rl c' rl' :
  is_read_only e = false -> te_explicit_billed_cpu_time e = false -> 0 <= t_max_net_usage_words (te_trx e) ->
  is_u32 (net_usage_leeway (te_cfg e)) -> 0 <= max_transaction_net_usage (te_cfg e) ->
  init e timer_expired initial_net_usage c rl = Ok (c', rl') ->
  exists b, max_bandwidth_billed_accounts_can_pay e false (collect_bill_to_accounts e) rl' = Ok b /\
  tc_bill_to_accounts c' = collect_bill_to_accounts e /\
  tc_net_limit c' =
    min_opt (Z.min (get_block_net_limit rl) (max_transaction_net_usage (te_cfg e)))
      (bound_if (0 <? t_max_net_usage_words (te_trx e)) (t_max_net_usage_words (te_trx e) * 8)) /\
  tc_objective_duration_limit c' =
    min_opt (Z.min (i64 (get_block_cpu_limit rl)) (max_transaction_cpu_usage (te_cfg e)))
      (bound_if (0 <? t_max_cpu_usage_ms (te_trx e)) (t_max_cpu_usage_ms (te_trx e) * 1000)) /\
  tc_deadline c' =
    min_opt (Z.min (min_opt (Z.min (te_start e + tc_objective_duration_limit c') (te_start e + bw_cpu b + te_leeway e))
                      (bound_if (negb (te_max_transaction_time_subjective e =? time_maximum))
                         (te_start e + te_max_transaction_time_subjective e))) (tc_block_deadline c'))
      (bound_if (0 <? te_subjective_cpu_bill_us e)
         (te_start e + (bw_cpu b - te_subjective_cpu_bill_us e + te_leeway e))) /\
  tc_eager_net_limit c' <= Z.min (tc_net_limit c') (bw_net b + net_usage_leeway (te_cfg e)) /\
  tc_eager_net_limit c' mod 8 = 0.
Proof.
  intros Hro Hex Hw Hlw Hmn Hi. unfold init in Hi. rewrite Hro, Hex in Hi.
  apply bind_Ok in Hi as (_ & _ & Hi). apply bind_Ok in Hi as ([[accounts b] rl1] & Hb & Hi).
  apply bind_Ok in Hi as (_ & _ & Hi). apply bind_Ok in Hi as (_ & _ & [= <- <-]).
  apply bind_Ok in Hb as (rl2 & _ & Hb). apply bind_Ok in Hb as (b2 & Hb & [= <- <- <-]).
  pose proof (init_limits_min e c rl Hro Hw) as (En & Eo & Ed).
  set (l := init_limits e c rl) in *. set (bd := if tc_block_deadline c =? time_maximum then _ else _).
  destruct (init_deadline_min e c bd (bw_cpu b2) l Hro Hex) as (Hd & Hn & Ho).
  exists b2. cbn. rewrite Hd, Hn, Ho, Ed. split_and!; try done.
  - assert (0 <= bw_net b2 <= i64_max - 2 ^ 32) as Hbn.
    { unfold max_bandwidth_billed_accounts_can_pay in Hb. apply bind_Ok in Hb as (b' & Hf & Hb).
      apply bind_Ok in Hb as (_ & _ & [= <-]). apply bandwidth_fold in Hf as (Hle & _ & _ & Hor & _). cbn in Hle.
      assert (large_number_no_overflow <= i64_max - 2 ^ 32) by (vm_compute; congruence).
      split; [|lia]. destruct Hor as [->|(? & ? & _ & ? & _)]; [vm_compute; congruence|done]. }
    unfold is_u32, i64_max in *. rewrite u64_small by lia.
    pose proof (Z.mul_div_le (l_net_limit l) 8 ltac:(lia)).
    destruct (Z.min (l_net_limit l) _ <? l_net_limit l) eqn:Elt; bool_to_Z; [|lia].
    pose proof (Z.mul_div_le (Z.min (l_net_limit l) (bw_net b2 + net_usage_leeway (te_cfg e))) 8 ltac:(lia)). lia.
  - apply Z_mod_mult.
Qed.

(** ** The billing timer *)

(** Time spent between pausing and resuming the billing timer is not billed: the
    billable time at any later instant is the time before the pause plus the time
    since the resumption, and the deadline moves by the length of the pause, but not
    past the wall clock of the block. *)
Theorem pause_resume_spec e t1 t2 t3 c :
  te_explicit_billed_cpu_time e = false -> tc_pseudo_start c <> 0 ->
  let c' := resume_billing_timer e t2 (pause_billing_timer e t1 c) in
  t3 - tc_pseudo_start c' = (t1 - tc_pseudo_start c) + (t3 - t2) /\
  tc_deadline c' = Z.min (tc_deadline c + (t2 - t1)) (tc_block_deadline c) /\
  update_billed_cpu_time e t3 c' =
    Z.max ((t1 - tc_pseudo_start c) + (t3 - t2)) (min_transaction_cpu_usage (te_cfg e)).
Proof.
  intros He Hp. unfold pause_billing_timer, resume_billing_timer, update_billed_cpu_time. rewrite He. cbn [orb].
  rewrite (proj2 (Z.eqb_neq _ _) Hp). cbn.
  destruct (tc_block_deadline c <? _) eqn:E; cbn; bool_to_Z; split_and!; lia.
Qed.

(** ** Accepted transactions *)

Lemma db_create_fresh id expire d d' : record_transaction id expire d = Ok d' ->
  idx_view (db_transactions d) !! id = None /\ idx_view (db_transactions d') !! id = Some expire /\ db_rl d' = db_rl d.
Proof.
  unfold record_transaction. destruct (idx_emplace id expire (db_transactions d)) as [t|] eqn:E; [|done].
  intros [= <-]. apply idx_emplace_view in E as [? Hv]. cbn. by rewrite Hv, lookup_insert_eq.
Qed.

Lemma check_auths_Ok enforce d acc auths acc' :
  foldM (check_action_auth enforce d) acc auths = Ok acc' ->
  (forall auth, auth ∈ auths -> has_account (actor auth) d = true /\
     exists p, find_permission (db_auth d) auth = Ok (Some p)) /\
  (acc'.1 = true -> acc.1 = true \/ auths <> []).
Proof.
  revert acc. induction auths as [|x auths IH]; intros [b actors] Hf; cbn [foldM] in Hf.
  { injection Hf as <-. split; [by intros ? ?%not_elem_of_nil|by left]. }
  apply bind_Ok in Hf as (acc1 & Hs & Hf). apply IH in Hf as [Hall _]. unfold check_action_auth in Hs.
  apply bind_Ok in Hs as (_ & Ha%sys_assert_Ok & Hs). apply bind_Ok in Hs as (p & Hp & Hs).
  apply bind_Ok in Hs as (_ & Hsome%sys_assert_Ok%bool_decide_eq_true & _). destruct Hsome as [q ->].
  split; [|by right]. intros auth [->|Hin]%elem_of_cons; eauto.
Qed.

Lemma referenced_accounts_Ok e enforce d actions acc acc' :
  foldM (check_referenced_action e enforce d) acc actions = Ok acc' ->
  (forall a, a ∈ actions -> has_account (act_account a) d = true /\
     forall auth, auth ∈ act_authorization a -> has_account (actor auth) d = true /\
       exists p, find_permission (db_auth d) auth = Ok (Some p)) /\
  (acc'.1 = true -> acc.1 = true \/ exists a, a ∈ actions /\ act_authorization a <> []).
Proof.
  revert acc. induction actions as [|x actions IH]; intros acc Hf; cbn [foldM] in Hf.
  { injection Hf as <-. split; [by intros ? ?%not_elem_of_nil|by left]. }
  apply bind_Ok in Hf as (acc1 & Hs & Hf). apply IH in Hf as [Hall Hone]. unfold check_referenced_action in Hs.
  apply bind_Ok in Hs as (_ & Ha%sys_assert_Ok & Hs). apply bind_Ok in Hs as (_ & _ & Hs).
  apply check_auths_Ok in Hs as [Hauths Hone1]. split.
  - intros a [->|Hin]%elem_of_cons; auto.
  - intros [H1|(a & ? & ?)]%Hone; [|right; exists a; split; [by right|done]].
    destruct (Hone1 H1) as [?|?]; [by left|right; exists x; split; [left|done]].
Qed.

(** An input transaction that is accepted has not expired and expires within the
    allowed lifetime, refers to a block of this chain, names only accounts and
    permissions that exist with at least one authorization, has been recorded and
    had not been before: it cannot be accepted twice. *)
Theorem init_for_input_trx_spec e timer_expired id unprunable prunable c d c' d' :
  te_skip_trx_checks e = false -> is_read_only e = false ->
  init_for_input_trx e timer_expired id unprunable prunable c d = Ok (c', d') ->
  let trx := te_trx e in
  te_pending_block_time e <= t_expiration trx * 1000000 <=
    te_pending_block_time e + max_transaction_lifetime (te_cfg e) * 1000000 /\
  (exists block_id, idx_view (db_block_summaries d) !! u16 (t_ref_block_num trx) = Some block_id /\
     verify_reference_block trx block_id = true) /\
  (forall a, a ∈ t_actions trx -> has_account (act_account a) d = true /\
     forall auth, auth ∈ act_authorization a -> has_account (actor auth) d = true /\
       exists p, find_permission (db_auth d) auth = Ok (Some p)) /\
  (exists a, a ∈ t_actions trx /\ act_authorization a <> []) /\
  idx_view (db_transactions d) !! id = None /\ idx_view (db_transactions d') !! id = Some (t_expiration trx).
Proof.
  intros Hsk Hro H trx. unfold init_for_input_trx in H. rewrite Hsk, Hro in H. cbn [negb] in H.
  apply bind_Ok in H as (_ & _ & H). destruct (_ <? _)%nat; [unfold disallow_transaction_extensions in H; by destruct (te_is_speculative_block e)|].
  apply bind_Ok in H as ([] & Hv & H). apply bind_Ok in H as ([c1 d1] & Hi & H).
  apply bind_Ok in H as (d2 & Hr & [= <- <-]). apply db_create_fresh in Hr as (Hfresh & Hrec & _).
  unfold init_dbs in Hi. apply bind_Ok in Hi as ([c2 rl2] & _ & [= <- <-]). cbn in Hfresh.
  apply bind_Ok in Hv as ([] & Hv1 & Hv2). apply bind_Ok in Hv1 as ([] & He & Ht).
  unfold validate_expiration in He. apply bind_Ok in He as (_ & He1%sys_assert_Ok & He2%sys_assert_Ok).
  unfold validate_tapos in Ht. apply (proj1 (fc_rethrow_Ok _ _)) in Ht. apply bind_Ok in Ht as (bid & Hb%db_get_Ok & Hvr%sys_assert_Ok).
  unfold validate_referenced_accounts in Hv2. apply bind_Ok in Hv2 as (_ & _ & Hv2).
  apply bind_Ok in Hv2 as ([one actors] & Hra & Hv2). apply bind_Ok in Hv2 as (_ & Hone%sys_assert_Ok & _).
  rewrite Hro, orb_false_r in Hone. subst one. apply referenced_accounts_Ok in Hra as [Hall Hex].
  bool_to_Z. split_and!; try done; [by exists bid|by destruct (Hex eq_refl)].
Qed.

(** ** Billing *)

Local Abbreviation usage rl := (idx_view (usage_idx rl)).

Lemma add_pending_ram_usage_moves a delta rl rl' u :
  usage rl !! a = Some u -> is_u64 (ram_usage u) -> is_i64 delta ->
  add_pending_ram_usage a delta rl = Ok rl' ->
  is_u64 (ram_usage u + delta) /\
  usage rl' = <[a := mk_usage (net_usage u) (cpu_usage u) (ram_usage u + delta)]> (usage rl) /\
  limits_idx rl' = limits_idx rl /\ rl_state rl' = rl_state rl /\ rl_config rl' = rl_config rl.
Proof.
  unfold is_u64, is_i64. intros Hu Hr Hd H. unfold add_pending_ram_usage in H. destruct (delta =? 0) eqn:E0; bool_to_Z.
  { subst delta. injection H as <-. rewrite Z.add_0_r. split_and!; [lia..| |done|done|done].
    symmetry. apply insert_id. by destruct u. }
  apply bind_Ok in H as (u1 & Hu1%db_get_Ok & H). assert (u1 = u) as -> by congruence.
  apply bind_Ok in H as (_ & H1%sys_assert_Ok & H). apply bind_Ok in H as (_ & H2%sys_assert_Ok & H).
  apply bind_Ok in H as (ut & Hm & [= <-]). apply db_modify_view in Hm as (v & v' & Hv & [= <-] & Hut). cbn.
  assert (v = u) as -> by congruence.
  assert (0 <= ram_usage u + delta < 2 ^ 64).
  { destruct (decide (0 < delta)).
    - destruct (delta <=? 0) eqn:E1; bool_to_Z; [lia|]. cbn in H1. bool_to_Z. rewrite u64_small in H1 by lia. unfold u64_max in H1. lia.
    - destruct (0 <=? delta) eqn:E1; bool_to_Z; [lia|]. cbn in H2. bool_to_Z. rewrite u64_neg_i64 in H2 by lia. lia. }
  rewrite Hut, u64_small by done. done.
Qed.

(** What a charge does: RAM, CPU and NET of one account, within its limits. *)
Record charged e (payer cpu net ram : Z) rl rl' : Prop := {
  ch_ram : exists u u', usage rl !! payer = Some u /\ usage rl' !! payer = Some u' /\
    ram_usage u' = ram_usage u + ram /\ is_u64 (ram_usage u') /\
    ema_add (cpu_usage u) cpu (te_slot e) (account_cpu_usage_average_window (rl_config rl)) = Ok (cpu_usage u') /\
    ema_add (net_usage u) net (te_slot e) (account_net_usage_average_window (rl_config rl)) = Ok (net_usage u') /\
    (forall r, limits_view rl payer = Some r -> 0 <= ram_bytes r -> ram_usage u' <= ram_bytes r);
  ch_within : within_limits rl' payer;
  ch_others : forall a, a <> payer -> usage rl' !! a = usage rl !! a;
  ch_limits : limits_idx rl' = limits_idx rl;
  ch_block : pending_cpu_usage (rl_state rl') <= elp_max (cpu_limit_parameters (rl_config rl)) /\
    pending_net_usage (rl_state rl') <= elp_max (net_limit_parameters (rl_config rl)) }.

Definition ram_in_range rl : Prop := forall a u, usage rl !! a = Some u -> is_u64 (ram_usage u).

Lemma charge_charges e a cpu net ram rl rl' :
  ram_in_range rl -> is_i64 ram -> charge e a cpu net ram rl = Ok rl' -> charged e a (u64 cpu) net ram rl rl'.
Proof.
  intros Hrange Hram H. unfold charge in H. apply bind_Ok in H as (rl1 & Hp & H).
  apply bind_Ok in H as ([] & Hv & H). unfold add_transaction_usage in H. cbn [foldM] in H.
  apply bind_Ok in H as (rl2 & Ha & H). apply bind_Ok in Ha as (rl2' & Ha & [= ->]).
  apply bind_Ok in H as (_ & Hc%sys_assert_Ok & H). apply bind_Ok in H as (_ & Hn%sys_assert_Ok & [= <-]).
  apply add_account_usage_Ok in Ha as (u1 & u' & r & Hu1 & Hr & Hnet & Hcpu & Hkeep & Hus & Hl & Hst & Hcf & Hw1 & Hw2).
  assert (exists u, usage rl !! a = Some u) as [u Hu].
  { unfold add_pending_ram_usage in Hp. destruct (ram =? 0); [injection Hp as <-; eauto|].
    apply bind_Ok in Hp as (u & Hu%db_get_Ok & _). eauto. }
  destruct (add_pending_ram_usage_moves a ram rl rl1 u Hu (Hrange a u Hu) Hram Hp) as (Hin & Hus1 & Hl1 & Hst1 & Hcf1).
  rewrite Hus1, lookup_insert_eq in Hu1. injection Hu1 as <-. cbn in *.
  assert (limits_view rl1 a = limits_view rl a) as Hlv by (unfold limits_view; by rewrite Hl1).
  split; cbn.
  - exists u, u'. rewrite Hcf1 in Hnet, Hcpu. rewrite Hus, lookup_insert_eq, Hkeep. split_and!; try done.
    intros r' Hr' Hpos. unfold verify_account_ram_usage in Hv.
    rewrite get_account_limits_view, Hlv, Hr' in Hv. cbn [mbind result_bind] in Hv.
    apply bind_Ok in Hv as (v & Hv1%db_get_Ok & Hv). rewrite Hus1, lookup_insert_eq in Hv1. injection Hv1 as <-.
    rewrite (proj2 (Z.leb_le _ _) Hpos) in Hv. apply sys_assert_Ok in Hv. cbn in Hv. by bool_to_Z.
  - intros u2 r2 Hu2 Hr2. cbn in *. rewrite Hus, lookup_insert_eq in Hu2. injection Hu2 as <-.
    assert (r2 = r) as ->. { unfold limits_view in Hr2, Hr. cbn in Hr2. rewrite Hl in Hr2. congruence. }
    rewrite Hst, Hcf. done.
  - intros b Hb. by rewrite Hus, Hus1, !lookup_insert_ne.
  - by rewrite Hl, Hl1.
  - rewrite Hst, Hcf, Hst1, Hcf1 in Hc, Hn. rewrite Hst, Hst1. bool_to_Z. done.
Qed.

Lemma bill_payer e gl cpu net c rl rl' :
  bill e gl cpu net c rl = Ok rl' ->
  exists payer, charge e payer cpu net (tc_total_ram_usage c) rl = Ok rl' /\
    can_pay payer gl cpu net (tc_total_ram_usage c) rl = Ok true /\
    (payer = contract_account e \/
     payer = user_account e c /\ payer <> contract_account e /\
     can_pay (contract_account e) gl cpu net (tc_total_ram_usage c) rl = Ok false).
Proof.
  unfold bill. intros (b & Hb & H)%bind_Ok. destruct b; [by exists (contract_account e); auto|].
  destruct (user_account e c =? contract_account e) eqn:E; [done|]. bool_to_Z.
  apply bind_Ok in H as (b & Hu & H). apply bind_Ok in H as (_ & ->%sys_assert_Ok & H).
  exists (user_account e c). auto 10.
Qed.

(** C24: A transaction is paid for by exactly one account: the contract of its first
    action if it can afford all of CPU, NET and RAM, otherwise another billed
    account that can.  That account is charged the whole CPU time, the NET usage
    and all the RAM, and ends within its limits; no other account's usage moves. *)
Theorem bill_spec e gl cpu net c rl rl' :
  ram_in_range rl -> is_i64 (tc_total_ram_usage c) -> bill e gl cpu net c rl = Ok rl' ->
  exists payer, charged e payer (u64 cpu) net (tc_total_ram_usage c) rl rl' /\
    can_pay payer gl cpu net (tc_total_ram_usage c) rl = Ok true /\
    (payer = contract_account e \/
     payer = user_account e c /\ payer <> contract_account e /\
     can_pay (contract_account e) gl cpu net (tc_total_ram_usage c) rl = Ok false).
Proof.
  intros Hr Hi (payer & Hc & Hrest)%bill_payer. exists payer. split; [by apply charge_charges|done].
Qed.

(** When the contract cannot pay and there is no other account to bill, or that one
    cannot pay either, the transaction fails, and it fails so only then. *)
Theorem bill_exhausted e gl cpu net c rl bc bu :
  can_pay (contract_account e) gl cpu net (tc_total_ram_usage c) rl = Ok bc ->
  can_pay (user_account e c) gl cpu net (tc_total_ram_usage c) rl = Ok bu ->
  bill e gl cpu net c rl =
    if bc then charge e (contract_account e) cpu net (tc_total_ram_usage c) rl
    else if bu && negb (user_account e c =? contract_account e)
    then charge e (user_account e c) cpu net (tc_total_ram_usage c) rl
    else Throw resource_exhausted_exception.
Proof.
  intros Hc Hu. unfold bill. rewrite Hc. cbn [mbind result_bind]. destruct bc; [done|].
  destruct (user_account e c =? contract_account e); [by rewrite andb_false_r|]. rewrite Hu. by destruct bu.
Qed.
(** C40: RAM that a transaction frees is given back to the account that pays for the
    transaction, whoever was charged for it: when the contract of the first action can
    pay and is itself charged for less RAM than the transaction frees, billing throws
    [transaction_exception], and so the transaction fails. *)
Theorem refund_goes_to_contract e gl cpu net c rl u :
  idx_view (usage_idx rl) !! contract_account e = Some u ->
  0 <= ram_usage u < - tc_total_ram_usage c -> - tc_total_ram_usage c <= 2 ^ 63 ->
  can_pay (contract_account e) gl cpu net (tc_total_ram_usage c) rl = Ok true ->
  bill e gl cpu net c rl = Throw transaction_exception.
Proof.
  intros Hu Hr Hb Hp. unfold bill. rewrite Hp. cbn [mbind result_bind]. unfold charge.
  pose proof (add_pending_ram_usage_spec (contract_account e) (tc_total_ram_usage c) rl u Hu) as H.
  unfold is_u64, is_i64 in H. rewrite bool_decide_eq_false_2 in H by lia. by rewrite H by lia.
Qed.
End props.

(** ** A contract without RAM and a user who pays *)

Module TransactionExample.

Local Abbreviation rl_db := (ResourceLimits.rl_db (gmap (bool * Z) resource_limits_object) (gmap Z resource_usage_object)).
Local Abbreviation auth_db := (AuthorizationManager.auth_db (gmap Z permission_object) (gmap Z Z) (gmap (Z * Z * Z) Z)
  (gmap digest generated_transaction)).
Local Abbreviation dbs := (@trx_dbs (gmap (bool * Z) resource_limits_object) (gmap Z resource_usage_object)
  (gmap Z permission_object) (gmap Z Z) (gmap (Z * Z * Z) Z) (gmap digest generated_transaction)
  (gmap Z unit) (gmap digest Z) (gmap Z digest)).

Definition alice : Z := AuthWitness.alice.
Definition contract : Z := Eval vm_compute in n_ "contract".
Definition alice_active : permission_level := mk_level alice active_name.

Definition block_id : digest := mk_digest (endian_reverse_u32 7) 99 0 0.
Definition trx : transaction :=
  set_reference_block block_id (mk_transaction 1100 0 0 0 5 0 [] [mk_action contract 1 [alice_active] []] []).
Definition cfg : trx_config := mk_trx_config 524288 12 500 20 100 150000 100 3600.
Definition env : trx_env :=
  mk_trx_env trx type_input 5000 1000 time_maximum 0 false true cfg 1000000000 20 false true true true 1000
    (fun _ => false) (mk_lists [] [] [] [] [] []).

Definition run (m : res rl_db) : rl_db := match m with Ok d => d | Throw _ => ResourceLimits.initialize_database end.
Definition accounts_rl : rl_db :=
  run (initialize_account contract ResourceLimits.initialize_database ≫= initialize_account alice).
Definition rl0 : rl_db := run (r ← set_account_limits contract 0 (-1) (-1) accounts_rl; Ok r.2).
Definition d0 : dbs := mk_trx_dbs {[contract := tt; alice := tt]} AuthWitness.d3 ∅ {[7 := block_id]} rl0.

Definition entered : res (trx_context * dbs) :=
  init_for_input_trx env (fun _ => false) (mk_digest 5 0 0 0) 100 50 (new_trx_context env 900000 0) d0.
Definition c1 : trx_context := match entered with Ok (c, _) => c | Throw _ => new_trx_context env 0 0 end.
Definition d1 : dbs := match entered with Ok (_, d) => d | Throw _ => d0 end.

Lemma entered_ok : entered = Ok (c1, d1).
Proof.
  assert (match entered with Ok _ => true | Throw _ => false end = true) as H by (vm_compute; reflexivity).
  unfold c1, d1. destruct entered as [[c d]|e]; [reflexivity|discriminate H].
Qed.

Lemma init_for_input_trx_spec_witness :
  1000000000 <= t_expiration trx * 1000000 /\ idx_view (db_transactions d1) !! mk_digest 5 0 0 0 = Some 1100.
Proof.
  destruct (init_for_input_trx_spec env (fun _ => false) (mk_digest 5 0 0 0) 100 50 (new_trx_context env 900000 0) d0 c1 d1
              eq_refl eq_refl entered_ok) as ([H1 _] & _ & _ & _ & _ & H2).
  split; [exact H1|exact H2].
Defined.

Lemma max_bandwidth_spec_witness :
  exists b, max_bandwidth_billed_accounts_can_pay env false [alice; contract] (db_rl d1) = Ok b /\
    0 <= bw_cpu b <= i64_max - 2 ^ 32.
Proof.
  exists (mk_bandwidth large_number_no_overflow large_number_no_overflow false false).
  assert (max_bandwidth_billed_accounts_can_pay env false [alice; contract] (db_rl d1) =
            Ok (mk_bandwidth large_number_no_overflow large_number_no_overflow false false)) as H by (vm_compute; reflexivity).
  split; [exact H|]. exact (proj2 (proj2 (proj2 (proj2 (max_bandwidth_spec _ _ _ _ _ H))))).
Defined.

Definition inited : res (trx_context * rl_db) := init env (fun _ => false) 122 (new_trx_context env 900000 0) rl0.
Definition c2 : trx_context := match inited with Ok (c, _) => c | Throw _ => c1 end.
Definition rl2 : rl_db := match inited with Ok (_, d) => d | Throw _ => rl0 end.

Lemma init_spec_witness : tc_objective_duration_limit c2 = 5000 /\ tc_eager_net_limit c2 mod 8 = 0.
Proof.
  assert (inited = Ok (c2, rl2)) as H.
  { assert (match inited with Ok _ => true | Throw _ => false end = true) as Hb by (vm_compute; reflexivity).
    unfold c2, rl2. destruct inited as [[c d]|e]; [reflexivity|discriminate Hb]. }
  destruct (init_spec env (fun _ => false) 122 (new_trx_context env 900000 0) rl0 c2 rl2) as (b & _ & _ & _ & Ho & _ & _ & Hm);
    [reflexivity|reflexivity|vm_compute; congruence|split; vm_compute; congruence|vm_compute; congruence|exact H|].
  split; [rewrite Ho; vm_compute; reflexivity|exact Hm].
Defined.

Lemma pause_resume_spec_witness :
  update_billed_cpu_time env 9000 (resume_billing_timer env 8000 (pause_billing_timer env 6000 c1)) = 2000.
Proof.
  destruct (pause_resume_spec env 6000 8000 9000 c1) as (_ & _ & H); [reflexivity|vm_compute; congruence|].
  rewrite H. vm_compute. reflexivity.
Defined.

(** The contract has no RAM left: Alice pays for a row of 100 bytes. *)
Definition store : trx_context := set_ram_usage 100 [alice] c1.
Definition rl1 : rl_db := run (bill env 1000 500 128 store (db_rl d1)).

Lemma rl1_ok : bill env 1000 500 128 store (db_rl d1) = Ok rl1.
Proof. vm_compute. reflexivity. Qed.

Lemma d1_range : ram_in_range (db_rl d1).
Proof.
  unfold ram_in_range. change (map_Forall (fun _ u => is_u64 (ram_usage u)) (idx_view (usage_idx (db_rl d1)))).
  apply (bool_decide_unpack _). vm_compute. exact I.
Qed.

Lemma bill_spec_witness :
  exists payer, charged env payer 500 128 100 (db_rl d1) rl1 /\ payer <> contract_account env.
Proof.
  destruct (bill_spec env 1000 500 128 store (db_rl d1) rl1 d1_range ltac:(split; vm_compute; congruence) rl1_ok)
    as (payer & H & Hp & _).
  exists payer. split; [exact H|]. intros ->. vm_compute in Hp. discriminate Hp.
Defined.

Lemma bill_exhausted_witness :
  bill env 1000 500 128 (set_ram_usage 100 [] (enter 0 true true false (new_trx_context env 0 0))) rl0 =
    Throw resource_exhausted_exception.
Proof.
  rewrite (bill_exhausted env 1000 500 128 (set_ram_usage 100 [] (enter 0 true true false (new_trx_context env 0 0))) rl0
             false false); vm_compute; reflexivity.
Defined.

(** Alice paid for the row; the transaction that removes it cannot be billed. *)
Lemma refund_goes_to_contract_witness :
  get_account_ram_usage alice rl1 = Ok 100 /\ bill env 1000 500 128 (set_ram_usage (-100) [] c1) rl1 = Throw transaction_exception.
Proof.
  split; [vm_compute; reflexivity|].
  refine (refund_goes_to_contract env 1000 500 128 (set_ram_usage (-100) [] c1) rl1
            (mk_usage (mk_usage_accumulator 20 0 0) (mk_usage_accumulator 20 0 0) 0) _ _ _ _);
    [vm_compute; reflexivity|cbn; lia|cbn; lia|vm_compute; reflexivity].
Defined.
End TransactionExample.
