(* ===== verification/ObjectIndex.v ===== *)
(** * Object tables with ids and ordered indices (chainbase)

    Contract tables are chainbase tables whose objects carry an id the table
    hands out, are reached through pointers, and are walked in the order of a
    composite key.  chainbase is a separate package, so such a table is again a
    parameter: [ObjectIndex] states what the chain library relies on.  The id of
    an object stands for its address: ids are handed out in increasing order and
    belong to one object.  [obj_table] is the instance the witnesses run.

    The walks of an ordered index ([lower_bound], [upper_bound], [++], [--]) are
    determined by its rows and its comparison, and are defined here. *)

From S2P Require Import Prelude Exceptions.

(** [conflict v w]: the rows [v] and [w] agree on a unique key of the table. *)
Class ObjectIndex (V T : Type) (conflict : V -> V -> bool) := {
  obj_find : Z -> T -> option V;                   (* the object at an address *)
  obj_create : V -> T -> option (Z * T);           (* create: None on a taken key *)
  obj_modify : Z -> (V -> V) -> T -> option T;     (* modify: None on a taken key *)
  obj_remove : Z -> T -> T;                        (* remove *)
  obj_rows : T -> list (Z * V);

  obj_view : T -> gmap Z V;
  obj_next_id : T -> Z;
  obj_find_view i t : obj_find i t = obj_view t !! i;
  obj_rows_view t : obj_rows t ≡ₚ map_to_list (obj_view t);
  obj_create_view v t i t' : obj_create v t = Some (i, t') ->
    i = obj_next_id t /\ obj_next_id t' = i + 1 /\ obj_view t' = <[i := v]> (obj_view t) /\
    forall j w, obj_view t !! j = Some w -> conflict v w = false;
  obj_create_free v t :
    (forall j w, obj_view t !! j = Some w -> conflict v w = false) -> is_Some (obj_create v t);
  obj_modify_view i f t t' : obj_modify i f t = Some t' ->
    obj_next_id t' = obj_next_id t /\ obj_view t' = alter f i (obj_view t) /\
    forall j v w, obj_view t !! i = Some v -> obj_view t !! j = Some w -> j <> i ->
      conflict (f v) w = false;
  obj_modify_free i f t :
    (forall j v w, obj_view t !! i = Some v -> obj_view t !! j = Some w -> j <> i ->
      conflict (f v) w = false) -> is_Some (obj_modify i f t);
  obj_remove_view i t :
    obj_view (obj_remove i t) = delete i (obj_view t) /\ obj_next_id (obj_remove i t) = obj_next_id t;
}.

#[global] Hint Mode ObjectIndex - ! - : typeclass_instances.

(** ** The instance of the witnesses *)

Record obj_table {V : Type} (conflict : V -> V -> bool) :=
  mk_obj_table { ot_next : Z; ot_rows : gmap Z V }.
Arguments mk_obj_table {V conflict}.
Arguments ot_next {V conflict}.
Arguments ot_rows {V conflict}.

Section instance.
Context {V : Type} (conflict : V -> V -> bool).

Definition free_of (v : V) (rows : list (Z * V)) : bool :=
  forallb (fun r => negb (conflict v r.2)) rows.

Lemma free_of_spec v (m : gmap Z V) :
  free_of v (map_to_list m) = true <-> forall j w, m !! j = Some w -> conflict v w = false.
Proof.
  unfold free_of. rewrite forallb_forall. split.
  - intros H j w Hw. apply negb_true_iff, (H (j, w)), list_elem_of_In. by apply elem_of_map_to_list.
  - intros H [j w] Hin. apply negb_true_iff, (H j w). by apply elem_of_map_to_list, list_elem_of_In.
Qed.

Definition ot_create (v : V) (t : obj_table conflict) : option (Z * obj_table conflict) :=
  if free_of v (map_to_list (ot_rows t))
  then Some (ot_next t, mk_obj_table (ot_next t + 1) (<[ot_next t := v]> (ot_rows t))) else None.

Definition ot_modify (i : Z) (f : V -> V) (t : obj_table conflict) : option (obj_table conflict) :=
  match ot_rows t !! i with
  | None => Some t
  | Some v => if free_of (f v) (map_to_list (delete i (ot_rows t)))
              then Some (mk_obj_table (ot_next t) (alter f i (ot_rows t))) else None
  end.

#[global] Program Instance obj_table_index : ObjectIndex V (obj_table conflict) conflict := {
  obj_find i t := ot_rows t !! i;
  obj_create := ot_create;
  obj_modify := ot_modify;
  obj_remove i t := mk_obj_table (ot_next t) (delete i (ot_rows t));
  obj_rows t := map_to_list (ot_rows t);
  obj_view := ot_rows;
  obj_next_id := ot_next;
}.
Next Obligation. done. Qed.
Next Obligation. done. Qed.
Next Obligation.
  unfold ot_create. intros v t i t'. destruct (free_of _ _) eqn:E; [|done]. intros [= <- <-].
  by rewrite free_of_spec in E.
Qed.
Next Obligation.
  unfold ot_create. intros v t H. apply free_of_spec in H. rewrite H. eauto.
Qed.
Next Obligation.
  unfold ot_modify. intros i f t t'. destruct (ot_rows t !! i) as [v|] eqn:Hi.
  - destruct (free_of _ _) eqn:E; [|done]. intros [= <-]. rewrite free_of_spec in E.
    split_and!; [done..|]. intros j v' w [= <-] Hj Hne. apply (E j). by rewrite lookup_delete_ne.
  - intros [= <-]. split_and!; [done| |done].
    apply map_eq; intros j. destruct (decide (i = j)) as [<-|]; by simplify_map_eq.
Qed.
Next Obligation.
  unfold ot_modify. intros i f t H. destruct (ot_rows t !! i) as [v|] eqn:Hi; [|eauto].
  assert (free_of (f v) (map_to_list (delete i (ot_rows t))) = true) as ->; [|eauto].
  apply free_of_spec. intros j w [Hne Hj]%lookup_delete_Some. eauto.
Qed.
Next Obligation. done. Qed.
End instance.

(** ** Walking an ordered index *)

Section walk.
Context {R : Type} (less : R -> R -> bool).

(** The first row of an index with comparison [less]: [begin()]. *)
Fixpoint first_by (rows : list R) : option R :=
  match rows with
  | [] => None
  | r :: rows => match first_by rows with
                 | None => Some r
                 | Some m => if less r m then Some r else Some m
                 end
  end.

(** The first row that satisfies [p]; [lower_bound] and [upper_bound] with [p]
    true from the bound on. *)
Definition bound_by (p : R -> bool) (rows : list R) : option R := first_by (List.filter p rows).
(** [++itr] at [r]. *)
Definition next_by (r : R) (rows : list R) : option R := bound_by (less r) rows.
End walk.

(** [--itr] from a position: the last row for which [p] holds, [p] true before
    the position. *)
Definition last_by {R} (less : R -> R -> bool) (p : R -> bool) (rows : list R) : option R :=
  bound_by (fun a b => less b a) p rows.
(** [--itr] at [r]. *)
Definition prev_by {R} (less : R -> R -> bool) (r : R) (rows : list R) : option R :=
  last_by less (fun x => less x r) rows.

(** A strict order, as [std::less] and the composite comparisons are. *)
Class StrictLess {R} (less : R -> R -> bool) : Prop := {
  less_irrefl x : less x x = false;
  less_trans x y z : less x y = true -> less y z = true -> less x z = true;
}.

Lemma flip_less {R} (less : R -> R -> bool) :
  StrictLess less -> StrictLess (fun a b => less b a).
Proof. intros []. split; eauto. Qed.

Section walk_lemmas.
Context {R : Type} (less : R -> R -> bool) `{!StrictLess less}.

Lemma first_by_None rows : first_by less rows = None <-> rows = [].
Proof. destruct rows as [|r rows]; cbn; [done|]. destruct (first_by less rows); [case_match|]; done. Qed.

Lemma first_by_Some rows r :
  first_by less rows = Some r -> r ∈ rows /\ forall x, x ∈ rows -> less x r = false.
Proof.
  revert r; induction rows as [|a rows IH]; intros r; cbn; [done|].
  destruct (first_by less rows) as [m|] eqn:E.
  - destruct (IH m eq_refl) as [Hm Hmin]. destruct (less a m) eqn:Ha; intros [= <-].
    + split; [left|]. intros x [->|Hx]%elem_of_cons; [apply less_irrefl|].
      destruct (less x a) eqn:Hxa; [|done]. pose proof (less_trans _ _ _ Hxa Ha). by rewrite Hmin in *.
    + split; [by right|]. intros x [->|Hx]%elem_of_cons; auto.
  - apply first_by_None in E as ->. intros [= <-]. split; [left|].
    intros x [->|[]%elem_of_nil]%elem_of_cons. apply less_irrefl.
Qed.

Lemma bound_by_Some p rows r :
  bound_by less p rows = Some r ->
  r ∈ rows /\ p r = true /\ forall x, x ∈ rows -> p x = true -> less x r = false.
Proof.
  intros [[? ?]%elem_of_List_filter Hmin]%first_by_Some. split_and!; [done..|].
  intros x ? ?. apply Hmin. by apply elem_of_List_filter.
Qed.

Lemma bound_by_None p rows : bound_by less p rows = None <-> forall x, x ∈ rows -> p x = false.
Proof.
  unfold bound_by. rewrite first_by_None. split.
  - intros E x Hx. destruct (p x) eqn:Hp; [|done].
    assert (x ∈ List.filter p rows) as Hin by by apply elem_of_List_filter.
    rewrite E in Hin. by apply elem_of_nil in Hin.
  - intros H. destruct (List.filter p rows) as [|x l] eqn:E; [done|].
    assert (x ∈ List.filter p rows) as [Hx Hp]%elem_of_List_filter by (rewrite E; left).
    by rewrite H in Hp.
Qed.
End walk_lemmas.

Lemma last_by_Some {R} (less : R -> R -> bool) `{!StrictLess less} p rows r :
  last_by less p rows = Some r ->
  r ∈ rows /\ p r = true /\ forall x, x ∈ rows -> p x = true -> less r x = false.
Proof. pose proof (flip_less less _). apply (bound_by_Some (fun a b => less b a)). Qed.

Lemma last_by_None {R} (less : R -> R -> bool) p (rows : list R) :
  last_by less p rows = None <-> forall x, x ∈ rows -> p x = false.
Proof. apply bound_by_None. Qed.

(** ** Operations that throw *)

Section object_operations.
Context {V T : Type} (conflict : V -> V -> bool) `{!ObjectIndex V T conflict}.

(** Reading through the address of an object that is no longer in the table is
    undefined. *)
Definition deref (i : Z) (t : T) : res V := of_option undefined_behavior (obj_find i t).
Definition create (v : V) (t : T) : res (Z * T) := of_option std_logic_error (obj_create v t).
Definition modify (i : Z) (f : V -> V) (t : T) : res T :=
  _ ← deref i t; of_option std_logic_error (obj_modify i f t).
Definition remove (i : Z) (t : T) : res T := _ ← deref i t; Ok (obj_remove i t).

(** No two objects share a unique key, and ids not yet handed out are free. *)
Record objects_wf (t : T) : Prop := {
  objects_unique i j v w :
    obj_view t !! i = Some v -> obj_view t !! j = Some w -> i <> j -> conflict v w = false;
  objects_fresh i : is_Some (obj_view t !! i) -> i < obj_next_id t;
}.

Lemma elem_of_obj_rows i v (t : T) : (i, v) ∈ obj_rows t <-> obj_view t !! i = Some v.
Proof. by rewrite obj_rows_view, elem_of_map_to_list. Qed.

Lemma deref_Ok i v (t : T) : deref i t = Ok v <-> obj_view t !! i = Some v.
Proof. unfold deref. by rewrite of_option_Ok, obj_find_view. Qed.

Lemma objects_fresh_next (t : T) : objects_wf t -> obj_view t !! obj_next_id t = None.
Proof.
  intros Hwf. apply eq_None_not_Some. intros Hs. apply (objects_fresh _ Hwf) in Hs. lia.
Qed.

Lemma create_Ok v (t t' : T) i :
  create v t = Ok (i, t') ->
  i = obj_next_id t /\ obj_next_id t' = i + 1 /\ obj_view t' = <[i := v]> (obj_view t) /\
  forall j w, obj_view t !! j = Some w -> conflict v w = false.
Proof. unfold create. rewrite of_option_Ok. apply obj_create_view. Qed.

Lemma modify_Ok i f (t t' : T) :
  modify i f t = Ok t' ->
  obj_next_id t' = obj_next_id t /\
  exists v, obj_view t !! i = Some v /\ obj_view t' = <[i := f v]> (obj_view t) /\
    forall j w, obj_view t !! j = Some w -> j <> i -> conflict (f v) w = false.
Proof.
  unfold modify. intros (v & Hv%deref_Ok & H)%bind_Ok. apply of_option_Ok, obj_modify_view in H as (Hn & E & Hc).
  split; [done|]. exists v. split_and!; [done| |eauto].
  rewrite E. apply map_eq; intros j. destruct (decide (i = j)) as [<-|]; by simplify_map_eq.
Qed.

Lemma remove_Ok i (t t' : T) :
  remove i t = Ok t' ->
  is_Some (obj_view t !! i) /\ obj_view t' = delete i (obj_view t) /\ obj_next_id t' = obj_next_id t.
Proof.
  unfold remove. intros (v & Hv%deref_Ok & [= <-])%bind_Ok. split; [eauto|]. apply obj_remove_view.
Qed.

(** Uniqueness is kept. *)
Hypothesis conflict_sym : forall v w, conflict v w = conflict w v.

Lemma objects_wf_create v (t t' : T) i :
  objects_wf t -> create v t = Ok (i, t') -> objects_wf t' /\ obj_view t !! i = None.
Proof.
  intros Hwf (-> & Hn & Hview & Hfree)%create_Ok. pose proof (objects_fresh_next _ Hwf) as Hf.
  split; [|done]. split.
  - rewrite Hview. intros i j a b [[<- <-]|[? Ha]]%lookup_insert_Some [[<- <-]|[? Hb]]%lookup_insert_Some Hne;
      [done|by eapply Hfree|rewrite conflict_sym; by eapply Hfree|by eapply (objects_unique _ Hwf)].
  - rewrite Hview, Hn. intros i [w [[<- _]|[_ Hw]]%lookup_insert_Some]; [lia|].
    assert (i < obj_next_id t) by (apply (objects_fresh _ Hwf); eauto). lia.
Qed.

Lemma objects_wf_modify i f (t t' : T) : objects_wf t -> modify i f t = Ok t' -> objects_wf t'.
Proof.
  intros Hwf (Hn & v & Hv & Hview & Hfree)%modify_Ok. split.
  - rewrite Hview. intros i' j a b [[<- <-]|[? Ha]]%lookup_insert_Some [[<- <-]|[? Hb]]%lookup_insert_Some Hne;
      [done|by eapply Hfree|rewrite conflict_sym; by eapply Hfree|by eapply (objects_unique _ Hwf)].
  - rewrite Hview, Hn. intros j [w [[<- _]|[_ Hw]]%lookup_insert_Some]; apply (objects_fresh _ Hwf); eauto.
Qed.

Lemma objects_wf_remove i (t t' : T) : objects_wf t -> remove i t = Ok t' -> objects_wf t'.
Proof.
  intros Hwf (Hi & Hview & Hn)%remove_Ok. split.
  - rewrite Hview. intros a b v w [_ Ha]%lookup_delete_Some [_ Hb]%lookup_delete_Some.
    by eapply (objects_unique _ Hwf).
  - rewrite Hview, Hn. intros j [w [_ Hw]%lookup_delete_Some]. apply (objects_fresh _ Hwf). eauto.
Qed.

(** A modification that keeps the unique keys goes through. *)
Lemma modify_same_keys i f (t : T) v :
  objects_wf t -> obj_view t !! i = Some v -> (forall w, conflict (f v) w = conflict v w) ->
  exists t', modify i f t = Ok t'.
Proof.
  intros Hwf Hv Hf. unfold modify. rewrite (proj2 (deref_Ok _ _ _) Hv). cbn.
  destruct (obj_modify_free i f t) as [t' Ht']; [|exists t'; by rewrite Ht'].
  intros j v' w Hv' Hw Hne. simplify_eq. rewrite Hf. eapply (objects_unique _ Hwf); eauto.
Qed.
End object_operations.

(** ** Sums over the rows of a table *)

Section sums.
Context {K V : Type} `{Countable K}.
Implicit Types (g h : V -> Z) (m : gmap K V).

Definition row_sum (g : V -> Z) (m : gmap K V) : Z := map_fold (fun _ v acc => g v + acc) 0 m.

Lemma row_sum_empty g : row_sum g (∅ : gmap K V) = 0.
Proof. apply map_fold_empty. Qed.

Lemma row_sum_insert g i v m : m !! i = None -> row_sum g (<[i := v]> m) = g v + row_sum g m.
Proof.
  intros Hi. unfold row_sum. rewrite (map_fold_insert_L (fun _ w acc => g w + acc)); [done|intros; lia|done].
Qed.

Lemma row_sum_delete g i v m : m !! i = Some v -> row_sum g (delete i m) = row_sum g m - g v.
Proof.
  intros Hi. rewrite <- (insert_delete_id m i v) at 2 by done.
  rewrite row_sum_insert by apply lookup_delete_eq. lia.
Qed.

Lemma row_sum_update g i v w m :
  m !! i = Some v -> row_sum g (<[i := w]> m) = row_sum g m - g v + g w.
Proof.
  intros Hi. rewrite <- insert_delete_eq, row_sum_insert by apply lookup_delete_eq.
  rewrite (row_sum_delete _ _ v) by done. lia.
Qed.

Lemma row_sum_nonneg g m : (forall i v, m !! i = Some v -> 0 <= g v) -> 0 <= row_sum g m.
Proof.
  induction m as [|i v m Hi IH] using map_ind; intros Hg; [by rewrite row_sum_empty|].
  rewrite row_sum_insert by done. pose proof (Hg i v (lookup_insert_eq _ _ _)).
  assert (0 <= row_sum g m); [|lia]. apply IH. intros j w Hj. apply (Hg j w).
  rewrite lookup_insert_ne; congruence.
Qed.

Lemma row_sum_ge g m i v :
  (forall i v, m !! i = Some v -> 0 <= g v) -> m !! i = Some v -> g v <= row_sum g m.
Proof.
  intros Hg Hi. rewrite <- (insert_delete_id m i v) by done.
  rewrite row_sum_insert by apply lookup_delete_eq.
  assert (0 <= row_sum g (delete i m)); [|lia].
  apply row_sum_nonneg. intros j w [_ Hj]%lookup_delete_Some. eauto.
Qed.

Lemma row_sum_pos g m : 0 < row_sum g m -> exists i v, m !! i = Some v /\ 0 < g v.
Proof.
  induction m as [|i v m Hi IH] using map_ind; [by rewrite row_sum_empty|].
  rewrite row_sum_insert by done. intros Hpos. destruct (decide (0 < g v)).
  - exists i, v. by rewrite lookup_insert_eq.
  - destruct IH as (j & w & Hj & Hw); [lia|]. exists j, w. split; [|done].
    rewrite lookup_insert_ne; congruence.
Qed.

Lemma row_sum_ext g h m :
  (forall i v, m !! i = Some v -> g v = h v) -> row_sum g m = row_sum h m.
Proof.
  induction m as [|i v m Hi IH] using map_ind; intros E; [done|].
  rewrite !row_sum_insert by done. rewrite (E i v) by apply lookup_insert_eq. f_equal.
  apply IH. intros j w Hj. apply (E j). rewrite lookup_insert_ne; congruence.
Qed.

Lemma row_sum_zero m : row_sum (fun _ => 0) m = 0.
Proof. induction m as [|i v m Hi IH] using map_ind; [apply row_sum_empty|by rewrite row_sum_insert]. Qed.
End sums.
