(* ===== verification/IteratorCache.v ===== *)
(** * The iterator cache of contract tables ([apply_context.hpp])

    Contracts hold iterators as integers: a row is a number from 0 up, the end
    of a table a number from -2 down, and -1 means that the table does not
    exist.  [iterator_cache] maps between these numbers and the addresses of
    rows and tables; addresses are object ids here.  [cache_wf] is the
    invariant that makes the two directions inverse to each other. *)

From S2P Require Import Prelude Exceptions ObjectIndex.

(** Conversion of an integer to [int] (two's complement). *)
Definition i32 (z : Z) : Z := (z + 2 ^ 31) mod 2 ^ 32 - 2 ^ 31.
Definition int_min : Z := - 2 ^ 31.

Lemma i32_small z : - 2 ^ 31 <= z < 2 ^ 31 -> i32 z = z.
Proof. intros. unfold i32. rewrite Z.mod_small by lia. lia. Qed.

(** [size()] of a vector. *)
Notation zlength l := (Z.of_nat (length l)).

Record iterator_cache := mk_cache {
  _table_cache : gmap Z (Z * Z);              (* table id -> (table, end iterator) *)
  _end_iterator_to_table : list Z;
  _iterator_to_object : list (option Z);      (* a removed row leaves a null *)
  _object_to_iterator : gmap Z Z;
}.

Definition empty_cache : iterator_cache := mk_cache ∅ [] [] ∅.

(** [-ei - 2] in [int], then as [size_t]; negating the least [int] overflows. *)
Definition end_iterator_to_index (ei : Z) : res Z :=
  if ei =? int_min then Throw undefined_behavior else Ok (u64 (- ei - 2)).
(** [-(indx + 2)] in [size_t], then as [int]. *)
Definition index_to_end_iterator (indx : Z) : Z := i32 (u64 (- u64 (indx + 2))).

(** Returns the end iterator of the table. *)
Definition cache_table (tobj : Z) (c : iterator_cache) : Z * iterator_cache :=
  match _table_cache c !! tobj with
  | Some (_, ei) => (ei, c)
  | None =>
    let ei := index_to_end_iterator (zlength (_end_iterator_to_table c)) in
    (ei, mk_cache (<[tobj := (tobj, ei)]> (_table_cache c)) (_end_iterator_to_table c ++ [tobj])
           (_iterator_to_object c) (_object_to_iterator c))
  end.

Definition get_table (i : Z) (c : iterator_cache) : res Z :=
  fst <$> of_option table_not_in_cache (_table_cache c !! i).

Definition get_end_iterator_by_table_id (i : Z) (c : iterator_cache) : res Z :=
  snd <$> of_option table_not_in_cache (_table_cache c !! i).

Definition find_table_by_end_iterator (ei : Z) (c : iterator_cache) : res (option Z) :=
  _ ← sys_assert (ei <? -1) invalid_table_iterator;
  indx ← end_iterator_to_index ei;
  Ok (_end_iterator_to_table c !! Z.to_nat indx).

(** The checks [get] and [remove] share: a slot of the vector. *)
Definition object_slot (iterator : Z) (c : iterator_cache) : res (option Z) :=
  _ ← sys_assert (negb (iterator =? -1)) invalid_table_iterator;
  _ ← sys_assert (0 <=? iterator) table_operation_not_permitted;
  _ ← sys_assert (iterator <? zlength (_iterator_to_object c)) invalid_table_iterator;
  of_option undefined_behavior (_iterator_to_object c !! Z.to_nat iterator).

Definition cache_get (iterator : Z) (c : iterator_cache) : res Z :=
  result ← object_slot iterator c;
  of_option table_operation_not_permitted result.

Definition cache_remove (iterator : Z) (c : iterator_cache) : res iterator_cache :=
  obj_ptr ← object_slot iterator c;
  Ok match obj_ptr with
     | None => c
     | Some obj_ptr =>
       mk_cache (_table_cache c) (_end_iterator_to_table c)
         (<[Z.to_nat iterator := None]> (_iterator_to_object c))
         (delete obj_ptr (_object_to_iterator c))
     end.

Definition cache_add (obj : Z) (c : iterator_cache) : Z * iterator_cache :=
  match _object_to_iterator c !! obj with
  | Some it => (it, c)
  | None =>
    let it := i32 (zlength (_iterator_to_object c)) in
    (it, mk_cache (_table_cache c) (_end_iterator_to_table c) (_iterator_to_object c ++ [Some obj])
           (<[obj := it]> (_object_to_iterator c)))
  end.

(** ** The invariant *)

(** The vectors stay within the range of [int]. *)
Definition cache_small (c : iterator_cache) : Prop :=
  zlength (_end_iterator_to_table c) < 2 ^ 31 - 1 /\ zlength (_iterator_to_object c) < 2 ^ 31.

Record cache_wf (c : iterator_cache) : Prop := {
  cache_tables t p ei : _table_cache c !! t = Some (p, ei) <->
    p = t /\ ei <= -2 /\ _end_iterator_to_table c !! Z.to_nat (- ei - 2) = Some t;
  cache_objects o it : _object_to_iterator c !! o = Some it <->
    0 <= it /\ _iterator_to_object c !! Z.to_nat it = Some (Some o);
}.

Lemma empty_cache_wf : cache_wf empty_cache.
Proof. split; cbn; intros; rewrite lookup_empty, lookup_nil; naive_solver. Qed.

Lemma index_to_end_iterator_small n :
  0 <= n < 2 ^ 31 - 1 -> index_to_end_iterator n = - (n + 2).
Proof.
  intros. unfold index_to_end_iterator. rewrite (u64_small (n + 2)) by lia.
  unfold u64, i32.
  rewrite <- (Z.mod_add (- (n + 2)) 1 (2 ^ 64)) by lia. rewrite (Z.mod_small _ (2 ^ 64)) by lia.
  replace (- (n + 2) + 1 * 2 ^ 64 + 2 ^ 31) with ((2 ^ 31 - (n + 2)) + 2 ^ 32 * 2 ^ 32) by lia.
  rewrite Z.mod_add by lia. rewrite Z.mod_small by lia. lia.
Qed.

(** What caching a table changes. *)
Lemma cache_table_wf t c ei c' :
  cache_wf c -> zlength (_end_iterator_to_table c) < 2 ^ 31 - 1 -> cache_table t c = (ei, c') ->
  cache_wf c' /\ _table_cache c' !! t = Some (t, ei) /\
  (forall u, u <> t -> _table_cache c' !! u = _table_cache c !! u) /\
  _iterator_to_object c' = _iterator_to_object c /\ _object_to_iterator c' = _object_to_iterator c.
Proof.
  intros Hwf Hs. unfold cache_table. destruct (_table_cache c !! t) as [[p e]|] eqn:E.
  { intros [= <- <-]. destruct (proj1 (cache_tables _ Hwf t p e) E) as [-> _]. by split_and!. }
  rewrite index_to_end_iterator_small by lia. intros [= <- <-].
  set (n := zlength _). split_and!; cbn; [|by simplify_map_eq| |done..].
  2:{ intros u Hu. by rewrite lookup_insert_ne. }
  split; [|apply Hwf]. cbn. intros u p e.
  destruct (decide (u = t)) as [->|Hne].
  - rewrite lookup_insert_eq. split.
    + intros [= <- <-]. split_and!; [done|lia|]. replace (- - (n + 2) - 2) with n by lia.
      unfold n. by rewrite Nat2Z.id, list_lookup_middle.
    + intros (-> & He & Hl). apply lookup_app_Some in Hl as [Hl|[Hge Hl]].
      * by rewrite (proj2 (cache_tables _ Hwf t t e)) in E.
      * apply list_lookup_singleton_Some in Hl as [Hl _]. do 2 f_equal. lia.
  - rewrite lookup_insert_ne, (cache_tables _ Hwf) by done. split; intros (-> & He & Hl); split_and!; try done.
    + by apply lookup_app_l_Some.
    + apply lookup_app_Some in Hl as [Hl|[Hge Hl]]; [done|].
      apply list_lookup_singleton_Some in Hl as [_ Hl]. congruence.
Qed.

Lemma cache_add_wf o c it c' :
  cache_wf c -> zlength (_iterator_to_object c) < 2 ^ 31 -> cache_add o c = (it, c') ->
  cache_wf c' /\ _object_to_iterator c' !! o = Some it /\ _table_cache c' = _table_cache c /\
  _end_iterator_to_table c' = _end_iterator_to_table c /\
  (forall u, u <> o -> _object_to_iterator c' !! u = _object_to_iterator c !! u).
Proof.
  intros Hwf Hs. unfold cache_add. destruct (_object_to_iterator c !! o) as [i|] eqn:E.
  { intros [= <- <-]. by split_and!. }
  rewrite i32_small by lia. intros [= <- <-]. set (n := zlength _).
  split_and!; cbn; [|by simplify_map_eq|done|done|intros u Hu; by rewrite lookup_insert_ne].
  split; [apply Hwf|]. cbn. intros u it. destruct (decide (u = o)) as [->|Hne].
  - rewrite lookup_insert_eq. split.
    + intros [= <-]. split; [lia|]. unfold n. by rewrite Nat2Z.id, list_lookup_middle.
    + intros (He & Hl). apply lookup_app_Some in Hl as [Hl|[Hge Hl]].
      * by rewrite (proj2 (cache_objects _ Hwf o it)) in E.
      * apply list_lookup_singleton_Some in Hl as [Hl _]. f_equal. lia.
  - rewrite lookup_insert_ne, (cache_objects _ Hwf) by done. split; intros (He & Hl); split_and!; try done.
    + by apply lookup_app_l_Some.
    + apply lookup_app_Some in Hl as [Hl|[Hge Hl]]; [done|].
      apply list_lookup_singleton_Some in Hl as [_ Hl]. congruence.
Qed.

Lemma cache_get_Ok it c o :
  cache_wf c -> cache_get it c = Ok o <-> _object_to_iterator c !! o = Some it.
Proof.
  intros Hwf. rewrite (cache_objects _ Hwf). unfold cache_get, object_slot. split.
  - intros H. inv_res. bool_to_Z. by subst.
  - intros [Hi Hl]. pose proof (lookup_lt_Some _ _ _ Hl).
    rewrite !bind_assert by (rewrite ?negb_true_iff, ?Z.eqb_neq, ?Z.leb_le, ?Z.ltb_lt; lia).
    by rewrite Hl.
Qed.

Lemma cache_remove_wf it o c :
  cache_wf c -> cache_get it c = Ok o ->
  exists c', cache_remove it c = Ok c' /\ cache_wf c' /\
    _table_cache c' = _table_cache c /\ _end_iterator_to_table c' = _end_iterator_to_table c /\
    _object_to_iterator c' = delete o (_object_to_iterator c) /\
    cache_get it c' = Throw table_operation_not_permitted.
Proof.
  intros Hwf Hg. pose proof Hg as Ho. apply cache_get_Ok in Ho; [|done].
  unfold cache_get in Hg. apply bind_Ok in Hg as (slot & Hslot & ->%of_option_Ok).
  unfold cache_remove. rewrite Hslot. cbn. eexists. split; [done|].
  apply (cache_objects _ Hwf) in Ho as [Hi Hl]. pose proof (lookup_lt_Some _ _ _ Hl) as Hlt.
  split_and!; [|done..|].
  - split; [apply Hwf|]. cbn. intros u i. rewrite lookup_delete_Some, (cache_objects _ Hwf).
    split.
    + intros [Hne [? Hu]]. split; [done|]. rewrite list_lookup_insert_ne; [done|]. congruence.
    + intros [? Hu]. destruct (decide (Z.to_nat it = Z.to_nat i)) as [E|E].
      * by rewrite E, list_lookup_insert_eq in Hu by lia.
      * rewrite list_lookup_insert_ne in Hu by done. split; [|done]. intros <-.
        destruct E. f_equal. eapply (inj Some).
        rewrite <- (proj2 (cache_objects _ Hwf o it)), <- (proj2 (cache_objects _ Hwf o i)); done.
  - unfold cache_get, object_slot in *. cbn. rewrite length_insert. inv_res.
    rewrite !bind_assert by done. by rewrite list_lookup_insert_eq.
Qed.
