(* ===== verification/ContractTables.v ===== *)
(** * Contract tables ([contract_table_objects.hpp], [apply_context.cpp], [apply_context.hpp])

    The database intrinsics of contracts: primary rows ([db_*_i64]) and the five
    kinds of secondary index ([generic_index]).  Rows belong to a table
    [(code, scope, table)] whose object counts them and exists as long as the
    count is not zero; every row is paid for in RAM by an account.

    [table_state] is what the intrinsics change: the three kinds of database
    table, the iterator caches of the running action and the RAM bookkeeping of
    action and transaction.  [context_info] is what they only read.  An output
    argument is part of the result, [None] where the code does not write it. *)

From S2P Require Import Prelude Exceptions Types ObjectIndex IteratorCache Authority AuthorizationManager.

(** ** Objects *)

(** The id of an object is its key in the table. *)
Record table_id_object := mk_tid {
  ti_code : Z;
  ti_scope : Z;
  ti_table : Z;
  ti_payer : Z;
  ti_count : Z;   (* uint32_t, the number of elements in the table *)
}.

(** The unique key [by_code_scope_table]. *)
Definition tid_key (t : table_id_object) : Z * Z * Z := (ti_code t, ti_scope t, ti_table t).
Definition tid_conflict (a b : table_id_object) : bool := bool_decide (tid_key a = tid_key b).

Record key_value_object := mk_kv {
  kv_t_id : Z;
  kv_primary_key : Z;
  kv_payer : Z;
  kv_value : list Z;
}.

(** [by_scope_primary]: the composite key and its comparison. *)
Definition kv_conflict (a b : key_value_object) : bool :=
  (kv_t_id a =? kv_t_id b) && (kv_primary_key a =? kv_primary_key b).
Definition kv_less (a b : Z * key_value_object) : bool :=
  tie_less [kv_t_id a.2; kv_primary_key a.2] [kv_t_id b.2; kv_primary_key b.2].

(** The software floating point comparisons [f64_lt] and [f128_lt] are a
    separate library.  The types stand for the values that can be keys: the
    intrinsics reject NaN, and the comparisons are strict weak orders on the
    rest. *)
Class SoftFloat := {
  float64_t : Type;
  float128_t : Type;
  f64_lt : float64_t -> float64_t -> bool;
  f128_lt : float128_t -> float128_t -> bool;
  f64_lt_strict :: StrictLess f64_lt;
  f128_lt_strict :: StrictLess f128_lt;
  f64_lt_weak x y z : f64_lt x z = true -> f64_lt x y = true \/ f64_lt y z = true;
  f128_lt_weak x y z : f128_lt x z = true -> f128_lt x y = true \/ f128_lt y z = true;
}.

(** The five instances of [secondary_index]. *)
Inductive index_kind : Set := idx64 | idx128 | idx256 | idx_double | idx_long_double.

#[global] Instance index_kind_eq_dec : EqDecision index_kind.
Proof. solve_decision. Defined.

Section objects.
Context `{SoftFloat}.

Inductive secondary_key : Type :=
| key64 (v : Z)
| key128 (v : Z)
| key256 (hi lo : Z)
| key_double (v : float64_t)
| key_long_double (v : float128_t).

(** An index holds keys of one kind; across kinds the order is arbitrary. *)
Definition key_rank (a : secondary_key) : Z :=
  match a with key64 _ => 0 | key128 _ => 1 | key256 _ _ => 2 | key_double _ => 3 | key_long_double _ => 4 end.

(** [SecondaryKeyLess] of each kind. *)
Definition secondary_less (a b : secondary_key) : bool :=
  match a, b with
  | key64 a, key64 b => a <? b
  | key128 a, key128 b => a <? b
  | key256 a0 a1, key256 b0 b1 => tie_less [a0; a1] [b0; b1]
  | key_double a, key_double b => f64_lt a b
  | key_long_double a, key_long_double b => f128_lt a b
  | _, _ => key_rank a <? key_rank b
  end.

Record index_object := mk_ix {
  ix_t_id : Z;
  ix_primary_key : Z;
  ix_payer : Z;
  ix_secondary_key : secondary_key;
}.

(** [by_primary] is unique; [by_secondary] contains the primary key. *)
Definition ix_conflict (a b : index_object) : bool :=
  (ix_t_id a =? ix_t_id b) && (ix_primary_key a =? ix_primary_key b).
Definition ix_primary_less (a b : Z * index_object) : bool :=
  tie_less [ix_t_id a.2; ix_primary_key a.2] [ix_t_id b.2; ix_primary_key b.2].
Definition ix_secondary_less (a b : Z * index_object) : bool :=
  (ix_t_id a.2 <? ix_t_id b.2) ||
  ((ix_t_id a.2 =? ix_t_id b.2) &&
   (secondary_less (ix_secondary_key a.2) (ix_secondary_key b.2) ||
    (negb (secondary_less (ix_secondary_key b.2) (ix_secondary_key a.2)) &&
     (ix_primary_key a.2 <? ix_primary_key b.2)))).
End objects.

(** ** Billable sizes *)

Definition overhead_per_row_per_index_ram_bytes : Z := 32.
Definition table_id_billable : Z := billable_size_v (44 + overhead_per_row_per_index_ram_bytes * 2).
Definition key_value_billable : Z :=
  billable_size_v (32 + 8 + 4 + overhead_per_row_per_index_ram_bytes * 2).
Definition index_billable (k : index_kind) : Z :=
  billable_size_v (match k with
                   | idx64 => 24 + 8
                   | idx128 => 24 + 16
                   | idx256 => 24 + 32
                   | idx_double => 24 + 8
                   | idx_long_double => 24 + 16
                   end + overhead_per_row_per_index_ram_bytes * 3).

(** ** State *)

Record context_info := mk_info {
  receiver : Z;
  act : action;
  privileged : bool;
  is_read_only : bool;                         (* trx_context.is_read_only() *)
  ram_restrictions : bool;                     (* the protocol feature is activated *)
  is_ram_billing_in_notify_allowed : bool;     (* of the controller *)
}.

Section operations.
Context `{SoftFloat} {TT KT IT : Type}.
Context `{!ObjectIndex table_id_object TT tid_conflict}.
Context `{!ObjectIndex key_value_object KT kv_conflict}.
Context `{!ObjectIndex index_object IT ix_conflict}.

Record table_state := mk_ts {
  tables : TT;
  key_values : KT;
  indices : index_kind -> IT;
  keyval_cache : iterator_cache;
  itr_cache : index_kind -> iterator_cache;
  _account_ram_deltas : gmap Z Z;       (* of the action *)
  total_ram_usage : Z;                  (* int64_t, of the transaction *)
  validate_ram_usage : gset Z;
}.

Definition update_kind {A} (k : index_kind) (v : A) (f : index_kind -> A) : index_kind -> A :=
  fun k' => if decide (k' = k) then v else f k'.

Definition set_tables (t : TT) (s : table_state) : table_state :=
  mk_ts t (key_values s) (indices s) (keyval_cache s) (itr_cache s) (_account_ram_deltas s)
    (total_ram_usage s) (validate_ram_usage s).
Definition set_key_values (t : KT) (s : table_state) : table_state :=
  mk_ts (tables s) t (indices s) (keyval_cache s) (itr_cache s) (_account_ram_deltas s)
    (total_ram_usage s) (validate_ram_usage s).
Definition set_index (k : index_kind) (t : IT) (s : table_state) : table_state :=
  mk_ts (tables s) (key_values s) (update_kind k t (indices s)) (keyval_cache s) (itr_cache s)
    (_account_ram_deltas s) (total_ram_usage s) (validate_ram_usage s).
Definition set_keyval_cache (c : iterator_cache) (s : table_state) : table_state :=
  mk_ts (tables s) (key_values s) (indices s) c (itr_cache s) (_account_ram_deltas s)
    (total_ram_usage s) (validate_ram_usage s).
Definition set_itr_cache (k : index_kind) (c : iterator_cache) (s : table_state) : table_state :=
  mk_ts (tables s) (key_values s) (indices s) (keyval_cache s) (update_kind k c (itr_cache s))
    (_account_ram_deltas s) (total_ram_usage s) (validate_ram_usage s).

(** ** RAM bookkeeping *)

(** [a += b] on [int64_t]: a signed overflow is undefined. *)
Definition add_int64 (a b : Z) : res Z :=
  if bool_decide (is_i64 (a + b)) then Ok (a + b) else Throw undefined_behavior.

(** [transaction_context::add_ram_usage] *)
Definition trx_add_ram_usage (account ram_delta : Z) (s : table_state) : res table_state :=
  total ← add_int64 (total_ram_usage s) ram_delta;
  Ok (mk_ts (tables s) (key_values s) (indices s) (keyval_cache s) (itr_cache s)
        (_account_ram_deltas s) total
        (if 0 <? ram_delta then {[account]} ∪ validate_ram_usage s else validate_ram_usage s)).

(** [apply_context::add_ram_usage] *)
Definition add_ram_usage (account ram_delta : Z) (s : table_state) : res table_state :=
  s ← trx_add_ram_usage account ram_delta s;
  delta ← match _account_ram_deltas s !! account with
          | None => Ok ram_delta
          | Some d => add_int64 d ram_delta
          end;
  Ok (mk_ts (tables s) (key_values s) (indices s) (keyval_cache s) (itr_cache s)
        (<[account := delta]> (_account_ram_deltas s)) (total_ram_usage s) (validate_ram_usage s)).

Definition require_authorization (c : context_info) (account : Z) : res unit :=
  sys_assert (existsb (fun auth => actor auth =? account) (act_authorization (act c)))
    missing_auth_exception.

Definition update_db_usage (c : context_info) (payer delta : Z) (s : table_state) : res table_state :=
  _ ← (if 0 <? delta then
         if negb (privileged c || (payer =? receiver c) || ram_restrictions c) then
           _ ← sys_assert (is_ram_billing_in_notify_allowed c || (receiver c =? act_account (act c)))
                 subjective_block_production_exception;
           require_authorization c payer
         else Ok tt
       else Ok tt);
  add_ram_usage payer delta s.

(** ** Tables *)

Definition find_table (code scope table : Z) (s : table_state) : option Z :=
  fst <$> List.find (fun r => bool_decide (tid_key r.2 = (code, scope, table))) (obj_rows (tables s)).

Definition find_or_create_table (c : context_info) (code scope table payer : Z) (s : table_state)
  : res (Z * table_state) :=
  match find_table code scope table s with
  | Some existing_tid => Ok (existing_tid, s)
  | None =>
    s ← update_db_usage c payer (i64 table_id_billable) s;
    '(tid, t) ← create tid_conflict (mk_tid code scope table payer 0) (tables s);
    Ok (tid, set_tables t s)
  end.

Definition remove_table (c : context_info) (tid : Z) (s : table_state) : res table_state :=
  t ← deref tid_conflict tid (tables s);
  s ← update_db_usage c (ti_payer t) (i64 (u64 (- table_id_billable))) s;
  ts ← remove tid_conflict tid (tables s);
  Ok (set_tables ts s).

(** [db.modify( tab, [&]( auto& t ){ ++t.count; })] and [--t.count]. *)
Definition add_count (tid delta : Z) (s : table_state) : res table_state :=
  ts ← modify tid_conflict tid (fun t =>
         mk_tid (ti_code t) (ti_scope t) (ti_table t) (ti_payer t) (u32 (ti_count t + delta))) (tables s);
  Ok (set_tables ts s).

(** [--t.count], the row goes through [drop], and the table goes when its count
    is zero: the end of [db_remove_i64] and of [generic_index::remove]. *)
Definition release_row (c : context_info) (table_obj : Z) (drop : table_state -> res table_state)
    (s : table_state) : res table_state :=
  s ← add_count table_obj (-1) s;
  s ← drop s;
  t ← deref tid_conflict table_obj (tables s);
  if ti_count t =? 0 then remove_table c table_obj s else Ok s.

(** ** Primary rows *)

Definition db_store_i64 (c : context_info) (code scope table payer id : Z) (buffer : list Z)
    (s : table_state) : res (Z * table_state) :=
  _ ← sys_assert (negb (is_read_only c)) table_operation_not_permitted;
  '(tab, s) ← find_or_create_table c code scope table payer s;
  _ ← sys_assert (negb (payer =? 0)) invalid_table_payer;
  '(obj, kv) ← create kv_conflict (mk_kv tab id payer buffer) (key_values s);
  s ← add_count tab 1 (set_key_values kv s);
  let billable_size := i64 (u64 (zlength buffer + key_value_billable)) in
  s ← update_db_usage c payer billable_size s;
  let '(_, cache) := cache_table tab (keyval_cache s) in
  let '(it, cache) := cache_add obj cache in
  Ok (it, set_keyval_cache cache s).

(** The intrinsic's overload: tables of the receiver. *)
Definition db_store_i64_receiver (c : context_info) (scope table payer id : Z) (buffer : list Z)
    (s : table_state) : res (Z * table_state) :=
  _ ← sys_assert (negb (is_read_only c)) table_operation_not_permitted;
  db_store_i64 c (receiver c) scope table payer id buffer s.

(** The object and the table an iterator of a changing operation refers to, the
    table checked to belong to the receiver. *)
Definition own_table (c : context_info) (t_id : Z) (cache : iterator_cache) (s : table_state) : res Z :=
  table_obj ← get_table t_id cache;
  t ← deref tid_conflict table_obj (tables s);
  _ ← sys_assert (ti_code t =? receiver c) table_access_violation;
  Ok table_obj.

Definition db_update_i64 (c : context_info) (iterator payer : Z) (buffer : list Z) (s : table_state)
  : res table_state :=
  _ ← sys_assert (negb (is_read_only c)) table_operation_not_permitted;
  o ← cache_get iterator (keyval_cache s);
  obj ← deref kv_conflict o (key_values s);
  _ ← own_table c (kv_t_id obj) (keyval_cache s) s;
  let old_size := i64 (u64 (zlength (kv_value obj) + key_value_billable)) in
  let new_size := i64 (u64 (zlength buffer + key_value_billable)) in
  let payer := if payer =? 0 then kv_payer obj else payer in
  s ← (if negb (kv_payer obj =? payer) then
         s ← update_db_usage c (kv_payer obj) (- old_size) s;
         update_db_usage c payer new_size s
       else if negb (old_size =? new_size) then
         update_db_usage c (kv_payer obj) (new_size - old_size) s
       else Ok s);
  kv ← modify kv_conflict o (fun o => mk_kv (kv_t_id o) (kv_primary_key o) payer buffer) (key_values s);
  Ok (set_key_values kv s).

Definition db_remove_i64 (c : context_info) (iterator : Z) (s : table_state) : res table_state :=
  _ ← sys_assert (negb (is_read_only c)) table_operation_not_permitted;
  o ← cache_get iterator (keyval_cache s);
  obj ← deref kv_conflict o (key_values s);
  table_obj ← own_table c (kv_t_id obj) (keyval_cache s) s;
  s ← update_db_usage c (kv_payer obj) (i64 (u64 (- u64 (zlength (kv_value obj) + key_value_billable)))) s;
  s ← release_row c table_obj (fun s =>
        kv ← remove kv_conflict o (key_values s); Ok (set_key_values kv s)) s;
  cache ← cache_remove iterator (keyval_cache s);
  Ok (set_keyval_cache cache s).

(** The size returned and the bytes written to the buffer. *)
Definition db_get_i64 (iterator buffer_size : Z) (s : table_state) : res (Z * list Z) :=
  o ← cache_get iterator (keyval_cache s);
  obj ← deref kv_conflict o (key_values s);
  let sz := zlength (kv_value obj) in
  if buffer_size =? 0 then Ok (i32 sz, []) else
  let copy_size := Z.min buffer_size sz in
  Ok (i32 copy_size, take (Z.to_nat copy_size) (kv_value obj)).

(** Hand out the iterator of a row. *)
Definition kv_iterator (r : Z * key_value_object) (s : table_state) : Z * table_state :=
  let '(it, cache) := cache_add r.1 (keyval_cache s) in (it, set_keyval_cache cache s).

(** Cache the table of a query: its address and its end iterator. *)
Definition kv_table (code scope table : Z) (s : table_state) : option (Z * Z * table_state) :=
  match find_table code scope table s with
  | None => None
  | Some tab => let '(table_end_itr, cache) := cache_table tab (keyval_cache s) in
                Some (tab, table_end_itr, set_keyval_cache cache s)
  end.

Definition db_next_i64 (iterator : Z) (s : table_state) : res (Z * option Z * table_state) :=
  if iterator <? -1 then Ok (-1, None, s) else
  o ← cache_get iterator (keyval_cache s);
  obj ← deref kv_conflict o (key_values s);
  match next_by kv_less (o, obj) (obj_rows (key_values s)) with
  | Some itr =>
    if kv_t_id itr.2 =? kv_t_id obj then
      let '(it, s) := kv_iterator itr s in Ok (it, Some (kv_primary_key itr.2), s)
    else ei ← get_end_iterator_by_table_id (kv_t_id obj) (keyval_cache s); Ok (ei, None, s)
  | None => ei ← get_end_iterator_by_table_id (kv_t_id obj) (keyval_cache s); Ok (ei, None, s)
  end.

Definition db_previous_i64 (iterator : Z) (s : table_state) : res (Z * option Z * table_state) :=
  if iterator <? -1 then
    tab ← find_table_by_end_iterator iterator (keyval_cache s);
    tab ← of_option invalid_table_iterator tab;
    (* tab->id reads the table through the cached pointer *)
    _ ← deref tid_conflict tab (tables s);
    (* upper_bound(tab->id), then --itr *)
    match last_by kv_less (fun r => kv_t_id r.2 <=? tab) (obj_rows (key_values s)) with
    | None => Ok (-1, None, s)
    | Some itr =>
      if kv_t_id itr.2 =? tab then
        let '(it, s) := kv_iterator itr s in Ok (it, Some (kv_primary_key itr.2), s)
      else Ok (-1, None, s)
    end
  else
  o ← cache_get iterator (keyval_cache s);
  obj ← deref kv_conflict o (key_values s);
  match prev_by kv_less (o, obj) (obj_rows (key_values s)) with
  | None => Ok (-1, None, s)
  | Some itr =>
    if kv_t_id itr.2 =? kv_t_id obj then
      let '(it, s) := kv_iterator itr s in Ok (it, Some (kv_primary_key itr.2), s)
    else Ok (-1, None, s)
  end.

Definition db_find_i64 (code scope table id : Z) (s : table_state) : Z * table_state :=
  match kv_table code scope table s with
  | None => (-1, s)
  | Some (tab, table_end_itr, s) =>
    match List.find (fun r => kv_conflict (mk_kv tab id 0 []) r.2) (obj_rows (key_values s)) with
    | None => (table_end_itr, s)
    | Some obj => kv_iterator obj s
    end
  end.

(** [lower_bound( tuple(tab->id, id) )] and [upper_bound]: the first row not
    before, and the first row after, the key. *)
Definition kv_bound (upper : bool) (tab id : Z) (r : Z * key_value_object) : bool :=
  if upper then tie_less [tab; id] [kv_t_id r.2; kv_primary_key r.2]
  else negb (tie_less [kv_t_id r.2; kv_primary_key r.2] [tab; id]).

Definition db_bound_i64 (upper : bool) (code scope table id : Z) (s : table_state) : Z * table_state :=
  match kv_table code scope table s with
  | None => (-1, s)
  | Some (tab, table_end_itr, s) =>
    match bound_by kv_less (kv_bound upper tab id) (obj_rows (key_values s)) with
    | None => (table_end_itr, s)
    | Some itr => if kv_t_id itr.2 =? tab then kv_iterator itr s else (table_end_itr, s)
    end
  end.
Definition db_lowerbound_i64 := db_bound_i64 false.
Definition db_upperbound_i64 := db_bound_i64 true.

Definition db_end_i64 (code scope table : Z) (s : table_state) : Z * table_state :=
  match kv_table code scope table s with
  | None => (-1, s)
  | Some (_, table_end_itr, s) => (table_end_itr, s)
  end.

End operations.
