(* ===== verification/SecondaryIndex.v ===== *)
(** * Secondary indices of contract tables ([generic_index] of [apply_context.hpp])

    One definition per method, for the index of kind [k].  The rows of an index
    are walked in two orders, by primary key and by secondary key; iterators of
    both walks come from the same cache. *)

From S2P Require Import Prelude Exceptions Types ObjectIndex IteratorCache Authority ContractTables.

Section generic_index.
Context `{SoftFloat} {TT KT IT : Type}.
Context `{!ObjectIndex table_id_object TT tid_conflict}.
Context `{!ObjectIndex key_value_object KT kv_conflict}.
Context `{!ObjectIndex index_object IT ix_conflict}.
Notation state := (@table_state TT KT IT).
Variable (k : index_kind).

Definition ix_store (c : context_info) (scope table payer id : Z) (value : secondary_key)
    (s : state) : res (Z * state) :=
  _ ← sys_assert (negb (is_read_only c)) table_operation_not_permitted;
  _ ← sys_assert (negb (payer =? 0)) invalid_table_payer;
  '(tab, s) ← find_or_create_table c (receiver c) scope table payer s;
  '(obj, ix) ← create ix_conflict (mk_ix tab id payer value) (indices s k);
  s ← add_count tab 1 (set_index k ix s);
  s ← update_db_usage c payer (i64 (index_billable k)) s;
  let '(_, cache) := cache_table tab (itr_cache s k) in
  let '(it, cache) := cache_add obj cache in
  Ok (it, set_itr_cache k cache s).

Definition ix_remove (c : context_info) (iterator : Z) (s : state) : res state :=
  _ ← sys_assert (negb (is_read_only c)) table_operation_not_permitted;
  o ← cache_get iterator (itr_cache s k);
  obj ← deref ix_conflict o (indices s k);
  table_obj ← own_table c (ix_t_id obj) (itr_cache s k) s;
  s ← update_db_usage c (ix_payer obj) (i64 (u64 (- index_billable k))) s;
  s ← release_row c table_obj (fun s =>
        ix ← remove ix_conflict o (indices s k); Ok (set_index k ix s)) s;
  cache ← cache_remove iterator (itr_cache s k);
  Ok (set_itr_cache k cache s).

Definition ix_update (c : context_info) (iterator payer : Z) (secondary : secondary_key) (s : state)
  : res state :=
  _ ← sys_assert (negb (is_read_only c)) table_operation_not_permitted;
  o ← cache_get iterator (itr_cache s k);
  obj ← deref ix_conflict o (indices s k);
  _ ← own_table c (ix_t_id obj) (itr_cache s k) s;
  let payer := if payer =? 0 then ix_payer obj else payer in
  let billing_size := i64 (index_billable k) in
  s ← (if negb (ix_payer obj =? payer) then
         s ← update_db_usage c (ix_payer obj) (- billing_size) s;
         update_db_usage c payer billing_size s
       else Ok s);
  ix ← modify ix_conflict o (fun o => mk_ix (ix_t_id o) (ix_primary_key o) payer secondary) (indices s k);
  Ok (set_index k ix s).

Definition ix_iterator (r : Z * index_object) (s : state) : Z * state :=
  let '(it, cache) := cache_add r.1 (itr_cache s k) in (it, set_itr_cache k cache s).

Definition ix_table (code scope table : Z) (s : state) : option (Z * Z * state) :=
  match find_table code scope table s with
  | None => None
  | Some tab => let '(table_end_itr, cache) := cache_table tab (itr_cache s k) in
                Some (tab, table_end_itr, set_itr_cache k cache s)
  end.

(** The first row at which [from] is true, if it belongs to the table: its
    iterator and the row. *)
Definition ix_bound (less : Z * index_object -> Z * index_object -> bool)
    (from : Z -> Z * index_object -> bool) (code scope table : Z) (s : state)
  : Z * option index_object * state :=
  match ix_table code scope table s with
  | None => (-1, None, s)
  | Some (tab, table_end_itr, s) =>
    match bound_by less (from tab) (obj_rows (indices s k)) with
    | None => (table_end_itr, None, s)
    | Some itr =>
      if ix_t_id itr.2 =? tab then let '(it, s) := ix_iterator itr s in (it, Some itr.2, s)
      else (table_end_itr, None, s)
    end
  end.

(** Positions of the key [(tab, secondary)] in the order by secondary key. *)
Definition secondary_before (r : Z * index_object) (tab : Z) (secondary : secondary_key) : bool :=
  (ix_t_id r.2 <? tab) || ((ix_t_id r.2 =? tab) && secondary_less (ix_secondary_key r.2) secondary).
Definition secondary_after (r : Z * index_object) (tab : Z) (secondary : secondary_key) : bool :=
  (tab <? ix_t_id r.2) || ((tab =? ix_t_id r.2) && secondary_less secondary (ix_secondary_key r.2)).

(** The iterator and the primary key written. *)
Definition find_secondary (code scope table : Z) (secondary : secondary_key) (s : state)
  : Z * option Z * state :=
  match ix_table code scope table s with
  | None => (-1, None, s)
  | Some (tab, table_end_itr, s) =>
    (* find with the partial key: the first row equivalent to it *)
    match bound_by ix_secondary_less
            (fun r => negb (secondary_before r tab secondary) && negb (secondary_after r tab secondary))
            (obj_rows (indices s k)) with
    | None => (table_end_itr, None, s)
    | Some obj => let '(it, s) := ix_iterator obj s in (it, Some (ix_primary_key obj.2), s)
    end
  end.

(** The row found gives the values written to [primary] and [secondary]. *)
Definition lowerbound_secondary (code scope table : Z) (secondary : secondary_key) (s : state)
  : Z * option index_object * state :=
  ix_bound ix_secondary_less (fun tab r => negb (secondary_before r tab secondary)) code scope table s.

Definition upperbound_secondary (code scope table : Z) (secondary : secondary_key) (s : state)
  : Z * option index_object * state :=
  ix_bound ix_secondary_less (fun tab r => secondary_after r tab secondary) code scope table s.

Definition end_secondary (code scope table : Z) (s : state) : Z * state :=
  match ix_table code scope table s with
  | None => (-1, s)
  | Some (_, table_end_itr, s) => (table_end_itr, s)
  end.

(** [next_secondary] and [next_primary] are the same walk in two orders. *)
Definition ix_next (less : Z * index_object -> Z * index_object -> bool) (iterator : Z) (s : state)
  : res (Z * option Z * state) :=
  if iterator <? -1 then Ok (-1, None, s) else
  o ← cache_get iterator (itr_cache s k);
  obj ← deref ix_conflict o (indices s k);
  match next_by less (o, obj) (obj_rows (indices s k)) with
  | Some itr =>
    if ix_t_id itr.2 =? ix_t_id obj then
      let '(it, s) := ix_iterator itr s in Ok (it, Some (ix_primary_key itr.2), s)
    else ei ← get_end_iterator_by_table_id (ix_t_id obj) (itr_cache s k); Ok (ei, None, s)
  | None => ei ← get_end_iterator_by_table_id (ix_t_id obj) (itr_cache s k); Ok (ei, None, s)
  end.

(** [previous_secondary] and [previous_primary]. *)
Definition ix_previous (less : Z * index_object -> Z * index_object -> bool) (iterator : Z) (s : state)
  : res (Z * option Z * state) :=
  if iterator <? -1 then
    tab ← find_table_by_end_iterator iterator (itr_cache s k);
    tab ← of_option invalid_table_iterator tab;
    _ ← deref tid_conflict tab (tables s);
    match last_by less (fun r => ix_t_id r.2 <=? tab) (obj_rows (indices s k)) with
    | None => Ok (-1, None, s)
    | Some itr =>
      if ix_t_id itr.2 =? tab then
        let '(it, s) := ix_iterator itr s in Ok (it, Some (ix_primary_key itr.2), s)
      else Ok (-1, None, s)
    end
  else
  o ← cache_get iterator (itr_cache s k);
  obj ← deref ix_conflict o (indices s k);
  match prev_by less (o, obj) (obj_rows (indices s k)) with
  | None => Ok (-1, None, s)
  | Some itr =>
    if ix_t_id itr.2 =? ix_t_id obj then
      let '(it, s) := ix_iterator itr s in Ok (it, Some (ix_primary_key itr.2), s)
    else Ok (-1, None, s)
  end.

Definition next_secondary := ix_next ix_secondary_less.
Definition previous_secondary := ix_previous ix_secondary_less.
Definition next_primary := ix_next ix_primary_less.
Definition previous_primary := ix_previous ix_primary_less.

(** The iterator and the secondary key written. *)
Definition find_primary (code scope table primary : Z) (s : state) : Z * option secondary_key * state :=
  match ix_table code scope table s with
  | None => (-1, None, s)
  | Some (tab, table_end_itr, s) =>
    match List.find (fun r => (ix_t_id r.2 =? tab) && (ix_primary_key r.2 =? primary))
            (obj_rows (indices s k)) with
    | None => (table_end_itr, None, s)
    | Some obj => let '(it, s) := ix_iterator obj s in (it, Some (ix_secondary_key obj.2), s)
    end
  end.

Definition lowerbound_primary (code scope table primary : Z) (s : state) : Z * state :=
  let '(it, _, s) := ix_bound ix_primary_less (fun tab r =>
    negb (tie_less [ix_t_id r.2; ix_primary_key r.2] [tab; primary])) code scope table s in (it, s).

Definition upperbound_primary (code scope table primary : Z) (s : state) : Z * state :=
  let '(it, _, s) := ix_bound ix_primary_less (fun tab r =>
    tie_less [tab; primary] [ix_t_id r.2; ix_primary_key r.2]) code scope table s in (it, s).

Definition ix_get (iterator : Z) (s : state) : res (Z * secondary_key) :=
  o ← cache_get iterator (itr_cache s k);
  obj ← deref ix_conflict o (indices s k);
  Ok (ix_primary_key obj, ix_secondary_key obj).
End generic_index.
