(* ===== verification/ContractTableProps.v ===== *)
(** * Invariants of the contract tables

    [table_state_wf]: a table object counts its rows in the primary and in the
    five secondary indices and exists exactly while it has rows; cached
    iterators refer to live rows of cached tables.  [ram_gap]: what an account
    or the transaction has been charged, less the billable size of the rows; no
    operation changes it. *)

From S2P Require Import Prelude Exceptions Types ObjectIndex IteratorCache Authority.
From S2P Require Import AuthorizationManager ContractTables SecondaryIndex.

(** ** Orders of the indices *)

Lemma tie_less_strict {A} (f : A -> list Z) : StrictLess (fun a b => tie_less (f a) (f b)).
Proof. split; intros; [apply tie_less_irrefl|by eapply tie_less_trans]. Qed.

Lemma tie_less_pair a b c d : tie_less [a; b] [c; d] = true <-> a < c \/ (a = c /\ b < d).
Proof.
  cbn. rewrite !orb_true_iff, !andb_true_iff, Z.ltb_lt, Z.eqb_eq, orb_true_iff, Z.ltb_lt, andb_true_iff.
  naive_solver.
Qed.

#[global] Instance kv_less_strict : StrictLess kv_less.
Proof. apply (tie_less_strict (fun r : Z * key_value_object => [kv_t_id r.2; kv_primary_key r.2])). Qed.

Section orders.
Context `{SoftFloat}.

#[global] Instance ix_primary_less_strict : StrictLess ix_primary_less.
Proof. apply (tie_less_strict (fun r : Z * index_object => [ix_t_id r.2; ix_primary_key r.2])). Qed.

#[global] Instance secondary_less_strict : StrictLess secondary_less.
Proof.
  split.
  - intros []; cbn [secondary_less]; rewrite ?Z.ltb_irrefl, ?tie_less_irrefl, ?less_irrefl; done.
  - intros [] [] []; cbn [secondary_less key_rank]; try done; try apply less_trans; try apply tie_less_trans;
      rewrite !Z.ltb_lt; lia.
Qed.

Lemma secondary_less_weak x y z :
  secondary_less x z = true -> secondary_less x y = true \/ secondary_less y z = true.
Proof.
  destruct x, y, z; cbn [secondary_less key_rank]; try (by auto); try apply f64_lt_weak; try apply f128_lt_weak;
    rewrite ?Z.ltb_lt; try lia.
  destruct (tie_less [hi; lo] [hi0; lo0]) eqn:E1; [by auto|]. intros Hxz. right.
  destruct (tie_less [hi0; lo0] [hi1; lo1]) eqn:E2; [done|].
  by rewrite (tie_less_false_trans [hi; lo] [hi0; lo0] [hi1; lo1]) in Hxz.
Qed.

(** The order by secondary key within a table. *)
Definition ix_secondary_sub (a b : index_object) : bool :=
  secondary_less (ix_secondary_key a) (ix_secondary_key b) ||
  (negb (secondary_less (ix_secondary_key b) (ix_secondary_key a)) && (ix_primary_key a <? ix_primary_key b)).
Definition ix_primary_sub (a b : index_object) : bool := ix_primary_key a <? ix_primary_key b.

Lemma ix_secondary_sub_trans x y z :
  ix_secondary_sub x y = true -> ix_secondary_sub y z = true -> ix_secondary_sub x z = true.
Proof.
  unfold ix_secondary_sub. rewrite !orb_true_iff, !andb_true_iff, !negb_true_iff, !Z.ltb_lt.
  intros [Hxy|[Hxy ?]] [Hyz|[Hyz ?]].
  - left. by eapply less_trans.
  - left. destruct (secondary_less_weak _ (ix_secondary_key z) _ Hxy); [done|congruence].
  - left. destruct (secondary_less_weak _ (ix_secondary_key x) _ Hyz); [congruence|done].
  - right. split; [|lia]. destruct (secondary_less (ix_secondary_key z) (ix_secondary_key x)) eqn:E; [|done].
    destruct (secondary_less_weak _ (ix_secondary_key y) _ E); congruence.
Qed.

Lemma ix_secondary_less_split a b : ix_secondary_less a b = true <->
  ix_t_id a.2 < ix_t_id b.2 \/ (ix_t_id a.2 = ix_t_id b.2 /\ ix_secondary_sub a.2 b.2 = true).
Proof. unfold ix_secondary_less, ix_secondary_sub. by rewrite orb_true_iff, andb_true_iff, Z.ltb_lt, Z.eqb_eq. Qed.

Lemma ix_primary_less_split a b : ix_primary_less a b = true <->
  ix_t_id a.2 < ix_t_id b.2 \/ (ix_t_id a.2 = ix_t_id b.2 /\ ix_primary_sub a.2 b.2 = true).
Proof. unfold ix_primary_less, ix_primary_sub. by rewrite tie_less_pair, Z.ltb_lt. Qed.

#[global] Instance ix_secondary_less_strict : StrictLess ix_secondary_less.
Proof.
  split.
  - intros x. unfold ix_secondary_less. by rewrite !Z.ltb_irrefl, (less_irrefl (less := secondary_less)), !andb_false_r.
  - intros x y z. rewrite !ix_secondary_less_split. intros [?|[? ?]] [?|[? ?]]; [left; lia..|].
    right. split; [lia|]. by eapply ix_secondary_sub_trans.
Qed.
End orders.

Lemma tid_conflict_sym v w : tid_conflict v w = tid_conflict w v.
Proof. apply bool_decide_ext. naive_solver. Qed.
Lemma kv_conflict_sym v w : kv_conflict v w = kv_conflict w v.
Proof. unfold kv_conflict. by rewrite (Z.eqb_sym (kv_t_id v)), (Z.eqb_sym (kv_primary_key v)). Qed.
Lemma ix_conflict_sym `{SoftFloat} v w : ix_conflict v w = ix_conflict w v.
Proof. unfold ix_conflict. by rewrite (Z.eqb_sym (ix_t_id v)), (Z.eqb_sym (ix_primary_key v)). Qed.

(** ** Sums over the index kinds *)

Definition sum_kinds (f : index_kind -> Z) : Z :=
  f idx64 + f idx128 + f idx256 + f idx_double + f idx_long_double.

Lemma sum_kinds_update (f g : index_kind -> Z) k :
  (forall k', k' <> k -> g k' = f k') -> sum_kinds g = sum_kinds f - f k + g k.
Proof.
  intros E. unfold sum_kinds.
  destruct k; rewrite ?(E idx64), ?(E idx128), ?(E idx256), ?(E idx_double), ?(E idx_long_double) by done;
    lia.
Qed.

Lemma sum_kinds_ge f k : (forall k, 0 <= f k) -> f k <= sum_kinds f.
Proof.
  intros Hf. unfold sum_kinds. pose proof (Hf idx64). pose proof (Hf idx128). pose proof (Hf idx256).
  pose proof (Hf idx_double). pose proof (Hf idx_long_double). destruct k; lia.
Qed.

Lemma update_kind_eq {A} k (v : A) f : update_kind k v f k = v.
Proof. unfold update_kind. by rewrite decide_True. Qed.
Lemma update_kind_ne {A} k k' (v : A) f : k' <> k -> update_kind k v f k' = f k'.
Proof. intros. unfold update_kind. by rewrite decide_False. Qed.

(** ** Tables and their counts *)

(** [n t] rows belong to table [t]; the tables that satisfy [ex] may be empty. *)
Record tables_inv (ex : Z -> Prop) (T : gmap Z table_id_object) (n : Z -> Z) : Prop := {
  ti_nonneg t : 0 <= n t;
  ti_counted t v : T !! t = Some v -> ti_count v = n t;
  ti_occupied t v : T !! t = Some v -> 0 < n t \/ ex t;
  ti_live t : 0 < n t -> is_Some (T !! t);
}.

Definition with_count (v : table_id_object) (n : Z) : table_id_object :=
  mk_tid (ti_code v) (ti_scope v) (ti_table v) (ti_payer v) n.

Lemma tables_inv_ext ex T n n' : (forall t, n' t = n t) -> tables_inv ex T n -> tables_inv ex T n'.
Proof. intros E []. split; intros; rewrite ?E in *; eauto. Qed.

Lemma tables_inv_weaken (ex ex' : Z -> Prop) T n :
  (forall t, ex t -> ex' t) -> tables_inv ex T n -> tables_inv ex' T n.
Proof. intros E []. split; intros; eauto. edestruct ti_occupied0; eauto. Qed.

Lemma tables_inv_create T n t v :
  tables_inv (fun _ => False) T n -> T !! t = None -> ti_count v = 0 ->
  tables_inv (fun u => u = t) (<[t := v]> T) n.
Proof.
  intros Hi Ht Hv. assert (n t = 0) as Hn.
  { pose proof (ti_nonneg _ _ _ Hi t). destruct (decide (0 < n t)) as [Hp|]; [|lia].
    destruct (ti_live _ _ _ Hi t Hp). congruence. }
  split; [apply Hi|..].
  - intros u w [[<- <-]|[? Hu]]%lookup_insert_Some; [congruence|by eapply ti_counted].
  - intros u w [[<- <-]|[? Hu]]%lookup_insert_Some; [by right|].
    destruct (ti_occupied _ _ _ Hi u w Hu); [by left|done].
  - intros u Hu. destruct (decide (u = t)) as [->|]; [rewrite lookup_insert_eq; eauto|].
    rewrite lookup_insert_ne by done. by eapply ti_live.
Qed.

Lemma tables_inv_add T n n' t v :
  tables_inv (fun u => u = t) T n -> T !! t = Some v -> n t < 2 ^ 32 - 1 ->
  (forall u, n' u = n u + if u =? t then 1 else 0) ->
  tables_inv (fun _ => False) (<[t := with_count v (u32 (ti_count v + 1))]> T) n'.
Proof.
  intros Hi Ht Hlt E. pose proof (ti_nonneg _ _ _ Hi t) as Hn.
  split.
  - intros u. rewrite E. pose proof (ti_nonneg _ _ _ Hi u). case_match; lia.
  - intros u w. rewrite E. intros [[<- <-]|[? Hu]]%lookup_insert_Some.
    + rewrite Z.eqb_refl. cbn. rewrite (ti_counted _ _ _ Hi t v Ht). apply u32_small. lia.
    + rewrite (proj2 (Z.eqb_neq u t)) by done. rewrite (ti_counted _ _ _ Hi u w Hu). lia.
  - intros u w. rewrite E. left. pose proof (ti_nonneg _ _ _ Hi u).
    destruct (u =? t) eqn:Eu; bool_to_Z; [lia|].
    rewrite lookup_insert_ne in * by done. edestruct (ti_occupied _ _ _ Hi u w); [done|lia|done].
  - intros u. rewrite E. destruct (decide (u = t)) as [->|Hne]; [rewrite lookup_insert_eq; eauto|].
    rewrite (proj2 (Z.eqb_neq u t)), lookup_insert_ne by done. intros. eapply ti_live; [done|lia].
Qed.

(** One row less: the table keeps the rest, or is erased with its last row. *)
Lemma tables_inv_release T n n' t v :
  tables_inv (fun _ => False) T n -> T !! t = Some v -> n t < 2 ^ 32 ->
  (forall u, n' u = n u - if u =? t then 1 else 0) ->
  u32 (ti_count v + -1) = n' t /\
  tables_inv (fun _ => False)
    (if u32 (ti_count v + -1) =? 0 then delete t T
     else <[t := with_count v (u32 (ti_count v + -1))]> T) n'.
Proof.
  intros Hi Ht Hlt E.
  assert (0 < n t) as Hpos by (by destruct (ti_occupied _ _ _ Hi t v Ht)).
  assert (u32 (ti_count v + -1) = n' t) as Hc.
  { rewrite (ti_counted _ _ _ Hi t v Ht), u32_small, E, Z.eqb_refl by lia. lia. }
  rewrite Hc. split; [done|].
  assert (forall u, u <> t -> n' u = n u) as Hne.
  { intros u Hu. rewrite E, (proj2 (Z.eqb_neq u t)) by done. lia. }
  assert (0 <= n' t) by (rewrite E, Z.eqb_refl; lia).
  assert (forall u, 0 <= n' u).
  { intros u. destruct (decide (u = t)) as [->|]; [done|]. rewrite Hne by done. apply (ti_nonneg _ _ _ Hi). }
  destruct (n' t =? 0) eqn:E0; bool_to_Z; split; try done.
  - intros u w [? Hu]%lookup_delete_Some. rewrite Hne by done. by eapply ti_counted.
  - intros u w [? Hu]%lookup_delete_Some. rewrite Hne by done. by apply (ti_occupied _ _ _ Hi u w).
  - intros u Hu. assert (u <> t) by (intros ->; lia). rewrite lookup_delete_ne by done.
    rewrite Hne in Hu by done. by eapply ti_live.
  - intros u w [[<- <-]|[? Hu]]%lookup_insert_Some; [done|]. rewrite Hne by done. by eapply ti_counted.
  - intros u w [[<- <-]|[? Hu]]%lookup_insert_Some; [left; lia|]. rewrite Hne by done. by apply (ti_occupied _ _ _ Hi u w).
  - intros u Hu. destruct (decide (u = t)) as [->|]; [rewrite lookup_insert_eq; eauto|].
    rewrite lookup_insert_ne by done. rewrite Hne in Hu by done. by eapply ti_live.
Qed.

(** ** Caches over a table of rows *)

Section caches.
Context {V : Type} (tid : V -> Z).

(** Cached rows are live and their tables are cached. *)
Record cache_ok (m : gmap Z V) (c : iterator_cache) : Prop := {
  cache_ok_wf : cache_wf c;
  cache_ok_rows o it : _object_to_iterator c !! o = Some it ->
    exists v, m !! o = Some v /\ is_Some (_table_cache c !! tid v);
}.

Lemma cache_ok_empty m : cache_ok m empty_cache.
Proof. split; [apply empty_cache_wf|]. intros o it. cbn. by rewrite lookup_empty. Qed.

Lemma cache_ok_table m c t ei c' :
  cache_ok m c -> zlength (_end_iterator_to_table c) < 2 ^ 31 - 1 -> cache_table t c = (ei, c') ->
  cache_ok m c' /\ _table_cache c' !! t = Some (t, ei) /\ _iterator_to_object c' = _iterator_to_object c /\
  (forall u x, _table_cache c !! u = Some x -> _table_cache c' !! u = Some x) /\
  (forall it o, cache_get it c = Ok o -> cache_get it c' = Ok o).
Proof.
  intros [Hwf Hrows] Hs Hc. destruct (cache_table_wf t c ei c') as (Hwf' & Ht & Hrest & Hi & Ho); [done..|].
  split_and!; [|done|done| |].
  - split; [done|]. intros o it. rewrite Ho. intros (v & Hv & Hin)%Hrows.
    exists v. split; [done|]. destruct (decide (tid v = t)) as [->|]; [eauto|]. by rewrite Hrest.
  - intros u x Hu. destruct (decide (u = t)) as [->|]; [|by rewrite Hrest].
    unfold cache_table in Hc. rewrite Hu in Hc. destruct x. by injection Hc as <- <-.
  - intros it o. rewrite !cache_get_Ok, Ho by done. done.
Qed.

Lemma cache_ok_add m c o v it c' :
  cache_ok m c -> zlength (_iterator_to_object c) < 2 ^ 31 -> m !! o = Some v ->
  is_Some (_table_cache c !! tid v) -> cache_add o c = (it, c') ->
  cache_ok m c' /\ cache_get it c' = Ok o /\ _table_cache c' = _table_cache c /\
  (forall it o, cache_get it c = Ok o -> cache_get it c' = Ok o).
Proof.
  intros [Hwf Hrows] Hs Hv Ht Hc.
  destruct (cache_add_wf o c it c') as (Hwf' & Ho & HT & He & Hrest); [done..|].
  split_and!; [|by apply cache_get_Ok|done|].
  - split; [done|]. intros u j. rewrite HT.
    destruct (decide (u = o)) as [->|]; [eauto|]. rewrite Hrest by done. apply Hrows.
  - intros j u. rewrite !cache_get_Ok by done. intros Hj. destruct (decide (u = o)) as [->|]; [|by rewrite Hrest].
    unfold cache_add in Hc. rewrite Hj in Hc. by injection Hc as <- <-.
Qed.

Lemma cache_ok_remove m c it o :
  cache_ok m c -> cache_get it c = Ok o ->
  exists c', cache_remove it c = Ok c' /\ cache_ok (delete o m) c' /\
    cache_get it c' = Throw table_operation_not_permitted /\ _table_cache c' = _table_cache c.
Proof.
  intros [Hwf Hrows] Hg. destruct (cache_remove_wf it o c) as (c' & ? & ? & HT & HE & HO & ?); [done..|].
  exists c'. split_and!; [done| |done|done]. split; [done|]. intros u j. rewrite HO, HT.
  intros [Hne (v & Hv & ?)%Hrows]%lookup_delete_Some. exists v. by rewrite lookup_delete_ne.
Qed.

(** A new row, or a row replaced within its table. *)
Lemma table_cache_ok_insert m c i v :
  (forall w, m !! i = Some w -> tid w = tid v) -> cache_ok m c -> cache_ok (<[i := v]> m) c.
Proof.
  intros Hi [Hwf Hrows]. split; [done|]. intros o it (w & Hw & Ht)%Hrows.
  destruct (decide (o = i)) as [->|]; [exists v|exists w].
  - rewrite lookup_insert_eq. by rewrite <- (Hi w Hw).
  - by rewrite lookup_insert_ne.
Qed.

(** What dereferencing an iterator gives. *)
Lemma cache_ok_get m c it o :
  cache_ok m c -> cache_get it c = Ok o -> exists v ei, m !! o = Some v /\
    _table_cache c !! tid v = Some (tid v, ei).
Proof.
  intros [Hwf Hrows] Hg. apply cache_get_Ok in Hg; [|done].
  destruct (Hrows _ _ Hg) as (v & Hv & [p ei] & He). exists v, ei. split; [done|].
  rewrite He. by destruct (proj1 (cache_tables _ Hwf _ _ _) He) as [-> _].
Qed.
End caches.

Lemma cache_remove_get_other it it0 c c' o o' :
  cache_wf c -> cache_get it c = Ok o -> cache_remove it c = Ok c' -> o' <> o ->
  cache_get it0 c = Ok o' -> cache_get it0 c' = Ok o'.
Proof.
  intros Hwf Hg Hr Hne Hg'. destruct (cache_remove_wf it o c) as (c1 & Hr1 & Hwf1 & _ & _ & HO & _); [done..|].
  rewrite Hr in Hr1. injection Hr1 as <-. rewrite cache_get_Ok in Hg' |- * by done. by rewrite HO, lookup_delete_ne.
Qed.

(** Errors of the cache are the ones contracts may cause. *)
Lemma cache_get_Throw it c e :
  cache_get it c = Throw e -> e = invalid_table_iterator \/ e = table_operation_not_permitted.
Proof.
  unfold cache_get, object_slot. intros [Hs|(slot & _ & [_ <-]%of_option_Throw)]%bind_Throw; [|by right].
  apply bind_Throw in Hs as [[_ <-]%sys_assert_Throw|(u & Hneg & Hs)]; [by left|].
  apply bind_Throw in Hs as [[_ <-]%sys_assert_Throw|(u' & H0 & Hs)]; [by right|].
  apply bind_Throw in Hs as [[_ <-]%sys_assert_Throw|(u'' & Hlt & Hs)]; [by left|].
  inv_res. bool_to_Z. match goal with H : _ !! _ = None |- _ => apply lookup_ge_None in H end. lia.
Qed.

(** ** The invariant *)

Section invariant.
Context `{SoftFloat} {TT KT IT : Type}.
Context `{!ObjectIndex table_id_object TT tid_conflict}.
Context `{!ObjectIndex key_value_object KT kv_conflict}.
Context `{!ObjectIndex index_object IT ix_conflict}.
Notation state := (@table_state TT KT IT).
Implicit Types (s : state) (c : context_info).

Definition tables_of s : gmap Z table_id_object := obj_view (tables s).
Definition kv_of s : gmap Z key_value_object := obj_view (key_values s).
Definition ix_of s k : gmap Z index_object := obj_view (indices s k).

Definition in_table (f : Z) (t : Z) : Z := if f =? t then 1 else 0.

(** The number of rows of table [t]. *)
Definition rows_of s (t : Z) : Z :=
  row_sum (fun v => in_table (kv_t_id v) t) (kv_of s) +
  sum_kinds (fun k => row_sum (fun v => in_table (ix_t_id v) t) (ix_of s k)).

(** [n] counts the rows, apart from changes an operation is in the middle of. *)
Record table_state_inv (ex : Z -> Prop) (n : Z -> Z) s : Prop := {
  wf_tables : objects_wf tid_conflict (tables s);
  wf_kv : objects_wf kv_conflict (key_values s);
  wf_ix k : objects_wf ix_conflict (indices s k);
  wf_counts : tables_inv ex (tables_of s) n;
  wf_keyval_cache : cache_ok kv_t_id (kv_of s) (keyval_cache s);
  wf_itr_cache k : cache_ok ix_t_id (ix_of s k) (itr_cache s k);
  wf_sizes o v : kv_of s !! o = Some v -> zlength (kv_value v) < 2 ^ 32;
}.

Definition table_state_wf s : Prop := table_state_inv (fun _ => False) (rows_of s) s.

(** Row counts stay within [uint32_t] and iterators within [int]. *)
Record table_state_small s : Prop := {
  small_rows t : rows_of s t < 2 ^ 32 - 1;
  small_keyval_cache : cache_small (keyval_cache s);
  small_itr_cache k : cache_small (itr_cache s k);
}.

(** What the RAM bookkeeping has charged to an account ([Some a]) or to the
    transaction ([None]), and the billable size of the rows it pays for. *)
Definition ram_used s (x : option Z) : Z :=
  match x with None => total_ram_usage s | Some a => default 0 (_account_ram_deltas s !! a) end.
Definition weight (x : option Z) (payer : Z) : Z :=
  match x with None => 1 | Some a => if payer =? a then 1 else 0 end.
Definition table_bill x (t : table_id_object) : Z := weight x (ti_payer t) * table_id_billable.
Definition kv_bill x (v : key_value_object) : Z :=
  weight x (kv_payer v) * (zlength (kv_value v) + key_value_billable).
Definition ix_bill x k (v : index_object) : Z := weight x (ix_payer v) * index_billable k.
Definition billed s (x : option Z) : Z :=
  row_sum (table_bill x) (tables_of s) + row_sum (kv_bill x) (kv_of s) +
  sum_kinds (fun k => row_sum (ix_bill x k) (ix_of s k)).
Definition ram_gap s x : Z := ram_used s x - billed s x.

(** [s'] is [s] after charging [delta] to [payer]. *)
Record charged (payer delta : Z) s s' : Prop := {
  charged_tables : tables s' = tables s;
  charged_kv : key_values s' = key_values s;
  charged_ix : indices s' = indices s;
  charged_keyval : keyval_cache s' = keyval_cache s;
  charged_itr : itr_cache s' = itr_cache s;
  charged_used x : ram_used s' x = ram_used s x + weight x payer * delta;
}.

Lemma add_int64_Ok a b r : add_int64 a b = Ok r -> r = a + b /\ is_i64 r.
Proof. unfold add_int64. case_bool_decide; [|done]. by intros [= <-]. Qed.

Lemma add_ram_usage_charged payer delta s s' :
  add_ram_usage payer delta s = Ok s' -> charged payer delta s s'.
Proof.
  unfold add_ram_usage, trx_add_ram_usage.
  intros (s1 & (total & [-> _]%add_int64_Ok & [= <-])%bind_Ok & H')%bind_Ok.
  apply bind_Ok in H' as (d & Hd & [= <-]). cbn in *.
  split; cbn; [done..|]. intros [a|]; cbn; [|lia].
  destruct (decide (a = payer)) as [->|Hne].
  - rewrite lookup_insert_eq, Z.eqb_refl. cbn. destruct (_account_ram_deltas s !! payer) as [d0|]; cbn.
    + apply add_int64_Ok in Hd as [-> _]. lia.
    + injection Hd as <-. lia.
  - rewrite lookup_insert_ne by done. rewrite (proj2 (Z.eqb_neq payer a)) by done. lia.
Qed.

Lemma update_db_usage_charged c payer delta s s' :
  update_db_usage c payer delta s = Ok s' -> charged payer delta s s'.
Proof. unfold update_db_usage. intros H'. inv_res. by apply add_ram_usage_charged. Qed.

Lemma charged_gap payer delta s s' x :
  charged payer delta s s' -> ram_gap s' x = ram_gap s x + weight x payer * delta.
Proof.
  intros []. unfold ram_gap, billed, tables_of, kv_of, ix_of. rewrite charged_used0, charged_tables0, charged_kv0, charged_ix0.
  lia.
Qed.
Lemma charged_inv payer delta ex n s s' :
  charged payer delta s s' -> table_state_inv ex n s -> table_state_inv ex n s'.
Proof.
  intros [] []. split; unfold tables_of, kv_of, ix_of in *;
    rewrite ?charged_tables0, ?charged_kv0, ?charged_ix0, ?charged_keyval0, ?charged_itr0; done.
Qed.

Lemma charged_rows payer delta s s' t : charged payer delta s s' -> rows_of s' t = rows_of s t.
Proof. intros []. unfold rows_of, kv_of, ix_of. by rewrite charged_kv0, charged_ix0. Qed.

(** Fields outside the table objects, as an equation between states. *)
Definition same_rows s s' : Prop :=
  key_values s' = key_values s /\ indices s' = indices s /\
  keyval_cache s' = keyval_cache s /\ itr_cache s' = itr_cache s.

Lemma same_rows_of s s' t : same_rows s s' -> rows_of s' t = rows_of s t.
Proof. intros (Hk & Hi & _). unfold rows_of, kv_of, ix_of. by rewrite Hk, Hi. Qed.

Lemma charged_same_rows payer delta s s' : charged payer delta s s' -> same_rows s s'.
Proof. by intros []. Qed.

Lemma same_rows_trans s1 s2 s3 : same_rows s1 s2 -> same_rows s2 s3 -> same_rows s1 s3.
Proof. unfold same_rows. intros (-> & -> & -> & ->) (-> & -> & -> & ->). done. Qed.

(** Replacing the table objects. *)
Lemma set_tables_inv ex ex' n n' s t :
  table_state_inv ex n s -> objects_wf tid_conflict t -> tables_inv ex' (obj_view t) n' ->
  table_state_inv ex' n' (set_tables t s).
Proof. intros []. split; done. Qed.

Lemma table_id_billable_value : table_id_billable = 112.
Proof. done. Qed.
Lemma key_value_billable_value : key_value_billable = 112.
Proof. done. Qed.
Lemma index_billable_range k : 128 <= index_billable k <= 160.
Proof. by destruct k. Qed.
Lemma minus_table_id_billable : i64 (u64 (- table_id_billable)) = - table_id_billable.
Proof. done. Qed.
Lemma minus_index_billable k : i64 (u64 (- index_billable k)) = - index_billable k.
Proof. by destruct k. Qed.

(** ** Tables *)

Lemma find_table_Some code scope table s tid :
  find_table code scope table s = Some tid ->
  exists v, tables_of s !! tid = Some v /\ tid_key v = (code, scope, table).
Proof.
  unfold find_table. rewrite fmap_Some. intros ([i v] & [Hin Hk]%find_some & ->). exists v.
  apply list_elem_of_In, elem_of_obj_rows in Hin. by apply bool_decide_eq_true in Hk.
Qed.

Lemma find_table_None code scope table s :
  find_table code scope table s = None ->
  forall t v, tables_of s !! t = Some v -> tid_key v <> (code, scope, table).
Proof.
  unfold find_table. rewrite fmap_None. intros Hn t v Hv E.
  apply elem_of_obj_rows, list_elem_of_In in Hv. pose proof (find_none _ _ Hn _ Hv) as Hf. cbn in Hf.
  by apply bool_decide_eq_false in Hf.
Qed.

(** The key of a table determines its object. *)
Lemma find_table_unique s t v :
  objects_wf tid_conflict (tables s) -> tables_of s !! t = Some v ->
  find_table (ti_code v) (ti_scope v) (ti_table v) s = Some t.
Proof.
  intros Hwf Hv. destruct (find_table _ _ _ s) as [t'|] eqn:E.
  - apply find_table_Some in E as (v' & Hv' & Hk). f_equal. destruct (decide (t' = t)) as [|Hne]; [done|].
    pose proof (objects_unique _ _ Hwf _ _ _ _ Hv' Hv Hne) as Hc.
    apply bool_decide_eq_false in Hc. by rewrite Hk in Hc.
  - by destruct (find_table_None _ _ _ _ E t v Hv).
Qed.

Lemma find_or_create_table_Ok c code scope table payer s tid s' :
  table_state_wf s -> find_or_create_table c code scope table payer s = Ok (tid, s') ->
  same_rows s s' /\ (forall x, ram_gap s' x = ram_gap s x) /\
  table_state_inv (fun u => u = tid) (rows_of s) s' /\
  (exists v, tables_of s' !! tid = Some v /\ tid_key v = (code, scope, table)) /\
  (forall u v, tables_of s' !! u = Some v -> u <> tid -> tables_of s !! u = Some v) /\
  (forall u v, tables_of s !! u = Some v -> tables_of s' !! u = Some v).
Proof.
  intros Hwf. unfold find_or_create_table. destruct (find_table code scope table s) as [t|] eqn:E.
  { intros [= <- <-]. apply find_table_Some in E as (v & Hv & Hk).
    split_and!; [done|done| |eauto|auto|auto]. destruct Hwf. split; try done.
    eapply tables_inv_weaken; [|done]. done. }
  intros (s1 & Hc%update_db_usage_charged & H1)%bind_Ok.
  apply bind_Ok in H1 as ([t ts] & Hcr & [= <- <-]).
  pose proof (create_Ok _ _ _ _ _ Hcr) as (-> & Hn & Hview & Hfree).
  pose proof (charged_inv _ _ _ _ _ _ Hc Hwf) as Hwf1. destruct Hc as [HT HK HI HC HIC HU].
  pose proof (objects_fresh_next _ _ (wf_tables _ _ _ Hwf1)) as Hfresh.
  set (tid := obj_next_id (tables s1)) in *. set (v := mk_tid code scope table payer 0) in *.
  assert (obj_view (tables s1) = tables_of s) as HTv by (unfold tables_of; by rewrite HT).
  split_and!; cbn.
  - done.
  - intros x. unfold ram_gap. change (ram_used (set_tables ts s1) x) with (ram_used s1 x).
    rewrite HU. unfold billed, tables_of, kv_of, ix_of. cbn.
    rewrite HK, HI, Hview, row_sum_insert by done. rewrite HTv. unfold tables_of, table_bill at 1. cbn. change (i64 table_id_billable) with table_id_billable. lia.
  - eapply set_tables_inv; [exact Hwf1| |].
    + eapply (objects_wf_create tid_conflict tid_conflict_sym); [apply Hwf1|exact Hcr].
    + rewrite Hview. eapply tables_inv_create; [apply Hwf1|done|done].
  - exists v. unfold tables_of. cbn. by rewrite Hview, lookup_insert_eq.
  - intros u w. unfold tables_of at 1. cbn. rewrite Hview. intros [[<- _]|[_ Hw]]%lookup_insert_Some Hne; [done|].
    by rewrite <- HTv.
  - intros u w Hw. unfold tables_of at 1. cbn. rewrite Hview, lookup_insert_ne; [by rewrite HTv|].
    intros <-. rewrite HTv in Hfresh. congruence.
Qed.

Lemma add_count_Ok tid delta s s' :
  add_count tid delta s = Ok s' ->
  exists t v, s' = set_tables t s /\ tables_of s !! tid = Some v /\
    obj_view t = <[tid := with_count v (u32 (ti_count v + delta))]> (tables_of s) /\
    (objects_wf tid_conflict (tables s) -> objects_wf tid_conflict t) /\
    forall x, row_sum (table_bill x) (obj_view t) = row_sum (table_bill x) (tables_of s).
Proof.
  unfold add_count. intros (t & Hm & [= <-])%bind_Ok.
  pose proof (modify_Ok _ _ _ _ _ Hm) as (_ & v & Hv & Hview & _). exists t, v. split_and!; [done|done|done| |].
  - intros Hwf. by eapply (objects_wf_modify tid_conflict tid_conflict_sym).
  - intros x. rewrite Hview, (row_sum_update _ tid v) by done.
    match goal with |- _ - _ + ?b = _ => change b with (table_bill x v) end. unfold tables_of. lia.
Qed.

Lemma remove_table_Ok c tid s s' :
  remove_table c tid s = Ok s' ->
  exists t v s1, charged (ti_payer v) (- table_id_billable) s s1 /\ s' = set_tables t s1 /\
    tables_of s !! tid = Some v /\ obj_view t = delete tid (tables_of s) /\
    (objects_wf tid_conflict (tables s) -> objects_wf tid_conflict t).
Proof.
  unfold remove_table. intros (v & Hv%deref_Ok & H1)%bind_Ok.
  rewrite minus_table_id_billable in H1.
  apply bind_Ok in H1 as (s1 & Hc%update_db_usage_charged & H1). apply bind_Ok in H1 as (t & Hr & [= <-]).
  pose proof (remove_Ok _ _ _ _ Hr) as (_ & Hview & _). pose proof (charged_tables _ _ _ _ Hc) as HT.
  exists t, v, s1. split_and!; [done|done|done| |].
  - by rewrite Hview, HT.
  - rewrite <- HT. intros Hwf. by eapply (objects_wf_remove tid_conflict).
Qed.

(** The charges of the table objects against the RAM bookkeeping. *)
Definition table_gap s x : Z := ram_used s x - row_sum (table_bill x) (tables_of s).

Lemma release_row_Ok c tid drop s s' n n' :
  (forall s0 s1, drop s0 = Ok s1 -> tables s1 = tables s0 /\ forall x, ram_used s1 x = ram_used s0 x) ->
  objects_wf tid_conflict (tables s) -> tables_inv (fun _ => False) (tables_of s) n -> n tid < 2 ^ 32 ->
  (forall u, n' u = n u - in_table u tid) ->
  release_row c tid drop s = Ok s' ->
  exists t s1, drop (set_tables t s) = Ok s1 /\ same_rows s1 s' /\
    objects_wf tid_conflict (tables s') /\ tables_inv (fun _ => False) (tables_of s') n' /\
    (forall x, table_gap s' x = table_gap s x) /\
    (forall u, u <> tid -> tables_of s' !! u = tables_of s !! u) /\
    (forall v, tables_of s' !! tid = Some v -> exists v', tables_of s !! tid = Some v' /\ tid_key v' = tid_key v).
Proof.
  intros Hdrop Hwf Hinv Hlt Hn. unfold release_row.
  intros (s0 & (t & v & -> & Hv & Hview & Hwft & Hsum)%add_count_Ok & H1)%bind_Ok. specialize (Hwft Hwf).
  apply bind_Ok in H1 as (s1 & Hd & H1). destruct (Hdrop _ _ Hd) as [HT1 HU1]. cbn in HT1.
  destruct (tables_inv_release _ _ n' _ _ Hinv Hv Hlt Hn) as [Hc Hinv'].
  apply bind_Ok in H1 as (v1 & Hv1%deref_Ok & H1).
  rewrite HT1, Hview, lookup_insert_eq in Hv1. injection Hv1 as <-. cbn in H1.
  exists t, s1. destruct (u32 (ti_count v + -1) =? 0) eqn:E0.
  - apply remove_table_Ok in H1 as (t' & v' & s2 & Hch & -> & Hv' & Hview' & Hwf').
    unfold tables_of in Hv', Hview'. rewrite HT1, Hview in Hv', Hview'.
    rewrite lookup_insert_eq in Hv'. injection Hv' as <-. rewrite delete_insert_eq in Hview'.
    rewrite HT1 in Hwf'. specialize (Hwf' Hwft). cbn in Hch.
    split_and!; [done| |done| | | |].
    + by destruct Hch.
    + unfold tables_of at 1. cbn. by rewrite Hview'.
    + intros x. unfold table_gap, tables_of at 1. cbn.
      change (ram_used (set_tables t' s2) x) with (ram_used s2 x).
      rewrite (charged_used _ _ _ _ Hch), HU1, Hview', (row_sum_delete _ _ v) by done.
      change (ram_used (set_tables t s) x) with (ram_used s x). unfold table_bill at 2. lia.
    + intros u Hu. unfold tables_of at 1. cbn. by rewrite Hview', lookup_delete_ne.
    + intros w. unfold tables_of at 1. cbn. by rewrite Hview', lookup_delete_eq.
  - injection H1 as <-. rewrite HT1. split_and!; [done|done|done| | | |].
    + unfold tables_of at 1. by rewrite HT1, Hview.
    + intros x. unfold table_gap, tables_of at 1. rewrite HT1, HU1, Hsum. done.
    + intros u Hu. unfold tables_of at 1. by rewrite HT1, Hview, lookup_insert_ne.
    + intros w. unfold tables_of at 1. rewrite HT1, Hview, lookup_insert_eq. intros [= <-]. eauto.
Qed.

(** ** Rows *)

Lemma set_key_values_rows kv s t :
  rows_of (set_key_values kv s) t = rows_of s t +
    row_sum (fun v => in_table (kv_t_id v) t) (obj_view kv) -
    row_sum (fun v => in_table (kv_t_id v) t) (kv_of s).
Proof. unfold rows_of, kv_of, ix_of. cbn. lia. Qed.

Lemma set_key_values_gap kv s x :
  ram_gap (set_key_values kv s) x =
    ram_gap s x - row_sum (kv_bill x) (obj_view kv) + row_sum (kv_bill x) (kv_of s).
Proof.
  unfold ram_gap, billed, tables_of, kv_of, ix_of. change (ram_used (set_key_values kv s) x) with (ram_used s x).
  cbn. lia.
Qed.

Lemma ix_of_set_index k ix s k' :
  ix_of (set_index k ix s) k' = if decide (k' = k) then obj_view ix else ix_of s k'.
Proof. unfold ix_of. cbn. unfold update_kind. by case_decide. Qed.

Lemma set_index_rows k ix s t :
  rows_of (set_index k ix s) t = rows_of s t +
    row_sum (fun v => in_table (ix_t_id v) t) (obj_view ix) -
    row_sum (fun v => in_table (ix_t_id v) t) (ix_of s k).
Proof.
  unfold rows_of. rewrite (sum_kinds_update (fun k => row_sum (fun v => in_table (ix_t_id v) t) (ix_of s k)) _ k).
  - rewrite ix_of_set_index, decide_True by done. unfold kv_of. cbn. lia.
  - intros k' Hk. by rewrite ix_of_set_index, decide_False.
Qed.

Lemma set_index_gap k ix s x :
  ram_gap (set_index k ix s) x =
    ram_gap s x - row_sum (ix_bill x k) (obj_view ix) + row_sum (ix_bill x k) (ix_of s k).
Proof.
  unfold ram_gap, billed. rewrite (sum_kinds_update (fun k => row_sum (ix_bill x k) (ix_of s k)) _ k).
  - rewrite ix_of_set_index, decide_True by done. unfold tables_of, kv_of. cbn.
    change (ram_used (set_index k ix s) x) with (ram_used s x). lia.
  - intros k' Hk. by rewrite ix_of_set_index, decide_False.
Qed.

(** A row created or changed in place. *)
Lemma set_key_values_inv ex n kv s o v :
  table_state_inv ex n s -> objects_wf kv_conflict kv -> obj_view kv = <[o := v]> (kv_of s) ->
  (forall w, kv_of s !! o = Some w -> kv_t_id w = kv_t_id v) -> zlength (kv_value v) < 2 ^ 32 ->
  table_state_inv ex n (set_key_values kv s).
Proof.
  intros [] Hwf Hview Ht Hlen. split; try done; unfold kv_of; cbn; rewrite Hview.
  - by apply table_cache_ok_insert.
  - intros i w [[<- <-]|[? Hw]]%lookup_insert_Some; [done|eauto].
Qed.

Lemma set_index_inv ex n k ix s o v :
  table_state_inv ex n s -> objects_wf ix_conflict ix -> obj_view ix = <[o := v]> (ix_of s k) ->
  (forall w, ix_of s k !! o = Some w -> ix_t_id w = ix_t_id v) ->
  table_state_inv ex n (set_index k ix s).
Proof.
  intros [] Hwf Hview Ht. split; try done.
  - intros k'. cbn. unfold update_kind. case_decide; subst; eauto.
  - intros k'. rewrite ix_of_set_index. case_decide; [subst|apply wf_itr_cache0].
    rewrite Hview. by apply table_cache_ok_insert.
Qed.

(** Handing out an iterator keeps the invariant and touches nothing else. *)
Lemma set_keyval_cache_inv ex n cache s :
  table_state_inv ex n s -> cache_ok kv_t_id (kv_of s) cache ->
  table_state_inv ex n (set_keyval_cache cache s).
Proof. intros []. split; done. Qed.

Lemma set_itr_cache_inv ex n k cache s :
  table_state_inv ex n s -> cache_ok ix_t_id (ix_of s k) cache ->
  table_state_inv ex n (set_itr_cache k cache s).
Proof.
  intros []. split; try done. intros k'. cbn. unfold update_kind. case_decide; subst; [done|].
  apply wf_itr_cache0.
Qed.

(** The end of both store operations: the new row is counted in its table. *)
Lemma add_count_inv tid n n' s s' :
  table_state_inv (fun u => u = tid) n s -> n tid < 2 ^ 32 - 1 ->
  (forall u, n' u = n u + in_table tid u) -> add_count tid 1 s = Ok s' ->
  table_state_inv (fun _ => False) n' s' /\ same_rows s s' /\ (forall x, ram_gap s' x = ram_gap s x) /\
  (forall u v, tables_of s' !! u = Some v -> exists v', tables_of s !! u = Some v' /\ tid_key v' = tid_key v) /\
  (forall u v, tables_of s !! u = Some v -> exists v', tables_of s' !! u = Some v' /\ tid_key v' = tid_key v).
Proof.
  intros Hinv Hlt Hn (t & v & -> & Hv & Hview & Hwf & Hsum)%add_count_Ok.
  split_and!.
  - eapply set_tables_inv; [done|apply Hwf, Hinv|]. rewrite Hview.
    eapply (tables_inv_add _ n); [apply Hinv|done|done|]. intros u. rewrite Hn. unfold in_table.
    by rewrite Z.eqb_sym.
  - done.
  - intros x. unfold ram_gap, billed. unfold tables_of at 1. cbn. rewrite Hsum. done.
  - intros u w. unfold tables_of at 1. cbn. rewrite Hview.
    intros [[<- <-]|[? Hw]]%lookup_insert_Some; eauto.
  - intros u w Hw. unfold tables_of at 1. cbn. rewrite Hview. destruct (decide (tid = u)) as [<-|].
    + rewrite lookup_insert_eq. simplify_eq. eauto.
    + rewrite lookup_insert_ne by done. eauto.
Qed.

(** ** What contracts see *)

(** The row with primary key [id] of the table with key [tab]: payer and bytes. *)
Definition kv_row s (tab : Z * Z * Z) (id : Z) (row : Z * list Z) : Prop :=
  exists t tv o v, tables_of s !! t = Some tv /\ tid_key tv = tab /\
    kv_of s !! o = Some v /\ kv_t_id v = t /\ kv_primary_key v = id /\ row = (kv_payer v, kv_value v).

(** The row of index [k]: payer and secondary key. *)
Definition ix_row s (k : index_kind) (tab : Z * Z * Z) (id : Z) (row : Z * secondary_key) : Prop :=
  exists t tv o v, tables_of s !! t = Some tv /\ tid_key tv = tab /\
    ix_of s k !! o = Some v /\ ix_t_id v = t /\ ix_primary_key v = id /\
    row = (ix_payer v, ix_secondary_key v).

(** Tables of [s] are tables of [s'], under the same id. *)
Definition keys_kept s s' : Prop :=
  forall t v, tables_of s !! t = Some v -> exists v', tables_of s' !! t = Some v' /\ tid_key v' = tid_key v.

Lemma keys_kept_eq s s' : tables s' = tables s -> keys_kept s s'.
Proof. intros E t v Hv. unfold tables_of. rewrite E. eauto. Qed.

Lemma keys_kept_trans s1 s2 s3 : keys_kept s1 s2 -> keys_kept s2 s3 -> keys_kept s1 s3.
Proof.
  intros H1 H2 t v (v2 & Hv2 & E2)%H1. apply H2 in Hv2 as (v3 & Hv3 & E3). exists v3. by rewrite E3.
Qed.

Lemma in_table_nonneg f t : 0 <= in_table f t.
Proof. unfold in_table. case_match; lia. Qed.
Lemma in_table_sym f t : in_table f t = in_table t f.
Proof. unfold in_table. by rewrite Z.eqb_sym. Qed.
Lemma in_table_eq t : in_table t t = 1.
Proof. unfold in_table. by rewrite Z.eqb_refl. Qed.

Lemma row_sum_in_table_nonneg {V} (f : V -> Z) (m : gmap Z V) t : 0 <= row_sum (fun v => in_table (f v) t) m.
Proof. apply row_sum_nonneg. intros. apply in_table_nonneg. Qed.

Lemma kv_rows_ge s o v : kv_of s !! o = Some v -> 1 <= rows_of s (kv_t_id v).
Proof.
  intros Hv. unfold rows_of.
  pose proof (row_sum_ge (fun w => in_table (kv_t_id w) (kv_t_id v)) _ _ _ (fun _ _ _ => in_table_nonneg _ _) Hv) as Hg.
  cbn in Hg. rewrite in_table_eq in Hg.
  pose proof (sum_kinds_ge (fun k => row_sum (fun w => in_table (ix_t_id w) (kv_t_id v)) (ix_of s k)) idx64
    (fun k => row_sum_in_table_nonneg _ _ _)).
  pose proof (row_sum_in_table_nonneg ix_t_id (ix_of s idx64) (kv_t_id v)). cbn in *. lia.
Qed.

Lemma ix_rows_ge s k o v : ix_of s k !! o = Some v -> 1 <= rows_of s (ix_t_id v).
Proof.
  intros Hv. unfold rows_of.
  pose proof (row_sum_ge (fun w => in_table (ix_t_id w) (ix_t_id v)) _ _ _ (fun _ _ _ => in_table_nonneg _ _) Hv) as Hg.
  cbn in Hg. rewrite in_table_eq in Hg.
  pose proof (sum_kinds_ge (fun k => row_sum (fun w => in_table (ix_t_id w) (ix_t_id v)) (ix_of s k)) k
    (fun k => row_sum_in_table_nonneg _ _ _)).
  pose proof (row_sum_in_table_nonneg kv_t_id (kv_of s) (ix_t_id v)). cbn in *. lia.
Qed.

(** The table of a row is live. *)
Lemma kv_table_live s o v :
  table_state_wf s -> kv_of s !! o = Some v -> exists tv, tables_of s !! kv_t_id v = Some tv.
Proof. intros Hwf ?%kv_rows_ge. apply (ti_live _ _ _ (wf_counts _ _ _ Hwf)). lia. Qed.

Lemma ix_table_live s k o v :
  table_state_wf s -> ix_of s k !! o = Some v -> exists tv, tables_of s !! ix_t_id v = Some tv.
Proof. intros Hwf ?%ix_rows_ge. apply (ti_live _ _ _ (wf_counts _ _ _ Hwf)). lia. Qed.

(** Two tables with one key are the same object. *)
Lemma table_key_inj s t t' v v' :
  objects_wf tid_conflict (tables s) ->
  tables_of s !! t = Some v -> tables_of s !! t' = Some v' -> tid_key v = tid_key v' -> t = t'.
Proof.
  intros Hwf Hv Hv' E. destruct (decide (t = t')) as [|Hne]; [done|].
  pose proof (objects_unique _ _ Hwf _ _ _ _ Hv Hv' Hne) as Hc. by apply bool_decide_eq_false in Hc.
Qed.

Lemma kv_row_fun s tab id r r' : table_state_wf s -> kv_row s tab id r -> kv_row s tab id r' -> r = r'.
Proof.
  intros Hwf (t & tv & o & v & Ht & Hk & Hv & Et & Ei & ->) (t' & tv' & o' & v' & Ht' & Hk' & Hv' & Et' & Ei' & ->).
  assert (t = t') as <- by (eapply table_key_inj; [apply Hwf|..]; eauto; congruence).
  destruct (decide (o = o')) as [<-|Hne]; [by simplify_eq|].
  pose proof (objects_unique _ _ (wf_kv _ _ _ Hwf) _ _ _ _ Hv Hv' Hne) as Hc.
  unfold kv_conflict in Hc. rewrite Et, Et', Ei, Ei', !Z.eqb_refl in Hc. done.
Qed.

(** Iterators: [it] stands for the row [id] of [tab], or for the end of [tab]. *)
Definition kv_at s (it : Z) (tab : Z * Z * Z) (id : Z) : Prop :=
  exists o v tv, cache_get it (keyval_cache s) = Ok o /\ kv_of s !! o = Some v /\
    kv_primary_key v = id /\ tables_of s !! kv_t_id v = Some tv /\ tid_key tv = tab.
Definition kv_end s (it : Z) (tab : Z * Z * Z) : Prop :=
  exists t tv, tables_of s !! t = Some tv /\ tid_key tv = tab /\
    _table_cache (keyval_cache s) !! t = Some (t, it).
Definition ix_at s k (it : Z) (tab : Z * Z * Z) (id : Z) : Prop :=
  exists o v tv, cache_get it (itr_cache s k) = Ok o /\ ix_of s k !! o = Some v /\
    ix_primary_key v = id /\ tables_of s !! ix_t_id v = Some tv /\ tid_key tv = tab.
Definition ix_end s k (it : Z) (tab : Z * Z * Z) : Prop :=
  exists t tv, tables_of s !! t = Some tv /\ tid_key tv = tab /\
    _table_cache (itr_cache s k) !! t = Some (t, it).

End invariant.
