(* ===== verification/ContractTableOps.v ===== *)
(** * Contract tables: what the operations do

    Storing, updating and removing rows of primary and secondary indices, as
    changes of the rows contracts see ([kv_row], [ix_row]).  Each operation that
    returns keeps [table_state_wf] and charges exactly the change of the
    billable size to the payers of the rows. *)

From S2P Require Import Prelude Exceptions Types ObjectIndex IteratorCache Authority.
From S2P Require Import AuthorizationManager ContractTables SecondaryIndex ContractTableProps.

Section operations.
Context `{SoftFloat} {TT KT IT : Type}.
Context `{!ObjectIndex table_id_object TT tid_conflict}.
Context `{!ObjectIndex key_value_object KT kv_conflict}.
Context `{!ObjectIndex index_object IT ix_conflict}.
Notation state := (@table_state TT KT IT).
Implicit Types (s : state) (c : context_info).

(** ** Changes of rows *)

(** The row [id] of [tab] becomes [r]; all other primary rows stay. *)
Definition kv_rows_set s s' (tab : Z * Z * Z) (id : Z) (r : option (Z * list Z)) : Prop :=
  forall tab' id' row, kv_row s' tab' id' row <->
    if decide ((tab', id') = (tab, id)) then r = Some row else kv_row s tab' id' row.
Definition ix_rows_set s s' k (tab : Z * Z * Z) (id : Z) (r : option (Z * secondary_key)) : Prop :=
  forall k' tab' id' row, ix_row s' k' tab' id' row <->
    if decide ((k', tab', id') = (k, tab, id)) then r = Some row else ix_row s k' tab' id' row.
Definition kv_rows_same s s' : Prop :=
  forall tab id row, kv_row s' tab id row <-> kv_row s tab id row.
Definition ix_rows_same s s' : Prop :=
  forall k tab id row, ix_row s' k tab id row <-> ix_row s k tab id row.

(** Tables live in both states have the same key. *)
Definition keys_agree s s' : Prop :=
  forall t v v', tables_of s !! t = Some v -> tables_of s' !! t = Some v' -> tid_key v = tid_key v'.

Lemma keys_kept_agree s s' : keys_kept s s' -> keys_agree s s'.
Proof. intros Hk t v v' (w & Hw & E)%Hk Hv'. assert (w = v') as <- by congruence. done. Qed.
Lemma keys_kept_agree_rev s s' : keys_kept s' s -> keys_agree s s'.
Proof. intros Hk t v v' Hv (w & Hw & E)%Hk. assert (w = v) as <- by congruence. done. Qed.

Lemma kv_row_transfer s s' o v tab id row :
  table_state_wf s' -> keys_agree s s' ->
  (exists tv, tables_of s !! kv_t_id v = Some tv /\ tid_key tv = tab) ->
  kv_of s' !! o = Some v -> kv_primary_key v = id -> row = (kv_payer v, kv_value v) ->
  kv_row s' tab id row.
Proof.
  intros Hwf Hk (tv & Htv & E) Hv Hid ->. destruct (kv_table_live _ _ _ Hwf Hv) as [tv' Htv'].
  exists (kv_t_id v), tv', o, v. rewrite <- (Hk _ _ _ Htv Htv'). by split_and!.
Qed.

Lemma ix_row_transfer s s' k o v tab id row :
  table_state_wf s' -> keys_agree s s' ->
  (exists tv, tables_of s !! ix_t_id v = Some tv /\ tid_key tv = tab) ->
  ix_of s' k !! o = Some v -> ix_primary_key v = id -> row = (ix_payer v, ix_secondary_key v) ->
  ix_row s' k tab id row.
Proof.
  intros Hwf Hk (tv & Htv & E) Hv Hid ->. destruct (ix_table_live _ _ _ _ Hwf Hv) as [tv' Htv'].
  exists (ix_t_id v), tv', o, v. rewrite <- (Hk _ _ _ Htv Htv'). by split_and!.
Qed.

Lemma keys_agree_sym s s' : keys_agree s s' -> keys_agree s' s.
Proof. intros Hk t v v' ??. symmetry. by eapply Hk. Qed.

Lemma kv_rows_same_intro s s' :
  table_state_wf s -> table_state_wf s' -> keys_agree s s' -> key_values s' = key_values s ->
  kv_rows_same s s'.
Proof.
  intros Hwf Hwf' Hk E tab id row.
  assert (kv_of s' = kv_of s) as Ek by (unfold kv_of; by rewrite E).
  split; intros (t & tv & o & v & Ht & Htab & Hv & <- & Hid & ->).
  - eapply (kv_row_transfer s' s o v); eauto using keys_agree_sym. by rewrite <- Ek.
  - eapply (kv_row_transfer s s' o v); eauto. by rewrite Ek.
Qed.

Lemma ix_rows_same_intro s s' :
  table_state_wf s -> table_state_wf s' -> keys_agree s s' -> indices s' = indices s ->
  ix_rows_same s s'.
Proof.
  intros Hwf Hwf' Hk E k tab id row.
  assert (ix_of s' k = ix_of s k) as Ek by (unfold ix_of; by rewrite E).
  split; intros (t & tv & o & v & Ht & Htab & Hv & <- & Hid & ->).
  - eapply (ix_row_transfer s' s); eauto using keys_agree_sym. by rewrite <- Ek.
  - eapply (ix_row_transfer s s'); eauto. by rewrite Ek.
Qed.

(** A row put in place of nothing, or of a row with the same key. *)
Lemma kv_rows_put s s' o v tv :
  table_state_wf s -> table_state_wf s' -> keys_agree s s' ->
  kv_of s' = <[o := v]> (kv_of s) -> tables_of s' !! kv_t_id v = Some tv ->
  (forall w, kv_of s !! o = Some w -> kv_t_id w = kv_t_id v /\ kv_primary_key w = kv_primary_key v) ->
  kv_rows_set s s' (tid_key tv) (kv_primary_key v) (Some (kv_payer v, kv_value v)).
Proof.
  intros Hwf Hwf' Hk Ev Htv Hsame tab' id' row. case_decide as E; [simplify_eq|].
  - split.
    + intros Hr. f_equal. eapply kv_row_fun; [exact Hwf'| |exact Hr].
      exists (kv_t_id v), tv, o, v. rewrite Ev, lookup_insert_eq. by split_and!.
    + intros [= <-]. exists (kv_t_id v), tv, o, v. rewrite Ev, lookup_insert_eq. by split_and!.
  - split; intros (t & tv' & o' & w & Ht & Htab & Hw & <- & Hid & ->).
    + rewrite Ev in Hw. apply lookup_insert_Some in Hw as [[<- <-]|[Hne Hw]]; [by simplify_eq|].
      eapply (kv_row_transfer s' s o' w); eauto using keys_agree_sym.
    + eapply (kv_row_transfer s s' o' w); eauto. rewrite Ev. destruct (decide (o' = o)) as [->|Hne];
        [|by rewrite lookup_insert_ne].
      destruct (Hsame _ Hw) as [Et Ep]. destruct E. rewrite <- Ep, Hid. f_equal.
      rewrite <- Htab. eapply Hk; [done|by rewrite Et].
Qed.

Lemma ix_rows_put s s' k o v tv :
  table_state_wf s -> table_state_wf s' -> keys_agree s s' ->
  (forall k', k' <> k -> ix_of s' k' = ix_of s k') ->
  ix_of s' k = <[o := v]> (ix_of s k) -> tables_of s' !! ix_t_id v = Some tv ->
  (forall w, ix_of s k !! o = Some w -> ix_t_id w = ix_t_id v /\ ix_primary_key w = ix_primary_key v) ->
  ix_rows_set s s' k (tid_key tv) (ix_primary_key v) (Some (ix_payer v, ix_secondary_key v)).
Proof.
  intros Hwf Hwf' Hk Hk' Ev Htv Hsame k' tab' id' row. case_decide as E; [simplify_eq|].
  - split.
    + intros (t & tv' & o' & w & Ht & Htab & Hw & <- & Hid & ->). f_equal.
      assert (ix_t_id w = ix_t_id v) as Et by (eapply table_key_inj; [apply Hwf'|..]; eauto).
      destruct (decide (o = o')) as [<-|Hne]; [by rewrite Ev, lookup_insert_eq in Hw; simplify_eq|].
      assert (ix_of s' k !! o = Some v) as Hv by (by rewrite Ev, lookup_insert_eq).
      pose proof (objects_unique _ _ (wf_ix _ _ _ Hwf' k) _ _ _ _ Hv Hw Hne) as Hc.
      unfold ix_conflict in Hc. by rewrite Et, Hid, !Z.eqb_refl in Hc.
    + intros [= <-]. exists (ix_t_id v), tv, o, v. rewrite Ev, lookup_insert_eq. by split_and!.
  - split; intros (t & tv' & o' & w & Ht & Htab & Hw & <- & Hid & ->).
    + eapply (ix_row_transfer s' s); eauto using keys_agree_sym.
      destruct (decide (k' = k)) as [->|]; [|by rewrite <- Hk'].
      rewrite Ev in Hw. apply lookup_insert_Some in Hw as [[<- <-]|[Hne Hw]]; [by simplify_eq|done].
    + eapply (ix_row_transfer s s'); eauto. destruct (decide (k' = k)) as [->|]; [|by rewrite Hk'].
      rewrite Ev. destruct (decide (o' = o)) as [->|Hne]; [|by rewrite lookup_insert_ne].
      destruct (Hsame _ Hw) as [Et Ep]. destruct E. rewrite <- Ep, Hid. do 2 f_equal.
      rewrite <- Htab. eapply Hk; [done|by rewrite Et].
Qed.

Lemma kv_rows_del s s' o v tv :
  table_state_wf s -> table_state_wf s' -> keys_agree s s' ->
  kv_of s' = delete o (kv_of s) -> kv_of s !! o = Some v -> tables_of s !! kv_t_id v = Some tv ->
  kv_rows_set s s' (tid_key tv) (kv_primary_key v) None.
Proof.
  intros Hwf Hwf' Hk Ev Hv Htv tab' id' row. case_decide as E; [simplify_eq|].
  - split; [|done]. intros (t & tv' & o' & w & Ht & Htab & Hw & <- & Hid & ->). exfalso.
    rewrite Ev in Hw. apply lookup_delete_Some in Hw as [Hne Hw].
    destruct (kv_table_live _ _ _ Hwf Hw) as [tw Htw].
    assert (kv_t_id w = kv_t_id v) as Et.
    { eapply table_key_inj; [apply Hwf|..]; eauto. rewrite (Hk _ _ _ Htw Ht). done. }
    pose proof (objects_unique _ _ (wf_kv _ _ _ Hwf) _ _ _ _ Hv Hw Hne) as Hc.
    unfold kv_conflict in Hc. by rewrite Et, Hid, !Z.eqb_refl in Hc.
  - split; intros (t & tv' & o' & w & Ht & Htab & Hw & <- & Hid & ->).
    + rewrite Ev in Hw. apply lookup_delete_Some in Hw as [Hne Hw].
      eapply (kv_row_transfer s' s o' w); eauto using keys_agree_sym.
    + eapply (kv_row_transfer s s' o' w); eauto. rewrite Ev. rewrite lookup_delete_ne; [done|].
      intros <-. simplify_eq.
Qed.

Lemma ix_rows_del s s' k o v tv :
  table_state_wf s -> table_state_wf s' -> keys_agree s s' ->
  (forall k', k' <> k -> ix_of s' k' = ix_of s k') ->
  ix_of s' k = delete o (ix_of s k) -> ix_of s k !! o = Some v -> tables_of s !! ix_t_id v = Some tv ->
  ix_rows_set s s' k (tid_key tv) (ix_primary_key v) None.
Proof.
  intros Hwf Hwf' Hk Hk' Ev Hv Htv k' tab' id' row. case_decide as E; [simplify_eq|].
  - split; [|done]. intros (t & tv' & o' & w & Ht & Htab & Hw & <- & Hid & ->). exfalso.
    rewrite Ev in Hw. apply lookup_delete_Some in Hw as [Hne Hw].
    destruct (ix_table_live _ _ _ _ Hwf Hw) as [tw Htw].
    assert (ix_t_id w = ix_t_id v) as Et.
    { eapply table_key_inj; [apply Hwf|..]; eauto. rewrite (Hk _ _ _ Htw Ht). done. }
    pose proof (objects_unique _ _ (wf_ix _ _ _ Hwf k) _ _ _ _ Hv Hw Hne) as Hc.
    unfold ix_conflict in Hc. by rewrite Et, Hid, !Z.eqb_refl in Hc.
  - split; intros (t & tv' & o' & w & Ht & Htab & Hw & <- & Hid & ->).
    + eapply (ix_row_transfer s' s); eauto using keys_agree_sym.
      destruct (decide (k' = k)) as [->|]; [|by rewrite <- Hk'].
      rewrite Ev in Hw. by apply lookup_delete_Some in Hw as [Hne Hw].
    + eapply (ix_row_transfer s s'); eauto. destruct (decide (k' = k)) as [->|]; [|by rewrite Hk'].
      rewrite Ev, lookup_delete_ne; [done|]. intros <-. simplify_eq.
Qed.

Lemma table_state_inv_ext ex n n' s :
  (forall t, n' t = n t) -> table_state_inv ex n s -> table_state_inv ex n' s.
Proof. intros E []. split; try done. by eapply tables_inv_ext. Qed.

(** A row just created is counted in its table and paid for. *)
Lemma count_row_Ok {A} c tab payer size n s (k : state -> res A) r :
  table_state_inv (fun u => u = tab) n s -> n tab < 2 ^ 32 - 1 ->
  (forall u, rows_of s u = n u + in_table tab u) ->
  (s ← add_count tab 1 s; s ← update_db_usage c payer size s; k s) = Ok r ->
  exists s', k s' = Ok r /\ table_state_wf s' /\ same_rows s s' /\ keys_kept s s' /\ keys_kept s' s /\
    forall x, ram_gap s' x = ram_gap s x + weight x payer * size.
Proof.
  intros Hinv Hlt Hn (s1 & Hadd & H1)%bind_Ok. apply bind_Ok in H1 as (s2 & Hch%update_db_usage_charged & H1).
  destruct (add_count_inv tab n (rows_of s) s s1) as (Hinv1 & Hsame & Hgap & Hold & Hkept); [done..|].
  assert (same_rows s s2) as Hsame2 by (eapply same_rows_trans; [done|by eapply charged_same_rows]).
  assert (tables_of s2 = tables_of s1) as HT by (unfold tables_of; by rewrite (charged_tables _ _ _ _ Hch)).
  exists s2. split_and!; [done| |done| | |].
  - eapply table_state_inv_ext; [|by eapply charged_inv]. intros t. cbn. by apply same_rows_of.
  - unfold keys_kept. by rewrite HT.
  - unfold keys_kept. by rewrite HT.
  - intros x. by rewrite (charged_gap _ _ _ _ _ Hch), Hgap.
Qed.

(** ** Primary rows *)

Lemma i64_u64 z : i64 (u64 z) = i64 z.
Proof. unfold i64, u64. by rewrite Zplus_mod_idemp_l. Qed.

Lemma i64_row_size (b : list Z) :
  zlength b < 2 ^ 32 -> i64 (u64 (zlength b + key_value_billable)) = zlength b + key_value_billable.
Proof. intros. rewrite key_value_billable_value, u64_small, i64_small by lia. done. Qed.

Lemma i64_minus_row_size (b : list Z) :
  zlength b < 2 ^ 32 ->
  i64 (u64 (- u64 (zlength b + key_value_billable))) = - (zlength b + key_value_billable).
Proof.
  intros. rewrite key_value_billable_value, (u64_small (zlength b + 112)) by lia.
  rewrite i64_u64, i64_small by lia. done.
Qed.

(** The new row is in the database, not yet in the cache. *)
Lemma db_store_i64_row c code scope table payer id buffer s it s' :
  table_state_wf s -> table_state_small s -> zlength buffer < 2 ^ 32 ->
  db_store_i64 c code scope table payer id buffer s = Ok (it, s') ->
  exists tab obj s1,
    let '(ei, c1) := cache_table tab (keyval_cache s) in
    let '(it1, c2) := cache_add obj c1 in
    it = it1 /\ s' = set_keyval_cache c2 s1 /\ table_state_wf s1 /\ (forall x, ram_gap s1 x = ram_gap s x) /\
    keys_kept s s1 /\ keyval_cache s1 = keyval_cache s /\ indices s1 = indices s /\
    kv_of s1 = <[obj := mk_kv tab id payer buffer]> (kv_of s) /\ kv_of s !! obj = None /\
    (forall o w, kv_of s !! o = Some w -> kv_conflict (mk_kv tab id payer buffer) w = false) /\
    exists tv, tables_of s1 !! tab = Some tv /\ tid_key tv = (code, scope, table).
Proof.
  intros Hwf Hsm Hlen. unfold db_store_i64. intros (? & _ & H1)%bind_Ok.
  apply bind_Ok in H1 as ([tab s1] & Hfoc & H1).
  destruct (find_or_create_table_Ok _ _ _ _ _ _ _ _ Hwf Hfoc)
    as ((HK & HI & HC & _) & Hgap1 & Hinv1 & (tv & Htv & Hkey) & _ & Hkept1).
  apply bind_Ok in H1 as (? & _ & H1). apply bind_Ok in H1 as ([obj kv] & Hcr & H1).
  pose proof (create_Ok _ _ _ _ _ Hcr) as (_ & _ & Hview & Hfree).
  destruct (objects_wf_create kv_conflict kv_conflict_sym _ _ _ _ (wf_kv _ _ _ Hinv1) Hcr) as [Hwfkv Hnone].
  set (v := mk_kv tab id payer buffer) in *. rewrite HK in Hview, Hnone, Hfree. fold (kv_of s) in Hview, Hnone.
  assert (kv_of s1 = kv_of s) as HK1 by (unfold kv_of; by rewrite HK).
  rewrite i64_row_size in H1 by done.
  apply (count_row_Ok _ _ _ _ (rows_of s)) in H1 as (s4 & Hend & Hwf4 & (HK4 & HI4 & HC4 & _) & Hkept4 & _ & Hgap4).
  - cbn in HK4, HI4, HC4. rewrite HC4, HC in Hend. exists tab, obj, s4.
    destruct (cache_table tab (keyval_cache s)) as [ei c1], (cache_add obj c1) as [it1 c2].
    injection Hend as <- <-.
    split_and!; try done; [|by intros t w Hw%Hkept1%Hkept4|congruence|congruence|unfold kv_of at 1; by rewrite HK4|].
    + intros y. rewrite Hgap4, set_key_values_gap, Hgap1, Hview, HK1, row_sum_insert by done.
      unfold kv_bill at 1, v. cbn. lia.
    + destruct (Hkept4 tab tv Htv) as (tv4 & Htv4 & E). exists tv4. by rewrite E.
  - eapply (set_key_values_inv _ _ kv s1 obj v); try done; rewrite HK1; [done|]. intros w. by rewrite Hnone.
  - apply Hsm.
  - intros u. rewrite set_key_values_rows, HK1, Hview, row_sum_insert by done.
    unfold rows_of at 1. rewrite HK1. unfold ix_of. rewrite HI. unfold rows_of, ix_of. cbn. lia.
Qed.

Lemma db_store_i64_effect c code scope table payer id buffer s it s' :
  table_state_wf s -> table_state_small s -> zlength buffer < 2 ^ 32 ->
  db_store_i64 c code scope table payer id buffer s = Ok (it, s') ->
  table_state_wf s' /\ (forall x, ram_gap s' x = ram_gap s x) /\
  ~ (exists row, kv_row s (code, scope, table) id row) /\
  kv_rows_set s s' (code, scope, table) id (Some (payer, buffer)) /\ ix_rows_same s s' /\
  kv_at s' it (code, scope, table) id /\
  (forall it0 tab0 id0, kv_at s it0 tab0 id0 -> kv_at s' it0 tab0 id0).
Proof.
  intros Hwf Hsm Hlen (tab & obj & s1 & H1)%db_store_i64_row; try done.
  destruct (cache_table tab (keyval_cache s)) as [ei c1] eqn:Ec1, (cache_add obj c1) as [it1 c2] eqn:Ec2.
  destruct H1 as (<- & -> & Hwf1 & Hgap & Hkept & HC & HI & Hkv & Hnone & Hfree & tv & Htv & Hkey).
  set (v := mk_kv tab id payer buffer) in *.
  pose proof (wf_keyval_cache _ _ _ Hwf1) as Hok. rewrite HC in Hok.
  destruct (cache_ok_table _ _ _ _ _ _ Hok (proj1 (small_keyval_cache _ Hsm)) Ec1) as (Hok1 & Ht1 & Hlen1 & Htabs1 & Hget1).
  destruct (cache_ok_add kv_t_id (kv_of s1) c1 obj v it c2) as (Hok2 & Hg2 & HT2 & Hget2);
    [done|rewrite Hlen1; apply Hsm|by rewrite Hkv, lookup_insert_eq|cbn; eauto|done|].
  assert (table_state_wf (set_keyval_cache c2 s1)) as Hwf' by by apply set_keyval_cache_inv.
  assert (keys_agree s (set_keyval_cache c2 s1)) as Hagree by by apply keys_kept_agree.
  split_and!; [done|done| | | | |].
  - intros (row & t & tw & o & w & Ht & Hk & Hw & <- & Hid & _). destruct (Hkept _ _ Ht) as (tw' & Htw' & E).
    assert (kv_t_id w = tab) as Et by (eapply table_key_inj; [apply Hwf1|exact Htw'|exact Htv|congruence]).
    specialize (Hfree o w Hw). unfold kv_conflict in Hfree. cbn in Hfree. by rewrite Et, Hid, !Z.eqb_refl in Hfree.
  - rewrite <- Hkey. apply (kv_rows_put s _ obj v tv); try done. intros w. by rewrite Hnone.
  - by apply ix_rows_same_intro.
  - exists obj, v, tv. change (kv_of (set_keyval_cache c2 s1)) with (kv_of s1). by rewrite Hkv, lookup_insert_eq.
  - intros it0 tab0 id0 (o & w & tw & Hg & Hw & Hid & Htw & Hk). exists o, w.
    destruct (Hkept _ _ Htw) as (tw' & Htw' & E). exists tw'. split_and!; try done; [| |congruence].
    + by apply Hget2, Hget1.
    + change (kv_of s1 !! o = Some w). rewrite Hkv, lookup_insert_ne; congruence.
Qed.

(** [s'] differs from [s] in the RAM bookkeeping only: [old] bytes of [p] have
    become [new] bytes of [p']. *)
Record recharged (p p' old new : Z) s s' : Prop := {
  rc_tables : tables s' = tables s;
  rc_kv : key_values s' = key_values s;
  rc_ix : indices s' = indices s;
  rc_keyval : keyval_cache s' = keyval_cache s;
  rc_itr : itr_cache s' = itr_cache s;
  rc_used x : ram_used s' x = ram_used s x - weight x p * old + weight x p' * new;
}.

Lemma recharge_Ok c p p' old new s s' :
  (if negb (p =? p') then s ← update_db_usage c p (- old) s; update_db_usage c p' new s
   else if negb (old =? new) then update_db_usage c p (new - old) s else Ok s) = Ok s' ->
  recharged p p' old new s s'.
Proof.
  destruct (p =? p') eqn:Ep; bool_to_Z; cbn.
  - subst p'. destruct (old =? new) eqn:Eo; bool_to_Z; cbn.
    + subst. intros [= <-]. split; try done. intros x. lia.
    + intros Hch%update_db_usage_charged. destruct Hch. split; try done. intros x. rewrite charged_used. lia.
  - intros (s1 & Hch1%update_db_usage_charged & Hch2%update_db_usage_charged)%bind_Ok.
    destruct Hch1 as [T1 K1 I1 C1 J1 U1], Hch2 as [T2 K2 I2 C2 J2 U2]. split; try congruence.
    intros x. rewrite U2, U1. lia.
Qed.

Lemma recharged_inv p p' old new ex n s s' :
  recharged p p' old new s s' -> table_state_inv ex n s -> table_state_inv ex n s'.
Proof.
  intros [HT HK HI HC HJ _] []. split; unfold tables_of, kv_of, ix_of in *;
    rewrite ?HT, ?HK, ?HI, ?HC, ?HJ; done.
Qed.

Lemma recharged_rows p p' old new s s' t : recharged p p' old new s s' -> rows_of s' t = rows_of s t.
Proof. intros [HT HK HI _ _ _]. unfold rows_of, kv_of, ix_of. by rewrite HK, HI. Qed.

Lemma recharged_gap p p' old new s s' x :
  recharged p p' old new s s' -> ram_gap s' x = ram_gap s x - weight x p * old + weight x p' * new.
Proof.
  intros [HT HK HI _ _ HU]. unfold ram_gap, billed, tables_of, kv_of, ix_of. rewrite HU, HT, HK, HI. lia.
Qed.

(** Changing operations reach the row of their iterator, in a live table of the
    receiver. *)
Lemma kv_row_of_iterator s it o :
  table_state_wf s -> cache_get it (keyval_cache s) = Ok o ->
  exists v tv, kv_of s !! o = Some v /\ tables_of s !! kv_t_id v = Some tv /\
    get_table (kv_t_id v) (keyval_cache s) = Ok (kv_t_id v) /\
    (exists ei, get_end_iterator_by_table_id (kv_t_id v) (keyval_cache s) = Ok ei /\
      _table_cache (keyval_cache s) !! kv_t_id v = Some (kv_t_id v, ei)) /\
    kv_at s it (tid_key tv) (kv_primary_key v).
Proof.
  intros Hwf Hg. destruct (cache_ok_get _ _ _ _ _ (wf_keyval_cache _ _ _ Hwf) Hg) as (v & ei & Hv & He).
  destruct (kv_table_live _ _ _ Hwf Hv) as [tv Htv]. exists v, tv.
  unfold get_table, get_end_iterator_by_table_id. rewrite He. split_and!; try done; [by exists ei|].
  by exists o, v, tv.
Qed.

Lemma ix_row_of_iterator s k it o :
  table_state_wf s -> cache_get it (itr_cache s k) = Ok o ->
  exists v tv, ix_of s k !! o = Some v /\ tables_of s !! ix_t_id v = Some tv /\
    get_table (ix_t_id v) (itr_cache s k) = Ok (ix_t_id v) /\
    (exists ei, get_end_iterator_by_table_id (ix_t_id v) (itr_cache s k) = Ok ei /\
      _table_cache (itr_cache s k) !! ix_t_id v = Some (ix_t_id v, ei)) /\
    ix_at s k it (tid_key tv) (ix_primary_key v).
Proof.
  intros Hwf Hg. destruct (cache_ok_get _ _ _ _ _ (wf_itr_cache _ _ _ Hwf k) Hg) as (v & ei & Hv & He).
  destruct (ix_table_live _ _ _ _ Hwf Hv) as [tv Htv]. exists v, tv.
  unfold get_table, get_end_iterator_by_table_id. rewrite He. split_and!; try done; [by exists ei|].
  by exists o, v, tv.
Qed.

Lemma own_table_run c s cache t tv :
  get_table t cache = Ok t -> tables_of s !! t = Some tv ->
  own_table c t cache s = if ti_code tv =? receiver c then Ok t else Throw table_access_violation.
Proof.
  intros Hg Ht. unfold own_table. rewrite Hg. cbn. rewrite (proj2 (deref_Ok _ _ _ _) Ht). cbn.
  by destruct (ti_code tv =? receiver c).
Qed.

Lemma db_update_i64_effect c it payer buffer s s' :
  table_state_wf s -> zlength buffer < 2 ^ 32 -> db_update_i64 c it payer buffer s = Ok s' ->
  table_state_wf s' /\ (forall x, ram_gap s' x = ram_gap s x) /\
  keyval_cache s' = keyval_cache s /\ itr_cache s' = itr_cache s /\
  exists tab id old, kv_at s it tab id /\ tab.1.1 = receiver c /\ kv_row s tab id old /\
    kv_rows_set s s' tab id (Some (if payer =? 0 then old.1 else payer, buffer)) /\ ix_rows_same s s' /\
    (forall it0 tab0 id0, kv_at s it0 tab0 id0 -> kv_at s' it0 tab0 id0).
Proof.
  intros Hwf Hlen. unfold db_update_i64. intros (? & _ & H1)%bind_Ok.
  apply bind_Ok in H1 as (o & Hg & H1). destruct (kv_row_of_iterator _ _ _ Hwf Hg) as (v & tv & Hv & Htv & Hgt & _ & Hat).
  rewrite (proj2 (deref_Ok _ _ _ _) Hv) in H1. cbn [mbind result_bind] in H1.
  rewrite (own_table_run _ _ _ _ _ Hgt Htv) in H1. destruct (ti_code tv =? receiver c) eqn:Ec; [|done]. bool_to_Z.
  cbn [mbind result_bind] in H1. pose proof (wf_sizes _ _ _ Hwf _ _ Hv) as Hlv.
  rewrite !i64_row_size in H1 by done. set (p := if payer =? 0 then kv_payer v else payer) in *.
  apply bind_Ok in H1 as (s1 & Hrc%recharge_Ok & H1). apply bind_Ok in H1 as (kv & Hm & [= <-]).
  pose proof (recharged_inv _ _ _ _ _ _ _ _ Hrc Hwf) as Hinv1.
  pose proof (modify_Ok _ _ _ _ _ Hm) as (_ & w & Hw & Hview & _).
  pose proof (objects_wf_modify kv_conflict kv_conflict_sym _ _ _ _ (wf_kv _ _ _ Hinv1) Hm) as Hwfkv.
  rewrite (rc_kv _ _ _ _ _ _ Hrc) in Hview, Hw. fold (kv_of s) in Hview, Hw.
  assert (w = v) as -> by congruence. set (v' := mk_kv (kv_t_id v) (kv_primary_key v) p buffer) in *.
  assert (kv_of s1 = kv_of s) as HK1 by (unfold kv_of; by rewrite (rc_kv _ _ _ _ _ _ Hrc)).
  assert (table_state_wf (set_key_values kv s1)) as Hwf'.
  { eapply table_state_inv_ext; [|eapply (set_key_values_inv _ _ kv s1 o v'); try done; rewrite HK1; [done|]].
    - intros t. cbn. rewrite set_key_values_rows, Hview, HK1, (row_sum_update _ _ v) by done.
      rewrite (recharged_rows _ _ _ _ _ _ _ Hrc). cbn. lia.
    - intros w Hw'. simplify_eq. done. }
  assert (keys_agree s (set_key_values kv s1)) as Hagree.
  { apply keys_kept_agree, keys_kept_eq. cbn. apply Hrc. }
  split_and!; [done| |apply Hrc|apply Hrc|].
  - intros y. rewrite set_key_values_gap, (recharged_gap _ _ _ _ _ _ _ Hrc), Hview, HK1, (row_sum_update _ _ v) by done.
    unfold kv_bill at 2 3. cbn. lia.
  - exists (tid_key tv), (kv_primary_key v), (kv_payer v, kv_value v). split_and!; try done.
    + by exists (kv_t_id v), tv, o, v.
    + apply (kv_rows_put s _ o v' tv); try done.
      * unfold tables_of. cbn. by rewrite (rc_tables _ _ _ _ _ _ Hrc).
      * intros w Hw'. by simplify_eq.
    + apply ix_rows_same_intro; try done. apply Hrc.
    + intros it0 tab0 id0 (o' & w & tw & Hg' & Hw' & Hid & Htw & Hk).
      exists o', (if decide (o' = o) then v' else w), tw. unfold kv_of, tables_of. cbn.
      rewrite (rc_keyval _ _ _ _ _ _ Hrc), (rc_tables _ _ _ _ _ _ Hrc), Hview.
      case_decide; subst; [rewrite lookup_insert_eq|rewrite lookup_insert_ne by done]; by simplify_eq.
Qed.

(** The gap of a state is that of its table objects less the bill of its rows. *)
Definition rows_bill s x : Z :=
  row_sum (kv_bill x) (kv_of s) + sum_kinds (fun k => row_sum (ix_bill x k) (ix_of s k)).

Lemma ram_gap_split s x : ram_gap s x = table_gap s x - rows_bill s x.
Proof. unfold ram_gap, table_gap, billed, rows_bill. lia. Qed.

Lemma table_gap_charged payer delta s s' x :
  charged payer delta s s' -> table_gap s' x = table_gap s x + weight x payer * delta.
Proof. intros []. unfold table_gap, tables_of. rewrite charged_used, charged_tables. lia. Qed.

Lemma same_rows_bill s s' x : same_rows s s' -> rows_bill s' x = rows_bill s x.
Proof. intros (Hk & Hi & _). unfold rows_bill, kv_of, ix_of. by rewrite Hk, Hi. Qed.

(** The parts of a state after a row of table [t] is gone: [n] rows of [t] less one. *)
Definition released s s' (t : Z) : Prop :=
  objects_wf tid_conflict (tables s') /\
  tables_inv (fun _ => False) (tables_of s') (fun u => rows_of s u - in_table u t) /\ keys_agree s s'.

Lemma release_row_released c t drop payer delta s s1 s2 :
  (forall s0 s1, drop s0 = Ok s1 -> tables s1 = tables s0 /\ forall x, ram_used s1 x = ram_used s0 x) ->
  table_state_wf s -> table_state_small s -> charged payer delta s s1 -> release_row c t drop s1 = Ok s2 ->
  released s s2 t /\ (forall x, table_gap s2 x = table_gap s x + weight x payer * delta) /\
  exists ts s3, drop (set_tables ts s1) = Ok s3 /\ same_rows s3 s2.
Proof.
  intros Hdrop Hwf Hsm Hch Hrel. pose proof (charged_inv _ _ _ _ _ _ Hch Hwf) as Hinv1.
  destruct (release_row_Ok c t drop s1 s2 (rows_of s) (fun u => rows_of s u - in_table u t) Hdrop
    (wf_tables _ _ _ Hinv1) (wf_counts _ _ _ Hinv1)) as (ts & s3 & Hd & Hsame & Hwft & Hcounts & Hgap & Hrest & Hback);
    [pose proof (small_rows _ Hsm t); lia|done|done|].
  split_and!; [split_and!; [done..|]| |eauto].
  - assert (tables_of s1 = tables_of s) as HTs by (unfold tables_of; by rewrite (charged_tables _ _ _ _ Hch)).
    rewrite HTs in Hrest, Hback. intros u w w' Hw Hw'. destruct (decide (u = t)) as [->|Hne].
    + destruct (Hback _ Hw') as (w2 & Hw2 & E). congruence.
    + rewrite Hrest in Hw' by done. congruence.
  - intros x. by rewrite Hgap, (table_gap_charged _ _ _ _ _ Hch).
Qed.

Lemma db_remove_i64_row c it s s' :
  table_state_wf s -> table_state_small s -> db_remove_i64 c it s = Ok s' ->
  exists o v tv cache s1, cache_get it (keyval_cache s) = Ok o /\ kv_of s !! o = Some v /\
    tables_of s !! kv_t_id v = Some tv /\ ti_code tv = receiver c /\
    cache_remove it (keyval_cache s) = Ok cache /\ s' = set_keyval_cache cache s1 /\ released s s1 (kv_t_id v) /\
    (forall x, table_gap s1 x = table_gap s x - kv_bill x v) /\ objects_wf kv_conflict (key_values s1) /\
    kv_of s1 = delete o (kv_of s) /\ indices s1 = indices s /\ itr_cache s1 = itr_cache s.
Proof.
  intros Hwf Hsm. unfold db_remove_i64. intros (? & _ & H1)%bind_Ok.
  apply bind_Ok in H1 as (o & Hg & H1). destruct (kv_row_of_iterator _ _ _ Hwf Hg) as (v & tv & Hv & Htv & Hgt & _ & Hat).
  rewrite (proj2 (deref_Ok _ _ _ _) Hv) in H1. cbn [mbind result_bind] in H1.
  rewrite (own_table_run _ _ _ _ _ Hgt Htv) in H1. destruct (ti_code tv =? receiver c) eqn:Ec; [|done]. bool_to_Z.
  cbn [mbind result_bind] in H1. rewrite i64_minus_row_size in H1 by (by eapply wf_sizes).
  apply bind_Ok in H1 as (s1 & Hch%update_db_usage_charged & H1). apply bind_Ok in H1 as (s2 & Hrel & H1).
  pose proof (charged_inv _ _ _ _ _ _ Hch Hwf) as Hinv1.
  eapply release_row_released in Hrel as (Hreld & Hgap & ts & s3 & Hdrop & HK & HI & HC & HJ); try done;
    [|by intros ?? (? & _ & [= <-])%bind_Ok].
  apply bind_Ok in Hdrop as (kv & Hrm & [= <-]). cbn [key_values set_tables] in Hrm. cbn in HK, HI, HC, HJ.
  pose proof (objects_wf_remove kv_conflict _ _ _ (wf_kv _ _ _ Hinv1) Hrm) as Hwfkv.
  apply remove_Ok in Hrm as (_ & Hview & _). rewrite (charged_kv _ _ _ _ Hch) in Hview.
  destruct (cache_ok_remove _ _ _ _ _ (wf_keyval_cache _ _ _ Hwf) Hg) as (c' & Hcr & _).
  rewrite HC, (charged_keyval _ _ _ _ Hch), Hcr in H1. injection H1 as <-.
  exists o, v, tv, c', s2. split_and!; try done.
  - intros y. rewrite Hgap. unfold kv_bill. lia.
  - by rewrite HK.
  - unfold kv_of at 1. by rewrite HK.
  - by rewrite HI, (charged_ix _ _ _ _ Hch).
  - by rewrite HJ, (charged_itr _ _ _ _ Hch).
Qed.

Lemma db_remove_i64_effect c it s s' :
  table_state_wf s -> table_state_small s -> db_remove_i64 c it s = Ok s' ->
  table_state_wf s' /\ (forall x, ram_gap s' x = ram_gap s x) /\
  exists tab id, kv_at s it tab id /\ tab.1.1 = receiver c /\
    kv_rows_set s s' tab id None /\ ix_rows_same s s' /\
    cache_get it (keyval_cache s') = Throw table_operation_not_permitted /\
    (forall it0 tab0 id0, it0 <> it -> kv_at s it0 tab0 id0 -> kv_at s' it0 tab0 id0).
Proof.
  intros Hwf Hsm (o & v & tv & c' & s2 & Hg & Hv & Htv & Hcode & Hcr & -> & (Hwft & Hcounts & Hagree) & Hgap & Hwfkv & Hkv2 & HI & HJ)%db_remove_i64_row; try done.
  pose proof (wf_keyval_cache _ _ _ Hwf) as Hcok.
  destruct (cache_ok_remove _ _ _ _ _ Hcok Hg) as (c1 & Hcr1 & Hok & Hgone & _).
  rewrite Hcr in Hcr1. injection Hcr1 as <-.
  assert (table_state_wf (set_keyval_cache c' s2)) as Hwf'.
  { split; cbn; [done|done|rewrite HI; apply Hwf| |by rewrite <- Hkv2 in Hok| |].
    - eapply tables_inv_ext; [|exact Hcounts]. intros u. change (rows_of s2 u = rows_of s u - in_table u (kv_t_id v)).
      unfold rows_of, ix_of. rewrite HI, Hkv2, (row_sum_delete _ _ v) by done.
      rewrite (in_table_sym u). lia.
    - rewrite HJ. unfold ix_of. cbn. rewrite HI. apply Hwf.
    - intros u w. change (kv_of s2 !! u = Some w -> zlength (kv_value w) < 2 ^ 32). rewrite Hkv2.
      intros [_ Hw]%lookup_delete_Some. by eapply wf_sizes. }
  split_and!; [done| |].
  - intros y. change (ram_gap s2 y = ram_gap s y). rewrite !ram_gap_split, Hgap.
    unfold rows_bill, ix_of. rewrite HI, Hkv2, (row_sum_delete _ _ v) by done. lia.
  - exists (tid_key tv), (kv_primary_key v). split_and!; try done.
    + by exists o, v, tv.
    + by apply (kv_rows_del s _ o v tv).
    + by apply ix_rows_same_intro.
    + intros it0 tab0 id0 Hne (o' & w & tw & Hg' & Hw' & Hid & Htw & Hk).
      assert (o' <> o) as Hoo.
      { intros ->. apply Hne. apply cache_get_Ok in Hg, Hg'; try apply Hcok. congruence. }
      assert (kv_of (set_keyval_cache c' s2) !! o' = Some w) as Hw2.
      { change (kv_of s2 !! o' = Some w). by rewrite Hkv2, lookup_delete_ne. }
      destruct (kv_table_live _ _ _ Hwf' Hw2) as [tw' Htw']. exists o', w, tw'. split_and!; try done.
      * cbn. apply (cache_remove_get_other it it0 (keyval_cache s) c' o o'); try done. apply Hcok.
      * by rewrite <- (Hagree _ _ _ Htw Htw').
Qed.

End operations.
