(* ===== verification/SecondaryIndexOps.v ===== *)
(** * Secondary indices: what the operations do

    The counterparts of [ContractTableOps] for [generic_index]: storing,
    updating and removing rows of an index of any kind. *)

From S2P Require Import Prelude Exceptions Types ObjectIndex IteratorCache Authority.
From S2P Require Import AuthorizationManager ContractTables SecondaryIndex ContractTableProps ContractTableOps.

Section operations.
Context `{SoftFloat} {TT KT IT : Type}.
Context `{!ObjectIndex table_id_object TT tid_conflict}.
Context `{!ObjectIndex key_value_object KT kv_conflict}.
Context `{!ObjectIndex index_object IT ix_conflict}.
Notation state := (@table_state TT KT IT).
Implicit Types (s : state) (c : context_info).
Variable (k : index_kind).

Lemma i64_index_billable : i64 (index_billable k) = index_billable k.
Proof. by destruct k. Qed.

(** Row sums over the indices after one index changed. *)
Lemma ix_of_update s s1 ix :
  indices s1 = update_kind k ix (indices s) ->
  ix_of s1 k = obj_view ix /\ forall k', k' <> k -> ix_of s1 k' = ix_of s k'.
Proof.
  intros E. unfold ix_of. rewrite E. split; [by rewrite update_kind_eq|].
  intros k' Hk. by rewrite update_kind_ne.
Qed.

Lemma ix_store_row c scope table payer id value s it s' :
  table_state_wf s -> table_state_small s -> ix_store k c scope table payer id value s = Ok (it, s') ->
  exists tab obj s1,
    let '(ei, c1) := cache_table tab (itr_cache s k) in
    let '(it1, c2) := cache_add obj c1 in
    it = it1 /\ s' = set_itr_cache k c2 s1 /\ table_state_wf s1 /\ (forall x, ram_gap s1 x = ram_gap s x) /\
    keys_kept s s1 /\ itr_cache s1 = itr_cache s /\ key_values s1 = key_values s /\
    (forall k', k' <> k -> ix_of s1 k' = ix_of s k') /\
    ix_of s1 k = <[obj := mk_ix tab id payer value]> (ix_of s k) /\ ix_of s k !! obj = None /\
    (forall o w, ix_of s k !! o = Some w -> ix_conflict (mk_ix tab id payer value) w = false) /\
    exists tv, tables_of s1 !! tab = Some tv /\ tid_key tv = (receiver c, scope, table).
Proof.
  intros Hwf Hsm. unfold ix_store. intros (? & _ & H1)%bind_Ok. apply bind_Ok in H1 as (? & _ & H1).
  apply bind_Ok in H1 as ([tab s1] & Hfoc & H1).
  destruct (find_or_create_table_Ok _ _ _ _ _ _ _ _ Hwf Hfoc)
    as ((HK & HI & HC & HJ) & Hgap1 & Hinv1 & (tv & Htv & Hkey) & _ & Hkept1).
  apply bind_Ok in H1 as ([obj ix] & Hcr & H1).
  pose proof (create_Ok _ _ _ _ _ Hcr) as (_ & _ & Hview & Hfree).
  destruct (objects_wf_create ix_conflict ix_conflict_sym _ _ _ _ (wf_ix _ _ _ Hinv1 k) Hcr) as [Hwfix Hnone].
  set (v := mk_ix tab id payer value) in *. rewrite HI in Hview, Hnone, Hfree. fold (ix_of s k) in Hview, Hnone.
  assert (ix_of s1 k = ix_of s k) as HI1 by (unfold ix_of; by rewrite HI).
  rewrite i64_index_billable in H1.
  apply (count_row_Ok _ _ _ _ (rows_of s)) in H1 as (s4 & Hend & Hwf4 & (HK4 & HI4 & HC4 & HJ4) & Hkept4 & _ & Hgap4).
  - cbn in HK4, HI4, HC4, HJ4. rewrite HJ4, HJ in Hend. exists tab, obj, s4.
    destruct (cache_table tab (itr_cache s k)) as [ei c1], (cache_add obj c1) as [it1 c2].
    injection Hend as <- <-. rewrite HI in HI4. destruct (ix_of_update s s4 ix HI4) as [Ek Ek'].
    split_and!; try done; [|by intros t w Hw%Hkept1%Hkept4|congruence|congruence|by rewrite Ek|].
    + intros y. rewrite Hgap4, set_index_gap, Hgap1, Hview, HI1, row_sum_insert by done.
      unfold ix_bill at 1, v. cbn. lia.
    + destruct (Hkept4 tab tv Htv) as (tv4 & Htv4 & E). exists tv4. by rewrite E.
  - eapply (set_index_inv _ _ k ix s1 obj v); try done; rewrite HI1; [done|]. intros w. by rewrite Hnone.
  - apply Hsm.
  - intros u. rewrite set_index_rows, HI1, Hview, row_sum_insert by done.
    assert (rows_of s1 u = rows_of s u) as -> by by apply same_rows_of. cbn. lia.
Qed.

Lemma ix_store_effect c scope table payer id value s it s' :
  table_state_wf s -> table_state_small s -> ix_store k c scope table payer id value s = Ok (it, s') ->
  table_state_wf s' /\ (forall x, ram_gap s' x = ram_gap s x) /\
  ~ (exists row, ix_row s k (receiver c, scope, table) id row) /\
  ix_rows_set s s' k (receiver c, scope, table) id (Some (payer, value)) /\ kv_rows_same s s' /\
  ix_at s' k it (receiver c, scope, table) id /\
  (forall it0 tab0 id0, ix_at s k it0 tab0 id0 -> ix_at s' k it0 tab0 id0).
Proof.
  intros Hwf Hsm (tab & obj & s1 & H1)%ix_store_row; try done.
  destruct (cache_table tab (itr_cache s k)) as [ei c1] eqn:Ec1, (cache_add obj c1) as [it1 c2] eqn:Ec2.
  destruct H1 as (<- & -> & Hwf1 & Hgap & Hkept & HJ & HK & Hk' & Hix & Hnone & Hfree & tv & Htv & Hkey).
  set (v := mk_ix tab id payer value) in *.
  pose proof (wf_itr_cache _ _ _ Hwf1 k) as Hok. rewrite HJ in Hok.
  destruct (cache_ok_table _ _ _ _ _ _ Hok (proj1 (small_itr_cache _ Hsm k)) Ec1) as (Hok1 & Ht1 & Hlen1 & Htabs1 & Hget1).
  destruct (cache_ok_add ix_t_id (ix_of s1 k) c1 obj v it c2) as (Hok2 & Hg2 & HT2 & Hget2);
    [done|rewrite Hlen1; apply Hsm|by rewrite Hix, lookup_insert_eq|cbn; eauto|done|].
  assert (table_state_wf (set_itr_cache k c2 s1)) as Hwf' by by apply set_itr_cache_inv.
  assert (keys_agree s (set_itr_cache k c2 s1)) as Hagree by by apply keys_kept_agree.
  split_and!; [done|done| | | | |].
  - intros (row & t & tw & o & w & Ht & Hk & Hw & <- & Hid & _). destruct (Hkept _ _ Ht) as (tw' & Htw' & E).
    assert (ix_t_id w = tab) as Et by (eapply table_key_inj; [apply Hwf1|exact Htw'|exact Htv|congruence]).
    specialize (Hfree o w Hw). unfold ix_conflict in Hfree. cbn in Hfree. by rewrite Et, Hid, !Z.eqb_refl in Hfree.
  - rewrite <- Hkey. apply (ix_rows_put s _ k obj v tv); try done. intros w. by rewrite Hnone.
  - by apply kv_rows_same_intro.
  - exists obj, v, tv. cbn. rewrite update_kind_eq. change (ix_of (set_itr_cache k c2 s1) k) with (ix_of s1 k).
    by rewrite Hix, lookup_insert_eq.
  - intros it0 tab0 id0 (o & w & tw & Hg & Hw & Hid & Htw & Hk). exists o, w.
    destruct (Hkept _ _ Htw) as (tw' & Htw' & E). exists tw'. split_and!; try done; [| |congruence].
    + cbn. rewrite update_kind_eq. by apply Hget2, Hget1.
    + change (ix_of s1 k !! o = Some w). rewrite Hix, lookup_insert_ne; congruence.
Qed.

Lemma ix_update_effect c it payer secondary s s' :
  table_state_wf s -> ix_update k c it payer secondary s = Ok s' ->
  table_state_wf s' /\ (forall x, ram_gap s' x = ram_gap s x) /\
  keyval_cache s' = keyval_cache s /\ itr_cache s' = itr_cache s /\
  exists tab id old, ix_at s k it tab id /\ tab.1.1 = receiver c /\ ix_row s k tab id old /\
    ix_rows_set s s' k tab id (Some (if payer =? 0 then old.1 else payer, secondary)) /\ kv_rows_same s s' /\
    (forall it0 tab0 id0, ix_at s k it0 tab0 id0 -> ix_at s' k it0 tab0 id0).
Proof.
  intros Hwf. unfold ix_update. intros (? & _ & H1)%bind_Ok.
  apply bind_Ok in H1 as (o & Hg & H1). destruct (ix_row_of_iterator _ _ _ _ Hwf Hg) as (v & tv & Hv & Htv & Hgt & _ & Hat).
  rewrite (proj2 (deref_Ok _ _ _ _) Hv) in H1. cbn [mbind result_bind] in H1.
  rewrite (own_table_run _ _ _ _ _ Hgt Htv) in H1. destruct (ti_code tv =? receiver c) eqn:Ec; [|done]. bool_to_Z.
  cbn [mbind result_bind] in H1. rewrite i64_index_billable in H1.
  set (p := if payer =? 0 then ix_payer v else payer) in *. apply bind_Ok in H1 as (s1 & Hrc & H1).
  assert (recharged (ix_payer v) p (index_billable k) (index_billable k) s s1) as Hrc1.
  { apply (recharge_Ok c). rewrite Z.eqb_refl. exact Hrc. }
  apply bind_Ok in H1 as (ix & Hm & [= <-]). clear Hrc. rename Hrc1 into Hrc.
  pose proof (recharged_inv _ _ _ _ _ _ _ _ Hrc Hwf) as Hinv1.
  pose proof (modify_Ok _ _ _ _ _ Hm) as (_ & w & Hw & Hview & _).
  pose proof (objects_wf_modify ix_conflict ix_conflict_sym _ _ _ _ (wf_ix _ _ _ Hinv1 k) Hm) as Hwfix.
  rewrite (rc_ix _ _ _ _ _ _ Hrc) in Hview, Hw. fold (ix_of s k) in Hview, Hw.
  assert (w = v) as -> by congruence. set (v' := mk_ix (ix_t_id v) (ix_primary_key v) p secondary) in *.
  assert (forall k', ix_of s1 k' = ix_of s k') as HI1 by (intros k'; unfold ix_of; by rewrite (rc_ix _ _ _ _ _ _ Hrc)).
  destruct (ix_of_update s (set_index k ix s1) ix) as [Ek Ek']; [cbn; by rewrite (rc_ix _ _ _ _ _ _ Hrc)|].
  assert (table_state_wf (set_index k ix s1)) as Hwf'.
  { eapply table_state_inv_ext; [|eapply (set_index_inv _ _ k ix s1 o v'); try done; rewrite HI1; [done|]].
    - intros t. cbn. rewrite set_index_rows, Hview, HI1, (row_sum_update _ _ v) by done.
      rewrite (recharged_rows _ _ _ _ _ _ _ Hrc). cbn. lia.
    - intros w Hw'. simplify_eq. done. }
  assert (keys_agree s (set_index k ix s1)) as Hagree.
  { apply keys_kept_agree, keys_kept_eq. cbn. apply Hrc. }
  split_and!; [done| |apply Hrc|apply Hrc|].
  - intros y. rewrite set_index_gap, (recharged_gap _ _ _ _ _ _ _ Hrc), Hview, HI1, (row_sum_update _ _ v) by done.
    unfold ix_bill at 2 3. cbn. lia.
  - exists (tid_key tv), (ix_primary_key v), (ix_payer v, ix_secondary_key v). split_and!; try done.
    + by exists (ix_t_id v), tv, o, v.
    + apply (ix_rows_put s _ k o v' tv); try done; [by rewrite Ek| |intros w Hw'; by simplify_eq].
      unfold tables_of. cbn. by rewrite (rc_tables _ _ _ _ _ _ Hrc).
    + apply kv_rows_same_intro; try done. apply Hrc.
    + intros it0 tab0 id0 (o' & w & tw & Hg' & Hw' & Hid & Htw & Hk).
      exists o', (if decide (o' = o) then v' else w), tw. rewrite Ek, Hview. unfold tables_of. cbn.
      rewrite (rc_itr _ _ _ _ _ _ Hrc), (rc_tables _ _ _ _ _ _ Hrc).
      case_decide; subst; [rewrite lookup_insert_eq|rewrite lookup_insert_ne by done]; by simplify_eq.
Qed.
Lemma ix_remove_row c it s s' :
  table_state_wf s -> table_state_small s -> ix_remove k c it s = Ok s' ->
  exists o v tv cache s1, cache_get it (itr_cache s k) = Ok o /\ ix_of s k !! o = Some v /\
    tables_of s !! ix_t_id v = Some tv /\ ti_code tv = receiver c /\
    cache_remove it (itr_cache s k) = Ok cache /\ s' = set_itr_cache k cache s1 /\
    released s s1 (ix_t_id v) /\
    (forall x, table_gap s1 x = table_gap s x - ix_bill x k v) /\ objects_wf ix_conflict (indices s1 k) /\
    ix_of s1 k = delete o (ix_of s k) /\ key_values s1 = key_values s /\
    (exists ix, indices s1 = update_kind k ix (indices s)) /\
    keyval_cache s1 = keyval_cache s /\ itr_cache s1 = itr_cache s.
Proof.
  intros Hwf Hsm. unfold ix_remove. intros (? & _ & H1)%bind_Ok.
  apply bind_Ok in H1 as (o & Hg & H1). destruct (ix_row_of_iterator _ _ _ _ Hwf Hg) as (v & tv & Hv & Htv & Hgt & _ & Hat).
  rewrite (proj2 (deref_Ok _ _ _ _) Hv) in H1. cbn [mbind result_bind] in H1.
  rewrite (own_table_run _ _ _ _ _ Hgt Htv) in H1. destruct (ti_code tv =? receiver c) eqn:Ec; [|done]. bool_to_Z.
  cbn [mbind result_bind] in H1. rewrite minus_index_billable in H1.
  apply bind_Ok in H1 as (s1 & Hch%update_db_usage_charged & H1). apply bind_Ok in H1 as (s2 & Hrel & H1).
  pose proof (charged_inv _ _ _ _ _ _ Hch Hwf) as Hinv1.
  eapply release_row_released in Hrel as (Hreld & Hgap & ts & s3 & Hdrop & HK & HI & HC & HJ); try done;
    [|by intros ?? (? & _ & [= <-])%bind_Ok].
  apply bind_Ok in Hdrop as (ix & Hrm & [= <-]). cbn [indices set_tables] in Hrm. cbn in HK, HI, HC, HJ.
  pose proof (objects_wf_remove ix_conflict _ _ _ (wf_ix _ _ _ Hinv1 k) Hrm) as Hwfix.
  apply remove_Ok in Hrm as (_ & Hview & _). rewrite (charged_ix _ _ _ _ Hch) in Hview, HI.
  destruct (cache_ok_remove _ _ _ _ _ (wf_itr_cache _ _ _ Hwf k) Hg) as (c' & Hcr & _).
  rewrite HJ, (charged_itr _ _ _ _ Hch), Hcr in H1. injection H1 as <-.
  exists o, v, tv, c', s2. split_and!; try done.
  - intros y. rewrite Hgap. unfold ix_bill. lia.
  - by rewrite HI, update_kind_eq.
  - unfold ix_of at 1. by rewrite HI, update_kind_eq.
  - by rewrite HK, (charged_kv _ _ _ _ Hch).
  - eauto.
  - by rewrite HC, (charged_keyval _ _ _ _ Hch).
  - by rewrite HJ, (charged_itr _ _ _ _ Hch).
Qed.

Lemma ix_remove_effect c it s s' :
  table_state_wf s -> table_state_small s -> ix_remove k c it s = Ok s' ->
  table_state_wf s' /\ (forall x, ram_gap s' x = ram_gap s x) /\
  exists tab id, ix_at s k it tab id /\ tab.1.1 = receiver c /\
    ix_rows_set s s' k tab id None /\ kv_rows_same s s' /\
    cache_get it (itr_cache s' k) = Throw table_operation_not_permitted /\
    (forall it0 tab0 id0, it0 <> it -> ix_at s k it0 tab0 id0 -> ix_at s' k it0 tab0 id0).
Proof.
  intros Hwf Hsm (o & v & tv & c' & s2 & Hg & Hv & Htv & Hcode & Hcr & -> & (Hwft & Hcounts & Hagree) & Hgap & Hwfix & Hix2 & HK & [ix HI] & HC & HJ)%ix_remove_row; try done.
  pose proof (wf_itr_cache _ _ _ Hwf k) as Hcok. destruct (ix_of_update s s2 ix HI) as [Ek Ek'].
  destruct (cache_ok_remove _ _ _ _ _ Hcok Hg) as (c1 & Hcr1 & Hok & Hgone & _).
  rewrite Hcr in Hcr1. injection Hcr1 as <-.
  assert (forall g, sum_kinds (fun k' => row_sum (g k') (ix_of s2 k')) =
    sum_kinds (fun k' => row_sum (g k') (ix_of s k')) - g k v) as Hsums.
  { intros g. rewrite (sum_kinds_update (fun k' => row_sum (g k') (ix_of s k')) _ k).
    - rewrite Hix2, (row_sum_delete _ _ v) by done. lia.
    - intros k' Hk. by rewrite Ek'. }
  assert (table_state_wf (set_itr_cache k c' s2)) as Hwf'.
  { split; cbn; [done|rewrite HK; apply Hwf| | |rewrite HC; unfold kv_of; cbn; rewrite HK; apply Hwf| |].
    - intros k'. destruct (decide (k' = k)) as [->|Hne]; [done|]. rewrite HI, update_kind_ne by done. apply Hwf.
    - eapply tables_inv_ext; [|exact Hcounts]. intros u. change (rows_of s2 u = rows_of s u - in_table u (ix_t_id v)).
      unfold rows_of. rewrite (Hsums (fun _ v => in_table (ix_t_id v) u)). unfold kv_of. rewrite HK.
      rewrite (in_table_sym u). lia.
    - intros k'. change (ix_of (set_itr_cache k c' s2) k') with (ix_of s2 k'). destruct (decide (k' = k)) as [->|Hne].
      + rewrite update_kind_eq, Hix2. done.
      + rewrite update_kind_ne, HJ, Ek' by done. apply Hwf.
    - unfold kv_of. cbn. rewrite HK. apply Hwf. }
  split_and!; [done| |].
  - intros y. change (ram_gap s2 y = ram_gap s y). rewrite !ram_gap_split, Hgap.
    unfold rows_bill, kv_of. rewrite HK, (Hsums (ix_bill y)). lia.
  - exists (tid_key tv), (ix_primary_key v). split_and!; try done.
    + by exists o, v, tv.
    + by apply (ix_rows_del s _ k o v tv).
    + by apply kv_rows_same_intro.
    + cbn. by rewrite update_kind_eq.
    + intros it0 tab0 id0 Hne (o' & w & tw & Hg' & Hw' & Hid & Htw & Hk).
      assert (o' <> o) as Hoo.
      { intros ->. apply Hne. apply cache_get_Ok in Hg, Hg'; try apply Hcok. congruence. }
      assert (ix_of (set_itr_cache k c' s2) k !! o' = Some w) as Hw2.
      { change (ix_of s2 k !! o' = Some w). by rewrite Hix2, lookup_delete_ne. }
      destruct (ix_table_live _ _ _ _ Hwf' Hw2) as [tw' Htw']. exists o', w, tw'. split_and!; try done.
      * cbn. rewrite update_kind_eq.
        apply (cache_remove_get_other it it0 (itr_cache s k) c' o o'); try done. apply Hcok.
      * by rewrite <- (Hagree _ _ _ Htw Htw').
Qed.

End operations.
