(* ===== verification/ContractTableWalk.v ===== *)
(** * Contract tables: finding and walking rows

    Lookups and walks over the rows of a table return the row an ordered map
    would give: [find], [lower_bound], [upper_bound], successor and predecessor,
    for the primary index and for secondary indices in both orders.  They
    change nothing but the iterator cache. *)

From S2P Require Import Prelude Exceptions Types ObjectIndex IteratorCache Authority.
From S2P Require Import AuthorizationManager ContractTables SecondaryIndex ContractTableProps ContractTableOps.

(** ** One table inside an index of all tables *)

Section table_walk.
Context {V : Type} (tid : V -> Z) (less : Z * V -> Z * V -> bool) (sub : V -> V -> bool).
Context `{!StrictLess less}.
Hypothesis less_spec : forall a b, less a b = true <->
  tid a.2 < tid b.2 \/ (tid a.2 = tid b.2 /\ sub a.2 b.2 = true).

(** The row an iterator points to, if it belongs to table [t]. *)
Definition pick (t : Z) (r : option (Z * V)) : option (Z * V) :=
  match r with Some r => if tid r.2 =? t then Some r else None | None => None end.

Lemma less_same_table a b : tid a.2 = tid b.2 -> less a b = false -> sub a.2 b.2 = false.
Proof.
  intros E Hf. destruct (sub a.2 b.2) eqn:Es; [|done].
  assert (less a b = true) by (apply less_spec; auto). congruence.
Qed.

Lemma bound_pick (m : gmap Z V) rows t p (q : V -> Prop) :
  rows ≡ₚ map_to_list m ->
  (forall r, p r = true <-> t < tid r.2 \/ (tid r.2 = t /\ q r.2)) ->
  match pick t (bound_by less p rows) with
  | Some (o, v) => m !! o = Some v /\ tid v = t /\ q v /\
      forall o' v', m !! o' = Some v' -> tid v' = t -> q v' -> sub v' v = false
  | None => forall o' v', m !! o' = Some v' -> tid v' = t -> ~ q v'
  end.
Proof.
  intros Hrows Hp.
  assert (forall o v, (o, v) ∈ rows <-> m !! o = Some v) as Hin
    by (intros; by rewrite Hrows, elem_of_map_to_list).
  destruct (bound_by less p rows) as [[o v]|] eqn:E; cbn.
  - apply bound_by_Some in E as (Ho%Hin & Hpo & Hmin); [|done].
    destruct (tid v =? t) eqn:Et; bool_to_Z.
    + split_and!; [done|done| |].
      * apply Hp in Hpo as [Hlt|[_ Hq]]; [cbn in Hlt; lia|done].
      * intros o' v' Hv' Et' Hq'. apply (less_same_table (o', v') (o, v)); [cbn; congruence|].
        apply Hmin; [by apply Hin|]. apply Hp. auto.
    + intros o' v' Hv' Et' Hq'.
      assert (t < tid v) by (apply Hp in Hpo as [Hlt|[Heq _]]; cbn in *; [lia|congruence]).
      assert (less (o', v') (o, v) = true) as Hl by (apply less_spec; left; cbn; lia).
      rewrite Hmin in Hl; [done|by apply Hin|]. apply Hp. auto.
  - rewrite bound_by_None in E. intros o' v' Hv'%Hin Et' Hq'.
    assert (p (o', v') = true) as Hpv by (apply Hp; auto). by rewrite E in Hpv.
Qed.

Lemma last_pick (m : gmap Z V) rows t p (q : V -> Prop) :
  rows ≡ₚ map_to_list m ->
  (forall r, p r = true <-> tid r.2 < t \/ (tid r.2 = t /\ q r.2)) ->
  match pick t (last_by less p rows) with
  | Some (o, v) => m !! o = Some v /\ tid v = t /\ q v /\
      forall o' v', m !! o' = Some v' -> tid v' = t -> q v' -> sub v v' = false
  | None => forall o' v', m !! o' = Some v' -> tid v' = t -> ~ q v'
  end.
Proof.
  intros Hrows Hp.
  assert (forall o v, (o, v) ∈ rows <-> m !! o = Some v) as Hin
    by (intros; by rewrite Hrows, elem_of_map_to_list).
  destruct (last_by less p rows) as [[o v]|] eqn:E; cbn.
  - apply last_by_Some in E as (Ho%Hin & Hpo & Hmax); [|done].
    destruct (tid v =? t) eqn:Et; bool_to_Z.
    + split_and!; [done|done| |].
      * apply Hp in Hpo as [Hlt|[_ Hq]]; [cbn in Hlt; lia|done].
      * intros o' v' Hv' Et' Hq'. apply (less_same_table (o, v) (o', v')); [cbn; congruence|].
        apply Hmax; [by apply Hin|]. apply Hp. auto.
    + intros o' v' Hv' Et' Hq'.
      assert (tid v < t) by (apply Hp in Hpo as [Hlt|[Heq _]]; cbn in *; [lia|congruence]).
      assert (less (o, v) (o', v') = true) as Hl by (apply less_spec; left; cbn; lia).
      rewrite Hmax in Hl; [done|by apply Hin|]. apply Hp. auto.
  - rewrite last_by_None in E. intros o' v' Hv'%Hin Et' Hq'.
    assert (p (o', v') = true) as Hpv by (apply Hp; auto). by rewrite E in Hpv.
Qed.
End table_walk.

(** The three orders, split into table and position within the table. *)
Definition kv_primary_less (a b : key_value_object) : bool := kv_primary_key a <? kv_primary_key b.

Lemma kv_less_split a b : kv_less a b = true <->
  kv_t_id a.2 < kv_t_id b.2 \/ (kv_t_id a.2 = kv_t_id b.2 /\ kv_primary_less a.2 b.2 = true).
Proof. unfold kv_less, kv_primary_less. by rewrite tie_less_pair, Z.ltb_lt. Qed.

(** [is_least P r]: [r] is the least key with [P], or [None] when there is none. *)
Definition is_least (P : Z -> Prop) (r : option Z) : Prop :=
  match r with Some i => P i /\ (forall j, P j -> i <= j) | None => forall j, ~ P j end.
Definition is_greatest (P : Z -> Prop) (r : option Z) : Prop :=
  match r with Some i => P i /\ (forall j, P j -> j <= i) | None => forall j, ~ P j end.

Lemma is_least_iff (P Q : Z -> Prop) r : (forall i, P i <-> Q i) -> is_least P r -> is_least Q r.
Proof. intros E. destruct r; cbn; naive_solver. Qed.
Lemma is_greatest_iff (P Q : Z -> Prop) r : (forall i, P i <-> Q i) -> is_greatest P r -> is_greatest Q r.
Proof. intros E. destruct r; cbn; naive_solver. Qed.

(** ** Primary rows *)

Section primary.
Context `{SoftFloat} {TT KT IT : Type}.
Context `{!ObjectIndex table_id_object TT tid_conflict}.
Context `{!ObjectIndex key_value_object KT kv_conflict}.
Context `{!ObjectIndex index_object IT ix_conflict}.
Notation state := (@table_state TT KT IT).
Implicit Types (s : state).

Definition kv_has s (tab : Z * Z * Z) (id : Z) : Prop := exists row, kv_row s tab id row.

(** [s'] is [s] with more iterators handed out. *)
Definition kv_grown s s' : Prop :=
  (exists cache, s' = set_keyval_cache cache s) /\ table_state_wf s' /\
  (forall it tab id, kv_at s it tab id -> kv_at s' it tab id) /\
  (forall it tab, kv_end s it tab -> kv_end s' it tab).

(** The iterator [it] of a query on [tab]: at the row found, at the end of the
    table, or -1 when there is no such table. *)
Definition kv_located s (it : Z) (tab : Z * Z * Z) (r : option Z) : Prop :=
  match r with
  | Some id => kv_at s it tab id
  | None => if decide (find_table tab.1.1 tab.1.2 tab.2 s = None) then it = -1 else kv_end s it tab
  end.

Lemma kv_grown_trans s1 s2 s3 : kv_grown s1 s2 -> kv_grown s2 s3 -> kv_grown s1 s3.
Proof.
  intros ((c1 & ->) & _ & Ha & He) ((c2 & ->) & Hwf & Ha' & He'). split_and!; [by exists c2|done|auto|auto].
Qed.

Lemma kv_has_object s t tv id :
  table_state_wf s -> tables_of s !! t = Some tv ->
  kv_has s (tid_key tv) id <-> exists o v, kv_of s !! o = Some v /\ kv_t_id v = t /\ kv_primary_key v = id.
Proof.
  intros Hwf Ht. split.
  - intros (row & t' & tv' & o & v & Ht' & Hk & Hv & <- & Hid & _).
    assert (kv_t_id v = t) as Et by (eapply table_key_inj; [apply Hwf|..]; eauto). eauto.
  - intros (o & v & Hv & <- & <-). exists (kv_payer v, kv_value v), (kv_t_id v), tv, o, v. by split_and!.
Qed.

Lemma kv_iterator_spec s o v tv ei it s' :
  table_state_wf s -> zlength (_iterator_to_object (keyval_cache s)) < 2 ^ 31 -> kv_of s !! o = Some v ->
  tables_of s !! kv_t_id v = Some tv -> _table_cache (keyval_cache s) !! kv_t_id v = Some (kv_t_id v, ei) ->
  kv_iterator (o, v) s = (it, s') ->
  kv_grown s s' /\ kv_at s' it (tid_key tv) (kv_primary_key v).
Proof.
  intros Hwf Hsm Hv Htv Ht. unfold kv_iterator. cbn [fst].
  destruct (cache_add o (keyval_cache s)) as [it1 c1] eqn:Ec. intros [= <- <-].
  destruct (cache_ok_add _ _ _ _ _ _ _ (wf_keyval_cache _ _ _ Hwf) Hsm Hv (ex_intro _ _ Ht) Ec)
    as (Hok & Hg & HT & Hget).
  split; [|by exists o, v, tv].
  split_and!; [by exists c1|by apply set_keyval_cache_inv| |].
  - intros i tab id (o' & w & tw & Hgi & Hrest). exists o', w, tw. split; [cbn; by apply Hget|done].
  - intros i tab (t & tw & Htw & Hk & Hc). exists t, tw. split_and!; [done..|]. cbn. by rewrite HT.
Qed.

Lemma kv_table_None s code scope table :
  kv_table code scope table s = None <-> find_table code scope table s = None.
Proof. unfold kv_table. destruct (find_table _ _ _ s); [|done]. by destruct (cache_table _ _). Qed.

(** Looking up a table caches it. *)
Lemma kv_table_Some s code scope table tab ei s' :
  table_state_wf s -> cache_small (keyval_cache s) -> kv_table code scope table s = Some (tab, ei, s') ->
  kv_grown s s' /\ find_table code scope table s = Some tab /\ kv_end s' ei (code, scope, table) /\
  _iterator_to_object (keyval_cache s') = _iterator_to_object (keyval_cache s) /\
  exists tv, tables_of s !! tab = Some tv /\ tid_key tv = (code, scope, table) /\
    _table_cache (keyval_cache s') !! tab = Some (tab, ei).
Proof.
  intros Hwf Hsm. unfold kv_table. destruct (find_table code scope table s) as [t|] eqn:Ef; [|done].
  destruct (cache_table t (keyval_cache s)) as [e c1] eqn:Ec. intros [= <- <- <-].
  destruct (cache_ok_table _ _ _ _ _ _ (wf_keyval_cache _ _ _ Hwf) (proj1 Hsm) Ec) as (Hok & Ht & Hlen & Htabs & Hget).
  apply find_table_Some in Ef as (tv & Htv & Hk).
  split_and!; [|done|by exists t, tv|done|by exists tv].
  split_and!; [by exists c1|by apply set_keyval_cache_inv| |].
  - intros i tab id (o' & w & tw & Hgi & Hrest). exists o', w, tw. split; [cbn; by apply Hget|done].
  - intros i tab (u & tw & Htw & Hku & Hc). exists u, tw. split_and!; [done..|]. cbn. by apply Htabs.
Qed.

(** The answer of a query that cached its table and picked a row of it. *)
Lemma kv_answer s code scope table tab ei s1 (r : option (Z * key_value_object)) it s' :
  table_state_wf s -> cache_small (keyval_cache s) -> kv_table code scope table s = Some (tab, ei, s1) ->
  match r with Some (o, v) => kv_of s !! o = Some v /\ kv_t_id v = tab | None => True end ->
  match r with Some r => kv_iterator r s1 | None => (ei, s1) end = (it, s') ->
  kv_grown s s' /\ kv_located s' it (code, scope, table) (kv_primary_key ∘ snd <$> r).
Proof.
  intros Hwf Hsm Htab Hr Hit.
  destruct (kv_table_Some _ _ _ _ _ _ _ Hwf Hsm Htab) as (Hgr & Hfind & Hend & Hlen & tv & Htv & Hk & Hc).
  pose proof Hgr as ((c1 & ->) & Hwf1 & _).
  destruct r as [[o v]|]; cbn.
  - destruct Hr as [Hv <-].
    destruct (kv_iterator_spec (set_keyval_cache c1 s) o v tv ei it s') as [Hgr2 Hat]; try done.
    { rewrite Hlen. apply Hsm. }
    split; [by eapply kv_grown_trans|]. by rewrite Hk in Hat.
  - injection Hit as <- <-. split; [done|]. rewrite decide_False; [done|]. change (find_table code scope table s <> None).
    by rewrite Hfind.
Qed.

(** A row picked by its order within the table is the least key. *)
Lemma picked_least s t tv (q : Z -> Prop) (r : option (Z * key_value_object)) :
  table_state_wf s -> tables_of s !! t = Some tv ->
  match r with
  | Some (o, v) => kv_of s !! o = Some v /\ kv_t_id v = t /\ q (kv_primary_key v) /\
      forall o' v', kv_of s !! o' = Some v' -> kv_t_id v' = t -> q (kv_primary_key v') ->
        kv_primary_less v' v = false
  | None => forall o' v', kv_of s !! o' = Some v' -> kv_t_id v' = t -> ~ q (kv_primary_key v')
  end -> is_least (fun j => kv_has s (tid_key tv) j /\ q j) (kv_primary_key ∘ snd <$> r).
Proof.
  intros Hwf Ht. destruct r as [[o v]|]; cbn.
  - intros (Hv & Et & Hq & Hmin). split.
    + split; [|done]. apply (kv_has_object _ t); eauto.
    + intros j [Hj Hqj]. apply (kv_has_object _ t) in Hj as (o' & v' & Hv' & Et' & <-); [|done..].
      specialize (Hmin _ _ Hv' Et' Hqj). by apply Z.ltb_ge in Hmin.
  - intros Hnone j [Hj Hqj]. apply (kv_has_object _ t) in Hj as (o' & v' & Hv' & Et' & <-); [|done..].
    by eapply Hnone.
Qed.

Lemma picked_greatest s t tv (q : Z -> Prop) (r : option (Z * key_value_object)) :
  table_state_wf s -> tables_of s !! t = Some tv ->
  match r with
  | Some (o, v) => kv_of s !! o = Some v /\ kv_t_id v = t /\ q (kv_primary_key v) /\
      forall o' v', kv_of s !! o' = Some v' -> kv_t_id v' = t -> q (kv_primary_key v') ->
        kv_primary_less v v' = false
  | None => forall o' v', kv_of s !! o' = Some v' -> kv_t_id v' = t -> ~ q (kv_primary_key v')
  end -> is_greatest (fun j => kv_has s (tid_key tv) j /\ q j) (kv_primary_key ∘ snd <$> r).
Proof.
  intros Hwf Ht. destruct r as [[o v]|]; cbn.
  - intros (Hv & Et & Hq & Hmax). split.
    + split; [|done]. apply (kv_has_object _ t); eauto.
    + intros j [Hj Hqj]. apply (kv_has_object _ t) in Hj as (o' & v' & Hv' & Et' & <-); [|done..].
      specialize (Hmax _ _ Hv' Et' Hqj). by apply Z.ltb_ge in Hmax.
  - intros Hnone j [Hj Hqj]. apply (kv_has_object _ t) in Hj as (o' & v' & Hv' & Et' & <-); [|done..].
    by eapply Hnone.
Qed.

Lemma no_table_no_rows s code scope table (q : Z -> Prop) :
  find_table code scope table s = None -> is_least (fun j => kv_has s (code, scope, table) j /\ q j) None.
Proof.
  intros Hf j [(row & t & tv & o & v & Ht & Hk & _) _]. by apply (find_table_None _ _ _ _ Hf _ _ Ht).
Qed.

Lemma kv_grown_refl s : table_state_wf s -> kv_grown s s.
Proof. intros Hwf. split_and!; auto. exists (keyval_cache s). by destruct s. Qed.

(** A query that finds no table. *)
Lemma kv_located_no_table s code scope table :
  find_table code scope table s = None -> kv_located s (-1) (code, scope, table) None.
Proof. intros Hf. cbn. by rewrite decide_True. Qed.

Lemma db_find_i64_effect code scope table id s it s' :
  table_state_wf s -> cache_small (keyval_cache s) -> db_find_i64 code scope table id s = (it, s') ->
  exists r, is_least (fun j => kv_has s (code, scope, table) j /\ j = id) r /\
    kv_grown s s' /\ kv_located s' it (code, scope, table) r.
Proof.
  intros Hwf Hsm. unfold db_find_i64. destruct (kv_table code scope table s) as [[[tab ei] s1]|] eqn:Et.
  - destruct (kv_table_Some _ _ _ _ _ _ _ Hwf Hsm Et) as (((c1 & Es1) & _) & _ & _ & _ & tv & Htv & Hk & _).
    assert (key_values s1 = key_values s) as -> by by rewrite Es1.
    intros Hit. destruct (List.find _ _) as [[o v]|] eqn:Ef.
    + apply find_some in Ef as [Hv Hc]. apply list_elem_of_In, elem_of_obj_rows in Hv.
      unfold kv_conflict in Hc. cbn in Hc. bool_to_Z. subst.
      eapply (kv_answer _ _ _ _ _ _ _ (Some (o, v))) in Hit as [Hgr Hloc]; eauto.
      exists (Some (kv_primary_key v)). split_and!; [|done|done]. rewrite <- Hk.
      apply (picked_least s (kv_t_id v) tv _ (Some (o, v))); [done..|]. split_and!; [done..|].
      intros o' v' _ _ E. unfold kv_primary_less. rewrite E. apply Z.ltb_irrefl.
    + eapply (kv_answer _ _ _ _ _ _ _ None) in Hit as [Hgr Hloc]; eauto.
      exists None. split_and!; [|done|done]. rewrite <- Hk. apply (picked_least s tab tv _ None); [done..|].
      intros o' v' Hv' E1 E2. apply elem_of_obj_rows, list_elem_of_In in Hv'.
      pose proof (find_none _ _ Ef _ Hv') as Hn. unfold kv_conflict in Hn. cbn in Hn.
      by rewrite E1, E2, !Z.eqb_refl in Hn.
  - apply kv_table_None in Et. intros [= <- <-]. exists None.
    split_and!; [by apply no_table_no_rows|by apply kv_grown_refl|by apply kv_located_no_table].
Qed.

Lemma kv_bound_split upper tab id r :
  kv_bound upper tab id r = true <->
  tab < kv_t_id r.2 \/ (kv_t_id r.2 = tab /\ if upper then id < kv_primary_key r.2 else id <= kv_primary_key r.2).
Proof.
  unfold kv_bound. destruct upper; [rewrite tie_less_pair; naive_solver|].
  rewrite negb_true_iff, <- not_true_iff_false, tie_less_pair. lia.
Qed.

Lemma db_bound_i64_effect upper code scope table id s it s' :
  table_state_wf s -> cache_small (keyval_cache s) -> db_bound_i64 upper code scope table id s = (it, s') ->
  exists r, is_least (fun j => kv_has s (code, scope, table) j /\ if upper then id < j else id <= j) r /\
    kv_grown s s' /\ kv_located s' it (code, scope, table) r.
Proof.
  intros Hwf Hsm. unfold db_bound_i64. destruct (kv_table code scope table s) as [[[tab ei] s1]|] eqn:Et.
  - destruct (kv_table_Some _ _ _ _ _ _ _ Hwf Hsm Et) as (((c1 & Es1) & _) & _ & _ & _ & tv & Htv & Hk & _).
    assert (key_values s1 = key_values s) as -> by by rewrite Es1.
    pose proof (bound_pick kv_t_id kv_less kv_primary_less kv_less_split (kv_of s) (obj_rows (key_values s)) tab
      (kv_bound upper tab id) (fun v => if upper then id < kv_primary_key v else id <= kv_primary_key v)
      (obj_rows_view _) (kv_bound_split upper tab id)) as Hpick.
    intros Hit. set (r := pick kv_t_id tab (bound_by kv_less (kv_bound upper tab id) (obj_rows (key_values s)))) in *.
    assert (match r with Some r => kv_iterator r s1 | None => (ei, s1) end = (it, s')) as Hit'.
    { rewrite <- Hit. unfold r. destruct (bound_by _ _ _) as [[o v]|]; cbn; [|done]. by destruct (kv_t_id v =? tab). }
    apply (kv_answer s code scope table tab) in Hit' as [Hgr Hloc]; [|done..|by destruct r as [[]|]; naive_solver].
    eexists. split_and!; [|done|done]. rewrite <- Hk. by apply (picked_least s tab tv).
  - apply kv_table_None in Et. intros [= <- <-]. exists None.
    split_and!; [by apply no_table_no_rows|by apply kv_grown_refl|by apply kv_located_no_table].
Qed.

(** The end iterator of a live table leads back to it. *)
Lemma end_iterator_table c t ei :
  cache_wf c -> cache_small c -> _table_cache c !! t = Some (t, ei) ->
  ei <? -1 = true /\ find_table_by_end_iterator ei c = Ok (Some t).
Proof.
  intros Hwf [Hs _] Ht. apply (cache_tables _ Hwf) in Ht as (_ & Hle & Hl).
  pose proof (lookup_lt_Some _ _ _ Hl) as Hlt. assert (ei <? -1 = true) as E by (apply Z.ltb_lt; lia).
  split; [done|]. unfold find_table_by_end_iterator, end_iterator_to_index. rewrite E. cbn.
  rewrite (proj2 (Z.eqb_neq ei int_min)) by (unfold int_min; lia). cbn. rewrite u64_small by lia. by rewrite Hl.
Qed.

Lemma cache_get_nonneg c it o : cache_get it c = Ok o -> it <? -1 = false.
Proof. unfold cache_get, object_slot. intros Hg. inv_res. bool_to_Z. apply Z.ltb_ge. lia. Qed.

(** The answer of a walk from a row: an iterator of the row picked. *)
Lemma kv_walk s t tv ei (r : option (Z * key_value_object)) o v :
  table_state_wf s -> cache_small (keyval_cache s) -> tables_of s !! t = Some tv ->
  _table_cache (keyval_cache s) !! t = Some (t, ei) -> r = Some (o, v) ->
  kv_of s !! o = Some v -> kv_t_id v = t ->
  exists it s', kv_iterator (o, v) s = (it, s') /\ kv_grown s s' /\ kv_at s' it (tid_key tv) (kv_primary_key v).
Proof.
  intros Hwf Hsm Htv Hc -> Hv <-. destruct (kv_iterator (o, v) s) as [it s'] eqn:E. exists it, s'.
  split; [done|]. eapply kv_iterator_spec; eauto. apply Hsm.
Qed.

Lemma db_next_i64_effect it tab id s :
  table_state_wf s -> cache_small (keyval_cache s) -> kv_at s it tab id ->
  exists it' r s', db_next_i64 it s = Ok (it', r, s') /\
    is_least (fun j => kv_has s tab j /\ id < j) r /\ kv_grown s s' /\ kv_located s' it' tab r.
Proof.
  intros Hwf Hsm (o & v & tv & Hg & Hv & <- & Htv & <-).
  destruct (kv_row_of_iterator _ _ _ Hwf Hg) as (v' & tv' & Hv' & _ & _ & (ei & Hge & Hc) & _).
  assert (v' = v) as -> by congruence.
  unfold db_next_i64. rewrite (cache_get_nonneg _ _ _ Hg), Hg. cbn [mbind result_bind].
  rewrite (proj2 (deref_Ok _ _ _ _) Hv). cbn [mbind result_bind].
  pose proof (bound_pick kv_t_id kv_less kv_primary_less kv_less_split (kv_of s) (obj_rows (key_values s)) (kv_t_id v)
    (kv_less (o, v)) (fun w => kv_primary_key v < kv_primary_key w) (obj_rows_view _)) as Hpick.
  ospecialize (Hpick _).
  { intros r. rewrite kv_less_split. unfold kv_primary_less. cbn. rewrite Z.ltb_lt. naive_solver. }
  apply (picked_least s (kv_t_id v) tv (fun j => kv_primary_key v < j)) in Hpick as Hleast; [|done..].
  assert (kv_located s ei (tid_key tv) None) as Hend.
  { cbn. rewrite decide_False; [by exists (kv_t_id v), tv|]. destruct tv as [a b d p n]. cbn.
    by rewrite (find_table_unique s (kv_t_id v) (mk_tid a b d p n)) by (done || apply Hwf). }
  unfold next_by. destruct (bound_by _ _ _) as [[o1 v1]|]; cbn in *; [destruct (kv_t_id v1 =? kv_t_id v) eqn:Et|].
  - destruct Hpick as (Hv1 & Et1 & _).
    destruct (kv_walk s (kv_t_id v) tv ei (Some (o1, v1)) o1 v1) as (it' & s' & -> & Hgr & Hat); try done.
    exists it', (Some (kv_primary_key v1)), s'. by split_and!.
  - rewrite Hge. exists ei, None, s. split_and!; [done|done|by apply kv_grown_refl|done].
  - rewrite Hge. exists ei, None, s. split_and!; [done|done|by apply kv_grown_refl|done].
Qed.

(** Walking back from a row or from the end; -1 before the first row. *)
Lemma db_previous_i64_effect it tab s (q : Z -> Prop) :
  table_state_wf s -> cache_small (keyval_cache s) ->
  ((exists id, kv_at s it tab id /\ forall j, q j <-> j < id) \/ (kv_end s it tab /\ forall j, q j)) ->
  exists it' r s', db_previous_i64 it s = Ok (it', r, s') /\
    is_greatest (fun j => kv_has s tab j /\ q j) r /\ kv_grown s s' /\
    match r with Some j => kv_at s' it' tab j | None => it' = -1 end.
Proof.
  intros Hwf Hsm Hpos.
  assert (exists t tv ei p, tables_of s !! t = Some tv /\ tid_key tv = tab /\
    _table_cache (keyval_cache s) !! t = Some (t, ei) /\
    (forall r, p r = true <-> kv_t_id r.2 < t \/ (kv_t_id r.2 = t /\ q (kv_primary_key r.2))) /\
    db_previous_i64 it s = match last_by kv_less p (obj_rows (key_values s)) with
      | None => Ok (-1, None, s)
      | Some itr => if kv_t_id itr.2 =? t then let '(i, s) := kv_iterator itr s in Ok (i, Some (kv_primary_key itr.2), s)
                    else Ok (-1, None, s) end) as (t & tv & ei & p & Htv & <- & Hc & Hp & ->).
  { destruct Hpos as [(id & (o & v & tv & Hg & Hv & <- & Htv & <-) & Hq)|[(t & tv & Htv & <- & Hc) Hq]].
    - destruct (kv_row_of_iterator _ _ _ Hwf Hg) as (v' & tv' & Hv' & _ & _ & (ei & Hge & Hc) & _).
      assert (v' = v) as -> by congruence. exists (kv_t_id v), tv, ei, (fun x => kv_less x (o, v)).
      split_and!; [done..| |].
      + intros r. rewrite kv_less_split, Hq. unfold kv_primary_less. cbn. by rewrite Z.ltb_lt.
      + unfold db_previous_i64. rewrite (cache_get_nonneg _ _ _ Hg), Hg. cbn [mbind result_bind].
        by rewrite (proj2 (deref_Ok _ _ _ _) Hv).
    - exists t, tv, it, (fun r => kv_t_id r.2 <=? t). split_and!; [done..| |].
      + intros r. rewrite Z.leb_le. split; [|intros [?|[? _]]; lia].
        intros. destruct (decide (kv_t_id r.2 < t)); [by left|right]. split; [lia|done].
      + destruct (end_iterator_table _ _ _ (cache_ok_wf _ _ _ (wf_keyval_cache _ _ _ Hwf)) Hsm Hc) as [E1 E2].
        unfold db_previous_i64. rewrite E1, E2. cbn [mbind result_bind of_option].
        by rewrite (proj2 (deref_Ok _ _ _ _) Htv). }
  pose proof (last_pick kv_t_id kv_less kv_primary_less kv_less_split (kv_of s) (obj_rows (key_values s)) t p
    (fun w => q (kv_primary_key w)) (obj_rows_view _) Hp) as Hpick.
  apply (picked_greatest s t tv q) in Hpick as Hgr; [|done..].
  destruct (last_by _ _ _) as [[o1 v1]|]; cbn in *; [destruct (kv_t_id v1 =? t) eqn:Et|].
  - destruct Hpick as (Hv1 & Et1 & _).
    destruct (kv_walk s t tv ei (Some (o1, v1)) o1 v1) as (it' & s' & -> & Hgr' & Hat); try done.
    exists it', (Some (kv_primary_key v1)), s'. by split_and!.
  - exists (-1), None, s. split_and!; [done|done|by apply kv_grown_refl|done].
  - exists (-1), None, s. split_and!; [done|done|by apply kv_grown_refl|done].
Qed.

End primary.
