(* ===== verification/SecondaryIndexWalk.v ===== *)
(** * Secondary indices: finding and walking rows

    The walks of [generic_index] in the order by primary key and in the order by
    secondary key.  Both are instances of one statement about an order [less]
    that compares tables first and then rows of a table by [sub]. *)

From S2P Require Import Prelude Exceptions Types ObjectIndex IteratorCache Authority.
From S2P Require Import AuthorizationManager ContractTables SecondaryIndex ContractTableProps.
From S2P Require Import ContractTableOps ContractTableWalk.

Section secondary.
Context `{SoftFloat} {TT KT IT : Type}.
Context `{!ObjectIndex table_id_object TT tid_conflict}.
Context `{!ObjectIndex key_value_object KT kv_conflict}.
Context `{!ObjectIndex index_object IT ix_conflict}.
Notation state := (@table_state TT KT IT).
Implicit Types (s : state).
Variable (k : index_kind).

(** [v] is a row of table [tab] in the index. *)
Definition ix_in s (tab : Z * Z * Z) (v : index_object) : Prop :=
  exists o tv, ix_of s k !! o = Some v /\ tables_of s !! ix_t_id v = Some tv /\ tid_key tv = tab.
(** Iterator [it] stands for the row [v] of [tab]. *)
Definition ix_on s (it : Z) (tab : Z * Z * Z) (v : index_object) : Prop :=
  exists o tv, cache_get it (itr_cache s k) = Ok o /\ ix_of s k !! o = Some v /\
    tables_of s !! ix_t_id v = Some tv /\ tid_key tv = tab.

(** The first row of [tab] with [q] in the order [sub], or none. *)
Definition ix_first (sub : index_object -> index_object -> bool) s (tab : Z * Z * Z)
    (q : index_object -> Prop) (r : option index_object) : Prop :=
  match r with
  | Some v => ix_in s tab v /\ q v /\ forall w, ix_in s tab w -> q w -> sub w v = false
  | None => forall w, ix_in s tab w -> ~ q w
  end.

(** [s'] is [s] with more iterators of this index handed out. *)
Definition ix_grown s s' : Prop :=
  (tables s' = tables s /\ key_values s' = key_values s /\ indices s' = indices s /\
   keyval_cache s' = keyval_cache s /\ (forall x, ram_used s' x = ram_used s x) /\
   forall k', k' <> k -> itr_cache s' k' = itr_cache s k') /\
  table_state_wf s' /\
  (forall it tab v, ix_on s it tab v -> ix_on s' it tab v) /\
  (forall it tab, ix_end s k it tab -> ix_end s' k it tab).

Definition ix_located s (it : Z) (tab : Z * Z * Z) (r : option index_object) : Prop :=
  match r with
  | Some v => ix_on s it tab v
  | None => if decide (find_table tab.1.1 tab.1.2 tab.2 s = None) then it = -1 else ix_end s k it tab
  end.

Lemma ix_grown_refl s : table_state_wf s -> ix_grown s s.
Proof. intros Hwf. by split_and!. Qed.

Lemma ix_grown_trans s1 s2 s3 : ix_grown s1 s2 -> ix_grown s2 s3 -> ix_grown s1 s3.
Proof.
  intros ((?&?&?&?&E1&E1') & _ & ? & ?) ((?&?&?&?&E2&E2') & ? & ? & ?). split_and!;
    [congruence..|intros x; by rewrite E2|intros k' ?; by rewrite E2', E1'|done|auto|auto].
Qed.

(** New entries of the cache leave the rest of the state alone. *)
Lemma ix_grown_cache s cache :
  table_state_wf s -> cache_ok ix_t_id (ix_of s k) cache ->
  (forall it o, cache_get it (itr_cache s k) = Ok o -> cache_get it cache = Ok o) ->
  (forall t x, _table_cache (itr_cache s k) !! t = Some x -> _table_cache cache !! t = Some x) ->
  ix_grown s (set_itr_cache k cache s).
Proof.
  intros Hwf Hok Hget Htab. split_and!; try done.
  - intros k' Hk. cbn. by rewrite update_kind_ne.
  - by apply set_itr_cache_inv.
  - intros it tab v (o & tv & Hg & Hrest). exists o, tv. cbn. rewrite update_kind_eq. split; [by apply Hget|done].
  - intros it tab (t & tv & Ht & Hk & Hc). exists t, tv. cbn. rewrite update_kind_eq. split_and!; [done..|by apply Htab].
Qed.

Lemma ix_iterator_spec s o v tv ei it s' :
  table_state_wf s -> zlength (_iterator_to_object (itr_cache s k)) < 2 ^ 31 -> ix_of s k !! o = Some v ->
  tables_of s !! ix_t_id v = Some tv -> _table_cache (itr_cache s k) !! ix_t_id v = Some (ix_t_id v, ei) ->
  ix_iterator k (o, v) s = (it, s') ->
  ix_grown s s' /\ ix_on s' it (tid_key tv) v.
Proof.
  intros Hwf Hsm Hv Htv Ht. unfold ix_iterator. cbn [fst].
  destruct (cache_add o (itr_cache s k)) as [it1 c1] eqn:Ec. intros [= <- <-].
  destruct (cache_ok_add _ _ _ _ _ _ _ (wf_itr_cache _ _ _ Hwf k) Hsm Hv (ex_intro _ _ Ht) Ec)
    as (Hok & Hg & HT & Hget).
  split; [apply ix_grown_cache; try done; intros; by rewrite HT|].
  exists o, tv. cbn. by rewrite update_kind_eq.
Qed.

Lemma ix_table_None s code scope table :
  ix_table k code scope table s = None <-> find_table code scope table s = None.
Proof. unfold ix_table. destruct (find_table _ _ _ s); [|done]. by destruct (cache_table _ _). Qed.

Lemma ix_table_Some s code scope table tab ei s' :
  table_state_wf s -> cache_small (itr_cache s k) -> ix_table k code scope table s = Some (tab, ei, s') ->
  ix_grown s s' /\ find_table code scope table s = Some tab /\ ix_end s' k ei (code, scope, table) /\
  _iterator_to_object (itr_cache s' k) = _iterator_to_object (itr_cache s k) /\
  exists tv, tables_of s !! tab = Some tv /\ tid_key tv = (code, scope, table) /\
    _table_cache (itr_cache s' k) !! tab = Some (tab, ei).
Proof.
  intros Hwf Hsm. unfold ix_table. destruct (find_table code scope table s) as [t|] eqn:Ef; [|done].
  destruct (cache_table t (itr_cache s k)) as [e c1] eqn:Ec. intros [= <- <- <-].
  destruct (cache_ok_table _ _ _ _ _ _ (wf_itr_cache _ _ _ Hwf k) (proj1 Hsm) Ec) as (Hok & Ht & Hlen & Htabs & Hget).
  apply find_table_Some in Ef as (tv & Htv & Hk). cbn. rewrite update_kind_eq.
  split_and!; [by apply ix_grown_cache|done| |done|by exists tv].
  exists t, tv. cbn. by rewrite update_kind_eq.
Qed.

(** The answer of a query that cached its table and picked a row of it. *)
Lemma ix_answer s code scope table tab ei s1 (r : option (Z * index_object)) it s' :
  table_state_wf s -> cache_small (itr_cache s k) -> ix_table k code scope table s = Some (tab, ei, s1) ->
  match r with Some (o, v) => ix_of s k !! o = Some v /\ ix_t_id v = tab | None => True end ->
  match r with Some r => ix_iterator k r s1 | None => (ei, s1) end = (it, s') ->
  ix_grown s s' /\ ix_located s' it (code, scope, table) (snd <$> r).
Proof.
  intros Hwf Hsm Htab Hr Hit.
  destruct (ix_table_Some _ _ _ _ _ _ _ Hwf Hsm Htab) as (Hgr & Hfind & Hend & Hlen & tv & Htv & Hk & Hc).
  pose proof Hgr as ((ET & _ & EI & _) & Hwf1 & _).
  destruct r as [[o v]|]; cbn.
  - destruct Hr as [Hv <-]. destruct (ix_iterator_spec s1 o v tv ei it s') as [Hgr2 Hat]; try done.
    + rewrite Hlen. apply Hsm.
    + unfold ix_of. by rewrite EI.
    + unfold tables_of. by rewrite ET.
    + split; [by eapply ix_grown_trans|]. by rewrite Hk in Hat.
  - injection Hit as <- <-. split; [done|]. rewrite decide_False; [done|]. unfold find_table. rewrite ET.
    by unfold find_table in Hfind; rewrite Hfind.
Qed.

Lemma ix_in_object s t tv v :
  table_state_wf s -> tables_of s !! t = Some tv ->
  ix_in s (tid_key tv) v <-> exists o, ix_of s k !! o = Some v /\ ix_t_id v = t.
Proof.
  intros Hwf Ht. split.
  - intros (o & tv' & Hv & Ht' & Hk). exists o. split; [done|]. eapply table_key_inj; [apply Hwf|..]; eauto.
  - intros (o & Hv & <-). by exists o, tv.
Qed.

(** A row picked by its order within the table is the first one. *)
Lemma ix_picked sub s t tv (q : index_object -> Prop) (r : option (Z * index_object)) :
  table_state_wf s -> tables_of s !! t = Some tv ->
  match r with
  | Some (o, v) => ix_of s k !! o = Some v /\ ix_t_id v = t /\ q v /\
      forall o' v', ix_of s k !! o' = Some v' -> ix_t_id v' = t -> q v' -> sub v' v = false
  | None => forall o' v', ix_of s k !! o' = Some v' -> ix_t_id v' = t -> ~ q v'
  end -> ix_first sub s (tid_key tv) q (snd <$> r).
Proof.
  intros Hwf Ht. destruct r as [[o v]|]; cbn.
  - intros (Hv & Et & Hq & Hmin). split_and!; [|done|].
    + apply (ix_in_object _ t); eauto.
    + intros w Hw Hqw. apply (ix_in_object _ t) in Hw as (o' & Hv' & Et'); [|done..]. eauto.
  - intros Hnone w Hw. apply (ix_in_object _ t) in Hw as (o' & Hv' & Et'); [|done..]. eauto.
Qed.

Lemma ix_no_table sub s code scope table q :
  find_table code scope table s = None -> ix_first sub s (code, scope, table) q None.
Proof. intros Hf w (o & tv & Hv & Ht & Hk) _. by apply (find_table_None _ _ _ _ Hf _ _ Ht). Qed.

Lemma ix_located_no_table s code scope table :
  find_table code scope table s = None -> ix_located s (-1) (code, scope, table) None.
Proof. intros Hf. cbn. by rewrite decide_True. Qed.

(** ** Queries and walks in an order [less] *)

Section order.
Variable (less : Z * index_object -> Z * index_object -> bool) (sub : index_object -> index_object -> bool).
Context `{!StrictLess less}.
Hypothesis less_spec : forall a b, less a b = true <->
  ix_t_id a.2 < ix_t_id b.2 \/ (ix_t_id a.2 = ix_t_id b.2 /\ sub a.2 b.2 = true).

Lemma ix_bound_effect from q code scope table s it row s' :
  (forall tab r, from tab r = true <-> tab < ix_t_id r.2 \/ (ix_t_id r.2 = tab /\ q r.2)) ->
  table_state_wf s -> cache_small (itr_cache s k) ->
  ix_bound k less from code scope table s = (it, row, s') ->
  ix_first sub s (code, scope, table) q row /\ ix_grown s s' /\ ix_located s' it (code, scope, table) row.
Proof.
  intros Hfrom Hwf Hsm. unfold ix_bound. destruct (ix_table k code scope table s) as [[[tab ei] s1]|] eqn:Et.
  - destruct (ix_table_Some _ _ _ _ _ _ _ Hwf Hsm Et) as (((_ & _ & EI & _) & _) & _ & _ & _ & tv & Htv & Hk & _).
    rewrite EI.
    pose proof (bound_pick ix_t_id less sub less_spec (ix_of s k) (obj_rows (indices s k)) tab
      (from tab) q (obj_rows_view _) (Hfrom tab)) as Hpick.
    intros Hit. set (r := pick ix_t_id tab (bound_by less (from tab) (obj_rows (indices s k)))) in *.
    assert (row = snd <$> r /\ match r with Some r => ix_iterator k r s1 | None => (ei, s1) end = (it, s')) as [-> Hit'].
    { revert Hit. unfold r. destruct (bound_by _ _ _) as [[o v]|]; cbn; [|by intros [= <- <- <-]].
      destruct (ix_t_id v =? tab); [|by intros [= <- <- <-]].
      destruct (ix_iterator k (o, v) s1). by intros [= <- <- <-]. }
    apply (ix_answer s code scope table tab) in Hit' as [Hgr Hloc]; [|done..|by destruct r as [[]|]; naive_solver].
    split_and!; [|done|done]. rewrite <- Hk. by apply (ix_picked sub s tab tv).
  - apply ix_table_None in Et. intros [= <- <- <-].
    split_and!; [by apply ix_no_table|by apply ix_grown_refl|by apply ix_located_no_table].
Qed.

Lemma ix_walk s t tv ei o v :
  table_state_wf s -> cache_small (itr_cache s k) -> tables_of s !! t = Some tv ->
  _table_cache (itr_cache s k) !! t = Some (t, ei) -> ix_of s k !! o = Some v -> ix_t_id v = t ->
  exists it s', ix_iterator k (o, v) s = (it, s') /\ ix_grown s s' /\ ix_on s' it (tid_key tv) v.
Proof.
  intros Hwf Hsm Htv Hc Hv <-. destruct (ix_iterator k (o, v) s) as [it s'] eqn:E. exists it, s'.
  split; [done|]. eapply ix_iterator_spec; eauto. apply Hsm.
Qed.

Lemma ix_next_effect it tab v s :
  table_state_wf s -> cache_small (itr_cache s k) -> ix_on s it tab v ->
  exists it' r s', ix_next k less it s = Ok (it', ix_primary_key <$> r, s') /\
    ix_first sub s tab (fun w => sub v w = true) r /\ ix_grown s s' /\ ix_located s' it' tab r.
Proof.
  intros Hwf Hsm (o & tv & Hg & Hv & Htv & <-).
  destruct (ix_row_of_iterator _ _ _ _ Hwf Hg) as (v' & tv' & Hv' & _ & _ & (ei & Hge & Hc) & _).
  assert (v' = v) as -> by congruence.
  unfold ix_next. rewrite (cache_get_nonneg _ _ _ Hg), Hg. cbn [mbind result_bind].
  rewrite (proj2 (deref_Ok _ _ _ _) Hv). cbn [mbind result_bind].
  pose proof (bound_pick ix_t_id less sub less_spec (ix_of s k) (obj_rows (indices s k)) (ix_t_id v)
    (less (o, v)) (fun w => sub v w = true) (obj_rows_view _)) as Hpick.
  ospecialize (Hpick _).
  { intros r. rewrite less_spec. cbn. naive_solver. }
  apply (ix_picked sub s (ix_t_id v) tv (fun w => sub v w = true)) in Hpick as Hfirst; [|done..].
  assert (ix_located s ei (tid_key tv) None) as Hend.
  { cbn. rewrite decide_False; [by exists (ix_t_id v), tv|]. destruct tv as [a b d p n]. cbn.
    by rewrite (find_table_unique s (ix_t_id v) (mk_tid a b d p n)) by (done || apply Hwf). }
  unfold next_by. destruct (bound_by _ _ _) as [[o1 v1]|]; cbn in *; [destruct (ix_t_id v1 =? ix_t_id v) eqn:Et|].
  - destruct Hpick as (Hv1 & Et1 & _).
    destruct (ix_walk s (ix_t_id v) tv ei o1 v1) as (it' & s' & -> & Hgr & Hat); try done.
    exists it', (Some v1), s'. by split_and!.
  - rewrite Hge. exists ei, None, s. split_and!; [done|done|by apply ix_grown_refl|done].
  - rewrite Hge. exists ei, None, s. split_and!; [done|done|by apply ix_grown_refl|done].
Qed.

Lemma ix_previous_effect it tab s (q : index_object -> Prop) :
  table_state_wf s -> cache_small (itr_cache s k) ->
  ((exists v, ix_on s it tab v /\ forall w, q w <-> sub w v = true) \/ (ix_end s k it tab /\ forall w, q w)) ->
  exists it' r s', ix_previous k less it s = Ok (it', ix_primary_key <$> r, s') /\
    ix_first (fun a b => sub b a) s tab q r /\ ix_grown s s' /\
    match r with Some w => ix_on s' it' tab w | None => it' = -1 end.
Proof.
  intros Hwf Hsm Hpos.
  assert (exists t tv ei p, tables_of s !! t = Some tv /\ tid_key tv = tab /\
    _table_cache (itr_cache s k) !! t = Some (t, ei) /\
    (forall r, p r = true <-> ix_t_id r.2 < t \/ (ix_t_id r.2 = t /\ q r.2)) /\
    ix_previous k less it s = match last_by less p (obj_rows (indices s k)) with
      | None => Ok (-1, None, s)
      | Some itr => if ix_t_id itr.2 =? t then let '(i, s) := ix_iterator k itr s in Ok (i, Some (ix_primary_key itr.2), s)
                    else Ok (-1, None, s) end) as (t & tv & ei & p & Htv & <- & Hc & Hp & ->).
  { destruct Hpos as [(v & (o & tv & Hg & Hv & Htv & <-) & Hq)|[(t & tv & Htv & <- & Hc) Hq]].
    - destruct (ix_row_of_iterator _ _ _ _ Hwf Hg) as (v' & tv' & Hv' & _ & _ & (ei & Hge & Hc) & _).
      assert (v' = v) as -> by congruence. exists (ix_t_id v), tv, ei, (fun x => less x (o, v)).
      split_and!; [done..| |].
      + intros r. by rewrite less_spec, Hq.
      + unfold ix_previous. rewrite (cache_get_nonneg _ _ _ Hg), Hg. cbn [mbind result_bind].
        by rewrite (proj2 (deref_Ok _ _ _ _) Hv).
    - exists t, tv, it, (fun r => ix_t_id r.2 <=? t). split_and!; [done..| |].
      + intros r. rewrite Z.leb_le. split; [|intros [?|[? _]]; lia].
        intros. destruct (decide (ix_t_id r.2 < t)); [by left|right]. split; [lia|done].
      + destruct (end_iterator_table _ _ _ (cache_ok_wf _ _ _ (wf_itr_cache _ _ _ Hwf k)) Hsm Hc) as [E1 E2].
        unfold ix_previous. rewrite E1, E2. cbn [mbind result_bind of_option].
        by rewrite (proj2 (deref_Ok _ _ _ _) Htv). }
  pose proof (last_pick ix_t_id less sub less_spec (ix_of s k) (obj_rows (indices s k)) t p
    q (obj_rows_view _) Hp) as Hpick.
  apply (ix_picked (fun a b => sub b a) s t tv q) in Hpick as Hgr; [|done..].
  destruct (last_by _ _ _) as [[o1 v1]|]; cbn in *; [destruct (ix_t_id v1 =? t) eqn:Et|].
  - destruct Hpick as (Hv1 & Et1 & _).
    destruct (ix_walk s t tv ei o1 v1) as (it' & s' & -> & Hgr' & Hat); try done.
    exists it', (Some v1), s'. by split_and!.
  - exists (-1), None, s. split_and!; [done|done|by apply ix_grown_refl|done].
  - exists (-1), None, s. split_and!; [done|done|by apply ix_grown_refl|done].
Qed.
End order.

(** ** Lookups *)

(** Two keys neither of which is before the other. *)
Definition same_secondary (a b : secondary_key) : Prop :=
  secondary_less a b = false /\ secondary_less b a = false.

Lemma secondary_position tab secondary r :
  (secondary_after r tab secondary = true <->
     tab < ix_t_id r.2 \/ (ix_t_id r.2 = tab /\ secondary_less secondary (ix_secondary_key r.2) = true)) /\
  (negb (secondary_before r tab secondary) = true <->
     tab < ix_t_id r.2 \/ (ix_t_id r.2 = tab /\ secondary_less (ix_secondary_key r.2) secondary = false)).
Proof.
  unfold secondary_after, secondary_before.
  rewrite negb_true_iff, orb_true_iff, orb_false_iff, andb_true_iff, andb_false_iff, Z.ltb_lt, Z.ltb_ge, Z.eqb_eq, Z.eqb_neq.
  destruct (secondary_less (ix_secondary_key r.2) secondary); intuition (try lia; try done).
Qed.

Lemma find_secondary_effect code scope table secondary s it p s' :
  table_state_wf s -> cache_small (itr_cache s k) ->
  find_secondary k code scope table secondary s = (it, p, s') ->
  exists r, p = ix_primary_key <$> r /\
    ix_first ix_secondary_sub s (code, scope, table) (fun w => same_secondary (ix_secondary_key w) secondary) r /\
    ix_grown s s' /\ ix_located s' it (code, scope, table) r.
Proof.
  intros Hwf Hsm. unfold find_secondary. destruct (ix_table k code scope table s) as [[[tab ei] s1]|] eqn:Et.
  - destruct (ix_table_Some _ _ _ _ _ _ _ Hwf Hsm Et) as (((_ & _ & EI & _) & _) & _ & _ & _ & tv & Htv & Hk & _).
    rewrite EI.
    assert (forall r, negb (secondary_before r tab secondary) && negb (secondary_after r tab secondary) = true <->
      ix_t_id r.2 = tab /\ same_secondary (ix_secondary_key r.2) secondary) as Hp.
    { intros r. destruct (secondary_position tab secondary r) as [Ha Hb].
      rewrite andb_true_iff, Hb, negb_true_iff, <- (not_true_iff_false (secondary_after r tab secondary)), Ha.
      unfold same_secondary. rewrite <- (not_true_iff_false (secondary_less secondary _)). destruct (decide (ix_t_id r.2 = tab)); intuition lia. }
    destruct (bound_by _ _ _) as [[o v]|] eqn:Eb.
    + apply bound_by_Some in Eb as (Hv & Hq%Hp & Hmin); [|apply _]. apply elem_of_obj_rows in Hv.
      destruct Hq as [Etab Hq]. cbn in Etab, Hq. destruct (ix_iterator k (o, v) s1) as [i s2] eqn:Ei. intros [= <- <- <-].
      eapply (ix_answer _ _ _ _ _ _ _ (Some (o, v))) in Ei as [Hgr Hloc]; eauto.
      exists (Some v). split_and!; [done| |done|done]. rewrite <- Hk.
      apply (ix_picked ix_secondary_sub s tab tv _ (Some (o, v))); [done..|]. split_and!; [done..|].
      intros o' v' Hv' Et' Hq'. apply (less_same_table ix_t_id _ _ ix_secondary_less_split (o', v') (o, v)); [cbn; congruence|].
      apply Hmin; [by apply elem_of_obj_rows|]. by apply Hp.
    + rewrite bound_by_None in Eb. intros [= <- <- <-].
      destruct (ix_answer s code scope table tab ei s1 None ei s1) as [Hgr Hloc]; try done.
      exists None. split_and!; [done| |done|done]. rewrite <- Hk. apply (ix_picked ix_secondary_sub s tab tv _ None); [done..|].
      intros o' v' Hv'%elem_of_obj_rows Et' Hq'. specialize (Eb _ Hv'). by rewrite (proj2 (Hp (o', v'))) in Eb.
  - apply ix_table_None in Et. intros [= <- <- <-]. exists None.
    split_and!; [done|by apply ix_no_table|by apply ix_grown_refl|by apply ix_located_no_table].
Qed.

Lemma find_primary_effect code scope table primary s it p s' :
  table_state_wf s -> cache_small (itr_cache s k) ->
  find_primary k code scope table primary s = (it, p, s') ->
  exists r, p = ix_secondary_key <$> r /\
    ix_first ix_primary_sub s (code, scope, table) (fun w => ix_primary_key w = primary) r /\
    ix_grown s s' /\ ix_located s' it (code, scope, table) r.
Proof.
  intros Hwf Hsm. unfold find_primary. destruct (ix_table k code scope table s) as [[[tab ei] s1]|] eqn:Et.
  - destruct (ix_table_Some _ _ _ _ _ _ _ Hwf Hsm Et) as (((_ & _ & EI & _) & _) & _ & _ & _ & tv & Htv & Hk & _).
    rewrite EI. destruct (List.find _ _) as [[o v]|] eqn:Ef.
    + apply find_some in Ef as [Hv Hc]. apply list_elem_of_In, elem_of_obj_rows in Hv. cbn in Hc. bool_to_Z. subst.
      destruct (ix_iterator k (o, v) s1) as [i s2] eqn:Ei. intros [= <- <- <-].
      eapply (ix_answer _ _ _ _ _ _ _ (Some (o, v))) in Ei as [Hgr Hloc]; eauto.
      exists (Some v). split_and!; [done| |done|done]. rewrite <- Hk.
      apply (ix_picked ix_primary_sub s (ix_t_id v) tv _ (Some (o, v))); [done..|]. split_and!; [done..|].
      intros o' v' _ _ E. unfold ix_primary_sub. rewrite E. apply Z.ltb_irrefl.
    + intros [= <- <- <-]. destruct (ix_answer s code scope table tab ei s1 None ei s1) as [Hgr Hloc]; try done.
      exists None. split_and!; [done| |done|done]. rewrite <- Hk. apply (ix_picked ix_primary_sub s tab tv _ None); [done..|].
      intros o' v' Hv' E1 E2. apply elem_of_obj_rows, list_elem_of_In in Hv'.
      pose proof (find_none _ _ Ef _ Hv') as Hn. cbn in Hn. by rewrite E1, E2, !Z.eqb_refl in Hn.
  - apply ix_table_None in Et. intros [= <- <- <-]. exists None.
    split_and!; [done|by apply ix_no_table|by apply ix_grown_refl|by apply ix_located_no_table].
Qed.

(** The four bounds. *)
Lemma lowerbound_secondary_effect code scope table secondary s it r s' :
  table_state_wf s -> cache_small (itr_cache s k) ->
  lowerbound_secondary k code scope table secondary s = (it, r, s') ->
  ix_first ix_secondary_sub s (code, scope, table)
    (fun w => secondary_less (ix_secondary_key w) secondary = false) r /\
  ix_grown s s' /\ ix_located s' it (code, scope, table) r.
Proof.
  apply ix_bound_effect; [apply _|apply ix_secondary_less_split|]. intros tab x. apply secondary_position.
Qed.

Lemma upperbound_secondary_effect code scope table secondary s it r s' :
  table_state_wf s -> cache_small (itr_cache s k) ->
  upperbound_secondary k code scope table secondary s = (it, r, s') ->
  ix_first ix_secondary_sub s (code, scope, table)
    (fun w => secondary_less secondary (ix_secondary_key w) = true) r /\
  ix_grown s s' /\ ix_located s' it (code, scope, table) r.
Proof.
  apply ix_bound_effect; [apply _|apply ix_secondary_less_split|]. intros tab x. apply secondary_position.
Qed.

Lemma bound_primary_effect (upper : bool) code scope table primary s it s' :
  table_state_wf s -> cache_small (itr_cache s k) ->
  (if upper then upperbound_primary else lowerbound_primary) k code scope table primary s = (it, s') ->
  exists r, ix_first ix_primary_sub s (code, scope, table)
      (fun w => if upper then primary < ix_primary_key w else primary <= ix_primary_key w) r /\
    ix_grown s s' /\ ix_located s' it (code, scope, table) r.
Proof.
  intros Hwf Hsm. destruct upper; [unfold upperbound_primary|unfold lowerbound_primary];
    destruct (ix_bound _ _ _ _ _ _ _) as [[i r] s1] eqn:E; intros [= <- <-]; exists r;
    (eapply ix_bound_effect in E; [exact E|apply _|apply ix_primary_less_split| |done..]); intros tab x.
  - rewrite tie_less_pair. naive_solver.
  - rewrite negb_true_iff, <- not_true_iff_false, tie_less_pair. lia.
Qed.

End secondary.
