(* ===== verification/ContractTableTheorems.v ===== *)
(** * Contract tables: sequences of intrinsics

    The database intrinsics as commands ([table_op]) a contract may issue in any
    order and with any arguments, from any receiver.  Every state they reach is
    well-formed and charges RAM exactly; the exceptions they throw are the ones
    contracts can cause, with one exception that [previous_of_removed_table]
    states. *)

From S2P Require Import Prelude Exceptions Types ObjectIndex IteratorCache Authority.
From S2P Require Import AuthorizationManager ContractTables SecondaryIndex ContractTableProps.
From S2P Require Import ContractTableOps SecondaryIndexOps ContractTableWalk SecondaryIndexWalk.

Section theorems.
Context `{SoftFloat} {TT KT IT : Type}.
Context `{!ObjectIndex table_id_object TT tid_conflict}.
Context `{!ObjectIndex key_value_object KT kv_conflict}.
Context `{!ObjectIndex index_object IT ix_conflict}.
Notation state := (@table_state TT KT IT).
Implicit Types (s : state) (c : context_info).

(** The intrinsics of a secondary index. *)
Inductive index_op : Type :=
| op_idx_store (scope table payer id : Z) (value : secondary_key)
| op_idx_update (it payer : Z) (value : secondary_key)
| op_idx_remove (it : Z)
| op_idx_get (it : Z)
| op_find_secondary (code scope table : Z) (value : secondary_key)
| op_lowerbound_secondary (code scope table : Z) (value : secondary_key)
| op_upperbound_secondary (code scope table : Z) (value : secondary_key)
| op_end_secondary (code scope table : Z)
| op_next_secondary (it : Z)
| op_previous_secondary (it : Z)
| op_find_primary (code scope table primary : Z)
| op_lowerbound_primary (code scope table primary : Z)
| op_upperbound_primary (code scope table primary : Z)
| op_next_primary (it : Z)
| op_previous_primary (it : Z).

Inductive table_op : Type :=
| op_store (scope table payer id : Z) (buffer : list Z)
| op_update (it payer : Z) (buffer : list Z)
| op_remove (it : Z)
| op_get (it buffer_size : Z)
| op_next (it : Z)
| op_previous (it : Z)
| op_find (code scope table id : Z)
| op_lowerbound (code scope table id : Z)
| op_upperbound (code scope table id : Z)
| op_end (code scope table : Z)
| op_index (k : index_kind) (o : index_op).

Definition run_index (k : index_kind) c (o : index_op) s : res state :=
  match o with
  | op_idx_store scope table payer id value => snd <$> ix_store k c scope table payer id value s
  | op_idx_update it payer value => ix_update k c it payer value s
  | op_idx_remove it => ix_remove k c it s
  | op_idx_get it => _ ← ix_get k it s; Ok s
  | op_find_secondary code scope table value => Ok (find_secondary k code scope table value s).2
  | op_lowerbound_secondary code scope table value => Ok (lowerbound_secondary k code scope table value s).2
  | op_upperbound_secondary code scope table value => Ok (upperbound_secondary k code scope table value s).2
  | op_end_secondary code scope table => Ok (end_secondary k code scope table s).2
  | op_next_secondary it => snd <$> next_secondary k it s
  | op_previous_secondary it => snd <$> previous_secondary k it s
  | op_find_primary code scope table primary => Ok (find_primary k code scope table primary s).2
  | op_lowerbound_primary code scope table primary => Ok (lowerbound_primary k code scope table primary s).2
  | op_upperbound_primary code scope table primary => Ok (upperbound_primary k code scope table primary s).2
  | op_next_primary it => snd <$> next_primary k it s
  | op_previous_primary it => snd <$> previous_primary k it s
  end.

Definition run_op c (o : table_op) s : res state :=
  match o with
  | op_store scope table payer id buffer => snd <$> db_store_i64_receiver c scope table payer id buffer s
  | op_update it payer buffer => db_update_i64 c it payer buffer s
  | op_remove it => db_remove_i64 c it s
  | op_get it n => _ ← db_get_i64 it n s; Ok s
  | op_next it => snd <$> db_next_i64 it s
  | op_previous it => snd <$> db_previous_i64 it s
  | op_find code scope table id => Ok (db_find_i64 code scope table id s).2
  | op_lowerbound code scope table id => Ok (db_lowerbound_i64 code scope table id s).2
  | op_upperbound code scope table id => Ok (db_upperbound_i64 code scope table id s).2
  | op_end code scope table => Ok (db_end_i64 code scope table s).2
  | op_index k o => run_index k c o s
  end.

(** Buffers come from the 32-bit memory of a contract, iterators are [int]s. *)
Definition op_fits (o : table_op) : Prop :=
  match o with
  | op_store _ _ _ _ b | op_update _ _ b => zlength b < 2 ^ 32
  | op_previous it | op_index _ (op_previous_secondary it) | op_index _ (op_previous_primary it) => int_min <= it
  | _ => True
  end.

Lemma fmap_Ok {A B} (f : A -> B) (m : res A) b : f <$> m = Ok b <-> exists a, m = Ok a /\ b = f a.
Proof. destruct m; cbn; naive_solver. Qed.

Lemma fmap_Throw {A B} (f : A -> B) (m : res A) e : f <$> m = Throw e <-> m = Throw e.
Proof. destruct m; cbn; naive_solver. Qed.

(** What an operation keeps: the invariant and the RAM gap. *)
Definition kept s s' : Prop := table_state_wf s' /\ forall x, ram_gap s' x = ram_gap s x.

Lemma kv_grown_kept s s' : kv_grown s s' -> kept s s'.
Proof. by intros ((cache & ->) & Hwf & _). Qed.

Lemma ix_grown_kept k s s' : ix_grown k s s' -> kept s s'.
Proof.
  intros ((HT & HK & HI & _ & HU & _) & Hwf & _). split; [done|]. intros x.
  unfold ram_gap, billed, tables_of, kv_of, ix_of. by rewrite HU, HT, HK, HI.
Qed.

Lemma db_end_i64_effect code scope table s it s' :
  table_state_wf s -> cache_small (keyval_cache s) -> db_end_i64 code scope table s = (it, s') ->
  kv_grown s s' /\ kv_located s' it (code, scope, table) None.
Proof.
  intros Hwf Hsm. unfold db_end_i64. destruct (kv_table code scope table s) as [[[tab ei] s1]|] eqn:Et.
  - intros [= <- <-]. by apply (kv_answer s code scope table tab ei s1 None).
  - apply kv_table_None in Et. intros [= <- <-]. split; [by apply kv_grown_refl|by apply kv_located_no_table].
Qed.

Lemma end_secondary_effect k code scope table s it s' :
  table_state_wf s -> cache_small (itr_cache s k) -> end_secondary k code scope table s = (it, s') ->
  ix_grown k s s' /\ ix_located k s' it (code, scope, table) None.
Proof.
  intros Hwf Hsm. unfold end_secondary. destruct (ix_table k code scope table s) as [[[tab ei] s1]|] eqn:Et.
  - intros [= <- <-]. by apply (ix_answer k s code scope table tab ei s1 None).
  - apply ix_table_None in Et. intros [= <- <-]. split; [by apply ix_grown_refl|by apply ix_located_no_table].
Qed.

Lemma kept_refl s : table_state_wf s -> kept s s.
Proof. by split. Qed.

(** An end iterator that finds a table is the one cached for it. *)
Lemma end_iterator_cached (c : iterator_cache) t it :
  cache_wf c -> int_min <= it -> find_table_by_end_iterator it c = Ok (Some t) ->
  _table_cache c !! t = Some (t, it).
Proof.
  unfold int_min. intros Hwf Hit. unfold find_table_by_end_iterator, end_iterator_to_index.
  intros (? & Hlt & Hi)%bind_Ok. apply sys_assert_Ok, Z.ltb_lt in Hlt.
  destruct (it =? int_min) eqn:E; [done|]. cbn in Hi. rewrite u64_small in Hi by lia.
  injection Hi as Hi. apply (cache_tables _ Hwf). split_and!; [done|lia|done].
Qed.

(** A walk that returns started at a row or at an end. *)
Lemma db_next_i64_grown it r s s' :
  table_state_wf s -> cache_small (keyval_cache s) -> db_next_i64 it s = Ok (r, s') -> kv_grown s s'.
Proof.
  intros Hwf Hsm Hn. destruct (it <? -1) eqn:E.
  - unfold db_next_i64 in Hn. rewrite E in Hn. injection Hn as <- <-. by apply kv_grown_refl.
  - assert (exists o, cache_get it (keyval_cache s) = Ok o) as [o Hg].
    { unfold db_next_i64 in Hn. rewrite E in Hn. apply bind_Ok in Hn as (o & Hg & _). eauto. }
    destruct (kv_row_of_iterator _ _ _ Hwf Hg) as (v & tv & _ & _ & _ & _ & Hat).
    destruct (db_next_i64_effect _ _ _ _ Hwf Hsm Hat) as (it' & r' & s1 & Hn' & _ & Hgr & _).
    rewrite Hn in Hn'. injection Hn' as -> ->. done.
Qed.

Lemma ix_next_grown k less sub `{!StrictLess less} it r s s' :
  (forall a b, less a b = true <-> ix_t_id a.2 < ix_t_id b.2 \/ (ix_t_id a.2 = ix_t_id b.2 /\ sub a.2 b.2 = true)) ->
  table_state_wf s -> cache_small (itr_cache s k) -> ix_next k less it s = Ok (r, s') -> ix_grown k s s'.
Proof.
  intros Hless Hwf Hsm Hn. destruct (it <? -1) eqn:E.
  - unfold ix_next in Hn. rewrite E in Hn. injection Hn as <- <-. by apply ix_grown_refl.
  - assert (exists o, cache_get it (itr_cache s k) = Ok o) as [o Hg].
    { unfold ix_next in Hn. rewrite E in Hn. apply bind_Ok in Hn as (o & Hg & _). eauto. }
    destruct (ix_row_of_iterator _ _ _ _ Hwf Hg) as (v & tv & Hv & Htv & _ & _ & _).
    destruct (ix_next_effect k less sub Hless it (tid_key tv) v s Hwf Hsm) as (it' & r' & s1 & Hn' & _ & Hgr & _).
    { by exists o, tv. }
    rewrite Hn in Hn'. injection Hn' as -> ->. done.
Qed.

Lemma db_previous_i64_grown it r s s' :
  table_state_wf s -> cache_small (keyval_cache s) -> int_min <= it -> db_previous_i64 it s = Ok (r, s') -> kv_grown s s'.
Proof.
  intros Hwf Hsm Hit Hp. pose proof (cache_ok_wf _ _ _ (wf_keyval_cache _ _ _ Hwf)) as Hcw.
  assert (exists tab (q : Z -> Prop), (exists id, kv_at s it tab id /\ forall j, q j <-> j < id) \/
    (kv_end s it tab /\ forall j, q j)) as (tab & q & Hpos).
  { unfold db_previous_i64 in Hp. destruct (it <? -1) eqn:E.
    - apply bind_Ok in Hp as (t & Hf & Hp). apply bind_Ok in Hp as (t' & ->%of_option_Ok & Hp).
      apply bind_Ok in Hp as (tv & Htv%deref_Ok & _). exists (tid_key tv), (fun _ => True). right. split; [|done].
      exists t', tv. split_and!; [done..|]. by apply end_iterator_cached.
    - apply bind_Ok in Hp as (o & Hg & _). destruct (kv_row_of_iterator _ _ _ Hwf Hg) as (v & tv & _ & _ & _ & _ & Hat).
      exists (tid_key tv), (fun j => j < kv_primary_key v). left. eexists; split; [exact Hat|done]. }
  destruct (db_previous_i64_effect it tab s q Hwf Hsm Hpos) as (it' & r' & s1 & Hn' & _ & Hgr & _).
  rewrite Hp in Hn'. injection Hn' as -> ->. done.
Qed.

Lemma ix_previous_grown k less sub `{!StrictLess less} it r s s' :
  (forall a b, less a b = true <-> ix_t_id a.2 < ix_t_id b.2 \/ (ix_t_id a.2 = ix_t_id b.2 /\ sub a.2 b.2 = true)) ->
  table_state_wf s -> cache_small (itr_cache s k) -> int_min <= it -> ix_previous k less it s = Ok (r, s') ->
  ix_grown k s s'.
Proof.
  intros Hless Hwf Hsm Hit Hp. pose proof (cache_ok_wf _ _ _ (wf_itr_cache _ _ _ Hwf k)) as Hcw.
  assert (exists tab (q : index_object -> Prop), (exists v, ix_on k s it tab v /\ forall w, q w <-> sub w v = true) \/
    (ix_end s k it tab /\ forall w, q w)) as (tab & q & Hpos).
  { unfold ix_previous in Hp. destruct (it <? -1) eqn:E.
    - apply bind_Ok in Hp as (t & Hf & Hp). apply bind_Ok in Hp as (t' & ->%of_option_Ok & Hp).
      apply bind_Ok in Hp as (tv & Htv%deref_Ok & _). exists (tid_key tv), (fun _ => True). right. split; [|done].
      exists t', tv. split_and!; [done..|]. by apply end_iterator_cached.
    - apply bind_Ok in Hp as (o & Hg & _). destruct (ix_row_of_iterator _ _ _ _ Hwf Hg) as (v & tv & Hv & Htv & _).
      exists (tid_key tv), (fun w => sub w v = true). left. exists v. split; [|done]. by exists o, tv. }
  destruct (ix_previous_effect k less sub Hless it tab s q Hwf Hsm Hpos) as (it' & r' & s1 & Hn' & _ & Hgr & _).
  rewrite Hp in Hn'. injection Hn' as -> ->. done.
Qed.

Lemma run_index_kept k c o s s' :
  table_state_wf s -> table_state_small s -> op_fits (op_index k o) -> run_index k c o s = Ok s' -> kept s s'.
Proof.
  intros Hwf Hsm Hfit. pose proof (small_itr_cache _ Hsm k) as Hc. destruct o; cbn in Hfit |- *.
  - intros ([it s1] & Hr & ->)%fmap_Ok. by apply ix_store_effect in Hr as (? & ? & _).
  - intros Hr. by apply ix_update_effect in Hr as (? & ? & _).
  - intros Hr. by apply ix_remove_effect in Hr as (? & ? & _).
  - intros (? & _ & [= <-])%bind_Ok. by apply kept_refl.
  - intros [= <-]. destruct (find_secondary _ _ _ _ _ _) as [[it p] s1] eqn:E.
    apply find_secondary_effect in E as (r & _ & _ & Hg & _); [|done..]. by eapply ix_grown_kept.
  - intros [= <-]. destruct (lowerbound_secondary _ _ _ _ _ _) as [[it p] s1] eqn:E.
    apply lowerbound_secondary_effect in E as (_ & Hg & _); [|done..]. by eapply ix_grown_kept.
  - intros [= <-]. destruct (upperbound_secondary _ _ _ _ _ _) as [[it p] s1] eqn:E.
    apply upperbound_secondary_effect in E as (_ & Hg & _); [|done..]. by eapply ix_grown_kept.
  - intros [= <-]. destruct (end_secondary _ _ _ _ _) as [it s1] eqn:E.
    apply end_secondary_effect in E as (Hg & _); [|done..]. by eapply ix_grown_kept.
  - intros ([r s1] & Hr & ->)%fmap_Ok. eapply ix_grown_kept. by eapply (ix_next_grown k _ _ _ _ _ _ ix_secondary_less_split).
  - intros ([r s1] & Hr & ->)%fmap_Ok. eapply ix_grown_kept. by eapply (ix_previous_grown k _ _ _ _ _ _ ix_secondary_less_split).
  - intros [= <-]. destruct (find_primary _ _ _ _ _ _) as [[it p] s1] eqn:E.
    apply find_primary_effect in E as (r & _ & _ & Hg & _); [|done..]. by eapply ix_grown_kept.
  - intros [= <-]. destruct (lowerbound_primary _ _ _ _ _ _) as [it s1] eqn:E.
    apply (bound_primary_effect k false) in E as (r & _ & Hg & _); [|done..]. by eapply ix_grown_kept.
  - intros [= <-]. destruct (upperbound_primary _ _ _ _ _ _) as [it s1] eqn:E.
    apply (bound_primary_effect k true) in E as (r & _ & Hg & _); [|done..]. by eapply ix_grown_kept.
  - intros ([r s1] & Hr & ->)%fmap_Ok. eapply ix_grown_kept. by eapply (ix_next_grown k _ _ _ _ _ _ ix_primary_less_split).
  - intros ([r s1] & Hr & ->)%fmap_Ok. eapply ix_grown_kept. by eapply (ix_previous_grown k _ _ _ _ _ _ ix_primary_less_split).
Qed.

Lemma run_op_kept c o s s' :
  table_state_wf s -> table_state_small s -> op_fits o -> run_op c o s = Ok s' -> kept s s'.
Proof.
  intros Hwf Hsm Hfit. pose proof (small_keyval_cache _ Hsm) as Hc. destruct o as [| | | | | | | | | |k o]; cbn in Hfit |- *.
  - intros ([it s1] & (? & _ & Hr)%bind_Ok & ->)%fmap_Ok. by apply db_store_i64_effect in Hr as (? & ? & _).
  - intros Hr. by apply db_update_i64_effect in Hr as (? & ? & _).
  - intros Hr. by apply db_remove_i64_effect in Hr as (? & ? & _).
  - intros (? & _ & [= <-])%bind_Ok. by apply kept_refl.
  - intros ([r s1] & Hr & ->)%fmap_Ok. eapply kv_grown_kept. by eapply db_next_i64_grown.
  - intros ([r s1] & Hr & ->)%fmap_Ok. eapply kv_grown_kept. by eapply db_previous_i64_grown.
  - intros [= <-]. destruct (db_find_i64 _ _ _ _ _) as [it s1] eqn:E.
    apply db_find_i64_effect in E as (r & _ & Hg & _); [|done..]. by apply kv_grown_kept.
  - intros [= <-]. destruct (db_lowerbound_i64 _ _ _ _ _) as [it s1] eqn:E.
    apply db_bound_i64_effect in E as (r & _ & Hg & _); [|done..]. by apply kv_grown_kept.
  - intros [= <-]. destruct (db_upperbound_i64 _ _ _ _ _) as [it s1] eqn:E.
    apply db_bound_i64_effect in E as (r & _ & Hg & _); [|done..]. by apply kv_grown_kept.
  - intros [= <-]. destruct (db_end_i64 _ _ _ _) as [it s1] eqn:E.
    apply db_end_i64_effect in E as (Hg & _); [|done..]. by apply kv_grown_kept.
  - by apply run_index_kept.
Qed.


(** ** Exceptions *)

(** The exceptions contracts can cause: bad iterators, foreign tables, missing
    authority to charge RAM, a taken key. *)
Definition contract_errors : list exn :=
  [table_operation_not_permitted; invalid_table_iterator; table_access_violation; invalid_table_payer;
   subjective_block_production_exception; missing_auth_exception; std_logic_error].
Definition contract_error (e : exn) : Prop := e ∈ contract_errors.

Lemma contract_error_in e : bool_decide (e ∈ contract_errors) = true -> contract_error e.
Proof. apply bool_decide_eq_true. Qed.

(** The RAM counters are at least [k] charges away from overflow. *)
Definition ram_room (k : Z) s : Prop := forall x, Z.abs (ram_used s x) <= 2 ^ 63 - 1 - k * 2 ^ 33.

Lemma add_ram_usage_total p d s :
  ram_room 1 s -> Z.abs d <= 2 ^ 33 -> exists s', add_ram_usage p d s = Ok s'.
Proof.
  intros Hr Hd. unfold add_ram_usage, trx_add_ram_usage, add_int64.
  pose proof (Hr None) as Ht. cbn in Ht. rewrite bool_decide_eq_true_2 by (unfold is_i64; lia). cbn.
  pose proof (Hr (Some p)) as Hp. cbn in Hp. destruct (_account_ram_deltas s !! p) as [d0|]; cbn in *; [|eauto].
  rewrite bool_decide_eq_true_2 by (unfold is_i64; lia). cbn. eauto.
Qed.

Lemma ram_room_charged k p d s s' :
  ram_room (k + 1) s -> Z.abs d <= 2 ^ 33 -> charged p d s s' -> ram_room k s'.
Proof.
  intros Hr Hd Hch x. rewrite (charged_used _ _ _ _ Hch). specialize (Hr x).
  assert (0 <= weight x p <= 1) by (destruct x; cbn; [case_match|]; lia). nia.
Qed.

Lemma ram_room_weaken k k' s : k <= k' -> ram_room k' s -> ram_room k s.
Proof. intros Hk Hr x. specialize (Hr x). nia. Qed.

Lemma refund_total c p d s :
  ram_room 1 s -> - 2 ^ 33 <= d <= 0 -> exists s', update_db_usage c p d s = Ok s' /\ charged p d s s'.
Proof.
  intros Hr Hd. unfold update_db_usage. rewrite (proj2 (Z.ltb_ge 0 d)) by lia. cbn.
  destruct (add_ram_usage_total p d s Hr) as [s' Hs']; [lia|]. exists s'. split; [done|].
  by apply add_ram_usage_charged.
Qed.

Lemma update_db_usage_Throw c p d s e :
  ram_room 1 s -> Z.abs d <= 2 ^ 33 -> update_db_usage c p d s = Throw e -> contract_error e.
Proof.
  intros Hr Hd. unfold update_db_usage. intros [Hx|(? & _ & Hx)]%bind_Throw.
  - destruct (0 <? d); [|done]. destruct (negb _); [|done]. apply bind_Throw in Hx as [Hx|(? & _ & Hx)].
    + apply sys_assert_Throw in Hx as [_ <-]. by apply contract_error_in.
    + unfold require_authorization in Hx. apply sys_assert_Throw in Hx as [_ <-].
      by apply contract_error_in.
  - destruct (add_ram_usage_total p d s Hr Hd). congruence.
Qed.

Lemma add_count_total tid d s v :
  objects_wf tid_conflict (tables s) -> tables_of s !! tid = Some v -> exists s', add_count tid d s = Ok s'.
Proof.
  intros Hwf Hv. unfold add_count.
  destruct (modify_same_keys tid_conflict tid (fun t => mk_tid (ti_code t) (ti_scope t) (ti_table t) (ti_payer t)
    (u32 (ti_count t + d))) (tables s) v) as [t' ->]; [done..|]. cbn. eauto.
Qed.

Lemma find_or_create_table_Throw c code scope table payer s e :
  ram_room 1 s -> find_or_create_table c code scope table payer s = Throw e -> contract_error e.
Proof.
  intros Hr. unfold find_or_create_table. destruct (find_table code scope table s) eqn:E; [done|].
  intros [Hx|(s1 & Hch%update_db_usage_charged & Hx)]%bind_Throw.
  - eapply update_db_usage_Throw; [done| |exact Hx]. by vm_compute.
  - apply bind_Throw in Hx as [Hx|([t ts] & _ & Hx)]; [|done]. exfalso.
    unfold create in Hx. apply of_option_Throw in Hx as [Hx _].
    destruct (obj_create_free (mk_tid code scope table payer 0) (tables s1)) as [r Hr']; [|congruence].
    intros j w Hw. rewrite (charged_tables _ _ _ _ Hch) in Hw. apply bool_decide_eq_false. cbn. intros Hk.
    by apply (find_table_None _ _ _ _ E j w Hw).
Qed.

(** Releasing a row never fails. *)
Lemma release_row_total c tid drop s v :
  ram_room 1 s -> objects_wf tid_conflict (tables s) -> tables_of s !! tid = Some v ->
  (forall t, exists s1, drop (set_tables t s) = Ok s1 /\ tables s1 = t /\ forall x, ram_used s1 x = ram_used s x) ->
  exists s', release_row c tid drop s = Ok s'.
Proof.
  intros Hr Hwf Hv Hdrop. unfold release_row. destruct (add_count_total tid (-1) s v Hwf Hv) as [s0 Hs0].
  rewrite Hs0. cbn [mbind result_bind]. apply add_count_Ok in Hs0 as (t & v0 & -> & Hv0 & Hview & Hwft & _).
  destruct (Hdrop t) as (s1 & -> & HT1 & HU1). cbn [mbind result_bind].
  assert (obj_view (tables s1) !! tid = Some (with_count v0 (u32 (ti_count v0 + -1)))) as Hv1
    by (by rewrite HT1, Hview, lookup_insert_eq).
  rewrite (proj2 (deref_Ok _ _ _ _) Hv1). cbn [mbind result_bind]. case_match; [|eauto].
  unfold remove_table. rewrite (proj2 (deref_Ok _ _ _ _) Hv1). cbn [mbind result_bind].
  rewrite minus_table_id_billable.
  destruct (refund_total c (ti_payer v0) (- table_id_billable) s1) as (s2 & Hs2 & Hch); [|by rewrite table_id_billable_value; lia|].
  { intros x. rewrite HU1. apply Hr. }
  cbn in Hs2 |- *. rewrite Hs2. cbn [mbind result_bind]. unfold remove. rewrite (charged_tables _ _ _ _ Hch).
  rewrite (proj2 (deref_Ok _ _ _ _) Hv1). cbn [mbind result_bind]. eauto.
Qed.


Lemma cache_get_error it cache e : cache_get it cache = Throw e -> contract_error e.
Proof. intros [-> | ->]%cache_get_Throw; by apply contract_error_in. Qed.

Lemma assert_error (b : bool) e e' :
  sys_assert b e = Throw e' -> bool_decide (e ∈ contract_errors) = true -> contract_error e'.
Proof. intros [_ <-]%sys_assert_Throw He. by apply contract_error_in. Qed.

Lemma count_row_error {A} c tab payer size s (k : state -> res A) e v :
  ram_room 1 s -> Z.abs size <= 2 ^ 33 -> objects_wf tid_conflict (tables s) -> tables_of s !! tab = Some v ->
  (forall s', exists a, k s' = Ok a) ->
  (s ← add_count tab 1 s; s ← update_db_usage c payer size s; k s) = Throw e -> contract_error e.
Proof.
  intros Hr Hsz Hwf Hv Hk. destruct (add_count_total tab 1 s v Hwf Hv) as [s1 Hs1]. rewrite Hs1. cbn [mbind result_bind].
  apply add_count_Ok in Hs1 as (t & v0 & -> & _).
  intros [Hx|(s2 & _ & Hx)]%bind_Throw; [by eapply (update_db_usage_Throw _ _ _ (set_tables t s))|].
  destruct (Hk s2). congruence.
Qed.

Lemma same_rows_room k s s' : (forall x, ram_used s' x = ram_used s x) -> ram_room k s -> ram_room k s'.
Proof. intros E Hr x. rewrite E. apply Hr. Qed.

Lemma find_or_create_table_room k c code scope table payer s tid s' :
  ram_room (k + 1) s -> 0 <= k -> find_or_create_table c code scope table payer s = Ok (tid, s') -> ram_room k s'.
Proof.
  intros Hr Hk. unfold find_or_create_table. destruct (find_table _ _ _ _).
  - intros [= <- <-]. eapply ram_room_weaken; [|done]. lia.
  - intros (s1 & Hch%update_db_usage_charged & Hx)%bind_Ok. apply bind_Ok in Hx as ([t ts] & _ & [= <- <-]).
    eapply (ram_room_charged k _ _ s s1); [done| |done]. by vm_compute.
Qed.

Lemma key_value_size_small (b : list Z) :
  zlength b < 2 ^ 32 -> Z.abs (zlength b + key_value_billable) <= 2 ^ 33.
Proof. rewrite key_value_billable_value. lia. Qed.

Lemma index_billable_small k : Z.abs (index_billable k) <= 2 ^ 33.
Proof. pose proof (index_billable_range k). lia. Qed.

Lemma db_store_i64_error c code scope table payer id buffer s e :
  table_state_wf s -> ram_room 2 s -> zlength buffer < 2 ^ 32 ->
  db_store_i64 c code scope table payer id buffer s = Throw e -> contract_error e.
Proof.
  intros Hwf Hr Hlen. unfold db_store_i64. intros [Hx|(? & _ & Hx)]%bind_Throw; [by eapply assert_error|].
  apply bind_Throw in Hx as [Hx|([tab s1] & Hfoc & Hx)].
  { eapply find_or_create_table_Throw; [|exact Hx]. eapply ram_room_weaken; [|done]. lia. }
  destruct (find_or_create_table_Ok _ _ _ _ _ _ _ _ Hwf Hfoc) as (_ & _ & Hinv1 & (tv & Htv & _) & _).
  apply bind_Throw in Hx as [Hx|(? & _ & Hx)]; [by eapply assert_error|].
  apply bind_Throw in Hx as [Hx|([obj kv] & _ & Hx)].
  { apply of_option_Throw in Hx as [_ <-]. by apply contract_error_in. }
  rewrite i64_row_size in Hx by done.
  eapply count_row_error; [| | | | |exact Hx]; [|by apply key_value_size_small|apply Hinv1|exact Htv|].
  - change (ram_room 1 s1). eapply find_or_create_table_room; [|lia|done]. done.
  - intros s'. cbn beta. destruct (cache_table tab (keyval_cache s')) as [? c1]. destruct (cache_add obj c1). eauto.
Qed.

Lemma ix_store_error k c scope table payer id value s e :
  table_state_wf s -> ram_room 2 s -> ix_store k c scope table payer id value s = Throw e -> contract_error e.
Proof.
  intros Hwf Hr. unfold ix_store. intros [Hx|(? & _ & Hx)]%bind_Throw; [by eapply assert_error|].
  apply bind_Throw in Hx as [Hx|(? & _ & Hx)]; [by eapply assert_error|].
  apply bind_Throw in Hx as [Hx|([tab s1] & Hfoc & Hx)].
  { eapply find_or_create_table_Throw; [|exact Hx]. eapply ram_room_weaken; [|done]. lia. }
  destruct (find_or_create_table_Ok _ _ _ _ _ _ _ _ Hwf Hfoc) as (_ & _ & Hinv1 & (tv & Htv & _) & _).
  apply bind_Throw in Hx as [Hx|([obj ix] & _ & Hx)].
  { apply of_option_Throw in Hx as [_ <-]. by apply contract_error_in. }
  rewrite i64_index_billable in Hx.
  eapply count_row_error; [| | | | |exact Hx]; [|by apply index_billable_small|apply Hinv1|exact Htv|].
  - change (ram_room 1 s1). eapply find_or_create_table_room; [|lia|done]. done.
  - intros s'. cbn beta. destruct (cache_table tab (itr_cache s' k)) as [? c1]. destruct (cache_add obj c1). eauto.
Qed.

Lemma recharge_error c p p' old new s e :
  ram_room 2 s -> 0 <= old <= 2 ^ 33 -> 0 <= new <= 2 ^ 33 ->
  (if negb (p =? p') then s ← update_db_usage c p (- old) s; update_db_usage c p' new s
   else if negb (old =? new) then update_db_usage c p (new - old) s else Ok s) = Throw e -> contract_error e.
Proof.
  intros Hr Ho Hn. assert (ram_room 1 s) as Hr1 by (eapply ram_room_weaken; [|done]; lia).
  destruct (negb (p =? p')).
  - destruct (refund_total c p (- old) s Hr1) as (s1 & -> & Hch); [lia|]. cbn [mbind result_bind].
    apply update_db_usage_Throw; [|lia]. eapply (ram_room_charged 1); [done| |done]. lia.
  - destruct (negb (old =? new)); [|done]. apply update_db_usage_Throw; [done|lia].
Qed.

Lemma db_update_i64_error c it payer buffer s e :
  table_state_wf s -> ram_room 2 s -> zlength buffer < 2 ^ 32 ->
  db_update_i64 c it payer buffer s = Throw e -> contract_error e.
Proof.
  intros Hwf Hr Hlen. unfold db_update_i64. intros [Hx|(? & _ & Hx)]%bind_Throw; [by eapply assert_error|].
  apply bind_Throw in Hx as [Hx|(o & Hg & Hx)]; [by eapply cache_get_error|].
  destruct (kv_row_of_iterator _ _ _ Hwf Hg) as (v & tv & Hv & Htv & Hgt & _ & _).
  rewrite (proj2 (deref_Ok _ _ _ _) Hv) in Hx. cbn [mbind result_bind] in Hx.
  rewrite (own_table_run _ _ _ _ _ Hgt Htv) in Hx.
  destruct (ti_code tv =? receiver c); [|injection Hx as <-; by apply contract_error_in].
  cbn [mbind result_bind] in Hx. pose proof (wf_sizes _ _ _ Hwf _ _ Hv) as Hlv. rewrite !i64_row_size in Hx by done.
  apply bind_Throw in Hx as [Hx|(s1 & Hrc%recharge_Ok & Hx)].
  { eapply recharge_error; [done| | |exact Hx]; rewrite key_value_billable_value; lia. }
  apply bind_Throw in Hx as [Hx|(kv & _ & Hx)]; [|done].
  destruct (modify_same_keys kv_conflict o (fun w => mk_kv (kv_t_id w) (kv_primary_key w)
    (if payer =? 0 then kv_payer v else payer) buffer) (key_values s1) v) as [t' Ht'].
  - rewrite (rc_kv _ _ _ _ _ _ Hrc). apply Hwf.
  - by rewrite (rc_kv _ _ _ _ _ _ Hrc).
  - done.
  - congruence.
Qed.

Lemma ix_update_error k c it payer value s e :
  table_state_wf s -> ram_room 2 s -> ix_update k c it payer value s = Throw e -> contract_error e.
Proof.
  intros Hwf Hr. unfold ix_update. intros [Hx|(? & _ & Hx)]%bind_Throw; [by eapply assert_error|].
  apply bind_Throw in Hx as [Hx|(o & Hg & Hx)]; [by eapply cache_get_error|].
  destruct (ix_row_of_iterator _ _ _ _ Hwf Hg) as (v & tv & Hv & Htv & Hgt & _ & _).
  rewrite (proj2 (deref_Ok _ _ _ _) Hv) in Hx. cbn [mbind result_bind] in Hx.
  rewrite (own_table_run _ _ _ _ _ Hgt Htv) in Hx.
  destruct (ti_code tv =? receiver c); [|injection Hx as <-; by apply contract_error_in].
  cbn [mbind result_bind] in Hx. rewrite i64_index_billable in Hx.
  set (p := if payer =? 0 then ix_payer v else payer) in *. pose proof (index_billable_range k) as Hb.
  apply bind_Throw in Hx as [Hx|(s1 & Hrc & Hx)].
  { eapply (recharge_error c (ix_payer v) p (index_billable k) (index_billable k)); [done|lia|lia|].
    rewrite Z.eqb_refl. exact Hx. }
  assert (recharged (ix_payer v) p (index_billable k) (index_billable k) s s1) as Hrc1.
  { apply (recharge_Ok c). rewrite Z.eqb_refl. exact Hrc. }
  apply bind_Throw in Hx as [Hx|(ix & _ & Hx)]; [|done].
  destruct (modify_same_keys ix_conflict o (fun w => mk_ix (ix_t_id w) (ix_primary_key w) p value) (indices s1 k) v) as [t' Ht'].
  - rewrite (rc_ix _ _ _ _ _ _ Hrc1). apply Hwf.
  - by rewrite (rc_ix _ _ _ _ _ _ Hrc1).
  - done.
  - congruence.
Qed.


(** The tail of the two remove operations. *)
Lemma remove_tail_total c t tv payer delta drop s s1 :
  table_state_wf s -> table_state_small s -> ram_room 2 s -> Z.abs delta <= 2 ^ 33 -> charged payer delta s s1 ->
  tables_of s !! t = Some tv ->
  (forall s0 s1, drop s0 = Ok s1 -> tables s1 = tables s0 /\ forall x, ram_used s1 x = ram_used s0 x) ->
  (forall ts, exists s2, drop (set_tables ts s1) = Ok s2) ->
  exists s2 s3 ts, release_row c t drop s1 = Ok s2 /\ drop (set_tables ts s1) = Ok s3 /\ same_rows s3 s2.
Proof.
  intros Hwf Hsm Hr Hd Hch Htv Hkeep Hdrop.
  destruct (release_row_total c t drop s1 tv) as [s2 Hs2].
  - by eapply (ram_room_charged 1 payer delta s s1).
  - rewrite (charged_tables _ _ _ _ Hch). apply Hwf.
  - unfold tables_of. by rewrite (charged_tables _ _ _ _ Hch).
  - intros ts. destruct (Hdrop ts) as [s3 Hs3]. destruct (Hkeep _ _ Hs3) as [HT HU]. exists s3. by split_and!.
  - destruct (release_row_released c t drop payer delta s s1 s2) as (_ & _ & ts & s3 & Hd3 & Hsame); try done.
    exists s2, s3, ts. by split_and!.
Qed.

Lemma db_remove_i64_error c it s e :
  table_state_wf s -> table_state_small s -> ram_room 2 s -> db_remove_i64 c it s = Throw e -> contract_error e.
Proof.
  intros Hwf Hsm Hr. unfold db_remove_i64. intros [Hx|(? & _ & Hx)]%bind_Throw; [by eapply assert_error|].
  apply bind_Throw in Hx as [Hx|(o & Hg & Hx)]; [by eapply cache_get_error|].
  destruct (kv_row_of_iterator _ _ _ Hwf Hg) as (v & tv & Hv & Htv & Hgt & _ & _).
  rewrite (proj2 (deref_Ok _ _ _ _) Hv) in Hx. cbn [mbind result_bind] in Hx.
  rewrite (own_table_run _ _ _ _ _ Hgt Htv) in Hx.
  destruct (ti_code tv =? receiver c); [|injection Hx as <-; by apply contract_error_in].
  cbn [mbind result_bind] in Hx. pose proof (wf_sizes _ _ _ Hwf _ _ Hv) as Hlv.
  rewrite i64_minus_row_size in Hx by done. exfalso. pose proof key_value_billable_value as Hkb.
  destruct (refund_total c (kv_payer v) (- (zlength (kv_value v) + key_value_billable)) s) as (s1 & Hs1 & Hch);
    [eapply ram_room_weaken; [|done]; lia|lia|].
  rewrite Hs1 in Hx. cbn [mbind result_bind] in Hx.
  match type of Hx with (release_row _ _ ?d _ ≫= _) = _ =>
    destruct (remove_tail_total c (kv_t_id v) tv (kv_payer v) (- (zlength (kv_value v) + key_value_billable)) d s s1 Hwf Hsm Hr ltac:(lia) Hch Htv)
      as (s2 & s3 & ts & Hs2 & Hs3 & _ & _ & HC & _) end.
  - by intros ?? (? & _ & [= <-])%bind_Ok.
  - intros ts. unfold remove. cbn [key_values set_tables]. rewrite (charged_kv _ _ _ _ Hch).
    rewrite (proj2 (deref_Ok _ _ _ _) Hv). cbn [mbind result_bind]. eauto.
  - rewrite Hs2 in Hx. apply bind_Ok in Hs3 as (kv & _ & [= <-]). cbn in HC, Hx.
    destruct (cache_ok_remove _ _ _ _ _ (wf_keyval_cache _ _ _ Hwf) Hg) as (c' & Hcr & _).
    by rewrite HC, (charged_keyval _ _ _ _ Hch), Hcr in Hx.
Qed.

Lemma ix_remove_error k c it s e :
  table_state_wf s -> table_state_small s -> ram_room 2 s -> ix_remove k c it s = Throw e -> contract_error e.
Proof.
  intros Hwf Hsm Hr. unfold ix_remove. intros [Hx|(? & _ & Hx)]%bind_Throw; [by eapply assert_error|].
  apply bind_Throw in Hx as [Hx|(o & Hg & Hx)]; [by eapply cache_get_error|].
  destruct (ix_row_of_iterator _ _ _ _ Hwf Hg) as (v & tv & Hv & Htv & Hgt & _ & _).
  rewrite (proj2 (deref_Ok _ _ _ _) Hv) in Hx. cbn [mbind result_bind] in Hx.
  rewrite (own_table_run _ _ _ _ _ Hgt Htv) in Hx.
  destruct (ti_code tv =? receiver c); [|injection Hx as <-; by apply contract_error_in].
  cbn [mbind result_bind] in Hx. rewrite minus_index_billable in Hx. exfalso.
  pose proof (index_billable_range k) as Hb.
  destruct (refund_total c (ix_payer v) (- index_billable k) s) as (s1 & Hs1 & Hch);
    [eapply ram_room_weaken; [|done]; lia|lia|].
  rewrite Hs1 in Hx. cbn [mbind result_bind] in Hx.
  match type of Hx with (release_row _ _ ?d _ ≫= _) = _ =>
    destruct (remove_tail_total c (ix_t_id v) tv (ix_payer v) (- index_billable k) d s s1 Hwf Hsm Hr ltac:(lia) Hch Htv)
      as (s2 & s3 & ts & Hs2 & Hs3 & _ & _ & _ & HJ) end.
  - by intros ?? (? & _ & [= <-])%bind_Ok.
  - intros ts. unfold remove. cbn [indices set_tables]. rewrite (charged_ix _ _ _ _ Hch).
    rewrite (proj2 (deref_Ok _ _ _ _) Hv). cbn [mbind result_bind]. eauto.
  - rewrite Hs2 in Hx. apply bind_Ok in Hs3 as (ix & _ & [= <-]). cbn in HJ, Hx.
    destruct (cache_ok_remove _ _ _ _ _ (wf_itr_cache _ _ _ Hwf k) Hg) as (c' & Hcr & _).
    by rewrite HJ, (charged_itr _ _ _ _ Hch), Hcr in Hx.
Qed.


Lemma db_next_i64_error it s e :
  table_state_wf s -> cache_small (keyval_cache s) -> db_next_i64 it s = Throw e -> contract_error e.
Proof.
  intros Hwf Hsm Hn. destruct (cache_get it (keyval_cache s)) as [o|e'] eqn:Hg.
  - destruct (kv_row_of_iterator _ _ _ Hwf Hg) as (v & tv & _ & _ & _ & _ & Hat).
    destruct (db_next_i64_effect _ _ _ _ Hwf Hsm Hat) as (? & ? & ? & Hn' & _). congruence.
  - unfold db_next_i64 in Hn. destruct (it <? -1); [done|]. rewrite Hg in Hn. injection Hn as <-.
    by eapply cache_get_error.
Qed.

Lemma ix_next_error k less sub `{!StrictLess less} it s e :
  (forall a b, less a b = true <-> ix_t_id a.2 < ix_t_id b.2 \/ (ix_t_id a.2 = ix_t_id b.2 /\ sub a.2 b.2 = true)) ->
  table_state_wf s -> cache_small (itr_cache s k) -> ix_next k less it s = Throw e -> contract_error e.
Proof.
  intros Hless Hwf Hsm Hn. destruct (cache_get it (itr_cache s k)) as [o|e'] eqn:Hg.
  - destruct (ix_row_of_iterator _ _ _ _ Hwf Hg) as (v & tv & Hv & Htv & _).
    destruct (ix_next_effect k less sub Hless it (tid_key tv) v s Hwf Hsm) as (? & ? & ? & Hn' & _);
      [by exists o, tv|congruence].
  - unfold ix_next in Hn. destruct (it <? -1); [done|]. rewrite Hg in Hn. injection Hn as <-.
    by eapply cache_get_error.
Qed.

(** [it] is not the least [int], and if it is the end of a table, the table
    still exists. *)
Definition end_live (it : Z) (cache : iterator_cache) s : Prop :=
  it <> int_min /\ forall t, find_table_by_end_iterator it cache = Ok (Some t) -> is_Some (tables_of s !! t).

Definition op_live (o : table_op) s : Prop :=
  match o with
  | op_previous it => end_live it (keyval_cache s) s
  | op_index k (op_previous_secondary it) | op_index k (op_previous_primary it) => end_live it (itr_cache s k) s
  | _ => True
  end.

(** The position a walk back starts from, or the error of an iterator that has none. *)
Lemma previous_start it cache s :
  end_live it cache s ->
  (it <? -1 = false /\ exists e, cache_get it cache = Throw e /\ contract_error e) \/
  (it <? -1 = false /\ exists o, cache_get it cache = Ok o) \/
  (it <? -1 = true /\ find_table_by_end_iterator it cache = Ok None) \/
  (it <? -1 = true /\ exists t tv, find_table_by_end_iterator it cache = Ok (Some t) /\ tables_of s !! t = Some tv).
Proof.
  intros [Hmin Hlive]. destruct (it <? -1) eqn:E.
  - right; right. assert (exists o, find_table_by_end_iterator it cache = Ok o) as [[t|] Ho]; [| |by left].
    + unfold find_table_by_end_iterator, end_iterator_to_index. rewrite E. cbn.
      rewrite (proj2 (Z.eqb_neq it int_min)) by done. cbn. eauto.
    + destruct (Hlive t Ho) as [tv Htv]. right. eauto.
  - destruct (cache_get it cache) as [o|e] eqn:Hg; [right; left; eauto|left].
    split; [done|]. exists e. split; [done|]. by eapply cache_get_error.
Qed.

Lemma db_previous_i64_error it s e :
  table_state_wf s -> cache_small (keyval_cache s) -> int_min <= it -> end_live it (keyval_cache s) s ->
  db_previous_i64 it s = Throw e -> contract_error e.
Proof.
  intros Hwf Hsm Hit Hlive Hp. pose proof (cache_ok_wf _ _ _ (wf_keyval_cache _ _ _ Hwf)) as Hcw.
  destruct (previous_start _ _ _ Hlive) as [(E & e' & Hg & He)|[(E & o & Hg)|[(E & Hf)|(E & t & tv & Hf & Htv)]]].
  - unfold db_previous_i64 in Hp. rewrite E, Hg in Hp. by injection Hp as <-.
  - destruct (kv_row_of_iterator _ _ _ Hwf Hg) as (v & tv & _ & _ & _ & _ & Hat).
    destruct (db_previous_i64_effect it (tid_key tv) s (fun j => j < kv_primary_key v) Hwf Hsm) as (? & ? & ? & Hn' & _);
      [left; by eexists|congruence].
  - unfold db_previous_i64 in Hp. rewrite E, Hf in Hp. injection Hp as <-. by apply contract_error_in.
  - destruct (db_previous_i64_effect it (tid_key tv) s (fun _ => True) Hwf Hsm) as (? & ? & ? & Hn' & _);
      [right; split; [|done]|congruence]. exists t, tv. split_and!; [done..|]. by apply end_iterator_cached.
Qed.

Lemma ix_previous_error k less sub `{!StrictLess less} it s e :
  (forall a b, less a b = true <-> ix_t_id a.2 < ix_t_id b.2 \/ (ix_t_id a.2 = ix_t_id b.2 /\ sub a.2 b.2 = true)) ->
  table_state_wf s -> cache_small (itr_cache s k) -> int_min <= it -> end_live it (itr_cache s k) s ->
  ix_previous k less it s = Throw e -> contract_error e.
Proof.
  intros Hless Hwf Hsm Hit Hlive Hp. pose proof (cache_ok_wf _ _ _ (wf_itr_cache _ _ _ Hwf k)) as Hcw.
  destruct (previous_start _ _ _ Hlive) as [(E & e' & Hg & He)|[(E & o & Hg)|[(E & Hf)|(E & t & tv & Hf & Htv)]]].
  - unfold ix_previous in Hp. rewrite E, Hg in Hp. by injection Hp as <-.
  - destruct (ix_row_of_iterator _ _ _ _ Hwf Hg) as (v & tv & Hv & Htv & _).
    destruct (ix_previous_effect k less sub Hless it (tid_key tv) s (fun w => sub w v = true) Hwf Hsm) as (? & ? & ? & Hn' & _);
      [left; exists v; split; [by exists o, tv|done]|congruence].
  - unfold ix_previous in Hp. rewrite E, Hf in Hp. injection Hp as <-. by apply contract_error_in.
  - destruct (ix_previous_effect k less sub Hless it (tid_key tv) s (fun _ => True) Hwf Hsm) as (? & ? & ? & Hn' & _);
      [right; split; [|done]|congruence]. exists t, tv. split_and!; [done..|]. by apply end_iterator_cached.
Qed.

(** A bad iterator is all that reading can fail on. *)
Lemma db_get_i64_error it n s e : table_state_wf s -> db_get_i64 it n s = Throw e -> contract_error e.
Proof.
  intros Hwf. unfold db_get_i64. intros [Hx|(o & Hg & Hx)]%bind_Throw; [by eapply cache_get_error|].
  destruct (kv_row_of_iterator _ _ _ Hwf Hg) as (v & tv & Hv & _).
  rewrite (proj2 (deref_Ok _ _ _ _) Hv) in Hx. cbn [mbind result_bind] in Hx. by destruct (n =? 0).
Qed.

Lemma ix_get_error k it s e : table_state_wf s -> ix_get k it s = Throw e -> contract_error e.
Proof.
  intros Hwf. unfold ix_get. intros [Hx|(o & Hg & Hx)]%bind_Throw; [by eapply cache_get_error|].
  destruct (ix_row_of_iterator _ _ _ _ Hwf Hg) as (v & tv & Hv & _).
  by rewrite (proj2 (deref_Ok _ _ _ _) Hv) in Hx.
Qed.

Lemma run_index_error k c o s e :
  table_state_wf s -> table_state_small s -> ram_room 2 s -> op_fits (op_index k o) -> op_live (op_index k o) s ->
  run_index k c o s = Throw e -> contract_error e.
Proof.
  intros Hwf Hsm Hr Hfit Hlive. pose proof (small_itr_cache _ Hsm k) as Hc.
  destruct o; cbn in Hfit, Hlive |- *; try done; rewrite ?fmap_Throw.
  - by apply ix_store_error.
  - by apply ix_update_error.
  - by apply ix_remove_error.
  - intros [Hx|(? & _ & Hx)]%bind_Throw; [by eapply ix_get_error|done].
  - by apply (ix_next_error k _ _ _ _ _ ix_secondary_less_split).
  - by apply (ix_previous_error k _ _ _ _ _ ix_secondary_less_split).
  - by apply (ix_next_error k _ _ _ _ _ ix_primary_less_split).
  - by apply (ix_previous_error k _ _ _ _ _ ix_primary_less_split).
Qed.

(** ** Theorems *)

(** An action starts with empty iterator caches. *)
Definition new_action s : state :=
  mk_ts (tables s) (key_values s) (indices s) empty_cache (fun _ => empty_cache) ∅
    (total_ram_usage s) (validate_ram_usage s).

Lemma new_action_wf s : table_state_wf s -> table_state_wf (new_action s).
Proof.
  intros []. split; try done.
  - apply cache_ok_empty.
  - intros k. apply cache_ok_empty.
Qed.

(** [finalize_trace] takes the deltas of one receiver. *)
Definition take_ram_deltas s : state :=
  mk_ts (tables s) (key_values s) (indices s) (keyval_cache s) (itr_cache s) ∅
    (total_ram_usage s) (validate_ram_usage s).

Lemma take_ram_deltas_wf s : table_state_wf s -> table_state_wf (take_ram_deltas s).
Proof. intros []. by split. Qed.

(** The states of a transaction: any intrinsics of any receivers of any actions. *)
Inductive table_reachable s0 : state -> Prop :=
| table_start : table_reachable s0 s0
| table_action s : table_reachable s0 s -> table_reachable s0 (new_action s)
| table_receipt s : table_reachable s0 s -> table_reachable s0 (take_ram_deltas s)
| table_run c o s s' : table_reachable s0 s -> table_state_small s -> op_fits o ->
    run_op c o s = Ok s' -> table_reachable s0 s'.

(** C7: Whatever database intrinsics the actions of a transaction call, in any order: table
    objects count their rows and live exactly as long as they have some, keys are
    unique, cached iterators refer to live rows, and the RAM charged to the
    transaction is exactly the growth of the billable size of all rows. *)
Theorem table_reachable_wf s0 s :
  table_state_wf s0 -> table_reachable s0 s ->
  table_state_wf s /\ total_ram_usage s - total_ram_usage s0 = billed s None - billed s0 None.
Proof.
  intros Hwf Hs. induction Hs as [|s _ [IH Hg]|s _ [IH Hg]|c o s s' _ [IH Hg] Hsm Hfit Hrun].
  - split; [done|lia].
  - split; [by apply new_action_wf|done].
  - split; [by apply take_ram_deltas_wf|done].
  - destruct (run_op_kept c o s s' IH Hsm Hfit Hrun) as [Hwf' Hgap]. split; [done|].
    specialize (Hgap None). unfold ram_gap in Hgap. cbn in Hgap. lia.
Qed.

(** Every intrinsic charges each account exactly the change of the billable size
    of the rows and tables that account pays for. *)
Theorem run_op_charges c o s s' a :
  table_state_wf s -> table_state_small s -> op_fits o -> run_op c o s = Ok s' ->
  default 0 (_account_ram_deltas s' !! a) - default 0 (_account_ram_deltas s !! a) =
  billed s' (Some a) - billed s (Some a).
Proof.
  intros Hwf Hsm Hfit Hrun. destruct (run_op_kept c o s s' Hwf Hsm Hfit Hrun) as [_ Hgap].
  specialize (Hgap (Some a)). unfold ram_gap, ram_used in Hgap. lia.
Qed.

(** From a well-formed state with room in the RAM counters, no intrinsic fails
    with an internal error: neither [table_not_in_cache] nor undefined behaviour,
    only the errors contracts can cause.  Walking back from the end of a table that
    has been removed is the exception. *)
Theorem run_op_errors c o s e :
  table_state_wf s -> table_state_small s -> ram_room 2 s -> op_fits o -> op_live o s ->
  run_op c o s = Throw e -> e ∈ contract_errors.
Proof.
  intros Hwf Hsm Hr Hfit Hlive. pose proof (small_keyval_cache _ Hsm) as Hc.
  destruct o as [| | | | | | | | | |k o]; cbn in Hfit, Hlive |- *; try done; rewrite ?fmap_Throw.
  - intros [Hx|(? & _ & Hx)]%bind_Throw; [by eapply assert_error|by eapply db_store_i64_error].
  - by apply db_update_i64_error.
  - by apply db_remove_i64_error.
  - intros [Hx|(? & _ & Hx)]%bind_Throw; [by eapply db_get_i64_error|done].
  - by apply db_next_i64_error.
  - by apply db_previous_i64_error.
  - by apply run_index_error.
Qed.

End theorems.
