(* ===== verification/ContractTableSpecs.v ===== *)
(** * Contract tables: the promises to contracts

    The abstract specification: tables are finite maps from primary keys to
    rows, iterators stand for keys, walks follow the order of the keys.  Every
    intrinsic acts on this view; a run on concrete tables ends the file. *)

From S2P Require Import Prelude Exceptions Types ObjectIndex IteratorCache Authority.
From S2P Require Import AuthorizationManager ContractTables SecondaryIndex ContractTableProps.
From S2P Require Import ContractTableOps SecondaryIndexOps ContractTableWalk SecondaryIndexWalk ContractTableTheorems.

Section specs.
Context `{SoftFloat} {TT KT IT : Type}.
Context `{!ObjectIndex table_id_object TT tid_conflict}.
Context `{!ObjectIndex key_value_object KT kv_conflict}.
Context `{!ObjectIndex index_object IT ix_conflict}.
Notation state := (@table_state TT KT IT).
Implicit Types (s : state) (c : context_info).

Definition rows_same s s' : Prop := kv_rows_same s s' /\ ix_rows_same s s'.

(** What an intrinsic that returns does to the rows. *)
Definition index_op_rows (k : index_kind) c (o : index_op) s s' : Prop :=
  match o with
  | op_idx_store scope table payer id value =>
    ~ (exists row, ix_row s k (receiver c, scope, table) id row) /\
    ix_rows_set s s' k (receiver c, scope, table) id (Some (payer, value)) /\ kv_rows_same s s'
  | op_idx_update it payer value => exists tab id old,
    ix_at s k it tab id /\ tab.1.1 = receiver c /\ ix_row s k tab id old /\
    ix_rows_set s s' k tab id (Some (if payer =? 0 then old.1 else payer, value)) /\ kv_rows_same s s'
  | op_idx_remove it => exists tab id,
    ix_at s k it tab id /\ tab.1.1 = receiver c /\ ix_rows_set s s' k tab id None /\ kv_rows_same s s'
  | _ => rows_same s s'
  end.

Definition op_rows c (o : table_op) s s' : Prop :=
  match o with
  | op_store scope table payer id buffer =>
    ~ (exists row, kv_row s (receiver c, scope, table) id row) /\
    kv_rows_set s s' (receiver c, scope, table) id (Some (payer, buffer)) /\ ix_rows_same s s'
  | op_update it payer buffer => exists tab id old,
    kv_at s it tab id /\ tab.1.1 = receiver c /\ kv_row s tab id old /\
    kv_rows_set s s' tab id (Some (if payer =? 0 then old.1 else payer, buffer)) /\ ix_rows_same s s'
  | op_remove it => exists tab id,
    kv_at s it tab id /\ tab.1.1 = receiver c /\ kv_rows_set s s' tab id None /\ ix_rows_same s s'
  | op_index k o => index_op_rows k c o s s'
  | _ => rows_same s s'
  end.

(** Queries leave the database alone. *)
Lemma kv_grown_rows s s' : kv_grown s s' -> rows_same s s'.
Proof. by intros ((cache & ->) & _). Qed.

Lemma ix_grown_rows k s s' : ix_grown k s s' -> rows_same s s'.
Proof.
  intros ((HT & HK & HI & _) & _).
  unfold rows_same, kv_rows_same, ix_rows_same, kv_row, ix_row, tables_of, kv_of, ix_of. by rewrite HT, HK, HI.
Qed.

Lemma rows_same_refl s : rows_same s s.
Proof. done. Qed.

Lemma run_index_rows k c o s s' :
  table_state_wf s -> table_state_small s -> op_fits (op_index k o) -> run_index k c o s = Ok s' ->
  index_op_rows k c o s s'.
Proof.
  intros Hwf Hsm Hfit. pose proof (small_itr_cache _ Hsm k) as Hc. destruct o; cbn in Hfit |- *.
  - intros ([it s1] & Hr & ->)%fmap_Ok. by apply ix_store_effect in Hr as (_ & _ & ? & ? & ? & _).
  - intros Hr. apply ix_update_effect in Hr as (_ & _ & _ & _ & tab & id & old & ? & ? & ? & ? & ? & _); [|done..].
    exists tab, id, old. by split_and!.
  - intros Hr. apply ix_remove_effect in Hr as (_ & _ & tab & id & ? & ? & ? & ? & _); [|done..].
    exists tab, id. by split_and!.
  - by intros (? & _ & [= <-])%bind_Ok.
  - intros [= <-]. destruct (find_secondary _ _ _ _ _ _) as [[it p] s1] eqn:E.
    apply find_secondary_effect in E as (r & _ & _ & Hg & _); [|done..]. by eapply ix_grown_rows.
  - intros [= <-]. destruct (lowerbound_secondary _ _ _ _ _ _) as [[it p] s1] eqn:E.
    apply lowerbound_secondary_effect in E as (_ & Hg & _); [|done..]. by eapply ix_grown_rows.
  - intros [= <-]. destruct (upperbound_secondary _ _ _ _ _ _) as [[it p] s1] eqn:E.
    apply upperbound_secondary_effect in E as (_ & Hg & _); [|done..]. by eapply ix_grown_rows.
  - intros [= <-]. destruct (end_secondary _ _ _ _ _) as [it s1] eqn:E.
    apply end_secondary_effect in E as (Hg & _); [|done..]. by eapply ix_grown_rows.
  - intros ([r s1] & Hr & ->)%fmap_Ok. eapply ix_grown_rows. by eapply (ix_next_grown k _ _ _ _ _ _ ix_secondary_less_split).
  - intros ([r s1] & Hr & ->)%fmap_Ok. eapply ix_grown_rows. by eapply (ix_previous_grown k _ _ _ _ _ _ ix_secondary_less_split).
  - intros [= <-]. destruct (find_primary _ _ _ _ _ _) as [[it p] s1] eqn:E.
    apply find_primary_effect in E as (r & _ & _ & Hg & _); [|done..]. by eapply ix_grown_rows.
  - intros [= <-]. destruct (lowerbound_primary _ _ _ _ _ _) as [it s1] eqn:E.
    apply (bound_primary_effect k false) in E as (r & _ & Hg & _); [|done..]. by eapply ix_grown_rows.
  - intros [= <-]. destruct (upperbound_primary _ _ _ _ _ _) as [it s1] eqn:E.
    apply (bound_primary_effect k true) in E as (r & _ & Hg & _); [|done..]. by eapply ix_grown_rows.
  - intros ([r s1] & Hr & ->)%fmap_Ok. eapply ix_grown_rows. by eapply (ix_next_grown k _ _ _ _ _ _ ix_primary_less_split).
  - intros ([r s1] & Hr & ->)%fmap_Ok. eapply ix_grown_rows. by eapply (ix_previous_grown k _ _ _ _ _ _ ix_primary_less_split).
Qed.

(** C15: On the rows contracts see, every database intrinsic that returns acts as
    an operation on maps from primary keys to rows: storing adds a row where
    there was none, updating and removing change the row of the iterator in a
    table of the receiver, a payer of zero keeps the old payer, everything else
    stays, and queries change nothing. *)
Theorem run_op_rows c o s s' :
  table_state_wf s -> table_state_small s -> op_fits o -> run_op c o s = Ok s' -> op_rows c o s s'.
Proof.
  intros Hwf Hsm Hfit. pose proof (small_keyval_cache _ Hsm) as Hc. destruct o as [| | | | | | | | | |k o]; cbn in Hfit |- *.
  - intros ([it s1] & (? & _ & Hr)%bind_Ok & ->)%fmap_Ok. by apply db_store_i64_effect in Hr as (_ & _ & ? & ? & ? & _).
  - intros Hr. apply db_update_i64_effect in Hr as (_ & _ & _ & _ & tab & id & old & ? & ? & ? & ? & ? & _); [|done..].
    exists tab, id, old. by split_and!.
  - intros Hr. apply db_remove_i64_effect in Hr as (_ & _ & tab & id & ? & ? & ? & ? & _); [|done..].
    exists tab, id. by split_and!.
  - by intros (? & _ & [= <-])%bind_Ok.
  - intros ([r s1] & Hr & ->)%fmap_Ok. eapply kv_grown_rows. by eapply db_next_i64_grown.
  - intros ([r s1] & Hr & ->)%fmap_Ok. eapply kv_grown_rows. by eapply db_previous_i64_grown.
  - intros [= <-]. destruct (db_find_i64 _ _ _ _ _) as [it s1] eqn:E.
    apply db_find_i64_effect in E as (r & _ & Hg & _); [|done..]. by apply kv_grown_rows.
  - intros [= <-]. destruct (db_lowerbound_i64 _ _ _ _ _) as [it s1] eqn:E.
    apply db_bound_i64_effect in E as (r & _ & Hg & _); [|done..]. by apply kv_grown_rows.
  - intros [= <-]. destruct (db_upperbound_i64 _ _ _ _ _) as [it s1] eqn:E.
    apply db_bound_i64_effect in E as (r & _ & Hg & _); [|done..]. by apply kv_grown_rows.
  - intros [= <-]. destruct (db_end_i64 _ _ _ _) as [it s1] eqn:E.
    apply db_end_i64_effect in E as (Hg & _); [|done..]. by apply kv_grown_rows.
  - by apply run_index_rows.
Qed.

(** Lookups of primary rows: [find], [lowerbound] and [upperbound] return an
    iterator for the least key that is equal to, not less than, and greater than
    the one asked for; without such a key the end of the table, and -1 when the
    table does not exist.  Iterators handed out before keep their meaning. *)
Theorem db_query_spec code scope table id s :
  table_state_wf s -> cache_small (keyval_cache s) ->
  let tab := (code, scope, table) in
  (exists it s' r, db_find_i64 code scope table id s = (it, s') /\
     is_least (fun j => kv_has s tab j /\ j = id) r /\ kv_grown s s' /\ kv_located s' it tab r) /\
  (exists it s' r, db_lowerbound_i64 code scope table id s = (it, s') /\
     is_least (fun j => kv_has s tab j /\ id <= j) r /\ kv_grown s s' /\ kv_located s' it tab r) /\
  (exists it s' r, db_upperbound_i64 code scope table id s = (it, s') /\
     is_least (fun j => kv_has s tab j /\ id < j) r /\ kv_grown s s' /\ kv_located s' it tab r) /\
  (exists it s', db_end_i64 code scope table s = (it, s') /\ kv_grown s s' /\ kv_located s' it tab None).
Proof.
  intros Hwf Hsm tab. split_and!.
  - destruct (db_find_i64 code scope table id s) as [it s'] eqn:E.
    destruct (db_find_i64_effect _ _ _ _ _ _ _ Hwf Hsm E) as (r & ?). by exists it, s', r.
  - destruct (db_lowerbound_i64 code scope table id s) as [it s'] eqn:E.
    destruct (db_bound_i64_effect _ _ _ _ _ _ _ _ Hwf Hsm E) as (r & ?). by exists it, s', r.
  - destruct (db_upperbound_i64 code scope table id s) as [it s'] eqn:E.
    destruct (db_bound_i64_effect _ _ _ _ _ _ _ _ Hwf Hsm E) as (r & ?). by exists it, s', r.
  - destruct (db_end_i64 code scope table s) as [it s'] eqn:E.
    destruct (db_end_i64_effect _ _ _ _ _ _ Hwf Hsm E). by exists it, s'.
Qed.

(** C28: Walking primary rows: from a row, [next] goes to the least greater key or to
    the end of the table, [previous] to the greatest smaller key or to -1; from the
    end of a table, [previous] goes to its greatest key and [next] gives -1.  The
    key reached is the one written to [primary]. *)
Theorem db_walk_spec it tab s :
  table_state_wf s -> cache_small (keyval_cache s) ->
  (forall id, kv_at s it tab id ->
    (exists it' r s', db_next_i64 it s = Ok (it', r, s') /\
       is_least (fun j => kv_has s tab j /\ id < j) r /\ kv_grown s s' /\ kv_located s' it' tab r) /\
    (exists it' r s', db_previous_i64 it s = Ok (it', r, s') /\
       is_greatest (fun j => kv_has s tab j /\ j < id) r /\ kv_grown s s' /\
       match r with Some j => kv_at s' it' tab j | None => it' = -1 end)) /\
  (kv_end s it tab ->
    db_next_i64 it s = Ok (-1, None, s) /\
    (exists it' r s', db_previous_i64 it s = Ok (it', r, s') /\
       is_greatest (fun j => kv_has s tab j) r /\ kv_grown s s' /\
       match r with Some j => kv_at s' it' tab j | None => it' = -1 end)).
Proof.
  intros Hwf Hsm. split.
  - intros id Hat. split; [by apply db_next_i64_effect|].
    apply (db_previous_i64_effect it tab s (fun j => j < id)); [done..|]. left. by exists id.
  - intros Hend. split.
    + destruct Hend as (t & tv & Ht & _ & Hc).
      destruct (end_iterator_table _ _ _ (cache_ok_wf _ _ _ (wf_keyval_cache _ _ _ Hwf)) Hsm Hc) as [E _].
      unfold db_next_i64. by rewrite E.
    + destruct (db_previous_i64_effect it tab s (fun _ => True) Hwf Hsm) as (it' & r & s' & ? & Hg & ?); [by right|].
      exists it', r, s'. split_and!; try done; [|naive_solver..]. eapply is_greatest_iff; [|exact Hg]. cbn. naive_solver.
Qed.

(** The index by secondary key: lookups return the first row of the table, in the
    order by secondary key and then primary key, whose key is equivalent to, not
    before, or after the one asked for; [next] and [previous] go to the adjacent
    rows of that order. *)
Theorem secondary_order_spec k code scope table secondary s :
  table_state_wf s -> cache_small (itr_cache s k) ->
  let tab := (code, scope, table) in
  (exists it r s', find_secondary k code scope table secondary s = (it, ix_primary_key <$> r, s') /\
     ix_first k ix_secondary_sub s tab (fun w => same_secondary (ix_secondary_key w) secondary) r /\
     ix_grown k s s' /\ ix_located k s' it tab r) /\
  (exists it r s', lowerbound_secondary k code scope table secondary s = (it, r, s') /\
     ix_first k ix_secondary_sub s tab (fun w => secondary_less (ix_secondary_key w) secondary = false) r /\
     ix_grown k s s' /\ ix_located k s' it tab r) /\
  (exists it r s', upperbound_secondary k code scope table secondary s = (it, r, s') /\
     ix_first k ix_secondary_sub s tab (fun w => secondary_less secondary (ix_secondary_key w) = true) r /\
     ix_grown k s s' /\ ix_located k s' it tab r) /\
  (forall it v, ix_on k s it tab v ->
    (exists it' r s', next_secondary k it s = Ok (it', ix_primary_key <$> r, s') /\
       ix_first k ix_secondary_sub s tab (fun w => ix_secondary_sub v w = true) r /\
       ix_grown k s s' /\ ix_located k s' it' tab r) /\
    (exists it' r s', previous_secondary k it s = Ok (it', ix_primary_key <$> r, s') /\
       ix_first k (fun a b => ix_secondary_sub b a) s tab (fun w => ix_secondary_sub w v = true) r /\
       ix_grown k s s' /\ match r with Some w => ix_on k s' it' tab w | None => it' = -1 end)).
Proof.
  intros Hwf Hsm tab. split_and!.
  - destruct (find_secondary k code scope table secondary s) as [[it p] s'] eqn:E.
    destruct (find_secondary_effect _ _ _ _ _ _ _ _ _ Hwf Hsm E) as (r & -> & ?). by exists it, r, s'.
  - destruct (lowerbound_secondary k code scope table secondary s) as [[it r] s'] eqn:E.
    pose proof (lowerbound_secondary_effect _ _ _ _ _ _ _ _ _ Hwf Hsm E). by exists it, r, s'.
  - destruct (upperbound_secondary k code scope table secondary s) as [[it r] s'] eqn:E.
    pose proof (upperbound_secondary_effect _ _ _ _ _ _ _ _ _ Hwf Hsm E). by exists it, r, s'.
  - intros it v Hon. split.
    + by apply (ix_next_effect k _ _ ix_secondary_less_split).
    + apply (ix_previous_effect k _ _ ix_secondary_less_split); [done..|]. left. by exists v.
Qed.

(** A row has one iterator. *)
Lemma kv_at_inj s i i' tab id : table_state_wf s -> kv_at s i tab id -> kv_at s i' tab id -> i = i'.
Proof.
  intros Hwf (o & v & tv & Hg & Hv & Hid & Htv & Hk) (o' & v' & tv' & Hg' & Hv' & Hid' & Htv' & Hk').
  assert (kv_t_id v = kv_t_id v') as Et by (eapply table_key_inj; [apply Hwf|..]; eauto; congruence).
  assert (o = o') as <-.
  { destruct (decide (o = o')) as [|Hne]; [done|].
    pose proof (objects_unique _ _ (wf_kv _ _ _ Hwf) _ _ _ _ Hv Hv' Hne) as Hc.
    unfold kv_conflict in Hc. by rewrite Et, Hid, Hid', !Z.eqb_refl in Hc. }
  pose proof (cache_ok_wf _ _ _ (wf_keyval_cache _ _ _ Hwf)) as Hcw.
  apply cache_get_Ok in Hg, Hg'; [congruence|done..].
Qed.

(** A stored row can be read back through the iterator returned, and finding its
    key gives the same iterator. *)
Theorem db_store_get c code scope table payer id buffer n s it s' :
  table_state_wf s -> table_state_small s -> table_state_small s' -> zlength buffer < 2 ^ 31 -> 0 <= n ->
  db_store_i64 c code scope table payer id buffer s = Ok (it, s') ->
  db_get_i64 it n s' = Ok (if n =? 0 then zlength buffer else Z.min n (zlength buffer), take (Z.to_nat n) buffer) /\
  (db_find_i64 code scope table id s').1 = it.
Proof.
  intros Hwf Hsm Hsm' Hlen Hn Hst. assert (zlength buffer < 2 ^ 32) as Hlen' by lia.
  destruct (db_store_i64_effect _ _ _ _ _ _ _ _ _ _ Hwf Hsm Hlen' Hst) as (Hwf' & _ & _ & Hrows & _ & Hat & _).
  pose proof Hat as (o & v & tv & Hg & Hv & Hid & Htv & Hk).
  assert (kv_row s' (code, scope, table) id (kv_payer v, kv_value v)) as Hrow
    by (exists (kv_t_id v), tv, o, v; by split_and!).
  pose proof Hrow as Hrow'. apply Hrows in Hrow'. rewrite decide_True in Hrow' by done. injection Hrow' as Ep Eb. split.
  - unfold db_get_i64. rewrite Hg. cbn [mbind result_bind]. rewrite (proj2 (deref_Ok _ _ _ _) Hv). cbn [mbind result_bind].
    rewrite <- Eb. destruct (n =? 0) eqn:E0; bool_to_Z.
    + subst n. by rewrite i32_small by lia.
    + rewrite i32_small by lia. do 2 f_equal.
      destruct (decide (n <= zlength buffer)); [by rewrite Z.min_l by lia|].
      rewrite Z.min_r, Nat2Z.id by lia. rewrite !take_ge by lia. done.
  - destruct (db_find_i64 code scope table id s') as [it' s2] eqn:Ef.
    destruct (db_find_i64_effect _ _ _ _ _ _ _ Hwf' (small_keyval_cache _ Hsm') Ef) as ([j|] & Hleast & Hgr & Hloc).
    + destruct Hleast as [[_ ->] _]. destruct Hgr as (_ & Hwf2 & Hkeep & _).
      by eapply kv_at_inj; [exact Hwf2|exact Hloc|apply Hkeep].
    + destruct (Hleast id). by split; [eexists|].
Qed.

(** Who may be charged for more RAM: the receiver itself, anyone by a privileged
    contract or under RAM restrictions, otherwise accounts that authorized the
    action, outside notifications unless those are allowed to charge. *)
Definition may_charge c (payer : Z) : bool :=
  privileged c || (payer =? receiver c) || ram_restrictions c ||
  ((is_ram_billing_in_notify_allowed c || (receiver c =? act_account (act c))) &&
   existsb (fun auth => actor auth =? payer) (act_authorization (act c))).

Lemma update_db_usage_returns c p d s :
  ram_room 1 s -> 0 < d <= 2 ^ 33 ->
  (exists s', update_db_usage c p d s = Ok s') <-> may_charge c p = true.
Proof.
  intros Hr Hd. unfold update_db_usage, may_charge. rewrite (proj2 (Z.ltb_lt 0 d)) by lia.
  destruct (add_ram_usage_total p d s Hr) as [s' Hs']; [lia|].
  destruct (privileged c || (p =? receiver c) || ram_restrictions c) eqn:E; cbn -[Z.pow].
  - split; [done|eauto].
  - unfold require_authorization.
    destruct (is_ram_billing_in_notify_allowed c || (receiver c =? act_account (act c))); cbn; [|split; [by intros [? ?]|done]].
    destruct (existsb _ _); cbn; [split; [done|eauto]|split; [by intros [? ?]|done]].
Qed.

Lemma find_or_create_table_returns c code scope table payer s :
  table_state_wf s -> ram_room 1 s -> may_charge c payer = true ->
  exists tid s', find_or_create_table c code scope table payer s = Ok (tid, s').
Proof.
  intros Hwf Hr Hm. unfold find_or_create_table. destruct (find_table code scope table s) as [t|] eqn:E; [eauto|].
  change (i64 table_id_billable) with table_id_billable.
  destruct (proj2 (update_db_usage_returns c payer table_id_billable s Hr ltac:(rewrite table_id_billable_value; lia)) Hm)
    as [s1 Hs1]. rewrite Hs1. cbn [mbind result_bind]. apply update_db_usage_charged in Hs1 as Hch. unfold create.
  destruct (obj_create_free (mk_tid code scope table payer 0) (tables s1)) as [[t ts] Ht].
  - intros j w Hw. rewrite (charged_tables _ _ _ _ Hch) in Hw. apply bool_decide_eq_false. cbn. intros Hk.
    by apply (find_table_None _ _ _ _ E j w Hw).
  - rewrite Ht. cbn. eauto.
Qed.

(** Storing a row returns exactly when the transaction may write, a payer is
    given that may be charged, and the key is free. *)
Theorem db_store_returns c code scope table payer id buffer s :
  table_state_wf s -> table_state_small s -> ram_room 2 s -> zlength buffer < 2 ^ 32 ->
  (exists it s', db_store_i64 c code scope table payer id buffer s = Ok (it, s')) <->
  is_read_only c = false /\ payer <> 0 /\ may_charge c payer = true /\ ~ kv_has s (code, scope, table) id.
Proof.
  intros Hwf Hsm Hr Hlen. assert (ram_room 1 s) as Hr1 by (eapply ram_room_weaken; [|done]; lia).
  pose proof (key_value_size_small buffer Hlen) as Hsz. pose proof key_value_billable_value as Hkb.
  split.
  - intros (it & s' & Hst). pose proof (db_store_i64_effect _ _ _ _ _ _ _ _ _ _ Hwf Hsm Hlen Hst) as (_ & _ & Hno & _).
    unfold db_store_i64 in Hst. apply bind_Ok in Hst as (? & Hro%sys_assert_Ok & Hst).
    apply bind_Ok in Hst as ([tab s1] & Hfoc & Hst). apply bind_Ok in Hst as (? & Hp%sys_assert_Ok & Hst).
    apply bind_Ok in Hst as ([obj kv] & _ & Hst). apply bind_Ok in Hst as (s3 & Hadd & Hst). bool_to_Z.
    rewrite i64_row_size in Hst by done. apply bind_Ok in Hst as (s4 & Hch & _).
    split_and!; [done|done| |done].
    eapply (update_db_usage_returns c payer (zlength buffer + key_value_billable) s3); [|lia|eauto].
    apply add_count_Ok in Hadd as (t & v & -> & _). change (ram_room 1 s1).
    eapply (find_or_create_table_room 1 c); [|lia|exact Hfoc]. done.
  - intros (Hro & Hp & Hm & Hno). unfold db_store_i64. rewrite bind_assert by by rewrite Hro.
    destruct (find_or_create_table_returns c code scope table payer s Hwf Hr1 Hm) as (tab & s1 & Hfoc).
    rewrite Hfoc. cbn [mbind result_bind].
    destruct (find_or_create_table_Ok _ _ _ _ _ _ _ _ Hwf Hfoc)
      as ((HK & _) & _ & Hinv1 & (tv & Htv & Hkey) & _ & Hkept).
    rewrite bind_assert by (by apply negb_true_iff, Z.eqb_neq). unfold create.
    destruct (obj_create_free (mk_kv tab id payer buffer) (key_values s1)) as [[obj kv] Hcr].
    { rewrite HK. intros o w Hw. destruct (kv_conflict _ w) eqn:Hc; [|done]. unfold kv_conflict in Hc. cbn in Hc.
      bool_to_Z. subst. destruct Hno. destruct (kv_table_live _ _ _ Hwf Hw) as [tw Htw].
      exists (kv_payer w, kv_value w), (kv_t_id w), tw, o, w. split_and!; try done.
      apply Hkept in Htw. congruence. }
    rewrite Hcr. cbn [of_option mbind result_bind].
    destruct (add_count_total tab 1 (set_key_values kv s1) tv) as [s3 Hs3]; [apply Hinv1|done|].
    rewrite Hs3. cbn [mbind result_bind]. rewrite i64_row_size by done.
    destruct (proj2 (update_db_usage_returns c payer (zlength buffer + key_value_billable) s3
      ltac:(apply add_count_Ok in Hs3 as (t & v & -> & _); change (ram_room 1 s1);
            eapply (find_or_create_table_room 1 c); [|lia|exact Hfoc]; done) ltac:(lia)) Hm) as [s4 Hs4].
    rewrite Hs4. cbn [mbind result_bind].
    destruct (cache_table tab (keyval_cache s4)) as [ei c1], (cache_add obj c1) as [it c2]. eauto.
Qed.

(** ** Checking bounds on concrete states *)

Lemma row_sum_in_table_size {V} (f : V -> Z) (m : gmap Z V) t :
  row_sum (fun v => in_table (f v) t) m <= Z.of_nat (size m).
Proof.
  induction m as [|i v m Hi IH] using map_ind; [by rewrite row_sum_empty, map_size_empty|].
  rewrite row_sum_insert, map_size_insert_None by done. unfold in_table at 1. case_match; lia.
Qed.

Definition total_rows s : Z :=
  Z.of_nat (size (kv_of s)) + sum_kinds (fun k => Z.of_nat (size (ix_of s k))).

Definition cache_small_b (c : iterator_cache) : bool :=
  (zlength (_end_iterator_to_table c) <? 2 ^ 31 - 1) && (zlength (_iterator_to_object c) <? 2 ^ 31).

Lemma table_state_small_check s :
  (total_rows s <? 2 ^ 32 - 1) && cache_small_b (keyval_cache s) &&
    forallb (fun k => cache_small_b (itr_cache s k)) [idx64; idx128; idx256; idx_double; idx_long_double] = true ->
  table_state_small s.
Proof.
  unfold cache_small_b. cbn. intros Hc. bool_to_Z. split; [|done|by intros []].
  intros t. unfold rows_of, total_rows, sum_kinds in *.
  pose proof (row_sum_in_table_size kv_t_id (kv_of s) t).
  pose proof (fun k => row_sum_in_table_size ix_t_id (ix_of s k) t) as Hk.
  pose proof (Hk idx64). pose proof (Hk idx128). pose proof (Hk idx256). pose proof (Hk idx_double).
  pose proof (Hk idx_long_double). lia.
Qed.

Lemma ram_room_check k s :
  0 <= k < 2 ^ 29 ->
  forallb (fun z => Z.abs z <=? 2 ^ 63 - 1 - k * 2 ^ 33)
    (total_ram_usage s :: (snd <$> map_to_list (_account_ram_deltas s))) = true -> ram_room k s.
Proof.
  intros Hk. cbn -[Z.pow]. rewrite andb_true_iff, Z.leb_le, forallb_forall. intros [Ht Hall] [a|]; cbn -[Z.pow]; [|done].
  destruct (_account_ram_deltas s !! a) as [d|] eqn:E; cbn -[Z.pow]; [|lia]. apply Z.leb_le, Hall.
  apply list_elem_of_In, list_elem_of_fmap. exists (a, d). split; [done|]. by apply elem_of_map_to_list.
Qed.

(** A database without rows. *)
Lemma empty_db_wf s :
  tables_of s = ∅ -> kv_of s = ∅ -> (forall k, ix_of s k = ∅) ->
  keyval_cache s = empty_cache -> (forall k, itr_cache s k = empty_cache) -> table_state_wf s.
Proof.
  intros HT HK HI HC HJ.
  assert (forall t, rows_of s t = 0) as Hn.
  { intros t. unfold rows_of, sum_kinds. by rewrite HK, !HI, !row_sum_empty. }
  split.
  - split; fold (tables_of s); rewrite HT; [by intros ??????%lookup_empty_Some|by intros ? [? ?%lookup_empty_Some]].
  - split; fold (kv_of s); rewrite HK; [by intros ??????%lookup_empty_Some|by intros ? [? ?%lookup_empty_Some]].
  - intros k. split; fold (ix_of s k); rewrite HI; [by intros ??????%lookup_empty_Some|by intros ? [? ?%lookup_empty_Some]].
  - split; rewrite ?HT; intros *; rewrite ?Hn, ?lookup_empty; try done; lia.
  - rewrite HC. apply cache_ok_empty.
  - intros k. rewrite HJ. apply cache_ok_empty.
  - rewrite HK. by intros ?? ?%lookup_empty_Some.
Qed.
End specs.

(** ** A run on concrete tables *)

Module ContractTableExample.

(** Keys of the float indices do not occur in the run. *)
#[global] Program Instance example_floats : SoftFloat := {|
  float64_t := Z; float128_t := Z; f64_lt := Z.ltb; f128_lt := Z.ltb |}.
Next Obligation. split; [apply Z.ltb_irrefl|intros x y z; rewrite !Z.ltb_lt; lia]. Qed.
Next Obligation. split; [apply Z.ltb_irrefl|intros x y z; rewrite !Z.ltb_lt; lia]. Qed.
Next Obligation. intros x y z. rewrite !Z.ltb_lt. lia. Qed.
Next Obligation. intros x y z. rewrite !Z.ltb_lt. lia. Qed.

Notation state := (@table_state (obj_table tid_conflict) (obj_table kv_conflict) (obj_table ix_conflict)).

Definition info : context_info :=
  mk_info 100 (mk_action 100 7 [mk_level 100 1; mk_level 200 1] []) false false false false.

Definition s0 : state :=
  mk_ts (mk_obj_table 0 ∅) (mk_obj_table 0 ∅) (fun _ => mk_obj_table 0 ∅) empty_cache (fun _ => empty_cache) ∅ 0 ∅.

Definition get {A} (d : A) (m : res A) : A := match m with Ok a => a | Throw _ => d end.
Definition run (s : state) (o : table_op) : state := get s (run_op info o s).

(** Rows 10, 20 and 30 of one table, paid by two accounts, and an index entry. *)
Definition s1 : state := run s0 (op_store 5 6 100 10 [1; 2; 3]).
Definition s2 : state := run s1 (op_store 5 6 200 30 [4]).
Definition s3 : state := run s2 (op_store 5 6 100 20 []).
Definition s4 : state := run s3 (op_index idx64 (op_idx_store 5 6 100 10 (key64 9))).

Lemma s0_wf : table_state_wf s0.
Proof. by apply empty_db_wf. Qed.

Lemma small0 : table_state_small s0. Proof. by apply table_state_small_check. Qed.
Lemma small1 : table_state_small s1. Proof. by apply table_state_small_check. Qed.
Lemma small2 : table_state_small s2. Proof. by apply table_state_small_check. Qed.
Lemma small3 : table_state_small s3. Proof. by apply table_state_small_check. Qed.
Lemma small4 : table_state_small s4. Proof. by apply table_state_small_check. Qed.

Lemma wf1 : table_state_wf s1.
Proof. apply (run_op_kept info (op_store 5 6 100 10 [1; 2; 3]) s0); [apply s0_wf|apply small0|by vm_compute..]. Qed.
Lemma wf2 : table_state_wf s2.
Proof. apply (run_op_kept info (op_store 5 6 200 30 [4]) s1); [apply wf1|apply small1|by vm_compute..]. Qed.
Lemma wf3 : table_state_wf s3.
Proof. apply (run_op_kept info (op_store 5 6 100 20 []) s2); [apply wf2|apply small2|by vm_compute..]. Qed.
Lemma wf4 : table_state_wf s4.
Proof.
  apply (run_op_kept info (op_index idx64 (op_idx_store 5 6 100 10 (key64 9))) s3);
    [apply wf3|apply small3|by vm_compute..].
Qed.

Lemma table_reachable_wf_witness :
  table_state_wf s1 /\ total_ram_usage s1 - total_ram_usage s0 = billed s1 None - billed s0 None.
Proof.
  apply (table_reachable_wf s0 s1); [apply s0_wf|].
  apply (table_run s0 info (op_store 5 6 100 10 [1; 2; 3]) s0); [apply table_start|apply small0|by vm_compute|by vm_compute].
Defined.

Lemma run_op_charges_witness :
  default 0 (_account_ram_deltas s2 !! 200) - default 0 (_account_ram_deltas s1 !! 200) = 113 /\
  billed s2 (Some 200) - billed s1 (Some 200) = 113.
Proof.
  assert (default 0 (_account_ram_deltas s2 !! 200) - default 0 (_account_ram_deltas s1 !! 200) = 113) as E
    by by vm_compute.
  split; [exact E|]. rewrite <- E. symmetry.
  apply (run_op_charges info (op_store 5 6 200 30 [4]) s1 s2 200); [apply wf1|apply small1|by vm_compute..].
Defined.

(** Another contract cannot remove the row. *)
Definition other : context_info :=
  mk_info 300 (mk_action 300 7 [mk_level 300 1] []) false false false false.

Lemma run_op_errors_witness :
  run_op other (op_remove 0) s4 = Throw table_access_violation /\ table_access_violation ∈ contract_errors.
Proof.
  assert (run_op other (op_remove 0) s4 = Throw table_access_violation) as E by by vm_compute.
  split; [exact E|]. apply (run_op_errors other (op_remove 0) s4); [apply wf4|apply small4| |exact I|exact I|exact E].
  apply ram_room_check; [lia|by vm_compute].
Defined.

Lemma run_op_rows_witness : kv_rows_set s1 s2 (100, 5, 6) 30 (Some (200, [4])).
Proof.
  apply (run_op_rows info (op_store 5 6 200 30 [4]) s1 s2); [apply wf1|apply small1|by vm_compute..].
Defined.

(** The row after key 10 is 20, stored last. *)
Lemma db_query_spec_witness :
  (exists r, is_least (fun j => kv_has s4 (100, 5, 6) j /\ 10 < j) r) /\
  (db_upperbound_i64 100 5 6 10 s4).1 = 2.
Proof.
  split; [|by vm_compute].
  destruct (db_query_spec 100 5 6 10 s4 wf4 (small_keyval_cache _ small4)) as (_ & _ & (it & s' & r & _ & Hr & _) & _).
  exact (ex_intro _ r Hr).
Defined.

Lemma at0 : kv_at s4 0 (100, 5, 6) 10.
Proof.
  exists 0, (mk_kv 0 10 100 [1; 2; 3]), (mk_tid 100 5 6 100 4). by vm_compute.
Qed.

Lemma db_walk_spec_witness :
  exists it r s', db_next_i64 0 s4 = Ok (it, r, s') /\ kv_located s' it (100, 5, 6) r.
Proof.
  destruct (db_walk_spec 0 (100, 5, 6) s4 wf4 (small_keyval_cache _ small4)) as [Hrow _].
  destruct (Hrow 10 at0) as [(it & r & s' & Hn & _ & _ & Hl) _]. exists it, r, s'. exact (conj Hn Hl).
Defined.

Lemma secondary_order_spec_witness :
  exists r, ix_first idx64 ix_secondary_sub s4 (100, 5, 6)
    (fun w => secondary_less (ix_secondary_key w) (key64 3) = false) r.
Proof.
  destruct (secondary_order_spec idx64 100 5 6 (key64 3) s4 wf4 (small_itr_cache _ small4 idx64))
    as (_ & (it & r & s' & _ & Hf & _) & _).
  exact (ex_intro _ r Hf).
Defined.

Lemma db_store_get_witness : db_get_i64 1 0 s2 = Ok (1, []) /\ (db_find_i64 100 5 6 30 s2).1 = 1.
Proof.
  apply (db_store_get info 100 5 6 200 30 [4] 0 s1 1 s2);
    [apply wf1|apply small1|apply small2|by vm_compute|lia|by vm_compute].
Defined.

Lemma db_store_returns_witness : exists it s', db_store_i64 info 100 5 6 200 30 [4] s1 = Ok (it, s').
Proof.
  apply (db_store_returns info 100 5 6 200 30 [4] s1);
    [apply wf1|apply small1|apply ram_room_check; [lia|by vm_compute]|by vm_compute|].
  split_and!; [done|done|by vm_compute|].
  intros (row & t & tv & o & v & _ & _ & Hv & _ & Hid & _).
  assert (obj_view (key_values s1) = {[0 := mk_kv 0 10 100 [1; 2; 3]]}) as E by by vm_compute.
  unfold kv_of in Hv. rewrite E in Hv. apply lookup_singleton_Some in Hv as [_ <-]. by cbn in Hid.
Defined.

(** The table of row 0 is gone with its only row; its end iterator is not. *)
Definition t1 : state := run s1 (op_end 100 5 6).
Definition t2 : state := run t1 (op_remove 0).

(** A contract can walk back from the end of a table that was removed with its
    last row: [db_previous_i64] then reads the table object through the pointer kept
    in the iterator cache, which no longer refers to a live object. *)
Theorem previous_of_removed_table :
  table_reachable s0 t2 /\ op_fits (op_previous (-2)) /\
  run_op info (op_previous (-2)) t2 = Throw undefined_behavior.
Proof.
  split_and!; [|by vm_compute|by vm_compute].
  apply (table_run s0 info (op_remove 0) t1); [|by apply table_state_small_check|by vm_compute|by vm_compute].
  apply (table_run s0 info (op_end 100 5 6) s1); [|apply small1|by vm_compute|by vm_compute].
  apply (table_run s0 info (op_store 5 6 100 10 [1; 2; 3]) s0); [apply table_start|apply small0|by vm_compute|by vm_compute].
Qed.
End ContractTableExample.
