(* ===== verification/ActionExecution.v ===== *)
(** * Action execution ([apply_context.cpp], [transaction_context.cpp], [trace.hpp])

    How the actions of a transaction run: the action traces and their ordinals,
    the notification loop, inline actions and their depth, the sequence numbers
    and receipts.  What contracts do to the rest of the chain state goes through
    the class [ActionWorld]; contract code is a [program] that issues host calls
    and continues with their replies. *)

From S2P Require Import Prelude Exceptions Types Authority AuthorizationManager ContractTables.
From S2P Require Import AccessLists.

(** ** Data *)

Record account_metadata_object := mk_amo {
  recv_sequence : Z;
  auth_sequence : Z;
  code_sequence : Z;
  abi_sequence : Z;
  code_hash : digest;
  last_code_update : Z;
  amo_flags : Z;
  vm_type : Z;
  vm_version : Z }.

Definition is_privileged (a : account_metadata_object) : bool := Z.testbit (amo_flags a) 0.

Record action_receipt := mk_receipt {
  r_receiver : Z;
  r_act_digest : digest;
  r_global_sequence : Z;
  r_recv_sequence : Z;
  r_auth_sequence : gmap Z Z;
  r_code_sequence : Z;
  r_abi_sequence : Z }.

Record action_trace := mk_trace {
  at_action_ordinal : Z;
  at_creator_action_ordinal : Z;
  at_closest_unnotified_ancestor_action_ordinal : Z;
  at_receipt : option action_receipt;
  at_receiver : Z;
  at_act : action;
  at_context_free : bool;
  at_account_ram_deltas : list (Z * Z);
  at_return_value : list Z }.

(** [apply_context]: the fields that control execution. *)
Record apply_context := mk_apply {
  ac_receiver : Z;
  ac_act : action;
  ac_privileged : bool;
  ac_context_free : bool;
  recurse_depth : Z;
  first_receiver_action_ordinal : Z;
  action_ordinal : Z;
  _notified : list (Z * Z);
  _inline_actions : list Z;
  _cfa_inline_actions : list Z;
  action_return_value : list Z }.

Definition set_act (a : action) (c : apply_context) : apply_context :=
  mk_apply (ac_receiver c) a (ac_privileged c) (ac_context_free c) (recurse_depth c)
    (first_receiver_action_ordinal c) (action_ordinal c) (_notified c) (_inline_actions c)
    (_cfa_inline_actions c) (action_return_value c).
Definition set_privileged (b : bool) (c : apply_context) : apply_context :=
  mk_apply (ac_receiver c) (ac_act c) b (ac_context_free c) (recurse_depth c)
    (first_receiver_action_ordinal c) (action_ordinal c) (_notified c) (_inline_actions c)
    (_cfa_inline_actions c) (action_return_value c).
Definition set_receiver (receiver ordinal : Z) (c : apply_context) : apply_context :=
  mk_apply receiver (ac_act c) (ac_privileged c) (ac_context_free c) (recurse_depth c)
    (first_receiver_action_ordinal c) ordinal (_notified c) (_inline_actions c)
    (_cfa_inline_actions c) (action_return_value c).
Definition set_return_value (v : list Z) (c : apply_context) : apply_context :=
  mk_apply (ac_receiver c) (ac_act c) (ac_privileged c) (ac_context_free c) (recurse_depth c)
    (first_receiver_action_ordinal c) (action_ordinal c) (_notified c) (_inline_actions c)
    (_cfa_inline_actions c) v.
Definition push_notified (receiver ordinal : Z) (c : apply_context) : apply_context :=
  mk_apply (ac_receiver c) (ac_act c) (ac_privileged c) (ac_context_free c) (recurse_depth c)
    (first_receiver_action_ordinal c) (action_ordinal c) (_notified c ++ [(receiver, ordinal)])
    (_inline_actions c) (_cfa_inline_actions c) (action_return_value c).
Definition push_inline (ordinal : Z) (c : apply_context) : apply_context :=
  mk_apply (ac_receiver c) (ac_act c) (ac_privileged c) (ac_context_free c) (recurse_depth c)
    (first_receiver_action_ordinal c) (action_ordinal c) (_notified c)
    (_inline_actions c ++ [ordinal]) (_cfa_inline_actions c) (action_return_value c).
Definition push_cfa_inline (ordinal : Z) (c : apply_context) : apply_context :=
  mk_apply (ac_receiver c) (ac_act c) (ac_privileged c) (ac_context_free c) (recurse_depth c)
    (first_receiver_action_ordinal c) (action_ordinal c) (_notified c) (_inline_actions c)
    (_cfa_inline_actions c ++ [ordinal]) (action_return_value c).

(** ** The rest of the chain state *)

(** What action execution asks of the databases.  [W] is their state together
    with the caches and RAM deltas of the running action; [call] and [reply] are
    the host functions that act on it. *)
Class ActionWorld (W call reply : Type) := {
  is_account : Z -> W -> bool;                      (* an account_object by that name *)
  has_permission : permission_level -> W -> res bool;   (* find_permission( auth ) != nullptr *)
  get_metadata : Z -> W -> option account_metadata_object;
  put_metadata : Z -> account_metadata_object -> W -> W;
  max_inline_action_depth : W -> Z;                 (* of the global properties, uint16_t *)
  checktime : W -> res unit;
  check_inline : W -> action -> gset permission_level -> Z -> bool -> gset permission_level -> res unit;
  ram_deltas : W -> list (Z * Z);                   (* _account_ram_deltas, by account *)
  open_context : W -> W;                            (* a new apply_context *)
  clear_ram_deltas : W -> W;
  generate_action_digest : W -> action -> list Z -> res digest;
  run_call : context_info -> call -> W -> res (reply * W) }.

Section execution.
Context {W call reply : Type} `{!ActionWorld W call reply}.

(** Host calls; the replies of [require_recipient] and of the inline calls carry
    nothing. *)
Inductive host_call : Type :=
| call_require_recipient (recipient : Z)
| call_execute_inline (a : action)
| call_execute_context_free_inline (a : action)
| call_get_sender
| call_set_action_return_value (v : list Z)
| call_world (c : call).

Inductive host_reply : Type :=
| reply_none
| reply_name (n : Z)
| reply_world (r : reply).

(** Contract code, native or WebAssembly: it ends (also by [sysio_exit]), throws,
    or calls the host and goes on with the reply. *)
Inductive program : Type :=
| p_exit
| p_throw (e : exn)
| p_call (c : host_call) (k : host_reply -> program).

Record exec_env := mk_exec_env {
  skip_trx_checks : bool;
  skip_auth_check : bool;
  enforce_whiteblacklist : bool;
  is_speculative_block : bool;
  trx_read_only : bool;
  trx_dry_run : bool;
  forward_setcode_activated : bool;
  ram_restrictions_activated : bool;
  action_return_value_activated : bool;
  restrict_action_to_self_activated : bool;
  ram_billing_in_notify_allowed : bool;
  published_delay : Z;                  (* control.pending_block_time() - trx_context.published *)
  lists : list_config;
  system_account_name : Z;
  setcode_name : Z;
  sysio_code_name : Z;
  find_apply_handler : Z -> Z -> Z -> option (context_info -> program);
  wasm_apply : digest -> Z -> Z -> context_info -> program;
  hash_action : action -> digest;
  receipt_digest : action_receipt -> digest }.

(** What the transaction carries from action to action. *)
Record trx_state := mk_trx {
  world : W;
  global_action_sequence : Z;
  action_traces : list action_trace;
  executed_action_receipt_digests : list digest }.

Definition set_world (w : W) (st : trx_state) : trx_state :=
  mk_trx w (global_action_sequence st) (action_traces st) (executed_action_receipt_digests st).
Definition set_traces (l : list action_trace) (st : trx_state) : trx_state :=
  mk_trx (world st) (global_action_sequence st) l (executed_action_receipt_digests st).

(** ** Traces *)

Definition get_action_trace (ordinal : Z) (st : trx_state) : res action_trace :=
  _ ← sys_assert ((0 <? ordinal) && (ordinal <=? Z.of_nat (length (action_traces st)))) transaction_exception;
  of_option undefined_behavior (action_traces st !! Z.to_nat (ordinal - 1)).

(** [transaction_context::schedule_action]: the overloads that are given the
    action, and the one that repeats the action of a trace. *)
Definition trx_schedule_action (a : action) (receiver : Z) (context_free : bool) (creator closest : Z)
    (st : trx_state) : Z * trx_state :=
  let new_action_ordinal := u32 (Z.of_nat (length (action_traces st)) + 1) in
  (new_action_ordinal,
   set_traces (action_traces st ++
     [mk_trace new_action_ordinal creator closest None receiver a context_free [] []]) st).

Definition trx_schedule_action_again (ordinal receiver : Z) (context_free : bool) (creator closest : Z)
    (st : trx_state) : res (Z * trx_state) :=
  tr ← get_action_trace ordinal st;
  Ok (trx_schedule_action (at_act tr) receiver context_free creator closest st).

(** The constructor of [apply_context]. *)
Definition new_apply_context (ordinal depth : Z) (st : trx_state) : res (apply_context * trx_state) :=
  tr ← get_action_trace ordinal st;
  Ok (mk_apply (at_receiver tr) (at_act tr) false (at_context_free tr) depth ordinal ordinal [] [] [] [],
      set_world (open_context (world st)) st).

(** [apply_context::schedule_action]: [act] is read again, as the traces may
    have moved. *)
Definition schedule_action (a : action) (receiver : Z) (context_free : bool) (c : apply_context)
    (st : trx_state) : res (Z * apply_context * trx_state) :=
  let '(o, st) := trx_schedule_action a receiver context_free (action_ordinal c)
                    (first_receiver_action_ordinal c) st in
  tr ← get_action_trace (action_ordinal c) st;
  Ok (o, set_act (at_act tr) c, st).

Definition schedule_action_again (ordinal receiver : Z) (context_free : bool) (c : apply_context)
    (st : trx_state) : res (Z * apply_context * trx_state) :=
  '(o, st) ← trx_schedule_action_again ordinal receiver context_free (action_ordinal c)
               (first_receiver_action_ordinal c) st;
  tr ← get_action_trace (action_ordinal c) st;
  Ok (o, set_act (at_act tr) c, st).

(** ** Host calls *)

Definition has_authorization (c : apply_context) (account : Z) : bool :=
  existsb (fun auth => actor auth =? account) (act_authorization (ac_act c)).

Definition has_recipient (code : Z) (c : apply_context) : bool :=
  existsb (fun p => p.1 =? code) (_notified c).

Definition require_recipient (recipient : Z) (c : apply_context) (st : trx_state)
  : res (apply_context * trx_state) :=
  if has_recipient recipient c then Ok (c, st)
  else
    '(o, c, st) ← schedule_action_again (action_ordinal c) recipient false c st;
    Ok (push_notified recipient o c, st).

Definition get_sender (c : apply_context) (st : trx_state) : res Z :=
  tr ← get_action_trace (action_ordinal c) st;
  if 0 <? at_creator_action_ordinal tr then
    creator_trace ← get_action_trace (at_creator_action_ordinal tr) st;
    Ok (at_receiver creator_trace)
  else Ok 0.

(** The loop over the authorizations of an inline action: the actors and the
    authorizations inherited from the parent. *)
Definition inline_auth_step (enforce inherit : bool) (c : apply_context) (w : W)
    (acc : list Z * gset permission_level) (auth : permission_level)
  : res (list Z * gset permission_level) :=
  let '(actors, inherited) := acc in
  _ ← sys_assert (is_account (actor auth) w) action_validate_exception;
  found ← has_permission auth w;
  _ ← sys_assert found action_validate_exception;
  Ok (if enforce then flat_insert (actor auth) actors else actors,
      if inherit && bool_decide (auth ∈ act_authorization (ac_act c)) then {[auth]} ∪ inherited
      else inherited).

(** What becomes of a failed authorization of an action a contract sends to itself. *)
Definition send_to_self_handler (env : exec_env) (send_to_self : bool) (m : res unit) : res unit :=
  match m with
  | Ok _ => Ok tt
  | Throw undefined_behavior => Throw undefined_behavior
  | Throw fuel_exhausted => Throw fuel_exhausted
  | Throw e =>
    if restrict_action_to_self_activated env || negb send_to_self then Throw e
    else if is_speculative_block env then Throw subjective_block_production_exception
    else Ok tt
  end.

Definition execute_inline (env : exec_env) (a : action) (c : apply_context) (st : trx_state)
  : res (apply_context * trx_state) :=
  let w := world st in
  _ ← sys_assert (is_account (act_account a) w) action_validate_exception;
  let enforce := enforce_whiteblacklist env && is_speculative_block env in
  let send_to_self := act_account a =? ac_receiver c in
  let inherit := negb (restrict_action_to_self_activated env) && send_to_self &&
                 (ac_receiver c =? act_account (ac_act c)) && is_speculative_block env in
  '(actors, inherited) ← foldM (inline_auth_step enforce inherit c w) ([], ∅) (act_authorization a);
  _ ← (if enforce then check_actor_list (lists env) actors else Ok tt);
  _ ← (if negb (skip_auth_check env) && negb (ac_privileged c) && negb (trx_read_only env) then
         send_to_self_handler env send_to_self
           (check_inline w a {[mk_level (ac_receiver c) (sysio_code_name env)]} (published_delay env)
              (trx_dry_run env) inherited)
       else Ok tt);
  '(o, c, st) ← schedule_action a (act_account a) false c st;
  Ok (push_inline o c, st).

Definition execute_context_free_inline (a : action) (c : apply_context) (st : trx_state)
  : res (apply_context * trx_state) :=
  _ ← sys_assert (is_account (act_account a) (world st)) action_validate_exception;
  _ ← sys_assert (bool_decide (act_authorization a = [])) action_validate_exception;
  '(o, c, st) ← schedule_action a (act_account a) true c st;
  Ok (push_cfa_inline o c, st).

(** What the database intrinsics see of the context. *)
Definition info (env : exec_env) (c : apply_context) : context_info :=
  mk_info (ac_receiver c) (ac_act c) (ac_privileged c) (trx_read_only env)
    (ram_restrictions_activated env) (ram_billing_in_notify_allowed env).

Definition run_host_call (env : exec_env) (h : host_call) (c : apply_context) (st : trx_state)
  : res (host_reply * apply_context * trx_state) :=
  match h with
  | call_require_recipient recipient =>
    '(c, st) ← require_recipient (u64 recipient) c st; Ok (reply_none, c, st)
  | call_execute_inline a => '(c, st) ← execute_inline env a c st; Ok (reply_none, c, st)
  | call_execute_context_free_inline a =>
    '(c, st) ← execute_context_free_inline a c st; Ok (reply_none, c, st)
  | call_get_sender => n ← get_sender c st; Ok (reply_name n, c, st)
  | call_set_action_return_value v => Ok (reply_none, set_return_value v c, st)
  | call_world h =>
    '(r, w) ← run_call (info env c) h (world st); Ok (reply_world r, c, set_world w st)
  end.

Fixpoint run_program (env : exec_env) (p : program) (c : apply_context) (st : trx_state)
  : res (apply_context * trx_state) :=
  match p with
  | p_exit => Ok (c, st)
  | p_throw e => Throw e
  | p_call h k => '(r, c, st) ← run_host_call env h c st; run_program env (k r) c st
  end.

(** ** [exec_one] *)

Definition check_lists (env : exec_env) (c : apply_context) : res unit :=
  if enforce_whiteblacklist env && is_speculative_block env then
    _ ← check_contract_list (lists env) (ac_receiver c);
    check_action_list (lists env) (act_account (ac_act c)) (act_name (ac_act c))
  else Ok tt.

(** The loop over [_account_ram_deltas]; [counter] is reset every tenth account. *)
Fixpoint check_ram_deltas (c : apply_context) (w : W) (counter : Z) (deltas : list (Z * Z)) : res unit :=
  match deltas with
  | [] => Ok tt
  | (account, delta) :: deltas =>
    _ ← (if counter =? 10 then checktime w else Ok tt);
    let counter := if counter =? 10 then 0 else counter in
    _ ← (if (0 <? delta) && negb (account =? ac_receiver c) then
           _ ← sys_assert (ac_receiver c =? act_account (ac_act c)) unauthorized_ram_usage_increase;
           sys_assert (has_authorization c account) unauthorized_ram_usage_increase
         else Ok tt);
    check_ram_deltas c w (counter + 1) deltas
  end.

(** The code of the receiver runs unless [setcode] of the system account is
    handled natively. *)
Definition runs_wasm (env : exec_env) (c : apply_context) (a : account_metadata_object) : bool :=
  negb (bool_decide (code_hash a = digest_zero)) &&
  (negb ((act_account (ac_act c) =? system_account_name env) && (act_name (ac_act c) =? setcode_name env) &&
         (ac_receiver c =? system_account_name env)) || forward_setcode_activated env).

Definition exec_body (env : exec_env) (c : apply_context) (st : trx_state)
  : res (apply_context * trx_state) :=
  let c := set_return_value [] c in
  receiver_account ← of_option std_out_of_range (get_metadata (ac_receiver c) (world st));
  if ac_context_free c && skip_trx_checks env then Ok (c, st)
  else
    let c := set_privileged (is_privileged receiver_account) c in
    '(c, st) ← match find_apply_handler env (ac_receiver c) (act_account (ac_act c)) (act_name (ac_act c)) with
               | Some native => _ ← check_lists env c; run_program env (native (info env c)) c st
               | None => Ok (c, st)
               end;
    receiver_account ← of_option undefined_behavior (get_metadata (ac_receiver c) (world st));
    '(c, st) ← (if runs_wasm env c receiver_account then
                  _ ← check_lists env c;
                  run_program env (wasm_apply env (code_hash receiver_account) (vm_type receiver_account)
                                     (vm_version receiver_account) (info env c)) c st
                else Ok (c, st));
    _ ← (if negb (ac_privileged c) && ram_restrictions_activated env then
           check_ram_deltas c (world st) 0 (ram_deltas (world st))
         else Ok tt);
    Ok (c, st).

Definition next_global_sequence (env : exec_env) (st : trx_state) : Z * trx_state :=
  if trx_read_only env then (0, st)
  else
    let n := u64 (global_action_sequence st + 1) in
    (n, mk_trx (world st) n (action_traces st) (executed_action_receipt_digests st)).

Definition next_recv_sequence (env : exec_env) (receiver : Z) (st : trx_state) : res (Z * trx_state) :=
  if trx_read_only env then Ok (0, st)
  else
    a ← of_option undefined_behavior (get_metadata receiver (world st));
    let n := u64 (recv_sequence a + 1) in
    Ok (n, set_world (put_metadata receiver (mk_amo n (auth_sequence a) (code_sequence a) (abi_sequence a)
             (code_hash a) (last_code_update a) (amo_flags a) (vm_type a) (vm_version a)) (world st)) st).

Definition next_auth_sequence (actor : Z) (st : trx_state) : res (Z * trx_state) :=
  a ← of_option std_out_of_range (get_metadata actor (world st));
  let n := u64 (auth_sequence a + 1) in
  Ok (n, set_world (put_metadata actor (mk_amo (recv_sequence a) n (code_sequence a) (abi_sequence a)
           (code_hash a) (last_code_update a) (amo_flags a) (vm_type a) (vm_version a)) (world st)) st).

Definition auth_sequence_step (acc : gmap Z Z * trx_state) (auth : permission_level)
  : res (gmap Z Z * trx_state) :=
  let '(seqs, st) := acc in
  '(n, st) ← next_auth_sequence (actor auth) st;
  Ok (<[actor auth := n]> seqs, st).

(** The receipt and the end of [exec_one]; [finalize_trace] moves the deltas. *)
Definition complete_trace (env : exec_env) (act_digest : digest) (c : apply_context) (st : trx_state)
  : res trx_state :=
  tr ← get_action_trace (action_ordinal c) st;
  let '(global, st) := next_global_sequence env st in
  '(recv, st) ← next_recv_sequence env (ac_receiver c) st;
  first_receiver_account ←
    of_option (if act_account (ac_act c) =? ac_receiver c then undefined_behavior else std_out_of_range)
      (get_metadata (act_account (ac_act c)) (world st));
  '(auths, st) ← foldM auth_sequence_step (∅, st) (act_authorization (ac_act c));
  let r := mk_receipt (ac_receiver c) act_digest global recv auths
             (u32 (code_sequence first_receiver_account)) (u32 (abi_sequence first_receiver_account)) in
  Ok (mk_trx (clear_ram_deltas (world st)) (global_action_sequence st)
        (<[Z.to_nat (action_ordinal c - 1) :=
             mk_trace (at_action_ordinal tr) (at_creator_action_ordinal tr)
               (at_closest_unnotified_ancestor_action_ordinal tr) (Some r) (at_receiver tr) (at_act tr)
               (at_context_free tr) (ram_deltas (world st)) (action_return_value c)]> (action_traces st))
        (executed_action_receipt_digests st ++ [receipt_digest env r])).

Definition exec_one (env : exec_env) (c : apply_context) (st : trx_state) : res (apply_context * trx_state) :=
  '(c, st) ← fc_rethrow (exec_body env c st);
  act_digest ← (if action_return_value_activated env
                then generate_action_digest (world st) (ac_act c) (action_return_value c)
                else Ok (hash_action env (ac_act c)));
  st ← complete_trace env act_digest c st;
  Ok (c, st).

(** ** Transactions *)

(** [None]: the loop was cut short; no C++ counterpart. *)
Definition fbind {A B} (m : option (res A)) (k : A -> option (res B)) : option (res B) :=
  match m with
  | None => None
  | Some (Throw e) => Some (Throw e)
  | Some (Ok a) => k a
  end.

(** The loop of [exec] over [_notified], which grows as it runs, from index [i]. *)
Fixpoint notify_loop (fuel : nat) (env : exec_env) (i : nat) (c : apply_context) (st : trx_state)
  : option (res (apply_context * trx_state)) :=
  match _notified c !! i with
  | None => Some (Ok (c, st))
  | Some (receiver, ordinal) =>
    match fuel with
    | O => None
    | S fuel => fbind (Some (exec_one env (set_receiver receiver ordinal c) st)) (fun '(c, st) =>
                  notify_loop fuel env (S i) c st)
    end
  end.

Section exec.
Context (notify_fuel : nat) (env : exec_env).

(** [exec], with the execution of an inline action as a parameter. *)
Definition exec (execute : Z -> Z -> trx_state -> option (res trx_state)) (c : apply_context) (st : trx_state)
  : option (res trx_state) :=
  let c := push_notified (ac_receiver c) (action_ordinal c) c in
  fbind (Some (exec_one env c st)) (fun '(c, st) =>
  fbind (notify_loop notify_fuel env 1 c st) (fun '(c, st) =>
  fbind (Some (if bool_decide (_cfa_inline_actions c <> []) || bool_decide (_inline_actions c <> [])
               then sys_assert (recurse_depth c <? max_inline_action_depth (world st)) transaction_exception
               else Ok tt)) (fun _ =>
  let run l m := fold_left (fun m ordinal => fbind m (execute ordinal (u32 (recurse_depth c + 1)))) l m in
  run (_inline_actions c) (run (_cfa_inline_actions c) (Some (Ok st)))))).

Fixpoint execute_action (levels : nat) (ordinal depth : Z) (st : trx_state) : option (res trx_state) :=
  match levels with
  | O => None
  | S levels =>
    fbind (Some (new_apply_context ordinal depth st)) (fun '(c, st) => exec (execute_action levels) c st)
  end.

(** [transaction_context::exec] without a delay: the actions are scheduled, then
    run one by one. *)
Definition schedule_input (context_free : bool) (st : trx_state) (a : action) : trx_state :=
  (trx_schedule_action a (act_account a) context_free 0 0 st).2.

Definition trx_exec (levels : nat) (apply_context_free : bool) (context_free_actions actions : list action)
    (st : trx_state) : option (res trx_state) :=
  let st := if apply_context_free then fold_left (schedule_input true) context_free_actions st else st in
  let st := fold_left (schedule_input false) actions st in
  let num_original_actions_to_execute := length (action_traces st) in
  fold_left (fun m i => fbind m (execute_action levels (Z.of_nat i) 0)) (seq 1 num_original_actions_to_execute)
    (Some (Ok st)).
End exec.
End execution.
