(* ===== verification/ActionExecutionProps.v ===== *)
(** * Action execution: what one receiver does

    Host calls as small steps ([host_step]), the shape they give to contexts and
    traces, and the termination of transactions. *)

From S2P Require Import Prelude Exceptions Types Authority AuthorizationManager ContractTables.
From S2P Require Import AccessLists ActionExecution.

(** As [inv_res], also taking apart the tuples bound on the way. *)
Ltac inv_run :=
  repeat ((inv_res1 || match goal with p : (_ * _)%type |- _ => destruct p end); simplify_eq/=).

Section props.
Context {W call reply : Type} `{!ActionWorld W call reply}.
Notation state := (@trx_state W).
Implicit Types (env : @exec_env call reply) (c : apply_context) (st : state).

(** ** Steps *)

Definition fresh_trace (a : action) (receiver : Z) (context_free : bool) c st : action_trace :=
  mk_trace (u32 (Z.of_nat (length (action_traces st)) + 1)) (action_ordinal c)
    (first_receiver_action_ordinal c) None receiver a context_free [] [].

Definition with_trace (t : action_trace) st : state := set_traces (action_traces st ++ [t]) st.

(** A host function that acts on the world has run, or none. *)
Definition world_move (w w' : W) : Prop :=
  w' = w \/ exists i h r, run_call i h w = Ok (r, w').

(** Steps that leave the traces alone, notifications, and inline actions of both
    kinds; [tr] is the trace [act] is read from again. *)
Inductive host_step : apply_context * state -> apply_context * state -> Prop :=
| step_local c st w b v :
    world_move (world st) w ->
    host_step (c, st) (set_privileged b (set_return_value v c), set_world w st)
| step_notify c st r a tr :
    (r ∉ (_notified c).*1) -> is_u64 r ->
    (exists tr0, get_action_trace (action_ordinal c) st = Ok tr0 /\ a = at_act tr0) ->
    get_action_trace (action_ordinal c) (with_trace (fresh_trace a r false c st) st) = Ok tr ->
    host_step (c, st) (push_notified r (at_action_ordinal (fresh_trace a r false c st)) (set_act (at_act tr) c),
                       with_trace (fresh_trace a r false c st) st)
| step_inline c st a tr :
    get_action_trace (action_ordinal c) (with_trace (fresh_trace a (act_account a) false c st) st) = Ok tr ->
    host_step (c, st) (push_inline (at_action_ordinal (fresh_trace a (act_account a) false c st)) (set_act (at_act tr) c),
                       with_trace (fresh_trace a (act_account a) false c st) st)
| step_cfa_inline c st a tr :
    get_action_trace (action_ordinal c) (with_trace (fresh_trace a (act_account a) true c st) st) = Ok tr ->
    host_step (c, st) (push_cfa_inline (at_action_ordinal (fresh_trace a (act_account a) true c st)) (set_act (at_act tr) c),
                       with_trace (fresh_trace a (act_account a) true c st) st).

Lemma set_world_id st : set_world (world st) st = st.
Proof. by destruct st. Qed.

Lemma local_step c st w b v c' st' :
  world_move (world st) w ->
  c' = set_privileged b (set_return_value v c) -> st' = set_world w st -> host_step (c, st) (c', st').
Proof. intros ? -> ->. by constructor. Qed.

Lemma has_recipient_false r c : has_recipient r c = false <-> r ∉ (_notified c).*1.
Proof.
  unfold has_recipient. rewrite <- not_true_iff_false, existsb_exists. f_equiv. rewrite list_elem_of_fmap.
  split.
  - intros (p & Hp & E). exists p. split; [by bool_to_Z|by apply list_elem_of_In].
  - intros (p & -> & Hp). exists p. split; [by apply list_elem_of_In|apply Z.eqb_refl].
Qed.

Lemma run_host_call_step env h c st r c' st' :
  run_host_call env h c st = Ok (r, c', st') -> host_step (c, st) (c', st').
Proof.
  destruct h; cbn [run_host_call].
  - unfold require_recipient. destruct (has_recipient _ c) eqn:E; intros; inv_run.
    + apply (local_step _ _ (world st') (ac_privileged c') (action_return_value c')); [by left|by destruct c', st'..].
    + apply has_recipient_false in E. unfold schedule_action_again, trx_schedule_action_again in *. inv_run.
      apply (step_notify c st (u64 recipient) (at_act x0) x); [done|apply u64_range|eauto|done].
  - unfold execute_inline, schedule_action. intros. inv_run. by apply step_inline.
  - unfold execute_context_free_inline, schedule_action. intros. inv_run. by apply step_cfa_inline.
  - intros. inv_run. apply (local_step _ _ (world st') (ac_privileged c') (action_return_value c')); [by left|by destruct c', st'..].
  - intros. inv_run. apply (local_step _ _ (world st') (ac_privileged c) v); [by left|by destruct c, st'..].
  - intros. inv_run. eapply (local_step _ _ _ (ac_privileged c') (action_return_value c')); [right; eauto|by destruct c'|done].
Qed.

Local Abbreviation host_steps := (rtc host_step).

Lemma run_program_steps env p c st c' st' :
  run_program env p c st = Ok (c', st') -> host_steps (c, st) (c', st').
Proof.
  revert c st. induction p as [|e|h k IH]; cbn [run_program]; intros c st Hr; [by inv_run|done|].
  apply bind_Ok in Hr as ([[r c1] st1] & Hh & Hr). eapply rtc_l; [by eapply run_host_call_step|by eapply IH].
Qed.

Lemma exec_body_steps env c st c' st' :
  exec_body env c st = Ok (c', st') -> host_steps (c, st) (c', st').
Proof.
  unfold exec_body. intros (a & _ & Hr)%bind_Ok.
  destruct (_ && _).
  { inv_run. apply rtc_once. apply (local_step c st' (world st') (ac_privileged c) []); [by left|by destruct c, st'..]. }
  apply bind_Ok in Hr as ([c1 st1] & Hn & (a' & _ & Hr)%bind_Ok).
  apply bind_Ok in Hr as ([c2 st2] & Hw & (_ & _ & Hr)%bind_Ok). inv_run.
  transitivity (set_privileged (is_privileged a) (set_return_value [] c), st).
  { apply rtc_once. apply (local_step c st (world st) (is_privileged a) []); [by left|by destruct st..]. }
  transitivity (c1, st1).
  - destruct (find_apply_handler _ _ _ _); [|by inv_run].
    apply bind_Ok in Hn as (_ & _ & Hn). by eapply run_program_steps.
  - destruct (runs_wasm _ _ _); [|by inv_run].
    apply bind_Ok in Hw as (_ & _ & Hw). by eapply run_program_steps.
Qed.

(** ** Receipts *)

Definition completed (tr : action_trace) (r : action_receipt) (deltas : list (Z * Z)) (v : list Z) : action_trace :=
  mk_trace (at_action_ordinal tr) (at_creator_action_ordinal tr)
    (at_closest_unnotified_ancestor_action_ordinal tr) (Some r) (at_receiver tr) (at_act tr)
    (at_context_free tr) deltas v.

Definition next_global env st : Z :=
  if trx_read_only env then global_action_sequence st else u64 (global_action_sequence st + 1).

(** An account's sequence numbers move. *)
Definition resequenced (m m' : account_metadata_object) : Prop :=
  m' = mk_amo (recv_sequence m') (auth_sequence m') (code_sequence m) (abi_sequence m) (code_hash m)
         (last_code_update m) (amo_flags m) (vm_type m) (vm_version m).
Definition meta_step (w w' : W) : Prop :=
  exists a m m', get_metadata a w = Some m /\ resequenced m m' /\ w' = put_metadata a m' w.

(** What the end of [exec_one] does. *)
Record completes env c st st' (tr : action_trace) (r : action_receipt) (deltas : list (Z * Z)) : Prop := {
  cp_trace : get_action_trace (action_ordinal c) st = Ok tr;
  cp_receiver : r_receiver r = ac_receiver c;
  cp_sequence : r_global_sequence r = if trx_read_only env then 0 else next_global env st;
  cp_global : global_action_sequence st' = next_global env st;
  cp_traces : action_traces st' =
    <[Z.to_nat (action_ordinal c - 1) := completed tr r deltas (action_return_value c)]> (action_traces st);
  cp_digests : executed_action_receipt_digests st' =
    executed_action_receipt_digests st ++ [receipt_digest env r];
  cp_world : exists w, rtc meta_step (world st) w /\ world st' = clear_ram_deltas w /\ deltas = ram_deltas w }.

Lemma auth_sequences_world l seqs st seqs' st' :
  foldM auth_sequence_step (seqs, st) l = Ok (seqs', st') ->
  exists w, rtc meta_step (world st) w /\ st' = set_world w st.
Proof.
  revert seqs st. induction l as [|auth l IH]; cbn [foldM]; intros seqs st Hf.
  - inv_run. exists (world st'). by rewrite set_world_id.
  - apply bind_Ok in Hf as ([seqs1 st1] & Hs & Hf). apply IH in Hf as (w & Hw & ->).
    unfold auth_sequence_step, next_auth_sequence in Hs. inv_run. exists w. split; [|done].
    eapply rtc_l; [|exact Hw]. eexists _, _, _. by split_and!; [|..|reflexivity]; [eassumption|].
Qed.

Lemma complete_trace_effect env d c st st' :
  complete_trace env d c st = Ok st' -> exists tr r deltas, completes env c st st' tr r deltas.
Proof.
  unfold complete_trace. intros (tr & Htr & Hr)%bind_Ok.
  destruct (next_global_sequence env st) as [g st1] eqn:Eg.
  apply bind_Ok in Hr as ([n st2] & Hn & (a & _ & Hr)%bind_Ok).
  apply bind_Ok in Hr as ([seqs st3] & Ha & Hr). injection Hr as <-.
  apply auth_sequences_world in Ha as (w & Hw & ->).
  assert (exists w', rtc meta_step (world st1) w' /\ st2 = set_world w' st1) as (w' & Hw' & ->).
  { unfold next_recv_sequence in Hn. destruct (trx_read_only env); inv_run.
    - exists (world st2). by rewrite set_world_id.
    - eexists. split; [|reflexivity]. apply rtc_once. eexists _, _, _.
      by split_and!; [|..|reflexivity]; [eassumption|]. }
  exists tr, (mk_receipt (ac_receiver c) d g n seqs (u32 (code_sequence a)) (u32 (abi_sequence a))), (ram_deltas w).
  unfold next_global_sequence in Eg.
  split; [done|done|..]; unfold next_global; destruct (trx_read_only env); simplify_eq; try done;
    (exists w; split_and!; [by etrans|done..]).
Qed.

Lemma exec_one_effect env c st c' st' :
  exec_one env c st = Ok (c', st') ->
  exists st1 tr r deltas, host_steps (c, st) (c', st1) /\ completes env c' st1 st' tr r deltas.
Proof.
  unfold exec_one. intros ([c1 st1] & Hb & (d & _ & Hr)%bind_Ok)%bind_Ok.
  apply (proj1 (fc_rethrow_Ok _ _)), exec_body_steps in Hb.
  apply bind_Ok in Hr as (st2 & Hc & Hr). inv_run. apply complete_trace_effect in Hc as (tr & r & deltas & ?). eauto 10.
Qed.

(** ** Termination *)

Lemma bounded_NoDup_length (l : list Z) n :
  NoDup l -> Forall (fun x => 0 <= x < n) l -> 0 <= n -> Z.of_nat (length l) <= n.
Proof.
  intros Hnd Hall Hn. assert (l ⊆+ seqZ 0 n) as Hsub.
  { apply NoDup_submseteq; [done|]. intros x Hx. rewrite Forall_forall in Hall.
    apply elem_of_seqZ. specialize (Hall x Hx). lia. }
  apply submseteq_length in Hsub. rewrite length_seqZ in Hsub. lia.
Qed.

(** Receivers are notified once; those after the first are names. *)
Definition notified_ok c : Prop :=
  exists r0 rest, (_notified c).*1 = r0 :: rest /\ NoDup (r0 :: rest) /\ Forall is_u64 rest.

Lemma notified_ok_length c : notified_ok c -> Z.of_nat (length (_notified c)) <= 2 ^ 64 + 1.
Proof.
  intros (r0 & rest & E & Hnd & Hall). apply NoDup_cons in Hnd as [_ Hnd].
  pose proof (bounded_NoDup_length rest (2 ^ 64) Hnd Hall ltac:(lia)).
  rewrite <- (length_fmap fst), E. cbn [length]. lia.
Qed.

Lemma host_steps_context p p' : host_steps p p' -> notified_ok p.1 ->
  notified_ok p'.1 /\ recurse_depth p'.1 = recurse_depth p.1.
Proof.
  induction 1 as [|p p1 p' Hs _ IH]; [done|]. intros Hok.
  assert (notified_ok p1.1 /\ recurse_depth p1.1 = recurse_depth p.1) as [Hok1 <-]; [|by apply IH].
  destruct Hs as [|c st r a tr Hr Hu _ _| |]; try done. split; [|done].
  destruct Hok as (r0 & rest & E & Hnd & Hall). cbn in E, Hr. exists r0, (rest ++ [r]). cbn.
  rewrite fmap_app, E. split_and!; [done|..].
  - change (r0 :: rest ++ [r]) with ((r0 :: rest) ++ [r]). rewrite E in Hr.
    apply NoDup_app. split_and!; [done| |apply NoDup_singleton]. intros x Hx ->%list_elem_of_singleton. done.
  - apply Forall_app. auto.
Qed.

Lemma exec_one_context env c st c' st' : exec_one env c st = Ok (c', st') -> notified_ok c ->
  notified_ok c' /\ recurse_depth c' = recurse_depth c.
Proof. intros (st1 & ? & ? & ? & Hs & _)%exec_one_effect. by apply (host_steps_context _ _ Hs). Qed.

Lemma notify_loop_terminates env fuel i c st :
  notified_ok c -> 2 ^ 64 + 1 <= Z.of_nat (fuel + i) ->
  exists r, notify_loop fuel env i c st = Some r /\
    forall c' st', r = Ok (c', st') -> notified_ok c' /\ recurse_depth c' = recurse_depth c.
Proof.
  revert i c st. induction fuel as [|fuel IH]; intros i c st Hok Hf; cbn [notify_loop].
  - destruct (_notified c !! i) as [[r o]|] eqn:E; [|by eexists; split; [done|]; intros ? ? [= <- <-]].
    apply lookup_lt_Some in E. pose proof (notified_ok_length c Hok). lia.
  - destruct (_notified c !! i) as [[r o]|] eqn:E; [|by eexists; split; [done|]; intros ? ? [= <- <-]].
    destruct (exec_one env _ st) as [[c1 st1]|e] eqn:Ee; cbn [fbind]; [|by eexists; split; [done|]].
    apply exec_one_context in Ee as [Hok1 Hd1]; [|done].
    destruct (IH (S i) c1 st1 Hok1) as (x & Hx & Hk); [lia|]. exists x. split; [done|].
    intros c' st' ->. destruct (Hk c' st' eq_refl). cbn in Hd1. split; [done|congruence].
Qed.

Lemma fold_execute_terminates {A} (f : A -> state -> option (res state)) l m :
  (forall x st, x ∈ l -> is_Some (f x st)) -> is_Some m -> is_Some (fold_left (fun m x => fbind m (f x)) l m).
Proof.
  revert m. induction l as [|x l IH]; cbn; intros m Hf Hm; [done|].
  apply IH; [intros; apply Hf; by right|]. destruct Hm as [[st|e] ->]; cbn; [apply Hf; left|by eexists].
Qed.

(** Fuel that is enough decides the result. *)
Definition le_fuel {A} (m m' : option A) : Prop := forall r, m = Some r -> m' = Some r.

Lemma fbind_le {A B} (m m' : option (res A)) (k k' : A -> option (res B)) :
  le_fuel m m' -> (forall a, le_fuel (k a) (k' a)) -> le_fuel (fbind m k) (fbind m' k').
Proof.
  intros Hm Hk r. destruct m as [x|] eqn:E; [|done]. rewrite (Hm x eq_refl).
  destruct x as [a|e]; [apply Hk|done].
Qed.

Lemma fold_execute_le {A} (f f' : A -> state -> option (res state)) l m m' :
  (forall x st, le_fuel (f x st) (f' x st)) -> le_fuel m m' ->
  le_fuel (fold_left (fun m x => fbind m (f x)) l m) (fold_left (fun m x => fbind m (f' x)) l m').
Proof.
  intros Hf. revert m m'. induction l as [|x l IH]; cbn; intros m m' Hm; [done|].
  apply IH, fbind_le; [done|]. intros st. apply Hf.
Qed.

Lemma notify_loop_le env fuel fuel' i c st :
  (fuel <= fuel')%nat -> le_fuel (notify_loop fuel env i c st) (notify_loop fuel' env i c st).
Proof.
  revert fuel' i c st. induction fuel as [|fuel IH]; intros fuel' i c st Hf r.
  - destruct fuel'; cbn [notify_loop]; by destruct (_notified c !! i) as [[? ?]|].
  - destruct fuel' as [|fuel']; [lia|]. cbn [notify_loop]. destruct (_notified c !! i) as [[? ?]|]; [|done].
    apply fbind_le; [by intros ?|]. intros [c1 st1]. apply IH. lia.
Qed.

Lemma execute_action_le env fuel fuel' levels levels' ordinal depth st :
  (fuel <= fuel')%nat -> (levels <= levels')%nat ->
  le_fuel (execute_action fuel env levels ordinal depth st) (execute_action fuel' env levels' ordinal depth st).
Proof.
  intros Hf. revert levels' ordinal depth st. induction levels as [|levels IH]; intros levels' ordinal depth st Hl; [done|].
  destruct levels' as [|levels']; [lia|]. cbn [execute_action].
  apply fbind_le; [by intros ?|]. intros [c0 st0]. unfold exec.
  apply fbind_le; [by intros ?|]. intros [c1 st1].
  apply fbind_le; [by apply notify_loop_le|]. intros [c2 st2].
  apply fbind_le; [by intros ?|]. intros _.
  do 2 (apply fold_execute_le; [intros; apply IH; lia|]). by intros ?.
Qed.

Section terminates.
Hypothesis max_inline_action_depth_u16 : forall w, max_inline_action_depth w < 2 ^ 16.

Lemma execute_action_terminates env fuel levels ordinal depth st :
  2 ^ 64 < Z.of_nat fuel -> 0 <= depth <= 2 ^ 16 -> 2 ^ 16 - depth < Z.of_nat levels ->
  is_Some (execute_action fuel env levels ordinal depth st).
Proof.
  intros Hf. revert ordinal depth st. induction levels as [|levels IH]; intros ordinal depth st Hd Hl; [lia|].
  cbn [execute_action]. destruct (new_apply_context ordinal depth st) as [[c st0]|] eqn:En; cbn [fbind]; [|by eexists].
  unfold new_apply_context in En. apply bind_Ok in En as (tr & _ & [= <- <-]). unfold exec.
  match goal with |- context [exec_one env ?c ?st] => destruct (exec_one env c st) as [[c1 st1]|] eqn:E1 end;
    cbn [fbind]; [|by eexists].
  apply exec_one_context in E1 as [Hok1 Hd1].
  2:{ exists (at_receiver tr), []. split_and!; [done|apply NoDup_singleton|constructor]. }
  destruct (notify_loop_terminates env fuel 1 c1 st1 Hok1) as ([[c2 st2]|e] & -> & Hk); [lia| |by eexists].
  cbn [fbind]. destruct (Hk c2 st2 eq_refl) as [Hok2 Hd2]. rewrite Hd1 in Hd2. cbn in Hd2.
  destruct (_ || _) eqn:En.
  - destruct (recurse_depth c2 <? max_inline_action_depth (world st2)) eqn:El; cbn; [|by eexists]. bool_to_Z.
    pose proof (max_inline_action_depth_u16 (world st2)).
    assert (forall o st', is_Some (execute_action fuel env levels o (u32 (recurse_depth c2 + 1)) st')) as Hex.
    { intros o st'. rewrite u32_small by lia. apply IH; lia. }
    by do 2 (apply fold_execute_terminates; [done|]).
  - apply orb_false_iff in En as [En1 En2]. apply bool_decide_eq_false in En1, En2.
    destruct (_cfa_inline_actions c2); [|by destruct En1].
    destruct (_inline_actions c2); [by eexists|by destruct En2].
Qed.

(** C17: Every transaction finishes, whatever its contracts do: within 2^16 levels of
    inline actions and 2^64 notifications of an action it returns or throws, and
    the result is the same for every larger bound. *)
Theorem trx_exec_terminates env apply_context_free context_free_actions actions st :
  exists r, forall fuel levels, 2 ^ 64 < Z.of_nat fuel -> 2 ^ 16 < Z.of_nat levels ->
    trx_exec fuel env levels apply_context_free context_free_actions actions st = Some r.
Proof.
  set (run fuel levels := trx_exec fuel env levels apply_context_free context_free_actions actions st).
  assert (forall fuel levels, 2 ^ 64 < Z.of_nat fuel -> 2 ^ 16 < Z.of_nat levels -> is_Some (run fuel levels)) as Hs.
  { intros fuel levels Hf Hl. apply fold_execute_terminates; [|by eexists].
    intros i st' _. apply execute_action_terminates; lia. }
  destruct (Hs (Z.to_nat (2 ^ 64 + 1)) (Z.to_nat (2 ^ 16 + 1))) as [r Hr]; [lia..|].
  exists r. intros fuel levels Hf Hl. revert Hr. apply fold_execute_le; [|by intros ?].
  intros i st'. apply execute_action_le; lia.
Qed.
End terminates.
End props.
