(* ===== verification/ActionTraces.v ===== *)
(** * Action traces and receipts of a transaction

    Every scheduled action is executed exactly once: when a transaction has run,
    each trace carries a receipt, and the digests recorded for the block are those
    of the receipts, in the order of their consecutive global sequence numbers.
    The ordinals give the tree of notifications and inline actions. *)

From S2P Require Import Prelude Exceptions Types Authority AuthorizationManager ContractTables.
From S2P Require Import AccessLists ActionExecution ActionExecutionProps.

(** ** Traces by ordinal *)

Definition at_ordinal (o : Z) (l : list action_trace) : option action_trace :=
  if 0 <? o then l !! Z.to_nat (o - 1) else None.

Notation zlength l := (Z.of_nat (length l)).
Notation at_closest := at_closest_unnotified_ancestor_action_ordinal.
Notation at_creator := at_creator_action_ordinal.

Lemma at_ordinal_range o l t : at_ordinal o l = Some t -> 1 <= o <= zlength l.
Proof. unfold at_ordinal. destruct (0 <? o) eqn:E; [|done]. intros H%lookup_lt_Some. bool_to_Z. lia. Qed.

Lemma at_ordinal_is_Some o l : 1 <= o <= zlength l -> is_Some (at_ordinal o l).
Proof. intros Ho. unfold at_ordinal. destruct (0 <? o) eqn:E; bool_to_Z; [|lia]. apply lookup_lt_is_Some. lia. Qed.

Lemma at_ordinal_app o l k : o <= zlength l -> at_ordinal o (l ++ k) = at_ordinal o l.
Proof. intros Ho. unfold at_ordinal. destruct (0 <? o) eqn:E; bool_to_Z; [|done]. apply lookup_app_l. lia. Qed.

Lemma at_ordinal_new l t : at_ordinal (zlength l + 1) (l ++ [t]) = Some t.
Proof.
  unfold at_ordinal. destruct (0 <? _) eqn:E; bool_to_Z; [|lia].
  rewrite lookup_app_r by lia. by replace (_ - _)%nat with 0%nat by lia.
Qed.

Lemma at_ordinal_snoc o l t t' :
  at_ordinal o (l ++ [t]) = Some t' -> at_ordinal o l = Some t' \/ (o = zlength l + 1 /\ t' = t).
Proof.
  intros H. pose proof (at_ordinal_range _ _ _ H) as Ho. rewrite length_app in Ho. cbn in Ho.
  destruct (decide (o = zlength l + 1)) as [->|?].
  - rewrite at_ordinal_new in H. right. split; [done|congruence].
  - left. rewrite <- H. symmetry. apply at_ordinal_app. lia.
Qed.

Lemma at_ordinal_insert o o' l t :
  1 <= o <= zlength l ->
  at_ordinal o' (<[Z.to_nat (o - 1) := t]> l) = if decide (o' = o) then Some t else at_ordinal o' l.
Proof.
  intros Ho. unfold at_ordinal. destruct (0 <? o') eqn:E; bool_to_Z.
  - case_decide; [subst; apply list_lookup_insert_eq; lia|]. apply list_lookup_insert_ne. lia.
  - case_decide; [lia|done].
Qed.

(** Everything but the results of running the action. *)
Definition shape (t : action_trace) : action_trace :=
  mk_trace (at_action_ordinal t) (at_creator t) (at_closest t) None (at_receiver t) (at_act t)
    (at_context_free t) [] [].

Lemma shape_at_ordinal o l l' t : shape <$> l = shape <$> l' -> at_ordinal o l = Some t ->
  exists t', at_ordinal o l' = Some t' /\ shape t' = shape t.
Proof.
  intros E. unfold at_ordinal. destruct (0 <? o); [|done]. intros H.
  assert ((shape <$> l') !! Z.to_nat (o - 1) = Some (shape t)) as H' by (rewrite <- E, list_lookup_fmap, H; done).
  rewrite list_lookup_fmap in H'. destruct (l' !! _) as [t'|]; [|done]. apply (inj Some) in H'. by exists t'.
Qed.

(** ** The tree of actions *)

Definition first_receiver (t : action_trace) : Prop := at_receiver t = act_account (at_act t).

(** A trace is an action of the transaction, or it was created while the action of
    the trace [closest] ran: by that action's first receiver or by an account it
    notified.  It is then an inline action, or the same action for another
    receiver. *)
Definition trace_wf (l : list action_trace) (o : Z) (t : action_trace) : Prop :=
  at_action_ordinal t = o /\
  (at_creator t = 0 /\ at_closest t = 0 /\ first_receiver t \/
   exists ct f, at_ordinal (at_creator t) l = Some ct /\ at_ordinal (at_closest t) l = Some f /\
     at_closest t <= at_creator t < o /\ first_receiver f /\ at_act ct = at_act f /\
     (at_creator t = at_closest t \/ ~ first_receiver ct /\ at_closest ct = at_closest t) /\
     (first_receiver t \/ at_act t = at_act ct)).

(** No account is notified of an action twice. *)
Definition notified_once (l : list action_trace) : Prop := forall o o' t t',
  at_ordinal o l = Some t -> at_ordinal o' l = Some t' -> ~ first_receiver t -> ~ first_receiver t' ->
  at_closest t = at_closest t' -> at_receiver t = at_receiver t' -> o = o'.

Record traces_wf (l : list action_trace) : Prop := {
  tw_trace : forall o t, at_ordinal o l = Some t -> trace_wf l o t;
  tw_once : notified_once l }.

Ltac shape_eqs H := injection H as ? ? ? ? ? ?.

Lemma traces_wf_shape l l' : shape <$> l = shape <$> l' -> traces_wf l -> traces_wf l'.
Proof.
  intros E [Ht Ho]. unfold first_receiver in *. split.
  - intros o t' H'. destruct (shape_at_ordinal o l' l t' (eq_sym E) H') as (t & H & Es). shape_eqs Es.
    destruct (Ht o t H) as [? [(? & ? & ?)|(ct & f & Hc & Hf & ? & ? & ? & ? & ?)]]; split; try congruence.
    + left. unfold first_receiver in *. split_and!; congruence.
    + right. destruct (shape_at_ordinal _ l l' _ E Hc) as (ct' & Hc' & Ec).
      destruct (shape_at_ordinal _ l l' _ E Hf) as (f' & Hf' & Ef). shape_eqs Ec. shape_eqs Ef.
      exists ct', f'. unfold first_receiver in *. split_and!; try congruence; lia.
  - intros o1 o2 t1' t2' H1' H2'. destruct (shape_at_ordinal o1 l' l t1' (eq_sym E) H1') as (t1 & H1 & E1).
    destruct (shape_at_ordinal o2 l' l t2' (eq_sym E) H2') as (t2 & H2 & E2). shape_eqs E1. shape_eqs E2.
    intros. apply (Ho o1 o2 t1 t2); unfold first_receiver in *; congruence.
Qed.

Lemma trace_wf_app l k o t : at_ordinal o l = Some t -> trace_wf l o t -> trace_wf (l ++ k) o t.
Proof.
  intros _ [? [?|(ct & f & Hc & Hf & ?)]]; split; [done|by left|done|]. right. exists ct, f.
  pose proof (at_ordinal_range _ _ _ Hc). pose proof (at_ordinal_range _ _ _ Hf).
  rewrite !at_ordinal_app by lia. done.
Qed.

(** Scheduling an action keeps the tree. *)
Lemma traces_wf_snoc l t :
  traces_wf l -> trace_wf l (zlength l + 1) t ->
  (~ first_receiver t -> forall o' t', at_ordinal o' l = Some t' -> ~ first_receiver t' ->
     at_closest t' = at_closest t -> at_receiver t' <> at_receiver t) ->
  traces_wf (l ++ [t]).
Proof.
  intros [Ht Ho] Hnew Honce. split.
  - intros o t' [H|[-> ->]]%at_ordinal_snoc; [by apply trace_wf_app; [|apply Ht]|].
    destruct Hnew as [? [?|(ct & f & Hc & Hf & ?)]]; split; [done|by left|done|]. right. exists ct, f.
    pose proof (at_ordinal_range _ _ _ Hc). pose proof (at_ordinal_range _ _ _ Hf).
    rewrite !at_ordinal_app by lia. done.
  - intros o1 o2 t1 t2 [H1|[-> ->]]%at_ordinal_snoc [H2|[-> ->]]%at_ordinal_snoc Hn1 Hn2 Hc Hr; [by eapply Ho| | |done].
    + by destruct (Honce Hn2 o1 t1 H1 Hn1 Hc).
    + by destruct (Honce Hn1 o2 t2 H2 Hn2 (eq_sym Hc)).
Qed.

(** No action but [exempt] has created anything before it has its receipt. *)
Definition unspawned (exempt : Z) (l : list action_trace) : Prop := forall o t,
  at_ordinal o l = Some t -> at_receipt t = None -> o <> exempt ->
  forall o' t', at_ordinal o' l = Some t' -> at_closest t' <> o.

Lemma unspawned_snoc exempt l t :
  traces_wf l -> unspawned exempt l -> at_closest t <= zlength l ->
  (forall f, at_ordinal (at_closest t) l = Some f -> at_receipt f = None -> at_closest t = exempt) ->
  unspawned exempt (l ++ [t]).
Proof.
  intros Hwf Hu Hle Hcl o u Hou Hn Hx o' t' Ho' E. subst o.
  apply at_ordinal_snoc in Hou as [Hou|[Eo ->]], Ho' as [Ho'|[-> ->]].
  - by eapply (Hu _ u Hou Hn Hx).
  - by apply Hx, (Hcl u).
  - destruct (tw_trace _ Hwf _ _ Ho') as [_ [(_ & E & _)|(ct & f & _ & Hf & _)]]; [lia|].
    apply at_ordinal_range in Hf. lia.
  - lia.
Qed.

Lemma unspawned_insert exempt exempt' l o t t' :
  at_ordinal o l = Some t -> shape t' = shape t -> is_Some (at_receipt t') -> (exempt = exempt' \/ exempt = o) ->
  unspawned exempt l -> unspawned exempt' (<[Z.to_nat (o - 1) := t']> l).
Proof.
  intros Ho Es [r Hr] Hx Hu o1 u1 H1 Hn Hne o2 u2 H2. pose proof (at_ordinal_range _ _ _ Ho).
  assert (at_closest t' = at_closest t) as Ec by (by shape_eqs Es). clear Es.
  rewrite at_ordinal_insert in H1, H2 by done. destruct (decide (o1 = o)) as [E1|E1]; [simplify_eq; congruence|].
  destruct (decide (o2 = o)) as [E2|E2]; [|by apply (Hu o1 u1 H1 Hn ltac:(destruct Hx; congruence) o2 u2)]. simplify_eq.
  rewrite Ec. by apply (Hu o1 u1 H1 Hn ltac:(destruct Hx; congruence) o t).
Qed.

Lemma shape_insert l o t t' : at_ordinal o l = Some t -> shape t' = shape t ->
  shape <$> <[Z.to_nat (o - 1) := t']> l = shape <$> l.
Proof.
  intros Ho Es. rewrite list_fmap_insert, Es. apply list_insert_id.
  unfold at_ordinal in Ho. destruct (0 <? o); [|done]. by rewrite list_lookup_fmap, Ho.
Qed.

(** ** The receipts *)

Definition executed (t : action_trace) : Prop := is_Some (at_receipt t).
#[global] Instance executed_dec t : Decision (executed t).
Proof. unfold executed. apply _. Defined.

Lemma executed_insert l o t t' :
  at_ordinal o l = Some t -> ~ executed t -> executed t' ->
  filter executed (<[Z.to_nat (o - 1) := t']> l) ≡ₚ filter executed l ++ [t'].
Proof.
  intros Ho Hn Hr. unfold at_ordinal in Ho. destruct (0 <? o); [|done].
  rewrite <- (take_drop_middle l _ _ Ho) at 2. rewrite insert_take_drop by (by apply lookup_lt_Some in Ho).
  rewrite !filter_app, filter_cons_True, filter_cons_False by done. solve_Permutation.
Qed.

Section ledger.
Context {W call reply : Type} `{!ActionWorld W call reply}.
Context (env : @exec_env call reply) (g0 : Z).
Notation state := (@trx_state W).
Implicit Types (c : apply_context) (st : state).

(** The numbers [n] consecutive calls of [next_global_sequence] return. *)
Definition global_sequences (n : nat) : list Z :=
  if trx_read_only env then replicate n 0 else (fun k => u64 (g0 + k)) <$> seqZ 1 (Z.of_nat n).

(** The digests are those of the receipts of the traces, in the order of
    execution [ts]; [K] relates the world to that order. *)
Definition ledger (K : W -> list action_trace -> Prop) st : Prop := exists ts,
  ts ≡ₚ filter executed (action_traces st) /\
  executed_action_receipt_digests st = receipt_digest env <$> omap at_receipt ts /\
  r_global_sequence <$> omap at_receipt ts = global_sequences (length ts) /\
  u64 (global_action_sequence st) = u64 (if trx_read_only env then g0 else g0 + zlength ts) /\
  K (world st) ts.

Lemma global_sequences_S n :
  global_sequences (S n) =
  global_sequences n ++ [if trx_read_only env then 0 else u64 (g0 + Z.of_nat n + 1)].
Proof.
  unfold global_sequences. destruct (trx_read_only env); [apply replicate_S_end|].
  rewrite seqZ_S, fmap_app. cbn. do 3 f_equal. lia.
Qed.

Lemma u64_succ a b : u64 a = u64 b -> u64 (a + 1) = u64 (b + 1).
Proof. unfold u64. intros E. by rewrite Zplus_mod, E, <- Zplus_mod. Qed.

(** What holds while actions run ([J]) and between them ([Jq]), for any such pair
    that the operations of the world keep. *)
Context (J Jq : W -> list action_trace -> Prop).
Hypothesis J_rest : forall w ts, Jq w ts -> J w ts.
Hypothesis J_open : forall w ts, Jq w ts -> J (open_context w) ts.
Hypothesis J_move : forall w w' ts, world_move w w' -> J w ts -> J w' ts.
Hypothesis J_meta : forall w w' ts, meta_step w w' -> J w ts -> J w' ts.
Hypothesis J_clear : forall w ts t, J w ts -> at_account_ram_deltas t = ram_deltas w ->
  Jq (clear_ram_deltas w) (ts ++ [t]).

Lemma ledger_same (K K' : W -> list action_trace -> Prop) st st' :
  filter executed (action_traces st') = filter executed (action_traces st) ->
  executed_action_receipt_digests st' = executed_action_receipt_digests st ->
  global_action_sequence st' = global_action_sequence st ->
  (forall ts, K (world st) ts -> K' (world st') ts) -> ledger K st -> ledger K' st'.
Proof. unfold ledger. intros -> -> -> HK (ts & ? & ? & ? & ? & ?). exists ts. auto 10. Qed.

Lemma ledger_steps (p p' : apply_context * state) : rtc host_step p p' -> ledger J p.2 -> ledger J p'.2.
Proof.
  induction 1 as [|p p1 p' Hs _ IH]; [done|]. intros H. apply IH. revert H.
  destruct Hs; cbn; apply ledger_same; cbn; rewrite ?filter_app; try done;
    try (rewrite filter_cons_False by (by intros [? ?]); apply app_nil_r). eauto.
Qed.

Lemma J_metas w w' ts : rtc meta_step w w' -> J w ts -> J w' ts.
Proof. induction 1; eauto. Qed.

Lemma ledger_complete c st st' tr r deltas :
  completes env c st st' tr r deltas -> at_ordinal (action_ordinal c) (action_traces st) = Some tr ->
  at_receipt tr = None -> ledger J st -> ledger Jq st'.
Proof.
  intros [] Ho Hn (ts & Hp & Hd & Hs & Hg & HJ). destruct cp_world as (w & Hw & Ew & Ed).
  set (t' := completed tr r deltas (action_return_value c)) in cp_traces.
  exists (ts ++ [t']). rewrite cp_traces, cp_digests, omap_app, length_app. cbn [omap list_omap at_receipt completed t'].
  split_and!.
  - rewrite Hp. symmetry. eapply executed_insert; [done|unfold executed; rewrite Hn; by intros []|by eexists].
  - by rewrite fmap_app, Hd.
  - rewrite fmap_app, Hs, Nat.add_1_r, global_sequences_S. f_equal. cbn. f_equal.
    rewrite cp_sequence. unfold next_global. destruct (trx_read_only env); [done|]. by apply u64_succ.
  - rewrite cp_global. unfold next_global. destruct (trx_read_only env); [done|].
    rewrite Nat2Z.inj_add. cbn. rewrite Z.add_assoc, (u64_small (u64 _)) by apply u64_range. by apply u64_succ.
  - rewrite Ew. apply J_clear; [by eapply J_metas|done].
Qed.

(** ** A running action *)

(** The context of the action with ordinal [f], started with traces [l0], of which
    the first [ran] receivers have run: what it has scheduled, and which of that
    carries a receipt. *)
Record running (f : Z) (l0 : list action_trace) (ran : nat) c st : Prop := {
  ru_wf : traces_wf (action_traces st);
  ru_unspawned : unspawned (if decide (ran = 0%nat) then f else 0) (action_traces st);
  ru_first : first_receiver_action_ordinal c = f;
  ru_base : 1 <= f <= zlength l0 /\ zlength l0 <= zlength (action_traces st);
  ru_old : forall o, o <= zlength l0 -> o <> f -> at_ordinal o (action_traces st) = at_ordinal o l0;
  ru_head : exists tf, at_ordinal f (action_traces st) = Some tf /\ first_receiver tf /\
    ac_act c = at_act tf /\ head (_notified c) = Some (at_receiver tf, f);
  ru_shape : shape <$> at_ordinal f (action_traces st) = shape <$> at_ordinal f l0;
  ru_notified : forall r o, (r, o) ∈ _notified c -> exists t, at_ordinal o (action_traces st) = Some t /\
    at_receiver t = r /\ at_act t = ac_act c /\ (o = f \/ ~ first_receiver t /\ at_closest t = f);
  ru_complete : forall o t, at_ordinal o (action_traces st) = Some t -> at_closest t = f ->
    ~ first_receiver t -> at_receiver t ∈ (_notified c).*1;
  ru_nodup : NoDup (_notified c).*1;
  ru_ran : (ran <= length (_notified c))%nat;
  ru_new : seqZ (zlength l0 + 1) (zlength (action_traces st) - zlength l0) ≡ₚ
    (tail (_notified c)).*2 ++ _inline_actions c ++ _cfa_inline_actions c;
  ru_inline : forall o, o ∈ _inline_actions c ++ _cfa_inline_actions c -> exists t,
    at_ordinal o (action_traces st) = Some t /\ first_receiver t;
  ru_receipts : forall o t, at_ordinal o (action_traces st) = Some t -> o = f \/ zlength l0 < o ->
    is_Some (at_receipt t) <-> o ∈ take ran (_notified c).*2 }.

Lemma get_action_trace_Ok o st t :
  get_action_trace o st = Ok t <-> at_ordinal o (action_traces st) = Some t.
Proof.
  unfold get_action_trace, at_ordinal. split.
  - intros (_ & [Hx _]%sys_assert_Ok%andb_true_iff & H%of_option_Ok)%bind_Ok. by rewrite Hx.
  - intros H. pose proof (at_ordinal_range o _ t H). destruct (0 <? o) eqn:E; [|done]. cbn.
    destruct (o <=? _) eqn:E2; bool_to_Z; [|lia]. cbn. by rewrite H.
Qed.

(** The new trace of a step: of an inline action or of a notification. *)
Record spawns c st (t : action_trace) : Prop := {
  sp_shape : t = fresh_trace (at_act t) (at_receiver t) (at_context_free t) c st;
  sp_kind : first_receiver t \/ at_act t = ac_act c /\ at_receiver t ∉ (_notified c).*1 }.

Lemma running_spawn f l0 ran c st t :
  running f l0 ran c st -> (ac_receiver c, action_ordinal c) ∈ _notified c ->
  zlength (action_traces st) + 1 < 2 ^ 32 -> spawns c st t ->
  let l := action_traces st ++ [t] in
  traces_wf l /\ unspawned (if decide (ran = 0%nat) then f else 0) l /\
  at_action_ordinal t = zlength (action_traces st) + 1 /\ at_closest t = f /\ at_receipt t = None.
Proof.
  intros [] Hcur Hlen [Hsh Hk] l. pose proof ru_base0 as [? ?].
  destruct (ru_notified0 _ _ Hcur) as (ct & Hct & Hrc & Hac & Hcl). destruct ru_head0 as (tf & Htf & Hff & Hact & Hhd).
  assert (at_action_ordinal t = zlength (action_traces st) + 1) as Ho.
  { rewrite Hsh. cbn. apply u32_small. lia. }
  assert (at_creator t = action_ordinal c) as Hcr by (by rewrite Hsh).
  assert (at_closest t = f) as Hc by (by rewrite Hsh).
  assert (at_receipt t = None) as Hn by (by rewrite Hsh). clear Hsh.
  pose proof (at_ordinal_range _ _ _ Hct) as Hr1. split_and!; try done.
  - apply traces_wf_snoc; [done|split; [done|right]|].
    + exists ct, tf. rewrite Hcr, Hc. split_and!; try done; try lia; try congruence.
      * destruct Hcl as [->|[_ E]]; [lia|]. destruct (tw_trace _ ru_wf0 _ _ Hct) as [_ [(_ & ? & _)|(? & ? & _ & _ & ? & _)]]; lia.
      * destruct Hk as [?|[? _]]; [by left|right; congruence].
    + intros Hnf o' t' Ho' Hf' Ec Er. destruct Hk as [|[_ Hnot]]; [done|]. apply Hnot. rewrite <- Er.
      apply (ru_complete0 o' t'); [done|congruence|done].
  - apply unspawned_snoc; [done..|lia|]. intros f' Hf' Hnone. rewrite Hc in Hf' |- *. assert (f' = tf) as -> by congruence.
    case_decide as Hr; [done|]. exfalso. destruct (proj2 (ru_receipts0 f tf Htf (or_introl eq_refl))) as [? ?]; [|congruence].
    destruct (_notified c) as [|[r o] rest]; [done|]. destruct ran; [done|]. cbn in Hhd |- *. injection Hhd as -> ->. left.
Qed.

Definition current c : Prop := (ac_receiver c, action_ordinal c) ∈ _notified c.

Lemma running_take f l0 ran c st ns :
  running f l0 ran c st -> take ran (_notified c ++ ns).*2 = take ran (_notified c).*2.
Proof. intros H. rewrite fmap_app, take_app_le; [done|]. rewrite length_fmap. apply (ru_ran _ _ _ _ _ H). Qed.

Lemma take_notified n c o : o ∈ take n (_notified c).*2 -> exists r, (r, o) ∈ _notified c.
Proof.
  intros (i & Hi & _)%elem_of_take. apply list_elem_of_lookup_2, list_elem_of_fmap in Hi as ([r o'] & -> & Hin). eauto.
Qed.

Lemma running_spawned f l0 ran c st t c' ns :
  running f l0 ran c st -> current c -> zlength (action_traces st) + 1 < 2 ^ 32 -> spawns c st t ->
  first_receiver_action_ordinal c' = f -> ac_act c' = ac_act c -> _notified c' = _notified c ++ ns ->
  (ns = [] /\ first_receiver t \/
   ns = [(at_receiver t, at_action_ordinal t)] /\ at_act t = ac_act c /\ at_receiver t ∉ (_notified c).*1) ->
  (tail (_notified c)).*2 ++ _inline_actions c ++ _cfa_inline_actions c ++ [at_action_ordinal t] ≡ₚ
    (tail (_notified c')).*2 ++ _inline_actions c' ++ _cfa_inline_actions c' ->
  (forall o, o ∈ _inline_actions c' ++ _cfa_inline_actions c' ->
     o ∈ _inline_actions c ++ _cfa_inline_actions c \/ o = at_action_ordinal t /\ first_receiver t) ->
  running f l0 ran c' (with_trace t st).
Proof.
  intros Hrun Hcur Hlen Hsp Hf Hact Hnot Hns Hperm Hinl.
  destruct (running_spawn f l0 ran c st t Hrun Hcur Hlen Hsp) as (Hwf & Hun & Ho & Hcl & Hnone).
  pose proof (running_take _ _ _ _ _ ns Hrun) as Htake. destruct Hrun. pose proof ru_base0 as [? ?].
  destruct ru_head0 as (tf & Htf & Hff & Hatf & Hhd).
  assert (forall o u, at_ordinal o (action_traces st) = Some u -> at_ordinal o (action_traces st ++ [t]) = Some u) as Hmono.
  { intros o u Hu. rewrite at_ordinal_app; [done|]. apply at_ordinal_range in Hu. lia. }
  rewrite Hnot in Hperm. split; cbn; try done; rewrite ?Hnot.
  - rewrite length_app. cbn. lia.
  - intros o Hle Hne. rewrite at_ordinal_app by lia. auto.
  - exists tf. split_and!; [auto|done|congruence|]. by destruct (_notified c).
  - rewrite at_ordinal_app by lia. done.
  - intros r o [Hin|Hin]%elem_of_app.
    + destruct (ru_notified0 r o Hin) as (u & ? & ? & ? & ?). exists u. rewrite Hact. auto.
    + destruct Hns as [[-> _]|(-> & Ha & Hr)]; [by apply elem_of_nil in Hin|].
      apply list_elem_of_singleton in Hin as [= -> ->]. exists t. rewrite Ho, at_ordinal_new.
      split_and!; [done..|congruence|]. right. split; [|done]. unfold first_receiver in *. intros E. apply Hr.
      rewrite E, Ha, Hatf, <- Hff. destruct (_notified c) as [|[? ?] ?]; [done|]. cbn in *. simplify_eq. left.
  - intros o u [Hu|[-> ->]]%at_ordinal_snoc Hu1 Hu2; rewrite fmap_app, elem_of_app; [left; by apply (ru_complete0 o u)|].
    right. destruct Hns as [[_ ?]|(-> & _)]; [done|]. left.
  - destruct Hns as [[-> _]|(-> & _ & Hr)]; rewrite ?app_nil_r; [done|]. rewrite fmap_app.
    apply NoDup_app. split_and!; [done| |apply NoDup_singleton]. by intros x Hx ->%list_elem_of_singleton.
  - rewrite length_app. lia.
  - rewrite <- Hperm, length_app, Nat2Z.inj_add.
    replace (_ + Z.of_nat _ - _) with (Z.of_nat (S (length (action_traces st) - length l0))) by (cbn; lia).
    rewrite seqZ_S.
    replace (zlength l0 + 1 + Z.of_nat (length (action_traces st) - length l0)) with (at_action_ordinal t) by lia.
    replace (Z.of_nat (_ - _)) with (zlength (action_traces st) - zlength l0) by lia.
    by rewrite ru_new0, <- !app_assoc.
  - intros o [(u & ? & ?)%ru_inline0|[-> ?]]%Hinl; [exists u; auto|]. exists t. by rewrite Ho, at_ordinal_new.
  - rewrite Htake. intros o u [Hu|[-> ->]]%at_ordinal_snoc Hor; [by apply ru_receipts0|]. rewrite Hnone.
    split; [by intros [? ?]|]. intros (r & Hin)%take_notified. exfalso.
    destruct (ru_notified0 r _ Hin) as (u & Hu%at_ordinal_range & _). lia.
Qed.

(** A context that differs only in what [running] does not mention. *)
Lemma running_local f l0 ran c st c' st' :
  first_receiver_action_ordinal c' = first_receiver_action_ordinal c -> ac_act c' = ac_act c ->
  _notified c' = _notified c -> _inline_actions c' = _inline_actions c ->
  _cfa_inline_actions c' = _cfa_inline_actions c ->
  action_traces st' = action_traces st ->
  running f l0 ran c st -> running f l0 ran c' st'.
Proof. intros E1 E2 E3 E4 E5 E6 []. by split; rewrite ?E1, ?E2, ?E3, ?E4, ?E5, ?E6. Qed.

Lemma running_reread f l0 ran c st t tr :
  running f l0 ran c st -> current c ->
  get_action_trace (action_ordinal c) (with_trace t st) = Ok tr ->
  at_act tr = ac_act c /\
  forall tr0, get_action_trace (action_ordinal c) st = Ok tr0 -> at_act tr0 = ac_act c.
Proof.
  intros [] Hcur Htr%get_action_trace_Ok. destruct (ru_notified0 _ _ Hcur) as (u & Hu & _ & Ha & _). cbn in Htr.
  rewrite at_ordinal_app in Htr by (apply at_ordinal_range in Hu; lia).
  split; [congruence|]. intros tr0 H0%get_action_trace_Ok. congruence.
Qed.

Lemma running_step f l0 ran c st c' st' :
  host_step (c, st) (c', st') -> zlength (action_traces st') < 2 ^ 32 ->
  running f l0 ran c st -> current c -> running f l0 ran c' st' /\ current c'.
Proof.
  intros Hs Hlen Hrun Hcur. pose proof (ru_first _ _ _ _ _ Hrun) as Hf.
  inversion Hs as [| ? ? r a tr Hr Hu (tr0 & H0 & Ha) Htr | ? ? a tr Htr | ? ? a tr Htr]; subst c' st'; subst;
    try (destruct (running_reread _ _ _ _ _ _ _ Hrun Hcur Htr) as [Hact Hold]; cbn in Hlen; rewrite length_app in Hlen; cbn in Hlen).
  - split; [by apply (running_local _ _ _ c st)|done].
  - split; [|apply elem_of_app; by left]. rewrite Hact.
    apply (running_spawned _ _ _ c _ _ _ [(r, at_action_ordinal (fresh_trace (at_act tr0) r false c st))]); try done; [lia|..].
    + split; [done|]. right. split; [exact (Hold _ H0)|done].
    + right. split_and!; [done|exact (Hold _ H0)|done].
    + cbn. destruct (ru_head _ _ _ _ _ Hrun) as (? & _ & _ & _ & Hhd). destruct (_notified c) as [|p0 rest]; [done|].
      cbn. rewrite fmap_app. cbn. solve_Permutation.
    + by left.
  - split; [|done]. rewrite Hact. apply (running_spawned _ _ _ c _ _ _ []); try done; [lia|..].
    + split; [done|by left].
    + cbn. by rewrite app_nil_r.
    + left. by split.
    + cbn. solve_Permutation.
    + cbn. intros o. rewrite !elem_of_app, list_elem_of_singleton. naive_solver.
  - split; [|done]. rewrite Hact. apply (running_spawned _ _ _ c _ _ _ []); try done; [lia|..].
    + split; [done|by left].
    + cbn. by rewrite app_nil_r.
    + left. by split.
    + cbn. intros o. rewrite !elem_of_app, list_elem_of_singleton. naive_solver.
Qed.

Lemma host_steps_grow (p p' : apply_context * state) : rtc host_step p p' -> zlength (action_traces p.2) <= zlength (action_traces p'.2).
Proof.
  induction 1 as [|p p1 p' Hs _ IH]; [done|]. etrans; [|exact IH].
  destruct Hs; cbn; rewrite ?length_app; lia.
Qed.

Lemma running_steps f l0 ran (p p' : apply_context * state) :
  rtc host_step p p' -> zlength (action_traces p'.2) < 2 ^ 32 ->
  running f l0 ran p.1 p.2 -> current p.1 -> running f l0 ran p'.1 p'.2 /\ current p'.1.
Proof.
  induction 1 as [|[c st] [c1 st1] p' Hs Hss IH]; [done|]. intros Hlen Hrun Hcur. cbn in *.
  destruct (running_step f l0 ran c st c1 st1 Hs) as [? ?]; [|done..|by apply IH].
  apply host_steps_grow in Hss. cbn in Hss. lia.
Qed.

Lemma host_steps_prefix (p p' : apply_context * state) : rtc host_step p p' ->
  ac_receiver p'.1 = ac_receiver p.1 /\ action_ordinal p'.1 = action_ordinal p.1 /\
  exists k, _notified p'.1 = _notified p.1 ++ k.
Proof.
  induction 1 as [|p p1 p' Hs _ (-> & -> & k & ->)].
  - split_and!; [done..|]. exists []. by rewrite app_nil_r.
  - destruct Hs; cbn; (split_and!; [done..|]); eauto. rewrite <- app_assoc. eauto.
Qed.

Lemma running_ordinals f l0 ran c st : running f l0 ran c st ->
  NoDup (_notified c).*2 /\ forall o, o ∈ (_notified c).*2 -> o = f \/ zlength l0 < o.
Proof.
  intros []. split.
  - apply NoDup_alt. intros i j o Hi Hj. rewrite list_lookup_fmap in Hi, Hj.
    destruct (_notified c !! i) as [[r o1]|] eqn:Ei, (_notified c !! j) as [[r' o2]|] eqn:Ej; [|done..].
    cbn in Hi, Hj. simplify_eq.
    destruct (ru_notified0 _ _ (list_elem_of_lookup_2 _ _ _ Ei)) as (u & Hu & Hr & _).
    destruct (ru_notified0 _ _ (list_elem_of_lookup_2 _ _ _ Ej)) as (u' & Hu' & Hr' & _).
    apply (NoDup_lookup (_notified c).*1 i j r ru_nodup0); rewrite list_lookup_fmap, ?Ei, ?Ej; cbn; congruence.
  - destruct ru_head0 as (tf & _ & _ & _ & Hhd). intros o Ho.
    destruct (_notified c) as [|[r0 o0] rest]; [done|]. cbn in *. simplify_eq.
    apply elem_of_cons in Ho as [->|Ho]; [by left|right].
    assert (o ∈ seqZ (zlength l0 + 1) (zlength (action_traces st) - zlength l0)) as Hin%elem_of_seqZ; [|lia].
    rewrite ru_new0. apply elem_of_app. by left.
Qed.

Lemma running_pending f l0 ran c st st' tr r deltas :
  completes env c st st' tr r deltas -> _notified c !! ran = Some (ac_receiver c, action_ordinal c) ->
  running f l0 ran c st ->
  at_ordinal (action_ordinal c) (action_traces st) = Some tr /\ at_receipt tr = None.
Proof.
  intros Hcp Hran Hrun. pose proof (running_ordinals _ _ _ _ _ Hrun) as [Hnd Hpos].
  pose proof (cp_trace _ _ _ _ _ _ _ Hcp) as Htr%get_action_trace_Ok. split; [done|].
  assert ((_notified c).*2 !! ran = Some (action_ordinal c)) as Hlk by (by rewrite list_lookup_fmap, Hran).
  apply eq_None_not_Some. rewrite (ru_receipts _ _ _ _ _ Hrun _ _ Htr) by (eapply Hpos, list_elem_of_lookup_2, Hlk).
  intros (i & Hi & Hlt)%elem_of_take. rewrite (NoDup_lookup _ _ _ _ Hnd Hi Hlk) in Hlt. lia.
Qed.

Lemma running_complete f l0 ran c st st' tr r deltas :
  completes env c st st' tr r deltas -> _notified c !! ran = Some (ac_receiver c, action_ordinal c) ->
  running f l0 ran c st -> running f l0 (S ran) c st'.
Proof.
  intros Hcp Hran Hrun. pose proof (running_ordinals _ _ _ _ _ Hrun) as [Hnd Hpos].
  destruct (running_pending _ _ _ _ _ _ _ _ _ Hcp Hran Hrun) as [Htr Hnone].
  assert ((_notified c).*2 !! ran = Some (action_ordinal c)) as Hlk by (by rewrite list_lookup_fmap, Hran).
  pose proof (cp_traces _ _ _ _ _ _ _ Hcp) as Hts. set (t' := completed tr r deltas (action_return_value c)) in Hts.
  assert (shape t' = shape tr) as Hsh by done. pose proof (at_ordinal_range _ _ _ Htr) as Hrg.
  pose proof (shape_insert _ _ _ _ Htr Hsh) as Hshapes. rewrite <- Hts in Hshapes.
  assert (forall o, at_ordinal o (action_traces st') =
            if decide (o = action_ordinal c) then Some t' else at_ordinal o (action_traces st)) as Hat.
  { intros o. rewrite Hts. by apply at_ordinal_insert. }
  assert (length (action_traces st') = length (action_traces st)) as Hlen by (by rewrite Hts, length_insert).
  destruct Hrun. split; rewrite ?Hlen; try done.
  - by eapply traces_wf_shape.
  - rewrite Hts. eapply unspawned_insert; [done..| |done].
    destruct (decide (ran = 0%nat)) as [E|E]; [|by left]. subst ran. right. destruct ru_head0 as (? & _ & _ & _ & Hhd).
    destruct (_notified c) as [|[? ?] ?]; [done|]. cbn in *. simplify_eq. done.
  - intros o Hle Hne. rewrite Hat. destruct (decide (o = _)) as [E|E]; [|by apply ru_old0]. exfalso. subst o.
    destruct (Hpos (action_ordinal c)); [by eapply list_elem_of_lookup_2|lia..].
  - destruct ru_head0 as (tf & Htf & Hff & Ha & Hhd). rewrite Hat. destruct (decide (f = _)) as [E|E]; [|by exists tf].
    subst f. exists t'. assert (tf = tr) as -> by congruence. done.
  - rewrite <- ru_shape0, Hat. destruct (decide (f = _)) as [->|?]; [by rewrite Htr|done].
  - intros r1 o1 Hin. destruct (ru_notified0 r1 o1 Hin) as (u & Hu & ? & ? & ?). rewrite Hat. destruct (decide (o1 = _)) as [E|E]; [|by exists u].
    subst o1. assert (u = tr) as -> by congruence. by exists t'.
  - intros o u Hu Hc Hn. destruct (shape_at_ordinal o _ _ u Hshapes Hu) as (u0 & Hu0 & Es). shape_eqs Es.
    replace (at_receiver u) with (at_receiver u0) by congruence. apply (ru_complete0 o u0); [done|congruence|].
    unfold first_receiver in *. congruence.
  - apply lookup_lt_Some in Hran. lia.
  - intros o (u & Hu & Hf)%ru_inline0. rewrite Hat. destruct (decide (o = _)) as [->|E]; [|by exists u].
    assert (u = tr) as -> by congruence. by exists t'.
  - intros o u Hu Hor. rewrite (take_S_r _ _ _ Hlk), elem_of_app, list_elem_of_singleton. rewrite Hat in Hu.
    destruct (decide (o = _)) as [E|E]; [simplify_eq; split; [by right|by eexists]|]. rewrite (ru_receipts0 o u Hu Hor). naive_solver.
Qed.

Lemma exec_one_grows c st c' st' :
  exec_one env c st = Ok (c', st') -> zlength (action_traces st) <= zlength (action_traces st').
Proof.
  intros (st1 & tr & r & deltas & Hs%host_steps_grow & Hcp)%exec_one_effect.
  rewrite (cp_traces _ _ _ _ _ _ _ Hcp), length_insert. exact Hs.
Qed.

Lemma exec_one_running f l0 ran c st c' st' :
  exec_one env c st = Ok (c', st') -> zlength (action_traces st') < 2 ^ 32 ->
  _notified c !! ran = Some (ac_receiver c, action_ordinal c) ->
  running f l0 ran c st -> ledger J st -> running f l0 (S ran) c' st' /\ ledger Jq st'.
Proof.
  intros (st1 & tr & r & deltas & Hs & Hcp)%exec_one_effect Hlen Hran Hrun Hled.
  destruct (host_steps_prefix _ _ Hs) as (Er & Eo & k & En). cbn in Er, Eo, En.
  assert (_notified c' !! ran = Some (ac_receiver c', action_ordinal c')) as Hran'
    by (rewrite En, Er, Eo; by apply lookup_app_l_Some).
  assert (running f l0 ran c' st1) as Hrun1.
  { apply (running_steps f l0 ran _ _ Hs); [|done|by eapply list_elem_of_lookup_2].
    by rewrite (cp_traces _ _ _ _ _ _ _ Hcp), length_insert in Hlen. }
  destruct (running_pending _ _ _ _ _ _ _ _ _ Hcp Hran' Hrun1) as [Htr Hnone].
  split; [by eapply running_complete|]. eapply ledger_complete; [done..|]. by apply (ledger_steps _ _ Hs).
Qed.

Lemma notify_loop_grows fuel i c st c' st' :
  notify_loop fuel env i c st = Some (Ok (c', st')) ->
  zlength (action_traces st) <= zlength (action_traces st').
Proof.
  revert i c st. induction fuel as [|fuel IH]; intros i c st; cbn [notify_loop];
    (destruct (_notified c !! i) as [[r o]|]; [|by intros [= <- <-]]); [done|].
  destruct (exec_one env _ st) as [[c1 st1]|] eqn:E; cbn [fbind]; [|done].
  intros H%IH. apply exec_one_grows in E. lia.
Qed.

Lemma notify_loop_running f l0 fuel i c st c' st' :
  notify_loop fuel env i c st = Some (Ok (c', st')) -> zlength (action_traces st') < 2 ^ 32 ->
  running f l0 i c st -> ledger Jq st -> running f l0 (length (_notified c')) c' st' /\ ledger Jq st'.
Proof.
  revert i c st. induction fuel as [|fuel IH]; intros i c st; cbn [notify_loop];
    (destruct (_notified c !! i) as [[r o]|] eqn:Ei;
     [|intros [= <- <-] _ Hrun; pose proof (ru_ran _ _ _ _ _ Hrun); apply lookup_ge_None in Ei;
       by replace (length (_notified c)) with i by lia]); [done|].
  destruct (exec_one env _ st) as [[c1 st1]|] eqn:E; cbn [fbind]; [|done]. intros Hl Hlen Hrun Hled.
  pose proof (notify_loop_grows _ _ _ _ _ _ Hl).
  destruct (exec_one_running f l0 i _ st c1 st1 E) as [? ?]; [lia|done|by apply (running_local f l0 i c st)| |by apply (IH (S i) c1 st1)].
  revert Hled. by apply ledger_same; [..|apply J_rest].
Qed.

(** ** Executing pending actions *)

Record settled st : Prop := {
  se_wf : traces_wf (action_traces st);
  se_ledger : ledger Jq st;
  se_unspawned : unspawned 0 (action_traces st) }.

(** What executing the action of ordinal [o] does to the traces. *)
Record executes (o : Z) st st' : Prop := {
  ex_len : zlength (action_traces st) <= zlength (action_traces st');
  ex_old : forall o', o' <= zlength (action_traces st) -> o' <> o ->
    at_ordinal o' (action_traces st') = at_ordinal o' (action_traces st);
  ex_done : exists t, at_ordinal o (action_traces st') = Some t /\ is_Some (at_receipt t) /\
    shape <$> at_ordinal o (action_traces st) = Some (shape t);
  ex_new : forall o' t, zlength (action_traces st) < o' -> at_ordinal o' (action_traces st') = Some t ->
    is_Some (at_receipt t) }.

(** A scheduled action that has not run. *)
Definition pending st (o : Z) : Prop := exists t,
  at_ordinal o (action_traces st) = Some t /\ at_receipt t = None /\ first_receiver t.

Section pending.
Context (execute : Z -> state -> option (res state)).
Hypothesis execute_grows : forall o st st', execute o st = Some (Ok st') ->
  zlength (action_traces st) <= zlength (action_traces st').
Hypothesis execute_settles : forall o st st', execute o st = Some (Ok st') ->
  zlength (action_traces st') < 2 ^ 32 -> settled st -> pending st o -> settled st' /\ executes o st st'.

Local Abbreviation run := (fold_left (fun m o => fbind m (execute o))).

Lemma run_failed l e : run l (Some (Throw e)) = Some (Throw e) /\ run l None = None.
Proof. induction l as [|o l IH]; [done|exact IH]. Qed.

Lemma run_cons o l st st' : run (o :: l) (Some (Ok st)) = Some (Ok st') ->
  exists st1, execute o st = Some (Ok st1) /\ run l (Some (Ok st1)) = Some (Ok st').
Proof.
  cbn. destruct (execute o st) as [[st1|e]|]; [by eauto|..]; intros H; exfalso.
  - by rewrite (proj1 (run_failed l e)) in H.
  - by rewrite (proj2 (run_failed l fuel_exhausted)) in H.
Qed.

Lemma run_grows l st st' : run l (Some (Ok st)) = Some (Ok st') ->
  zlength (action_traces st) <= zlength (action_traces st').
Proof.
  revert st. induction l as [|o l IH]; intros st H; [by injection H as <-|].
  apply run_cons in H as (st1 & ?%execute_grows & ?%IH). lia.
Qed.

(** Running the pending actions [l] leaves none of them, and none they created. *)
Lemma run_settles n0 l st st' :
  run l (Some (Ok st)) = Some (Ok st') -> zlength (action_traces st') < 2 ^ 32 ->
  settled st -> NoDup l -> Forall (pending st) l -> Forall (fun o => n0 < o) l ->
  0 <= n0 <= zlength (action_traces st) ->
  (forall o t, n0 < o -> at_ordinal o (action_traces st) = Some t -> o ∉ l -> is_Some (at_receipt t)) ->
  settled st' /\
  (forall o, o <= n0 -> at_ordinal o (action_traces st') = at_ordinal o (action_traces st)) /\
  (forall o t, n0 < o -> at_ordinal o (action_traces st') = Some t -> is_Some (at_receipt t)).
Proof.
  revert st. induction l as [|o l IH]; intros st Hrun Hlen Hse Hnd Hp Hn Hn0 Hdone.
  - injection Hrun as <-. split_and!; [done..|]. intros o t ? Ho. apply (Hdone o t); [done..|apply not_elem_of_nil].
  - apply run_cons in Hrun as (st1 & He & Hrun). pose proof (run_grows _ _ _ Hrun).
    apply NoDup_cons in Hnd as [Hnin Hnd]. apply Forall_cons in Hp as [Hpo Hp], Hn as [Hno Hn].
    destruct (execute_settles o st st1 He) as [Hse1 []]; [lia|done..|].
    destruct (IH st1 Hrun Hlen Hse1 Hnd) as (? & Hold & ?); [|done|lia|..|].
    + rewrite Forall_forall in Hp |- *. intros o' Ho'. destruct (Hp o' Ho') as (t & Ht & ? & ?).
      exists t. rewrite ex_old0; [done|apply at_ordinal_range in Ht; lia|by intros ->].
    + intros o' t Ho' Ht Hni. destruct (decide (zlength (action_traces st) < o')) as [Hgt|Hle]; [by eapply ex_new0|].
      destruct (decide (o' = o)) as [->|Hne].
      * destruct ex_done0 as (t1 & ? & ? & _). congruence.
      * rewrite ex_old0 in Ht by (done || lia). apply (Hdone o' t); [done..|]. apply not_elem_of_cons. done.
    + split_and!; [done| |done]. intros o' Ho'. rewrite Hold by done. apply ex_old0; lia.
Qed.
End pending.

Lemma running_start f st t w c :
  settled st -> at_ordinal f (action_traces st) = Some t -> at_receipt t = None -> first_receiver t ->
  ac_act c = at_act t -> first_receiver_action_ordinal c = f -> _notified c = [(at_receiver t, f)] ->
  _inline_actions c = [] -> _cfa_inline_actions c = [] ->
  running f (action_traces st) 0 c (set_world w st).
Proof.
  intros [] Ht Hn Hf Ha Hfo Hno Hi Hc. pose proof (at_ordinal_range _ _ _ Ht) as Hr.
  split; cbn; try done; rewrite ?Hno, ?Hi, ?Hc.
  - intros o u Hu Hnu Hne. by apply (se_unspawned0 o u Hu Hnu); apply at_ordinal_range in Hu; lia.
  - by exists t.
  - intros r o [= -> ->]%list_elem_of_singleton. exists t. split_and!; [done..|by left].
  - intros o u Hu Hcl _. exfalso. by apply (se_unspawned0 f t Ht Hn ltac:(lia) o u).
  - apply NoDup_singleton.
  - lia.
  - by rewrite Z.sub_diag.
  - by intros o Ho%elem_of_nil.
  - intros o u Hu [->|Hgt]; [|apply at_ordinal_range in Hu; lia]. split; [intros [? ?]; congruence|].
    by intros Ho%elem_of_nil.
Qed.

(** Everything a finished context has not run itself are its inline actions. *)
Lemma running_inline f l0 c st :
  running f l0 (length (_notified c)) c st -> ledger Jq st ->
  let l := _cfa_inline_actions c ++ _inline_actions c in
  settled st /\ NoDup l /\ Forall (pending st) l /\ Forall (fun o => zlength l0 < o) l /\
  (exists t, at_ordinal f (action_traces st) = Some t /\ is_Some (at_receipt t)) /\
  (forall o t, zlength l0 < o -> at_ordinal o (action_traces st) = Some t -> o ∉ l -> is_Some (at_receipt t)).
Proof.
  intros Hrun Hled l. pose proof (running_ordinals _ _ _ _ _ Hrun) as [Hnd _]. destruct Hrun.
  rewrite take_ge in ru_receipts0 by (by rewrite length_fmap).
  destruct ru_head0 as (tf & Htf & _ & _ & Hhd). destruct (_notified c) as [|[r0 o0] rest] eqn:En; [done|].
  cbn in Hhd. injection Hhd as -> ->. cbn in ru_new0, Hnd, ru_receipts0.
  pose proof (NoDup_seqZ (zlength l0 + 1) (zlength (action_traces st) - zlength l0)) as Hnds.
  rewrite ru_new0, (Permutation_app_comm (_inline_actions c)) in Hnds. fold l in Hnds.
  apply NoDup_app in Hnds as (_ & Hdis & Hndl).
  assert (forall o, o ∈ rest.*2 \/ o ∈ l <-> zlength l0 < o <= zlength (action_traces st)) as Hall.
  { intros o. rewrite <- elem_of_app. unfold l. rewrite (Permutation_app_comm (_cfa_inline_actions c)), <- ru_new0.
    rewrite elem_of_seqZ. lia. }
  split_and!; [by split|done|..].
  - rewrite Forall_forall. intros o Ho. destruct (ru_inline0 o) as (t & Ht & Hf).
    { revert Ho. unfold l. by rewrite (Permutation_app_comm (_cfa_inline_actions c)). }
    exists t. split_and!; [done| |done]. apply eq_None_not_Some.
    rewrite (ru_receipts0 o t Ht) by (right; apply Hall; by right).
    intros [->|Hin]%elem_of_cons; [|by apply (Hdis o)]. pose proof (proj1 (Hall f) (or_intror Ho)). lia.
  - rewrite Forall_forall. intros o Ho. apply Hall. by right.
  - exists tf. split; [done|]. apply (ru_receipts0 f tf Htf); [by left|left].
  - intros o t Hgt Ht Hni. apply (ru_receipts0 o t Ht); [by right|]. right.
    destruct (proj2 (Hall o)) as [?|?]; [|done..]. apply at_ordinal_range in Ht. lia.
Qed.

(** An action that is executed, with the notifications and inline actions it leads
    to, leaves nothing pending. *)
Lemma execute_action_settles fuel levels o depth st st' :
  execute_action fuel env levels o depth st = Some (Ok st') ->
  zlength (action_traces st) <= zlength (action_traces st') /\
  (zlength (action_traces st') < 2 ^ 32 -> settled st -> pending st o -> settled st' /\ executes o st st').
Proof.
  revert o depth st st'. induction levels as [|levels IH]; intros o depth st st'; [done|].
  cbn [execute_action]. destruct (new_apply_context o depth st) as [[c st0]|] eqn:En; cbn [fbind]; [|done].
  unfold new_apply_context in En. apply bind_Ok in En as (t & Ht%get_action_trace_Ok & [= <- <-]). unfold exec.
  match goal with |- context [exec_one env ?c ?st] => set (c0 := c); set (st0 := st) end.
  destruct (exec_one env c0 st0) as [[c1 st1]|] eqn:E1; cbn [fbind]; [|done].
  destruct (notify_loop fuel env 1 c1 st1) as [[[c2 st2]|]|] eqn:E2; cbn [fbind]; [|done..].
  destruct (if _ : bool then _ else _) as [u|]; cbn [fbind]; [|done]. clear u.
  rewrite <- fold_left_app. set (d := u32 (recurse_depth c2 + 1)). intros Hrun.
  pose proof (exec_one_grows _ _ _ _ E1) as Hg1. pose proof (notify_loop_grows _ _ _ _ _ _ E2) as Hg2.
  pose proof (run_grows (fun o => execute_action fuel env levels o d) (fun o st st' H => proj1 (IH o d st st' H)) _ _ _ Hrun) as Hg3.
  split; [cbn in *; lia|]. intros Hlen Hse (t1 & Ht1 & Hn & Hf). assert (t1 = t) as -> by congruence.
  pose proof (running_start o st t (open_context (world st)) c0 Hse Ht Hn Hf eq_refl eq_refl eq_refl eq_refl eq_refl) as R0.
  assert (ledger J st0) as L0 by (apply (ledger_same Jq _ st); [done..|apply J_open|apply Hse]).
  destruct (exec_one_running _ _ 0 c0 st0 _ _ E1 ltac:(lia) eq_refl R0 L0) as [R1 L1].
  destruct (notify_loop_running _ _ _ _ _ _ _ _ E2 ltac:(lia) R1 L1) as [R2 L2].
  destruct (running_inline _ _ _ _ R2 L2) as (Hse2 & Hnd & Hpend & Hgt & (tf & Htf & Hr) & Hdone).
  pose proof (ru_base _ _ _ _ _ R2) as [? ?].
  destruct (run_settles (fun o => execute_action fuel env levels o d) (fun o st st' H => proj1 (IH o d st st' H))
              (fun o st st' H => proj2 (IH o d st st' H)) (zlength (action_traces st)) _ _ _ Hrun Hlen Hse2 Hnd Hpend Hgt)
    as (Hse' & Hold & Hall); [lia|done|]. split; [done|]. split; [lia|..].
  - intros o' Ho' Hne. rewrite Hold by done. by apply (ru_old _ _ _ _ _ R2).
  - exists tf. rewrite Hold by lia. split_and!; [done..|]. rewrite <- (ru_shape _ _ _ _ _ R2), Htf. done.
  - done.
Qed.

(** ** Transactions *)

Definition all_pending st : Prop :=
  settled st /\ forall o, 1 <= o <= zlength (action_traces st) -> pending st o.

Lemma schedule_input_grows cf l st :
  zlength (action_traces (fold_left (schedule_input cf) l st)) = zlength (action_traces st) + zlength l.
Proof. revert st. induction l as [|a l IH]; intros st; cbn; [lia|]. rewrite IH. cbn. rewrite length_app. cbn. lia. Qed.

Lemma schedule_input_pending cf l st :
  all_pending st -> zlength (action_traces st) + zlength l < 2 ^ 32 ->
  all_pending (fold_left (schedule_input cf) l st).
Proof.
  revert st. induction l as [|a l IH]; intros st [[Hwf Hled Hun] Hp] Hlen; cbn in *; [done|].
  apply IH; [|cbn; rewrite length_app; cbn; lia]. unfold schedule_input. cbn. rewrite u32_small by lia.
  set (t := mk_trace _ 0 0 None (act_account a) a cf [] []). split; [split|]; cbn.
  - apply traces_wf_snoc; [done|split; [done|by left]|by intros []].
  - revert Hled. apply ledger_same; try done. cbn. rewrite filter_app, filter_cons_False by (by intros [? ?]). apply app_nil_r.
  - apply unspawned_snoc; [done..|cbn; lia|]. intros f Hf. apply at_ordinal_range in Hf. cbn in Hf. lia.
  - intros o Ho. rewrite length_app in Ho. cbn in Ho. destruct (decide (o = zlength (action_traces st) + 1)) as [->|?].
    + exists t. cbn. by rewrite at_ordinal_new.
    + destruct (Hp o ltac:(lia)) as (u & Hu & ?). exists u. cbn. rewrite at_ordinal_app by lia. done.
Qed.

Lemma settled_start st :
  action_traces st = [] -> executed_action_receipt_digests st = [] -> global_action_sequence st = g0 ->
  Jq (world st) [] -> settled st.
Proof.
  intros Ht Hd Hg HJ. split; rewrite ?Ht.
  - split; [intros o t Ho|intros o o' t t' Ho]; apply at_ordinal_range in Ho; cbn in Ho; lia.
  - exists []. rewrite Ht, Hd. cbn. rewrite Z.add_0_r. split_and!; [done|done|..].
    + unfold global_sequences. by destruct (trx_read_only env).
    + rewrite Hg. by destruct (trx_read_only env).
    + done.
  - intros o t Ho. apply at_ordinal_range in Ho. cbn in Ho. lia.
Qed.

Lemma fold_left_fmap {A B C} (f : A -> C -> A) (g : B -> C) l a :
  fold_left f (g <$> l) a = fold_left (fun a b => f a (g b)) l a.
Proof. revert a. induction l as [|b l IH]; intros a; [done|apply IH]. Qed.

Lemma trx_exec_settles fuel levels apply_context_free context_free_actions actions st st' :
  action_traces st = [] -> executed_action_receipt_digests st = [] -> global_action_sequence st = g0 ->
  Jq (world st) [] -> trx_exec fuel env levels apply_context_free context_free_actions actions st = Some (Ok st') ->
  zlength (action_traces st') < 2 ^ 32 ->
  settled st' /\ forall o t, at_ordinal o (action_traces st') = Some t -> is_Some (at_receipt t).
Proof.
  intros Ht Hd Hg HJ Hrun Hlen. unfold trx_exec in Hrun.
  set (st1 := if apply_context_free then _ else st) in Hrun.
  set (st2 := fold_left (schedule_input false) actions st1) in Hrun.
  rewrite <- (fold_left_fmap (fun m o => fbind m (execute_action fuel env levels o 0)) Z.of_nat) in Hrun.
  pose proof (run_grows (fun o => execute_action fuel env levels o 0)
                (fun o st st' H => proj1 (execute_action_settles _ _ o 0 st st' H)) _ _ _ Hrun) as Hg1.
  assert (all_pending st2) as [Hse Hp].
  { pose proof (schedule_input_grows false actions st1) as Hl2. fold st2 in Hl2.
    apply schedule_input_pending; [|lia]. unfold st1 in *.
    assert (all_pending st) as Hst by (split; [by apply settled_start|rewrite Ht; cbn; lia]).
    destruct apply_context_free; [|done]. rewrite schedule_input_grows in Hl2. apply schedule_input_pending; [done|lia]. }
  assert (forall o, o ∈ Z.of_nat <$> seq 1 (length (action_traces st2)) <-> 1 <= o <= zlength (action_traces st2)) as Hin.
  { intros o. rewrite list_elem_of_fmap. setoid_rewrite elem_of_seq. split; [intros (n & -> & ?); lia|].
    intros ?. exists (Z.to_nat o). lia. }
  destruct (run_settles (fun o => execute_action fuel env levels o 0)
              (fun o st st' H => proj1 (execute_action_settles _ _ o 0 st st' H))
              (fun o st st' H => proj2 (execute_action_settles _ _ o 0 st st' H)) 0 _ _ _ Hrun Hlen Hse)
    as (Hse' & _ & Hall).
  - apply NoDup_fmap; [apply _|apply NoDup_seq].
  - rewrite Forall_forall. intros o Ho%Hin. by apply Hp.
  - rewrite Forall_forall. intros o Ho%Hin. lia.
  - lia.
  - intros o t _ Ho Hni. destruct Hni. by apply Hin, at_ordinal_range with t.
  - split; [done|]. intros o t Ho. apply (Hall o t); [apply at_ordinal_range in Ho; lia|done].
Qed.
End ledger.

Lemma all_executed l : (forall o t, at_ordinal o l = Some t -> executed t) -> Forall executed l.
Proof.
  intros H. apply Forall_lookup. intros i t Hi. apply (H (Z.of_nat i + 1)). unfold at_ordinal.
  destruct (0 <? _) eqn:E; bool_to_Z; [|lia]. by replace (Z.to_nat _) with i by lia.
Qed.

Lemma filter_executed_all l : (forall o t, at_ordinal o l = Some t -> executed t) -> filter executed l = l.
Proof.
  intros H%all_executed. induction H as [|t l Ht _ IH]; [done|]. by rewrite filter_cons_True, IH.
Qed.

Section theorems.
Context {W call reply : Type} `{!ActionWorld W call reply}.
Implicit Types (env : @exec_env call reply) (st : @trx_state W).

(** C14: A transaction that runs to its end has executed every action, notification
    and inline action it scheduled exactly once: every trace has a receipt, the
    digests recorded for the block are those of these receipts in the order of
    execution, and in that order the global sequence numbers are consecutive (and zero
    throughout in a read-only transaction). *)
Theorem trx_exec_receipts fuel env levels apply_context_free context_free_actions actions st st' :
  action_traces st = [] -> executed_action_receipt_digests st = [] ->
  trx_exec fuel env levels apply_context_free context_free_actions actions st = Some (Ok st') ->
  zlength (action_traces st') < 2 ^ 32 ->
  exists rs, Some <$> rs ≡ₚ at_receipt <$> action_traces st' /\
    executed_action_receipt_digests st' = receipt_digest env <$> rs /\
    r_global_sequence <$> rs = global_sequences env (global_action_sequence st) (length (action_traces st')).
Proof.
  intros Ht Hd Hrun Hlen.
  destruct (trx_exec_settles env (global_action_sequence st) (fun _ _ => True) (fun _ _ => True)
              ltac:(done) ltac:(done) ltac:(done) ltac:(done) ltac:(done) _ _ _ _ _ _ _ Ht Hd eq_refl I Hrun Hlen)
    as [[_ Hled _] Hall].
  destruct Hled as (ts & Hp & Hdg & Hgs & _). rewrite filter_executed_all in Hp by done.
  exists (omap at_receipt ts). split_and!; [|done|by rewrite Hgs, Hp].
  rewrite <- Hp. assert (Forall executed ts) as Hf by (rewrite Hp; by apply all_executed).
  clear -Hf. induction Hf as [|t l [r Hr] _ IH]; cbn; [done|]. rewrite Hr. cbn. by rewrite IH.
Qed.

(** The ordinals of a transaction that has run to its end number its traces from
    one and describe a tree: every trace is an action of the transaction or was
    created by an earlier trace, as an inline action or as a notification of the
    action whose first receiver is its closest unnotified ancestor; no account is
    notified of an action twice. *)
Theorem trx_exec_tree fuel env levels apply_context_free context_free_actions actions st st' :
  action_traces st = [] -> executed_action_receipt_digests st = [] ->
  trx_exec fuel env levels apply_context_free context_free_actions actions st = Some (Ok st') ->
  zlength (action_traces st') < 2 ^ 32 -> traces_wf (action_traces st').
Proof.
  intros Ht Hd Hrun Hlen.
  by destruct (trx_exec_settles env (global_action_sequence st) (fun _ _ => True) (fun _ _ => True)
    ltac:(done) ltac:(done) ltac:(done) ltac:(done) ltac:(done) _ _ _ _ _ _ _ Ht Hd eq_refl I Hrun Hlen) as [[] _].
Qed.
End theorems.
