(* ===== verification/TableCalls.v ===== *)
(** * Database intrinsics with their replies

    The intrinsics of [apply_context] on contract tables as calls that answer, and the
    RAM deltas of an action as the trace reports them. *)

From S2P Require Import Prelude Exceptions Types ObjectIndex IteratorCache.
From S2P Require Import ContractTables SecondaryIndex ContractTableProps ContractTableTheorems.

Section calls.
Context `{SoftFloat} {TT KT IT : Type}.
Context `{!ObjectIndex table_id_object TT tid_conflict}.
Context `{!ObjectIndex key_value_object KT kv_conflict}.
Context `{!ObjectIndex index_object IT ix_conflict}.
Notation state := (@table_state TT KT IT).

(** ** Intrinsics with their replies *)

Inductive table_reply : Type :=
| reply_done
| reply_iterator (it : Z)
| reply_walk (it : Z) (primary : option Z)
| reply_row (size : Z) (buffer : list Z)
| reply_index_row (it : Z) (row : option index_object)
| reply_secondary (it : Z) (secondary : option secondary_key)
| reply_object (primary : Z) (secondary : secondary_key).

Definition silent (m : res state) : res (table_reply * state) := s ← m; Ok (reply_done, s).

Definition call_index (k : index_kind) (c : context_info) (o : index_op) (s : state)
  : res (table_reply * state) :=
  match o with
  | op_idx_store scope table payer id value =>
    '(it, s) ← ix_store k c scope table payer id value s; Ok (reply_iterator it, s)
  | op_idx_update it payer value => silent (ix_update k c it payer value s)
  | op_idx_remove it => silent (ix_remove k c it s)
  | op_idx_get it => '(p, v) ← ix_get k it s; Ok (reply_object p v, s)
  | op_find_secondary code scope table value =>
    let '(it, p, s) := find_secondary k code scope table value s in Ok (reply_walk it p, s)
  | op_lowerbound_secondary code scope table value =>
    let '(it, v, s) := lowerbound_secondary k code scope table value s in Ok (reply_index_row it v, s)
  | op_upperbound_secondary code scope table value =>
    let '(it, v, s) := upperbound_secondary k code scope table value s in Ok (reply_index_row it v, s)
  | op_end_secondary code scope table =>
    let '(it, s) := end_secondary k code scope table s in Ok (reply_iterator it, s)
  | op_next_secondary it => '(it, p, s) ← next_secondary k it s; Ok (reply_walk it p, s)
  | op_previous_secondary it => '(it, p, s) ← previous_secondary k it s; Ok (reply_walk it p, s)
  | op_find_primary code scope table primary =>
    let '(it, v, s) := find_primary k code scope table primary s in Ok (reply_secondary it v, s)
  | op_lowerbound_primary code scope table primary =>
    let '(it, s) := lowerbound_primary k code scope table primary s in Ok (reply_iterator it, s)
  | op_upperbound_primary code scope table primary =>
    let '(it, s) := upperbound_primary k code scope table primary s in Ok (reply_iterator it, s)
  | op_next_primary it => '(it, p, s) ← next_primary k it s; Ok (reply_walk it p, s)
  | op_previous_primary it => '(it, p, s) ← previous_primary k it s; Ok (reply_walk it p, s)
  end.

Definition call_op (c : context_info) (o : table_op) (s : state) : res (table_reply * state) :=
  match o with
  | op_store scope table payer id buffer =>
    '(it, s) ← db_store_i64_receiver c scope table payer id buffer s; Ok (reply_iterator it, s)
  | op_update it payer buffer => silent (db_update_i64 c it payer buffer s)
  | op_remove it => silent (db_remove_i64 c it s)
  | op_get it n => '(sz, b) ← db_get_i64 it n s; Ok (reply_row sz b, s)
  | op_next it => '(it, p, s) ← db_next_i64 it s; Ok (reply_walk it p, s)
  | op_previous it => '(it, p, s) ← db_previous_i64 it s; Ok (reply_walk it p, s)
  | op_find code scope table id =>
    let '(it, s) := db_find_i64 code scope table id s in Ok (reply_iterator it, s)
  | op_lowerbound code scope table id =>
    let '(it, s) := db_lowerbound_i64 code scope table id s in Ok (reply_iterator it, s)
  | op_upperbound code scope table id =>
    let '(it, s) := db_upperbound_i64 code scope table id s in Ok (reply_iterator it, s)
  | op_end code scope table =>
    let '(it, s) := db_end_i64 code scope table s in Ok (reply_iterator it, s)
  | op_index k o => call_index k c o s
  end.

Lemma call_op_run c o s r s' : call_op c o s = Ok (r, s') -> run_op c o s = Ok s'.
Proof.
  destruct o as [| | | | | | | | | |k []]; cbn; unfold silent;
    repeat match goal with
    | |- context [let '(_, _) := ?m in _] => destruct m as [? ?]
    | |- (?m ≫= _) = Ok _ -> _ => destruct m as [?|] eqn:?; cbn; [|done]
    end; by intros [= _ <-].
Qed.

(** [account_delta::operator<] *)
Definition delta_le (a b : Z * Z) : Prop := a.1 <= b.1.
#[global] Instance delta_le_dec : RelDecision delta_le.
Proof. intros a b. apply Z.le_dec. Defined.

(** [_account_ram_deltas], a [flat_set] ordered by account. *)
Definition ram_delta_list (s : state) : list (Z * Z) :=
  merge_sort delta_le (map_to_list (_account_ram_deltas s)).
End calls.
