(* ===== verification/NativeActions.v ===== *)
(** * The native actions of the system account ([sysio_contract.cpp])

    [newaccount], [setcode], [setabi], [updateauth], [deleteauth], [linkauth],
    [unlinkauth] and [canceldelay], over the account, code, permission, link and
    resource tables and the RAM counters of the running action, and the creation
    of the accounts of a new chain ([controller.cpp]). *)

From S2P Require Import Prelude Exceptions Types Chainbase BlockTimestamp Name Authority AuthorityChecker.
From S2P Require Import AuthorizationManager ResourceLimits ObjectIndex IteratorCache ContractTables.
From S2P Require Import AccessLists ActionExecution.

(** ** Rows and payloads *)

Record account_object := mk_account { creation_date : Z; abi : list Z }.

(** [code_object]; its hash, vm type and vm version are the key of its row. *)
Record code_object := mk_code { code : list Z; code_ref_count : Z; first_block_used : Z }.

Record newaccount := mk_newaccount {
  na_creator : Z; na_name : Z; na_owner : authority; na_active : authority }.
Record setcode := mk_setcode { sc_account : Z; sc_vmtype : Z; sc_vmversion : Z; sc_code : list Z }.
Record setabi := mk_setabi { sa_account : Z; sa_abi : list Z }.

(** [action::data_as<T>()] of the remaining payloads. *)
Record native_codec := mk_native_codec {
  nc_codec : codec;
  as_newaccount : list Z -> res newaccount;
  as_setcode : list Z -> res setcode;
  as_setabi : list Z -> res setabi }.

(** What the actions ask of the controller and of code outside the library:
    [ne_validate_wasm] is [wasm_interface::validate], [ne_pack_size] the packed
    size of a key. *)
Record native_env := mk_native_env {
  ne_auth : auth_env;
  ne_codec : native_codec;
  ne_enforce_whiteblacklist : bool;
  ne_is_speculative_block : bool;
  ne_lists : list_config;
  ne_head_block_num : Z;
  ne_only_link_to_existing_permission : bool;
  ne_disable_deferred_trxs_stage_1 : bool;
  ne_validate_wasm : list Z -> res unit;
  ne_sha256 : list Z -> digest;
  ne_pack_size : public_key -> Z }.

Definition owner_name : Z := Eval vm_compute in n_ "owner".
Definition code_permission_name : Z := Eval vm_compute in n_ "sysio.code".
Definition sysio_name : Z := Eval vm_compute in n_ "sysio".

Definition overhead_per_account_ram_bytes : Z := 2 * 1024.
Definition setcode_ram_bytes_multiplier : Z := 10.

(** [billable_size_v<permission_object>], [<permission_link_object>] and
    [<generated_transaction_object>] *)
Definition permission_billable : Z :=
  billable_size_v (billable_size_v (3 * 16 + 4) + 64 + 5 * overhead_per_row_per_index_ram_bytes).
Definition link_billable : Z := billable_size_v (40 + 3 * overhead_per_row_per_index_ram_bytes).
Definition generated_billable : Z := billable_size_v (96 + 4 + 5 * overhead_per_row_per_index_ram_bytes).

(** [str.find( p ) == 0] *)
Definition starts_with (p str : list ascii) : bool := bool_decide (take (length p) str = p).

Definition transaction_id_to_sender_id (tid : digest) : Z :=
  u128 (Z.lor (Z.shiftl (hash3 tid) 64) (hash2 tid)).

Section native.
Context `{SoftFloat} {TT KT IT TP TU TL TG TA TM TC LT UT : Type}.
Context `{!ObjectIndex table_id_object TT tid_conflict}.
Context `{!ObjectIndex key_value_object KT kv_conflict}.
Context `{!ObjectIndex index_object IT ix_conflict}.
Context `{!ChainIndex Z permission_object TP} `{!ChainIndex Z Z TU}
  `{!ChainIndex (Z * Z * Z) Z TL} `{!ChainIndex digest generated_transaction TG}.
Context `{!ChainIndex Z account_object TA} `{!ChainIndex Z account_metadata_object TM}
  `{!ChainIndex (digest * Z * Z) code_object TC}.
Context `{!ChainIndex (bool * Z) resource_limits_object LT} `{!ChainIndex Z resource_usage_object UT}.

Record native_state := mk_native {
  ns_accounts : TA;
  ns_metadata : TM;
  ns_codes : TC;
  ns_auth : auth_db TP TU TL TG;
  ns_rl : rl_db LT UT;
  ns_tables : @table_state TT KT IT }.

Definition set_accounts (t : TA) (s : native_state) : native_state :=
  mk_native t (ns_metadata s) (ns_codes s) (ns_auth s) (ns_rl s) (ns_tables s).
Definition set_metadata (t : TM) (s : native_state) : native_state :=
  mk_native (ns_accounts s) t (ns_codes s) (ns_auth s) (ns_rl s) (ns_tables s).
Definition set_codes (t : TC) (s : native_state) : native_state :=
  mk_native (ns_accounts s) (ns_metadata s) t (ns_auth s) (ns_rl s) (ns_tables s).
Definition set_auth (d : auth_db TP TU TL TG) (s : native_state) : native_state :=
  mk_native (ns_accounts s) (ns_metadata s) (ns_codes s) d (ns_rl s) (ns_tables s).
Definition set_limits (d : rl_db LT UT) (s : native_state) : native_state :=
  mk_native (ns_accounts s) (ns_metadata s) (ns_codes s) (ns_auth s) d (ns_tables s).

(** [context.add_ram_usage( account, delta )] *)
Definition use_ram (account delta : Z) (s : native_state) : res native_state :=
  t ← add_ram_usage account delta (ns_tables s);
  Ok (mk_native (ns_accounts s) (ns_metadata s) (ns_codes s) (ns_auth s) (ns_rl s) t).

Definition account_exists (a : Z) (s : native_state) : bool :=
  bool_decide (is_Some (idx_find a (ns_accounts s))).

(** [SYS_ASSERT( !is_read_only(), action_validate_exception, ... )] *)
Definition not_read_only (c : context_info) : res unit :=
  sys_assert (negb (ContractTables.is_read_only c)) action_validate_exception.

(** The accounts loop of [validate_authority_precondition]. *)
Definition check_authority_account (s : native_state) (_ : unit) (a : permission_level_weight) : res unit :=
  let p := plw_permission a in
  _ ← sys_assert (account_exists (actor p) s) action_validate_exception;
  if (permission p =? owner_name) || (permission p =? active_name) then Ok tt
  else if permission p =? code_permission_name then Ok tt
  else match get_permission (ns_auth s) p with
       | Ok _ => Ok tt
       | Throw e => if is_a e permission_query_exception then Throw action_validate_exception else Throw e
       end.

Definition validate_authority_precondition (env : native_env) (auth : authority) (s : native_state)
  : res unit :=
  _ ← foldM (check_authority_account s) tt (accounts auth);
  if ne_enforce_whiteblacklist env && ne_is_speculative_block env
  then foldM (fun _ k => check_key_list (ne_lists env) (kw_key k)) tt (keys auth)
  else Ok tt.

(** ** [newaccount] *)

Definition is_system_account (name : Z) : bool :=
  (name =? sysio_name) ||
  ((5 <? Z.of_nat (length (Name.to_string name))) && starts_with (chars "sysio.") (Name.to_string name)).

(** The rows of a new account: its object, metadata and two permissions. *)
Definition create_account (env : native_env) (name created : Z) (abi : list Z) (flags : Z)
    (permission_time : Z) (check : native_state -> res unit) (owner active : authority) (s : native_state)
  : res native_state :=
  ta ← db_create name (mk_account (set_time_point created) abi) (ns_accounts s);
  tm ← db_create name (mk_amo 0 0 0 0 digest_zero 0 flags 0 0) (ns_metadata s);
  let s := set_metadata tm (set_accounts ta s) in
  _ ← check s;
  '(d, owner_permission) ← create_permission (ne_auth env) (ns_auth s) name owner_name 0 owner permission_time;
  '(d, _) ← create_permission (ne_auth env) d name active_name (po_id owner_permission) active permission_time;
  rl ← initialize_account name (ns_rl s);
  Ok (set_limits rl (set_auth d s)).

Definition account_ram (env : native_env) (owner active : authority) : Z :=
  i64 (overhead_per_account_ram_bytes + 2 * permission_billable +
       get_billable_size (ne_pack_size env) owner + get_billable_size (ne_pack_size env) active).

Definition newaccount_body (env : native_env) (c : context_info) (create : newaccount) (s : native_state)
  : res native_state :=
  let name := na_name create in
  _ ← require_authorization c (na_creator create);
  _ ← sys_assert (validate (na_owner create)) action_validate_exception;
  _ ← sys_assert (validate (na_active create)) action_validate_exception;
  _ ← sys_assert (negb (name =? 0)) action_validate_exception;
  _ ← sys_assert (Z.of_nat (length (Name.to_string name)) <=? 12) action_validate_exception;
  creator ← db_get (na_creator create) (ns_metadata s);
  _ ← sys_assert (is_privileged creator) action_validate_exception;
  _ ← sys_assert (negb (account_exists name s)) account_name_exists_exception;
  s ← create_account env name (pending_block_time (ne_auth env)) [] 0 0
        (fun s => _ ← validate_authority_precondition env (na_owner create) s;
                  validate_authority_precondition env (na_active create) s)
        (na_owner create) (na_active create) s;
  s ← (if is_system_account name then Ok s
       else '(_, rl) ← set_account_limits name 0 0 0 (ns_rl s); Ok (set_limits rl s));
  use_ram sysio_name (account_ram env (na_owner create) (na_active create)) s.

Definition apply_sysio_newaccount (env : native_env) (c : context_info) (s : native_state)
  : res native_state :=
  _ ← not_read_only c;
  create ← as_newaccount (ne_codec env) (act_data (act c));
  fc_rethrow (newaccount_body env c create s).

(** ** [setcode] *)

(** The code an account gives up; the size it was billed. *)
Definition release_code (account : account_metadata_object) (new_hash : digest) (s : native_state)
  : res (Z * native_state) :=
  let key := (code_hash account, vm_type account, vm_version account) in
  old ← db_get key (ns_codes s);
  _ ← sys_assert (negb (bool_decide (code_hash account = new_hash))) set_exact_code;
  let old_size := i64 (Z.of_nat (length (code old)) * setcode_ram_bytes_multiplier) in
  let codes :=
    if code_ref_count old =? 1 then idx_remove key (ns_codes s)
    else idx_modify key (fun o => mk_code (code o) (u64 (code_ref_count o - 1)) (first_block_used o))
           (ns_codes s) in
  Ok (old_size, set_codes codes s).

(** The code an account takes up: shared with the accounts that run it. *)
Definition acquire_code (env : native_env) (a : setcode) (new_hash : digest) (s : native_state)
  : res native_state :=
  let key := (new_hash, sc_vmtype a, sc_vmversion a) in
  codes ← match idx_find key (ns_codes s) with
          | Some _ => Ok (idx_modify key (fun o => mk_code (code o) (u64 (code_ref_count o + 1))
                                                   (first_block_used o)) (ns_codes s))
          | None => db_create key (mk_code (sc_code a) 1 (u32 (ne_head_block_num env + 1))) (ns_codes s)
          end;
  Ok (set_codes codes s).

Definition setcode_body (env : native_env) (c : context_info) (a : setcode) (s : native_state)
  : res native_state :=
  _ ← require_authorization c (sc_account a);
  _ ← sys_assert (sc_vmtype a =? 0) invalid_contract_vm_type;
  _ ← sys_assert (sc_vmversion a =? 0) invalid_contract_vm_version;
  let code_size := Z.of_nat (length (sc_code a)) in
  let new_hash := if 0 <? code_size then ne_sha256 env (sc_code a) else digest_zero in
  _ ← (if 0 <? code_size then ne_validate_wasm env (sc_code a) else Ok tt);
  account ← db_get (sc_account a) (ns_metadata s);
  let existing_code := negb (bool_decide (code_hash account = digest_zero)) in
  _ ← sys_assert ((0 <? code_size) || existing_code) set_exact_code;
  let new_size := i64 (code_size * setcode_ram_bytes_multiplier) in
  '(old_size, s) ← (if existing_code then release_code account new_hash s else Ok (0, s));
  s ← (if 0 <? code_size then acquire_code env a new_hash s else Ok s);
  let s := set_metadata (idx_modify (sc_account a) (fun m =>
             mk_amo (recv_sequence m) (auth_sequence m) (u64 (code_sequence m + 1)) (abi_sequence m) new_hash
               (pending_block_time (ne_auth env)) (amo_flags m) (sc_vmtype a) (sc_vmversion a)) (ns_metadata s)) s in
  if negb (new_size =? old_size) then use_ram (sc_account a) (i64 (new_size - old_size)) s else Ok s.

Definition apply_sysio_setcode (env : native_env) (c : context_info) (s : native_state) : res native_state :=
  _ ← not_read_only c;
  a ← as_setcode (ne_codec env) (act_data (act c));
  setcode_body env c a s.

(** ** [setabi] *)

Definition setabi_body (c : context_info) (a : setabi) (s : native_state) : res native_state :=
  _ ← require_authorization c (sa_account a);
  account ← db_get (sa_account a) (ns_accounts s);
  let old_size := Z.of_nat (length (abi account)) in
  let new_size := Z.of_nat (length (sa_abi a)) in
  let s := set_accounts (idx_modify (sa_account a) (fun o => mk_account (creation_date o) (sa_abi a))
                           (ns_accounts s)) s in
  tm ← db_modify (sa_account a) (fun m =>
         Ok (mk_amo (recv_sequence m) (auth_sequence m) (code_sequence m) (u64 (abi_sequence m + 1)) (code_hash m)
               (last_code_update m) (amo_flags m) (vm_type m) (vm_version m))) (ns_metadata s);
  let s := set_metadata tm s in
  if negb (new_size =? old_size) then use_ram (sa_account a) (i64 (new_size - old_size)) s else Ok s.

Definition apply_sysio_setabi (env : native_env) (c : context_info) (s : native_state) : res native_state :=
  _ ← not_read_only c;
  a ← as_setabi (ne_codec env) (act_data (act c));
  setabi_body c a s.

(** ** Permissions *)

Definition permission_size (env : native_env) (auth : authority) : Z :=
  i64 (u64 (permission_billable + get_billable_size (ne_pack_size env) auth)).

(** The conditions of [updateauth] on the names and the authority. *)
Definition check_update (env : native_env) (update : updateauth) (s : native_state) : res unit :=
  _ ← sys_assert (negb (ua_permission update =? 0)) action_validate_exception;
  _ ← sys_assert (negb (starts_with (chars "sysio.") (Name.to_string (ua_permission update))))
        action_validate_exception;
  _ ← sys_assert (negb (ua_permission update =? ua_parent update)) action_validate_exception;
  _ ← db_get (ua_account update) (ns_accounts s);
  _ ← sys_assert (validate (ua_auth update)) action_validate_exception;
  _ ← (if ua_permission update =? active_name
       then sys_assert (ua_parent update =? owner_name) action_validate_exception else Ok tt);
  _ ← sys_assert (if ua_permission update =? owner_name then ua_parent update =? 0
                  else negb (ua_parent update =? 0)) action_validate_exception;
  _ ← match last (waits (ua_auth update)) with
      | Some w => sys_assert (ww_wait_sec w <=? max_transaction_delay (ne_auth env)) action_validate_exception
      | None => Ok tt
      end;
  validate_authority_precondition env (ua_auth update) s.

Definition updateauth_body (env : native_env) (c : context_info) (update : updateauth) (s : native_state)
  : res native_state :=
  _ ← (if negb (ua_permission update =? auth_ext_name) && negb (ua_permission update =? auth_session_name)
       then require_authorization c (ua_account update) else Ok tt);
  _ ← check_update env update s;
  permission ← find_permission (ns_auth s) (mk_level (ua_account update) (ua_permission update));
  parent_id ← (if negb (ua_permission update =? owner_name) then
                 parent ← get_permission (ns_auth s) (mk_level (ua_account update) (ua_parent update));
                 Ok (po_id parent)
               else Ok 0);
  match permission with
  | Some p =>
    _ ← sys_assert (parent_id =? po_parent p) action_validate_exception;
    let old_size := permission_size env (po_auth p) in
    d ← modify_permission (ne_auth env) (ns_auth s) p (ua_auth update);
    let new_size := permission_size env (ua_auth update) in
    use_ram (po_owner p) (i64 (new_size - old_size)) (set_auth d s)
  | None =>
    '(d, p) ← create_permission (ne_auth env) (ns_auth s) (ua_account update) (ua_permission update)
                parent_id (ua_auth update) 0;
    use_ram (ua_account update) (permission_size env (po_auth p)) (set_auth d s)
  end.

Definition apply_sysio_updateauth (env : native_env) (c : context_info) (s : native_state) : res native_state :=
  _ ← not_read_only c;
  update ← as_updateauth (nc_codec (ne_codec env)) (act_data (act c));
  updateauth_body env c update s.

(** The range of [by_permission_name]. *)
Definition has_links (account perm : Z) (s : native_state) : bool :=
  existsb (fun r => (r.1.1.1 =? account) && (r.2 =? perm)) (idx_rows (links (ns_auth s))).

Definition deleteauth_body (env : native_env) (c : context_info) (remove : deleteauth) (s : native_state)
  : res native_state :=
  _ ← require_authorization c (da_account remove);
  _ ← sys_assert (negb (da_permission remove =? active_name)) action_validate_exception;
  _ ← sys_assert (negb (da_permission remove =? owner_name)) action_validate_exception;
  _ ← sys_assert (negb (has_links (da_account remove) (da_permission remove) s)) action_validate_exception;
  p ← get_permission (ns_auth s) (mk_level (da_account remove) (da_permission remove));
  let old_size := permission_size env (po_auth p) in
  d ← remove_permission (ns_auth s) p;
  use_ram (da_account remove) (i64 (- old_size)) (set_auth d s).

Definition apply_sysio_deleteauth (env : native_env) (c : context_info) (s : native_state) : res native_state :=
  _ ← not_read_only c;
  remove ← as_deleteauth (nc_codec (ne_codec env)) (act_data (act c));
  deleteauth_body env c remove s.

(** ** Links *)

Definition set_links (t : TL) (s : native_state) : native_state :=
  let d := ns_auth s in
  set_auth (mk_auth_db (permissions d) (next_permission_id d) (usages d) (next_usage_id d) t (generated d)) s.

(** The permission a link may name. *)
Definition find_required (env : native_env) (requirement : linkauth) (s : native_state) : bool :=
  if ne_only_link_to_existing_permission env
  then bool_decide (is_Some (find_by_owner (ns_auth s) (la_account requirement) (la_requirement requirement)))
  else existsb (fun r => po_name r.2 =? la_requirement requirement) (idx_rows (permissions (ns_auth s))).

Definition linkauth_body (env : native_env) (c : context_info) (requirement : linkauth) (s : native_state)
  : res native_state :=
  _ ← sys_assert (negb (la_requirement requirement =? 0)) action_validate_exception;
  _ ← require_authorization c (la_account requirement);
  _ ← sys_assert (account_exists (la_account requirement) s) account_query_exception;
  _ ← sys_assert (account_exists (la_code requirement) s) account_query_exception;
  _ ← (if negb (la_requirement requirement =? sysio_any_name)
       then sys_assert (find_required env requirement s) permission_query_exception else Ok tt);
  let link_key := (la_account requirement, la_code requirement, la_type requirement) in
  match idx_find link_key (links (ns_auth s)) with
  | Some required =>
    _ ← sys_assert (negb (required =? la_requirement requirement)) action_validate_exception;
    Ok (set_links (idx_modify link_key (fun _ => la_requirement requirement) (links (ns_auth s))) s)
  | None =>
    t ← db_create link_key (la_requirement requirement) (links (ns_auth s));
    use_ram (la_account requirement) link_billable (set_links t s)
  end.

Definition apply_sysio_linkauth (env : native_env) (c : context_info) (s : native_state) : res native_state :=
  _ ← not_read_only c;
  requirement ← as_linkauth (nc_codec (ne_codec env)) (act_data (act c));
  fc_rethrow (linkauth_body env c requirement s).

Definition unlinkauth_body (c : context_info) (unlink : unlinkauth) (s : native_state) : res native_state :=
  _ ← require_authorization c (ul_account unlink);
  let link_key := (ul_account unlink, ul_code unlink, ul_type unlink) in
  _ ← of_option action_validate_exception (idx_find link_key (links (ns_auth s)));
  s ← use_ram (ul_account unlink) (- link_billable) s;
  Ok (set_links (idx_remove link_key (links (ns_auth s))) s).

Definition apply_sysio_unlinkauth (env : native_env) (c : context_info) (s : native_state) : res native_state :=
  _ ← not_read_only c;
  unlink ← as_unlinkauth (nc_codec (ne_codec env)) (act_data (act c));
  unlinkauth_body c unlink s.

(** ** Deferred transactions *)

Definition set_generated (t : TG) (s : native_state) : native_state :=
  let d := ns_auth s in
  set_auth (mk_auth_db (permissions d) (next_permission_id d) (usages d) (next_usage_id d) (links d) t) s.

(** [by_sender_id], a unique index *)
Definition find_by_sender (sender sender_id : Z) (s : native_state) : option (digest * generated_transaction) :=
  List.find (fun r => (gt_sender r.2 =? sender) && (gt_sender_id r.2 =? sender_id))
    (idx_rows (generated (ns_auth s))).

Definition cancel_deferred_transaction (env : native_env) (c : context_info) (sender_id sender : Z)
    (s : native_state) : res (bool * native_state) :=
  if ne_disable_deferred_trxs_stage_1 env then Ok (false, s)
  else
    _ ← sys_assert (negb (ContractTables.is_read_only c)) transaction_exception;
    match find_by_sender sender sender_id s with
    | Some (id, gto) =>
      s ← use_ram (gt_payer gto) (i64 (- (generated_billable + gt_packed_size gto))) s;
      Ok (true, set_generated (idx_remove id (generated (ns_auth s))) s)
    | None => Ok (false, s)
    end.

Definition apply_sysio_canceldelay (env : native_env) (c : context_info) (s : native_state) : res native_state :=
  _ ← not_read_only c;
  cancel ← as_canceldelay (nc_codec (ne_codec env)) (act_data (act c));
  _ ← require_authorization c (actor (cd_canceling_auth cancel));
  '(_, s) ← cancel_deferred_transaction env c (transaction_id_to_sender_id (cd_trx_id cancel)) 0 s;
  Ok s.

(** ** The handlers *)

Inductive native_action :=
| na_newaccount | na_setcode | na_setabi | na_updateauth | na_deleteauth | na_linkauth | na_unlinkauth
| na_canceldelay.

Definition apply_native (env : native_env) (h : native_action) (c : context_info) (s : native_state)
  : res native_state :=
  match h with
  | na_newaccount => apply_sysio_newaccount env c s
  | na_setcode => apply_sysio_setcode env c s
  | na_setabi => apply_sysio_setabi env c s
  | na_updateauth => apply_sysio_updateauth env c s
  | na_deleteauth => apply_sysio_deleteauth env c s
  | na_linkauth => apply_sysio_linkauth env c s
  | na_unlinkauth => apply_sysio_unlinkauth env c s
  | na_canceldelay => apply_sysio_canceldelay env c s
  end.

(** ** The accounts of a new chain *)

Definition create_native_account (env : native_env) (initial_timestamp : Z) (sysio_abi : list Z) (name : Z)
    (owner active : authority) (is_privileged : bool) (s : native_state) : res native_state :=
  s ← create_account env name initial_timestamp (if name =? sysio_name then sysio_abi else [])
        (if is_privileged then 1 else 0) initial_timestamp (fun _ => Ok tt) owner active s;
  rl ← add_pending_ram_usage name (account_ram env owner active) (ns_rl s);
  _ ← verify_account_ram_usage name rl;
  Ok (set_limits rl s).

Definition null_account_name : Z := Eval vm_compute in n_ "sysio.null".
Definition producers_account_name : Z := Eval vm_compute in n_ "sysio.prods".
Definition majority_producers_permission_name : Z := Eval vm_compute in n_ "prod.major".
Definition minority_producers_permission_name : Z := Eval vm_compute in n_ "prod.minor".

(** [controller_impl::initialize_database], from the permissions on, on empty tables. *)
Definition initialize_accounts (env : native_env) (initial_timestamp : Z) (sysio_abi : list Z)
    (initial_key : public_key) (t : @table_state TT KT IT) : res native_state :=
  d ← AuthorizationManager.initialize_database empty_db;
  let s := mk_native idx_empty idx_empty idx_empty d ResourceLimits.initialize_database t in
  let system_auth := mk_authority 1 [mk_kw initial_key 1] [] [] in
  let empty_authority := mk_authority 1 [] [] [] in
  let active_producers := mk_authority 1 [] [mk_plw (mk_level sysio_name active_name) 1] [] in
  let create := create_native_account env initial_timestamp sysio_abi in
  s ← create sysio_name system_auth system_auth true s;
  s ← create null_account_name empty_authority empty_authority false s;
  s ← create producers_account_name empty_authority active_producers false s;
  active_permission ← get_permission (ns_auth s) (mk_level producers_account_name active_name);
  '(d, majority) ← create_permission (ne_auth env) (ns_auth s) producers_account_name
                     majority_producers_permission_name (po_id active_permission) active_producers initial_timestamp;
  '(d, _) ← create_permission (ne_auth env) d producers_account_name
              minority_producers_permission_name (po_id majority) active_producers initial_timestamp;
  Ok (set_auth d s).
End native.
