(* ===== verification/NativeCode.v ===== *)
(** * Contract code shared between accounts ([setcode] in [sysio_contract.cpp])

    The rows of the code table are shared: their reference counts are the numbers
    of accounts that run them, no account runs code that is missing and no code
    stays without an account, whatever [setcode] does. *)

From S2P Require Import Prelude Exceptions Types Chainbase ObjectIndex Authority AuthorizationManager.
From S2P Require Import IteratorCache ContractTables ContractTableProps ActionExecution NativeActions.

Notation code_key := (digest * Z * Z)%type.

Definition key_of (m : account_metadata_object) : code_key := (code_hash m, vm_type m, vm_version m).

(** 1 when the account runs the code [k]. *)
Definition uses (k : code_key) (m : account_metadata_object) : Z :=
  if bool_decide (code_hash m <> digest_zero /\ key_of m = k) then 1 else 0.
Definition users (k : code_key) (ms : gmap Z account_metadata_object) : Z := row_sum (uses k) ms.

Definition one_at (k k' : code_key) : Z := if bool_decide (k = k') then 1 else 0.

(** The code table counts [n]: rows carry positive counts, missing rows count 0. *)
Definition counted (n : code_key -> Z) (cs : gmap code_key code_object) : Prop :=
  forall k, match cs !! k with
            | Some o => code_ref_count o = n k /\ 0 < n k
            | None => n k = 0
            end.

(** The rows are filed under the hash of their code. *)
Definition hashed (sha256 : list Z -> digest) (cs : gmap code_key code_object) : Prop :=
  forall k o, cs !! k = Some o -> k.1.1 = sha256 (code o) /\ zlength (code o) < 2 ^ 32.

Definition codes_wf (sha256 : list Z -> digest) (ms : gmap Z account_metadata_object)
    (cs : gmap code_key code_object) : Prop :=
  counted (fun k => users k ms) cs /\ hashed sha256 cs.

(** What an account is billed for its code. *)
Definition code_bill (cs : gmap code_key code_object) (m : account_metadata_object) : Z :=
  if bool_decide (code_hash m = digest_zero) then 0
  else default 0 ((fun o => zlength (code o) * setcode_ram_bytes_multiplier) <$> cs !! key_of m).

Lemma uses_nonneg k m : 0 <= uses k m <= 1.
Proof. unfold uses. case_bool_decide; lia. Qed.

Lemma uses_key m : code_hash m <> digest_zero -> forall k, uses k m = one_at (key_of m) k.
Proof. intros Hm k. unfold uses, one_at. do 2 case_bool_decide; tauto || done. Qed.

Lemma uses_none k m : code_hash m = digest_zero -> uses k m = 0.
Proof. intros Hm. unfold uses. case_bool_decide; [|done]. tauto. Qed.

Lemma users_bounds k ms : 0 <= users k ms <= Z.of_nat (size ms).
Proof.
  unfold users. induction ms as [|i m ms Hi IH] using map_ind.
  - rewrite row_sum_empty, map_size_empty. done.
  - rewrite row_sum_insert, map_size_insert_None by done. pose proof (uses_nonneg k m). lia.
Qed.

Lemma users_without k ms a m :
  ms !! a = Some m -> users k ms - uses k m = users k (delete a ms) /\
  users k (delete a ms) + 1 <= Z.of_nat (size ms).
Proof.
  intros Ha. unfold users. rewrite (row_sum_delete _ _ m) by done. split; [lia|].
  pose proof (users_bounds k (delete a ms)) as Hb. unfold users in Hb.
  rewrite (row_sum_delete _ _ m), (map_size_delete_Some a ms) in Hb by eauto.
  assert (size ms <> 0%nat) by (intros ->%map_size_empty_iff; by rewrite lookup_empty in Ha). lia.
Qed.

(** An account with code finds it. *)
Lemma code_found sha ms cs a m :
  codes_wf sha ms cs -> ms !! a = Some m -> code_hash m <> digest_zero ->
  exists o, cs !! key_of m = Some o /\ code_ref_count o = users (key_of m) ms /\
    0 < users (key_of m) ms.
Proof.
  intros [Hc _] Ha Hm. specialize (Hc (key_of m)).
  assert (0 < users (key_of m) ms).
  { unfold users. pose proof (row_sum_ge (uses (key_of m)) ms a m (fun _ _ _ => proj1 (uses_nonneg _ _)) Ha) as Hg.
    rewrite uses_key in Hg by done. unfold one_at in Hg. rewrite bool_decide_eq_true_2 in Hg by done. lia. }
  destruct (cs !! key_of m) as [o|]; [|lia]. naive_solver.
Qed.

Lemma codes_wf_ext sha ms ms' cs :
  (forall k, users k ms' = users k ms) -> codes_wf sha ms cs -> codes_wf sha ms' cs.
Proof. intros E [Hc Hh]. split; [|done]. intros k. rewrite E. apply Hc. Qed.

(** A new account has no code. *)
Lemma codes_wf_insert sha ms cs a m :
  ms !! a = None -> code_hash m = digest_zero -> codes_wf sha ms cs -> codes_wf sha (<[a := m]> ms) cs.
Proof.
  intros Ha Hm. apply codes_wf_ext. intros k. unfold users. rewrite row_sum_insert, uses_none by done. lia.
Qed.

(** The code of an account does not change. *)
Lemma codes_wf_update sha ms cs a m m' :
  ms !! a = Some m -> key_of m' = key_of m -> codes_wf sha ms cs -> codes_wf sha (<[a := m']> ms) cs.
Proof.
  intros Ha Em. apply codes_wf_ext. intros k. unfold users. rewrite (row_sum_update _ _ m) by done.
  assert (code_hash m' = code_hash m) as Eh by (unfold key_of in Em; congruence).
  unfold uses. rewrite Em, Eh. lia.
Qed.

Lemma code_bill_update cs (ms : gmap Z account_metadata_object) a m m' :
  ms !! a = Some m -> key_of m' = key_of m ->
  row_sum (code_bill cs) (<[a := m']> ms) = row_sum (code_bill cs) ms.
Proof.
  intros Ha Em. rewrite (row_sum_update _ _ m) by done.
  assert (code_hash m' = code_hash m) as Eh by (unfold key_of in Em; congruence).
  unfold code_bill. rewrite Em, Eh. lia.
Qed.

Section setcode.
Context `{SoftFloat} {TT KT IT TP TU TL TG TA TM TC LT UT : Type}.
Context `{!ObjectIndex table_id_object TT tid_conflict}.
Context `{!ObjectIndex key_value_object KT kv_conflict}.
Context `{!ObjectIndex index_object IT ix_conflict}.
Context `{!ChainIndex Z permission_object TP} `{!ChainIndex Z Z TU}
  `{!ChainIndex (Z * Z * Z) Z TL} `{!ChainIndex digest generated_transaction TG}.
Context `{!ChainIndex Z account_object TA} `{!ChainIndex Z account_metadata_object TM}
  `{!ChainIndex (digest * Z * Z) code_object TC}.
Local Notation nstate := (@native_state TT KT IT TP TU TL TG TA TM TC LT UT).
Implicit Types s : nstate.
Local Notation metas s := (idx_view (ns_metadata s)).
Local Notation codes s := (idx_view (ns_codes s)).

(** [cs'] holds the code of every row of [cs] that [n] still counts. *)
Definition code_kept (n : code_key -> Z) (cs cs' : gmap code_key code_object) : Prop :=
  forall k o, cs !! k = Some o -> 0 < n k -> exists o', cs' !! k = Some o' /\ code o' = code o.

Lemma release_code_counts m h s s' sz n :
  counted n (codes s) -> n (key_of m) < 2 ^ 64 -> release_code m h s = Ok (sz, s') ->
  let n' k := n k - one_at (key_of m) k in
  s' = set_codes (ns_codes s') s /\ code_hash m <> h /\ counted n' (codes s') /\
  code_kept n' (codes s) (codes s') /\ (forall sha, hashed sha (codes s) -> hashed sha (codes s')) /\
  (forall k, k <> key_of m -> codes s' !! k = codes s !! k) /\
  exists o, codes s !! key_of m = Some o /\ sz = i64 (zlength (code o) * setcode_ram_bytes_multiplier).
Proof.
  intros Hn Hlt. unfold release_code. intros (o & Ho%db_get_Ok & Hr)%bind_Ok.
  apply bind_Ok in Hr as ([] & Hne%sys_assert_Ok%negb_true_iff%bool_decide_eq_false & [= <- <-]). cbn.
  change (code_hash m, vm_type m, vm_version m) with (key_of m) in *.
  pose proof (Hn (key_of m)) as Hk. rewrite Ho in Hk. destruct Hk as [Hrc Hpos].
  assert (one_at (key_of m) (key_of m) = 1) as E1 by (unfold one_at; by rewrite bool_decide_eq_true_2).
  assert (forall k, k <> key_of m -> one_at (key_of m) k = 0) as E0.
  { intros k Hk. unfold one_at. by rewrite bool_decide_eq_false_2. }
  split; [done|]. split; [done|]. destruct (code_ref_count o =? 1) eqn:E; bool_to_Z.
  - rewrite idx_remove_view. split_and!; [| | |intros; by rewrite lookup_delete_ne|by eauto].
    + intros k. destruct (decide (k = key_of m)) as [->|Hk].
      * rewrite lookup_delete_eq, E1. lia.
      * rewrite lookup_delete_ne, E0 by done. specialize (Hn k). rewrite Z.sub_0_r. done.
    + intros k v Hv Hp. destruct (decide (k = key_of m)) as [->|Hk]; [rewrite E1 in Hp; lia|].
      exists v. by rewrite lookup_delete_ne.
    + intros sha Hh k v [_ Hv]%lookup_delete_Some. by apply Hh.
  - rewrite idx_modify_view. split_and!; [| | |intros; by rewrite lookup_alter_ne|by eauto].
    + intros k. destruct (decide (k = key_of m)) as [->|Hk].
      * rewrite lookup_alter_eq, Ho, E1. cbn. rewrite Hrc, u64_small by lia. lia.
      * rewrite lookup_alter_ne, E0 by done. specialize (Hn k). rewrite Z.sub_0_r. done.
    + intros k v Hv _. destruct (decide (k = key_of m)) as [->|Hk].
      * rewrite lookup_alter_eq, Hv. eauto.
      * rewrite lookup_alter_ne by done. eauto.
    + intros sha Hh k v. destruct (decide (k = key_of m)) as [->|Hk].
      * rewrite lookup_alter_eq, Ho. intros [= <-]. by apply (Hh _ o).
      * rewrite lookup_alter_ne by done. apply Hh.
Qed.

Lemma acquire_code_counts env a h s s' n :
  let key := (h, sc_vmtype a, sc_vmversion a) in
  counted n (codes s) -> n key + 1 < 2 ^ 64 -> acquire_code env a h s = Ok s' ->
  s' = set_codes (ns_codes s') s /\ counted (fun k => n k + one_at key k) (codes s') /\
  code_kept (fun _ => 1) (codes s) (codes s') /\
  (forall sha, sha (sc_code a) = h -> zlength (sc_code a) < 2 ^ 32 -> hashed sha (codes s) -> hashed sha (codes s')) /\
  exists o, codes s' !! key = Some o /\ code o = default (sc_code a) (code <$> codes s !! key).
Proof.
  intros key Hn Hlt. unfold acquire_code. fold key. rewrite idx_find_view.
  intros (cs & Hcs & [= <-])%bind_Ok. cbn. split; [done|].
  assert (one_at key key = 1) as E1 by (unfold one_at; by rewrite bool_decide_eq_true_2).
  assert (forall k, k <> key -> one_at key k = 0) as E0.
  { intros k Hk. unfold one_at. by rewrite bool_decide_eq_false_2. }
  pose proof (Hn key) as Hk. destruct (codes s !! key) as [o|] eqn:Ho.
  - injection Hcs as <-. destruct Hk as [Hrc Hpos]. rewrite idx_modify_view. split_and!.
    + intros k. destruct (decide (k = key)) as [->|Hk].
      * rewrite lookup_alter_eq, Ho, E1. cbn. rewrite Hrc, u64_small by lia. lia.
      * rewrite lookup_alter_ne, E0, Z.add_0_r by done. apply Hn.
    + intros k v Hv _. destruct (decide (k = key)) as [->|Hk].
      * rewrite lookup_alter_eq, Hv. eauto.
      * rewrite lookup_alter_ne by done. eauto.
    + intros sha _ _ Hh k v. destruct (decide (k = key)) as [->|Hk].
      * rewrite lookup_alter_eq, Ho. intros [= <-]. by apply (Hh _ o).
      * rewrite lookup_alter_ne by done. apply Hh.
    + rewrite lookup_alter_eq, Ho. eexists. split; [done|]. done.
  - apply db_create_Ok in Hcs as [_ Hcs]. rewrite Hcs. split_and!.
    + intros k. destruct (decide (k = key)) as [->|Hne].
      * rewrite lookup_insert_eq, E1, Hk. cbn. lia.
      * rewrite lookup_insert_ne, E0, Z.add_0_r by done. apply Hn.
    + intros k v Hv _. rewrite lookup_insert_ne by congruence. eauto.
    + intros sha Hsha Hlen Hh k v [[<- <-]|[_ Hv]]%lookup_insert_Some; [done|]. by apply Hh.
    + rewrite lookup_insert_eq. eauto.
Qed.

(** ** RAM of a native action *)

(** Only the counters of the transaction and of the action move. *)
Record ram_moved (d : Z) (t t' : @table_state TT KT IT) : Prop := {
  rm_tables : tables t' = tables t;
  rm_key_values : key_values t' = key_values t;
  rm_indices : indices t' = indices t;
  rm_keyval_cache : keyval_cache t' = keyval_cache t;
  rm_itr_cache : itr_cache t' = itr_cache t;
  rm_used : ram_used t' None = ram_used t None + d }.

Lemma ram_moved_refl t : ram_moved 0 t t.
Proof. split; [done..|]. lia. Qed.

Lemma ram_moved_wf d t t' : ram_moved d t t' -> table_state_wf t -> table_state_wf t' /\ billed t' None = billed t None.
Proof.
  intros [Et Ek Ei Ec Ex _] W. unfold billed, table_state_wf, rows_of, tables_of, kv_of, ix_of in *. rewrite Et, Ek, Ei.
  split; [|done]. destruct W. split; unfold tables_of, kv_of, ix_of in *; by rewrite ?Et, ?Ek, ?Ei, ?Ec, ?Ex.
Qed.

Lemma use_ram_moved a d s s' :
  use_ram a d s = Ok s' -> exists t, ram_moved d (ns_tables s) t /\
    s' = mk_native (ns_accounts s) (ns_metadata s) (ns_codes s) (ns_auth s) (ns_rl s) t.
Proof.
  unfold use_ram. intros (t & Ht%add_ram_usage_charged & [= <-])%bind_Ok. exists t. split; [|done].
  destruct Ht as [? ? ? ? ? Hu]. split; [done..|]. rewrite Hu. cbn. lia.
Qed.

Lemma use_ram_if_moved (b : bool) a d s s' :
  (if b then use_ram a d s else Ok s) = Ok s' -> (b = false -> d = 0) ->
  exists t, ram_moved d (ns_tables s) t /\
    s' = mk_native (ns_accounts s) (ns_metadata s) (ns_codes s) (ns_auth s) (ns_rl s) t.
Proof.
  destruct b; intros Hs Hd; [by eapply use_ram_moved|]. rewrite Hd by done. injection Hs as <-.
  exists (ns_tables s). split; [apply ram_moved_refl|by destruct s].
Qed.
(** ** [setcode] *)

Lemma code_size_small z : 0 <= z < 2 ^ 32 -> i64 (z * setcode_ram_bytes_multiplier) = z * setcode_ram_bytes_multiplier.
Proof. intros. apply i64_small. unfold setcode_ram_bytes_multiplier. lia. Qed.

(** The code of the account is given up, if it has any. *)
Lemma drop_code_spec sha a m h s s' sz :
  codes_wf sha (metas s) (codes s) -> Z.of_nat (size (metas s)) < 2 ^ 64 -> metas s !! a = Some m ->
  (if negb (bool_decide (code_hash m = digest_zero)) then release_code m h s else Ok (0, s)) = Ok (sz, s') ->
  let n k := users k (metas s) - uses k m in
  s' = set_codes (ns_codes s') s /\ counted n (codes s') /\ code_kept n (codes s) (codes s') /\
  hashed sha (codes s') /\ (forall k, k.1.1 = h -> h <> digest_zero -> codes s' !! k = codes s !! k) /\
  sz = code_bill (codes s) m.
Proof.
  intros [Hc Hh] Hsz Ha Hr n. unfold code_bill. case_bool_decide as Hz; cbn in Hr.
  - injection Hr as <- <-. split_and!; [by destruct s| |intros k o; eauto|done|done|done].
    intros k. specialize (Hc k). unfold n. rewrite uses_none, Z.sub_0_r by done. done.
  - destruct (users_without (key_of m) _ _ _ Ha) as [Hu1 Hu2].
    pose proof (users_bounds (key_of m) (delete a (metas s))). pose proof (uses_nonneg (key_of m) m).
    apply (release_code_counts _ _ _ _ _ _ Hc) in Hr as (E & Hne & Hc' & Hk & Hh' & Ho & o & Hoo & ->); [|lia].
    assert (forall k, n k = users k (metas s) - one_at (key_of m) k) as En by (intros k; unfold n; by rewrite uses_key).
    split_and!; [done| | |by apply Hh'| |].
    + intros k. specialize (Hc' k). by rewrite En.
    + intros k v. rewrite En. apply Hk.
    + intros k <- _. apply Ho. intros ->. done.
    + rewrite Hoo. cbn. apply code_size_small. apply Hh in Hoo. lia.
Qed.

(** The new code is taken up, if there is any; [m'] is the metadata after. *)
Lemma take_code_spec env a h s s' n m' :
  h = (if 0 <? zlength (sc_code a) then ne_sha256 env (sc_code a) else digest_zero) ->
  key_of m' = (h, sc_vmtype a, sc_vmversion a) -> (forall b, ne_sha256 env b <> digest_zero) ->
  zlength (sc_code a) < 2 ^ 32 -> counted n (codes s) -> hashed (ne_sha256 env) (codes s) ->
  n (key_of m') + 1 < 2 ^ 64 ->
  (if 0 <? zlength (sc_code a) then acquire_code env a h s else Ok s) = Ok s' ->
  s' = set_codes (ns_codes s') s /\ counted (fun k => n k + uses k m') (codes s') /\
  code_kept (fun _ => 1) (codes s) (codes s') /\ hashed (ne_sha256 env) (codes s') /\
  (0 < zlength (sc_code a) -> exists o, codes s' !! key_of m' = Some o /\
     code o = default (sc_code a) (code <$> codes s !! key_of m')).
Proof.
  intros Eh Ek Hsha Hlen Hc Hh Hlt Hs. destruct (0 <? zlength (sc_code a)) eqn:E; bool_to_Z.
  - rewrite Ek in *. apply (acquire_code_counts _ _ _ _ _ _ Hc) in Hs as (E' & Hc' & Hk & Hh' & o & Ho & Eo); [|done].
    assert (code_hash m' = h) as Em by (unfold key_of in Ek; congruence).
    split_and!; [done| |done|by apply Hh'|by eauto].
    intros k. rewrite uses_key, Ek by (rewrite Em, Eh; apply Hsha). apply Hc'.
  - injection Hs as <-. assert (code_hash m' = digest_zero) as Em by (unfold key_of in Ek; congruence).
    split_and!; [by destruct s| |intros k o; eauto|done|lia].
    intros k. rewrite uses_none, Z.add_0_r by done. apply Hc.
Qed.
(** What [setcode] does, to the byte: [m] and [m'] are the metadata of the account
    before and after. *)
Record setcode_effect env (a : setcode) (m m' : account_metadata_object) s s' : Prop := {
  se_before : metas s !! sc_account a = Some m;
  se_metadata : metas s' = <[sc_account a := m']> (metas s);
  se_hash : code_hash m' = (if 0 <? zlength (sc_code a) then ne_sha256 env (sc_code a) else digest_zero);
  se_sequence : code_sequence m' = u64 (code_sequence m + 1);
  se_kept : recv_sequence m' = recv_sequence m /\ auth_sequence m' = auth_sequence m /\
            abi_sequence m' = abi_sequence m /\ amo_flags m' = amo_flags m;
  se_wf : codes_wf (ne_sha256 env) (metas s') (codes s');
  se_others i x : i <> sc_account a -> metas s !! i = Some x -> code_hash x <> digest_zero ->
    exists o o', codes s !! key_of x = Some o /\ codes s' !! key_of x = Some o' /\ code o' = code o;
  se_code : 0 < zlength (sc_code a) -> exists o, codes s' !! key_of m' = Some o /\
              code o = default (sc_code a) (code <$> codes s !! key_of m');
  se_ram : ram_moved (zlength (sc_code a) * setcode_ram_bytes_multiplier - code_bill (codes s) m)
             (ns_tables s) (ns_tables s');
  se_rest : ns_accounts s' = ns_accounts s /\ ns_auth s' = ns_auth s /\ ns_rl s' = ns_rl s }.

Lemma code_bill_range sha ms cs m : codes_wf sha ms cs -> 0 <= code_bill cs m < 2 ^ 36.
Proof.
  intros [_ Hh]. unfold code_bill. case_bool_decide; [done|].
  destruct (cs !! key_of m) as [o|] eqn:Ho; cbn; [|done]. apply Hh in Ho. unfold setcode_ram_bytes_multiplier. lia.
Qed.

Lemma se_others_bill env a m m' s s' i x :
  setcode_effect env a m m' s s' -> i <> sc_account a -> metas s !! i = Some x ->
  code_bill (codes s') x = code_bill (codes s) x.
Proof.
  intros E Hi Hx. unfold code_bill. case_bool_decide as Hz; [done|].
  destruct (se_others _ _ _ _ _ _ E i x Hi Hx Hz) as (o & o' & -> & -> & Eo). cbn. by rewrite Eo.
Qed.

Lemma setcode_body_effect env c a s s' :
  codes_wf (ne_sha256 env) (metas s) (codes s) -> Z.of_nat (size (metas s)) < 2 ^ 64 ->
  (forall b, ne_sha256 env b <> digest_zero) -> zlength (sc_code a) < 2 ^ 32 ->
  setcode_body env c a s = Ok s' -> exists m m', setcode_effect env a m m' s s'.
Proof.
  intros Hwf Hsz Hsha Hlen. unfold setcode_body. intros Hr. inv_res1. inv_res1. inv_res1. inv_res1. inv_res1.
  match goal with H' : db_get _ _ = Ok ?x |- _ => rename H' into Hm; rename x into m end. inv_res1.
  apply db_get_Ok in Hm. apply bind_Ok in Hr as ([old_size s1] & Hdrop & Hr).
  apply bind_Ok in Hr as (s2 & Htake & Hr). set (h := if 0 <? zlength (sc_code a) then ne_sha256 env (sc_code a) else digest_zero) in *.
  destruct (drop_code_spec _ _ _ _ _ _ _ Hwf Hsz Hm Hdrop) as (E1 & Hc1 & Hk1 & Hh1 & Hlook & ->).
  set (m' := mk_amo (recv_sequence m) (auth_sequence m) (u64 (code_sequence m + 1)) (abi_sequence m) h
               (pending_block_time (ne_auth env)) (amo_flags m) (sc_vmtype a) (sc_vmversion a)).
  destruct (users_without (key_of m') _ _ _ Hm) as [Hu1 Hu2].
  destruct (take_code_spec env a h s1 s2 _ m' eq_refl eq_refl Hsha Hlen Hc1 Hh1 ltac:(lia) Htake)
    as (E2 & Hc2 & Hk2 & Hh2 & Hcode).
  pose proof (code_bill_range _ _ _ m Hwf) as Hold.
  rewrite code_size_small in Hr by lia. rewrite i64_small in Hr by (unfold setcode_ram_bytes_multiplier; lia).
  apply use_ram_if_moved in Hr as (t & Ht & ->); [|intros E%negb_false_iff; bool_to_Z; lia].
  rewrite E2, E1 in Ht. exists m, m'.
  assert (idx_view (idx_modify (sc_account a) (fun m =>
             mk_amo (recv_sequence m) (auth_sequence m) (u64 (code_sequence m + 1)) (abi_sequence m) h
               (pending_block_time (ne_auth env)) (amo_flags m) (sc_vmtype a) (sc_vmversion a)) (ns_metadata s2))
          = <[sc_account a := m']> (metas s)) as Em.
  { rewrite E2, E1. cbn. rewrite idx_modify_view. apply map_eq. intros i.
    destruct (decide (i = sc_account a)) as [->|Hi]; [by rewrite lookup_alter_eq, lookup_insert_eq, Hm|].
    by rewrite lookup_alter_ne, lookup_insert_ne. }
  split; cbn; rewrite ?Em; try done.
  - split; [|done]. intros k. specialize (Hc2 k). cbn in Hc2.
    unfold users. rewrite (row_sum_update _ _ m) by done. exact Hc2.
  - intros i y Hi Hx Hy0. destruct (code_found _ _ _ _ _ Hwf Hx Hy0) as (o & Ho & _).
    destruct (users_without (key_of y) _ _ _ Hm) as [Hn _].
    assert (delete (sc_account a) (metas s) !! i = Some y) as Hx' by (by rewrite lookup_delete_ne).
    pose proof (row_sum_ge (uses (key_of y)) _ _ _ (fun _ _ _ => proj1 (uses_nonneg _ _)) Hx') as Hg.
    rewrite uses_key in Hg by done. unfold one_at in Hg. rewrite bool_decide_eq_true_2 in Hg by done.
    destruct (Hk1 _ _ Ho) as (o1 & Ho1 & Eo1); [rewrite Hn; unfold users; lia|].
    destruct (Hk2 _ _ Ho1) as (o2 & Ho2 & Eo2); [done|]. exists o, o2. by rewrite Eo2.
  - intros Hpos. destruct (Hcode Hpos) as (o & Ho & Eo). exists o. split; [done|]. rewrite Eo.
    rewrite Hlook; [done|done|]. unfold h. rewrite (proj2 (Z.ltb_lt _ _) Hpos). apply Hsha.
  - by rewrite E2, E1.
Qed.
End setcode.
