(* ===== verification/NativeAccounts.v ===== *)
(** * Accounts and permissions under the native actions

    The invariant that ties the account, metadata, permission, link and resource
    tables together, and its preservation by the native actions: every account has
    its [owner] and [active] permissions and its resource rows, every permission
    and link belongs to an account. *)

From S2P Require Import Prelude Exceptions Types Chainbase ObjectIndex Name Authority AuthorizationManager.
From S2P Require Import ResourceLimits IteratorCache ContractTables ContractTableProps ActionExecution.
From S2P Require Import NativeActions NativeCode.

(** ** Sizes of authorities *)

Definition entries (auth : authority) : Z :=
  zlength (keys auth) + zlength (accounts auth) + zlength (waits auth).

Lemma u64_le z : 0 <= z -> 0 <= u64 z <= z.
Proof. intros Hz. unfold u64. pose proof (Z.mod_le z (2 ^ 64) Hz). pose proof (Z.mod_pos_bound z (2 ^ 64)). lia. Qed.

Lemma keys_size_bound pack (l : list key_weight) acc :
  (forall k, 0 <= pack k < 2 ^ 32) -> 0 <= acc ->
  0 <= fold_left (fun sz k => u64 (u64 (sz + billable_size_v 8) + pack (kw_key k))) l acc
    <= acc + zlength l * (2 ^ 32 + 16).
Proof.
  intros Hp. revert acc. induction l as [|k l IH]; intros acc Hacc; cbn [fold_left length]; [lia|].
  change (billable_size_v 8) with 16. specialize (Hp (kw_key k)).
  pose proof (u64_le (acc + 16)). pose proof (u64_le (u64 (acc + 16) + pack (kw_key k))).
  specialize (IH (u64 (u64 (acc + 16) + pack (kw_key k)))). rewrite Nat2Z.inj_succ.
  change (billable_size_v 8) with 16 in IH. lia.
Qed.

Lemma billable_size_bound pack auth :
  (forall k, 0 <= pack k < 2 ^ 32) -> entries auth <= 2 ^ 16 ->
  0 <= get_billable_size pack auth < 2 ^ 50.
Proof.
  intros Hp He. unfold get_billable_size, entries in *.
  pose proof (keys_size_bound pack (keys auth) 0 Hp) as Hk. change (billable_size_v 24) with 32.
  change (billable_size_v 16) with 16.
  pose proof (u64_le (zlength (accounts auth) * 32)). pose proof (u64_le (zlength (waits auth) * 16)).
  set (x := u64 (_ * 32)) in *. set (y := u64 (_ * 16)) in *. set (z := fold_left _ _ _) in *.
  pose proof (u64_le (x + y + z)). nia.
Qed.

Lemma validate_entries auth : entries auth < 2 ^ 64 -> validate auth = true -> entries auth <= 2 ^ 16.
Proof.
  unfold entries, validate. intros He. rewrite u64_small by lia. destruct (2 ^ 16 <? _) eqn:E; [done|].
  bool_to_Z. lia.
Qed.

(** ** What the actions rely on *)

(** Unpacked vectors have lengths, and names 64 bits; packed keys are short; the
    hash of a contract is never the all-zero hash, which stands for no contract. *)
Record native_laws (env : native_env) : Prop := {
  nl_pack k : 0 <= ne_pack_size env k < 2 ^ 32;
  nl_sha b : ne_sha256 env b <> digest_zero;
  nl_newaccount d n : as_newaccount (ne_codec env) d = Ok n ->
    0 <= na_name n < 2 ^ 64 /\ entries (na_owner n) < 2 ^ 64 /\ entries (na_active n) < 2 ^ 64;
  nl_setcode d a : as_setcode (ne_codec env) d = Ok a -> zlength (sc_code a) < 2 ^ 32;
  nl_setabi d a : as_setabi (ne_codec env) d = Ok a -> zlength (sa_abi a) < 2 ^ 32;
  nl_updateauth d u : as_updateauth (nc_codec (ne_codec env)) d = Ok u -> entries (ua_auth u) < 2 ^ 64 }.

Section accounts.
Context `{SoftFloat} {TT KT IT TP TU TL TG TA TM TC LT UT : Type}.
Context `{!ObjectIndex table_id_object TT tid_conflict}.
Context `{!ObjectIndex key_value_object KT kv_conflict}.
Context `{!ObjectIndex index_object IT ix_conflict}.
Context `{!ChainIndex Z permission_object TP} `{!ChainIndex Z Z TU}
  `{!ChainIndex (Z * Z * Z) Z TL} `{!ChainIndex digest generated_transaction TG}.
Context `{!ChainIndex Z account_object TA} `{!ChainIndex Z account_metadata_object TM}
  `{!ChainIndex (digest * Z * Z) code_object TC}.
Context `{!ChainIndex (bool * Z) resource_limits_object LT} `{!ChainIndex Z resource_usage_object UT}.
Local Notation nstate := (@native_state TT KT IT TP TU TL TG TA TM TC LT UT).
Implicit Types s : nstate.
Local Notation accs s := (idx_view (ns_accounts s)).
Local Notation metas s := (idx_view (ns_metadata s)).
Local Notation codes s := (idx_view (ns_codes s)).
Local Notation perms d := (idx_view (permissions d)).

Definition has_perm (P : gmap Z permission_object) (i owner name parent : Z) : Prop :=
  exists p, P !! i = Some p /\ po_owner p = owner /\ po_name p = name /\ po_parent p = parent.

(** [owner] at the root and [active] below it. *)
Definition has_basic_perms (P : gmap Z permission_object) (a : Z) : Prop :=
  exists i j, i <> 0 /\ has_perm P i a owner_name 0 /\ has_perm P j a active_name i.

(** The accounts in [ex] are under construction. *)
Record accounts_wf (pack : public_key -> Z) (ex : Z -> Prop) s : Prop := {
  nw_auth : auth_wf (ns_auth s);
  nw_names a : is_Some (accs s !! a) -> 0 < a < 2 ^ 64;
  nw_metadata a : is_Some (accs s !! a) <-> is_Some (metas s !! a);
  nw_holder i p : perms (ns_auth s) !! i = Some p -> i <> 0 -> is_Some (accs s !! po_owner p);
  nw_basic a : is_Some (accs s !! a) -> ~ ex a -> has_basic_perms (perms (ns_auth s)) a;
  nw_root i p : perms (ns_auth s) !! i = Some p -> i <> 0 -> po_parent p = 0 -> po_name p = owner_name;
  nw_limits a : is_Some (accs s !! a) -> ~ ex a ->
    is_Some (idx_view (limits_idx (ns_rl s)) !! (false, a)) /\ is_Some (idx_view (usage_idx (ns_rl s)) !! a);
  nw_links a c t r : idx_view (links (ns_auth s)) !! (a, c, t) = Some r ->
    is_Some (accs s !! a) /\ is_Some (accs s !! c);
  nw_permission_size i p : perms (ns_auth s) !! i = Some p -> 0 <= get_billable_size pack (po_auth p) < 2 ^ 50;
  nw_abi_size a o : accs s !! a = Some o -> zlength (abi o) < 2 ^ 32;
  nw_packed_size i g : idx_view (generated (ns_auth s)) !! i = Some g -> 0 <= gt_packed_size g < 2 ^ 32 }.

(** No account is under construction between actions. *)
Definition none : Z -> Prop := fun _ => False.

Lemma few_accounts pack ex s : accounts_wf pack ex s -> Z.of_nat (size (metas s)) < 2 ^ 64.
Proof.
  intros W. assert (size (metas s) <= length (seqZ 1 (2 ^ 64 - 1)))%nat as Hle.
  { rewrite <- size_dom. rewrite <- (size_list_to_set (C := gset Z) (seqZ 1 (2 ^ 64 - 1))) by apply NoDup_seqZ.
    apply subseteq_size. intros a Ha%elem_of_dom. apply elem_of_list_to_set, elem_of_seqZ.
    apply (nw_metadata _ _ _ W), (nw_names _ _ _ W) in Ha. lia. }
  rewrite length_seqZ in Hle. lia.
Qed.
(** ** Changes of the permission table *)

Lemma create_permission_Ok env (d d' : auth_db TP TU TL TG) account name parent auth t p :
  create_permission env d account name parent auth t = Ok (d', p) ->
  po_owner p = account /\ po_name p = name /\ po_parent p = parent /\ po_auth p = auth /\
  links d' = links d /\ generated d' = generated d.
Proof.
  unfold create_permission. intros (_ & _ & Hr)%bind_Ok. apply bind_Ok in Hr as (u & _ & Hr).
  apply bind_Ok in Hr as (_ & _ & Hr). by apply bind_Ok in Hr as (x & _ & [= <- <-]).
Qed.

Lemma modify_permission_same env (d d' : auth_db TP TU TL TG) p auth :
  modify_permission env d p auth = Ok d' -> links d' = links d /\ generated d' = generated d.
Proof. unfold modify_permission. intros (_ & _ & (t & _ & [= <-])%bind_Ok)%bind_Ok. done. Qed.

Lemma remove_permission_same (d d' : auth_db TP TU TL TG) p :
  remove_permission d p = Ok d' -> links d' = links d /\ generated d' = generated d.
Proof. unfold remove_permission. intros (_ & _ & (u & _ & [= <-])%bind_Ok)%bind_Ok. done. Qed.

Lemma has_perm_mono (P Q : gmap Z permission_object) i a n par :
  (forall p, P !! i = Some p -> po_owner p = a -> po_name p = n -> po_parent p = par ->
     exists q, Q !! i = Some q /\ po_owner q = po_owner p /\ po_name q = po_name p /\ po_parent q = po_parent p) ->
  has_perm P i a n par -> has_perm Q i a n par.
Proof.
  intros Hk (p & Hp & <- & <- & <-). destruct (Hk p Hp) as (q & Hq & E1 & E2 & E3); [done..|].
  exists q. by rewrite E1, E2, E3.
Qed.

Lemma basic_perms_mono (P Q : gmap Z permission_object) a :
  (forall i p, P !! i = Some p -> po_name p = owner_name \/ po_name p = active_name ->
     exists q, Q !! i = Some q /\ po_owner q = po_owner p /\ po_name q = po_name p /\ po_parent q = po_parent p) ->
  has_basic_perms P a -> has_basic_perms Q a.
Proof.
  intros Hk (i & j & Hi & Ho & Ha). exists i, j. split; [done|].
  split; (eapply has_perm_mono; [|done]); intros p Hp _ Hn _; apply Hk; auto.
Qed.

(** A new row for an existing account. *)
Lemma add_permission_wf pack ex env s account name parent auth t d' p :
  accounts_wf pack ex s -> is_Some (accs s !! account) -> (parent = 0 -> name = owner_name) ->
  (parent = 0 \/ exists q, perms (ns_auth s) !! parent = Some q /\ po_owner q = account) ->
  0 <= get_billable_size pack auth < 2 ^ 50 ->
  create_permission env (ns_auth s) account name parent auth t = Ok (d', p) ->
  accounts_wf pack ex (set_auth d' s) /\ has_perm (perms d') (po_id p) account name parent /\ po_id p <> 0 /\
  perms d' = <[po_id p := p]> (perms (ns_auth s)) /\ perms (ns_auth s) !! po_id p = None.
Proof.
  intros W Ha Hn Hpar Hsz Hc.
  destruct (create_permission_wf _ _ _ _ _ _ _ _ _ (nw_auth _ _ _ W) Hpar Hc) as (Hwf & HP & Hfresh).
  destruct (create_permission_Ok _ _ _ _ _ _ _ _ _ Hc) as (Eo & En & Ep & Ea & El & Eg).
  assert (forall i q, perms (ns_auth s) !! i = Some q -> perms d' !! i = Some q) as Hk.
  { intros i q Hq. rewrite HP, lookup_insert_ne by congruence. done. }
  split_and!; [split; cbn; rewrite ?El, ?Eg|..]; try apply W; try done.
  - intros i q. rewrite HP. intros [[<- <-]|[_ Hq]]%lookup_insert_Some Hi; [by rewrite Eo|].
    by apply (nw_holder _ _ _ W i).
  - intros a Hx Hex. eapply basic_perms_mono; [|by apply (nw_basic _ _ _ W)].
    intros i q Hq _. exists q. eauto.
  - intros i q. rewrite HP. intros [[<- <-]|[_ Hq]]%lookup_insert_Some Hi; [rewrite Ep, En; done|].
    by apply (nw_root _ _ _ W i).
  - intros i q. rewrite HP. intros [[<- <-]|[_ Hq]]%lookup_insert_Some; [by rewrite Ea|].
    by apply (nw_permission_size _ _ _ W i).
  - exists p. by rewrite HP, lookup_insert_eq.
  - intros E0. pose proof (aw_reserved _ (nw_auth _ _ _ W)). rewrite E0 in Hfresh. congruence.
Qed.

(** Only the authority of a row changes. *)
Lemma change_permission_wf pack ex env s auth d' i p :
  accounts_wf pack ex s -> perms (ns_auth s) !! i = Some p -> i <> 0 ->
  0 <= get_billable_size pack auth < 2 ^ 50 -> modify_permission env (ns_auth s) p auth = Ok d' ->
  accounts_wf pack ex (set_auth d' s) /\ exists q, po_auth q = auth /\
    perms d' = <[i := q]> (perms (ns_auth s)) /\ po_name q = po_name p /\ po_owner q = po_owner p.
Proof.
  intros W Hp Hi Hsz Hm. destruct (modify_permission_same _ _ _ _ _ Hm) as [El Eg].
  destruct (aw_id _ (nw_auth _ _ _ W) _ _ Hp) as [Eid _].
  eapply modify_permission_wf in Hm as (Hwf & p0 & Hp0 & HP); [|by apply W|by rewrite Eid].
  rewrite Eid in *. replace p0 with p in * by congruence. set (q := mk_permission_object _ _ _ _ _ _ _) in *.
  split; [|exists q; done].
  split; cbn; rewrite ?El, ?Eg; try apply W; try done; rewrite HP.
  - intros j x [[<- <-]|[_ Hx]]%lookup_insert_Some Hj; [by apply (nw_holder _ _ _ W i p)|].
    by apply (nw_holder _ _ _ W j).
  - intros a Hx Hex. eapply basic_perms_mono; [|by apply (nw_basic _ _ _ W)].
    intros j x Hj _. destruct (decide (j = i)) as [->|Hne].
    + exists q. rewrite lookup_insert_eq. replace x with p by congruence. done.
    + exists x. by rewrite lookup_insert_ne.
  - intros j x [[<- <-]|[_ Hx]]%lookup_insert_Some Hj; [by apply (nw_root _ _ _ W i p)|].
    by apply (nw_root _ _ _ W j).
  - intros j x [[<- <-]|[_ Hx]]%lookup_insert_Some; [done|]. by apply (nw_permission_size _ _ _ W j).
Qed.

(** A row goes that is neither [owner] nor [active]. *)
Lemma drop_permission_wf pack ex s d' i p :
  accounts_wf pack ex s -> perms (ns_auth s) !! i = Some p ->
  po_name p <> owner_name -> po_name p <> active_name -> remove_permission (ns_auth s) p = Ok d' ->
  accounts_wf pack ex (set_auth d' s) /\ perms d' = delete i (perms (ns_auth s)).
Proof.
  intros W Hp Ho Ha Hr. destruct (remove_permission_same _ _ _ Hr) as [El Eg].
  eapply remove_permission_wf in Hr as (Hwf & Hi & HP & _); [|by apply W|done]. split; [|done].
  split; cbn; rewrite ?El, ?Eg; try apply W; try done; rewrite HP.
  - intros j x [_ Hx]%lookup_delete_Some. by apply (nw_holder _ _ _ W).
  - intros a Hx Hex. eapply basic_perms_mono; [|by apply (nw_basic _ _ _ W)].
    intros j x Hj Hn. exists x. rewrite lookup_delete_ne; [done|]. intros ->. replace x with p in Hn by congruence. tauto.
  - intros j x [_ Hx]%lookup_delete_Some. by apply (nw_root _ _ _ W).
  - intros j x [_ Hx]%lookup_delete_Some. by apply (nw_permission_size _ _ _ W j).
Qed.
(** ** The invariant and the RAM bill *)

Definition native_wf (env : native_env) s : Prop :=
  accounts_wf (ne_pack_size env) none s /\ codes_wf (ne_sha256 env) (metas s) (codes s).

Definition account_bill (o : account_object) : Z := overhead_per_account_ram_bytes + zlength (abi o).
Definition permission_bill (pack : public_key -> Z) (p : permission_object) : Z :=
  permission_billable + get_billable_size pack (po_auth p).
Definition generated_bill (g : generated_transaction) : Z := generated_billable + gt_packed_size g.

(** The billable size of everything the native actions create. *)
Definition native_bill (pack : public_key -> Z) s : Z :=
  row_sum account_bill (accs s) + row_sum (code_bill (codes s)) (metas s) +
  row_sum (permission_bill pack) (perms (ns_auth s)) +
  row_sum (fun _ => link_billable) (idx_view (links (ns_auth s))) +
  row_sum generated_bill (idx_view (generated (ns_auth s))).

(** A step that keeps the invariant and charges what it adds. *)
Definition native_step (env : native_env) s s' : Prop :=
  native_wf env s' /\
  ram_moved (native_bill (ne_pack_size env) s' - native_bill (ne_pack_size env) s) (ns_tables s) (ns_tables s').

(** The RAM counters are no part of the invariant or of the bill. *)
Lemma native_step_ram env s s1 s' t d :
  s' = mk_native (ns_accounts s1) (ns_metadata s1) (ns_codes s1) (ns_auth s1) (ns_rl s1) t ->
  native_wf env s1 -> ram_moved d (ns_tables s) t ->
  native_bill (ne_pack_size env) s1 = native_bill (ne_pack_size env) s + d -> native_step env s s'.
Proof.
  intros -> [Wa Wc] Ht Hb. split; [split; [|done]; destruct Wa; by split|].
  change (native_bill _ (mk_native _ _ _ _ _ _)) with (native_bill (ne_pack_size env) s1). cbn [ns_tables].
  replace (_ - _) with d by lia. done.
Qed.

(** ** Accounts *)

Lemma add_account_wf pack s name o m ta tm :
  accounts_wf pack none s -> 0 < name < 2 ^ 64 -> zlength (abi o) < 2 ^ 32 ->
  idx_view ta = <[name := o]> (accs s) -> idx_view tm = <[name := m]> (metas s) ->
  accounts_wf pack (eq name) (set_metadata tm (set_accounts ta s)).
Proof.
  intros W Hn Habi Eta Etm.
  assert (forall a, is_Some (accs s !! a) -> is_Some (idx_view ta !! a)) as Hmono.
  { intros a Ha. rewrite Eta, lookup_insert_is_Some'. auto. }
  assert (forall a, is_Some (idx_view ta !! a) -> name <> a -> is_Some (accs s !! a)) as Hold.
  { intros a Ha Hne. by rewrite Eta, lookup_insert_ne in Ha. }
  split; cbn; try apply W.
  - intros a. rewrite Eta, lookup_insert_is_Some'. intros [<-|Ha]; [done|]. by apply (nw_names _ _ _ W).
  - intros a. rewrite Eta, Etm, !lookup_insert_is_Some'. by rewrite (nw_metadata _ _ _ W a).
  - intros i p Hp Hi. apply Hmono. by apply (nw_holder _ _ _ W i).
  - intros a Ha Hne. apply (nw_basic _ _ _ W); [by apply Hold|intros []].
  - intros a Ha Hne. apply (nw_limits _ _ _ W); [by apply Hold|intros []].
  - intros a c t r Hl. apply (nw_links _ _ _ W) in Hl as [? ?]. auto.
  - intros a x. rewrite Eta. intros [[<- <-]|[_ Hx]]%lookup_insert_Some; [done|]. by apply (nw_abi_size _ _ _ W a).
Qed.

Lemma initialize_account_rows a (rl rl' : rl_db LT UT) :
  initialize_account a rl = Ok rl' ->
  idx_view (limits_idx rl') = <[(false, a) := new_limits]> (idx_view (limits_idx rl)) /\
  idx_view (usage_idx rl') = <[a := new_usage]> (idx_view (usage_idx rl)).
Proof.
  unfold initialize_account. intros (lt & [_ ?]%db_create_Ok & (ut & [_ ?]%db_create_Ok & [= <-])%bind_Ok)%bind_Ok.
  done.
Qed.

(** Resource rows only appear. *)
Definition rows_grow (rl rl' : rl_db LT UT) : Prop :=
  (forall k, is_Some (idx_view (limits_idx rl) !! k) -> is_Some (idx_view (limits_idx rl') !! k)) /\
  (forall a, is_Some (idx_view (usage_idx rl) !! a) -> is_Some (idx_view (usage_idx rl') !! a)).

Lemma set_limits_wf pack ex s rl :
  rows_grow (ns_rl s) rl -> accounts_wf pack ex s -> accounts_wf pack ex (set_limits rl s).
Proof.
  intros [Hl Hu] W. split; cbn; try apply W. intros a Ha Hex.
  destruct (nw_limits _ _ _ W a Ha Hex). auto.
Qed.

Lemma finish_account_wf pack s name rl :
  accounts_wf pack (eq name) s -> has_basic_perms (perms (ns_auth s)) name ->
  initialize_account name (ns_rl s) = Ok rl -> accounts_wf pack none (set_limits rl s).
Proof.
  intros W Hb [El Eu]%initialize_account_rows. split; cbn; try apply W.
  - intros a Ha _. destruct (decide (name = a)) as [<-|Hne]; [done|]. by apply (nw_basic _ _ _ W).
  - intros a Ha _. rewrite El, Eu, !lookup_insert_is_Some'. destruct (decide (name = a)) as [<-|Hne]; [auto|].
    destruct (nw_limits _ _ _ W a Ha Hne). auto.
Qed.

Lemma create_account_wf env name created abi0 flags ptime check owner active s s' :
  native_wf env s -> 0 < name < 2 ^ 64 -> zlength abi0 < 2 ^ 32 ->
  0 <= get_billable_size (ne_pack_size env) owner < 2 ^ 50 ->
  0 <= get_billable_size (ne_pack_size env) active < 2 ^ 50 ->
  create_account env name created abi0 flags ptime check owner active s = Ok s' ->
  native_wf env s' /\ is_Some (accs s' !! name) /\ ns_tables s' = ns_tables s /\ ns_codes s' = ns_codes s /\
  native_bill (ne_pack_size env) s' = native_bill (ne_pack_size env) s + zlength abi0 +
    (overhead_per_account_ram_bytes + 2 * permission_billable + get_billable_size (ne_pack_size env) owner +
     get_billable_size (ne_pack_size env) active).
Proof.
  intros [W C] Hn Habi Hos Has. unfold create_account.
  intros (ta & [Hta Eta]%db_create_Ok & Hr)%bind_Ok.
  apply bind_Ok in Hr as (tm & [Htm Etm]%db_create_Ok & Hr). apply bind_Ok in Hr as ([] & _ & Hr).
  apply bind_Ok in Hr as ([d1 op] & Hop & Hr). apply bind_Ok in Hr as ([d2 ap] & Hap & Hr).
  apply bind_Ok in Hr as (rl & Hrl & [= <-]). set (s0 := set_metadata tm (set_accounts ta s)) in *.
  assert (accounts_wf (ne_pack_size env) (eq name) s0) as W0 
    by exact (add_account_wf _ _ _ (mk_account _ abi0) _ _ _ W Hn Habi Eta Etm).
  assert (is_Some (accs s0 !! name)) as Hname by (cbn; rewrite Eta, lookup_insert_eq; eauto).
  destruct (add_permission_wf _ _ _ s0 _ _ _ _ _ _ _ W0 Hname (fun _ => eq_refl) (or_introl eq_refl) Hos Hop)
    as (W1 & Hp1 & Hid & EP1 & Hf1).
  assert (exists q, perms d1 !! po_id op = Some q /\ po_owner q = name) as Hq by (destruct Hp1 as (q & ? & ? & _); eauto).
  destruct (add_permission_wf _ _ _ (set_auth d1 s0) _ active_name _ _ _ _ _ W1 Hname (fun E => False_ind _ (Hid E))
    (or_intror Hq) Has Hap) as (W2 & Hp2 & _ & EP2 & Hf2).
  assert (has_basic_perms (perms d2) name) as Hb.
  { exists (po_id op), (po_id ap). split_and!; [done| |done]. eapply has_perm_mono; [|exact Hp1].
    intros x Hx _ _ _. exists x. cbn in EP2, Hf2. rewrite EP2, lookup_insert_ne by congruence. done. }
  change (set_limits rl (set_auth d2 s0)) with (set_limits rl (set_auth d2 (set_auth d1 s0))).
  pose proof (finish_account_wf _ _ _ _ W2 Hb Hrl) as W3.
  split_and!; [split; [exact W3|]|done|done|done|].
  - cbn. rewrite Etm. by apply codes_wf_insert.
  - destruct (create_permission_Ok _ _ _ _ _ _ _ _ _ Hop) as (_ & _ & _ & Ea1 & El1 & Eg1).
    destruct (create_permission_Ok _ _ _ _ _ _ _ _ _ Hap) as (_ & _ & _ & Ea2 & El2 & Eg2).
    unfold native_bill. cbn. cbn in EP1, EP2, Hf1, Hf2.
    rewrite Eta, Etm, EP2, !row_sum_insert, EP1, !row_sum_insert, El2, El1, Eg2, Eg1 by done.
    unfold permission_bill. rewrite Ea1, Ea2. unfold account_bill, code_bill at 1. cbn [code_hash abi].
    rewrite (bool_decide_eq_true_2 (digest_zero = digest_zero)) by done. change (ns_auth s0) with (ns_auth s). lia.
Qed.
End accounts.
