(* ===== verification/NativeActionProps.v ===== *)
(** * The native actions keep the chain state consistent

    Every native action keeps the invariant of [NativeAccounts] and charges to the
    transaction exactly what it adds to the billable size of the state. *)

From S2P Require Import Prelude Exceptions Types Chainbase ObjectIndex Name Authority AuthorizationManager.
From S2P Require Import ResourceLimits IteratorCache ContractTables ContractTableProps ActionExecution.
From S2P Require Import NativeActions NativeCode NativeAccounts.

Section native.
Context `{SoftFloat} {TT KT IT TP TU TL TG TA TM TC LT UT : Type}.
Context `{!ObjectIndex table_id_object TT tid_conflict}.
Context `{!ObjectIndex key_value_object KT kv_conflict}.
Context `{!ObjectIndex index_object IT ix_conflict}.
Context `{!ChainIndex Z permission_object TP} `{!ChainIndex Z Z TU}
  `{!ChainIndex (Z * Z * Z) Z TL} `{!ChainIndex digest generated_transaction TG}.
Context `{!ChainIndex Z account_object TA} `{!ChainIndex Z account_metadata_object TM}
  `{!ChainIndex (digest * Z * Z) code_object TC}.
Context `{!ChainIndex (bool * Z) resource_limits_object LT} `{!ChainIndex Z resource_usage_object UT}.
Local Notation nstate := (@native_state TT KT IT TP TU TL TG TA TM TC LT UT).
Implicit Types s : nstate.
Local Notation accs s := (idx_view (ns_accounts s)).
Local Notation metas s := (idx_view (ns_metadata s)).
Local Notation codes s := (idx_view (ns_codes s)).
Local Notation perms d := (idx_view (permissions d)).

(** ** Accounts *)

Lemma set_account_limits_grow a ram net cpu (rl rl' : rl_db LT UT) b :
  set_account_limits a ram net cpu rl = Ok (b, rl') -> rows_grow rl rl'.
Proof.
  unfold set_account_limits. intros ([l t] & Hf & Hr)%bind_Ok.
  apply bind_Ok in Hr as (t' & (v & v' & _ & _ & Et)%db_modify_view & [= <- <-]). split; cbn; [|done].
  intros k Hk. rewrite Et, lookup_insert_is_Some'. right. revert Hf. unfold find_or_create_pending_limits.
  destruct (idx_find _ _); [by intros [= _ <-]|]. intros Hf. inv_res.
  match goal with H' : db_create _ _ _ = Ok _ |- _ => apply db_create_Ok in H' as [_ ->] end.
  rewrite lookup_insert_is_Some'. auto.
Qed.

Lemma validated_size env auth :
  native_laws env -> entries auth < 2 ^ 64 -> validate auth = true ->
  0 <= get_billable_size (ne_pack_size env) auth < 2 ^ 50.
Proof. intros L He Hv. apply billable_size_bound; [apply L|by apply validate_entries]. Qed.

Lemma permission_size_small env auth :
  0 <= get_billable_size (ne_pack_size env) auth < 2 ^ 50 ->
  permission_size env auth = permission_billable + get_billable_size (ne_pack_size env) auth.
Proof.
  intros Hb. unfold permission_size. change permission_billable with 288. by rewrite u64_small, i64_small by lia.
Qed.

Lemma newaccount_step env c create s s' :
  native_laws env -> native_wf env s -> 0 <= na_name create < 2 ^ 64 ->
  entries (na_owner create) < 2 ^ 64 -> entries (na_active create) < 2 ^ 64 ->
  newaccount_body env c create s = Ok s' -> native_step env s s'.
Proof.
  intros L W Hn Ho Ha. unfold newaccount_body. intros Hr. repeat inv_res1.
  match goal with
  | H1 : create_account _ _ _ _ _ _ _ _ _ _ = Ok ?x, H2 : context [is_system_account _], H3 : use_ram _ _ _ = Ok _ |- _ =>
    rename H1 into Hc, H2 into Hl, H3 into Hu, x into s1
  end.
  assert (0 <= get_billable_size (ne_pack_size env) (na_owner create) < 2 ^ 50) as So by (by apply validated_size).
  assert (0 <= get_billable_size (ne_pack_size env) (na_active create) < 2 ^ 50) as Sa by (by apply validated_size).
  assert (na_name create <> 0) by (bool_to_Z; done).
  destruct (create_account_wf env (na_name create) _ [] _ _ _ _ _ _ _ W ltac:(lia) ltac:(done) So Sa Hc) as (W1 & _ & Et & _ & Eb).
  match type of Hl with _ = Ok ?x => rename x into s2 end.
  assert (exists rl, rows_grow (ns_rl s1) rl /\ s2 = set_limits rl s1) as (rl & Hg & ->).
  { destruct (is_system_account _); [injection Hl as <-; exists (ns_rl s1); by destruct s1|].
    apply bind_Ok in Hl as ([b rl] & Hl & [= <-]). eauto using set_account_limits_grow. }
  apply use_ram_moved in Hu as (t & Ht & Es). cbn [ns_tables set_limits] in Ht.
  rewrite Et in Ht. eapply native_step_ram; [exact Es| |exact Ht|].
  - destruct W1 as [W1 C1]. split; [by apply set_limits_wf|done].
  - change (native_bill _ (set_limits rl s1)) with (native_bill (ne_pack_size env) s1). rewrite Eb.
    unfold account_ram. change permission_billable with 288. change overhead_per_account_ram_bytes with 2048.
    rewrite i64_small by lia. cbn. lia.
Qed.

(** ** Code and ABI *)

(** Two contracts with the same hash are the same. *)
Definition no_collision env (code1 : list Z) s : Prop :=
  forall k o, codes s !! k = Some o -> ne_sha256 env (code o) = ne_sha256 env code1 -> code o = code1.

Lemma setcode_effect_bill env a m m' s s' :
  codes_wf (ne_sha256 env) (metas s) (codes s) -> no_collision env (sc_code a) s ->
  setcode_effect env a m m' s s' ->
  row_sum (code_bill (codes s')) (metas s') = row_sum (code_bill (codes s)) (metas s) +
    (zlength (sc_code a) * setcode_ram_bytes_multiplier - code_bill (codes s) m).
Proof.
  intros [_ Hh] Hnc E. rewrite (se_metadata _ _ _ _ _ _ E).
  rewrite <- insert_delete_eq, row_sum_insert by apply lookup_delete_eq.
  rewrite (row_sum_ext _ (code_bill (codes s)) (delete _ _)).
  2: { intros i x [Hi Hx]%lookup_delete_Some. apply (se_others_bill _ _ _ _ _ _ i x E); [by intros ->|done]. }
  rewrite (row_sum_delete _ _ m) by apply E.
  assert (code_bill (codes s') m' = zlength (sc_code a) * setcode_ram_bytes_multiplier); [|lia].
  unfold code_bill. pose proof (se_hash _ _ _ _ _ _ E) as Hm'. pose proof (se_code _ _ _ _ _ _ E) as Hc.
  destruct (0 <? zlength (sc_code a)) eqn:E0; bool_to_Z.
  2: { rewrite bool_decide_eq_true_2 by done. assert (zlength (sc_code a) = 0) as -> by lia. done. }
  destruct (Hc E0) as (o & Ho & Eo). case_bool_decide as Hz.
  { destruct (se_wf _ _ _ _ _ _ E) as [Hc' _]. specialize (Hc' (key_of m')). rewrite Ho in Hc'.
    destruct Hc' as [_ Hpos]. exfalso. revert Hpos. unfold users.
    rewrite (row_sum_ext _ (fun _ => 0)); [rewrite row_sum_zero; lia|].
    intros i x Hx. unfold uses. rewrite bool_decide_eq_false_2; [done|]. intros [Hx1 Hx2].
    apply Hx1. unfold key_of in Hx2. congruence. }
  rewrite Ho. cbn. rewrite Eo. destruct (codes s !! key_of m') as [o0|] eqn:Ho0; cbn; [|done].
  rewrite (Hnc _ _ Ho0); [done|]. rewrite <- Hm'. destruct (Hh _ _ Ho0) as [<- _]. done.
Qed.

Lemma setcode_step env c a s s' :
  native_laws env -> native_wf env s -> zlength (sc_code a) < 2 ^ 32 -> no_collision env (sc_code a) s ->
  setcode_body env c a s = Ok s' -> native_step env s s'.
Proof.
  intros L [W C] Hlen Hnc Hr.
  apply setcode_body_effect in Hr as (m & m' & E); [|done|by eapply few_accounts|apply L|done].
  pose proof (setcode_effect_bill _ _ _ _ _ _ C Hnc E) as Hb.
  destruct E as [Hm Em _ _ _ C' _ _ Ht (Ea & Eu & Er)].
  eapply (native_step_ram env s s' s' (ns_tables s')); [by destruct s'| |exact Ht|].
  - split; [|done]. destruct W as [W1 W2 W3 W4 W5 W6 W7 W8 W9 W10 W11]. split; rewrite ?Ea, ?Eu, ?Er; try done.
    intros x. rewrite W3, Em, lookup_insert_is_Some'. split; [auto|]. intros [<-|?]; [|done]. rewrite Hm. eauto.
  - unfold native_bill. rewrite Ea, Eu. lia.
Qed.

Lemma setabi_step env c a s s' :
  native_wf env s -> zlength (sa_abi a) < 2 ^ 32 -> setabi_body c a s = Ok s' -> native_step env s s'.
Proof.
  intros [W C] Hlen. unfold setabi_body. intros (_ & _ & Hr)%bind_Ok.
  apply bind_Ok in Hr as (o & Ho%db_get_Ok & Hr).
  apply bind_Ok in Hr as (tm & (m & m' & Hm & [= Em'] & Etm)%db_modify_view & Hr). cbn in Hm, Etm.
  pose proof (nw_abi_size _ _ _ W _ _ Ho) as Hold. rewrite i64_small in Hr by lia.
  apply use_ram_if_moved in Hr as (t & Ht & Es); [|intros E%negb_false_iff; bool_to_Z; lia].
  assert (key_of m' = key_of m) as Ek by (by subst m').
  assert (forall (f : account_object -> account_object),
    idx_view (idx_modify (sa_account a) f (ns_accounts s)) = <[sa_account a := f o]> (accs s)) as Ea.
  { intros f. rewrite idx_modify_view. apply map_eq. intros i. destruct (decide (i = sa_account a)) as [->|Hi].
    - by rewrite lookup_alter_eq, lookup_insert_eq, Ho.
    - by rewrite lookup_alter_ne, lookup_insert_ne. }
  eapply native_step_ram; [exact Es| |exact Ht|].
  - split; [|cbn; rewrite Etm; by eapply codes_wf_update].
    assert (forall x f, is_Some (idx_view (idx_modify (sa_account a) f (ns_accounts s)) !! x) <-> is_Some (accs s !! x)) as Hx.
    { intros x f. rewrite Ea, lookup_insert_is_Some'. split; [|auto]. intros [<-|?]; [rewrite Ho; eauto|done]. }
    destruct W as [W1 W2 W3 W4 W5 W6 W7 W8 W9 W10 W11].
    split; cbn; rewrite ?Etm; try (intros *; rewrite ?Hx; by eauto).
    + intros x. rewrite Hx, W3, lookup_insert_is_Some'. split; [auto|]. intros [<-|?]; [|done]. rewrite Hm. eauto.
    + intros x y. rewrite Ea. intros [[<- <-]|[_ Hy]]%lookup_insert_Some; [done|eauto].
  - unfold native_bill. cbn. rewrite Etm, Ea, (code_bill_update _ _ _ m), (row_sum_update _ _ o) by done.
    unfold account_bill. cbn. lia.
Qed.

(** ** Permissions *)

Lemma find_permission_Ok (d : auth_db TP TU TL TG) l r :
  find_permission d l = Ok r -> actor l <> 0 /\ r = find_by_owner d (actor l) (permission l).
Proof.
  unfold find_permission, rethrow_as. destruct (_ ≫= _) as [q|e] eqn:E; [|by destruct (is_a e _)]. intros [= <-].
  apply bind_Ok in E as (_ & Hne%sys_assert_Ok & [= <-]). bool_to_Z. done.
Qed.

(** The row [find_permission] returns. *)
Lemma found_row pack ex s owner name p :
  accounts_wf pack ex s -> owner <> 0 -> find_by_owner (ns_auth s) owner name = Some p ->
  exists i, i <> 0 /\ perms (ns_auth s) !! i = Some p /\ po_owner p = owner /\ po_name p = name.
Proof.
  intros W Ho (i & Hi & Eo & En)%find_by_owner_Some. exists i. split_and!; try done. intros ->.
  pose proof (aw_reserved _ (nw_auth _ _ _ W)) as Hr. rewrite Hi in Hr. injection Hr as ->. by subst owner.
Qed.

Lemma check_update_Ok env u s :
  check_update env u s = Ok tt -> validate (ua_auth u) = true /\ is_Some (accs s !! ua_account u).
Proof.
  unfold check_update. intros Hr. repeat inv_res1.
  match goal with H' : db_get _ _ = Ok _ |- _ => apply db_get_Ok in H'; rewrite H' end. split; [done|eauto].
Qed.

(** The parent of the updated permission: none for [owner], a permission of the same
    account for any other. *)
Lemma update_parent_Ok pack ex s u id :
  accounts_wf pack ex s ->
  (if negb (ua_permission u =? owner_name)
   then parent ← get_permission (ns_auth s) (mk_level (ua_account u) (ua_parent u)); Ok (po_id parent)
   else Ok 0) = Ok id ->
  (id = 0 -> ua_permission u = owner_name) /\
  (id = 0 \/ exists q, perms (ns_auth s) !! id = Some q /\ po_owner q = ua_account u).
Proof.
  intros W. destruct (ua_permission u =? owner_name) eqn:E; bool_to_Z; cbn.
  - intros [= <-]. auto.
  - intros (q & (i & Hi & Hq & Ei & Eo & _)%get_permission_Ok & [= <-])%bind_Ok; [|apply W].
    rewrite Ei. split; [done|]. right. eauto.
Qed.

Lemma updateauth_step env c u s s' :
  native_laws env -> native_wf env s -> entries (ua_auth u) < 2 ^ 64 ->
  updateauth_body env c u s = Ok s' -> native_step env s s'.
Proof.
  intros L [W C] He. unfold updateauth_body. intros (_ & _ & Hr)%bind_Ok.
  apply bind_Ok in Hr as ([] & [Hv Hacc]%check_update_Ok & Hr).
  apply bind_Ok in Hr as (r & [Ha0 Er]%find_permission_Ok & Hr). cbn in Er, Ha0.
  apply bind_Ok in Hr as (id & Hid & Hr). destruct (update_parent_Ok _ _ _ _ _ W Hid) as [Hroot Hpar].
  pose proof (validated_size env _ L He Hv) as Hsz. rewrite permission_size_small in Hr by done.
  destruct r as [p|].
  - apply bind_Ok in Hr as ([] & _ & Hr). apply bind_Ok in Hr as (d & Hd & Hr).
    destruct (found_row _ _ _ _ _ _ W Ha0 (eq_sym Er)) as (i & Hi & Hp & Eo & En).
    pose proof (nw_permission_size _ _ _ W _ _ Hp) as Hsp. rewrite permission_size_small in Hr by done.
    rewrite i64_small in Hr by (change permission_billable with 288; lia).
    destruct (modify_permission_same _ _ _ _ _ Hd) as [El Eg].
    destruct (change_permission_wf _ _ _ _ _ _ _ _ W Hp Hi Hsz Hd) as (W' & q & Eq & EP & _).
    apply use_ram_moved in Hr as (t & Ht & Es). eapply native_step_ram; [exact Es|by split|exact Ht|].
    unfold native_bill. cbn. rewrite EP, El, Eg, (row_sum_update _ _ p) by done.
    unfold permission_bill at 2 3. rewrite Eq. lia.
  - apply bind_Ok in Hr as ([d p] & Hd & Hr).
    destruct (create_permission_Ok _ _ _ _ _ _ _ _ _ Hd) as (_ & _ & _ & Ea & El & Eg).
    destruct (add_permission_wf _ _ _ _ _ _ _ _ _ _ _ W Hacc Hroot Hpar Hsz Hd) as (W' & _ & _ & EP & Hf).
    rewrite Ea, permission_size_small in Hr by done.
    apply use_ram_moved in Hr as (t & Ht & Es). eapply native_step_ram; [exact Es|by split|exact Ht|].
    unfold native_bill. cbn. rewrite EP, El, Eg, row_sum_insert by done. unfold permission_bill at 1. rewrite Ea. lia.
Qed.

Lemma deleteauth_step env c r s s' :
  native_wf env s -> deleteauth_body env c r s = Ok s' -> native_step env s s'.
Proof.
  intros [W C]. unfold deleteauth_body. intros Hr. repeat inv_res1. bool_to_Z.
  match goal with H1 : get_permission _ _ = Ok _, H2 : remove_permission _ _ = Ok ?d |- _ =>
    rename H1 into Hp, H2 into Hd; rename d into d'; apply get_permission_Ok in Hp as (i & Hi & Hp & _ & Eo & En); [|apply W] end.
  cbn in Eo, En. destruct (remove_permission_same _ _ _ Hd) as [El Eg].
  destruct (drop_permission_wf _ _ _ _ _ _ W Hp ltac:(congruence) ltac:(congruence) Hd) as [W' EP].
  pose proof (nw_permission_size _ _ _ W _ _ Hp) as Hsp. rewrite permission_size_small in Hr by done.
  rewrite i64_small in Hr by (change permission_billable with 288; lia).
  apply use_ram_moved in Hr as (t & Ht & Es). eapply native_step_ram; [exact Es|by split|exact Ht|].
  unfold native_bill. cbn. rewrite EP, El, Eg, (row_sum_delete _ _ _ _ Hp). unfold permission_bill at 2. lia.
Qed.

(** ** Links *)

Lemma set_links_wf pack ex s t :
  (forall a c n r, idx_view t !! (a, c, n) = Some r -> is_Some (accs s !! a) /\ is_Some (accs s !! c)) ->
  accounts_wf pack ex s -> accounts_wf pack ex (set_links t s).
Proof. intros Ht W. destruct W as [W1 W2 W3 W4 W5 W6 W7 W8 W9 W10 W11]. split; try done. by destruct W1. Qed.

Lemma account_exists_spec a s : account_exists a s = true <-> is_Some (accs s !! a).
Proof. unfold account_exists. by rewrite bool_decide_eq_true, idx_find_view. Qed.

Lemma linkauth_step env c l s s' :
  native_wf env s -> linkauth_body env c l s = Ok s' -> native_step env s s'.
Proof.
  intros [W C]. unfold linkauth_body. intros Hr. do 5 inv_res1.
  repeat match goal with H' : sys_assert _ _ = Ok _ |- _ => apply sys_assert_Ok in H' end.
  match goal with H1 : account_exists (la_account l) s = true, H2 : account_exists (la_code l) s = true |- _ =>
    apply account_exists_spec in H1, H2; rename H1 into Ha, H2 into Hcode end.
  set (k := (la_account l, la_code l, la_type l)) in *.
  assert (forall t, idx_view t = <[k := la_requirement l]> (idx_view (links (ns_auth s))) ->
    accounts_wf (ne_pack_size env) none (set_links t s)) as Hwf.
  { intros t Et. apply set_links_wf; [|done]. intros a b n r. rewrite Et.
    intros [[[= <- <- <-] <-]|[_ Hr']]%lookup_insert_Some; [done|]. by apply (nw_links _ _ _ W) in Hr'. }
  rewrite idx_find_view in Hr. destruct (idx_view (links (ns_auth s)) !! k) as [r|] eqn:Hk.
  - apply bind_Ok in Hr as ([] & _ & [= <-]). pose proof (idx_modify_insert _ _ (la_requirement l) _ Hk) as Et.
    eapply (native_step_ram env s (set_links _ s) _ (ns_tables s)); [by destruct s| |apply ram_moved_refl|].
    + split; [by apply Hwf|exact C].
    + unfold native_bill. cbn. rewrite Et, (row_sum_update _ _ r) by done. lia.
  - apply bind_Ok in Hr as (t & [_ Et]%db_create_Ok & Hr).
    apply use_ram_moved in Hr as (t' & Ht & Es). eapply native_step_ram; [exact Es| |exact Ht|].
    + split; [by apply Hwf|exact C].
    + unfold native_bill. cbn. rewrite Et, row_sum_insert by done. lia.
Qed.

Lemma unlinkauth_step env c u s s' :
  native_wf env s -> unlinkauth_body c u s = Ok s' -> native_step env s s'.
Proof.
  intros [W C]. unfold unlinkauth_body. intros (_ & _ & Hr)%bind_Ok.
  apply bind_Ok in Hr as (r & Hk%of_option_Ok & Hr). rewrite idx_find_view in Hk.
  apply bind_Ok in Hr as (s1 & Hu & [= <-]). apply use_ram_moved in Hu as (t & Ht & ->).
  eapply (native_step_ram env s (set_links (idx_remove (ul_account u, ul_code u, ul_type u) (links (ns_auth s))) s));
    [done| |exact Ht|].
  - split; [|exact C]. apply set_links_wf; [|done]. intros a b n x. rewrite idx_remove_view.
    intros [_ Hx]%lookup_delete_Some. by apply (nw_links _ _ _ W) in Hx.
  - unfold native_bill. cbn. rewrite idx_remove_view, (row_sum_delete _ _ r) by done. lia.
Qed.

(** ** Deferred transactions *)

Lemma find_by_sender_row sender id s k g :
  find_by_sender sender id s = Some (k, g) ->
  idx_view (generated (ns_auth s)) !! k = Some g /\ gt_sender g = sender /\ gt_sender_id g = id.
Proof.
  unfold find_by_sender. intros [Hin Hq]%find_some. apply list_elem_of_In, elem_of_rows in Hin. cbn in Hq.
  bool_to_Z. done.
Qed.

Lemma set_generated_wf pack ex s t :
  (forall i g, idx_view t !! i = Some g -> 0 <= gt_packed_size g < 2 ^ 32) ->
  accounts_wf pack ex s -> accounts_wf pack ex (set_generated t s).
Proof. intros Ht W. destruct W as [W1 W2 W3 W4 W5 W6 W7 W8 W9 W10 W11]. split; try done. by destruct W1. Qed.

Lemma native_step_refl env s : native_wf env s -> native_step env s s.
Proof. intros W. split; [done|]. rewrite Z.sub_diag. apply ram_moved_refl. Qed.

Lemma cancel_deferred_step env c id sender b s s' :
  native_wf env s -> cancel_deferred_transaction env c id sender s = Ok (b, s') -> native_step env s s'.
Proof.
  intros [W C]. unfold cancel_deferred_transaction.
  destruct (ne_disable_deferred_trxs_stage_1 env); [intros [= _ <-]; by apply native_step_refl|].
  intros (_ & _ & Hr)%bind_Ok.
  destruct (find_by_sender sender id s) as [[k g]|] eqn:Hf; [|injection Hr as _ <-; by apply native_step_refl].
  apply find_by_sender_row in Hf as [Hk _]. pose proof (nw_packed_size _ _ _ W _ _ Hk) as Hsz.
  rewrite i64_small in Hr by (change generated_billable with 272; lia).
  apply bind_Ok in Hr as (s1 & Hu & [= _ <-]). apply use_ram_moved in Hu as (t & Ht & ->).
  eapply (native_step_ram env s (set_generated (idx_remove k (generated (ns_auth s))) s)); [done| |exact Ht|].
  - split; [|exact C]. apply set_generated_wf; [|done]. intros i x. rewrite idx_remove_view.
    intros [_ Hx]%lookup_delete_Some. by apply (nw_packed_size _ _ _ W i).
  - unfold native_bill. cbn. rewrite idx_remove_view, (row_sum_delete _ _ _ _ Hk). unfold generated_bill at 2. lia.
Qed.

(** ** All native actions *)

(** A [setcode] action brings no contract that collides with another one. *)
Definition action_fits env h (c : context_info) s : Prop :=
  h = na_setcode -> forall a, as_setcode (ne_codec env) (act_data (act c)) = Ok a -> no_collision env (sc_code a) s.

Lemma apply_native_steps env h c s s' :
  native_laws env -> native_wf env s -> action_fits env h c s ->
  apply_native env h c s = Ok s' -> native_step env s s'.
Proof.
  intros L W Hf. destruct h; cbn;
    [unfold apply_sysio_newaccount|unfold apply_sysio_setcode|unfold apply_sysio_setabi|unfold apply_sysio_updateauth
    |unfold apply_sysio_deleteauth|unfold apply_sysio_linkauth|unfold apply_sysio_unlinkauth|unfold apply_sysio_canceldelay];
    intros (_ & _ & Hr)%bind_Ok; apply bind_Ok in Hr as (x & Hx & Hr); rewrite ?fc_rethrow_Ok in Hr.
  - destruct (nl_newaccount _ L _ _ Hx) as (? & ? & ?). by eapply newaccount_step.
  - eapply setcode_step; try done; [by eapply nl_setcode|by apply Hf].
  - eapply setabi_step; try done. by eapply nl_setabi.
  - eapply updateauth_step; try done. by eapply nl_updateauth.
  - by eapply deleteauth_step.
  - by eapply linkauth_step.
  - by eapply unlinkauth_step.
  - apply bind_Ok in Hr as (_ & _ & Hr). apply bind_Ok in Hr as ([b s1] & Hr & [= <-]).
    by eapply cancel_deferred_step.
Qed.
End native.
