(* ===== verification/NativeReachable.v ===== *)
(** * Chain states the native actions reach

    From the accounts of a new chain on, whatever native actions run and however
    contracts, billing and sequence numbers move between them, the account,
    permission, link, code and resource tables stay consistent. *)

From S2P Require Import Prelude Exceptions Types Chainbase ObjectIndex Name Authority AuthorizationManager.
From S2P Require Import ResourceLimits IteratorCache ContractTables ContractTableProps ActionExecution.
From S2P Require Import NativeActions NativeCode NativeAccounts NativeActionProps.

Section reachable.
Context `{SoftFloat} {TT KT IT TP TU TL TG TA TM TC LT UT : Type}.
Context `{!ObjectIndex table_id_object TT tid_conflict}.
Context `{!ObjectIndex key_value_object KT kv_conflict}.
Context `{!ObjectIndex index_object IT ix_conflict}.
Context `{!ChainIndex Z permission_object TP} `{!ChainIndex Z Z TU}
  `{!ChainIndex (Z * Z * Z) Z TL} `{!ChainIndex digest generated_transaction TG}.
Context `{!ChainIndex Z account_object TA} `{!ChainIndex Z account_metadata_object TM}
  `{!ChainIndex (digest * Z * Z) code_object TC}.
Context `{!ChainIndex (bool * Z) resource_limits_object LT} `{!ChainIndex Z resource_usage_object UT}.
Local Notation nstate := (@native_state TT KT IT TP TU TL TG TA TM TC LT UT).
Implicit Types s : nstate.
Local Notation accs s := (idx_view (ns_accounts s)).
Local Notation metas s := (idx_view (ns_metadata s)).
Local Notation codes s := (idx_view (ns_codes s)).
Local Notation perms d := (idx_view (permissions d)).

(** ** A new chain *)

Lemma empty_wf env d t :
  AuthorizationManager.initialize_database empty_db = Ok d ->
  native_wf env (mk_native idx_empty idx_empty idx_empty d ResourceLimits.initialize_database t : nstate).
Proof.
  intros Hd. pose proof (init_wf d Hd) as W. revert Hd. unfold AuthorizationManager.initialize_database.
  intros (tp & [_ Etp]%db_create_Ok & [= <-])%bind_Ok. cbn in Etp. rewrite idx_empty_view in Etp.
  assert (forall i p, idx_view tp !! i = Some p -> i = 0 /\ p = reserved_permission) as Hone.
  { intros i p. rewrite Etp. intros [[<- <-]|[_ []%lookup_empty_Some]]%lookup_insert_Some. done. }
  split.
  - split; cbn; rewrite ?idx_empty_view; try done.
    + intros a [x []%lookup_empty_Some].
    + intros a. rewrite ?idx_empty_view. split; intros [x []%lookup_empty_Some].
    + intros i p [-> _]%Hone. done.
    + intros a [x []%lookup_empty_Some].
    + intros i p [-> _]%Hone. done.
    + intros a [x []%lookup_empty_Some].
    + intros i p [_ ->]%Hone. done.
  - cbn. rewrite !idx_empty_view. split; [|intros k o []%lookup_empty_Some].
    intros k. rewrite lookup_empty. apply row_sum_empty.
Qed.

Lemma add_pending_ram_usage_grow a delta (rl rl' : rl_db LT UT) :
  add_pending_ram_usage a delta rl = Ok rl' -> rows_grow rl rl'.
Proof.
  unfold add_pending_ram_usage. destruct (delta =? 0); [by intros [= <-]|]. intros Hr. repeat inv_res1.
  match goal with H' : db_modify _ _ _ = Ok _ |- _ => apply db_modify_view in H' as (v & v' & _ & _ & E) end.
  subst rl'. split; cbn; [done|]. intros y Hy. rewrite E, lookup_insert_is_Some'. auto.
Qed.

Lemma create_native_account_wf env ts sysio_abi name owner active b s s' :
  native_wf env s -> 0 < name < 2 ^ 64 -> zlength sysio_abi < 2 ^ 32 ->
  0 <= get_billable_size (ne_pack_size env) owner < 2 ^ 50 ->
  0 <= get_billable_size (ne_pack_size env) active < 2 ^ 50 ->
  create_native_account env ts sysio_abi name owner active b s = Ok s' ->
  native_wf env s' /\ is_Some (accs s' !! name).
Proof.
  intros W Hn Habi Ho Ha. unfold create_native_account. intros (s1 & Hc & Hr)%bind_Ok.
  apply bind_Ok in Hr as (rl & Hrl%add_pending_ram_usage_grow & Hr). apply bind_Ok in Hr as (_ & _ & [= <-]).
  apply create_account_wf in Hc as ([W1 C1] & Hs & _); try done; [|by case_match].
  split; [|done]. split; [by apply set_limits_wf|done].
Qed.

Lemma initialize_accounts_wf env ts sysio_abi key t s :
  native_laws env -> zlength sysio_abi < 2 ^ 32 ->
  initialize_accounts env ts sysio_abi key t = Ok s -> native_wf env s.
Proof.
  intros L Habi. unfold initialize_accounts. intros (d & Hd & Hr)%bind_Ok.
  pose proof (empty_wf env d t Hd) as W0.
  assert (forall auth, entries auth <= 2 ^ 16 -> 0 <= get_billable_size (ne_pack_size env) auth < 2 ^ 50) as Hsz.
  { intros auth He. apply billable_size_bound; [apply L|done]. }
  apply bind_Ok in Hr as (s1 & H1 & Hr). apply bind_Ok in Hr as (s2 & H2 & Hr). apply bind_Ok in Hr as (s3 & H3 & Hr).
  apply create_native_account_wf in H1 as [W1 _]; try done; [|by apply Hsz..].
  apply create_native_account_wf in H2 as [W2 _]; try done; [|by apply Hsz..].
  apply create_native_account_wf in H3 as [[W3 C3] Hp]; try done; [|by apply Hsz..].
  apply bind_Ok in Hr as (ap & (i & Hi & Hap & Ei & Eo & _)%get_permission_Ok & Hr); [|apply W3]. cbn in Eo.
  apply bind_Ok in Hr as ([d1 mp] & Hm & Hr). apply bind_Ok in Hr as ([d2 mi] & Hmi & [= <-]). rewrite Ei in Hm.
  assert (exists q, perms (ns_auth s3) !! i = Some q /\ po_owner q = producers_account_name) as Hq1 by eauto.
  destruct (add_permission_wf _ _ _ _ _ _ _ _ _ _ _ W3 Hp (fun E => False_ind _ (Hi E)) (or_intror Hq1)
    (Hsz (mk_authority 1 [] [mk_plw (mk_level sysio_name active_name) 1] []) ltac:(done)) Hm) as (W4 & Hmp & Hid & _).
  assert (exists q, perms d1 !! po_id mp = Some q /\ po_owner q = producers_account_name) as Hq2
    by (destruct Hmp as (q & ? & ? & _); eauto).
  destruct (add_permission_wf _ _ _ (set_auth d1 s3) _ _ _ _ _ _ _ W4 Hp (fun E => False_ind _ (Hid E)) (or_intror Hq2)
    (Hsz (mk_authority 1 [] [mk_plw (mk_level sysio_name active_name) 1] []) ltac:(done)) Hmi) as (W5 & _).
  split; [exact W5|exact C3].
Qed.

(** ** Reachable states *)

(** Between native actions contracts, receipts and billing move the contract tables,
    the sequence numbers and privileges of accounts and the resource rows. *)
Inductive native_reachable (env0 : native_env) : nstate -> Prop :=
| nr_genesis env ts sysio_abi key t s :
    ne_sha256 env = ne_sha256 env0 -> ne_pack_size env = ne_pack_size env0 -> native_laws env ->
    zlength sysio_abi < 2 ^ 32 ->
    initialize_accounts env ts sysio_abi key t = Ok s -> native_reachable env0 s
| nr_action env h c s s' :
    ne_sha256 env = ne_sha256 env0 -> ne_pack_size env = ne_pack_size env0 -> native_laws env ->
    native_reachable env0 s -> action_fits env h c s ->
    apply_native env h c s = Ok s' -> native_reachable env0 s'
| nr_tables s t :
    native_reachable env0 s ->
    native_reachable env0 (mk_native (ns_accounts s) (ns_metadata s) (ns_codes s) (ns_auth s) (ns_rl s) t)
| nr_metadata s a m m' :
    native_reachable env0 s -> metas s !! a = Some m -> key_of m' = key_of m ->
    native_reachable env0 (set_metadata (idx_modify a (fun _ => m') (ns_metadata s)) s)
| nr_limits s rl :
    native_reachable env0 s -> rows_grow (ns_rl s) rl -> native_reachable env0 (set_limits rl s).

Lemma native_wf_env env env0 s :
  ne_sha256 env = ne_sha256 env0 -> ne_pack_size env = ne_pack_size env0 -> native_wf env s <-> native_wf env0 s.
Proof. intros E1 E2. unfold native_wf. by rewrite E1, E2. Qed.

Lemma metadata_table_wf env s a m m' t :
  native_wf env s -> metas s !! a = Some m -> key_of m' = key_of m -> idx_view t = <[a := m']> (metas s) ->
  native_wf env (set_metadata t s).
Proof.
  intros [W C] Hm Ek E. split; [|cbn; rewrite E; by eapply codes_wf_update].
  destruct W as [W1 W2 W3 W4 W5 W6 W7 W8 W9 W10 W11]. split; cbn; try done.
  intros x. rewrite W3, E, lookup_insert_is_Some'. split; [auto|]. intros [<-|?]; [rewrite Hm; eauto|done].
Qed.

Lemma metadata_wf env s a m m' :
  native_wf env s -> metas s !! a = Some m -> key_of m' = key_of m ->
  native_wf env (set_metadata (idx_modify a (fun _ => m') (ns_metadata s)) s).
Proof. intros W Hm Ek. eapply metadata_table_wf; [done..|]. by apply (idx_modify_insert _ m). Qed.

(** C12: From the accounts of a new chain on, in every state native actions reach,
    whatever contracts and billing do in between: account objects, metadata and
    resource rows go together, every account has its [owner] permission at the root
    and [active] below it, only [owner] has no parent, every permission and every
    link belongs to existing accounts, and the code table holds exactly the codes
    that accounts run, each counted once per account. *)
Theorem native_reachable_wf env s : native_reachable env s -> native_wf env s.
Proof.
  induction 1 as [env1 ts ab key t s E1 E2 L Hab Hs|env1 h c s s' E1 E2 L _ IH Hf Hs|s t _ [W C]|s a m m' _ IH Hm Ek
    |s rl _ [W C] Hg].
  - apply (native_wf_env env1); [done..|]. by eapply initialize_accounts_wf.
  - apply (native_wf_env env1) in IH; [|done..]. apply (native_wf_env env1); [done..|].
    by eapply apply_native_steps.
  - split; [|done]. destruct W; by split.
  - by eapply metadata_wf.
  - split; [by apply set_limits_wf|done].
Qed.

(** A native action charges to the transaction exactly what it adds to the
    billable size of accounts, ABIs, code, permissions, links and deferred
    transactions, and gives back exactly what it frees; the contract tables are not
    touched. *)
Theorem native_action_ram env h c s s' :
  native_laws env -> native_wf env s -> action_fits env h c s -> apply_native env h c s = Ok s' ->
  total_ram_usage (ns_tables s') - total_ram_usage (ns_tables s) =
    native_bill (ne_pack_size env) s' - native_bill (ne_pack_size env) s /\
  tables (ns_tables s') = tables (ns_tables s) /\ key_values (ns_tables s') = key_values (ns_tables s) /\
  indices (ns_tables s') = indices (ns_tables s).
Proof.
  intros L W Hf Hs. destruct (apply_native_steps _ _ _ _ _ L W Hf Hs) as [_ [Ht Hk Hi _ _ Hu]].
  cbn in Hu. split_and!; [lia|done..].
Qed.

(** After [setcode] the code stored under the account's hash, type and version
    is the code of the action (or nothing, when the account gave its code up), the
    code of every other account is unchanged, and the code table still counts
    exactly the accounts that run each code. *)
Theorem setcode_stores_code env c a s s' :
  native_laws env -> native_wf env s -> zlength (sc_code a) < 2 ^ 32 -> no_collision env (sc_code a) s ->
  setcode_body env c a s = Ok s' ->
  exists m m', metas s !! sc_account a = Some m /\ metas s' = <[sc_account a := m']> (metas s) /\
    code_sequence m' = u64 (code_sequence m + 1) /\
    match sc_code a with
    | [] => code_hash m' = digest_zero
    | _ => code_hash m' <> digest_zero /\ exists o, codes s' !! key_of m' = Some o /\ code o = sc_code a
    end /\
    (forall i x, i <> sc_account a -> metas s !! i = Some x -> code_hash x <> digest_zero ->
       exists o o', codes s !! key_of x = Some o /\ codes s' !! key_of x = Some o' /\ code o' = code o) /\
    (forall k o, codes s' !! k = Some o -> code_ref_count o = users k (metas s') /\ 0 < users k (metas s')).
Proof.
  intros L [W C] Hlen Hnc Hr.
  apply setcode_body_effect in Hr as (m & m' & E); [|done|by eapply few_accounts|apply L|done].
  exists m, m'. destruct C as [_ Hh]. pose proof (se_hash _ _ _ _ _ _ E) as Hm'.
  pose proof (se_code _ _ _ _ _ _ E) as Hcode. destruct (se_wf _ _ _ _ _ _ E) as [Hcnt _].
  split_and!; [apply E|apply E|apply E| |apply E|].
  - destruct (sc_code a) as [|x l] eqn:El; [done|]. rewrite <- El in *.
    assert (0 < zlength (sc_code a)) as Hpos by (rewrite El; cbn; lia). rewrite (proj2 (Z.ltb_lt _ _) Hpos) in Hm'.
    rewrite Hm'. split; [apply L|]. destruct (Hcode Hpos) as (o & Ho & Eo). exists o. split; [done|]. rewrite Eo.
    destruct (codes s !! key_of m') as [o0|] eqn:Ho0; cbn; [|done]. apply (Hnc _ _ Ho0).
    rewrite <- Hm'. destruct (Hh _ _ Ho0) as [<- _]. done.
  - intros k o Ho. specialize (Hcnt k). by rewrite Ho in Hcnt.
Qed.

(** ** Authorities refer to permissions that exist *)

Lemma get_permission_of_row (d : auth_db TP TU TL TG) i p l :
  perms d !! i = Some p -> po_owner p = actor l -> po_name p = permission l ->
  actor l <> 0 -> permission l <> 0 -> exists q, get_permission d l = Ok q.
Proof.
  intros Hi Eo En Ha Hp. unfold get_permission.
  destruct (find_by_owner d (actor l) (permission l)) as [q|] eqn:E;
    [|by destruct (find_by_owner_None _ _ _ _ _ E Hi)].
  exists q. rewrite (proj2 (Z.eqb_neq _ _) Ha), (proj2 (Z.eqb_neq _ _) Hp). done.
Qed.

Lemma check_authority_account_sound env s a :
  native_wf env s -> check_authority_account s tt a = Ok tt ->
  permission (plw_permission a) = code_permission_name \/
  exists p, get_permission (ns_auth s) (plw_permission a) = Ok p.
Proof.
  intros [W _]. unfold check_authority_account. intros (_ & Ha%sys_assert_Ok%account_exists_spec & Hr)%bind_Ok.
  pose proof (nw_names _ _ _ W _ Ha) as Hn. destruct (nw_basic _ _ _ W _ Ha) as (i & j & _ & Ho & Hac); [intros []|].
  destruct ((_ =? owner_name) || _) eqn:E1.
  - right. apply orb_true_iff in E1 as [E%Z.eqb_eq|E%Z.eqb_eq].
    + destruct Ho as (p & Hp & Eo & En & _). eapply get_permission_of_row; [exact Hp|done|by rewrite E|lia|by rewrite E].
    + destruct Hac as (p & Hp & Eo & En & _). eapply get_permission_of_row; [exact Hp|done|by rewrite E|lia|by rewrite E].
  - destruct (_ =? code_permission_name) eqn:E2; bool_to_Z; [by left|]. right.
    destruct (get_permission _ _) as [p|e]; [eauto|by destruct (is_a e _)].
Qed.

Lemma foldM_unit_Forall {A} (f : unit -> A -> res unit) (l : list A) :
  foldM f tt l = Ok tt -> Forall (fun x => f tt x = Ok tt) l.
Proof.
  induction l as [|x l IH]; [done|]. cbn. intros ([] & Hx & Hl)%bind_Ok. constructor; auto.
Qed.

(** An authority that passes the precondition of [newaccount] and [updateauth]
    refers only to permissions that exist, or to the virtual [sysio.code]: the
    [owner] and [active] permissions it does not look up are there, as the comment in
    the code assumes. *)
Theorem authority_precondition_sound env auth s :
  native_wf env s -> validate_authority_precondition env auth s = Ok tt ->
  Forall (fun a => permission (plw_permission a) = code_permission_name \/
                   exists p, get_permission (ns_auth s) (plw_permission a) = Ok p) (accounts auth).
Proof.
  intros W. unfold validate_authority_precondition. intros ([] & Hf%foldM_unit_Forall & _)%bind_Ok.
  eapply Forall_impl; [exact Hf|]. intros a. by apply (check_authority_account_sound env).
Qed.

(** ** Links to permissions that exist *)

Definition resolved (P : gmap Z permission_object) (a r : Z) : Prop :=
  r = sysio_any_name \/ exists i p, P !! i = Some p /\ po_owner p = a /\ po_name p = r.
Definition links_resolved s : Prop :=
  forall a c t r, idx_view (links (ns_auth s)) !! (a, c, t) = Some r -> resolved (perms (ns_auth s)) a r.

Definition names_kept (P Q : gmap Z permission_object) : Prop :=
  forall i p, P !! i = Some p -> exists q, Q !! i = Some q /\ po_owner q = po_owner p /\ po_name q = po_name p.

Lemma names_kept_trans P Q R : names_kept P Q -> names_kept Q R -> names_kept P R.
Proof.
  intros H1 H2 i p Hp. destruct (H1 _ _ Hp) as (q & Hq & E1 & E2). destruct (H2 _ _ Hq) as (r & Hr & E3 & E4).
  exists r. split; [done|]. split; congruence.
Qed.

Lemma names_kept_refl P : names_kept P P.
Proof. intros i p Hp. eauto. Qed.

Lemma links_resolved_mono s s' :
  (forall k r, idx_view (links (ns_auth s')) !! k = Some r -> idx_view (links (ns_auth s)) !! k = Some r) ->
  names_kept (perms (ns_auth s)) (perms (ns_auth s')) -> links_resolved s -> links_resolved s'.
Proof.
  intros Hl Hn Hs a c t r Hr%Hl%Hs. destruct Hr as [->|(i & p & Hp & <- & <-)]; [by left|right].
  destruct (Hn _ _ Hp) as (q & Hq & E1 & E2). eauto.
Qed.

Lemma create_permission_kept env (d d' : auth_db TP TU TL TG) account name parent auth t p :
  create_permission env d account name parent auth t = Ok (d', p) -> names_kept (perms d) (perms d') /\ links d' = links d.
Proof.
  intros Hc. destruct (create_permission_Ok _ _ _ _ _ _ _ _ _ Hc) as (_ & _ & _ & _ & El & _). split; [|done].
  unfold create_permission in Hc. repeat inv_res1.
  match goal with H' : db_create (next_permission_id d) _ _ = Ok _ |- _ => apply db_create_Ok in H' as [Hf E] end.
  subst d'. cbn.
  intros i q Hq. exists q. rewrite E, lookup_insert_ne by congruence. done.
Qed.

Lemma modify_permission_kept env (d d' : auth_db TP TU TL TG) p auth :
  modify_permission env d p auth = Ok d' -> names_kept (perms d) (perms d') /\ links d' = links d.
Proof.
  intros Hm. split; [|by eapply modify_permission_same]. unfold modify_permission in Hm. repeat inv_res1.
  match goal with H' : db_modify _ _ _ = Ok _ |- _ => apply db_modify_view in H' as (v & v' & Hv & [= Ev] & E) end.
  subst d' v'. cbn. intros i q Hq. rewrite E. destruct (decide (i = po_id p)) as [->|Hi].
  - rewrite lookup_insert_eq. replace q with v by congruence. eauto.
  - rewrite lookup_insert_ne by done. eauto.
Qed.

Lemma use_ram_links a d s s' : use_ram a d s = Ok s' -> ns_auth s' = ns_auth s.
Proof. unfold use_ram. by intros (t & _ & [= <-])%bind_Ok. Qed.

Lemma use_ram_if_links (b : bool) a d s s' :
  (if b then use_ram a d s else Ok s) = Ok s' -> ns_auth s' = ns_auth s.
Proof. destruct b; [apply use_ram_links|by intros [= <-]]. Qed.

Lemma create_account_kept env name created abi0 flags ptime check owner active s s' :
  create_account env name created abi0 flags ptime check owner active s = Ok s' ->
  names_kept (perms (ns_auth s)) (perms (ns_auth s')) /\ links (ns_auth s') = links (ns_auth s).
Proof.
  unfold create_account. intros Hr. repeat inv_res1.
  match goal with x : _ * permission_object |- _ => destruct x as [d1 op] end. repeat inv_res1.
  match goal with x : _ * permission_object |- _ => destruct x as [d2 ap] end. repeat inv_res1.
  subst s'. cbn in *.
  repeat match goal with H' : create_permission _ _ _ _ _ _ _ = Ok _ |- _ => apply create_permission_kept in H' as [? ?] end.
  split; [|congruence]. by eapply names_kept_trans.
Qed.

Lemma setcode_body_auth env c a s s' : setcode_body env c a s = Ok s' -> ns_auth s' = ns_auth s.
Proof.
  unfold setcode_body. intros Hr. do 6 inv_res1. apply bind_Ok in Hr as ([sz s1] & Hrel & Hr).
  apply bind_Ok in Hr as (s2 & Hacq & Hr).
  assert (ns_auth s1 = ns_auth s) as <-.
  { revert Hrel. destruct (negb (bool_decide _)); [|by intros [= _ <-]]. unfold release_code.
    intros (o & _ & (_ & _ & [= _ <-])%bind_Ok)%bind_Ok. done. }
  assert (ns_auth s2 = ns_auth s1) as <-.
  { revert Hacq. destruct (0 <? _); [|by intros [= <-]]. unfold acquire_code. by intros (cs & _ & [= <-])%bind_Ok. }
  by apply use_ram_if_links in Hr.
Qed.

Lemma setabi_body_auth c a s s' : setabi_body c a s = Ok s' -> ns_auth s' = ns_auth s.
Proof.
  unfold setabi_body. intros Hr. do 2 inv_res1. apply bind_Ok in Hr as (tm & _ & Hr).
  by apply use_ram_if_links in Hr.
Qed.

Lemma newaccount_kept env c create s s' :
  newaccount_body env c create s = Ok s' ->
  names_kept (perms (ns_auth s)) (perms (ns_auth s')) /\ links (ns_auth s') = links (ns_auth s).
Proof.
  unfold newaccount_body. intros Hr. do 8 inv_res1. apply bind_Ok in Hr as (s1 & Hc%create_account_kept & Hr).
  apply bind_Ok in Hr as (s2 & Hl & Hr%use_ram_links). rewrite Hr. assert (ns_auth s2 = ns_auth s1) as ->; [|done].
  revert Hl. destruct (is_system_account _); [by intros [= <-]|]. by intros ([b rl] & _ & [= <-])%bind_Ok.
Qed.

Lemma updateauth_kept env c u s s' :
  updateauth_body env c u s = Ok s' ->
  names_kept (perms (ns_auth s)) (perms (ns_auth s')) /\ links (ns_auth s') = links (ns_auth s).
Proof.
  unfold updateauth_body. intros Hr. do 2 inv_res1. apply bind_Ok in Hr as ([p|] & _ & Hr); inv_res1; inv_res1.
  - apply bind_Ok in Hr as (d & Hd%modify_permission_kept & Hr%use_ram_links). by rewrite Hr.
  - match goal with x : _ * permission_object |- _ => destruct x as [d p] end.
    apply use_ram_links in Hr. rewrite Hr. by eapply create_permission_kept.
Qed.

Lemma deleteauth_resolved env c r s s' :
  native_wf env s -> links_resolved s -> deleteauth_body env c r s = Ok s' -> links_resolved s'.
Proof.
  intros [W _] Hs. unfold deleteauth_body. intros Hr. do 4 inv_res1.
  match goal with H' : sys_assert (negb (has_links _ _ _)) _ = Ok _ |- _ =>
    apply sys_assert_Ok, negb_true_iff in H'; rename H' into Hno end.
  apply bind_Ok in Hr as (p & (i & _ & Hp & _ & Eo & En)%get_permission_Ok & Hr); [|apply W]. cbn in Eo, En.
  apply bind_Ok in Hr as (d & Hd & Hr%use_ram_links). destruct (remove_permission_same _ _ _ Hd) as [El _].
  eapply remove_permission_wf in Hd as (_ & _ & EP & _); [|apply W|done].
  intros a b t req. rewrite Hr. cbn. rewrite El, EP. intros Hx. destruct (Hs _ _ _ _ Hx) as [->|(j & q & Hq & E1 & E2)]; [by left|].
  right. exists j, q. rewrite lookup_delete_ne; [done|]. intros ->. replace q with p in * by congruence.
  assert (has_links (da_account r) (da_permission r) s = true); [|congruence].
  unfold has_links. apply existsb_exists. exists (a, b, t, req). split; [by apply list_elem_of_In, elem_of_rows|].
  cbn. apply andb_true_iff. split; apply Z.eqb_eq; congruence.
Qed.

Lemma linkauth_resolved env c l s s' :
  ne_only_link_to_existing_permission env = true -> links_resolved s -> linkauth_body env c l s = Ok s' ->
  links_resolved s'.
Proof.
  intros Hf Hs. unfold linkauth_body. intros Hr. do 4 inv_res1. apply bind_Ok in Hr as ([] & Hfound & Hr).
  set (k := (la_account l, la_code l, la_type l)) in *.
  assert (resolved (perms (ns_auth s)) (la_account l) (la_requirement l)) as Hnew.
  { destruct (la_requirement l =? sysio_any_name) eqn:E; bool_to_Z; [by left|right]. cbn in Hfound.
    apply sys_assert_Ok in Hfound. unfold find_required in Hfound. rewrite Hf in Hfound.
    apply bool_decide_eq_true in Hfound as [p (i & Hi & Eo & En)%find_by_owner_Some]. eauto. }
  assert (forall t, idx_view t = <[k := la_requirement l]> (idx_view (links (ns_auth s))) -> links_resolved (set_links t s)) as Hset.
  { intros t Et a b n r. cbn. rewrite Et. intros [[[= <- <- <-] <-]|[_ Hr']]%lookup_insert_Some; [done|].
    by apply Hs in Hr'. }
  rewrite idx_find_view in Hr. destruct (_ !! k) as [r|] eqn:Hk.
  - apply bind_Ok in Hr as ([] & _ & [= <-]). apply Hset. by apply (idx_modify_insert _ r).
  - apply bind_Ok in Hr as (t & [_ Et]%db_create_Ok & Hr%use_ram_links). intros a b n r. rewrite Hr. by apply Hset.
Qed.

(** With [only_link_to_existing_permission] activated no native action leaves a
    link to a permission that does not exist: [deleteauth] refuses linked permissions
    and [linkauth] refuses missing ones. *)
Theorem native_links_resolved env h c s s' :
  native_wf env s -> ne_only_link_to_existing_permission env = true -> links_resolved s ->
  apply_native env h c s = Ok s' -> links_resolved s'.
Proof.
  intros W Hf Hs. destruct h; cbn;
    [unfold apply_sysio_newaccount|unfold apply_sysio_setcode|unfold apply_sysio_setabi|unfold apply_sysio_updateauth
    |unfold apply_sysio_deleteauth|unfold apply_sysio_linkauth|unfold apply_sysio_unlinkauth|unfold apply_sysio_canceldelay];
    intros (_ & _ & Hr)%bind_Ok; apply bind_Ok in Hr as (x & _ & Hr); rewrite ?fc_rethrow_Ok in Hr.
  - apply newaccount_kept in Hr as [Hk El]. eapply links_resolved_mono; [by rewrite El|done|done].
  - apply setcode_body_auth in Hr. intros a b t r. rewrite Hr. apply Hs.
  - apply setabi_body_auth in Hr. intros a b t r. rewrite Hr. apply Hs.
  - apply updateauth_kept in Hr as [Hk El]. eapply links_resolved_mono; [by rewrite El|done|done].
  - by eapply deleteauth_resolved.
  - by eapply linkauth_resolved.
  - unfold unlinkauth_body in Hr. do 2 inv_res1. apply bind_Ok in Hr as (s1 & Hu%use_ram_links & [= <-]).
    eapply links_resolved_mono; [| |exact Hs]; cbn; rewrite Hu; [|apply names_kept_refl].
    intros k r. rewrite idx_remove_view. by intros [_ ?]%lookup_delete_Some.
  - inv_res1. apply bind_Ok in Hr as ([b s1] & Hr & [= <-]). revert Hr. unfold cancel_deferred_transaction.
    destruct (ne_disable_deferred_trxs_stage_1 env); [by intros [= _ <-]|]. intros (_ & _ & Hr)%bind_Ok.
    destruct (find_by_sender _ _ s) as [[k g]|]; [|by injection Hr as _ <-].
    apply bind_Ok in Hr as (s2 & Hu%use_ram_links & [= _ <-]). intros a d t r. cbn. rewrite Hu. apply Hs.
Qed.
End reachable.
