(* ===== verification/Packing.v ===== *)
(** * Binary serialisation ([fc/io/raw.hpp], [fc/io/datastream.hpp], [fc/container])

    A packed value is a list of bytes; unpacking reads from the front of the bytes
    that remain in the stream.  A [packer] is the pair of overloads [pack] and
    [unpack] of one C++ type; overloads for templates are functions on packers.
    [Lossless c P] says that values with [P] are packed and come back, with the rest
    of the stream left in place. *)

From S2P Require Import Prelude Exceptions.

(** ** Streams *)

Definition is_byte (b : Z) : Prop := 0 <= b < 256.

(** [datastream<const char*>::read] and [get] *)
Definition stream_read (n : nat) (s : list Z) : res (list Z * list Z) :=
  if (n <=? length s)%nat then Ok (take n s, drop n s) else Throw fc_out_of_range_exception.

Definition stream_get (s : list Z) : res (Z * list Z) :=
  match s with b :: s => Ok (b, s) | [] => Throw fc_out_of_range_exception end.

Record packer (T : Type) := mk_packer {
  pack : T -> res (list Z);
  unpack : list Z -> res (T * list Z) }.
Arguments mk_packer {T} pack unpack.
Arguments pack {T} p x.
Arguments unpack {T} p s.

(** [fc::raw::unpack<T>( vector<char> )]: bytes left over are ignored. *)
Definition unpack_bytes {T} (c : packer T) (bytes : list Z) : res T :=
  fc_rethrow ('(x, _) ← unpack c bytes; Ok x).

Class Lossless {T} (c : packer T) (P : T -> Prop) : Prop :=
  lossless x rest : P x -> exists bytes, pack c x = Ok bytes /\ unpack c (bytes ++ rest) = Ok (x, rest).
#[export] Hint Mode Lossless + ! - : typeclass_instances.

(** ** Integers *)

(** The bytes of an unsigned number in memory, least significant first. *)
Fixpoint le_bytes (n : nat) (v : Z) : list Z :=
  match n with O => [] | S n => v mod 256 :: le_bytes n (v / 256) end.

Fixpoint le_value (bytes : list Z) : Z :=
  match bytes with [] => 0 | b :: bytes => u8 b + 256 * le_value bytes end.

(** [uint8_t] to [uint64_t] and 128-bit numbers, [n] bytes wide *)
Definition p_uint (n : nat) : packer Z := mk_packer
  (fun v => Ok (le_bytes n v))
  (fun s => '(b, s) ← stream_read n s; Ok (le_value b, s)).

Definition to_signed (bits z : Z) : Z := (z + 2 ^ (bits - 1)) mod 2 ^ bits - 2 ^ (bits - 1).

(** [int8_t] to [int64_t], two's complement *)
Definition p_int (n : nat) : packer Z := mk_packer
  (fun v => Ok (le_bytes n (v mod 256 ^ Z.of_nat n)))
  (fun s => '(b, s) ← stream_read n s; Ok (to_signed (8 * Z.of_nat n) (le_value b), s)).

(** [bool]: other bytes than 0 and 1 are refused. *)
Definition p_bool : packer bool := mk_packer
  (fun v : bool => Ok [if v then 1 else 0])
  (fun s => '(b, s) ← stream_get s;
            _ ← sys_assert (Z.land b 254 =? 0) fc_assert_exception;
            Ok (negb (b =? 0), s)).

(** The loop of both variable-length integers; a 64-bit [val] has ten groups of seven bits. *)
Fixpoint varint_bytes (fuel : nat) (val : Z) : list Z :=
  match fuel with
  | O => []
  | S fuel =>
    let b := Z.land val 127 in
    let val := Z.shiftr val 7 in
    Z.lor b (if 0 <? val then 128 else 0) :: (if val =? 0 then [] else varint_bytes fuel val)
  end.

Fixpoint unpack_unsigned_loop (v by_ : Z) (s : list Z) : res (Z * list Z) :=
  match s with
  | [] => Throw fc_out_of_range_exception
  | b :: s =>
    let v := Z.lor v (u32 (Z.shiftl (Z.land b 127) by_)) in
    let by_ := u8 (by_ + 7) in
    if negb (Z.land b 128 =? 0) && (by_ <? 32) then unpack_unsigned_loop v by_ s else Ok (u32 v, s)
  end.

(** [fc::unsigned_int] *)
Definition p_unsigned_int : packer Z := mk_packer
  (fun v => Ok (varint_bytes 10 v))
  (fun s => unpack_unsigned_loop 0 0 s).

(** [fc::signed_int]: zigzag; the loop has no bound on the shift, and shifting a
    32-bit number by 32 bits or more is undefined. *)
Definition zigzag (v : Z) : Z := u32 (Z.lxor (Z.shiftl v 1) (Z.shiftr v 31)).
Definition unzigzag (v : Z) : Z :=
  to_signed 32 (Z.lxor (Z.shiftr v 1) (u64 (u32 (Z.lnot (Z.land v 1)) + 1))).

Fixpoint unpack_signed_loop (v by_ : Z) (s : list Z) : res (Z * list Z) :=
  match s with
  | [] => Throw fc_out_of_range_exception
  | b :: s =>
    if 32 <=? by_ then Throw undefined_behavior else
    let v := Z.lor v (u32 (Z.shiftl (Z.land b 127) by_)) in
    if negb (Z.land b 128 =? 0) then unpack_signed_loop v (by_ + 7) s else Ok (unzigzag v, s)
  end.

Definition p_signed_int : packer Z := mk_packer
  (fun v => Ok (varint_bytes 10 (zigzag v)))
  (fun s => unpack_signed_loop 0 0 s).

(** ** Containers *)

Definition max_size_of_byte_arrays : Z := 20 * 1024 * 1024.
Definition max_num_array_elements : Z := 1024 * 1024.

(** [std::vector<char>], [std::string], [shared_string], [shared_blob] *)
Definition p_bytes : packer (list Z) := mk_packer
  (fun v => _ ← sys_assert (Z.of_nat (length v) <=? max_size_of_byte_arrays) fc_assert_exception;
            n ← pack p_unsigned_int (u32 (Z.of_nat (length v)));
            Ok (n ++ v))
  (fun s => '(n, s) ← unpack p_unsigned_int s;
            _ ← sys_assert (n <=? max_size_of_byte_arrays) fc_assert_exception;
            stream_read (Z.to_nat n) s).

Section containers.
Context {T : Type} (c : packer T).

Definition p_optional : packer (option T) := mk_packer
  (fun v => match v with
            | Some x => b ← pack p_bool true; bx ← pack c x; Ok (b ++ bx)
            | None => pack p_bool false
            end)
  (fun s => '(b, s) ← unpack p_bool s;
            if b : bool then '(x, s) ← unpack c s; Ok (Some x, s) else Ok (None, s)).

Fixpoint pack_all (xs : list T) : res (list Z) :=
  match xs with
  | [] => Ok []
  | x :: xs => b ← pack c x; bs ← pack_all xs; Ok (b ++ bs)
  end.

Fixpoint unpack_all (n : nat) (s : list Z) : res (list T * list Z) :=
  match n with
  | O => Ok ([], s)
  | S n => '(x, s) ← unpack c s; '(xs, s) ← unpack_all n s; Ok (x :: xs, s)
  end.

Definition pack_sequence (v : list T) : res (list Z) :=
  _ ← sys_assert (Z.of_nat (length v) <=? max_num_array_elements) fc_assert_exception;
  n ← pack p_unsigned_int (u32 (Z.of_nat (length v)));
  bs ← pack_all v;
  Ok (n ++ bs).

Definition unpack_sequence (s : list Z) : res (list T * list Z) :=
  '(n, s) ← unpack p_unsigned_int s;
  _ ← sys_assert (n <=? max_num_array_elements) fc_assert_exception;
  unpack_all (Z.to_nat n) s.

(** [std::vector], [std::deque], [std::list] *)
Definition p_vector : packer (list T) := mk_packer pack_sequence unpack_sequence.

(** [std::array], [fc::array]: the length is part of the type. *)
Definition p_array (n : nat) : packer (list T) := mk_packer pack_all (unpack_all n).

(** Insertion into an ordered container that keeps its first element of each key. *)
Context (less : T -> T -> bool).
Fixpoint insert_unique (x : T) (xs : list T) : list T :=
  match xs with
  | [] => [x]
  | y :: ys => if less x y then x :: xs else if less y x then y :: insert_unique x ys else xs
  end.

(** [std::set], [std::map], [flat_set], [flat_map], as the sorted list of their elements *)
Definition p_ordered : packer (list T) := mk_packer pack_sequence
  (fun s => '(xs, s) ← unpack_sequence s; Ok (foldl (fun acc x => insert_unique x acc) [] xs, s)).
End containers.

(** [std::pair], and two consecutive fields of a reflected class *)
Definition p_pair {A B} (ca : packer A) (cb : packer B) : packer (A * B) := mk_packer
  (fun '(a, b) => x ← pack ca a; y ← pack cb b; Ok (x ++ y))
  (fun s => '(a, s) ← unpack ca s; '(b, s) ← unpack cb s; Ok ((a, b), s)).

(** [std::variant]: the index of the alternative, then its value. *)
Definition p_variant {T} (alternatives : list (packer T)) (index : T -> nat) : packer T := mk_packer
  (fun v => n ← pack p_unsigned_int (Z.of_nat (index v));
            c ← of_option undefined_behavior (alternatives !! index v);
            bs ← pack c v; Ok (n ++ bs))
  (fun s => '(n, s) ← unpack p_unsigned_int s;
            c ← of_option fc_assert_exception (alternatives !! Z.to_nat n);
            unpack c s).

(** A class without a [reflector_init] *)
Definition no_init {A} (_ : A) : res unit := Ok tt.

(** A reflected class: its members in order, then [reflector_init] on the result. *)
Definition p_reflect {A B} (to : A -> B) (from : B -> A) (reflector_init : A -> res unit) (c : packer B)
  : packer A := mk_packer
  (fun a => pack c (to a))
  (fun s => '(b, s) ← unpack c s; _ ← reflector_init (from b); Ok (from b, s)).

(** A reflected enum, as [int64_t]. *)
Definition p_enum : packer Z := p_int 8.

(** [boost::container::vector] of a fundamental type of [w] bytes: only as many bytes
    as there are elements are written and read. *)
Definition p_boost_vector (w : nat) : packer (list Z) := mk_packer
  (fun v => _ ← sys_assert (Z.of_nat (length v) <=? max_num_array_elements) fc_assert_exception;
            n ← pack p_unsigned_int (u32 (Z.of_nat (length v)));
            Ok (n ++ take (length v) (concat (le_bytes w <$> v))))
  (fun s => '(n, s) ← unpack p_unsigned_int s;
            _ ← sys_assert (n <=? max_num_array_elements) fc_assert_exception;
            '(raw, s) ← stream_read (Z.to_nat n) s;
            let memory := raw ++ replicate (Z.to_nat n * w - length raw) 0 in
            Ok ((fun i => le_value (take w (drop (i * w) memory))) <$> seq 0 (Z.to_nat n), s)).

(** ** Integers come back *)

Lemma length_le_bytes n v : length (le_bytes n v) = n.
Proof. revert v. induction n as [|n IH]; intros v; [done|]. cbn. by rewrite IH. Qed.

Lemma le_value_bytes n v : 0 <= v < 256 ^ Z.of_nat n -> le_value (le_bytes n v) = v.
Proof.
  revert v. induction n as [|n IH]; intros v Hv; [cbn in *; lia|].
  rewrite Nat2Z.inj_succ, Z.pow_succ_r in Hv by lia. cbn [le_bytes le_value].
  rewrite IH by (split; [apply Z.div_pos; lia|apply Z.div_lt_upper_bound; lia]).
  unfold u8. change (2 ^ 8) with 256. rewrite Z.mod_mod by lia. pose proof (Z.div_mod v 256 ltac:(lia)). lia.
Qed.

Lemma stream_read_app bs rest : stream_read (length bs) (bs ++ rest) = Ok (bs, rest).
Proof.
  unfold stream_read. rewrite length_app, (proj2 (Nat.leb_le _ _)) by lia.
  by rewrite take_app_length, drop_app_length.
Qed.

#[export] Instance uint_lossless n : Lossless (p_uint n) (fun v => 0 <= v < 256 ^ Z.of_nat n).
Proof.
  intros v rest Hv. eexists. split; [reflexivity|]. cbn.
  rewrite <- (length_le_bytes n v) at 1. rewrite stream_read_app. cbn. by rewrite le_value_bytes.
Qed.

Lemma to_signed_mod bits v :
  0 < bits -> - 2 ^ (bits - 1) <= v < 2 ^ (bits - 1) -> to_signed bits (v mod 2 ^ bits) = v.
Proof.
  intros Hb Hv. unfold to_signed. rewrite Z.add_mod_idemp_l by (apply Z.pow_nonzero; lia).
  assert (2 ^ bits = 2 * 2 ^ (bits - 1)) as E by (rewrite <- Z.pow_succ_r by lia; f_equal; lia).
  rewrite Z.mod_small by lia. lia.
Qed.

#[export] Instance int_lossless n :
  Lossless (p_int (S n)) (fun v => - 2 ^ (8 * Z.of_nat (S n) - 1) <= v < 2 ^ (8 * Z.of_nat (S n) - 1)).
Proof.
  intros v rest Hv. eexists. split; [reflexivity|].
  assert (256 ^ Z.of_nat (S n) = 2 ^ (8 * Z.of_nat (S n))) as E
    by (change 256 with (2 ^ 8); rewrite <- Z.pow_mul_r by lia; reflexivity).
  cbn -[le_bytes Z.of_nat stream_read Z.mul]. set (w := v mod _).
  rewrite <- (length_le_bytes (S n) w) at 1. rewrite stream_read_app. cbn -[le_bytes le_value Z.of_nat Z.mul].
  rewrite le_value_bytes by (apply Z.mod_pos_bound; lia). subst w.
  rewrite E, to_signed_mod by lia. done.
Qed.

#[export] Instance bool_lossless : Lossless p_bool (fun _ => True).
Proof. intros [] rest _; eexists; split; reflexivity. Qed.

(** The byte of a group of seven bits: the group and the mark that more follow. *)
Lemma varint_group v (more : bool) :
  0 <= v ->
  let b := Z.lor (Z.land v 127) (if more then 128 else 0) in
  Z.land b 127 = v mod 128 /\ (Z.land b 128 =? 0) = negb more.
Proof.
  intros Hv. change 127 with (Z.ones 7) at 1. rewrite Z.land_ones by lia. change (2 ^ 7) with 128.
  pose proof (Z.mod_pos_bound v 128 eq_refl) as Hx. set (x := v mod 128) in *.
  pose proof (seqZ_check (fun x => (Z.land (Z.lor x 128) 127 =? x) && (Z.land (Z.lor x 0) 127 =? x)
    && negb (Z.land (Z.lor x 128) 128 =? 0) && (Z.land (Z.lor x 0) 128 =? 0)) 128 x eq_refl Hx) as Hc.
  cbv beta in Hc. bool_to_Z. destruct more; cbn [negb]; (split; [done|]); apply Z.eqb_eq || apply Z.eqb_neq; done.
Qed.

(** Joining one more group above [r]. *)
Lemma varint_join r x k : 0 <= k -> 0 <= r < 2 ^ k -> 0 <= x * 2 ^ k < 2 ^ 32 ->
  Z.lor r (u32 (Z.shiftl x k)) = r + x * 2 ^ k.
Proof.
  intros Hk Hr Hx. rewrite Z.shiftl_mul_pow2, u32_small by lia.
  rewrite Z.lor_comm, lor_shifted by lia. lia.
Qed.

(** What both loops need about one step, for a number of which [k] bits have been read. *)
Lemma varint_step v r k :
  0 <= k -> 0 <= v -> 0 <= r < 2 ^ k -> r + v * 2 ^ k < 2 ^ 32 ->
  let r' := r + (v mod 128) * 2 ^ k in
  Z.lor r (u32 (Z.shiftl (v mod 128) k)) = r' /\ 0 <= r' < 2 ^ (k + 7) /\
  r' + v / 128 * 2 ^ (k + 7) = r + v * 2 ^ k.
Proof.
  intros Hk Hv Hr Hb r'. pose proof (Z.mod_pos_bound v 128 eq_refl). pose proof (Z.div_mod v 128 ltac:(lia)).
  pose proof (Z.div_pos v 128 Hv eq_refl).
  assert (2 ^ (k + 7) = 128 * 2 ^ k) as E by (rewrite Z.pow_add_r by lia; lia).
  rewrite E. split_and!; [|nia..]. apply varint_join; [lia..|nia].
Qed.

Lemma unpack_unsigned_varint fuel : forall v r k rest,
  (0 < fuel)%nat -> 0 <= v < 2 ^ (7 * Z.of_nat fuel) -> 0 <= k -> 0 <= r < 2 ^ k -> r + v * 2 ^ k < 2 ^ 32 ->
  (k = 0 \/ 0 < v) ->
  unpack_unsigned_loop r k (varint_bytes fuel v ++ rest) = Ok (r + v * 2 ^ k, rest).
Proof.
  induction fuel as [|fuel IH]; intros v r k rest Hf Hv Hk Hr Hb Hv0; [lia|].
  cbn [varint_bytes app unpack_unsigned_loop].
  destruct (varint_group v (0 <? Z.shiftr v 7) ltac:(lia)) as [-> ->]. rewrite negb_involutive.
  destruct (varint_step v r k) as (-> & Hr' & Hsum); [lia..|].
  rewrite Z.shiftr_div_pow2 in * by lia. change (2 ^ 7) with 128 in *.
  pose proof (Z.div_pos v 128 ltac:(lia) eq_refl).
  assert (k < 32) as Hk32.
  { destruct Hv0; [lia|]. apply (Z.pow_lt_mono_r_iff 2); nia. }
  assert (u8 (k + 7) = k + 7) as -> by (apply Z.mod_small; lia).
  destruct (Z.ltb_spec 0 (v / 128)) as [Hp|Hp].
  - assert (k + 7 < 32) by (apply (Z.pow_lt_mono_r_iff 2); nia).
    rewrite (proj2 (Z.ltb_lt (k + 7) 32)), (proj2 (Z.eqb_neq _ 0)) by lia. cbn [andb].
    destruct fuel as [|fuel]; [cbn in Hv; pose proof (Z.div_small v 128); lia|].
    rewrite IH; [by rewrite Hsum|lia| |lia..].
    split; [lia|]. apply Z.div_lt_upper_bound; [lia|]. replace (7 * Z.of_nat (S (S fuel))) with (7 + 7 * Z.of_nat (S fuel)) in Hv by lia.
    rewrite Z.pow_add_r in Hv by lia. lia.
  - replace (v / 128) with 0 in * by lia. cbn [andb Z.eqb app]. rewrite u32_small by lia. by rewrite <- Hsum, Z.mul_0_l, Z.add_0_r.
Qed.

#[export] Instance unsigned_int_lossless : Lossless p_unsigned_int is_u32.
Proof.
  intros v rest Hv. unfold is_u32 in Hv. eexists. split; [reflexivity|].
  cbn [unpack p_unsigned_int]. rewrite unpack_unsigned_varint; [|lia|cbn; lia|lia|cbn; lia|cbn; lia|by left].
  by rewrite Z.add_0_l, Z.mul_1_r.
Qed.

(** Reversing zigzag: [lxor] with all ones of 32 bits is the complement. *)
Lemma lxor_ones32 x : 0 <= x < 2 ^ 32 -> Z.lxor x (2 ^ 32 - 1) = 2 ^ 32 - 1 - x.
Proof.
  intros Hx. change (2 ^ 32 - 1) with (Z.ones 32).
  rewrite <- (Z.mod_small (Z.ones 32 - x) (2 ^ 32)) by (change (Z.ones 32) with (2 ^ 32 - 1); lia).
  replace (Z.ones 32 - x) with (Z.lnot x + 1 * 2 ^ 32) by (unfold Z.lnot; change (Z.ones 32) with (2 ^ 32 - 1); lia).
  rewrite Z.mod_add, <- Z.land_ones by lia. apply Z.bits_inj'. intros n Hn.
  rewrite Z.lxor_spec, Z.land_spec, Z.lnot_spec by lia.
  destruct (Z.lt_ge_cases n 32).
  - rewrite Z.ones_spec_low by lia. by rewrite xorb_true_r, andb_true_r.
  - rewrite Z.ones_spec_high by lia. rewrite xorb_false_r, andb_false_r.
    destruct (Z.eq_dec x 0) as [->|]; [apply Z.bits_0|].
    apply Z.bits_above_log2; [lia|]. apply Z.log2_lt_pow2; [lia|].
    pose proof (Z.pow_le_mono_r 2 32 n). lia.
Qed.

Lemma land_shifted a b k : 0 <= k -> 0 <= b < 2 ^ k -> Z.land (a * 2 ^ k) b = 0.
Proof.
  intros Hk Hb. pose proof (lor_shifted a b k Hk Hb) as E. pose proof (Z.add_lor_land (a * 2 ^ k) b). lia.
Qed.

Lemma to_signed_wrap v k : - 2 ^ 31 <= v < 2 ^ 31 -> to_signed 32 (v + k * 2 ^ 32) = v.
Proof.
  intros Hv. rewrite <- (to_signed_mod 32 v) at 2 by (cbn; lia). unfold to_signed.
  rewrite Z.add_mod_idemp_l by lia. replace (v + k * 2 ^ 32 + 2 ^ (32 - 1)) with (v + 2 ^ (32 - 1) + k * 2 ^ 32) by lia.
  by rewrite Z.mod_add by lia.
Qed.

Lemma zigzag_value v : - 2 ^ 31 <= v < 2 ^ 31 -> zigzag v = if v <? 0 then 1 + (- v - 1) * 2 else v * 2.
Proof.
  intros Hv. unfold zigzag. rewrite Z.shiftl_mul_pow2, Z.shiftr_div_pow2 by lia. change (2 ^ 1) with 2.
  destruct (Z.ltb_spec v 0).
  - replace (v / 2 ^ 31) with (-1) by (apply (Z.div_unique_pos _ _ _ (v + 2 ^ 31)); lia).
    rewrite Z.lxor_m1_r. unfold Z.lnot. rewrite u32_small by lia. lia.
  - rewrite Z.div_small, Z.lxor_0_r, u32_small by lia. done.
Qed.

Lemma unzigzag_zigzag v : - 2 ^ 31 <= v < 2 ^ 31 -> unzigzag (zigzag v) = v /\ is_u32 (zigzag v).
Proof.
  intros Hv. rewrite zigzag_value by done. unfold unzigzag, is_u32. rewrite Z.shiftr_div_pow2 by lia.
  change (Z.land (if v <? 0 then 1 + (- v - 1) * 2 else v * 2) 1)
    with (Z.land (if v <? 0 then 1 + (- v - 1) * 2 else v * 2) (Z.ones 1)).
  rewrite Z.land_ones by lia. change (2 ^ 1) with 2.
  destruct (Z.ltb_spec v 0); (split; [|lia]).
  - rewrite Z.div_add, Z.mod_add by lia. change (1 / 2) with 0. rewrite Z.add_0_l.
    change (u64 (u32 (Z.lnot (1 mod 2)) + 1)) with (2 ^ 32 - 1). rewrite lxor_ones32 by lia.
    replace (2 ^ 32 - 1 - (- v - 1)) with (v + 1 * 2 ^ 32) by lia. by apply to_signed_wrap.
  - rewrite Z.div_mul, Z.mod_mul by lia. change (u64 (u32 (Z.lnot 0) + 1)) with (1 * 2 ^ 32).
    rewrite Z.lxor_comm, <- Z.add_nocarry_lxor, Z.add_comm by (apply land_shifted; lia). by apply to_signed_wrap.
Qed.

Lemma unpack_signed_varint fuel : forall v r k rest,
  (0 < fuel)%nat -> 0 <= v < 2 ^ (7 * Z.of_nat fuel) -> 0 <= k -> 0 <= r < 2 ^ k -> r + v * 2 ^ k < 2 ^ 32 ->
  (k = 0 \/ 0 < v) ->
  unpack_signed_loop r k (varint_bytes fuel v ++ rest) = Ok (unzigzag (r + v * 2 ^ k), rest).
Proof.
  induction fuel as [|fuel IH]; intros v r k rest Hf Hv Hk Hr Hb Hv0; [lia|].
  cbn [varint_bytes app unpack_signed_loop].
  destruct (varint_group v (0 <? Z.shiftr v 7) ltac:(lia)) as [-> ->]. rewrite negb_involutive.
  destruct (varint_step v r k) as (-> & Hr' & Hsum); [lia..|].
  rewrite Z.shiftr_div_pow2 in * by lia. change (2 ^ 7) with 128 in *.
  pose proof (Z.div_pos v 128 ltac:(lia) eq_refl).
  assert (k < 32) as Hk32.
  { destruct Hv0; [lia|]. apply (Z.pow_lt_mono_r_iff 2); nia. }
  rewrite (proj2 (Z.leb_gt 32 k)) by lia.
  destruct (Z.ltb_spec 0 (v / 128)) as [Hp|Hp].
  - rewrite (proj2 (Z.eqb_neq _ 0)) by lia.
    destruct fuel as [|fuel]; [cbn in Hv; pose proof (Z.div_small v 128); lia|].
    rewrite IH; [by rewrite Hsum|lia| |lia..].
    split; [lia|]. apply Z.div_lt_upper_bound; [lia|]. replace (7 * Z.of_nat (S (S fuel))) with (7 + 7 * Z.of_nat (S fuel)) in Hv by lia.
    rewrite Z.pow_add_r in Hv by lia. lia.
  - replace (v / 128) with 0 in * by lia. cbn [Z.eqb app]. by rewrite <- Hsum, Z.mul_0_l, Z.add_0_r.
Qed.

#[export] Instance signed_int_lossless : Lossless p_signed_int (fun v => - 2 ^ 31 <= v < 2 ^ 31).
Proof.
  intros v rest Hv. destruct (unzigzag_zigzag v Hv) as [E Hu]. unfold is_u32 in Hu.
  eexists. split; [reflexivity|]. cbn [unpack p_signed_int].
  rewrite unpack_signed_varint; [|lia|cbn; lia|lia|cbn; lia|cbn; lia|by left].
  by rewrite Z.add_0_l, Z.mul_1_r, E.
Qed.

(** ** Containers come back *)

Lemma lossless_bind {T} (c : packer T) {P} `{!Lossless c P} x : P x ->
  exists bytes, pack c x = Ok bytes /\ forall rest, unpack c (bytes ++ rest) = Ok (x, rest).
Proof.
  intros Hx. destruct (lossless (c := c) x [] Hx) as (b & Hb & _). exists b. split; [done|]. intros rest.
  destruct (lossless (c := c) x rest Hx) as (b' & Hb' & Hu). rewrite Hb in Hb'. by injection Hb' as ->.
Qed.

Lemma unsigned_int_bind n : 0 <= n < 2 ^ 32 ->
  exists bytes, pack p_unsigned_int n = Ok bytes /\ forall rest, unpack p_unsigned_int (bytes ++ rest) = Ok (n, rest).
Proof. intros Hn. exact (lossless_bind p_unsigned_int n Hn). Qed.

#[export] Instance bytes_lossless : Lossless p_bytes (fun v => Z.of_nat (length v) <= max_size_of_byte_arrays).
Proof.
  intros v rest Hv. unfold max_size_of_byte_arrays in *.
  destruct (unsigned_int_bind (Z.of_nat (length v)) ltac:(lia)) as (b & Hp & Hu).
  exists (b ++ v). cbn [pack unpack p_bytes]. unfold max_size_of_byte_arrays.
  rewrite bind_assert by (apply Z.leb_le; lia). rewrite u32_small, Hp by lia. split; [done|].
  rewrite <- app_assoc, Hu. cbn -[stream_read Z.mul]. rewrite bind_assert by (apply Z.leb_le; lia).
  rewrite Nat2Z.id. apply stream_read_app.
Qed.

Section containers_lossless.
Context {T : Type} (c : packer T) (P : T -> Prop) `{!Lossless c P}.

#[export] Instance optional_lossless : Lossless (p_optional c) (fun o => match o with Some x => P x | None => True end).
Proof.
  intros [x|] rest Hx; [|by eexists; split].
  destruct (lossless_bind c x Hx) as (b & Hp & Hu). exists ([1] ++ b). cbn. rewrite Hp. split; [done|].
  change (Z.land 1 254 =? 0) with true. cbn. by rewrite Hu.
Qed.

Lemma pack_all_lossless xs :
  Forall P xs -> exists bytes, pack_all c xs = Ok bytes /\
    forall rest, unpack_all c (length xs) (bytes ++ rest) = Ok (xs, rest).
Proof.
  induction 1 as [|x xs Hx _ (bs & Hp & Hu)]; [by exists []|].
  destruct (lossless_bind c x Hx) as (b & Hb & Hub). exists (b ++ bs). cbn. rewrite Hb. cbn. rewrite Hp. split; [done|].
  intros rest. rewrite <- app_assoc, Hub. cbn. by rewrite Hu.
Qed.

Lemma sequence_lossless xs :
  Forall P xs -> Z.of_nat (length xs) <= max_num_array_elements ->
  exists bytes, pack_sequence c xs = Ok bytes /\
    forall rest, unpack_sequence c (bytes ++ rest) = Ok (xs, rest).
Proof.
  unfold max_num_array_elements. intros Hxs Hl. destruct (pack_all_lossless xs Hxs) as (bs & Hp & Hu).
  destruct (unsigned_int_bind (Z.of_nat (length xs)) ltac:(lia)) as (b & Hb & Hub).
  exists (b ++ bs). unfold pack_sequence, unpack_sequence, max_num_array_elements.
  rewrite bind_assert by (apply Z.leb_le; lia). rewrite u32_small, Hb by lia. cbn -[Z.mul]. rewrite Hp. split; [done|].
  intros rest. change (unpack_unsigned_loop 0 0) with (unpack p_unsigned_int).
  rewrite <- app_assoc, Hub. cbn -[Z.mul unpack_all].
  rewrite bind_assert by (apply Z.leb_le; lia). by rewrite Nat2Z.id, Hu.
Qed.

#[export] Instance vector_lossless :
  Lossless (p_vector c) (fun xs => Forall P xs /\ Z.of_nat (length xs) <= max_num_array_elements).
Proof. intros xs rest [Hxs Hl]. destruct (sequence_lossless xs Hxs Hl) as (b & ? & ?). eauto. Qed.

#[export] Instance array_lossless n : Lossless (p_array c n) (fun xs => Forall P xs /\ length xs = n).
Proof. intros xs rest [Hxs <-]. destruct (pack_all_lossless xs Hxs) as (b & ? & ?). eauto. Qed.

Context (less : T -> T -> bool) (less_asym : forall x y, less x y = true -> less y x = false).

(** An element above all others goes to the end. *)
Lemma insert_unique_last x xs :
  Forall (fun y => less y x = true) xs -> insert_unique less x xs = xs ++ [x].
Proof. induction 1 as [|y ys Hy _ IH]; [done|]. cbn. by rewrite less_asym, Hy, IH. Qed.

Lemma insert_all_sorted xs acc :
  StronglySorted (fun x y => less x y = true) (acc ++ xs) ->
  foldl (fun acc x => insert_unique less x acc) acc xs = acc ++ xs.
Proof.
  revert acc. induction xs as [|x xs IH]; intros acc Hs; cbn; [by rewrite app_nil_r|].
  rewrite insert_unique_last.
  - rewrite IH; rewrite <- app_assoc; done.
  - apply Forall_forall. intros y Hy. apply (StronglySorted_app_1_elem_of (fun x y => less x y = true) acc (x :: xs)); [done..|by left].
Qed.

#[export] Instance ordered_lossless :
  Lossless (p_ordered c less) (fun xs => Forall P xs /\ Z.of_nat (length xs) <= max_num_array_elements /\
                                         StronglySorted (fun x y => less x y = true) xs).
Proof.
  intros xs rest (Hxs & Hl & Hs). destruct (sequence_lossless xs Hxs Hl) as (b & Hp & Hu). exists b.
  split; [done|]. cbn [unpack p_ordered]. rewrite Hu. cbn. by rewrite insert_all_sorted.
Qed.
End containers_lossless.

#[export] Instance pair_lossless {A B} (ca : packer A) (cb : packer B) P Q :
  Lossless ca P -> Lossless cb Q -> Lossless (p_pair ca cb) (fun x => P x.1 /\ Q x.2).
Proof.
  intros HA HB [a b] rest [Ha Hb]. cbn in *.
  destruct (lossless_bind ca a Ha) as (x & Hx & Hux). destruct (lossless_bind cb b Hb) as (y & Hy & Huy).
  exists (x ++ y). rewrite Hx. cbn. rewrite Hy. split; [done|]. rewrite <- app_assoc, Hux. cbn. by rewrite Huy.
Qed.

(** Each alternative of a variant comes back to itself. *)
Lemma variant_lossless {T} (alternatives : list (packer T)) (index : T -> nat) (P : T -> Prop) :
  Z.of_nat (length alternatives) <= 2 ^ 32 ->
  (forall i c, alternatives !! i = Some c -> Lossless c (fun v => P v /\ index v = i)) ->
  Lossless (p_variant alternatives index) (fun v => P v /\ (index v < length alternatives)%nat).
Proof.
  intros Hlen Halt v rest [Hv Hi]. destruct (lookup_lt_is_Some_2 _ _ Hi) as [c Hc].
  pose proof (Halt _ _ Hc) as Hl. destruct (lossless_bind c v (conj Hv eq_refl)) as (b & Hb & Hub).
  destruct (unsigned_int_bind (Z.of_nat (index v)) ltac:(lia)) as (n & Hn & Hun).
  exists (n ++ b). cbn [pack unpack p_variant]. rewrite Hn. cbn. rewrite Hc. cbn. rewrite Hb. split; [done|].
  change (unpack_unsigned_loop 0 0) with (unpack p_unsigned_int).
  rewrite <- app_assoc, Hun. cbn. rewrite Nat2Z.id, Hc. apply Hub.
Qed.

Lemma reflect_lossless {A B} (to : A -> B) (from : B -> A) init (c : packer B) (P : A -> Prop) (Q : B -> Prop) :
  Lossless c Q -> (forall a, P a -> Q (to a) /\ from (to a) = a /\ init a = Ok tt) ->
  Lossless (p_reflect to from init c) P.
Proof.
  intros HL HP a rest Ha. destruct (HP a Ha) as (Hq & Hft & Hi).
  destruct (lossless_bind c (to a) Hq) as (b & Hb & Hu). exists b. split; [done|].
  cbn. rewrite Hu. cbn. by rewrite Hft, Hi.
Qed.

(** ** What unpacking can yield *)

(** [Yields c P]: whatever the bytes, a value that is unpacked has [P]. *)
Class Yields {T} (c : packer T) (P : T -> Prop) : Prop :=
  yields s x rest : unpack c s = Ok (x, rest) -> P x.
#[export] Hint Mode Yields + ! - : typeclass_instances.

Lemma le_value_bound bs : 0 <= le_value bs < 256 ^ Z.of_nat (length bs).
Proof.
  induction bs as [|b bs IH]; [cbn; lia|]. cbn [le_value length]. rewrite Nat2Z.inj_succ, Z.pow_succ_r by lia.
  pose proof (Z.mod_pos_bound b (2 ^ 8) eq_refl). unfold u8. lia.
Qed.

Lemma stream_read_Ok n s b rest : stream_read n s = Ok (b, rest) -> length b = n /\ s = b ++ rest.
Proof.
  unfold stream_read. destruct (Nat.leb_spec n (length s)); [|done]. intros [= <- <-].
  by rewrite length_take, Nat.min_l, take_drop by lia.
Qed.

#[export] Instance uint_yields n : Yields (p_uint n) (fun v => 0 <= v < 256 ^ Z.of_nat n).
Proof.
  intros s x rest ([b s'] & Hr & [= <- <-])%bind_Ok. destruct (stream_read_Ok _ _ _ _ Hr) as [<- _].
  apply le_value_bound.
Qed.

#[export] Instance bytes_yields : Yields p_bytes (fun v => Z.of_nat (length v) <= max_size_of_byte_arrays).
Proof.
  intros s x rest ([n s'] & _ & (u & Hn%sys_assert_Ok & Hr)%bind_Ok)%bind_Ok.
  destruct (stream_read_Ok _ _ _ _ Hr) as [-> _]. apply Z.leb_le in Hn. unfold max_size_of_byte_arrays in *. lia.
Qed.

Lemma unpack_all_length {T} (c : packer T) n : forall s xs rest, unpack_all c n s = Ok (xs, rest) -> length xs = n.
Proof.
  induction n as [|n IH]; intros s xs rest; cbn; [by intros [= <- _]|].
  intros ([x s1] & _ & ([ys s2] & Hys & [= <- <-])%bind_Ok)%bind_Ok. cbn. by rewrite (IH _ _ _ Hys).
Qed.

#[export] Instance vector_yields {T} (c : packer T) :
  Yields (p_vector c) (fun xs => Z.of_nat (length xs) <= max_num_array_elements).
Proof.
  intros s x rest ([n s'] & _ & (u & Hn%sys_assert_Ok & Hr)%bind_Ok)%bind_Ok.
  rewrite (unpack_all_length _ _ _ _ _ Hr). apply Z.leb_le in Hn. unfold max_num_array_elements in *. lia.
Qed.

Lemma unpack_all_yields {T} (c : packer T) P `{!Yields c P} n :
  forall s xs rest, unpack_all c n s = Ok (xs, rest) -> Forall P xs.
Proof.
  induction n as [|n IH]; intros s xs rest; cbn; [by intros [= <- _]|].
  intros ([x s1] & Hx & ([ys s2] & Hys & [= <- <-])%bind_Ok)%bind_Ok.
  constructor; [exact (yields _ _ _ Hx)|exact (IH _ _ _ Hys)].
Qed.

Lemma vector_yields_all {T} (c : packer T) P : Yields c P -> Yields (p_vector c) (Forall P).
Proof.
  intros HY s x rest ([n s'] & _ & (u & _ & Hr)%bind_Ok)%bind_Ok. exact (unpack_all_yields c P _ _ _ _ Hr).
Qed.

Lemma variant_yields {T} (alternatives : list (packer T)) index P :
  (forall i c, alternatives !! i = Some c -> Yields c P) -> Yields (p_variant alternatives index) P.
Proof.
  intros HY s x rest ([n s'] & _ & (c & Hc%of_option_Ok & Hr)%bind_Ok)%bind_Ok. exact (HY _ _ Hc _ _ _ Hr).
Qed.

#[export] Instance pair_yields {A B} (ca : packer A) (cb : packer B) P Q :
  Yields ca P -> Yields cb Q -> Yields (p_pair ca cb) (fun x => P x.1 /\ Q x.2).
Proof.
  intros HA HB s x rest ([a s1] & Ha & ([b s2] & Hb & [= <- <-])%bind_Ok)%bind_Ok.
  split; [exact (HA _ _ _ Ha)|exact (HB _ _ _ Hb)].
Qed.

Lemma reflect_yields {A B} (to : A -> B) (from : B -> A) init (c : packer B) (P : A -> Prop) (Q : B -> Prop) :
  Yields c Q -> (forall b, Q b -> P (from b)) -> Yields (p_reflect to from init c) P.
Proof. intros HY HP s x rest ([b s1] & Hb & (u & _ & [= <- <-])%bind_Ok)%bind_Ok. exact (HP _ (HY _ _ _ Hb)). Qed.

Lemma unpack_bytes_yields {T} (c : packer T) P `{!Yields c P} bytes x : unpack_bytes c bytes = Ok x -> P x.
Proof.
  unfold unpack_bytes. rewrite fc_rethrow_Ok. intros ([y s] & Hu & [= <-])%bind_Ok. exact (yields _ _ _ Hu).
Qed.

(** Bytes appended after a packed value do not change what is read. *)
Lemma unpack_bytes_lossless {T} (c : packer T) P `{!Lossless c P} x rest :
  P x -> exists bytes, pack c x = Ok bytes /\ unpack_bytes c (bytes ++ rest) = Ok x.
Proof.
  intros Hx. destruct (lossless_bind c x Hx) as (b & Hb & Hu). exists b. split; [done|].
  unfold unpack_bytes. by rewrite Hu.
Qed.
