(* ===== verification/ChainPacking.v ===== *)
(** * Packed forms of chain types ([FC_REFLECT] of [contract_types.hpp], [authority.hpp],
    [action.hpp], [transaction.hpp], [block_header.hpp], [producer_schedule.hpp], [fc/crypto])

    The packer of each class, from its reflected members in order, with the values it
    brings back unchanged.  [raw_codec] decodes the payloads of the native actions. *)

From S2P Require Import Prelude Exceptions Types Authority AuthorizationManager AccessLists NativeActions ProducerSchedule.
From S2P Require Import NativeAccounts BlockHeaderState TransactionContext Packing.

#[export] Instance u8_lossless : Lossless (p_uint 1) is_byte := uint_lossless 1.
#[export] Instance u16_lossless : Lossless (p_uint 2) is_u16 := uint_lossless 2.
#[export] Instance u32_lossless : Lossless (p_uint 4) is_u32 := uint_lossless 4.
#[export] Instance u64_lossless : Lossless (p_uint 8) is_u64 := uint_lossless 8.

(** A class without [reflector_init] whose members come back comes back. *)
Lemma members_lossless {A B} (to : A -> B) (from : B -> A) (c : packer B) (Q : B -> Prop) :
  Lossless c Q -> (forall a, from (to a) = a) -> Lossless (p_reflect to from no_init c) (fun a => Q (to a)).
Proof. intros HL Hft. eapply reflect_lossless; [exact HL|]. by intros a. Qed.

(** [fc::array] of characters *)
Definition p_raw (n : nat) : packer (list Z) := mk_packer (fun v => Ok (take n v)) (stream_read n).

#[export] Instance raw_lossless n : Lossless (p_raw n) (fun v => length v = n).
Proof. intros v rest <-. exists v. cbn. rewrite take_ge by lia. split; [done|]. apply stream_read_app. Qed.

(** ** Digests and keys *)

Definition p_digest : packer digest :=
  p_reflect (fun d => (hash0 d, (hash1 d, (hash2 d, hash3 d)))) (fun '(a, (b, (c, d))) => mk_digest a b c d) no_init
    (p_pair (p_uint 8) (p_pair (p_uint 8) (p_pair (p_uint 8) (p_uint 8)))).

Definition digest_ok (d : digest) : Prop :=
  is_u64 (hash0 d) /\ is_u64 (hash1 d) /\ is_u64 (hash2 d) /\ is_u64 (hash3 d).

#[export] Instance digest_lossless : Lossless p_digest digest_ok.
Proof. refine (members_lossless _ _ _ _ _ _). by intros []. Qed.

(** A key of one of the three curves. *)
Definition p_curve_key (which : Z) : packer public_key :=
  p_reflect key_data (mk_public_key which) no_init (p_raw 33).

(** [webauthn::public_key]: the point, the verification type and the relying party;
    [post_init] refuses an empty one. *)
Definition p_webauthn_key : packer public_key :=
  p_reflect (fun k => (take 33 (key_data k), (nth 33 (key_data k) 0, drop 34 (key_data k))))
    (fun '(p, (t, r)) => mk_public_key 2 (p ++ t :: r))
    (fun k => sys_assert (35 <=? length (key_data k))%nat fc_assert_exception)
    (p_pair (p_raw 33) (p_pair (p_uint 1) p_bytes)).

Definition p_public_key : packer public_key :=
  p_variant [p_curve_key 0; p_curve_key 1; p_webauthn_key; p_curve_key 3] (fun k => Z.to_nat (key_which k)).

Definition key_ok (k : public_key) : Prop :=
  0 <= key_which k < 4 /\
  if key_which k =? 2 then
    (35 <= length (key_data k))%nat /\ is_byte (nth 33 (key_data k) 0) /\
    Z.of_nat (length (key_data k)) <= 34 + max_size_of_byte_arrays
  else length (key_data k) = 33%nat.

Lemma split_webauthn (d : list Z) : (34 <= length d)%nat -> take 33 d ++ nth 33 d 0 :: drop 34 d = d.
Proof.
  intros Hl. rewrite <- (take_drop 33 d) at 4. f_equal.
  destruct (drop 33 d) as [|x r] eqn:E; [apply (f_equal length) in E; rewrite length_drop in E; cbn in E; lia|].
  f_equal.
  - rewrite <- (take_drop 33 d), E, app_nth2; rewrite length_take; [|lia]. by rewrite Nat.min_l, Nat.sub_diag by lia.
  - change 34%nat with (33 + 1)%nat. rewrite <- drop_drop, E. done.
Qed.

Lemma curve_key_lossless which :
  Lossless (p_curve_key which) (fun k => (key_ok k /\ which <> 2) /\ key_which k = which).
Proof.
  eapply reflect_lossless; [apply raw_lossless|]. intros [w d] [[[_ Hk] Hne] <-]. cbn in *.
  by rewrite (proj2 (Z.eqb_neq w 2)) in Hk.
Qed.

Lemma webauthn_key_lossless : Lossless p_webauthn_key (fun k => key_ok k /\ key_which k = 2).
Proof.
  eapply reflect_lossless; [typeclasses eauto|]. intros [w d] [[_ Hk] Hw]. cbn in Hw. subst w.
  cbn [key_which key_data Z.eqb] in *.
  destruct Hk as (Hl & Hb & Hm). cbn [fst snd]. rewrite length_take, length_drop, Nat.min_l by lia. split_and!; try done; try lia.
  - by rewrite split_webauthn by lia.
  - apply sys_assert_Ok. by apply Nat.leb_le.
Qed.

#[export] Instance public_key_lossless : Lossless p_public_key key_ok.
Proof.
  intros k rest Hk. apply (variant_lossless _ _ key_ok); [cbn; lia| |].
  - intros i c Hi. destruct i as [|[|[|[|i]]]]; cbn in Hi; simplify_eq.
    all: intros v r [Hv Hi]; destruct (proj1 Hv).
    1: apply (curve_key_lossless 0). 2: apply (curve_key_lossless 1). 3: apply webauthn_key_lossless.
    4: apply (curve_key_lossless 3). all: split_and?; done || lia.
  - split; [done|]. destruct Hk as [? _]. cbn. lia.
Qed.

(** ** Authorities *)

Definition p_level : packer permission_level :=
  p_reflect (fun l => (actor l, permission l)) (fun '(a, p) => mk_level a p) no_init (p_pair (p_uint 8) (p_uint 8)).
Definition level_ok (l : permission_level) : Prop := is_u64 (actor l) /\ is_u64 (permission l).
#[export] Instance level_lossless : Lossless p_level level_ok.
Proof. refine (members_lossless _ _ _ _ _ _). by intros []. Qed.

Definition p_level_weight : packer permission_level_weight :=
  p_reflect (fun p => (plw_permission p, plw_weight p)) (fun '(l, w) => mk_plw l w) no_init (p_pair p_level (p_uint 2)).
Definition level_weight_ok (p : permission_level_weight) : Prop := level_ok (plw_permission p) /\ is_u16 (plw_weight p).
#[export] Instance level_weight_lossless : Lossless p_level_weight level_weight_ok.
Proof. refine (members_lossless _ _ _ _ _ _). by intros []. Qed.

Definition p_key_weight : packer key_weight :=
  p_reflect (fun k => (kw_key k, kw_weight k)) (fun '(k, w) => mk_kw k w) no_init (p_pair p_public_key (p_uint 2)).
Definition key_weight_ok (k : key_weight) : Prop := key_ok (kw_key k) /\ is_u16 (kw_weight k).
#[export] Instance key_weight_lossless : Lossless p_key_weight key_weight_ok.
Proof. refine (members_lossless _ _ _ _ _ _). by intros []. Qed.

Definition p_wait_weight : packer wait_weight :=
  p_reflect (fun w => (ww_wait_sec w, ww_weight w)) (fun '(s, w) => mk_ww s w) no_init (p_pair (p_uint 4) (p_uint 2)).
Definition wait_weight_ok (w : wait_weight) : Prop := is_u32 (ww_wait_sec w) /\ is_u16 (ww_weight w).
#[export] Instance wait_weight_lossless : Lossless p_wait_weight wait_weight_ok.
Proof. refine (members_lossless _ _ _ _ _ _). by intros []. Qed.

(** What a vector must satisfy to come back. *)
Definition vector_ok {T} (P : T -> Prop) (xs : list T) : Prop :=
  Forall P xs /\ Z.of_nat (length xs) <= max_num_array_elements.
Definition bytes_ok (b : list Z) : Prop := Z.of_nat (length b) <= max_size_of_byte_arrays.

Definition p_authority : packer authority :=
  p_reflect (fun a => (threshold a, (keys a, (accounts a, waits a)))) (fun '(t, (k, (a, w))) => mk_authority t k a w)
    no_init (p_pair (p_uint 4) (p_pair (p_vector p_key_weight) (p_pair (p_vector p_level_weight) (p_vector p_wait_weight)))).
Definition authority_ok (a : authority) : Prop :=
  is_u32 (threshold a) /\ vector_ok key_weight_ok (keys a) /\ vector_ok level_weight_ok (accounts a) /\
  vector_ok wait_weight_ok (waits a).
#[export] Instance authority_lossless : Lossless p_authority authority_ok.
Proof. refine (members_lossless _ _ _ _ _ _). by intros []. Qed.

(** ** Native actions *)

Definition p_newaccount : packer newaccount :=
  p_reflect (fun n => (na_creator n, (na_name n, (na_owner n, na_active n)))) (fun '(c, (n, (o, a))) => mk_newaccount c n o a)
    no_init (p_pair (p_uint 8) (p_pair (p_uint 8) (p_pair p_authority p_authority))).
Definition p_setcode : packer setcode :=
  p_reflect (fun s => (sc_account s, (sc_vmtype s, (sc_vmversion s, sc_code s)))) (fun '(a, (t, (v, c))) => mk_setcode a t v c)
    no_init (p_pair (p_uint 8) (p_pair (p_uint 1) (p_pair (p_uint 1) p_bytes))).
Definition p_setabi : packer setabi :=
  p_reflect (fun s => (sa_account s, sa_abi s)) (fun '(a, b) => mk_setabi a b) no_init (p_pair (p_uint 8) p_bytes).
Definition p_updateauth : packer updateauth :=
  p_reflect (fun u => (ua_account u, (ua_permission u, (ua_parent u, ua_auth u))))
    (fun '(a, (p, (q, u))) => mk_updateauth a p q u)
    no_init (p_pair (p_uint 8) (p_pair (p_uint 8) (p_pair (p_uint 8) p_authority))).
Definition p_deleteauth : packer deleteauth :=
  p_reflect (fun d => (da_account d, da_permission d)) (fun '(a, p) => mk_deleteauth a p) no_init (p_pair (p_uint 8) (p_uint 8)).
Definition p_linkauth : packer linkauth :=
  p_reflect (fun l => (la_account l, (la_code l, (la_type l, la_requirement l)))) (fun '(a, (c, (t, r))) => mk_linkauth a c t r)
    no_init (p_pair (p_uint 8) (p_pair (p_uint 8) (p_pair (p_uint 8) (p_uint 8)))).
Definition p_unlinkauth : packer unlinkauth :=
  p_reflect (fun l => (ul_account l, (ul_code l, ul_type l))) (fun '(a, (c, t)) => mk_unlinkauth a c t)
    no_init (p_pair (p_uint 8) (p_pair (p_uint 8) (p_uint 8))).
Definition p_canceldelay : packer canceldelay :=
  p_reflect (fun c => (cd_canceling_auth c, cd_trx_id c)) (fun '(a, t) => mk_canceldelay a t) no_init (p_pair p_level p_digest).

(** [action::data_as<T>()] *)
Definition raw_codec : codec :=
  mk_codec (unpack_bytes p_updateauth) (unpack_bytes p_deleteauth) (unpack_bytes p_linkauth) (unpack_bytes p_unlinkauth)
    (unpack_bytes p_canceldelay).
Definition raw_native_codec : native_codec :=
  mk_native_codec raw_codec (unpack_bytes p_newaccount) (unpack_bytes p_setcode) (unpack_bytes p_setabi).

(** [fc::raw::pack_size] of a key, which the billable size of an authority adds up. *)
Definition key_pack_size (k : public_key) : Z :=
  match pack p_public_key k with Ok b => Z.of_nat (length b) | Throw _ => 0 end.

#[export] Instance newaccount_lossless :
  Lossless p_newaccount (fun n => is_u64 (na_creator n) /\ is_u64 (na_name n) /\ authority_ok (na_owner n) /\ authority_ok (na_active n)).
Proof. refine (members_lossless _ _ _ _ _ _). by intros []. Qed.
#[export] Instance setcode_lossless :
  Lossless p_setcode (fun s => is_u64 (sc_account s) /\ is_byte (sc_vmtype s) /\ is_byte (sc_vmversion s) /\ bytes_ok (sc_code s)).
Proof. refine (members_lossless _ _ _ _ _ _). by intros []. Qed.
#[export] Instance setabi_lossless : Lossless p_setabi (fun s => is_u64 (sa_account s) /\ bytes_ok (sa_abi s)).
Proof. refine (members_lossless _ _ _ _ _ _). by intros []. Qed.
#[export] Instance updateauth_lossless :
  Lossless p_updateauth (fun u => is_u64 (ua_account u) /\ is_u64 (ua_permission u) /\ is_u64 (ua_parent u) /\ authority_ok (ua_auth u)).
Proof. refine (members_lossless _ _ _ _ _ _). by intros []. Qed.
#[export] Instance deleteauth_lossless : Lossless p_deleteauth (fun d => is_u64 (da_account d) /\ is_u64 (da_permission d)).
Proof. refine (members_lossless _ _ _ _ _ _). by intros []. Qed.
#[export] Instance linkauth_lossless :
  Lossless p_linkauth (fun l => is_u64 (la_account l) /\ is_u64 (la_code l) /\ is_u64 (la_type l) /\ is_u64 (la_requirement l)).
Proof. refine (members_lossless _ _ _ _ _ _). by intros []. Qed.
#[export] Instance unlinkauth_lossless :
  Lossless p_unlinkauth (fun l => is_u64 (ul_account l) /\ is_u64 (ul_code l) /\ is_u64 (ul_type l)).
Proof. refine (members_lossless _ _ _ _ _ _). by intros []. Qed.
#[export] Instance canceldelay_lossless :
  Lossless p_canceldelay (fun c => level_ok (cd_canceling_auth c) /\ digest_ok (cd_trx_id c)).
Proof. refine (members_lossless _ _ _ _ _ _). by intros []. Qed.

(** ** What the native actions assume of their payloads *)

Lemma length_varint fuel v : (length (varint_bytes fuel v) <= fuel)%nat.
Proof. revert v. induction fuel as [|fuel IH]; intros v; cbn; [lia|]. destruct (_ =? 0); cbn; [lia|]. specialize (IH (Z.shiftr v 7)). lia. Qed.

Lemma length_pack_unsigned v b : pack p_unsigned_int v = Ok b -> (length b <= 10)%nat.
Proof. intros E. assert (b = varint_bytes 10 v) as -> by (cbn [pack p_unsigned_int] in E; congruence). apply length_varint. Qed.

Lemma length_pack_bytes v b : pack p_bytes v = Ok b -> Z.of_nat (length b) <= 10 + max_size_of_byte_arrays.
Proof.
  intros (u & Hl%sys_assert_Ok & (n & Hn%length_pack_unsigned & E)%bind_Ok)%bind_Ok. apply Z.leb_le in Hl.
  assert (b = n ++ v) as -> by congruence. rewrite length_app. lia.
Qed.

Lemma length_pack_webauthn k b :
  pack p_webauthn_key k = Ok b -> Z.of_nat (length b) <= 44 + max_size_of_byte_arrays.
Proof.
  intros (x & Hx & (y & (z & Hz & (r & Hr%length_pack_bytes & Ey)%bind_Ok)%bind_Ok & Eb)%bind_Ok)%bind_Ok.
  cbn [pack p_raw p_uint fst snd] in Hx, Hz.
  assert (b = x ++ z ++ r) as -> by congruence. assert (x = take 33 (take 33 (key_data k))) as -> by congruence.
  rewrite !length_app, length_take. replace (length z) with 1%nat by (injection Hz as <-; done). lia.
Qed.

Lemma key_pack_size_bound k : 0 <= key_pack_size k < 2 ^ 32.
Proof.
  unfold key_pack_size. destruct (pack p_public_key k) as [b|] eqn:E; [|lia]. split; [lia|].
  apply bind_Ok in E as (n & Hn%length_pack_unsigned & (c & Hc%of_option_Ok & (bs & Hb & E)%bind_Ok)%bind_Ok).
  assert (b = n ++ bs) as -> by congruence. rewrite length_app.
  assert (Z.of_nat (length bs) <= 44 + max_size_of_byte_arrays); [|unfold max_size_of_byte_arrays in *; lia].
  destruct (Z.to_nat (key_which k)) as [|[|[|[|i]]]]; cbn in Hc; simplify_eq; [| |by apply length_pack_webauthn in Hb|].
  all: cbn [pack p_curve_key p_reflect p_raw] in Hb; assert (bs = take 33 (key_data k)) as -> by congruence;
    unfold max_size_of_byte_arrays; rewrite length_take; lia.
Qed.

#[export] Instance authority_yields : Yields p_authority (fun a => entries a < 2 ^ 64).
Proof.
  assert (Yields p_key_weight (fun _ => True)) by done.
  eapply reflect_yields; [typeclasses eauto|]. intros (t & k & a & w) (_ & Hk & Ha & Hw). cbn in *.
  unfold entries, max_num_array_elements in *. cbn. lia.
Qed.

#[export] Instance newaccount_yields :
  Yields p_newaccount (fun n => 0 <= na_name n < 2 ^ 64 /\ entries (na_owner n) < 2 ^ 64 /\ entries (na_active n) < 2 ^ 64).
Proof. eapply reflect_yields; [typeclasses eauto|]. by intros (c & n & o & a) (_ & Hn & Ho & Ha). Qed.
#[export] Instance setcode_yields : Yields p_setcode (fun a => Z.of_nat (length (sc_code a)) < 2 ^ 32).
Proof.
  eapply reflect_yields; [typeclasses eauto|]. intros (a & t & v & c) (_ & _ & _ & Hl). cbn in *.
  unfold max_size_of_byte_arrays in Hl. lia.
Qed.
#[export] Instance setabi_yields : Yields p_setabi (fun a => Z.of_nat (length (sa_abi a)) < 2 ^ 32).
Proof.
  eapply reflect_yields; [typeclasses eauto|]. intros (a & c) (_ & Hl). cbn in *. unfold max_size_of_byte_arrays in Hl. lia.
Qed.
#[export] Instance updateauth_yields : Yields p_updateauth (fun u => entries (ua_auth u) < 2 ^ 64).
Proof. eapply reflect_yields; [typeclasses eauto|]. by intros (a & t & v & c) (_ & _ & _ & Hl). Qed.

(** The payload decoders discharge what the theorems on native actions assume of
    them: whatever bytes an action carries, a decoded payload has names within 64
    bits, authorities whose number of entries cannot overflow a counter and code and
    ABIs within 32-bit sizes; only the hash function is still assumed, not to yield
    the empty digest. *)
Lemma raw_codec_laws env :
  ne_codec env = raw_native_codec -> ne_pack_size env = key_pack_size ->
  (forall b, ne_sha256 env b <> digest_zero) -> native_laws env.
Proof.
  intros Hc Hp Hs. split; rewrite ?Hp, ?Hc; intros d; [apply key_pack_size_bound|apply Hs|..]; intros x Hx.
  - pose proof (unpack_bytes_yields p_newaccount _ d x Hx) as Q. exact Q.
  - pose proof (unpack_bytes_yields p_setcode _ d x Hx) as Q. exact Q.
  - pose proof (unpack_bytes_yields p_setabi _ d x Hx) as Q. exact Q.
  - pose proof (unpack_bytes_yields p_updateauth _ d x Hx) as Q. exact Q.
Qed.

(** ** The payloads of the native actions *)








(** ** Actions and transactions *)

Definition p_action : packer action :=
  p_reflect (fun a => (act_account a, (act_name a, (act_authorization a, act_data a))))
    (fun '(a, (n, (l, d))) => mk_action a n l d) no_init
    (p_pair (p_uint 8) (p_pair (p_uint 8) (p_pair (p_vector p_level) p_bytes))).
Definition action_ok (a : action) : Prop :=
  is_u64 (act_account a) /\ is_u64 (act_name a) /\ vector_ok level_ok (act_authorization a) /\ bytes_ok (act_data a).
#[export] Instance action_lossless : Lossless p_action action_ok.
Proof. refine (members_lossless _ _ _ _ _ _). by intros []. Qed.

(** [extensions_type] *)
Definition p_extensions : packer (list (Z * list Z)) := p_vector (p_pair (p_uint 2) p_bytes).
Definition extension_ok (e : Z * list Z) : Prop := is_u16 e.1 /\ bytes_ok e.2.

(** [transaction_header], then [transaction] *)
Definition p_transaction : packer transaction :=
  p_reflect
    (fun t => ((t_expiration t, (t_ref_block_num t, (t_ref_block_prefix t,
               (t_max_net_usage_words t, (t_max_cpu_usage_ms t, t_delay_sec t))))),
               (t_context_free_actions t, (t_actions t, t_extensions t))))
    (fun '((e, (n, (p, (w, (c, d))))), (cf, (a, x))) => mk_transaction e n p w c d cf a x) no_init
    (p_pair (p_pair (p_uint 4) (p_pair (p_uint 2) (p_pair (p_uint 4) (p_pair p_unsigned_int (p_pair (p_uint 1) p_unsigned_int)))))
            (p_pair (p_vector p_action) (p_pair (p_vector p_action) p_extensions))).
Definition transaction_ok (t : transaction) : Prop :=
  (is_u32 (t_expiration t) /\ is_u16 (t_ref_block_num t) /\ is_u32 (t_ref_block_prefix t) /\
   is_u32 (t_max_net_usage_words t) /\ is_byte (t_max_cpu_usage_ms t) /\ is_u32 (t_delay_sec t)) /\
  vector_ok action_ok (t_context_free_actions t) /\ vector_ok action_ok (t_actions t) /\
  vector_ok extension_ok (t_extensions t).
#[export] Instance transaction_lossless : Lossless p_transaction transaction_ok.
Proof. refine (members_lossless _ _ _ _ _ _). by intros []. Qed.

(** ** Signatures *)

(** [fc::crypto::signature]: the alternative, the compact signature, and what webauthn adds. *)
Record raw_signature := mk_raw_signature {
  sig_which : Z; sig_compact : list Z; sig_auth_data : list Z; sig_client_json : list Z }.

Definition p_curve_signature (which : Z) : packer raw_signature :=
  p_reflect sig_compact (fun d => mk_raw_signature which d [] []) no_init (p_raw 65).
Definition p_webauthn_signature : packer raw_signature :=
  p_reflect (fun s => (sig_compact s, (sig_auth_data s, sig_client_json s))) (fun '(c, (a, j)) => mk_raw_signature 2 c a j)
    no_init (p_pair (p_raw 65) (p_pair (p_vector (p_uint 1)) p_bytes)).
Definition p_signature : packer raw_signature :=
  p_variant [p_curve_signature 0; p_curve_signature 1; p_webauthn_signature; p_curve_signature 3]
    (fun s => Z.to_nat (sig_which s)).

Definition signature_ok (s : raw_signature) : Prop :=
  0 <= sig_which s < 4 /\ length (sig_compact s) = 65%nat /\
  if sig_which s =? 2 then vector_ok is_byte (sig_auth_data s) /\ bytes_ok (sig_client_json s)
  else sig_auth_data s = [] /\ sig_client_json s = [].

Lemma curve_signature_lossless which :
  Lossless (p_curve_signature which) (fun s => (signature_ok s /\ which <> 2) /\ sig_which s = which).
Proof.
  eapply reflect_lossless; [apply raw_lossless|]. intros [w c a j] [[(_ & Hl & Hk) Hne] <-]. cbn in *.
  rewrite (proj2 (Z.eqb_neq w 2)) in Hk by done. by destruct Hk as [-> ->].
Qed.

Lemma webauthn_signature_lossless : Lossless p_webauthn_signature (fun s => signature_ok s /\ sig_which s = 2).
Proof.
  eapply reflect_lossless; [typeclasses eauto|]. intros [w c a j] [(_ & Hl & Hk) Hw]. cbn in *. subst w.
  by destruct Hk.
Qed.

#[export] Instance signature_lossless : Lossless p_signature signature_ok.
Proof.
  intros k rest Hk. apply (variant_lossless _ _ signature_ok); [cbn; lia| |].
  - intros i c Hi. destruct i as [|[|[|[|i]]]]; cbn in Hi; simplify_eq.
    all: intros v r [Hv Hi]; destruct (proj1 Hv).
    1: apply (curve_signature_lossless 0). 2: apply (curve_signature_lossless 1). 3: apply webauthn_signature_lossless.
    4: apply (curve_signature_lossless 3). all: split_and?; done || lia.
  - split; [done|]. destruct Hk as [? _]. cbn. lia.
Qed.

(** ** Schedules and headers *)

Definition p_legacy_key : packer legacy_producer_key :=
  p_reflect (fun k => (lpk_name k, lpk_key k)) (fun '(n, k) => mk_legacy_key n k) no_init (p_pair (p_uint 8) p_public_key).
Definition legacy_key_ok (k : legacy_producer_key) : Prop := is_u64 (lpk_name k) /\ key_ok (lpk_key k).
#[export] Instance legacy_key_lossless : Lossless p_legacy_key legacy_key_ok.
Proof. refine (members_lossless _ _ _ _ _ _). by intros []. Qed.

Definition p_legacy_schedule : packer legacy_schedule :=
  p_reflect (fun s => (legacy_version s, legacy_producers s)) (fun '(v, p) => mk_legacy_schedule v p) no_init
    (p_pair (p_uint 4) (p_vector p_legacy_key)).
Definition legacy_schedule_ok (s : legacy_schedule) : Prop :=
  is_u32 (legacy_version s) /\ vector_ok legacy_key_ok (legacy_producers s).
#[export] Instance legacy_schedule_lossless : Lossless p_legacy_schedule legacy_schedule_ok.
Proof. refine (members_lossless _ _ _ _ _ _). by intros []. Qed.

(** [block_signing_authority], a variant of one alternative *)
Definition p_signing_authority_v0 : packer block_signing_authority :=
  p_reflect (fun a => (bsa_threshold a, bsa_keys a)) (fun '(t, k) => mk_bsa t k) no_init
    (p_pair (p_uint 4) (p_vector p_key_weight)).
Definition p_signing_authority : packer block_signing_authority := p_variant [p_signing_authority_v0] (fun _ => 0%nat).
Definition signing_authority_ok (a : block_signing_authority) : Prop :=
  is_u32 (bsa_threshold a) /\ vector_ok key_weight_ok (bsa_keys a).
#[export] Instance signing_authority_v0_lossless : Lossless p_signing_authority_v0 signing_authority_ok.
Proof. refine (members_lossless _ _ _ _ _ _). by intros []. Qed.
#[export] Instance signing_authority_lossless : Lossless p_signing_authority signing_authority_ok.
Proof.
  intros a rest Ha. apply (variant_lossless _ _ signing_authority_ok); [cbn; lia| |by split; [|cbn; lia]].
  intros [|i] c Hi; cbn in Hi; simplify_eq.
  intros v r [Hv _]. by apply signing_authority_v0_lossless.
Qed.

Definition p_producer : packer producer_authority :=
  p_reflect (fun p => (producer_name p, pa_authority p)) (fun '(n, a) => mk_producer_authority n a) no_init
    (p_pair (p_uint 8) p_signing_authority).
Definition producer_ok (p : producer_authority) : Prop :=
  is_u64 (producer_name p) /\ signing_authority_ok (pa_authority p).
#[export] Instance producer_lossless : Lossless p_producer producer_ok.
Proof. refine (members_lossless _ _ _ _ _ _). by intros []. Qed.

(** Keys and producers that were unpacked can be packed. *)
#[export] Instance raw_yields n : Yields (p_raw n) (fun v => length v = n).
Proof. intros s x rest H. by destruct (stream_read_Ok _ _ _ _ H). Qed.

#[export] Instance public_key_yields : Yields p_public_key key_ok.
Proof.
  apply variant_yields. intros i c Hi. destruct i as [|[|[|[|i]]]]; cbn in Hi; simplify_eq.
  1, 2, 4: eapply reflect_yields; [apply raw_yields|]; intros d Hd; by split; [cbn; lia|].
  intros s x rest ([[p [t r]] s1] & Hb & ([] & Hi%sys_assert_Ok & [= <- <-])%bind_Ok)%bind_Ok.
  apply bind_Ok in Hb as ([p' s2] & Hp%raw_yields & ([[t' r'] s3] & Ht & [= -> -> -> ->])%bind_Ok).
  apply bind_Ok in Ht as ([t' s4] & Ht%(uint_yields 1) & ([r' s5] & Hr%bytes_yields & [= -> -> ->])%bind_Ok).
  cbn in Hp, Ht, Hr. apply Nat.leb_le in Hi. cbn [key_data] in *. split; [cbn; lia|].
  cbn [key_which key_data Z.eqb]. rewrite length_app, app_nth2 in * by lia. rewrite Hp in *. cbn in *. split_and!; [lia|exact Ht|lia].
Qed.

Lemma vector_ok_yields {T} (c : packer T) P : Yields c P -> Yields (p_vector c) (vector_ok P).
Proof.
  intros HY s x rest H. split; [exact (vector_yields_all c P HY _ _ _ H)|exact (vector_yields c _ _ _ H)].
Qed.

#[export] Instance key_weight_yields : Yields p_key_weight key_weight_ok.
Proof.
  eapply reflect_yields; [apply pair_yields; [apply public_key_yields|apply (uint_yields 2)]|by intros [k w]].
Qed.

#[export] Instance legacy_key_yields : Yields p_legacy_key legacy_key_ok.
Proof.
  eapply reflect_yields; [apply pair_yields; [apply (uint_yields 8)|apply public_key_yields]|by intros [n k]].
Qed.

#[export] Instance producer_yields : Yields p_producer producer_ok.
Proof.
  eapply reflect_yields; [apply pair_yields; [apply (uint_yields 8)|]|by intros [n a] H; exact H].
  apply variant_yields. intros [|i] c [= <-].
  eapply reflect_yields; [apply pair_yields; [apply (uint_yields 4)|apply vector_ok_yields, key_weight_yields]|by intros [t k]].
Qed.

Definition p_schedule : packer producer_authority_schedule :=
  p_reflect (fun s => (schedule_version s, producers s)) (fun '(v, p) => mk_schedule v p) no_init
    (p_pair (p_uint 4) (p_vector p_producer)).
Definition schedule_ok (s : producer_authority_schedule) : Prop :=
  is_u32 (schedule_version s) /\ vector_ok producer_ok (producers s).
#[export] Instance schedule_lossless : Lossless p_schedule schedule_ok.
Proof. refine (members_lossless _ _ _ _ _ _). by intros []. Qed.

(** [block_header]; the signature of a signed header is packed by its own packer. *)
Definition p_block_header : packer block_header :=
  p_reflect
    (fun h => (h_timestamp h, (h_producer h, (h_confirmed h, (h_previous h, (h_transaction_mroot h, (h_action_mroot h,
              (h_schedule_version h, (h_new_producers h, h_header_extensions h)))))))))
    (fun '(t, (p, (c, (v, (x, (a, (s, (n, e)))))))) => mk_block_header t p c v x a s n e []) no_init
    (p_pair (p_uint 4) (p_pair (p_uint 8) (p_pair (p_uint 2) (p_pair p_digest (p_pair p_digest (p_pair p_digest
    (p_pair (p_uint 4) (p_pair (p_optional p_legacy_schedule) p_extensions)))))))).
Definition header_ok (h : block_header) : Prop :=
  is_u32 (h_timestamp h) /\ is_u64 (h_producer h) /\ is_u16 (h_confirmed h) /\ digest_ok (h_previous h) /\
  digest_ok (h_transaction_mroot h) /\ digest_ok (h_action_mroot h) /\ is_u32 (h_schedule_version h) /\
  (match h_new_producers h with Some s => legacy_schedule_ok s | None => True end) /\
  vector_ok extension_ok (h_header_extensions h).
#[export] Instance block_header_lossless :
  Lossless p_block_header (fun h => header_ok h /\ h_producer_signature h = []).
Proof.
  eapply reflect_lossless; [typeclasses eauto|]. intros [] [Hh Hs]. cbn in *. subst. split; [exact Hh|done].
Qed.

(** ** A concrete environment *)
Module PackingExample.

Definition sha (b : list Z) : digest := mk_digest 1 (foldr (fun x acc => x + 257 * acc) 0 b) 0 0.
Definition env : native_env :=
  mk_native_env (mk_auth_env 0 4 true 100 6) raw_native_codec false false (mk_lists [] [] [] [] [] []) 10 true false
    (fun _ => Ok tt) sha key_pack_size.

Lemma raw_codec_laws_env : native_laws env.
Proof. apply raw_codec_laws; [reflexivity|reflexivity|discriminate]. Qed.

End PackingExample.
