(* ===== verification/Transactions.v ===== *)
(** * Signed and packed transactions ([transaction.cpp], [transaction.hpp], [transaction_metadata.cpp])

    Transaction ids and signing digests, the recovery of the keys that signed, the
    extraction of extensions, and packed transactions with their cached unpacked
    form.  Hashing, key recovery and the zlib library are parameters. *)

From S2P Require Import Prelude Exceptions Types Authority AuthorizationManager TransactionContext Packing ChainPacking.

(** [zlib_inflate] returns what the decompressor wrote and whether it reached the end
    of well-formed data; inflating what was deflated gives it back, and a deflated
    stream has a header. *)
Class TransactionLibs := {
  sha256 : list Z -> digest;
  recover : raw_signature -> digest -> res public_key;
  zlib_deflate : list Z -> list Z;
  zlib_inflate : list Z -> list Z * bool;
  inflate_deflate b : zlib_inflate (zlib_deflate b) = (b, true);
  deflate_nonempty b : zlib_deflate b <> [] }.

Record signed_transaction := mk_signed { st_trx : transaction; st_signatures : list raw_signature; st_cfd : list (list Z) }.

Definition p_cfd : packer (list (list Z)) := p_vector p_bytes.
Definition p_signatures : packer (list raw_signature) := p_vector p_signature.

(** [transaction_header::validate] *)
Definition header_validate (t : transaction) : res unit :=
  sys_assert (t_max_net_usage_words t <? u32_max / 8) transaction_exception.

Section transactions.
Context `{TransactionLibs}.

(** [transaction::id] *)
Definition trx_id (t : transaction) : res digest := b ← pack p_transaction t; Ok (sha256 b).

(** [digest_type::hash( cfd )], or the empty digest *)
Definition cfd_digest (cfd : list (list Z)) : res digest :=
  if bool_decide (cfd = []) then Ok digest_zero else b ← pack p_cfd cfd; Ok (sha256 b).

(** What [transaction::sig_digest] hashes *)
Definition sig_preimage (chain_id : digest) (t : transaction) (cfd : list (list Z)) : res (list Z) :=
  c ← pack p_digest chain_id;
  b ← pack p_transaction t;
  d ← cfd_digest cfd;
  d ← pack p_digest d;
  Ok (c ++ b ++ d).

Definition sig_digest (chain_id : digest) (t : transaction) (cfd : list (list Z)) : res digest :=
  b ← sig_preimage chain_id t cfd; Ok (sha256 b).

(** The set of recovered keys is sorted by [operator<]. *)
Definition key_equivalent (a b : public_key) : bool := negb (key_less a b) && negb (key_less b a).

(** One signature; [now] is the time read before its key is recovered. *)
Definition recover_step (digest_ : digest) (deadline : Z) (allow_duplicate_keys : bool)
    (keys : list public_key) (sig_now : raw_signature * Z) : res (list public_key) :=
  let '(sg, now) := sig_now in
  _ ← sys_assert (now <? deadline) tx_cpu_usage_exceeded;
  k ← recover sg digest_;
  _ ← sys_assert (allow_duplicate_keys || negb (existsb (key_equivalent k) keys)) tx_duplicate_sig;
  Ok (insert_unique key_less k keys).

(** [transaction::get_signature_keys]; [clock i] is the time read for signature [i]. *)
Definition get_signature_keys (t : transaction) (signatures : list raw_signature) (chain_id : digest) (deadline : Z)
    (cfd : list (list Z)) (clock : nat -> Z) (allow_duplicate_keys : bool) : res (list public_key) :=
  fc_rethrow (
    if bool_decide (signatures = []) then Ok []
    else d ← sig_digest chain_id t cfd;
         foldM (recover_step d deadline allow_duplicate_keys) [] (imap (fun i s => (s, clock i)) signatures)).

(** ** Extensions *)

Record deferred_context := mk_deferred_context { dc_sender_trx_id : digest; dc_sender_id : Z; dc_sender : Z }.

Definition p_deferred_context : packer deferred_context :=
  p_reflect (fun d => (dc_sender_trx_id d, (dc_sender_id d, dc_sender d))) (fun '(t, (i, s)) => mk_deferred_context t i s)
    (fun d => sys_assert (negb (dc_sender d =? 0)) ill_formed_deferred_transaction_generation_context)
    (p_pair p_digest (p_pair (p_uint 16) (p_uint 8))).

(** The only extension has id 0 and may not repeat. *)
Fixpoint extract_extensions (first : bool) (id_type_lower_bound : Z) (exts : list (Z * list Z))
    (results : list (Z * deferred_context)) : res (list (Z * deferred_context)) :=
  match exts with
  | [] => Ok results
  | (id, data) :: exts =>
    _ ← sys_assert (id_type_lower_bound <=? id) invalid_transaction_extension;
    _ ← sys_assert (id =? 0) invalid_transaction_extension;
    e ← unpack_bytes p_deferred_context data;
    _ ← sys_assert (first || (id_type_lower_bound <? id)) invalid_transaction_extension;
    extract_extensions false id exts (results ++ [(id, e)])
  end.

Definition validate_and_extract_extensions (t : transaction) : res (list (Z * deferred_context)) :=
  extract_extensions true 0 (t_extensions t) [].

(** ** Packed transactions *)

(** [compression] is the number of the enumerator: 0 none, 1 zlib. *)
Record packed_transaction := mk_packed {
  pt_signatures : list raw_signature;
  pt_compression : Z;
  pt_packed_cfd : list Z;
  pt_packed_trx : list Z;
  pt_unpacked : signed_transaction;
  pt_id : digest }.

Definition fixed_net_overhead_of_packed_trx : Z := 16.
Definition max_decompressed : Z := 1 * 1024 * 1024.

(** The limiter stands behind the decompressor and throws before it passes on too much. *)
Definition zlib_decompress (data : list Z) : res (list Z) :=
  let '(out, complete) := zlib_inflate data in
  if max_decompressed <? Z.of_nat (length out) then Throw tx_decompression_error
  else if complete : bool then Ok out else Throw fc_unhandled_exception.

Definition unpack_context_free_data (data : list Z) : res (list (list Z)) :=
  if bool_decide (data = []) then Ok [] else unpack_bytes p_cfd data.
Definition zlib_decompress_context_free_data (data : list Z) : res (list (list Z)) :=
  if bool_decide (data = []) then Ok [] else out ← zlib_decompress data; unpack_context_free_data out.
Definition zlib_decompress_transaction (data : list Z) : res transaction :=
  out ← zlib_decompress data; unpack_bytes p_transaction out.

Definition pack_context_free_data (cfd : list (list Z)) : res (list Z) :=
  if bool_decide (cfd = []) then Ok [] else pack p_cfd cfd.
Definition zlib_compress_context_free_data (cfd : list (list Z)) : res (list Z) :=
  if bool_decide (cfd = []) then Ok [] else b ← pack_context_free_data cfd; Ok (zlib_deflate b).
Definition zlib_compress_transaction (t : transaction) : res (list Z) :=
  b ← pack p_transaction t; Ok (zlib_deflate b).

Definition by_compression {A} (compression : Z) (none zlib : res A) : res A :=
  fc_rethrow (if compression =? 0 then none else if compression =? 1 then zlib
              else Throw unknown_transaction_compression).

Definition get_raw_transaction (p : packed_transaction) : res (list Z) :=
  by_compression (pt_compression p) (Ok (pt_packed_trx p)) (zlib_decompress (pt_packed_trx p)).

Definition local_unpack_transaction (compression : Z) (packed_trx : list Z) : res (transaction * digest) :=
  by_compression compression
    (t ← unpack_bytes p_transaction packed_trx; i ← trx_id t; Ok (t, i))
    (t ← zlib_decompress_transaction packed_trx; i ← trx_id t; Ok (t, i)).

Definition local_unpack_context_free_data (compression : Z) (packed_cfd : list Z) (cfd : list (list Z)) : res (list (list Z)) :=
  fc_rethrow (
    _ ← sys_assert (bool_decide (cfd = [])) tx_decompression_error;
    by_compression compression (unpack_context_free_data packed_cfd) (zlib_decompress_context_free_data packed_cfd)).

Definition local_pack_transaction (compression : Z) (t : transaction) : res (list Z) :=
  by_compression compression (pack p_transaction t) (zlib_compress_transaction t).

Definition local_pack_context_free_data (compression : Z) (cfd : list (list Z)) : res (list Z) :=
  by_compression compression (pack_context_free_data cfd) (zlib_compress_context_free_data cfd).

(** [packed_transaction( signed_transaction, compression )] *)
Definition pack_signed (t : signed_transaction) (compression : Z) : res packed_transaction :=
  i ← trx_id (st_trx t);
  packed_trx ← local_pack_transaction compression (st_trx t);
  packed_cfd ← local_pack_context_free_data compression (st_cfd t);
  Ok (mk_packed (st_signatures t) compression packed_cfd packed_trx t i).

(** The constructors from packed parts, for the ABI serializer *)
Definition from_packed_parts (packed_trx : list Z) (sigs : list raw_signature) (packed_cfd : list Z) (compression : Z)
  : res packed_transaction :=
  '(t, i) ← local_unpack_transaction compression packed_trx;
  cfd ← (if bool_decide (packed_cfd = []) then Ok [] else local_unpack_context_free_data compression packed_cfd []);
  Ok (mk_packed sigs compression packed_cfd packed_trx (mk_signed t sigs cfd) i).

Definition from_packed_trx (packed_trx : list Z) (sigs : list raw_signature) (cfd : list (list Z)) (compression : Z)
  : res packed_transaction :=
  '(t, i) ← local_unpack_transaction compression packed_trx;
  packed_cfd ← (if bool_decide (cfd = []) then Ok [] else local_pack_context_free_data compression cfd);
  Ok (mk_packed sigs compression packed_cfd packed_trx (mk_signed t sigs cfd) i).

Definition from_packed_cfd (t : transaction) (sigs : list raw_signature) (packed_cfd : list Z) (compression : Z)
  : res packed_transaction :=
  i ← trx_id t;
  packed_trx ← local_pack_transaction compression t;
  cfd ← (if bool_decide (packed_cfd = []) then Ok [] else local_unpack_context_free_data compression packed_cfd []);
  Ok (mk_packed sigs compression packed_cfd packed_trx (mk_signed t sigs cfd) i).

(** Unpacking a packed transaction: its four members, then [reflector_init]. *)
Definition p_packed_members : packer (list raw_signature * (Z * (list Z * list Z))) :=
  p_pair p_signatures (p_pair (p_uint 1) (p_pair p_bytes p_bytes)).

Definition p_packed_transaction : packer packed_transaction := mk_packer
  (fun p => pack p_packed_members (pt_signatures p, (pt_compression p, (pt_packed_cfd p, pt_packed_trx p))))
  (fun s => '((sigs, (compression, (packed_cfd, packed_trx))), s) ← unpack p_packed_members s;
            '(t, i) ← local_unpack_transaction compression packed_trx;
            cfd ← local_unpack_context_free_data compression packed_cfd [];
            Ok (mk_packed sigs compression packed_cfd packed_trx (mk_signed t sigs cfd) i, s)).

Definition get_unprunable_size (p : packed_transaction) : res Z :=
  let size := u64 (fixed_net_overhead_of_packed_trx + Z.of_nat (length (pt_packed_trx p))) in
  _ ← sys_assert (size <=? u32_max) tx_too_big; Ok size.

Definition get_prunable_size (p : packed_transaction) : res Z :=
  b ← pack p_signatures (pt_signatures p);
  let size := u64 (Z.of_nat (length b) + Z.of_nat (length (pt_packed_cfd p))) in
  _ ← sys_assert (size <=? u32_max) tx_too_big; Ok size.

Definition packed_digest (p : packed_transaction) : res digest :=
  sg ← pack p_signatures (pt_signatures p);
  cf ← pack p_bytes (pt_packed_cfd p);
  tr ← pack p_bytes (pt_packed_trx p);
  pr ← pack p_digest (sha256 (sg ++ cf));
  Ok (sha256 (le_bytes 1 (pt_compression p) ++ tr ++ pr)).

Definition packed_trx_digest (p : packed_transaction) : res digest :=
  sg ← pack p_signatures (pt_signatures p);
  cf ← pack p_bytes (pt_packed_cfd p);
  i ← pack p_digest (pt_id p);
  Ok (sha256 (sg ++ cf ++ i)).

(** ** Metadata *)

Definition variable_size (s : raw_signature) : Z :=
  if sig_which s =? 2 then Z.of_nat (length (sig_auth_data s)) + Z.of_nat (length (sig_client_json s)) else 0.

Definition check_variable_sig_size (p : packed_transaction) (max : Z) : res unit :=
  foldM (fun _ s => sys_assert (variable_size s <=? max) sig_variable_size_limit_exception) tt (st_signatures (pt_unpacked p)).

(** The task of [start_recover_keys] *)
Definition recover_keys (p : packed_transaction) (chain_id : digest) (deadline max_variable_sig_size : Z) (clock : nat -> Z)
  : res (list public_key) :=
  _ ← check_variable_sig_size p max_variable_sig_size;
  let t := pt_unpacked p in
  get_signature_keys (st_trx t) (st_signatures t) chain_id deadline (st_cfd t) clock false.

(** ** Packing a signed transaction and unpacking it *)

#[local] Instance cfd_lossless : Lossless p_cfd (vector_ok bytes_ok) := vector_lossless p_bytes bytes_ok.
#[local] Instance signatures_lossless : Lossless p_signatures (vector_ok signature_ok) := vector_lossless p_signature signature_ok.
#[local] Instance packed_members_lossless : Lossless p_packed_members
  (fun x => vector_ok signature_ok x.1 /\ is_byte x.2.1 /\ bytes_ok x.2.2.1 /\ bytes_ok x.2.2.2).
Proof. unfold p_packed_members. refine (pair_lossless _ _ _ _ _ _). Qed.

Definition signed_ok (t : signed_transaction) : Prop :=
  transaction_ok (st_trx t) /\ vector_ok signature_ok (st_signatures t) /\ vector_ok bytes_ok (st_cfd t).

(** The sizes within which packed data can be stored and decompressed again. *)
Definition fits (compression : Z) (b : list Z) : Prop :=
  if compression =? 0 then bytes_ok b else Z.of_nat (length b) <= max_decompressed /\ bytes_ok (zlib_deflate b).

Lemma by_compression_Ok {A} c (x y : res A) a : c = 0 \/ c = 1 -> (if c =? 0 then x else y) = Ok a -> by_compression c x y = Ok a.
Proof. unfold by_compression. by intros [-> | ->]; cbn; intros ->. Qed.

Lemma zlib_decompress_deflate b : Z.of_nat (length b) <= max_decompressed -> zlib_decompress (zlib_deflate b) = Ok b.
Proof. intros Hb. unfold zlib_decompress. rewrite inflate_deflate, (proj2 (Z.ltb_ge _ _)) by done. done. Qed.

(** The bytes stored for a packed value of either compression. *)
Definition stored (compression : Z) (b : list Z) : list Z := if compression =? 0 then b else zlib_deflate b.

Lemma stored_ok c b : fits c b -> bytes_ok (stored c b).
Proof. unfold fits, stored. destruct (c =? 0); [done|]. by intros [_ ?]. Qed.

Lemma local_transaction_roundtrip c t b :
  c = 0 \/ c = 1 -> transaction_ok t -> pack p_transaction t = Ok b -> fits c b ->
  local_pack_transaction c t = Ok (stored c b) /\ local_unpack_transaction c (stored c b) = Ok (t, sha256 b).
Proof.
  intros Hc Ht Hb Hf. destruct (unpack_bytes_lossless p_transaction _ t [] Ht) as (b' & Hb' & Hu).
  rewrite app_nil_r in Hu. rewrite Hb in Hb'. injection Hb' as <-.
  split; apply by_compression_Ok; try done; unfold stored, fits, zlib_compress_transaction, zlib_decompress_transaction, trx_id in *;
    destruct (c =? 0); rewrite ?Hb; try done.
  - rewrite Hu. cbn [mbind result_bind]. by rewrite Hb.
  - destruct Hf as [Hf _]. rewrite zlib_decompress_deflate by done. cbn [mbind result_bind]. rewrite Hu. cbn [mbind result_bind]. by rewrite Hb.
Qed.

Lemma pack_cfd_nonempty cfd b : pack p_cfd cfd = Ok b -> b <> [].
Proof.
  intros (u & _ & (n & Hn & (bs & _ & E)%bind_Ok)%bind_Ok)%bind_Ok.
  assert (b = n ++ bs) as -> by congruence. assert (n = varint_bytes 10 (u32 (Z.of_nat (length cfd)))) as -> by (cbn [pack p_unsigned_int] in Hn; congruence).
  discriminate.
Qed.

Lemma local_cfd_roundtrip c cfd :
  c = 0 \/ c = 1 -> vector_ok bytes_ok cfd -> (forall b, pack p_cfd cfd = Ok b -> fits c b) ->
  exists s, local_pack_context_free_data c cfd = Ok s /\ bytes_ok s /\ local_unpack_context_free_data c s [] = Ok cfd.
Proof.
  intros Hc Hcfd Hf. unfold local_pack_context_free_data, local_unpack_context_free_data.
  destruct (decide (cfd = [])) as [->|Hne].
  { exists []. split_and!; [|unfold bytes_ok, max_size_of_byte_arrays; cbn; lia|by destruct Hc as [-> | ->]]. by destruct Hc as [-> | ->]. }
  destruct (unpack_bytes_lossless p_cfd _ cfd [] Hcfd) as (b & Hb & Hu). rewrite app_nil_r in Hu.
  specialize (Hf b Hb). pose proof (pack_cfd_nonempty cfd b Hb) as Hbne.
  exists (stored c b). split; [|split; [by apply stored_ok|]].
  - apply by_compression_Ok; [done|]. unfold stored, zlib_compress_context_free_data, pack_context_free_data.
    rewrite bool_decide_eq_false_2 by done. destruct (c =? 0); rewrite ?Hb; done.
  - apply fc_rethrow_Ok. cbn [mbind result_bind sys_assert]. rewrite bool_decide_eq_true_2 by done. apply by_compression_Ok; [done|].
    unfold stored, fits, zlib_decompress_context_free_data, unpack_context_free_data in *.
    destruct (c =? 0); rewrite bool_decide_eq_false_2 by (done || apply deflate_nonempty); [done|].
    rewrite zlib_decompress_deflate by apply Hf. cbn [mbind result_bind]. by rewrite bool_decide_eq_false_2.
Qed.

(** C13: A signed transaction survives packing: the packed transaction built from it,
    compressed or not, is written to bytes from which the same packed transaction is
    read back, with the same transaction, signatures, context-free data and id in its
    cache, and whatever follows in the stream untouched.  This is for data within the
    limits of the format: fields within their widths, at most 1,048,576 elements in
    each list, the bytes of the packed transaction and of the context-free data at
    most 20 MiB as stored, and, when compressed, at most 1 MiB before compression. *)
Theorem packed_transaction_roundtrip t c rest :
  (c = 0 \/ c = 1) -> signed_ok t ->
  (forall b, pack p_transaction (st_trx t) = Ok b -> fits c b) -> (forall b, pack p_cfd (st_cfd t) = Ok b -> fits c b) ->
  exists p bytes, pack_signed t c = Ok p /\ pt_unpacked p = t /\
    pack p_packed_transaction p = Ok bytes /\ unpack p_packed_transaction (bytes ++ rest) = Ok (p, rest).
Proof.
  intros Hc (Ht & Hs & Hcfd) Hft Hfc. destruct (lossless_bind p_transaction _ Ht) as (b & Hb & _).
  destruct (local_transaction_roundtrip c _ b Hc Ht Hb (Hft _ Hb)) as [Hp Hu].
  destruct (local_cfd_roundtrip c _ Hc Hcfd Hfc) as (s & Hps & Hsok & Hus).
  assert (vector_ok signature_ok (st_signatures t) /\ is_byte c /\ bytes_ok s /\ bytes_ok (stored c b)) as Hm
    by (split_and!; [done|unfold is_byte; lia|done|by apply stored_ok, Hft]).
  destruct (lossless_bind p_packed_members (st_signatures t, (c, (s, stored c b))) Hm) as (bytes & Hbytes & Hub).
  exists (mk_packed (st_signatures t) c s (stored c b) t (sha256 b)), bytes.
  unfold pack_signed, trx_id. rewrite Hb. cbn [mbind result_bind]. rewrite Hp. cbn [mbind result_bind]. rewrite Hps.
  split_and!; [done..|]. cbn [unpack p_packed_transaction]. rewrite Hub. cbn [mbind result_bind].
  rewrite Hu. cbn [mbind result_bind]. rewrite Hus. by destruct t.
Qed.

(** ** What a signature binds *)

(** Unique decoding: packed values at the front of equal streams are equal. *)
Lemma pack_prefix_inj {T} (c : packer T) P `{!Lossless c P} x y bx by_ rx ry :
  P x -> P y -> pack c x = Ok bx -> pack c y = Ok by_ -> bx ++ rx = by_ ++ ry -> x = y /\ rx = ry.
Proof.
  intros Hx Hy Ex Ey E. destruct (lossless_bind c x Hx) as (b & Eb & Hb). destruct (lossless_bind c y Hy) as (b' & Eb' & Hb').
  rewrite Ex in Eb. rewrite Ey in Eb'. injection Eb as <-. injection Eb' as <-.
  specialize (Hb rx). rewrite E, Hb' in Hb. by injection Hb as -> ->.
Qed.

(** The hash tells the given inputs apart and yields proper digests of them. *)
Definition hash_separates (xs : list (list Z)) : Prop :=
  (forall x y, x ∈ xs -> y ∈ xs -> sha256 x = sha256 y -> x = y) /\
  forall x, x ∈ xs -> digest_ok (sha256 x) /\ sha256 x <> digest_zero.

Lemma hash_separates_sub xs ys : xs ⊆ ys -> hash_separates ys -> hash_separates xs.
Proof. intros Hsub [Hinj Hz]. split; [intros x y Hx Hy; apply Hinj; by apply Hsub|intros x Hx; by apply Hz, Hsub]. Qed.

Lemma hash_separates_eq x y xs : hash_separates (x :: y :: xs) -> sha256 x = sha256 y -> x = y.
Proof. intros [Hinj _]. apply Hinj; [left|right; left]. Qed.

Lemma digest_zero_ok : digest_ok digest_zero.
Proof. unfold digest_ok, is_u64. cbn. lia. Qed.

Lemma cfd_digest_inj cfd cfd' b b' d :
  vector_ok bytes_ok cfd -> vector_ok bytes_ok cfd' -> pack p_cfd cfd = Ok b -> pack p_cfd cfd' = Ok b' ->
  hash_separates [b; b'] -> cfd_digest cfd = Ok d -> cfd_digest cfd' = Ok d -> cfd = cfd'.
Proof.
  unfold cfd_digest. intros Hc Hc' Hb Hb' Hsep. pose proof Hsep as [_ Hz]. rewrite Hb, Hb'. cbn [mbind result_bind].
  case_bool_decide as E; case_bool_decide as E'; intros Hd Hd'; [congruence|..].
  - destruct (Hz b') as [_ []]; [by right; left|congruence].
  - destruct (Hz b) as [_ []]; [by left|congruence].
  - assert (b = b') as -> by (apply (hash_separates_eq b b' []); [done|congruence]).
    destruct (pack_prefix_inj p_cfd (vector_ok bytes_ok) cfd cfd' b' b' [] []); done.
Qed.

Lemma cfd_digest_ok cfd b d : pack p_cfd cfd = Ok b -> digest_ok (sha256 b) -> cfd_digest cfd = Ok d -> digest_ok d.
Proof.
  unfold cfd_digest. intros Hb Hz. rewrite Hb. case_bool_decide; intros [= <-]; [apply digest_zero_ok|done].
Qed.

(** A signature is bound to one chain, one transaction and its context-free data:
    when the hash tells the inputs at hand apart, equal signing digests come from the
    same chain id, the same transaction in every field and the same context-free data. *)
Theorem sig_digest_binds chain_id t cfd chain_id' t' cfd' m m' b b' d :
  digest_ok chain_id -> digest_ok chain_id' -> transaction_ok t -> transaction_ok t' ->
  vector_ok bytes_ok cfd -> vector_ok bytes_ok cfd' ->
  sig_preimage chain_id t cfd = Ok m -> sig_preimage chain_id' t' cfd' = Ok m' ->
  pack p_cfd cfd = Ok b -> pack p_cfd cfd' = Ok b' -> hash_separates [m; m'; b; b'] ->
  sig_digest chain_id t cfd = Ok d -> sig_digest chain_id' t' cfd' = Ok d ->
  chain_id = chain_id' /\ t = t' /\ cfd = cfd'.
Proof.
  intros Hi Hi' Ht Ht' Hc Hc' Hm Hm' Hb Hb' Hsep. unfold sig_digest. rewrite Hm, Hm'. cbn [mbind result_bind].
  intros Hd Hd'. assert (m = m') as <- by (apply (hash_separates_eq m m' [b; b']); [done|congruence]). clear Hd Hd'.
  assert (hash_separates [b; b']) as Hs by (apply (hash_separates_sub [b; b'] [m; m; b; b']); [by do 2 apply list_subseteq_cons|done]).
  apply bind_Ok in Hm as (pc & Epc & (pt & Ept & (e & He & (pe & Epe & E1)%bind_Ok)%bind_Ok)%bind_Ok).
  apply bind_Ok in Hm' as (pc' & Epc' & (pt' & Ept' & (e' & He' & (pe' & Epe' & E2)%bind_Ok)%bind_Ok)%bind_Ok).
  assert (pc ++ pt ++ pe = pc' ++ pt' ++ pe') as E by congruence.
  destruct (pack_prefix_inj p_digest digest_ok chain_id chain_id' pc pc' _ _ Hi Hi' Epc Epc' E) as [-> E'].
  destruct (pack_prefix_inj p_transaction transaction_ok t t' pt pt' _ _ Ht Ht' Ept Ept' E') as [-> E''].
  assert (digest_ok e) as Hde by (apply (cfd_digest_ok cfd b e Hb); [apply Hs; by left|done]).
  assert (digest_ok e') as Hde' by (apply (cfd_digest_ok cfd' b' e' Hb'); [apply Hs; by right; left|done]).
  destruct (pack_prefix_inj p_digest digest_ok e e' pe pe' [] [] Hde Hde' Epe Epe') as [-> _]; [by rewrite !app_nil_r|].
  split_and!; [done..|]. exact (cfd_digest_inj cfd cfd' b b' e' Hc Hc' Hb Hb' Hs He He').
Qed.

(** ** Recovered keys *)

Lemma lex_less_total xs : forall ys, lex_less xs ys = true \/ xs = ys \/ lex_less ys xs = true.
Proof.
  induction xs as [|x xs IH]; intros [|y ys]; cbn; auto.
  destruct (Z.lt_trichotomy x y) as [L|[->|L]].
  - left. by rewrite (proj2 (Z.ltb_lt _ _) L).
  - rewrite Z.ltb_irrefl, Z.eqb_refl. cbn. destruct (IH ys) as [?|[->|?]]; auto.
  - right; right. by rewrite (proj2 (Z.ltb_lt _ _) L).
Qed.

Lemma key_less_total a b : key_less a b = true \/ a = b \/ key_less b a = true.
Proof.
  unfold key_less. destruct a as [w d], b as [w' d']; cbn.
  destruct (Z.lt_trichotomy w w') as [L|[->|L]].
  - left. by rewrite (proj2 (Z.ltb_lt _ _) L).
  - rewrite Z.ltb_irrefl, Z.eqb_refl. cbn. destruct (lex_less_total d d') as [?|[->|?]]; auto.
  - right; right. by rewrite (proj2 (Z.ltb_lt _ _) L).
Qed.

Lemma key_equivalent_eq a b : key_equivalent a b = true <-> a = b.
Proof.
  unfold key_equivalent. split.
  - intros [?%negb_true_iff ?%negb_true_iff]%andb_true_iff. destruct (key_less_total a b) as [?|[?|?]]; congruence.
  - intros ->. by rewrite key_less_irrefl.
Qed.

(** Inserting a new key keeps the set sorted and adds exactly that key. *)
Lemma insert_key k ks :
  StronglySorted (fun x y => key_less x y = true) ks -> k ∉ ks ->
  insert_unique key_less k ks ≡ₚ k :: ks /\ StronglySorted (fun x y => key_less x y = true) (insert_unique key_less k ks).
Proof.
  induction 1 as [|y ys Hs IH Hy]; cbn; [by intros _; split; [|repeat constructor]|].
  intros [Hne Hn]%not_elem_of_cons. destruct (key_less k y) eqn:E.
  - split; [done|]. constructor; [by constructor|]. constructor; [done|].
    eapply Forall_impl; [exact Hy|]. intros z Hz. by eapply key_less_trans.
  - destruct (key_less_total k y) as [?|[?|E']]; [congruence..|]. rewrite E'.
    destruct (IH Hn) as [Hp Hs']. split; [rewrite Hp; apply Permutation_swap|].
    constructor; [done|]. rewrite Hp. by constructor.
Qed.

Lemma recover_fold d deadline sns : forall ks0 ks,
  StronglySorted (fun x y => key_less x y = true) ks0 ->
  foldM (recover_step d deadline false) ks0 sns = Ok ks ->
  exists rs, Forall2 (fun sn r => recover sn.1 d = Ok r /\ sn.2 < deadline) sns rs /\ ks ≡ₚ rs ++ ks0 /\
    (NoDup ks0 -> NoDup ks) /\ StronglySorted (fun x y => key_less x y = true) ks.
Proof.
  induction sns as [|[sg now] sns IH]; intros ks0 ks Hs; cbn [foldM].
  - intros [= <-]. exists []. by split_and!.
  - intros (k1 & Hk & Hf)%bind_Ok.
    apply bind_Ok in Hk as (u & Hnow%sys_assert_Ok & (k & Hr & (u' & Hd%sys_assert_Ok & E)%bind_Ok)%bind_Ok).
    injection E as <-. cbn [orb] in Hd. apply negb_true_iff in Hd.
    assert (k ∉ ks0) as Hn.
    { intros Hin. assert (existsb (key_equivalent k) ks0 = true); [|congruence]. apply existsb_exists.
      exists k. split; [by apply list_elem_of_In|by apply key_equivalent_eq]. }
    destruct (insert_key k ks0 Hs Hn) as [Hp Hs']. destruct (IH _ _ Hs' Hf) as (rs & Hrs & Hperm & Hnd & Hsorted).
    exists (k :: rs). split_and!; [|rewrite Hperm, Hp; symmetry; apply Permutation_middle| |done].
    + constructor; [|done]. split; [done|]. by apply Z.ltb_lt.
    + intros Hnd0. apply Hnd. rewrite Hp. by constructor.
Qed.

Lemma recover_fold_succeeds d deadline sns : forall ks0 rs,
  StronglySorted (fun x y => key_less x y = true) ks0 ->
  Forall2 (fun sn r => recover sn.1 d = Ok r /\ sn.2 < deadline) sns rs -> NoDup (rs ++ ks0) ->
  exists ks, foldM (recover_step d deadline false) ks0 sns = Ok ks.
Proof.
  induction sns as [|[sg now] sns IH]; intros ks0 rs Hs Hrs Hnd; cbn [foldM]; [eauto|].
  inversion Hrs as [|? r ? rs' [Hr Hnow] Hrs']; subst. cbn in Hr, Hnow, Hnd. apply NoDup_cons in Hnd as [Hn Hnd].
  rewrite not_elem_of_app in Hn. destruct Hn as [Hn1 Hn2].
  assert (existsb (key_equivalent r) ks0 = false) as Hex.
  { apply not_true_iff_false. intros (k & Hk & E%key_equivalent_eq)%existsb_exists. subst k.
    by apply Hn2, list_elem_of_In. }
  assert (recover_step d deadline false ks0 (sg, now) = Ok (insert_unique key_less r ks0)) as ->.
  { unfold recover_step. rewrite (proj2 (Z.ltb_lt _ _) Hnow). cbn [sys_assert mbind result_bind].
    rewrite Hr. cbn [mbind result_bind]. by rewrite Hex. }
  cbn [mbind result_bind]. destruct (insert_key r ks0 Hs Hn2) as [Hp Hs'].
  apply (IH _ rs' Hs' Hrs'). rewrite Hp. rewrite <- Permutation_middle. apply NoDup_cons. split; [|done].
  by rewrite not_elem_of_app.
Qed.

(** Each signature is read with the time of its turn. *)
Lemma timed_signatures d (deadline : Z) (clock : nat -> Z) (sigs : list raw_signature) rs :
  Forall2 (fun sn r => recover sn.1 d = Ok r /\ sn.2 < deadline) (imap (fun i s => (s, clock i)) sigs) rs <->
  Forall2 (fun sg r => recover sg d = Ok r) sigs rs /\ forall i, (i < length sigs)%nat -> clock i < deadline.
Proof.
  revert clock rs. induction sigs as [|sg sigs IH]; intros clock rs; cbn [imap].
  - split; [intros ->%Forall2_nil_inv_l; split; [constructor|cbn; lia]|intros [->%Forall2_nil_inv_l _]; constructor].
  - specialize (IH (fun i => clock (S i))). split.
    + intros (r & rs' & [Hr Ht] & Hrs & ->)%Forall2_cons_inv_l. apply IH in Hrs as [Hrs Hts].
      split; [by constructor|]. intros [|i] Hi; [done|]. apply (Hts i). cbn in Hi. lia.
    + intros [(r & rs' & Hr & Hrs & ->)%Forall2_cons_inv_l Ht]. constructor; [split; [done|apply (Ht 0%nat); cbn; lia]|].
      apply IH. split; [done|]. intros i Hi. apply (Ht (S i)). cbn. lia.
Qed.

Lemma sorted_keys_unique ks ks' :
  StronglySorted (fun x y => key_less x y = true) ks -> StronglySorted (fun x y => key_less x y = true) ks' ->
  ks ≡ₚ ks' -> ks = ks'.
Proof.
  apply StronglySorted_unique_strong. intros x y _ _ H1 H2.
  pose proof (key_less_trans _ _ _ H1 H2) as E. by rewrite key_less_irrefl in E.
Qed.

(** C27: The keys a transaction is authorized with, when two signatures by one key are
    not allowed: a list of keys is the result exactly when it is the sorted list of
    the keys recovered from the signatures over the signing digest, one from each
    signature and no two the same, and each signature was reached in time; without
    signatures the result is empty. *)
Theorem get_signature_keys_spec t sigs chain_id deadline cfd clock ks :
  get_signature_keys t sigs chain_id deadline cfd clock false = Ok ks <->
  StronglySorted (fun x y => key_less x y = true) ks /\
  exists rs, ks ≡ₚ rs /\ NoDup rs /\
    Forall2 (fun sg r => exists d, sig_digest chain_id t cfd = Ok d /\ recover sg d = Ok r) sigs rs /\
    forall i, (i < length sigs)%nat -> clock i < deadline.
Proof.
  unfold get_signature_keys. rewrite fc_rethrow_Ok. case_bool_decide as Hs.
  { subst sigs. split.
    - intros [= <-]. split; [constructor|]. exists []. split_and!; [done|constructor|constructor|cbn; lia].
    - intros (_ & rs & Hp & _ & ->%Forall2_nil_inv_l & _). by apply Permutation_nil_r in Hp as ->. }
  split.
  - intros (d & Hd & Hf)%bind_Ok.
    destruct (recover_fold _ _ _ _ _ ltac:(constructor) Hf) as (rs & Hrs & Hp & Hnd & Hsorted).
    rewrite app_nil_r in Hp. apply timed_signatures in Hrs as [Hrs Ht]. split; [done|]. exists rs.
    split_and!; [done|rewrite <- Hp; apply Hnd; constructor| |done].
    eapply Forall2_impl; [exact Hrs|]. intros sg r Hr. by exists d.
  - intros (Hsorted & rs & Hp & Hnd & Hrs & Ht). destruct sigs as [|sg0 sigs]; [done|].
    assert (exists d, sig_digest chain_id t cfd = Ok d) as [d Hd].
    { apply Forall2_cons_inv_l in Hrs as (r & ? & (d & Hd & _) & _ & _). by exists d. }
    rewrite Hd. cbn [mbind result_bind].
    assert (Forall2 (fun sg r => recover sg d = Ok r) (sg0 :: sigs) rs) as Hrs'.
    { eapply Forall2_impl; [exact Hrs|]. intros sg r (d' & Hd' & Hr). congruence. }
    pose proof (proj2 (timed_signatures d deadline clock _ rs) (conj Hrs' Ht)) as Hrt.
    destruct (recover_fold_succeeds _ _ _ [] rs ltac:(constructor) Hrt) as [ks' Hf]; [by rewrite app_nil_r|].
    rewrite Hf. f_equal. destruct (recover_fold _ _ _ _ _ ltac:(constructor) Hf) as (rs2 & Hrs2 & Hp2 & _ & Hsorted2).
    apply sorted_keys_unique; [done..|]. rewrite Hp, Hp2, app_nil_r.
    apply timed_signatures in Hrs2 as [Hrs2 _]. apply reflexive_eq. clear -Hrs' Hrs2.
    revert rs2 Hrs2. induction Hrs' as [|sg r l rs Hr _ IH]; intros rs2 H2.
    + by apply Forall2_nil_inv_l in H2.
    + apply Forall2_cons_inv_l in H2 as (r2 & rs3 & Hr2 & H3 & ->). f_equal; [congruence|by apply IH].
Qed.
End transactions.

(** ** A concrete instance *)
Module TransactionsExample.

Definition sha (b : list Z) : digest := mk_digest 1 (Z.of_nat (length b)) (foldr (fun x acc => (x + 31 * acc) mod 2 ^ 64) 7 b) 0.
Definition inflate (b : list Z) : list Z * bool := match b with 120 :: b => (b, true) | _ => ([], false) end.

#[export] Instance example_libs : TransactionLibs := {
  sha256 := sha; recover := fun s _ => Ok (mk_public_key 0 (take 33 (sig_compact s)));
  zlib_deflate := fun b => 120 :: b; zlib_inflate := inflate;
  inflate_deflate := fun b => eq_refl; deflate_nonempty := fun b H => nil_cons (eq_sym H) }.

Definition trx : transaction :=
  mk_transaction 1700000000 12 3456 0 5 0 [] [mk_action 1 2 [mk_level 3 4] [9; 8; 7]] [].
Definition sig (x : Z) : raw_signature := mk_raw_signature 0 (replicate 65 x) [] [].
Definition signed : signed_transaction := mk_signed trx [sig 1; sig 2] [[1; 2]; []].

Ltac small :=
  repeat match goal with
  | |- _ /\ _ => split
  | |- vector_ok _ _ => split
  | |- Forall _ [] => apply Forall_nil_2
  | |- Forall _ (_ :: _) => apply Forall_cons_2
  | |- _ => progress unfold transaction_ok, action_ok, level_ok, signature_ok, extension_ok, digest_ok, is_u64, is_u32, is_u16, is_byte, bytes_ok, max_num_array_elements, max_size_of_byte_arrays
  | |- _ => progress cbn
  end; try lia; try reflexivity.

Lemma trx_ok : transaction_ok trx.
Proof. small. Qed.

Lemma cfd_ok : vector_ok bytes_ok (st_cfd signed).
Proof. small. Qed.

Lemma packed_transaction_roundtrip_witness :
  exists p bytes, pack_signed signed 1 = Ok p /\ pt_unpacked p = signed /\
    pack p_packed_transaction p = Ok bytes /\ unpack p_packed_transaction (bytes ++ [5]) = Ok (p, [5]).
Proof.
  apply packed_transaction_roundtrip; [by right| | |].
  - split_and!; [exact trx_ok| |exact cfd_ok]. small.
  - intros b Hb. vm_compute in Hb. injection Hb as <-. split; vm_compute; discriminate.
  - intros b Hb. vm_compute in Hb. injection Hb as <-. split; vm_compute; discriminate.
Defined.

Definition chain : digest := mk_digest 1 2 3 4.
Definition get {A} (m : res A) (d : A) : A := match m with Ok a => a | Throw _ => d end.
Definition preimage : list Z := Eval vm_compute in get (sig_preimage chain trx (st_cfd signed)) [].
Definition cfd_bytes : list Z := Eval vm_compute in get (pack p_cfd (st_cfd signed)) [].

Lemma separates_two (a b : list Z) :
  sha256 a <> sha256 b -> (digest_ok (sha256 a) /\ sha256 a <> digest_zero) -> (digest_ok (sha256 b) /\ sha256 b <> digest_zero) ->
  hash_separates [a; a; b; b].
Proof.
  intros Hne Ha Hb. assert (forall x, x ∈ [a; a; b; b] -> x = a \/ x = b) as Hin.
  { intros x. rewrite !elem_of_cons. intros [?|[?|[?|[?|[]%elem_of_nil]]]]; auto. }
  split.
  - intros x y [-> | ->]%Hin [-> | ->]%Hin E; congruence.
  - intros x [-> | ->]%Hin; done.
Qed.

Lemma separates : hash_separates [preimage; preimage; cfd_bytes; cfd_bytes].
Proof.
  apply separates_two; [intros E; vm_compute in E; discriminate|..];
    (split; [repeat split; vm_compute; discriminate || reflexivity|intros E; vm_compute in E; discriminate]).
Qed.

Lemma sig_digest_binds_witness : chain = chain /\ trx = trx /\ st_cfd signed = st_cfd signed.
Proof.
  apply (sig_digest_binds chain trx (st_cfd signed) chain trx (st_cfd signed) preimage preimage cfd_bytes cfd_bytes (sha preimage));
    try exact trx_ok; try exact cfd_ok; try exact separates; try (vm_compute; reflexivity);
    repeat split; vm_compute; discriminate || reflexivity.
Defined.

Definition recovered : list public_key := [mk_public_key 0 (replicate 33 1); mk_public_key 0 (replicate 33 2)].

Lemma recovered_ok : get_signature_keys trx [sig 2; sig 1] chain 100 [] (fun _ => 50) false = Ok recovered.
Proof. vm_compute. reflexivity. Qed.

Lemma get_signature_keys_spec_witness :
  StronglySorted (fun x y => key_less x y = true) recovered /\
  exists rs, recovered ≡ₚ rs /\ NoDup rs /\
    Forall2 (fun sg r => exists d, sig_digest chain trx [] = Ok d /\ recover sg d = Ok r) [sig 2; sig 1] rs /\
    forall i, (i < 2)%nat -> 50 < 100.
Proof. exact (proj1 (get_signature_keys_spec trx [sig 2; sig 1] chain 100 [] (fun _ => 50) recovered) recovered_ok). Defined.
End TransactionsExample.
