(* ===== verification/ChainConfig.v ===== *)
(** * Chain and wasm configuration ([chain_config.hpp], [chain_config.cpp], [wasm_config.cpp])

    The parameters block producers set: their validation, the packed form of the
    whole configuration and the packed form of a selection of parameters by id.
    The ids are the positions of the members, so a [switch] over ids is a lookup in
    the list of members. *)

From S2P Require Import Prelude Exceptions Packing.

Module config.
Definition percent_100 : Z := 10000.
Definition percent_1 : Z := 100.
Definition min_net_usage_delta_between_base_and_max_for_trx : Z := 10 * 1024.
End config.

(** ** The configuration *)

Record chain_config_v0 := mk_chain_config_v0 {
  max_block_net_usage : Z;
  target_block_net_usage_pct : Z;
  max_transaction_net_usage : Z;
  base_per_transaction_net_usage : Z;
  net_usage_leeway : Z;
  context_free_discount_net_usage_num : Z;
  context_free_discount_net_usage_den : Z;
  max_block_cpu_usage : Z;
  target_block_cpu_usage_pct : Z;
  max_transaction_cpu_usage : Z;
  min_transaction_cpu_usage : Z;
  max_transaction_lifetime : Z;
  deferred_trx_expiration_window : Z;
  cfg_max_transaction_delay : Z;
  max_inline_action_size : Z;
  max_inline_action_depth : Z;
  cfg_max_authority_depth : Z }.

(** [chain_config_v1], which is [chain_config] *)
Record chain_config := mk_chain_config { base : chain_config_v0; max_action_return_value_size : Z }.

(** The members in order, the number of bytes of each, and an object from its members. *)
Definition v0_widths : list nat := (8 :: replicate 14 4 ++ [2; 2])%nat.
Definition v0_members (c : chain_config_v0) : list Z :=
  [max_block_net_usage c; target_block_net_usage_pct c; max_transaction_net_usage c;
   base_per_transaction_net_usage c; net_usage_leeway c; context_free_discount_net_usage_num c;
   context_free_discount_net_usage_den c; max_block_cpu_usage c; target_block_cpu_usage_pct c;
   max_transaction_cpu_usage c; min_transaction_cpu_usage c; max_transaction_lifetime c;
   deferred_trx_expiration_window c; cfg_max_transaction_delay c; max_inline_action_size c;
   max_inline_action_depth c; cfg_max_authority_depth c].
Definition v0_of_members (l : list Z) : chain_config_v0 :=
  let m i := nth (Z.to_nat i) l 0 in
  mk_chain_config_v0 (m 0) (m 1) (m 2) (m 3) (m 4) (m 5) (m 6) (m 7) (m 8) (m 9) (m 10) (m 11) (m 12)
    (m 13) (m 14) (m 15) (m 16).

(** [PARAMS_COUNT] and [max_action_return_value_size_id] *)
Definition v0_params_count : Z := 17.
Definition v1_params_count : Z := 18.
Definition max_action_return_value_size_id : Z := 17.

(** [operator==]: the tuples name [max_transaction_cpu_usage] twice. *)
Definition v0_eqb (l r : chain_config_v0) : bool :=
  (max_block_net_usage l =? max_block_net_usage r)
  && (target_block_net_usage_pct l =? target_block_net_usage_pct r)
  && (max_transaction_net_usage l =? max_transaction_net_usage r)
  && (base_per_transaction_net_usage l =? base_per_transaction_net_usage r)
  && (net_usage_leeway l =? net_usage_leeway r)
  && (context_free_discount_net_usage_num l =? context_free_discount_net_usage_num r)
  && (context_free_discount_net_usage_den l =? context_free_discount_net_usage_den r)
  && (max_block_cpu_usage l =? max_block_cpu_usage r)
  && (target_block_cpu_usage_pct l =? target_block_cpu_usage_pct r)
  && (max_transaction_cpu_usage l =? max_transaction_cpu_usage r)
  && (max_transaction_cpu_usage l =? max_transaction_cpu_usage r)
  && (max_transaction_lifetime l =? max_transaction_lifetime r)
  && (deferred_trx_expiration_window l =? deferred_trx_expiration_window r)
  && (cfg_max_transaction_delay l =? cfg_max_transaction_delay r)
  && (max_inline_action_size l =? max_inline_action_size r)
  && (max_inline_action_depth l =? max_inline_action_depth r)
  && (cfg_max_authority_depth l =? cfg_max_authority_depth r).

Definition config_eqb (l r : chain_config) : bool :=
  (max_action_return_value_size l =? max_action_return_value_size r) && v0_eqb (base l) (base r).

Definition v0_validate (c : chain_config_v0) : res unit :=
  let check b := sys_assert b action_validate_exception in
  _ ← check (target_block_net_usage_pct c <=? config.percent_100);
  _ ← check (config.percent_1 / 10 <=? target_block_net_usage_pct c);
  _ ← check (target_block_cpu_usage_pct c <=? config.percent_100);
  _ ← check (config.percent_1 / 10 <=? target_block_cpu_usage_pct c);
  _ ← check (max_transaction_net_usage c <? max_block_net_usage c);
  _ ← check (max_transaction_cpu_usage c <? max_block_cpu_usage c);
  _ ← check (base_per_transaction_net_usage c <? max_transaction_net_usage c);
  _ ← check (config.min_net_usage_delta_between_base_and_max_for_trx
             <=? u32 (max_transaction_net_usage c - base_per_transaction_net_usage c));
  _ ← check (0 <? context_free_discount_net_usage_den c);
  _ ← check (context_free_discount_net_usage_num c <=? context_free_discount_net_usage_den c);
  _ ← check (min_transaction_cpu_usage c <=? max_transaction_cpu_usage c);
  _ ← check (max_transaction_cpu_usage c <? u32 (max_block_cpu_usage c - min_transaction_cpu_usage c));
  check (1 <=? cfg_max_authority_depth c).

Definition config_validate (c : chain_config) : res unit :=
  _ ← v0_validate (base c);
  sys_assert (max_action_return_value_size c <=? max_size_of_byte_arrays) action_validate_exception.

(** ** Packing *)

(** Reflected members of unsigned types, [widths] bytes each. *)
Fixpoint p_members (widths : list nat) : packer (list Z) :=
  match widths with
  | [] => mk_packer (fun _ => Ok []) (fun s => Ok ([], s))
  | w :: ws => mk_packer
      (fun l => match l with
                | [] => Throw undefined_behavior
                | x :: l => b ← pack (p_uint w) x; bs ← pack (p_members ws) l; Ok (b ++ bs)
                end)
      (fun s => '(x, s) ← unpack (p_uint w) s; '(l, s) ← unpack (p_members ws) s; Ok (x :: l, s))
  end.

Definition p_config_v0 : packer chain_config_v0 :=
  p_reflect v0_members v0_of_members no_init (p_members v0_widths).
Definition p_config : packer chain_config :=
  p_reflect (fun c => (base c, max_action_return_value_size c)) (fun p => mk_chain_config p.1 p.2)
    no_init (p_pair p_config_v0 (p_uint 4)).

(** [config_entry_validator]: [action_return_value] says whether that feature is active. *)
Definition entry_allowed (action_return_value : bool) (id : Z) : bool :=
  if id =? max_action_return_value_size_id then action_return_value else true.

Section entries.
Context (allowed : Z -> bool).

Definition pack_entry_v0 (c : chain_config_v0) (id : Z) : res (list Z) :=
  _ ← sys_assert (allowed id) unsupported_feature;
  '(w, x) ← of_option config_parse_error (zip v0_widths (v0_members c) !! Z.to_nat id);
  pack (p_uint w) x.

Definition pack_entry (c : chain_config) (id : Z) : res (list Z) :=
  _ ← sys_assert (allowed id) unsupported_feature;
  if id =? max_action_return_value_size_id then pack (p_uint 4) (max_action_return_value_size c)
  else pack_entry_v0 (base c) id.

Definition unpack_entry_v0 (c : chain_config_v0) (id : Z) (s : list Z) : res (chain_config_v0 * list Z) :=
  _ ← sys_assert (allowed id) unsupported_feature;
  w ← of_option config_parse_error (v0_widths !! Z.to_nat id);
  '(x, s) ← unpack (p_uint w) s;
  Ok (v0_of_members (<[Z.to_nat id := x]> (v0_members c)), s).

Definition unpack_entry (c : chain_config) (id : Z) (s : list Z) : res (chain_config * list Z) :=
  _ ← sys_assert (allowed id) unsupported_feature;
  if id =? max_action_return_value_size_id
  then '(x, s) ← unpack (p_uint 4) s; Ok (mk_chain_config (base c) x, s)
  else '(b, s) ← unpack_entry_v0 (base c) id s; Ok (mk_chain_config b (max_action_return_value_size c), s).

(** [operator<<] and [operator>>] on [data_range]; [visited] marks the ids seen. *)
Definition visit (visited : list bool) (id : Z) : res (list bool) :=
  _ ← sys_assert (id <? Z.of_nat (length visited)) config_parse_error;
  _ ← sys_assert (negb (nth (Z.to_nat id) visited false)) config_parse_error;
  Ok (<[Z.to_nat id := true]> visited).

Fixpoint pack_entries (c : chain_config) (visited : list bool) (ids : list Z) : res (list Z) :=
  match ids with
  | [] => Ok []
  | id :: ids =>
    visited ← visit visited id;
    n ← pack p_unsigned_int id;
    b ← pack_entry c id;
    bs ← pack_entries c visited ids;
    Ok (n ++ b ++ bs)
  end.

Definition no_visited : list bool := replicate (Z.to_nat v1_params_count) false.

Definition pack_range (c : chain_config) (ids : list Z) : res (list Z) :=
  n ← pack p_unsigned_int (u32 (Z.of_nat (length ids)));
  bs ← pack_entries c no_visited ids;
  Ok (n ++ bs).

Fixpoint unpack_entries (n : nat) (c : chain_config) (visited : list bool) (s : list Z)
  : res (chain_config * list Z) :=
  match n with
  | O => Ok (c, s)
  | S n =>
    '(id, s) ← unpack p_unsigned_int s;
    visited ← visit visited id;
    '(c, s) ← unpack_entry c id s;
    unpack_entries n c visited s
  end.

Definition unpack_range (c : chain_config) (s : list Z) : res (chain_config * list Z) :=
  '(length, s) ← unpack p_unsigned_int s;
  unpack_entries (Z.to_nat length) c no_visited s.
End entries.

(** ** The configuration of the wasm limits *)

Record wasm_config := mk_wasm_config {
  max_mutable_global_bytes : Z;
  max_table_elements : Z;
  max_section_elements : Z;
  max_linear_memory_init : Z;
  max_func_local_bytes : Z;
  max_nested_structures : Z;
  max_symbol_bytes : Z;
  max_module_bytes : Z;
  max_code_bytes : Z;
  max_pages : Z;
  max_call_depth : Z }.

Definition wasm_members (c : wasm_config) : list Z :=
  [max_mutable_global_bytes c; max_table_elements c; max_section_elements c; max_linear_memory_init c;
   max_func_local_bytes c; max_nested_structures c; max_symbol_bytes c; max_module_bytes c;
   max_code_bytes c; max_pages c; max_call_depth c].
Definition wasm_of_members (l : list Z) : wasm_config :=
  let m i := nth (Z.to_nat i) l 0 in
  mk_wasm_config (m 0) (m 1) (m 2) (m 3) (m 4) (m 5) (m 6) (m 7) (m 8) (m 9) (m 10).

Definition wasm_eqb (l r : wasm_config) : bool :=
  (max_mutable_global_bytes l =? max_mutable_global_bytes r)
  && (max_table_elements l =? max_table_elements r)
  && (max_section_elements l =? max_section_elements r)
  && (max_linear_memory_init l =? max_linear_memory_init r)
  && (max_func_local_bytes l =? max_func_local_bytes r)
  && (max_nested_structures l =? max_nested_structures r)
  && (max_symbol_bytes l =? max_symbol_bytes r)
  && (max_module_bytes l =? max_module_bytes r)
  && (max_code_bytes l =? max_code_bytes r)
  && (max_pages l =? max_pages r)
  && (max_call_depth l =? max_call_depth r).

Definition wasm_validate (c : wasm_config) : res unit :=
  let check b := sys_assert b action_validate_exception in
  _ ← check (4 <=? max_section_elements c);
  _ ← check (8 <=? max_func_local_bytes c);
  _ ← check (1 <=? max_nested_structures c);
  _ ← check (32 <=? max_symbol_bytes c);
  _ ← check (256 <=? max_module_bytes c);
  _ ← check (32 <=? max_code_bytes c);
  _ ← check (1 <=? max_pages c);
  check (2 <=? max_call_depth c).

Definition wasm_widths : list nat := replicate 11 4%nat.
Definition p_wasm_config : packer wasm_config :=
  p_reflect wasm_members wasm_of_members no_init (p_members wasm_widths).

(** ** Members come back *)

Definition in_width (w : nat) (x : Z) : Prop := 0 <= x < 256 ^ Z.of_nat w.
Definition config_v0_ok (c : chain_config_v0) : Prop := Forall2 in_width v0_widths (v0_members c).
Definition config_ok (c : chain_config) : Prop :=
  config_v0_ok (base c) /\ is_u32 (max_action_return_value_size c).
Definition wasm_config_ok (c : wasm_config) : Prop := Forall2 in_width wasm_widths (wasm_members c).

#[export] Instance members_packed_lossless ws : Lossless (p_members ws) (Forall2 in_width ws).
Proof.
  induction ws as [|w ws IH]; intros l rest Hl; inversion Hl as [|? x ? l' Hx Hl' E1 E2]; subst.
  - by exists [].
  - destruct (lossless_bind (p_uint w) x Hx) as (b & Hb & Hub).
    destruct (lossless_bind (p_members ws) l' Hl') as (bs & Hbs & Hubs).
    exists (b ++ bs). cbn [p_members pack unpack]. rewrite Hb. cbn [mbind result_bind]. rewrite Hbs.
    split; [done|]. rewrite <- app_assoc, Hub. cbn [mbind result_bind]. by rewrite Hubs.
Qed.

#[export] Instance members_yields ws : Yields (p_members ws) (Forall2 in_width ws).
Proof.
  induction ws as [|w ws IH]; intros s l rest; cbn [p_members unpack].
  - intros [= <- _]. constructor.
  - intros ([x s1] & Hx & ([l' s2] & Hl & [= <- <-])%bind_Ok)%bind_Ok.
    constructor; [exact (uint_yields w _ _ _ Hx)|exact (IH _ _ _ Hl)].
Qed.

Lemma v0_of_members_id c : v0_of_members (v0_members c) = c.
Proof. by destruct c. Qed.
Lemma v0_members_of l : length l = 17%nat -> v0_members (v0_of_members l) = l.
Proof. intros H. do 17 (destruct l as [|? l]; [done|]). by destruct l. Qed.
Lemma wasm_members_of l : length l = 11%nat -> wasm_members (wasm_of_members l) = l.
Proof. intros H. do 11 (destruct l as [|? l]; [done|]). by destruct l. Qed.

#[export] Instance config_v0_lossless : Lossless p_config_v0 config_v0_ok.
Proof.
  eapply reflect_lossless; [apply members_packed_lossless|].
  intros c Hc. split; [exact Hc|]. split; [apply v0_of_members_id|done].
Qed.

#[export] Instance config_lossless : Lossless p_config config_ok.
Proof.
  eapply reflect_lossless; [apply pair_lossless; [apply config_v0_lossless|apply (uint_lossless 4)]|].
  intros [b m] [Hb Hm]. done.
Qed.

#[export] Instance config_v0_yields : Yields p_config_v0 config_v0_ok.
Proof.
  eapply reflect_yields; [apply members_yields|]. intros l Hl. unfold config_v0_ok.
  rewrite v0_members_of by (by rewrite <- (Forall2_length _ _ _ Hl)). exact Hl.
Qed.

#[export] Instance wasm_config_lossless : Lossless p_wasm_config wasm_config_ok.
Proof.
  eapply reflect_lossless; [apply members_packed_lossless|]. intros c Hc. split; [exact Hc|]. by destruct c.
Qed.

#[export] Instance wasm_config_yields : Yields p_wasm_config wasm_config_ok.
Proof.
  eapply reflect_yields; [apply members_yields|]. intros l Hl. unfold wasm_config_ok.
  rewrite wasm_members_of by (by rewrite <- (Forall2_length _ _ _ Hl)). exact Hl.
Qed.

(** ** Selections of parameters *)

(** The parameters by id, as one list. *)
Definition config_widths : list nat := v0_widths ++ [4%nat].
Definition config_params (c : chain_config) : list Z :=
  v0_members (base c) ++ [max_action_return_value_size c].
Definition of_params (l : list Z) : chain_config := mk_chain_config (v0_of_members l) (nth 17 l 0).
Definition set_param (c : chain_config) (id x : Z) : chain_config :=
  of_params (<[Z.to_nat id := x]> (config_params c)).
Definition param (c : chain_config) (id : Z) : Z := nth (Z.to_nat id) (config_params c) 0.

Lemma of_params_id c : of_params (config_params c) = c.
Proof. by destruct c as [[]]. Qed.
Lemma config_params_of l : length l = 18%nat -> config_params (of_params l) = l.
Proof. intros H. do 18 (destruct l as [|? l]; [done|]). by destruct l. Qed.
Lemma config_params_set c id x : config_params (set_param c id x) = <[Z.to_nat id := x]> (config_params c).
Proof. apply config_params_of. by rewrite length_insert. Qed.

Lemma config_ok_params c : config_ok c <-> Forall2 in_width config_widths (config_params c).
Proof.
  unfold config_ok, config_v0_ok, config_widths, config_params. split.
  - intros [H1 H2]. apply Forall2_app; [done|]. constructor; [exact H2|constructor].
  - intros H. apply Forall2_app_inv in H as [H1 H2]; [|done]. split; [done|]. by inversion H2.
Qed.

Lemma param_width c id : config_ok c -> 0 <= id < v1_params_count ->
  exists w, config_widths !! Z.to_nat id = Some w /\ in_width w (param c id).
Proof.
  intros Hc%config_ok_params [H0 H1]. unfold v1_params_count in H1.
  destruct (lookup_lt_is_Some_2 config_widths (Z.to_nat id)) as [w Hw]; [cbn; lia|].
  destruct (Forall2_lookup_l _ _ _ _ _ Hc Hw) as (x & Hx & Hwx). exists w. split; [done|].
  unfold param. by rewrite (nth_lookup_Some _ _ _ _ Hx).
Qed.

Lemma Z_of_nat_range z n : 0 <= z < n -> exists k, z = Z.of_nat k /\ (k < Z.to_nat n)%nat.
Proof. intros H. exists (Z.to_nat z). lia. Qed.

Definition unseen (visited : list bool) (id : Z) : Prop := nth (Z.to_nat id) visited false = false.

Lemma visit_Ok visited id v : visit visited id = Ok v <->
  id < Z.of_nat (length visited) /\ unseen visited id /\ v = <[Z.to_nat id := true]> visited.
Proof.
  unfold visit, unseen. destruct (Z.ltb_spec id (Z.of_nat (length visited))); cbn; [|naive_solver lia].
  destruct (nth _ visited false); cbn; naive_solver.
Qed.

Lemma unseen_insert visited id id' : 0 <= id < Z.of_nat (length visited) -> 0 <= id' ->
  unseen (<[Z.to_nat id := true]> visited) id' <-> id <> id' /\ unseen visited id'.
Proof.
  unfold unseen. intros H H'. rewrite !nth_lookup. destruct (decide (id = id')) as [<-|].
  - rewrite list_lookup_insert_eq by lia. naive_solver.
  - rewrite list_lookup_insert_ne by lia. naive_solver.
Qed.

Section ranges.
Context (allowed : Z -> bool).

(** The two switches over ids are lookups in the joint list. *)
Lemma pack_entry_param c id w : allowed id = true -> 0 <= id < v1_params_count ->
  config_widths !! Z.to_nat id = Some w -> pack_entry allowed c id = pack (p_uint w) (param c id).
Proof.
  unfold pack_entry, pack_entry_v0, param, v1_params_count, max_action_return_value_size_id.
  intros -> (n & -> & Hn)%Z_of_nat_range. rewrite ?Nat2Z.id.
  do 18 (destruct n as [|n]; [intros [= <-]; reflexivity|]). cbn in Hn; lia.
Qed.

Lemma unpack_entry_param c id w s : allowed id = true -> 0 <= id < v1_params_count ->
  config_widths !! Z.to_nat id = Some w ->
  unpack_entry allowed c id s = '(x, s) ← unpack (p_uint w) s; Ok (set_param c id x, s).
Proof.
  unfold unpack_entry, unpack_entry_v0, set_param, v1_params_count, max_action_return_value_size_id.
  intros -> (n & -> & Hn)%Z_of_nat_range. rewrite ?Nat2Z.id.
  assert ((Z.of_nat n =? 17) = (n =? 17)%nat) as -> by (apply eq_true_iff_eq; rewrite Z.eqb_eq, Nat.eqb_eq; lia).
  do 18 (destruct n as [|n]; [intros [= <-]; cbn -[p_uint unpack];
    destruct (unpack (p_uint _) s) as [[x s']|e]; [|reflexivity]; by destruct c as [[]]|]). cbn in Hn; lia.
Qed.

Definition selectable (id : Z) : Prop := 0 <= id < v1_params_count /\ allowed id = true.
Definition take_params (c : chain_config) (ids : list Z) (c' : chain_config) : chain_config :=
  foldl (fun c' id => set_param c' id (param c id)) c' ids.

Lemma param_set c id x id' : 0 <= id < v1_params_count -> 0 <= id' ->
  param (set_param c id x) id' = if bool_decide (id = id') then x else param c id'.
Proof.
  intros H H'. unfold param. rewrite config_params_set, !nth_lookup. case_bool_decide as E.
  - subst. by rewrite list_lookup_insert_eq by (cbn; unfold v1_params_count in H; lia).
  - by rewrite list_lookup_insert_ne by lia.
Qed.

Lemma take_params_param c ids c' id : Forall selectable ids -> 0 <= id ->
  param (take_params c ids c') id = if bool_decide (id ∈ ids) then param c id else param c' id.
Proof.
  intros Hids Hid. unfold take_params. revert c'. induction Hids as [|i ids [Hi _] _ IH]; intros c'; [done|].
  cbn [foldl]. rewrite IH, param_set by done. repeat case_bool_decide; set_solver.
Qed.

Lemma entries_lossless c ids : config_ok c -> NoDup ids -> Forall selectable ids ->
  forall visited c' rest, length visited = 18%nat -> Forall (unseen visited) ids ->
  exists bytes, pack_entries allowed c visited ids = Ok bytes /\
    unpack_entries allowed (length ids) c' visited (bytes ++ rest) = Ok (take_params c ids c', rest).
Proof.
  intros Hc Hnd Hs. induction Hs as [|id ids [Hid Ha] Hs IH]; intros visited c' rest Hv Hu; [by exists []|].
  apply NoDup_cons in Hnd as [Hni Hnd]. apply Forall_cons in Hu as [Hu1 Hu].
  pose proof Hid as Hid'. unfold v1_params_count in Hid'.
  assert (visit visited id = Ok (<[Z.to_nat id := true]> visited)) as Hvis by (apply visit_Ok; rewrite Hv; naive_solver lia).
  destruct (param_width c id Hc Hid) as (w & Hw & Hwx).
  destruct (lossless_bind (p_uint w) (param c id) Hwx) as (b & Hb & Hub).
  destruct (unsigned_int_bind id ltac:(lia)) as (n & Hn & Hun).
  destruct (IH Hnd (<[Z.to_nat id := true]> visited) (set_param c' id (param c id)) rest) as (bs & Hbs & Hubs).
  { by rewrite length_insert. }
  { rewrite Forall_forall in *. intros i Hi. destruct (Hs i Hi) as [? _].
    apply unseen_insert; [rewrite Hv; lia|lia|]. split; [by intros ->|exact (Hu i Hi)]. }
  exists (n ++ b ++ bs). cbn [pack_entries unpack_entries length]. rewrite Hvis. cbn [mbind result_bind].
  rewrite Hn. cbn [mbind result_bind]. rewrite (pack_entry_param c id w Ha Hid Hw), Hb. cbn [mbind result_bind].
  rewrite Hbs. split; [done|]. rewrite <- !app_assoc, Hun. cbn [mbind result_bind]. rewrite Hvis. cbn [mbind result_bind].
  rewrite (unpack_entry_param c' id w _ Ha Hid Hw), Hub. cbn [mbind result_bind]. exact Hubs.
Qed.

Lemma pack_entries_inv c ids : forall visited bytes, length visited = 18%nat -> Forall (Z.le 0) ids ->
  pack_entries allowed c visited ids = Ok bytes -> NoDup ids /\ Forall selectable ids /\ Forall (unseen visited) ids.
Proof.
  induction ids as [|id ids IH]; intros visited bytes Hv H0; cbn [pack_entries]; [by repeat constructor|].
  apply Forall_cons in H0 as [Hid H0].
  intros (v & (Hlt & Hu & ->)%visit_Ok & (n & Hn & (b & Hb & (bs & Hbs & _)%bind_Ok)%bind_Ok)%bind_Ok)%bind_Ok.
  destruct (IH _ _ ltac:(by rewrite length_insert) H0 Hbs) as (Hnd & Hs & Hus).
  unfold pack_entry in Hb. apply bind_Ok in Hb as ([] & Ha%sys_assert_Ok & _).
  rewrite Forall_forall in Hus, H0.
  assert (forall i, i ∈ ids -> id <> i /\ unseen visited i) as Hne.
  { intros i Hi. apply (unseen_insert visited id i); [lia|exact (H0 i Hi)|exact (Hus i Hi)]. }
  split; [constructor; [intros Hi; by destruct (Hne id Hi)|done]|].
  split; constructor; try done; [split; [unfold v1_params_count; lia|done]|].
  apply Forall_forall. intros i Hi. by destruct (Hne i Hi).
Qed.

Lemma no_visited_unseen id : unseen no_visited id.
Proof.
  unfold unseen, no_visited. rewrite nth_lookup. destruct (replicate _ _ !! _) as [b|] eqn:E; [|done].
  by apply lookup_replicate in E as [-> _].
Qed.
End ranges.

(** Ids without repetition are at most as many as there are parameters. *)
Lemma selection_length ids : NoDup ids -> Forall (fun id => 0 <= id < v1_params_count) ids -> (length ids <= 18)%nat.
Proof.
  intros Hnd Hr. change 18%nat with (length (seqZ 0 18)). apply submseteq_length, NoDup_submseteq; [done|].
  intros i Hi. rewrite Forall_forall in Hr. apply elem_of_seqZ. pose proof (Hr i Hi). unfold v1_params_count in *. lia.
Qed.

Lemma range_lossless allowed c c' ids rest : config_ok c -> NoDup ids -> Forall (selectable allowed) ids ->
  exists bytes, pack_range allowed c ids = Ok bytes /\
    unpack_range allowed c' (bytes ++ rest) = Ok (take_params c ids c', rest).
Proof.
  intros Hc Hnd Hs.
  assert (length ids <= 18)%nat as Hl
    by (apply selection_length; [done|]; apply (Forall_impl _ _ _ Hs); by intros ? [? _]).
  destruct (entries_lossless allowed c ids Hc Hnd Hs no_visited c' rest) as (bs & Hbs & Hubs);
    [done|apply Forall_forall; intros; apply no_visited_unseen|].
  destruct (unsigned_int_bind (Z.of_nat (length ids)) ltac:(lia)) as (n & Hn & Hun).
  exists (n ++ bs). unfold pack_range, unpack_range. rewrite u32_small by lia. rewrite Hn. cbn [mbind result_bind].
  rewrite Hbs. split; [done|]. rewrite <- app_assoc, Hun. cbn [mbind result_bind]. by rewrite Nat2Z.id.
Qed.

(** A selection of parameters is packed exactly when it names known, allowed ids
    without repetition; reading it into another configuration sets the selected
    parameters to the packed values and no other. *)
Theorem config_selection_roundtrip allowed c c' ids rest :
  config_ok c -> Forall is_u32 ids ->
  ((exists bytes, pack_range allowed c ids = Ok bytes) <-> NoDup ids /\ Forall (selectable allowed) ids) /\
  (forall bytes, pack_range allowed c ids = Ok bytes ->
     exists d, unpack_range allowed c' (bytes ++ rest) = Ok (d, rest) /\
       forall id, 0 <= id -> param d id = if bool_decide (id ∈ ids) then param c id else param c' id).
Proof.
  intros Hc Hids.
  assert (forall bytes, pack_range allowed c ids = Ok bytes -> NoDup ids /\ Forall (selectable allowed) ids) as Hinv.
  { intros bytes (n & _ & (bs & Hbs & _)%bind_Ok)%bind_Ok.
    destruct (pack_entries_inv allowed c ids no_visited bs) as (? & ? & _); [done| |exact Hbs|done].
    apply (Forall_impl _ _ _ Hids). by intros ? [? _]. }
  split; [split; [by intros [bytes ?%Hinv]|]|].
  - intros [Hnd Hs]. destruct (range_lossless allowed c c' ids rest Hc Hnd Hs) as (b & Hb & _). by exists b.
  - intros bytes Hb. destruct (Hinv bytes Hb) as [Hnd Hs].
    destruct (range_lossless allowed c c' ids rest Hc Hnd Hs) as (b & Hb' & Hu).
    exists (take_params c ids c'). split; [congruence|]. intros id Hid. exact (take_params_param allowed c ids c' id Hs Hid).
Qed.

(** ** What validation promises *)

Record config_valid (c : chain_config) : Prop := {
  valid_net_pct : 10 <= target_block_net_usage_pct (base c) <= 10000;
  valid_cpu_pct : 10 <= target_block_cpu_usage_pct (base c) <= 10000;
  valid_net : base_per_transaction_net_usage (base c) + 10 * 1024 <= max_transaction_net_usage (base c)
              < max_block_net_usage (base c);
  valid_cpu : min_transaction_cpu_usage (base c) <= max_transaction_cpu_usage (base c) /\
              max_transaction_cpu_usage (base c) + min_transaction_cpu_usage (base c) < max_block_cpu_usage (base c);
  valid_discount : context_free_discount_net_usage_num (base c) <= context_free_discount_net_usage_den (base c) /\
                   0 < context_free_discount_net_usage_den (base c);
  valid_depth : 1 <= cfg_max_authority_depth (base c);
  valid_return : max_action_return_value_size c <= max_size_of_byte_arrays }.

Lemma config_v0_ranges c : config_v0_ok c ->
  is_u64 (max_block_net_usage c) /\ is_u32 (target_block_net_usage_pct c) /\ is_u32 (max_transaction_net_usage c) /\
  is_u32 (base_per_transaction_net_usage c) /\ is_u32 (max_block_cpu_usage c) /\
  is_u32 (target_block_cpu_usage_pct c) /\ is_u32 (max_transaction_cpu_usage c) /\
  is_u32 (min_transaction_cpu_usage c).
Proof.
  intros H. unfold config_v0_ok, v0_widths, v0_members in H. cbn [replicate app] in H.
  repeat (apply Forall2_cons in H as [? H]). by split_and!.
Qed.

(** The subtractions of unsigned numbers in the checks do not wrap where it matters. *)
Lemma config_validate_valid c : config_ok c -> config_validate c = Ok tt <-> config_valid c.
Proof.
  intros [(? & ? & Hm & Hb & Hc & ? & Ht & Hmin)%config_v0_ranges Hr]. unfold is_u32, is_u64 in *.
  unfold config_validate, v0_validate, config.percent_100, config.percent_1,
    config.min_net_usage_delta_between_base_and_max_for_trx. change (100 / 10) with 10. split.
  - intros HV. inv_res. bool_to_Z. rewrite !u32_small in * by lia. split; lia.
  - intros []. rewrite !u32_small by lia. rewrite !bind_assert; try (apply Z.leb_le || apply Z.ltb_lt; lia).
    cbn. by rewrite !(proj2 (Z.leb_le _ _)) by lia.
Qed.

(** ** Equality *)

Definition set_min_transaction_cpu_usage (c : chain_config_v0) (m : Z) : chain_config_v0 :=
  v0_of_members (<[10%nat := m]> (v0_members c)).

(** [operator==] on configurations does not look at the minimum CPU usage of a
    transaction: it holds exactly between configurations that agree in every other
    parameter. *)
Theorem config_eq_ignores_min_cpu l r :
  v0_eqb l r = true <-> r = set_min_transaction_cpu_usage l (min_transaction_cpu_usage r).
Proof.
  split.
  - unfold v0_eqb. rewrite !andb_true_iff, !Z.eqb_eq. intros H. destruct l, r. cbn in *. decompose [and] H. by subst.
  - intros ->. unfold v0_eqb. destruct l. cbn. by rewrite !Z.eqb_refl.
Qed.

(** ** An example *)

Module ChainConfigExample.
Definition c1 : chain_config :=
  mk_chain_config (mk_chain_config_v0 1048576 1000 524288 12 500 20 100 200000 1000 150000 100 3600 600 3888000 524288 4 6) 256.
Definition c2 : chain_config := of_params (seqZ 1 18).

Lemma c1_ok : config_ok c1.
Proof.
  split; [|vm_compute; split; congruence]. unfold config_v0_ok. cbn.
  repeat (apply Forall2_cons; split; [vm_compute; split; congruence|]). by apply Forall2_nil.
Qed.

Definition bytes : list Z := match pack_range (fun _ => true) c1 [15; 0; 17] with Ok b => b | _ => [] end.

Lemma config_selection_roundtrip_witness :
  pack_range (fun _ => true) c1 [15; 0; 17] = Ok bytes /\
  exists d, unpack_range (fun _ => true) c2 bytes = Ok (d, []) /\ param d 15 = 4 /\ param d 17 = 256 /\ param d 16 = 17.
Proof.
  assert (pack_range (fun _ => true) c1 [15; 0; 17] = Ok bytes) as Hb by (vm_compute; reflexivity).
  split; [exact Hb|].
  destruct (config_selection_roundtrip (fun _ => true) c1 c2 [15; 0; 17] [] c1_ok) as [_ H];
    [repeat constructor; unfold is_u32; lia|].
  destruct (H bytes Hb) as (d & Hd & Hp). exists d. rewrite app_nil_r in Hd.
  split; [exact Hd|]. rewrite !Hp by lia. vm_compute. done.
Defined.
End ChainConfigExample.
