(* ===== verification/Genesis.v ===== *)
(** * The genesis state ([genesis_state.hpp], [genesis_state.cpp])

    The configuration, time and key a chain starts from, and the chain id, the hash
    of their packed form.  [sha256] is a parameter. *)

From S2P Require Import Prelude Exceptions Types Authority Packing ChainPacking Transactions ChainConfig.

Record genesis_state := mk_genesis {
  initial_timestamp : Z;
  initial_key : public_key;
  initial_configuration : chain_config_v0 }.

(** The member initialisers, from the defaults of [config.hpp]. *)
Definition default_initial_configuration : chain_config_v0 :=
  mk_chain_config_v0 (1024 * 1024) (10 * config.percent_1) (1024 * 1024 / 2) 12 500 20 100
    200000 (10 * config.percent_1) (3 * 200000 / 4) 100
    (60 * 60) (10 * 60) (45 * 24 * 3600) (512 * 1024) 4 6.
Definition default_initial_wasm_configuration : wasm_config :=
  mk_wasm_config 1024 1024 8192 (64 * 1024) 8192 1024 8192 (20 * 1024 * 1024) (20 * 1024 * 1024) 528 251.
Definition default_max_action_return_value_size : Z := 256.

(** [operator==] *)
Definition genesis_eqb (l r : genesis_state) : bool :=
  v0_eqb (initial_configuration l) (initial_configuration r)
  && (initial_timestamp l =? initial_timestamp r) && bool_decide (initial_key l = initial_key r).

Definition p_genesis : packer genesis_state :=
  p_reflect (fun g => (initial_timestamp g, (initial_key g, initial_configuration g)))
    (fun '(t, (k, c)) => mk_genesis t k c) no_init (p_pair (p_int 8) (p_pair p_public_key p_config_v0)).

Definition genesis_ok (g : genesis_state) : Prop :=
  is_i64 (initial_timestamp g) /\ key_ok (initial_key g) /\ config_v0_ok (initial_configuration g).

#[export] Instance genesis_lossless : Lossless p_genesis genesis_ok.
Proof.
  eapply reflect_lossless; [apply (pair_lossless _ _ is_i64); [apply (int_lossless 7)|typeclasses eauto]|].
  by intros [] (? & ? & ?).
Qed.

Section genesis.
Context `{TransactionLibs}.

(** [genesis_state::compute_chain_id] *)
Definition compute_chain_id (g : genesis_state) : res digest := b ← pack p_genesis g; Ok (sha256 b).

(** Two genesis states have the same chain id exactly when they are the same, as
    long as the hash tells their packed forms apart; [operator==] calls more states
    the same, so states it accepts as equal can belong to different chains. *)
Theorem chain_id_identifies_genesis g g' b b' :
  genesis_ok g -> genesis_ok g' -> pack p_genesis g = Ok b -> pack p_genesis g' = Ok b' -> hash_separates [b; b'] ->
  (compute_chain_id g = compute_chain_id g' <-> g = g') /\
  (genesis_eqb g g' = true -> compute_chain_id g = compute_chain_id g' <->
     min_transaction_cpu_usage (initial_configuration g) = min_transaction_cpu_usage (initial_configuration g')).
Proof.
  intros Hg Hg' Hb Hb' Hs.
  assert (compute_chain_id g = compute_chain_id g' <-> g = g') as Hiff.
  { unfold compute_chain_id. rewrite Hb, Hb'. cbn [mbind result_bind]. split; [intros E|by intros ->; congruence].
    assert (b = b') as <- by (apply (hash_separates_eq b b' []); [done|congruence]).
    by destruct (pack_prefix_inj p_genesis genesis_ok g g' b b [] [] Hg Hg' Hb Hb' eq_refl). }
  split; [exact Hiff|]. intros He. rewrite Hiff. split; [by intros ->|].
  unfold genesis_eqb in He. rewrite !andb_true_iff, Z.eqb_eq, bool_decide_eq_true in He.
  destruct He as [[Hc Ht] Hk], g as [t k c], g' as [t' k' c']. cbn in *. subst. intros Hm. f_equal.
  unfold v0_eqb in Hc. rewrite !andb_true_iff, !Z.eqb_eq in Hc. destruct c, c'. cbn in *. decompose [and] Hc. by subst.
Qed.
End genesis.

(** The configuration a chain starts with passes its own validation. *)
Lemma default_configuration_valid :
  config_validate (mk_chain_config default_initial_configuration default_max_action_return_value_size) = Ok tt /\
  wasm_validate default_initial_wasm_configuration = Ok tt.
Proof. split; vm_compute; reflexivity. Qed.

Lemma default_configuration_ok :
  config_ok (mk_chain_config default_initial_configuration default_max_action_return_value_size) /\
  wasm_config_ok default_initial_wasm_configuration.
Proof.
  unfold config_ok, config_v0_ok, wasm_config_ok. cbn.
  split; [split|]; try (repeat (apply Forall2_cons; split; [vm_compute; split; congruence|]); by apply Forall2_nil).
  vm_compute; split; congruence.
Qed.

Module GenesisExample.
Import TransactionsExample.
Definition g1 : genesis_state := mk_genesis 1527854400000000 (mk_public_key 0 (replicate 33 2)) default_initial_configuration.
Definition g2 : genesis_state :=
  mk_genesis 1527854400000000 (mk_public_key 0 (replicate 33 2)) (set_min_transaction_cpu_usage default_initial_configuration 99).
Definition bytes1 : list Z := Eval vm_compute in get (pack p_genesis g1) [].
Definition bytes2 : list Z := Eval vm_compute in get (pack p_genesis g2) [].

Lemma chain_id_identifies_genesis_witness :
  genesis_eqb g1 g2 = true /\ compute_chain_id g1 <> compute_chain_id g2.
Proof.
  split; [vm_compute; reflexivity|].
  assert (genesis_ok g1 /\ genesis_ok g2) as [H1 H2].
  { unfold genesis_ok, config_v0_ok, key_ok. cbn.
    split_and!; try lia; try done; try (unfold is_i64; lia);
      repeat (apply Forall2_cons; split; [vm_compute; split; congruence|]); by apply Forall2_nil. }
  destruct (chain_id_identifies_genesis g1 g2 bytes1 bytes2 H1 H2) as [Hiff _];
    [vm_compute; reflexivity..| |rewrite Hiff; intros E; discriminate E].
  apply (hash_separates_sub _ [bytes1; bytes1; bytes2; bytes2]).
  - intros x [-> | [-> | []%elem_of_nil]%elem_of_cons]%elem_of_cons; [by left|by right; right; left].
  - apply separates_two; [intros E; vm_compute in E; discriminate|..];
      (split; [repeat split; vm_compute; discriminate || reflexivity|intros E; vm_compute in E; discriminate]).
Defined.
End GenesisExample.
