(* ===== verification/Privileged.v ===== *)
(** * Privileged intrinsics ([privileged.cpp], [controller::set_proposed_producers])

    What a privileged contract may change: the chain and wasm configuration, the
    proposed producer schedule, the resource limits of accounts and the privileged
    flag.  The state is the global property object, the resource limits and the
    account metadata.  [key_valid] is the check of the cryptographic library. *)

From S2P Require Import Prelude Exceptions Types Chainbase Accumulators ResourceLimits Authority ProducerSchedule.
From S2P Require Import BlockHeaderState ActionExecution Packing ChainPacking Transactions ChainConfig.

#[global] Instance key_weight_eq_dec : EqDecision key_weight.
Proof. solve_decision. Defined.
#[global] Instance bsa_eq_dec : EqDecision block_signing_authority.
Proof. solve_decision. Defined.
#[global] Instance producer_authority_eq_dec : EqDecision producer_authority.
Proof. solve_decision. Defined.

(** [global_property_object]: the members these operations use *)
Record global_properties := mk_gpo {
  proposed_schedule_block_num : option Z;
  proposed_schedule : producer_authority_schedule;
  configuration : chain_config;
  wasm_configuration : wasm_config }.

Definition set_configuration (c : chain_config) (g : global_properties) : global_properties :=
  mk_gpo (proposed_schedule_block_num g) (proposed_schedule g) c (wasm_configuration g).
Definition set_wasm_configuration (c : wasm_config) (g : global_properties) : global_properties :=
  mk_gpo (proposed_schedule_block_num g) (proposed_schedule g) (configuration g) c.
Definition set_proposal (n : option Z) (s : producer_authority_schedule) (g : global_properties) : global_properties :=
  mk_gpo n s (configuration g) (wasm_configuration g).

(** What the intrinsics read of the transaction and of the controller. *)
Record priv_env := mk_priv_env {
  pe_read_only : bool;
  pe_head_block_num : Z;
  pe_active_producers : producer_authority_schedule;
  pe_pending_producers : producer_authority_schedule;
  pe_disallow_empty_schedule : bool;
  pe_action_return_value : bool;
  pe_num_supported_key_types : Z;
  pe_is_account : Z -> bool;
  pe_key_valid : public_key -> bool }.

Definition not_read_only (e : priv_env) : res unit := sys_assert (negb (pe_read_only e)) wasm_execution_error.

(** ** Producer schedules *)

(** [controller::set_proposed_producers]; a result of -1 means nothing was proposed. *)
Definition controller_set_proposed (e : priv_env) (ps : list producer_authority) (g : global_properties)
  : Z * global_properties :=
  let cur_block_num := u32 (pe_head_block_num e + 1) in
  if bool_decide (ps = []) && pe_disallow_empty_schedule e then (-1, g) else
  if match proposed_schedule_block_num g with
     | Some n => negb (n =? cur_block_num) || bool_decide (ps = producers (proposed_schedule g))
     | None => false
     end then (-1, g) else
  let previous := if bool_decide (producers (pe_pending_producers e) = [])
                  then pe_active_producers e else pe_pending_producers e in
  if bool_decide (ps = producers previous) then (-1, g) else
  let version := u32 (schedule_version previous + 1) in
  (version, set_proposal (Some cur_block_num) (mk_schedule version ps) g).

(** The loop over the keys of an authority: the saturating sum of the weights. *)
Definition check_signing_key (e : priv_env) (validate_keys : bool) (sum_weights : Z) (kw : key_weight) : res Z :=
  _ ← sys_assert (key_which (kw_key kw) <? pe_num_supported_key_types e) unactivated_key_type;
  _ ← (if validate_keys then sys_assert (pe_key_valid e (kw_key kw)) wasm_execution_error else Ok tt);
  Ok (if u32_max - sum_weights <=? kw_weight kw then u32_max else u32 (sum_weights + kw_weight kw)).

(** [std::set] keeps one of the keys that are equivalent in its order. *)
Definition unique_keys (kws : list key_weight) : list public_key :=
  foldl (fun acc kw => insert_unique key_less (kw_key kw) acc) [] kws.

Definition check_signing_authority (e : priv_env) (validate_keys : bool) (a : block_signing_authority) : res unit :=
  sum_weights ← foldM (check_signing_key e validate_keys) 0 (bsa_keys a);
  _ ← sys_assert (length (bsa_keys a) =? length (unique_keys (bsa_keys a)))%nat wasm_execution_error;
  _ ← sys_assert (0 <? bsa_threshold a) wasm_execution_error;
  sys_assert (bsa_threshold a <=? sum_weights) wasm_execution_error.

Definition set_proposed_producers_common (e : priv_env) (ps : list producer_authority) (validate_keys : bool)
    (g : global_properties) : res (Z * global_properties) :=
  _ ← sys_assert (Z.of_nat (length ps) <=? max_producers) wasm_execution_error;
  _ ← sys_assert (negb (bool_decide (ps = [])) || negb (pe_disallow_empty_schedule e)) wasm_execution_error;
  unique_producers ← foldM (fun (acc : gset Z) p =>
      _ ← sys_assert (pe_is_account e (producer_name p)) wasm_execution_error;
      _ ← check_signing_authority e validate_keys (pa_authority p);
      Ok ({[ producer_name p ]} ∪ acc)) ∅ ps;
  _ ← sys_assert (length ps =? size unique_producers)%nat wasm_execution_error;
  Ok (controller_set_proposed e ps g).

Definition set_proposed_producers (e : priv_env) (packed : list Z) (g : global_properties)
  : res (Z * global_properties) :=
  _ ← not_read_only e;
  '(old_version, _) ← unpack (p_vector p_legacy_key) packed;
  set_proposed_producers_common e (producers (from_legacy (mk_legacy_schedule 0 old_version))) true g.

Definition set_proposed_producers_ex (e : priv_env) (packed_producer_format : Z) (packed : list Z)
    (g : global_properties) : res (Z * global_properties) :=
  _ ← not_read_only e;
  if packed_producer_format =? 0 then set_proposed_producers e packed g
  else if packed_producer_format =? 1 then
    '(ps, _) ← unpack (p_vector p_producer) packed;
    set_proposed_producers_common e ps false g
  else Throw wasm_execution_error.

(** ** Configuration *)

Definition set_wasm_parameters_packed (e : priv_env) (packed : list Z) (g : global_properties)
  : res global_properties :=
  _ ← not_read_only e;
  '(version, s) ← unpack (p_uint 4) packed;
  _ ← sys_assert (version =? 0) wasm_config_unknown_version;
  '(cfg, _) ← unpack p_wasm_config s;
  _ ← wasm_validate cfg;
  Ok (set_wasm_configuration cfg g).

(** The assignment [gprops.configuration = cfg] of the base class keeps the
    member of the derived class. *)
Definition set_blockchain_parameters_packed (e : priv_env) (packed : list Z) (g : global_properties)
  : res global_properties :=
  _ ← not_read_only e;
  '(cfg, _) ← unpack p_config_v0 packed;
  _ ← v0_validate cfg;
  Ok (set_configuration (mk_chain_config cfg (max_action_return_value_size (configuration g))) g).

Definition set_parameters_packed (e : priv_env) (packed : list Z) (g : global_properties) : res global_properties :=
  _ ← not_read_only e;
  '(cfg, _) ← unpack_range (entry_allowed (pe_action_return_value e)) (configuration g) packed;
  _ ← config_validate cfg;
  Ok (set_configuration cfg g).

(** The getters answer the number of bytes they need and what they write to a buffer
    of [size] bytes, if anything. *)
Definition get_wasm_parameters_packed (size max_version : Z) (g : global_properties) : res (Z * option (list Z)) :=
  let version := Z.min max_version 0 in
  v ← pack (p_uint 4) version;
  params ← pack p_wasm_config (wasm_configuration g);
  let s := Z.of_nat (length (v ++ params)) in
  if size =? 0 then Ok (s, None)
  else Ok (s, if s <=? size then Some (v ++ params) else None).

Definition get_blockchain_parameters_packed (size : Z) (g : global_properties) : res (Z * option (list Z)) :=
  b ← pack p_config_v0 (base (configuration g));
  let s := Z.of_nat (length b) in
  if size =? 0 then Ok (s, None)
  else if s <=? size then Ok (s, Some b) else Ok (0, None).

Definition get_parameters_packed (e : priv_env) (packed_ids : list Z) (size : Z) (g : global_properties)
  : res (Z * option (list Z)) :=
  '(ids, _) ← unpack (p_vector p_unsigned_int) packed_ids;
  b ← pack_range (entry_allowed (pe_action_return_value e)) (configuration g) ids;
  let s := Z.of_nat (length b) in
  if size =? 0 then Ok (s, None)
  else _ ← sys_assert (s <=? size) config_parse_error; Ok (s, Some b).

(** ** Accounts *)
Section accounts.
Context {LT UT AT : Type}.
Context `{!ChainIndex (bool * Z) resource_limits_object LT} `{!ChainIndex Z resource_usage_object UT}.
Context `{!ChainIndex Z account_metadata_object AT}.

(** [set_resource_limits]; the set collects the accounts whose RAM is checked at the
    end of the transaction. *)
Definition set_resource_limits (e : priv_env) (account ram_bytes net_weight cpu_weight : Z)
    (rl : rl_db LT UT) (validate_ram_usage : gset Z) : res (rl_db LT UT * gset Z) :=
  _ ← not_read_only e;
  _ ← sys_assert (-1 <=? ram_bytes) wasm_execution_error;
  _ ← sys_assert (-1 <=? net_weight) wasm_execution_error;
  _ ← sys_assert (-1 <=? cpu_weight) wasm_execution_error;
  '(decreased, rl) ← set_account_limits account ram_bytes net_weight cpu_weight rl;
  Ok (rl, if decreased : bool then {[ account ]} ∪ validate_ram_usage else validate_ram_usage).

Definition intrinsic_is_privileged (n : Z) (t : AT) : res bool :=
  a ← db_get n t; Ok (is_privileged a).

(** [account_metadata_object::set_privileged] *)
Definition set_privileged_flag (b : bool) (a : account_metadata_object) : account_metadata_object :=
  mk_amo (recv_sequence a) (auth_sequence a) (code_sequence a) (abi_sequence a) (code_hash a) (last_code_update a)
    (if b then Z.setbit (amo_flags a) 0 else Z.clearbit (amo_flags a) 0) (vm_type a) (vm_version a).

Definition intrinsic_set_privileged (e : priv_env) (n : Z) (b : bool) (t : AT) : res AT :=
  _ ← not_read_only e;
  _ ← db_get n t;
  Ok (idx_modify n (set_privileged_flag b) t).
End accounts.

(** ** The limits of a block *)

(** The parameters [finalize_block] derives from the configuration *)
Definition block_cpu_parameters (c : chain_config_v0) : elastic_limit_parameters :=
  mk_elp (SYS_PERCENT (max_block_cpu_usage c) (target_block_cpu_usage_pct c)) (max_block_cpu_usage c)
    (60 * 1000 / 500) maximum_elastic_resource_multiplier (make_ratio 99 100) (make_ratio 1000 999).
Definition block_net_parameters (c : chain_config_v0) : elastic_limit_parameters :=
  mk_elp (SYS_PERCENT (max_block_net_usage c) (target_block_net_usage_pct c)) (max_block_net_usage c)
    (60 * 1000 / 500) maximum_elastic_resource_multiplier (make_ratio 99 100) (make_ratio 1000 999).

(** ** Keys of a signing authority *)

Notation sorted_keys := (StronglySorted (fun x y => key_less x y = true)).

Lemma insert_key_present k ks : sorted_keys ks -> k ∈ ks -> insert_unique key_less k ks = ks.
Proof.
  induction 1 as [|y ys Hs IH Hy]; cbn; [by intros ?%elem_of_nil|]. intros [->|Hin]%elem_of_cons.
  - by rewrite key_less_irrefl.
  - rewrite Forall_forall in Hy. pose proof (Hy k Hin) as E. rewrite E.
    destruct (key_less k y) eqn:E2; [|by rewrite IH].
    pose proof (key_less_trans _ _ _ E E2) as E3. by rewrite key_less_irrefl in E3.
Qed.

Lemma insert_key_sorted k ks : sorted_keys ks ->
  sorted_keys (insert_unique key_less k ks) /\ (length (insert_unique key_less k ks) <= S (length ks))%nat /\
  (length (insert_unique key_less k ks) = S (length ks) -> k ∉ ks).
Proof.
  intros Hs. destruct (decide (k ∈ ks)) as [Hin|Hn].
  - rewrite (insert_key_present k ks Hs Hin). split_and!; [done|lia|lia].
  - destruct (insert_key k ks Hs Hn) as [Hp%Permutation_length Hs']. cbn in Hp. split_and!; [done|lia|done].
Qed.

Lemma unique_keys_NoDup kws : length (unique_keys kws) = length kws -> NoDup (kw_key <$> kws).
Proof.
  unfold unique_keys.
  assert (forall acc, sorted_keys acc ->
    (length (foldl (fun acc kw => insert_unique key_less (kw_key kw) acc) acc kws) <= length kws + length acc)%nat /\
    (length (foldl (fun acc kw => insert_unique key_less (kw_key kw) acc) acc kws) = (length kws + length acc)%nat ->
     NoDup (kw_key <$> kws) /\ forall k, k ∈ kw_key <$> kws -> k ∉ acc)) as H.
  { induction kws as [|kw kws IH]; intros acc Hacc; cbn.
    { split; [lia|]. intros _. split; [constructor|]. by intros k ?%elem_of_nil. }
    destruct (insert_key_sorted (kw_key kw) acc Hacc) as (Hs & Hl & Hn). destruct (IH _ Hs) as [IH1 IH2].
    split; [lia|]. intros E. destruct IH2 as [Hnd Hdis]; [lia|].
    assert (kw_key kw ∉ acc) as Hna by (apply Hn; lia).
    destruct (insert_key (kw_key kw) acc Hacc Hna) as [Hp _]. setoid_rewrite Hp in Hdis.
    split; [constructor; [|done]|].
    - intros Hin. apply (Hdis _ Hin). by left.
    - intros k [->|Hin]%elem_of_cons; [done|]. intros Hka. apply (Hdis _ Hin). by right. }
  intros E. apply (H [] ltac:(constructor)). cbn. lia.
Qed.

(** ** Schedules that can be proposed *)

Definition signing_range (a : block_signing_authority) : Prop :=
  is_u32 (bsa_threshold a) /\ Forall (fun k => is_u16 (kw_weight k)) (bsa_keys a).

Record signing_wf (a : block_signing_authority) : Prop := {
  sw_range : signing_range a;
  sw_threshold : 0 < bsa_threshold a;
  sw_keys : NoDup (kw_key <$> bsa_keys a);
  sw_satisfiable : bsa_threshold a <= sum_by kw_weight (bsa_keys a) }.

Record producers_wf (ps : list producer_authority) : Prop := {
  pw_ok : Forall producer_ok ps;
  pw_count : Z.of_nat (length ps) <= max_producers;
  pw_names : NoDup (producer_name <$> ps);
  pw_signing : Forall (fun p => signing_wf (pa_authority p)) ps }.

Lemma check_signing_keys_sum e v kws : Forall (fun k => is_u16 (kw_weight k)) kws -> forall w s,
  0 <= w <= u32_max -> foldM (check_signing_key e v) w kws = Ok s -> s <= w + sum_by kw_weight kws.
Proof.
  unfold sum_by, u32_max, is_u16. induction 1 as [|k kws Hk _ IH]; intros w s Hw; cbn [foldM foldr].
  - intros [= <-]. lia.
  - intros (w' & (u & _ & (u' & _ & [= <-])%bind_Ok)%bind_Ok & Hf)%bind_Ok. unfold u32_max in Hf.
    destruct (Z.leb_spec (2 ^ 32 - 1 - w) (kw_weight k)); [|rewrite u32_small in Hf by lia]; apply IH in Hf; lia.
Qed.

Lemma check_signing_authority_wf e v a : signing_range a -> check_signing_authority e v a = Ok tt -> signing_wf a.
Proof.
  intros [Ht Hw] (s & Hs & (u & Hl%sys_assert_Ok & (u' & H0%sys_assert_Ok & Hsum%sys_assert_Ok)%bind_Ok)%bind_Ok)%bind_Ok.
  apply (check_signing_keys_sum _ _ _ Hw) in Hs; [|unfold u32_max; lia]. apply Nat.eqb_eq in Hl. bool_to_Z.
  split; [done|lia|by apply unique_keys_NoDup|lia].
Qed.

(** All keys of such an authority together sign a block. *)
Lemma signing_wf_satisfied a : signing_wf a ->
  keys_satisfy_and_relevant (kw_key <$> bsa_keys a) a = (true, Z.of_nat (length (bsa_keys a))).
Proof.
  intros [[Ht Hw] _ _ Hs]. rewrite keys_satisfy_aux by done.
  assert (forall l, l ⊆ bsa_keys a ->
    presented_weight (kw_key <$> bsa_keys a) l = sum_by kw_weight l /\
    presented_count (kw_key <$> bsa_keys a) l = Z.of_nat (length l)) as H.
  { unfold presented_weight, presented_count, sum_by. induction l as [|k l IH]; intros Hl; [done|]. cbn [foldr].
    destruct IH as [IH1 IH2]; [intros x Hx; apply Hl; by right|].
    rewrite bool_decide_eq_true_2 by (apply list_elem_of_fmap_2, Hl; left). cbn [length]. lia. }
  destruct (H (bsa_keys a)) as [-> ->]; [done|]. f_equal. by apply Z.leb_le.
Qed.

Lemma proposed_names e v ps : forall (acc s : gset Z),
  foldM (fun (acc : gset Z) p =>
      _ ← sys_assert (pe_is_account e (producer_name p)) wasm_execution_error;
      _ ← check_signing_authority e v (pa_authority p);
      Ok ({[ producer_name p ]} ∪ acc)) acc ps = Ok s ->
  Forall (fun p => check_signing_authority e v (pa_authority p) = Ok tt) ps /\
  s = list_to_set (producer_name <$> ps) ∪ acc.
Proof.
  induction ps as [|p ps IH]; intros acc s; cbn [foldM].
  - intros [= <-]. split; [constructor|set_solver].
  - intros (s1 & (u & _ & ([] & Hc & [= <-])%bind_Ok)%bind_Ok & Hf)%bind_Ok.
    apply IH in Hf as [Hall ->]. split; [by constructor|set_solver].
Qed.

Lemma size_list_to_set_NoDup (l : list Z) : size (list_to_set l : gset Z) = length l -> NoDup l.
Proof.
  induction l as [|x l IH]; [constructor|]. cbn [list_to_set length]. intros E.
  pose proof (size_union_alt ({[ x ]} : gset Z) (list_to_set l)) as Hu. rewrite size_singleton in Hu.
  assert (forall l : list Z, (size (list_to_set l : gset Z) <= length l)%nat) as Hle.
  { clear. induction l as [|y l IH]; [cbn; rewrite size_empty; lia|]. cbn [list_to_set length].
    pose proof (size_union_alt ({[ y ]} : gset Z) (list_to_set l)) as Hu. rewrite size_singleton in Hu.
    pose proof (subseteq_size (list_to_set l ∖ {[y]}) (list_to_set l : gset Z) ltac:(set_solver)). lia. }
  pose proof (Hle l). destruct (decide (x ∈ l)) as [Hin|Hn].
  - replace ({[ x ]} ∪ list_to_set l : gset Z) with (list_to_set l : gset Z) in E by set_solver. lia.
  - pose proof (subseteq_size (list_to_set l ∖ {[x]}) (list_to_set l : gset Z) ltac:(set_solver)).
    constructor; [done|]. apply IH. lia.
Qed.

Lemma producer_ok_range p : producer_ok p -> signing_range (pa_authority p).
Proof. intros (_ & Ht & Hk & _). split; [done|]. apply (Forall_impl _ _ _ Hk). by intros k [_ ?]. Qed.

Lemma set_proposed_common_wf e v ps g r : Forall producer_ok ps ->
  set_proposed_producers_common e ps v g = Ok r -> producers_wf ps /\ r = controller_set_proposed e ps g.
Proof.
  intros Hr. unfold set_proposed_producers_common.
  intros (u & Hmax%sys_assert_Ok & (u' & _ & (s & Hf & (u'' & Hn%sys_assert_Ok & [= <-])%bind_Ok)%bind_Ok)%bind_Ok)%bind_Ok.
  apply proposed_names in Hf as [Hc ->]. apply Nat.eqb_eq in Hn. rewrite union_empty_r_L in Hn.
  split; [|done]. split.
  - done.
  - by apply Z.leb_le.
  - apply size_list_to_set_NoDup. by rewrite length_fmap.
  - rewrite Forall_forall in *. intros p Hp. exact (check_signing_authority_wf e v _ (producer_ok_range p (Hr p Hp)) (Hc p Hp)).
Qed.

(** ** The global properties stay valid *)

#[export] Instance unsigned_int_yields : Yields p_unsigned_int is_u32.
Proof.
  intros s x rest. cbn [unpack p_unsigned_int]. generalize 0 at 1 as v. generalize 0 as by_.
  induction s as [|b s IH]; intros by_ v; cbn [unpack_unsigned_loop]; [done|].
  destruct (_ && _); [apply IH|]. intros [= <- _]. apply u32_range.
Qed.

Lemma legacy_producers_ok l : Forall legacy_key_ok (legacy_producers l) -> Forall producer_ok (producers (from_legacy l)).
Proof.
  intros H. cbn. apply Forall_map. apply (Forall_impl _ _ _ H). intros p [Hn Hk].
  split; [exact Hn|]. split; [cbn; unfold is_u32; lia|]. cbn. split; [|unfold max_num_array_elements; cbn; lia].
  constructor; [|constructor]. split; [exact Hk|]. cbn. unfold is_u16. lia.
Qed.

Lemma unpack_entry_ok allowed c id s d rest : config_ok c -> 0 <= id < v1_params_count ->
  unpack_entry allowed c id s = Ok (d, rest) -> config_ok d.
Proof.
  intros Hc Hid Hu. assert (allowed id = true) as Ha.
  { unfold unpack_entry in Hu. by apply bind_Ok in Hu as ([] & Ha%sys_assert_Ok & _). }
  destruct (param_width c id Hc Hid) as (w & Hw & _). rewrite (unpack_entry_param allowed c id w s Ha Hid Hw) in Hu.
  apply bind_Ok in Hu as ([x s'] & Hx & [= <- <-]). apply config_ok_params in Hc. apply config_ok_params.
  rewrite config_params_set. pose proof (uint_yields w _ _ _ Hx) as Hr.
  rewrite <- (list_insert_id config_widths (Z.to_nat id) w Hw). by apply Forall2_insert.
Qed.

Lemma unpack_entries_ok allowed n : forall c visited s d rest, length visited = 18%nat -> config_ok c ->
  unpack_entries allowed n c visited s = Ok (d, rest) -> config_ok d.
Proof.
  induction n as [|n IH]; intros c visited s d rest Hv Hc; cbn [unpack_entries]; [by intros [= <- _]|].
  intros ([id s1] & Hid & (v' & (Hlt & _ & ->)%visit_Ok & ([c1 s2] & Hu & Hr)%bind_Ok)%bind_Ok)%bind_Ok.
  pose proof (unsigned_int_yields _ _ _ Hid) as [Hid0 _].
  assert (0 <= id < v1_params_count) as Hr' by (unfold v1_params_count; lia).
  apply (IH _ _ _ _ _ (eq_trans (length_insert _ _ _) Hv) (unpack_entry_ok _ _ _ _ _ _ Hc Hr' Hu) Hr).
Qed.

Lemma wasm_validate_bounds c : wasm_validate c = Ok tt ->
  4 <= max_section_elements c /\ 8 <= max_func_local_bytes c /\ 1 <= max_nested_structures c /\
  32 <= max_symbol_bytes c /\ 256 <= max_module_bytes c /\ 32 <= max_code_bytes c /\ 1 <= max_pages c /\
  2 <= max_call_depth c.
Proof. unfold wasm_validate. intros H. inv_res. bool_to_Z. lia. Qed.

Record gpo_wf (g : global_properties) : Prop := {
  gw_proposed : producers_wf (producers (proposed_schedule g));
  gw_config_ok : config_ok (configuration g);
  gw_config : config_valid (configuration g);
  gw_wasm_ok : wasm_config_ok (wasm_configuration g);
  gw_wasm : wasm_validate (wasm_configuration g) = Ok tt }.

(** The intrinsics that change the global properties *)
Inductive gpo_step : global_properties -> global_properties -> Prop :=
| step_set_proposed_producers e b g v g' : set_proposed_producers e b g = Ok (v, g') -> gpo_step g g'
| step_set_proposed_producers_ex e f b g v g' : set_proposed_producers_ex e f b g = Ok (v, g') -> gpo_step g g'
| step_set_wasm_parameters e b g g' : set_wasm_parameters_packed e b g = Ok g' -> gpo_step g g'
| step_set_blockchain_parameters e b g g' : set_blockchain_parameters_packed e b g = Ok g' -> gpo_step g g'
| step_set_parameters e b g g' : set_parameters_packed e b g = Ok g' -> gpo_step g g'.

Lemma controller_set_proposed_wf e ps g : producers_wf ps -> gpo_wf g -> gpo_wf (controller_set_proposed e ps g).2.
Proof.
  intros Hps Hg. unfold controller_set_proposed. destruct (_ && _); [done|].
  destruct (match proposed_schedule_block_num g with Some _ => _ | None => _ end); [done|].
  case_bool_decide; [done|]. destruct Hg. by split.
Qed.

Lemma set_proposed_producers_inv e b g r : set_proposed_producers e b g = Ok r ->
  exists ps, producers_wf ps /\ r = controller_set_proposed e ps g.
Proof.
  intros (u & _ & ([l s] & Hu & Hc)%bind_Ok)%bind_Ok. eexists.
  apply (set_proposed_common_wf e true _ g r); [|exact Hc].
  apply legacy_producers_ok. exact (vector_yields_all _ _ legacy_key_yields _ _ _ Hu).
Qed.

Lemma set_proposed_producers_ex_inv e f b g r : set_proposed_producers_ex e f b g = Ok r ->
  exists ps, producers_wf ps /\ r = controller_set_proposed e ps g.
Proof.
  intros (u & _ & Hc)%bind_Ok. destruct (f =? 0); [exact (set_proposed_producers_inv _ _ _ _ Hc)|].
  destruct (f =? 1); [|done]. apply bind_Ok in Hc as ([ps s] & Hu & Hc). exists ps.
  apply (set_proposed_common_wf e false ps g r); [|exact Hc]. exact (vector_yields_all _ _ producer_yields _ _ _ Hu).
Qed.

Lemma gpo_step_wf g g' : gpo_step g g' -> gpo_wf g -> gpo_wf g'.
Proof.
  intros Hst Hg. destruct Hst as [e b g v g' H|e f b g v g' H|e b g g' H|e b g g' H|e b g g' H].
  - destruct (set_proposed_producers_inv _ _ _ _ H) as (ps & Hps & E). change g' with (v, g').2. rewrite E.
    by apply controller_set_proposed_wf.
  - destruct (set_proposed_producers_ex_inv _ _ _ _ _ H) as (ps & Hps & E). change g' with (v, g').2. rewrite E.
    by apply controller_set_proposed_wf.
  - apply bind_Ok in H as (u & _ & ([n s] & _ & (u' & _ & ([c r] & Hu & ([] & Hv & [= <-])%bind_Ok)%bind_Ok)%bind_Ok)%bind_Ok).
    destruct Hg. split; try done. exact (wasm_config_yields _ _ _ Hu).
  - apply bind_Ok in H as (u & _ & ([c r] & Hu & ([] & Hv & [= <-])%bind_Ok)%bind_Ok).
    destruct Hg as [? [Hb Hm] Hc ? ?]. assert (config_ok (mk_chain_config c (max_action_return_value_size (configuration g)))) as Hok
      by (split; [exact (config_v0_yields _ _ _ Hu)|done]).
    split; try done. apply config_validate_valid; [done|]. unfold config_validate. cbn -[v0_validate]. rewrite Hv.
    cbn [mbind result_bind].
    apply sys_assert_Ok, Z.leb_le. apply Hc.
  - apply bind_Ok in H as (u & _ & ([c r] & Hu & ([] & Hv & [= <-])%bind_Ok)%bind_Ok).
    destruct Hg as [? Hok Hc ? ?]. apply bind_Ok in Hu as ([n s] & _ & Hu).
    pose proof (unpack_entries_ok _ _ _ no_visited _ _ _ eq_refl Hok Hu) as Hok'.
    split; try done. by apply config_validate_valid.
Qed.

Definition initial_gpo (c : chain_config_v0) (w : wasm_config) : global_properties :=
  mk_gpo None empty_schedule (mk_chain_config c 256) w.

(** C21: Starting from a valid genesis configuration, whatever privileged contracts call,
    the configuration stays within its types and valid, so do the wasm limits, and the
    proposed schedule has at most 125 distinct producers, each with distinct keys that
    together reach the threshold and sign for it. *)
Theorem gpo_reachable_wf c w g :
  config_v0_ok c -> v0_validate c = Ok tt -> wasm_config_ok w -> wasm_validate w = Ok tt ->
  rtc gpo_step (initial_gpo c w) g ->
  gpo_wf g /\
  (forall p, p ∈ producers (proposed_schedule g) ->
     keys_satisfy_and_relevant (kw_key <$> bsa_keys (pa_authority p)) (pa_authority p)
     = (true, Z.of_nat (length (bsa_keys (pa_authority p))))).
Proof.
  intros Hc Hv Hw Hwv Hr. assert (gpo_wf g) as Hg.
  { revert Hr. apply (rtc_ind_r (fun g => gpo_wf g)).
    - assert (config_ok (mk_chain_config c 256)) as Hok by (split; [done|unfold is_u32; cbn; lia]).
      split; try done; [by split; [constructor|vm_compute; congruence|constructor..]|].
      apply config_validate_valid; [done|]. unfold config_validate. cbn -[v0_validate]. by rewrite Hv.
    - intros x y _ Hst Hx. by eapply gpo_step_wf. }
  split; [exact Hg|]. intros p Hp. apply signing_wf_satisfied.
  pose proof (pw_signing _ (gw_proposed g Hg)) as Hs. rewrite Forall_forall in Hs. by apply Hs.
Qed.

(** ** Block limits *)

(** A valid configuration always gives block limits the resource limits manager
    accepts.  The CPU target is the configured percentage of the block maximum and does
    not exceed it; the NET target is too as long as the product fits in 64 bits, which
    no check ensures. *)
Theorem block_limits_from_config `{!ChainIndex (bool * Z) resource_limits_object LT}
    `{!ChainIndex Z resource_usage_object UT} (c : chain_config) (d : rl_db LT UT) :
  config_ok c -> config_valid c ->
  let cpu := block_cpu_parameters (base c) in
  let net := block_net_parameters (base c) in
  (exists d', set_block_parameters cpu net d = Ok d' /\
     cpu_limit_parameters (rl_config d') = cpu /\ net_limit_parameters (rl_config d') = net) /\
  elp_target cpu = max_block_cpu_usage (base c) * target_block_cpu_usage_pct (base c) / 10000 /\
  elp_target cpu <= elp_max cpu /\
  (max_block_net_usage (base c) * target_block_net_usage_pct (base c) < 2 ^ 64 ->
   elp_target net = max_block_net_usage (base c) * target_block_net_usage_pct (base c) / 10000 /\
   elp_target net <= elp_max net).
Proof.
  intros [(? & ? & ? & ? & ? & ? & ? & ?)%config_v0_ranges _] Hv cpu net. unfold is_u32, is_u64 in *.
  destruct Hv as [Hn Hc _ _ _ _ _]. split; [|split].
  - unfold set_block_parameters. change (elp_validate cpu) with (Ok tt : res unit).
    change (elp_validate net) with (Ok tt : res unit). cbn [mbind result_bind].
    destruct (decide _) as [[E1 E2]|_]; eexists; (split; [reflexivity|]); [by rewrite E1, E2|done].
  - cbn. unfold SYS_PERCENT. by rewrite u64_small by nia.
  - split; [cbn; unfold SYS_PERCENT; rewrite u64_small by nia; apply Z.div_le_upper_bound; nia|].
    intros Hlt. cbn. unfold SYS_PERCENT. rewrite u64_small by nia.
    split; [done|]. apply Z.div_le_upper_bound; nia.
Qed.

Module PrivilegedExample.
Definition genesis_config : chain_config_v0 :=
  mk_chain_config_v0 1048576 1000 524288 12 500 20 100 200000 1000 150000 100 3600 600 3888000 524288 4 6.
Definition genesis_wasm : wasm_config := mk_wasm_config 1024 1024 8192 65536 8192 1024 8192 20971520 20971520 528 251.

Ltac in_widths :=
  cbn; repeat (apply Forall2_cons; split; [vm_compute; split; congruence|]); by apply Forall2_nil.
Lemma genesis_config_ok : config_v0_ok genesis_config /\ wasm_config_ok genesis_wasm.
Proof. split; unfold config_v0_ok, wasm_config_ok; in_widths. Qed.

Definition key (x : Z) : public_key := mk_public_key 0 (replicate 33 x).
Definition schedule_a : list producer_authority :=
  [mk_producer_authority 5 (mk_bsa 2 [mk_kw (key 1) 1; mk_kw (key 2) 1]); mk_producer_authority 6 (mk_bsa 1 [mk_kw (key 3) 1])].
Definition env : priv_env :=
  mk_priv_env false 10 (mk_schedule 7 []) empty_schedule true false 2 (fun _ => true) (fun _ => true).
Definition packed : list Z := Eval vm_compute in match pack (p_vector p_producer) schedule_a with Ok b => b | _ => [] end.
Definition g1 : global_properties :=
  mk_gpo (Some 11) (mk_schedule 8 schedule_a) (mk_chain_config genesis_config 256) genesis_wasm.

Lemma proposed : set_proposed_producers_ex env 1 packed (initial_gpo genesis_config genesis_wasm) = Ok (8, g1).
Proof. vm_compute. reflexivity. Qed.

Lemma gpo_reachable_wf_witness :
  rtc gpo_step (initial_gpo genesis_config genesis_wasm) g1 /\ gpo_wf g1.
Proof.
  assert (rtc gpo_step (initial_gpo genesis_config genesis_wasm) g1) as Hr
    by (apply rtc_once; eapply step_set_proposed_producers_ex; exact proposed).
  split; [exact Hr|].
  destruct (gpo_reachable_wf genesis_config genesis_wasm g1) as [H _];
    [apply genesis_config_ok|vm_compute; reflexivity|apply genesis_config_ok|vm_compute; reflexivity|exact Hr|exact H].
Defined.

(** The largest valid block maxima overflow the product. *)
Definition wrapping : chain_config_v0 :=
  v0_of_members (<[0%nat := 2 ^ 63]> (<[1%nat := 10000]> (v0_members genesis_config))).

Lemma net_target_wraps :
  config_v0_ok wrapping /\ v0_validate wrapping = Ok tt /\ elp_target (block_net_parameters wrapping) = 0.
Proof. split; [unfold config_v0_ok; in_widths|]. split; vm_compute; reflexivity. Qed.

Definition small_config : chain_config := mk_chain_config genesis_config 256.
Lemma block_limits_from_config_witness :
  elp_target (block_net_parameters genesis_config) = 104857 /\
  exists d', set_block_parameters (block_cpu_parameters genesis_config) (block_net_parameters genesis_config)
    (initialize_database : rl_db (gmap (bool * Z) resource_limits_object) (gmap Z resource_usage_object)) = Ok d'.
Proof.
  assert (config_ok small_config) as Hok by (split; [apply genesis_config_ok|unfold is_u32; cbn; lia]).
  destruct (block_limits_from_config small_config
    (initialize_database : rl_db (gmap (bool * Z) resource_limits_object) (gmap Z resource_usage_object)))
    as ((d' & Hd & _) & _ & _ & Hnet); [exact Hok|apply config_validate_valid; [exact Hok|vm_compute; reflexivity]|].
  split; [|exists d'; exact Hd]. destruct Hnet as [E _]; [cbn; lia|]. exact E.
Defined.
End PrivilegedExample.
