(* ===== verification/Deferred.v ===== *)
(** * Deferred transactions ([apply_context::schedule_deferred_transaction])

    The host functions [send_deferred] and [cancel_deferred]: a contract stores a
    transaction that is executed later, and pays for its size.  The state is that of
    the native actions with the NET usage of the transaction and the RAM corrections
    that [replace_deferred] has not settled yet. *)

From S2P Require Import Prelude Exceptions Types Chainbase ObjectIndex IteratorCache Authority.
From S2P Require Import AuthorityChecker AuthorizationManager ResourceLimits AccessLists TransactionContext.
From S2P Require Import ContractTables ContractTableProps ContractTableTheorems ActionExecution.
From S2P Require Import NativeActions NativeCode NativeAccounts NativeActionProps.
From S2P Require Import Packing ChainPacking Transactions.

(** What scheduling reads of the running transaction and of the controller;
    [de_trx] is the environment of the transaction that sends. *)
Record deferred_env := mk_deferred_env {
  de_trx : trx_env;
  de_trx_id : digest;                          (* trx_context.packed_trx.id() *)
  de_head_block_id : digest;
  de_no_duplicate_deferred_id : bool;
  de_replace_deferred : bool;
  de_restrict_action_to_self : bool;
  de_skip_auth_check : bool;
  de_all_subjective_mitigations_disabled : bool;
  de_sender_bypass_whiteblacklist : list Z;
  de_base_per_transaction_net_usage : Z;
  de_deferred_trx_expiration_window : Z }.

(** The context of the sender, asked about another transaction. *)
Definition with_trx (t : transaction) (e : trx_env) : trx_env :=
  mk_trx_env t (te_type e) (te_start e) (te_leeway e) (te_max_transaction_time_subjective e)
    (te_subjective_cpu_bill_us e) (te_explicit_billed_cpu_time e) (te_enforce_whiteblacklist e) (te_cfg e)
    (te_pending_block_time e) (te_slot e) (te_skip_trx_checks e) (te_is_speculative_block e)
    (te_only_bill_first_authorizer e) (te_disable_deferred_trxs_stage_1 e) (te_greylist_limit e) (te_greylist e)
    (te_lists e).

(** [emplace_extension]: before the first extension with a larger id *)
Fixpoint emplace_extension (eid : Z) (data : list Z) (exts : list (Z * list Z)) : list (Z * list Z) :=
  match exts with
  | [] => [(eid, data)]
  | e :: exts' => if eid <? e.1 then (eid, data) :: exts else e :: emplace_extension eid data exts'
  end.

Definition set_header (expiration ref_block_num ref_block_prefix : Z) (exts : list (Z * list Z)) (t : transaction)
  : transaction :=
  mk_transaction expiration ref_block_num ref_block_prefix (t_max_net_usage_words t) (t_max_cpu_usage_ms t)
    (t_delay_sec t) (t_context_free_actions t) (t_actions t) exts.

(** The generation context a sent transaction carries must be that of its sender. *)
Definition check_generation_context (de : deferred_env) (c : context_info) (sender_id : Z)
    (exts : list (Z * deferred_context)) : res unit :=
  context ← of_option invalid_transaction_extension match exts with [(_, x)] => Some x | _ => None end;
  _ ← sys_assert (dc_sender context =? receiver c) ill_formed_deferred_transaction_generation_context;
  _ ← sys_assert (dc_sender_id context =? sender_id) ill_formed_deferred_transaction_generation_context;
  sys_assert (bool_decide (dc_sender_trx_id context = de_trx_id de)) ill_formed_deferred_transaction_generation_context.

(** What is stored in place of the transaction the contract has sent *)
Definition prepare_deferred (de : deferred_env) (c : context_info) (sender_id : Z) (trx : transaction) : res transaction :=
  if de_no_duplicate_deferred_id de then
    exts ← validate_and_extract_extensions trx;
    extensions ← (if bool_decide (exts = []) then
                    data ← pack p_deferred_context (mk_deferred_context (de_trx_id de) sender_id (receiver c));
                    Ok (emplace_extension 0 data (t_extensions trx))
                  else _ ← check_generation_context de c sender_id exts; Ok (t_extensions trx));
    Ok (set_header 0 0 0 extensions trx)
  else
    let expiration := u32 (Z.quot (te_pending_block_time (de_trx de) + 999999) 1000000) in
    Ok (set_reference_block (de_head_block_id de)
          (set_header expiration (t_ref_block_num trx) (t_ref_block_prefix trx) (t_extensions trx) trx)).

Definition is_sending_only_to_self (self : Z) (trx : transaction) : bool :=
  forallb (fun a => act_account a =? self) (t_actions trx).

(** The handlers of the authorization check *)
Definition deferred_auth_handler (de : deferred_env) (only_to_self : bool) (m : res unit) : res unit :=
  match m with
  | Ok _ => Ok tt
  | Throw undefined_behavior => Throw undefined_behavior
  | Throw fuel_exhausted => Throw fuel_exhausted
  | Throw e =>
    if de_restrict_action_to_self de || negb only_to_self then Throw e
    else if te_is_speculative_block (de_trx de) then Throw subjective_block_production_exception
    else Ok tt
  end.

(** [controller::add_to_ram_correction] *)
Definition add_to_ram_correction (account ram_bytes : Z) (corrections : gmap Z Z) : gmap Z Z :=
  match corrections !! account with
  | Some n => <[account := u64 (n + ram_bytes)]> corrections
  | None => <[account := ram_bytes]> corrections
  end.

(** No contract has more than 32 bits of memory, and no account is owed 2^63 bytes. *)
Definition deferred_fits (de : deferred_env) (c : context_info) (sender_id : Z) (trx : transaction)
    (corrections : gmap Z Z) : Prop :=
  (forall t b, prepare_deferred de c sender_id trx = Ok t -> pack p_transaction t = Ok b -> zlength b < 2 ^ 32) /\
  (forall a n, corrections !! a = Some n -> 0 <= n < 2 ^ 63).

Section deferred.
Context `{SoftFloat} {TT KT IT TP TU TL TG TA TM TC LT UT : Type}.
Context `{!ObjectIndex table_id_object TT tid_conflict}.
Context `{!ObjectIndex key_value_object KT kv_conflict}.
Context `{!ObjectIndex index_object IT ix_conflict}.
Context `{!ChainIndex Z permission_object TP} `{!ChainIndex Z Z TU}
  `{!ChainIndex (Z * Z * Z) Z TL} `{!ChainIndex digest generated_transaction TG}.
Context `{!ChainIndex Z account_object TA} `{!ChainIndex Z account_metadata_object TM}
  `{!ChainIndex (digest * Z * Z) code_object TC}.
Context `{!ChainIndex (bool * Z) resource_limits_object LT} `{!ChainIndex Z resource_usage_object UT}.
Local Notation nstate := (@native_state TT KT IT TP TU TL TG TA TM TC LT UT).

Record deferred_state := mk_deferred_state {
  ds_state : nstate;
  ds_net_usage : Z;
  ds_corrections : gmap Z Z }.

(** The tables [validate_referenced_accounts] looks at: accounts and permissions *)
Definition referenced_tables (s : nstate) :=
  mk_trx_dbs (TA := gmap Z unit) (TX := gmap digest Z) (TS := gmap Z digest)
    ((fun _ => tt) <$> idx_view (ns_accounts s)) (ns_auth s) ∅ ∅ (ns_rl s).

Definition check_deferred_authorization (env : native_env) (de : deferred_env) (c : context_info) (payer : Z)
    (trx : transaction) (checktime : res unit) (s : nstate) : res unit :=
  if negb (de_skip_auth_check de) && negb (privileged c) then
    _ ← (if negb (payer =? receiver c) then
           if ram_restrictions c then
             _ ← sys_assert (receiver c =? act_account (act c)) action_validate_exception;
             sys_assert (existsb (fun auth => actor auth =? payer) (act_authorization (act c))) action_validate_exception
           else require_authorization c payer
         else Ok tt);
    deferred_auth_handler de (is_sending_only_to_self (receiver c) trx)
      (check_authorization (ne_auth env) (nc_codec (ne_codec env)) (ns_auth s) (t_actions trx) []
         {[mk_level (receiver c) code_permission_name]} (t_delay_sec trx * 1000000) checktime false false ∅)
  else Ok tt.

Definition generated_row (de : deferred_env) (c : context_info) (sender_id payer : Z) (trx : transaction) (packed : list Z)
  : generated_transaction :=
  let published := te_pending_block_time (de_trx de) in
  let delay_until := published + t_delay_sec trx * 1000000 in
  mk_generated_transaction (receiver c) sender_id payer delay_until published
    (delay_until + de_deferred_trx_expiration_window de * 1000000) (act_authorization <$> t_actions trx) (zlength packed).

(** The transaction of the same sender and sender id makes room. *)
Definition replace_generated (de : deferred_env) (id : digest) (gto : generated_transaction) (d : deferred_state)
  : res deferred_state :=
  let orig_trx_ram_bytes := generated_billable + gt_packed_size gto in
  '(s, corrections) ← (if de_replace_deferred de then
      s ← use_ram (gt_payer gto) (i64 (- i64 orig_trx_ram_bytes)) (ds_state d); Ok (s, ds_corrections d)
    else Ok (ds_state d, add_to_ram_correction (gt_payer gto) orig_trx_ram_bytes (ds_corrections d)));
  Ok (mk_deferred_state (set_generated (idx_remove id (generated (ns_auth s))) s) (ds_net_usage d) corrections).

Definition store_generated (env : native_env) (de : deferred_env) (c : context_info) (sender_id payer : Z)
    (trx : transaction) (replace_existing : bool) (d : deferred_state) : res (Z * deferred_state) :=
  packed ← pack p_transaction trx;
  '(id, d) ← match find_by_sender (receiver c) sender_id (ds_state d) with
             | Some (id, gto) =>
               _ ← sys_assert replace_existing deferred_tx_duplicate;
               _ ← sys_assert (de_replace_deferred de || negb (te_is_speculative_block (de_trx de)) ||
                               de_all_subjective_mitigations_disabled de) subjective_block_production_exception;
               d ← replace_generated de id gto d;
               Ok (if de_replace_deferred de then ne_sha256 env packed else id, d)
             | None => Ok (ne_sha256 env packed, d)
             end;
  t ← db_create id (generated_row de c sender_id payer trx packed) (generated (ns_auth (ds_state d)));
  Ok (u32 (zlength packed), mk_deferred_state (set_generated t (ds_state d)) (ds_net_usage d) (ds_corrections d)).

Definition schedule_deferred_transaction (env : native_env) (de : deferred_env) (c : context_info) (sender_id payer : Z)
    (trx : transaction) (replace_existing : bool) (checktime : res unit) (d : deferred_state) : res deferred_state :=
  if ne_disable_deferred_trxs_stage_1 env then Ok d
  else
    _ ← sys_assert (negb (ContractTables.is_read_only c)) transaction_exception;
    _ ← sys_assert (bool_decide (t_context_free_actions trx = [])) cfa_inside_generated_tx;
    let enforce := te_enforce_whiteblacklist (de_trx de) && te_is_speculative_block (de_trx de) &&
                   negb (existsb (Z.eqb (receiver c)) (de_sender_bypass_whiteblacklist de)) in
    _ ← validate_referenced_accounts (with_trx trx (de_trx de)) enforce (referenced_tables (ds_state d));
    trx ← prepare_deferred de c sender_id trx;
    let net_usage := add_net_usage (ds_net_usage d)
                       (u64 (de_base_per_transaction_net_usage de + transaction_id_net_usage)) in
    _ ← check_deferred_authorization env de c payer trx checktime (ds_state d);
    '(trx_size, d) ← store_generated env de c sender_id payer trx replace_existing
                       (mk_deferred_state (ds_state d) net_usage (ds_corrections d));
    _ ← sys_assert (ram_restrictions c || is_ram_billing_in_notify_allowed c ||
                    (receiver c =? act_account (act c)) || (receiver c =? payer) || privileged c)
          subjective_block_production_exception;
    s ← use_ram payer (generated_billable + trx_size) (ds_state d);
    Ok (mk_deferred_state s (ds_net_usage d) (ds_corrections d)).

(** The host functions; a contract cancels only what it has sent. *)
Definition send_deferred (env : native_env) (de : deferred_env) (c : context_info) (sender_id payer : Z) (data : list Z)
    (replace_existing : Z) (checktime : res unit) (d : deferred_state) : res deferred_state :=
  trx ← unpack_bytes p_transaction data;
  schedule_deferred_transaction env de c sender_id payer trx (negb (replace_existing =? 0)) checktime d.

Definition cancel_deferred (env : native_env) (c : context_info) (sender_id : Z) (d : deferred_state)
  : res (bool * deferred_state) :=
  '(b, s) ← cancel_deferred_transaction env c sender_id (receiver c) (ds_state d);
  Ok (b, mk_deferred_state s (ds_net_usage d) (ds_corrections d)).

(** ** What scheduling keeps *)

(** The billable size of the state, and what is still to be given back for replaced
    transactions. *)
Definition owed_ram (env : native_env) (d : deferred_state) : Z :=
  native_bill (ne_pack_size env) (ds_state d) + row_sum id (ds_corrections d).

Definition deferred_step (env : native_env) (d d' : deferred_state) : Prop :=
  native_wf env (ds_state d') /\
  ram_moved (owed_ram env d' - owed_ram env d) (ns_tables (ds_state d)) (ns_tables (ds_state d')).

Lemma add_to_ram_correction_sum account n m :
  (forall a x, m !! a = Some x -> 0 <= x < 2 ^ 63) -> 0 <= n < 2 ^ 63 ->
  row_sum id (add_to_ram_correction account n m) = row_sum id m + n.
Proof.
  intros Hm Hn. unfold add_to_ram_correction. destruct (m !! account) as [x|] eqn:E.
  - specialize (Hm _ _ E). rewrite u64_small, (row_sum_update _ _ _ _ _ E) by lia. unfold id. lia.
  - rewrite row_sum_insert by done. unfold id. lia.
Qed.

Lemma remove_generated_wf env (s : nstate) k :
  native_wf env s -> native_wf env (set_generated (idx_remove k (generated (ns_auth s))) s).
Proof.
  intros [W C]. split; [|done]. apply set_generated_wf; [|done]. intros i x. rewrite idx_remove_view.
  intros [_ Hx]%lookup_delete_Some. by apply (nw_packed_size _ _ _ W i).
Qed.

Lemma ram_tables_wf env (s : nstate) (t : @table_state TT KT IT) :
  native_wf env s -> native_wf env (mk_native (ns_accounts s) (ns_metadata s) (ns_codes s) (ns_auth s) (ns_rl s) t).
Proof. intros [W C]. split; [|done]. destruct W; by split. Qed.

Lemma replace_generated_step env de k g (d d' : deferred_state) :
  native_wf env (ds_state d) -> idx_view (generated (ns_auth (ds_state d))) !! k = Some g ->
  (forall a n, ds_corrections d !! a = Some n -> 0 <= n < 2 ^ 63) ->
  replace_generated de k g d = Ok d' -> deferred_step env d d' /\ ds_net_usage d' = ds_net_usage d.
Proof.
  intros W Hk Hc Hr. pose proof (nw_packed_size _ _ _ (proj1 W) _ _ Hk) as Hsz. unfold replace_generated in Hr.
  assert (0 < generated_billable + gt_packed_size g < 2 ^ 33) as Hb by (change generated_billable with 272; lia).
  apply bind_Ok in Hr as ([s1 m] & Hs & [= <-]). split; [|done].
  assert (forall s : nstate, generated (ns_auth s) = generated (ns_auth (ds_state d)) ->
    native_bill (ne_pack_size env) (set_generated (idx_remove k (generated (ns_auth s))) s) =
      native_bill (ne_pack_size env) s - (generated_billable + gt_packed_size g)) as Hbill.
  { intros s Es. unfold native_bill. cbn. rewrite Es, idx_remove_view, (row_sum_delete _ _ _ _ Hk). unfold generated_bill at 2. lia. }
  destruct (de_replace_deferred de).
  - rewrite (i64_small (generated_billable + gt_packed_size g)), i64_small in Hs by lia. apply bind_Ok in Hs as (s2 & (t & Ht & ->)%use_ram_moved & [= <- <-]).
    split; [by apply remove_generated_wf, ram_tables_wf|]. unfold owed_ram. cbn [ds_state ds_corrections].
    rewrite Hbill by done.
    change (native_bill _ (mk_native _ _ _ _ _ _)) with (native_bill (ne_pack_size env) (ds_state d)). cbn [ns_tables].
    match goal with |- ram_moved ?x _ _ => replace x with (- (generated_billable + gt_packed_size g)) by lia end. exact Ht.
  - injection Hs as <- <-. split; [by apply remove_generated_wf|]. unfold owed_ram. cbn [ds_state ds_corrections].
    rewrite Hbill, add_to_ram_correction_sum by (done || lia). cbn [ns_tables].
    match goal with |- ram_moved ?x _ _ => replace x with 0 by lia end. apply ram_moved_refl.
Qed.

Lemma store_generated_step env de c sender_id payer trx re (d d' : deferred_state) sz :
  native_wf env (ds_state d) -> (forall a n, ds_corrections d !! a = Some n -> 0 <= n < 2 ^ 63) ->
  (forall b, pack p_transaction trx = Ok b -> zlength b < 2 ^ 32) ->
  store_generated env de c sender_id payer trx re d = Ok (sz, d') ->
  native_wf env (ds_state d') /\ 0 <= sz < 2 ^ 32 /\
  ram_moved (owed_ram env d' - owed_ram env d - (generated_billable + sz)) (ns_tables (ds_state d)) (ns_tables (ds_state d')).
Proof.
  intros W Hc Hb Hs. unfold store_generated in Hs. apply bind_Ok in Hs as (packed & Hp & Hs). specialize (Hb _ Hp).
  apply bind_Ok in Hs as ([k d1] & Hd & Hs). apply bind_Ok in Hs as (t & [Hnone Ht]%db_create_Ok & [= <- <-]).
  assert (deferred_step env d d1) as [W1 H1].
  { destruct (find_by_sender _ _ _) as [[i g]|] eqn:Hf; [|injection Hd as _ <-; split; [done|rewrite Z.sub_diag; apply ram_moved_refl]].
    apply find_by_sender_row in Hf as [Hi _]. apply bind_Ok in Hd as (_ & _ & Hd). apply bind_Ok in Hd as (_ & _ & Hd).
    apply bind_Ok in Hd as (d2 & Hd & [= _ <-]). by eapply replace_generated_step. }
  assert (0 <= zlength packed) as H0 by lia. rewrite u32_small by lia. split; [|split; [lia|]].
  - destruct W1 as [W1 C1]. split; [|done]. apply set_generated_wf; [|done]. intros i g. rewrite Ht.
    intros [[_ <-]|[_ Hi]]%lookup_insert_Some; [cbn; lia|]. by apply (nw_packed_size _ _ _ W1 i).
  - cbn [ds_state ns_tables].
    match goal with |- ram_moved ?x _ _ => replace x with (owed_ram env d1 - owed_ram env d) end; [exact H1|].
    unfold owed_ram. cbn [ds_state ds_corrections]. unfold native_bill. cbn. rewrite Ht, row_sum_insert by exact Hnone.
    unfold generated_bill at 3. cbn. lia.
Qed.

Lemma ram_moved_trans x y (t1 t2 t3 : @table_state TT KT IT) :
  ram_moved x t1 t2 -> ram_moved y t2 t3 -> ram_moved (x + y) t1 t3.
Proof. intros [] []. split; congruence || lia. Qed.

(** Scheduling a deferred transaction charges its payer what it adds to the state, up
    to the correction that replacing another one leaves behind. *)
Lemma schedule_deferred_step env de c sender_id payer trx re clock (d d' : deferred_state) :
  native_wf env (ds_state d) -> deferred_fits de c sender_id trx (ds_corrections d) ->
  schedule_deferred_transaction env de c sender_id payer trx re clock d = Ok d' -> deferred_step env d d'.
Proof.
  intros W [Hsz Hc] Hr. unfold schedule_deferred_transaction in Hr. destruct (ne_disable_deferred_trxs_stage_1 env).
  { injection Hr as <-. split; [done|]. rewrite Z.sub_diag. apply ram_moved_refl. }
  do 3 apply bind_Ok in Hr as (_ & _ & Hr). apply bind_Ok in Hr as (t & Ht & Hr). apply bind_Ok in Hr as (_ & _ & Hr).
  apply bind_Ok in Hr as ([sz d1] & Hs & Hr). apply bind_Ok in Hr as (_ & _ & Hr).
  apply bind_Ok in Hr as (s & (t2 & Ht2 & ->)%use_ram_moved & [= <-]).
  apply (store_generated_step env) in Hs as (W1 & Hsz1 & Hm); [|done|done|intros b; by apply Hsz].
  split; [by apply ram_tables_wf|]. cbn [ds_state ns_tables].
  replace (owed_ram env _ - owed_ram env d) with
    (owed_ram env d1 - owed_ram env d - (generated_billable + sz) + (generated_billable + sz)); [by eapply ram_moved_trans|].
  unfold owed_ram. cbn [ds_state ds_corrections].
  change (native_bill _ (mk_native _ _ _ _ _ _)) with (native_bill (ne_pack_size env) (ds_state d1)). lia.
Qed.

Lemma cancel_deferred_moves env c sender_id b (d d' : deferred_state) :
  native_wf env (ds_state d) -> cancel_deferred env c sender_id d = Ok (b, d') -> deferred_step env d d'.
Proof.
  intros W Hr. unfold cancel_deferred in Hr. apply bind_Ok in Hr as ([b1 s] & Hs & [= _ <-]).
  destruct (cancel_deferred_step _ _ _ _ _ _ _ W Hs) as [W' Hm]. split; [done|]. unfold owed_ram. cbn [ds_state ds_corrections].
  match goal with |- ram_moved ?x _ _ => replace x with (native_bill (ne_pack_size env) s - native_bill (ne_pack_size env) (ds_state d)) by lia end.
  exact Hm.
Qed.
End deferred.
