(* ===== verification/HostCalls.v ===== *)
(** * What native and contract code asks of the host

    The calls that read or change the chain state: database intrinsics, the native
    handlers of the system account, privileged intrinsics, deferred transactions and
    the queries native code makes of the controller directly, with their answers. *)

From S2P Require Import Prelude Exceptions Types ContractTables ContractTableTheorems TableCalls.
From S2P Require Import ActionExecution NativeActions.

(** [webassembly/privileged.cpp]; packed arguments are the bytes in the contract's
    memory. *)
Inductive privileged_call : Type :=
| pc_set_resource_limits (account ram_bytes net_weight cpu_weight : Z)
| pc_get_resource_limits (account : Z)
| pc_set_proposed_producers (packed : list Z)
| pc_set_proposed_producers_ex (format : Z) (packed : list Z)
| pc_set_wasm_parameters_packed (packed : list Z)
| pc_get_wasm_parameters_packed (size max_version : Z)
| pc_set_blockchain_parameters_packed (packed : list Z)
| pc_get_blockchain_parameters_packed (size : Z)
| pc_set_parameters_packed (packed : list Z)
| pc_get_parameters_packed (packed_ids : list Z) (size : Z)
| pc_is_privileged (account : Z)
| pc_set_privileged (account : Z) (is_priv : bool).

Section calls.
Context `{SoftFloat}.

Inductive node_call : Type :=
| nc_table (o : table_op)
| nc_native (a : native_action)
| nc_privileged (p : privileged_call)
| nc_send_deferred (sender_id payer : Z) (data : list Z) (replace_existing : Z)
| nc_cancel_deferred (sender_id : Z)
| nc_head_block_num
| nc_get_account_limits (account : Z)
| nc_get_account_ram_usage (account : Z)
| nc_set_account_limits (account ram_bytes net_weight cpu_weight : Z).

Inductive node_answer : Type :=
| answer_done
| answer_table (r : table_reply)
| answer_number (n : Z)
| answer_limits (ram_bytes net_weight cpu_weight : Z)
| answer_packed (size : Z) (written : option (list Z)).

Definition node_program : Type := @program node_call node_answer.

(** ** Native code *)

Definition ask (h : node_call) (k : node_answer -> node_program) : node_program :=
  p_call (call_world h) (fun r => match r with reply_world a => k a | _ => p_throw undefined_behavior end).

Definition attempt {A} (m : res A) (k : A -> node_program) : node_program :=
  match m with Ok a => k a | Throw e => p_throw e end.
End calls.
