(* ===== verification/ReducePolicy.v ===== *)
(** * The native action [reducepolicy] of [sysio.roa] ([apply_roa_reducepolicy])

    A node owner takes back NET, CPU and RAM from an account's policy.  The handler
    reads and writes the rows of the contract through the database intrinsics and
    changes the account's resource limits. *)

From S2P Require Import Prelude Exceptions Types Name Assets Authority AuthorizationManager ContractTables.
From S2P Require Import ContractTableTheorems TableCalls ActionExecution NativeActions Packing ChainPacking HostCalls.

(** ** Rows ([sysio_roa_objects.hpp]) and arguments *)

Record nodeowners := mk_nodeowners {
  no_owner : Z; no_tier : Z; no_total_sys : asset; no_allocated_sys : asset; no_allocated_bw : asset;
  no_allocated_ram : asset; no_network_gen : Z }.
Record policies := mk_policies {
  po_owner_ : Z; po_issuer : Z; po_net_weight : asset; po_cpu_weight : asset; po_ram_weight : asset;
  po_bytes_per_unit : Z; po_time_block : Z }.
Record reslimit := mk_reslimit { rs_owner : Z; rs_net_weight : asset; rs_cpu_weight : asset; rs_ram_bytes : Z }.
Record reducepolicy := mk_reducepolicy {
  rp_owner : Z; rp_issuer : Z; rp_net_weight : asset; rp_cpu_weight : asset; rp_ram_weight : asset; rp_network_gen : Z }.

Definition p_symbol : packer Z := p_reflect (fun v => v) (fun v => v) symbol_reflector_init (p_uint 8).
Definition p_asset : packer asset :=
  p_reflect (fun a => (amount a, sym a)) (fun '(a, s) => mk_asset a s) asset_reflector_init (p_pair (p_int 8) p_symbol).

Definition p_nodeowners : packer nodeowners :=
  p_reflect (fun r => (no_owner r, (no_tier r, (no_total_sys r, (no_allocated_sys r, (no_allocated_bw r, (no_allocated_ram r, no_network_gen r)))))))
    (fun '(o, (t, (x, (y, (z, (w, g)))))) => mk_nodeowners o t x y z w g) no_init
    (p_pair (p_uint 8) (p_pair (p_uint 1) (p_pair p_asset (p_pair p_asset (p_pair p_asset (p_pair p_asset (p_uint 1))))))).
Definition p_policies : packer policies :=
  p_reflect (fun r => (po_owner_ r, (po_issuer r, (po_net_weight r, (po_cpu_weight r, (po_ram_weight r, (po_bytes_per_unit r, po_time_block r)))))))
    (fun '(o, (i, (x, (y, (z, (b, t)))))) => mk_policies o i x y z b t) no_init
    (p_pair (p_uint 8) (p_pair (p_uint 8) (p_pair p_asset (p_pair p_asset (p_pair p_asset (p_pair (p_uint 8) (p_uint 4))))))).
Definition p_reslimit : packer reslimit :=
  p_reflect (fun r => (rs_owner r, (rs_net_weight r, (rs_cpu_weight r, rs_ram_bytes r))))
    (fun '(o, (x, (y, b))) => mk_reslimit o x y b) no_init (p_pair (p_uint 8) (p_pair p_asset (p_pair p_asset (p_uint 8)))).
Definition p_reducepolicy : packer reducepolicy :=
  p_reflect (fun r => (rp_owner r, (rp_issuer r, (rp_net_weight r, (rp_cpu_weight r, (rp_ram_weight r, rp_network_gen r))))))
    (fun '(o, (i, (x, (y, (z, g))))) => mk_reducepolicy o i x y z g) no_init
    (p_pair (p_uint 8) (p_pair (p_uint 8) (p_pair p_asset (p_pair p_asset (p_pair p_asset (p_uint 1)))))).

Definition nodeowners_name : Z := Eval vm_compute in n_ "nodeowners".
Definition policies_name : Z := Eval vm_compute in n_ "policies".
Definition reslimit_name : Z := Eval vm_compute in n_ "reslimit".

(** ** The parts of the handler *)

(** An [int64_t] result; an overflow is undefined. *)
Definition int64_ (z : Z) : res Z := if bool_decide (is_i64 z) then Ok z else Throw undefined_behavior.

Definition is_sysio_name (owner : Z) : bool :=
  let acc_str := to_string owner in
  bool_decide (acc_str = chars "sysio") || ((5 <? length acc_str)%nat && starts_with (chars "sysio.") acc_str).

(** Steps 5 and 7 *)
Definition check_reduction (current_block : Z) (args : reducepolicy) (pol : policies) : res unit :=
  _ ← sys_assert (po_time_block pol <=? current_block) action_validate_exception;
  sys_assert (negb (is_sysio_name (rp_owner args) && (po_time_block pol =? 1) && (po_issuer pol =? rp_issuer args)))
    action_validate_exception.

Definition check_weights (args : reducepolicy) (pol : policies) : res unit :=
  let net := amount (rp_net_weight args) in
  let cpu := amount (rp_cpu_weight args) in
  let ram := amount (rp_ram_weight args) in
  _ ← sys_assert (0 <=? net) action_validate_exception;
  _ ← sys_assert (0 <=? cpu) action_validate_exception;
  _ ← sys_assert (0 <=? ram) action_validate_exception;
  _ ← sys_assert ((0 <? net) || (0 <? cpu) || (0 <? ram)) action_validate_exception;
  _ ← sys_assert (net <=? amount (po_net_weight pol)) action_validate_exception;
  _ ← sys_assert (cpu <=? amount (po_cpu_weight pol)) action_validate_exception;
  sys_assert (ram <=? amount (po_ram_weight pol)) action_validate_exception.

(** Step 8: the bytes taken back and their weight; [ram_usage] is read only when RAM is
    taken back at all. *)
Definition reclaim_ram (ram_weight : asset) (bytes_per_unit ram_bytes ram_usage : Z) : res (Z * asset) :=
  let unit_ := i64 bytes_per_unit in
  ram_unused ← int64_ (ram_bytes - ram_usage);
  requested_ram_bytes ← int64_ (amount ram_weight * unit_);
  let ram_to_reclaim := Z.min ram_unused requested_ram_bytes in
  _ ← sys_assert (0 <=? ram_to_reclaim) action_validate_exception;
  _ ← (if unit_ =? 0 then Throw undefined_behavior else Ok tt);
  let divisible_ram_to_reclaim := ram_to_reclaim - Z.rem ram_to_reclaim unit_ in
  reclaimed ← make_asset (Z.quot divisible_ram_to_reclaim unit_) (sym ram_weight);
  _ ← sys_assert (amount reclaimed <=? amount ram_weight) action_validate_exception;
  Ok (divisible_ram_to_reclaim, reclaimed).

(** Steps 9 to 11 *)
Definition reduce_reslimit (args : reducepolicy) (divisible : Z) (r : reslimit) : res reslimit :=
  net ← asset_sub_assign (rs_net_weight r) (rp_net_weight args);
  cpu ← asset_sub_assign (rs_cpu_weight r) (rp_cpu_weight args);
  Ok (mk_reslimit (rs_owner r) net cpu (u64 (rs_ram_bytes r - divisible))).

Definition reduce_policies (args : reducepolicy) (reclaimed : asset) (p : policies) : res policies :=
  net ← asset_sub_assign (po_net_weight p) (rp_net_weight args);
  cpu ← asset_sub_assign (po_cpu_weight p) (rp_cpu_weight args);
  ram ← asset_sub_assign (po_ram_weight p) reclaimed;
  Ok (mk_policies (po_owner_ p) (po_issuer p) net cpu ram (po_bytes_per_unit p) (po_time_block p)).

Definition reduce_nodeowners (args : reducepolicy) (reclaimed : asset) (n : nodeowners) : res nodeowners :=
  bw ← asset_add (rp_net_weight args) (rp_cpu_weight args);
  total_reclaimed_sys ← asset_add bw reclaimed;
  sys ← asset_sub_assign (no_allocated_sys n) total_reclaimed_sys;
  bw ← asset_add (rp_net_weight args) (rp_cpu_weight args);
  allocated_bw ← asset_sub_assign (no_allocated_bw n) bw;
  ram ← asset_sub_assign (no_allocated_ram n) reclaimed;
  Ok (mk_nodeowners (no_owner n) (no_tier n) (no_total_sys n) sys allocated_bw ram (no_network_gen n)).

Definition all_zero (p : policies) : bool :=
  (amount (po_net_weight p) =? 0) && (amount (po_cpu_weight p) =? 0) && (amount (po_ram_weight p) =? 0).

(** ** The handler *)

Section handler.
Context `{SoftFloat}.

(** Rows are looked up and read; a missing table gives -1, a missing row the end
    iterator of its table, which [db_get_i64] refuses. *)
Definition read_row {T} (p : packer T) (code scope table primary : Z) (k : Z -> T -> node_program) : node_program :=
  ask (nc_table (op_find code scope table primary)) (fun a =>
  match a with
  | answer_table (reply_iterator itr) =>
    attempt (sys_assert (negb (itr =? -1)) action_validate_exception) (fun _ =>
    ask (nc_table (op_get itr 0)) (fun a =>
    match a with
    | answer_table (reply_row size _) =>
      attempt (sys_assert (0 <=? size) action_validate_exception) (fun _ =>
      ask (nc_table (op_get itr size)) (fun a =>
      match a with
      | answer_table (reply_row _ buffer) => attempt (unpack p buffer) (fun '(row, _) => k itr row)
      | _ => p_throw undefined_behavior
      end))
    | _ => p_throw undefined_behavior
    end))
  | _ => p_throw undefined_behavior
  end).

Definition write_row (h : node_call) (k : node_program) : node_program := ask h (fun _ => k).

(** Steps 9 to 11: the three rows are written back; the policy that has nothing left is
    removed. *)
Definition write_rows (c : context_info) (args : reducepolicy) (divisible : Z) (reclaimed : asset)
    (itr pol_itr rl_itr : Z) (node_row : nodeowners) (pol_row : policies) (rl_row : reslimit) : node_program :=
  attempt (r ← reduce_reslimit args divisible rl_row; pack p_reslimit r) (fun out =>
  write_row (nc_table (op_update rl_itr (receiver c) out)) (
  attempt (p ← reduce_policies args reclaimed pol_row; out ← pack p_policies p; Ok (p, out)) (fun '(p, pol_out) =>
  write_row (nc_table (if all_zero p then op_remove pol_itr else op_update pol_itr (receiver c) pol_out)) (
  attempt (n ← reduce_nodeowners args reclaimed node_row; pack p_nodeowners n) (fun node_out =>
  write_row (nc_table (op_update itr (receiver c) node_out)) p_exit))))).

(** Step 8, from the limits on *)
Definition adjust_limits (c : context_info) (args : reducepolicy) (itr pol_itr rl_itr : Z)
    (node_row : nodeowners) (pol_row : policies) (rl_row : reslimit)
    (ram_bytes net_limit cpu_limit : Z) (reclaimed : Z * asset) : node_program :=
  attempt (ram ← int64_ (ram_bytes - reclaimed.1);
           net ← int64_ (net_limit - amount (rp_net_weight args));
           cpu ← int64_ (cpu_limit - amount (rp_cpu_weight args));
           Ok (ram, net, cpu)) (fun '(ram, net, cpu) =>
  ask (nc_set_account_limits (rp_owner args) ram net cpu) (fun _ =>
  write_rows c args reclaimed.1 reclaimed.2 itr pol_itr rl_itr node_row pol_row rl_row)).

Definition apply_roa_reducepolicy (c : context_info) : node_program :=
  attempt (unpack_bytes p_reducepolicy (act_data (act c))) (fun args =>
  attempt (require_authorization c (rp_issuer args)) (fun _ =>
  read_row p_nodeowners (receiver c) (rp_network_gen args) nodeowners_name (rp_issuer args) (fun itr node_row =>
  attempt (sys_assert (no_owner node_row =? rp_issuer args) action_validate_exception) (fun _ =>
  read_row p_policies (receiver c) (rp_issuer args) policies_name (rp_owner args) (fun pol_itr pol_row =>
  ask nc_head_block_num (fun a =>
  match a with
  | answer_number current_block =>
    attempt (check_reduction current_block args pol_row) (fun _ =>
    read_row p_reslimit (receiver c) (rp_owner args) reslimit_name (rp_owner args) (fun rl_itr rl_row =>
    attempt (check_weights args pol_row) (fun _ =>
    ask (nc_get_account_limits (rp_owner args)) (fun a =>
    match a with
    | answer_limits ram_bytes net_limit cpu_limit =>
      let adjust := adjust_limits c args itr pol_itr rl_itr node_row pol_row rl_row ram_bytes net_limit cpu_limit in
      if 0 <? amount (rp_ram_weight args) then
        ask (nc_get_account_ram_usage (rp_owner args)) (fun a =>
        match a with
        | answer_number ram_usage =>
          attempt (reclaim_ram (rp_ram_weight args) (po_bytes_per_unit pol_row) ram_bytes ram_usage) adjust
        | _ => p_throw undefined_behavior
        end)
      else attempt (a ← make_asset 0 (sym (rp_ram_weight args)); Ok (0, a)) adjust
    | _ => p_throw undefined_behavior
    end))))
  | _ => p_throw undefined_behavior
  end)))))).
End handler.

(** ** How much RAM is taken back *)


Module ReduceExample.

End ReduceExample.
