(* ===== verification/NodeWorld.v ===== *)
(** * Transactions with native actions and contracts

    The instance of [ActionWorld] with the state that actions change: the tables of
    contracts and native actions, the global properties, the RAM corrections and the
    NET usage of the transaction.  The nine native handlers are programs, all other code
    is a contract; both ask the host through [node_call].  Whole transactions then keep
    the state consistent and are billed for exactly what they add to it. *)

From S2P Require Import Prelude Exceptions Types Chainbase ObjectIndex IteratorCache Name Authority.
From S2P Require Import AuthorityChecker AuthorizationManager ResourceLimits ContractTables ContractTableProps.
From S2P Require Import ContractTableTheorems AccessLists ActionExecution ActionExecutionProps ActionTraces.
From S2P Require Import TableCalls NativeActions NativeCode NativeAccounts NativeActionProps NativeReachable.
From S2P Require Import Packing ChainPacking ChainConfig Privileged Deferred HostCalls ReducePolicy.

(** The bounds of a deferred transaction sent as [data] *)
Record send_fits (de : deferred_env) (c : context_info) (sender_id : Z) (data : list Z) (corrections : gmap Z Z) : Prop := {
  sent_fits trx : unpack_bytes p_transaction data = Ok trx -> deferred_fits de c sender_id trx corrections }.

Section node.
Context `{SoftFloat} {TT KT IT TP TU TL TG TA TM TC LT UT : Type}.
Context `{!ObjectIndex table_id_object TT tid_conflict}.
Context `{!ObjectIndex key_value_object KT kv_conflict}.
Context `{!ObjectIndex index_object IT ix_conflict}.
Context `{!ChainIndex Z permission_object TP} `{!ChainIndex Z Z TU}
  `{!ChainIndex (Z * Z * Z) Z TL} `{!ChainIndex digest generated_transaction TG}.
Context `{!ChainIndex Z account_object TA} `{!ChainIndex Z account_metadata_object TM}
  `{!ChainIndex (digest * Z * Z) code_object TC}.
Context `{!ChainIndex (bool * Z) resource_limits_object LT} `{!ChainIndex Z resource_usage_object UT}.
Local Notation nstate := (@native_state TT KT IT TP TU TL TG TA TM TC LT UT).
Local Notation tables_type := (@table_state TT KT IT).

(** [nd_within] is no part of the program: it records that every call so far was within
    the bounds of the machine: tables and iterator caches of a size that fits, buffers of
    32-bit memory, iterators that are [int]s, RAM corrections below 2^63, and no two
    contracts with one hash. *)
Record node_world := mk_node {
  nd_state : nstate;
  nd_gpo : global_properties;
  nd_net_usage : Z;
  nd_corrections : gmap Z Z;
  nd_within : Prop }.

Definition with_tables (t : tables_type) (s : nstate) : nstate :=
  mk_native (ns_accounts s) (ns_metadata s) (ns_codes s) (ns_auth s) (ns_rl s) t.

Definition set_nd_state (s : nstate) (fits : Prop) (w : node_world) : node_world :=
  mk_node s (nd_gpo w) (nd_net_usage w) (nd_corrections w) (nd_within w /\ fits).

(** What the transaction and the controller answer; the clock and the hash of an
    action's output are parameters. *)
Context (nenv : native_env) (penv : priv_env) (denv : deferred_env) (clock : node_world -> res unit)
  (hash_output : node_world -> action -> list Z -> res digest).

(** ** Privileged intrinsics *)

Definition priv_env_at (c : context_info) (s : nstate) : priv_env :=
  mk_priv_env (ContractTables.is_read_only c) (pe_head_block_num penv) (pe_active_producers penv)
    (pe_pending_producers penv) (pe_disallow_empty_schedule penv) (pe_action_return_value penv)
    (pe_num_supported_key_types penv) (fun a => account_exists a s) (pe_key_valid penv).

Definition set_validate_ram_usage (v : gset Z) (t : tables_type) : tables_type :=
  mk_ts (tables t) (key_values t) (indices t) (keyval_cache t) (itr_cache t) (_account_ram_deltas t)
    (total_ram_usage t) v.

Definition run_privileged (c : context_info) (p : privileged_call) (s : nstate) (g : global_properties)
  : res (node_answer * nstate * global_properties) :=
  let e := priv_env_at c s in
  match p with
  | pc_set_resource_limits account ram net cpu =>
    '(rl, v) ← set_resource_limits e account ram net cpu (ns_rl s) (validate_ram_usage (ns_tables s));
    Ok (answer_done, set_limits rl (with_tables (set_validate_ram_usage v (ns_tables s)) s), g)
  | pc_get_resource_limits account =>
    '(ram, net, cpu) ← get_account_limits account (ns_rl s); Ok (answer_limits ram net cpu, s, g)
  | pc_set_proposed_producers packed => '(n, g) ← set_proposed_producers e packed g; Ok (answer_number n, s, g)
  | pc_set_proposed_producers_ex format packed =>
    '(n, g) ← set_proposed_producers_ex e format packed g; Ok (answer_number n, s, g)
  | pc_set_wasm_parameters_packed packed => g ← set_wasm_parameters_packed e packed g; Ok (answer_done, s, g)
  | pc_get_wasm_parameters_packed size max_version =>
    '(n, b) ← get_wasm_parameters_packed size max_version g; Ok (answer_packed n b, s, g)
  | pc_set_blockchain_parameters_packed packed =>
    g ← set_blockchain_parameters_packed e packed g; Ok (answer_done, s, g)
  | pc_get_blockchain_parameters_packed size =>
    '(n, b) ← get_blockchain_parameters_packed size g; Ok (answer_packed n b, s, g)
  | pc_set_parameters_packed packed => g ← set_parameters_packed e packed g; Ok (answer_done, s, g)
  | pc_get_parameters_packed ids size =>
    '(n, b) ← get_parameters_packed e ids size g; Ok (answer_packed n b, s, g)
  | pc_is_privileged account =>
    b ← intrinsic_is_privileged account (ns_metadata s); Ok (answer_number (if (b : bool) then 1 else 0), s, g)
  | pc_set_privileged account b =>
    m ← intrinsic_set_privileged e account b (ns_metadata s); Ok (answer_done, set_metadata m s, g)
  end.

(** ** All calls *)

(** Deferred transactions read two parameters of the configuration. *)
Definition deferred_env_at (g : global_properties) : deferred_env :=
  let cfg := base (configuration g) in
  mk_deferred_env (de_trx denv) (de_trx_id denv) (de_head_block_id denv) (de_no_duplicate_deferred_id denv)
    (de_replace_deferred denv) (de_restrict_action_to_self denv) (de_skip_auth_check denv)
    (de_all_subjective_mitigations_disabled denv) (de_sender_bypass_whiteblacklist denv)
    (base_per_transaction_net_usage cfg) (deferred_trx_expiration_window cfg).

Definition deferred_of (w : node_world) : deferred_state :=
  mk_deferred_state (nd_state w) (nd_net_usage w) (nd_corrections w).
Definition set_deferred (d : deferred_state) (fits : Prop) (w : node_world) : node_world :=
  mk_node (ds_state d) (nd_gpo w) (ds_net_usage d) (ds_corrections d) (nd_within w /\ fits).

Definition run_node_call (c : context_info) (h : node_call) (w : node_world) : res (node_answer * node_world) :=
  let s := nd_state w in
  match h with
  | nc_table o =>
    '(r, t) ← call_op c o (ns_tables s);
    Ok (answer_table r, set_nd_state (with_tables t s) (table_state_small (ns_tables s) /\ op_fits o) w)
  | nc_native a =>
    s' ← apply_native nenv a c s;
    Ok (answer_done, set_nd_state s' (action_fits nenv a c s) w)
  | nc_privileged p =>
    _ ← sys_assert (privileged c) unaccessible_api;
    '(r, s', g) ← run_privileged c p s (nd_gpo w);
    Ok (r, mk_node s' g (nd_net_usage w) (nd_corrections w) (nd_within w))
  | nc_send_deferred sender_id payer data replace_existing =>
    d ← send_deferred nenv (deferred_env_at (nd_gpo w)) c sender_id payer data replace_existing (clock w) (deferred_of w);
    Ok (answer_done, set_deferred d (send_fits (deferred_env_at (nd_gpo w)) c sender_id data (nd_corrections w)) w)
  | nc_cancel_deferred sender_id =>
    '(b, d) ← cancel_deferred nenv c sender_id (deferred_of w);
    Ok (answer_number (if (b : bool) then 1 else 0), set_deferred d True w)
  | nc_head_block_num => Ok (answer_number (pe_head_block_num penv), w)
  | nc_get_account_limits account =>
    '(ram, net, cpu) ← get_account_limits account (ns_rl s); Ok (answer_limits ram net cpu, w)
  | nc_get_account_ram_usage account =>
    n ← get_account_ram_usage account (ns_rl s); Ok (answer_number n, w)
  | nc_set_account_limits account ram net cpu =>
    '(_, rl) ← set_account_limits account ram net cpu (ns_rl s); Ok (answer_done, set_nd_state (set_limits rl s) True w)
  end.

Definition map_tables (f : tables_type -> tables_type) (w : node_world) : node_world :=
  mk_node (with_tables (f (ns_tables (nd_state w))) (nd_state w)) (nd_gpo w) (nd_net_usage w) (nd_corrections w)
    (nd_within w).

#[global] Instance node_action_world : ActionWorld node_world node_call node_answer := {
  is_account n w := account_exists n (nd_state w);
  has_permission p w := (fun r => bool_decide (is_Some r)) <$> find_permission (ns_auth (nd_state w)) p;
  get_metadata n w := idx_find n (ns_metadata (nd_state w));
  put_metadata n m w :=
    mk_node (set_metadata (idx_modify n (fun _ => m) (ns_metadata (nd_state w))) (nd_state w))
      (nd_gpo w) (nd_net_usage w) (nd_corrections w) (nd_within w);
  max_inline_action_depth w := u16 (ChainConfig.max_inline_action_depth (base (configuration (nd_gpo w))));
  checktime w := clock w;
  check_inline w a provided delay dont_fail inherited :=
    check_authorization (ne_auth nenv) (nc_codec (ne_codec nenv)) (ns_auth (nd_state w)) [a] [] provided delay
      (clock w) false dont_fail inherited;
  ram_deltas w := ram_delta_list (ns_tables (nd_state w));
  open_context w := map_tables new_action w;
  clear_ram_deltas w := map_tables take_ram_deltas w;
  generate_action_digest w a v := hash_output w a v;
  run_call c h w := run_node_call c h w }.

(** ** The native handlers *)

Definition newaccount_name : Z := Eval vm_compute in n_ "newaccount".
Definition setcode_action : Z := Eval vm_compute in n_ "setcode".
Definition setabi_name : Z := Eval vm_compute in n_ "setabi".
Definition roa_name : Z := Eval vm_compute in n_ "sysio.roa".
Definition reducepolicy_name : Z := Eval vm_compute in n_ "reducepolicy".

Definition native_program (a : native_action) : context_info -> node_program :=
  fun _ => ask (nc_native a) (fun _ => p_exit).

(** The calls of [set_apply_handler]: receiver, contract, action and handler *)
Definition apply_handlers : list (Z * Z * Z * (context_info -> node_program)) :=
  [(sysio_name, sysio_name, newaccount_name, native_program na_newaccount);
   (sysio_name, sysio_name, setcode_action, native_program na_setcode);
   (sysio_name, sysio_name, setabi_name, native_program na_setabi);
   (sysio_name, sysio_name, updateauth_name, native_program na_updateauth);
   (sysio_name, sysio_name, deleteauth_name, native_program na_deleteauth);
   (sysio_name, sysio_name, linkauth_name, native_program na_linkauth);
   (sysio_name, sysio_name, unlinkauth_name, native_program na_unlinkauth);
   (roa_name, roa_name, reducepolicy_name, apply_roa_reducepolicy);
   (sysio_name, sysio_name, canceldelay_name, native_program na_canceldelay)].

Definition find_native_handler (receiver scope act : Z) : option (context_info -> node_program) :=
  snd <$> List.find (fun h => bool_decide (h.1 = (receiver, scope, act))) apply_handlers.

(** ** What a transaction keeps *)

(** The billable size of the whole state. *)
Definition state_bill (s : nstate) : Z := billed (ns_tables s) None + native_bill (ne_pack_size nenv) s.

(** What is still to be given back for replaced deferred transactions. *)
Definition corrections_of (w : node_world) : Z := row_sum id (nd_corrections w).

Definition node_balanced (w0 w : node_world) (_ : list action_trace) : Prop :=
  nd_within w ->
  native_wf nenv (nd_state w) /\ table_state_wf (ns_tables (nd_state w)) /\
  total_ram_usage (ns_tables (nd_state w)) - total_ram_usage (ns_tables (nd_state w0)) =
    state_bill (nd_state w) - state_bill (nd_state w0) + (corrections_of w - corrections_of w0).

Context (laws : native_laws nenv).

Lemma set_tables_wf t (s : nstate) : native_wf nenv s -> native_wf nenv (with_tables t s).
Proof. apply ram_tables_wf. Qed.

(** A step that moves the RAM counter as the state and the corrections move. *)
Lemma balanced_step w0 w w' ts :
  node_balanced w0 w ts ->
  (nd_within w' -> nd_within w /\ (native_wf nenv (nd_state w) -> table_state_wf (ns_tables (nd_state w)) ->
     native_wf nenv (nd_state w') /\ table_state_wf (ns_tables (nd_state w')) /\
     total_ram_usage (ns_tables (nd_state w')) - total_ram_usage (ns_tables (nd_state w)) =
       state_bill (nd_state w') - state_bill (nd_state w) + (corrections_of w' - corrections_of w))) ->
  node_balanced w0 w' ts.
Proof.
  intros Hb Hs Hin'. destruct (Hs Hin') as [Hin Hstep]. destruct (Hb Hin) as (Hwf & Htw & Hram).
  destruct (Hstep Hwf Htw) as (? & ? & ?). split_and!; [done..|lia].
Qed.

Lemma deferred_balanced d w (fits : Prop) :
  (fits -> native_wf nenv (nd_state w) -> deferred_step nenv (deferred_of w) d) ->
  nd_within (set_deferred d fits w) -> nd_within w /\ (native_wf nenv (nd_state w) -> table_state_wf (ns_tables (nd_state w)) ->
     native_wf nenv (nd_state (set_deferred d fits w)) /\ table_state_wf (ns_tables (nd_state (set_deferred d fits w))) /\
     total_ram_usage (ns_tables (nd_state (set_deferred d fits w))) - total_ram_usage (ns_tables (nd_state w)) =
       state_bill (nd_state (set_deferred d fits w)) - state_bill (nd_state w) +
       (corrections_of (set_deferred d fits w) - corrections_of w)).
Proof.
  intros Hd [Hin Hf]. split; [done|]. intros Hwf Htw. destruct (Hd Hf Hwf) as [W' Hm]. cbn in *.
  destruct (ram_moved_wf _ _ _ Hm Htw) as [Htw' Eb]. pose proof (rm_used _ _ _ Hm) as Hu. cbn in Hu.
  split_and!; [done..|]. unfold state_bill, corrections_of, owed_ram in *. cbn in *. lia.
Qed.

Lemma idx_modify_found (k : Z) (f : account_metadata_object -> account_metadata_object) m (t : TM) :
  idx_view t !! k = Some m -> idx_view (idx_modify k f t) = <[k := f m]> (idx_view t).
Proof.
  intros Hm. rewrite idx_modify_view. apply map_eq. intros i. destruct (decide (i = k)) as [->|Hne].
  - by rewrite lookup_alter_eq, Hm, lookup_insert_eq.
  - by rewrite lookup_alter_ne, lookup_insert_ne by done.
Qed.

(** What a privileged call leaves as it was *)
Definition bill_kept (s s' : nstate) : Prop :=
  native_wf nenv s' /\ (table_state_wf (ns_tables s) -> table_state_wf (ns_tables s')) /\
  total_ram_usage (ns_tables s') = total_ram_usage (ns_tables s) /\ state_bill s' = state_bill s.

Lemma set_limits_kept s a ram net cpu b rl v :
  native_wf nenv s -> set_account_limits a ram net cpu (ns_rl s) = Ok (b, rl) ->
  bill_kept s (set_limits rl (with_tables (set_validate_ram_usage v (ns_tables s)) s)).
Proof.
  intros W Hl%set_account_limits_grow. destruct (set_tables_wf (set_validate_ram_usage v (ns_tables s)) s W) as [W1 C1].
  split_and!; [split; [by apply set_limits_wf|done]| |done|done]. cbn. intros []. by split.
Qed.

Lemma set_privileged_kept c a b (s : nstate) m :
  native_wf nenv s -> intrinsic_set_privileged (priv_env_at c s) a b (ns_metadata s) = Ok m ->
  bill_kept s (set_metadata m s).
Proof.
  intros W Hr. unfold intrinsic_set_privileged in Hr. apply bind_Ok in Hr as (_ & _ & Hr).
  apply bind_Ok in Hr as (o & Ho%db_get_Ok & [= <-]). pose proof (idx_modify_found a (set_privileged_flag b) o _ Ho) as E.
  split_and!; [by apply (metadata_table_wf nenv s a o (set_privileged_flag b o))|done|done|]. unfold state_bill, native_bill. cbn.
  by rewrite E, (code_bill_update _ _ _ o).
Qed.

Lemma privileged_kept c p s g r s' g' :
  native_wf nenv s -> run_privileged c p s g = Ok (r, s', g') -> bill_kept s s'.
Proof.
  intros W Hr. destruct p; cbn in Hr; apply bind_Ok in Hr as (x & Hx & Hr); repeat destruct x as [x ?];
    try (injection Hr as <- <- <-; by split_and!).
  - injection Hr as <- <- <-. unfold set_resource_limits in Hx. do 4 apply bind_Ok in Hx as (_ & _ & Hx).
    apply bind_Ok in Hx as ([b' rl] & Hl & [= <- <-]). by eapply set_limits_kept.
  - injection Hr as <- <- <-. by eapply set_privileged_kept.
Qed.

Lemma node_call_balanced c h (w w' : node_world) r :
  run_node_call c h w = Ok (r, w') -> nd_within w' ->
  nd_within w /\ (native_wf nenv (nd_state w) -> table_state_wf (ns_tables (nd_state w)) ->
     native_wf nenv (nd_state w') /\ table_state_wf (ns_tables (nd_state w')) /\
     total_ram_usage (ns_tables (nd_state w')) - total_ram_usage (ns_tables (nd_state w)) =
       state_bill (nd_state w') - state_bill (nd_state w) + (corrections_of w' - corrections_of w)).
Proof.
  assert (forall w, nd_within w -> nd_within w /\ (native_wf nenv (nd_state w) -> table_state_wf (ns_tables (nd_state w)) ->
    native_wf nenv (nd_state w) /\ table_state_wf (ns_tables (nd_state w)) /\
    total_ram_usage (ns_tables (nd_state w)) - total_ram_usage (ns_tables (nd_state w)) =
      state_bill (nd_state w) - state_bill (nd_state w) + (corrections_of w - corrections_of w))) as Hsame
    by (intros w0 Hin; split; [done|]; intros ??; split_and!; [done..|lia]).
  destruct h; cbn; intros Hr.
  - apply bind_Ok in Hr as ([r' t] & Hc%call_op_run & [= _ <-]). intros [Hin [Hsm Hfit]]. split; [done|]. intros Hwf Htw. cbn.
    destruct (run_op_kept c _ _ t Htw Hsm Hfit Hc) as [Htw' Hgap]. split_and!; [by apply set_tables_wf|done|].
    specialize (Hgap None). unfold ram_gap in Hgap. unfold state_bill, corrections_of.
    change (native_bill _ (with_tables t (nd_state w))) with (native_bill (ne_pack_size nenv) (nd_state w)). cbn in *. lia.
  - apply bind_Ok in Hr as (s' & Hs & [= _ <-]). intros [Hin Hfit]. split; [done|]. intros Hwf Htw. cbn.
    destruct (apply_native_steps _ _ _ _ _ laws Hwf Hfit Hs) as [Hwf' Hm].
    destruct (ram_moved_wf _ _ _ Hm Htw) as [Htw' Eb]. split_and!; [done..|]. pose proof (rm_used _ _ _ Hm) as Hu. cbn in Hu.
    unfold state_bill, corrections_of in *. cbn. lia.
  - apply bind_Ok in Hr as (_ & _ & Hr). apply bind_Ok in Hr as ([[r' s'] g'] & Hp & [= _ <-]). intros Hin. split; [done|].
    intros Hwf Htw. destruct (privileged_kept _ _ _ _ _ _ _ Hwf Hp) as (W' & Ht' & Eu & Eb). cbn.
    split_and!; [done|by apply Ht'|]. unfold corrections_of. cbn. lia.
  - apply bind_Ok in Hr as (d & Hd & [= _ <-]). apply deferred_balanced. intros Hfit Hwf.
    unfold send_deferred in Hd. apply bind_Ok in Hd as (trx & Ht & Hd).
    eapply schedule_deferred_step; [done|by apply (sent_fits _ _ _ _ _ Hfit)|exact Hd].
  - apply bind_Ok in Hr as ([b d] & Hd & [= _ <-]). apply deferred_balanced. intros _ Hwf. by eapply cancel_deferred_moves.
  - injection Hr as _ <-. apply Hsame.
  - apply bind_Ok in Hr as ([[x y] z] & _ & [= _ <-]). apply Hsame.
  - apply bind_Ok in Hr as (x & _ & [= _ <-]). apply Hsame.
  - apply bind_Ok in Hr as ([b rl] & Hl & [= _ <-]). intros [Hin _]. split; [done|]. intros [W C] Htw. cbn.
    split_and!; [split; [by eapply set_limits_wf, W; eapply set_account_limits_grow|done]|done|].
    unfold state_bill, corrections_of. cbn. unfold native_bill. cbn. lia.
Qed.

Lemma node_balanced_move w0 w w' ts : world_move w w' -> node_balanced w0 w ts -> node_balanced w0 w' ts.
Proof.
  intros [->|(c & h & r & Hr)] Hb; [done|]. cbn in Hr. eapply balanced_step; [done|]. by eapply node_call_balanced.
Qed.

Lemma node_balanced_map w0 f w ts :
  (forall t, table_state_wf t -> table_state_wf (f t)) ->
  (forall t, billed (f t) None = billed t None /\ total_ram_usage (f t) = total_ram_usage t) ->
  node_balanced w0 w ts -> node_balanced w0 (map_tables f w) ts.
Proof.
  intros Hf Hu Hb Hin. destruct (Hb Hin) as (Hwf & Htw & Hram). cbn. destruct (Hu (ns_tables (nd_state w))) as [E1 E2].
  split_and!; [by apply set_tables_wf|by apply Hf|]. rewrite E2, Hram. unfold state_bill, corrections_of. cbn. rewrite E1.
  done.
Qed.

Lemma node_balanced_open w0 w ts : node_balanced w0 w ts -> node_balanced w0 (open_context w) ts.
Proof. apply (node_balanced_map w0 new_action); [apply new_action_wf|done]. Qed.

Lemma node_balanced_clear w0 w ts (t : action_trace) :
  node_balanced w0 w ts -> at_account_ram_deltas t = ram_deltas w -> node_balanced w0 (clear_ram_deltas w) (ts ++ [t]).
Proof. intros Hb _. apply (node_balanced_map w0 take_ram_deltas w ts); [apply take_ram_deltas_wf|done|done]. Qed.

Lemma node_balanced_meta w0 w w' ts : meta_step w w' -> node_balanced w0 w ts -> node_balanced w0 w' ts.
Proof.
  intros (a & m & m' & Hm & Hq & ->) Hb Hin. destruct (Hb Hin) as (Hwf & Htw & Hram). cbn in *.
  rewrite idx_find_view in Hm. assert (key_of m' = key_of m) as Ek by (unfold resequenced in Hq; by rewrite Hq).
  split_and!; [by eapply metadata_wf|done|]. rewrite Hram. unfold state_bill, native_bill, corrections_of. cbn.
  rewrite (idx_modify_insert _ _ _ _ Hm), (code_bill_update _ _ _ m) by done. done.
Qed.

Lemma node_trx_balanced fuel env levels apply_context_free context_free_actions actions (st st' : @trx_state node_world) :
  action_traces st = [] -> executed_action_receipt_digests st = [] ->
  native_wf nenv (nd_state (world st)) -> table_state_wf (ns_tables (nd_state (world st))) ->
  trx_exec fuel env levels apply_context_free context_free_actions actions st = Some (Ok st') ->
  zlength (action_traces st') < 2 ^ 32 -> nd_within (world st') ->
  native_wf nenv (nd_state (world st')) /\ table_state_wf (ns_tables (nd_state (world st'))) /\
  total_ram_usage (ns_tables (nd_state (world st'))) - total_ram_usage (ns_tables (nd_state (world st))) =
    state_bill (nd_state (world st')) - state_bill (nd_state (world st)) +
    (corrections_of (world st') - corrections_of (world st)).
Proof.
  intros Ht Hd Hwf Htw Hrun Hlen Hin.
  assert (node_balanced (world st) (world st) []) as H0 by (intros _; split_and!; [done..|cbn; lia]).
  destruct (trx_exec_settles env (global_action_sequence st) (node_balanced (world st)) (node_balanced (world st))
              ltac:(done) (node_balanced_open _) (node_balanced_move _) (node_balanced_meta _) (node_balanced_clear _)
              _ _ _ _ _ _ _ Ht Hd eq_refl H0 Hrun Hlen) as [[_ Hled _] _].
  destruct Hled as (ts & _ & _ & _ & _ & Hb). by destruct (Hb Hin).
Qed.

(** C4: A whole transaction that succeeds keeps the account, permission, link, code,
    resource, deferred-transaction and contract tables consistent, and its RAM usage is
    exactly the growth of the billable size of the whole state, plus the corrections it
    has recorded for deferred transactions that it replaced.  Its actions run any of
    the nine native handlers and any contracts that use the database intrinsics, the
    privileged intrinsics (limits, privileges, parameters and producers, but not
    [preactivate_feature], whose state is not modelled), notifications, inline actions
    and deferred transactions.  The run must stay within the bounds of the machine,
    which [nd_within] lists: sizes and iterators of 32 bits, RAM corrections below 2^63,
    fewer than 2^32 actions, and no two contracts with one hash. *)
Theorem node_trx_exec fuel env levels apply_context_free context_free_actions actions (st st' : @trx_state node_world) :
  action_traces st = [] -> executed_action_receipt_digests st = [] ->
  native_wf nenv (nd_state (world st)) -> table_state_wf (ns_tables (nd_state (world st))) ->
  trx_exec fuel env levels apply_context_free context_free_actions actions st = Some (Ok st') ->
  zlength (action_traces st') < 2 ^ 32 -> nd_within (world st') ->
  native_wf nenv (nd_state (world st')) /\ table_state_wf (ns_tables (nd_state (world st'))) /\
  total_ram_usage (ns_tables (nd_state (world st'))) - total_ram_usage (ns_tables (nd_state (world st))) =
    state_bill (nd_state (world st')) - state_bill (nd_state (world st)) +
    (corrections_of (world st') - corrections_of (world st)).
Proof. apply node_trx_balanced. Qed.

(** ** Inline actions *)

Lemma inline_auths_uninherited enforce c (w : node_world) auths acc acc' :
  foldM (inline_auth_step enforce false c w) acc auths = Ok acc' -> acc'.2 = acc.2.
Proof.
  clear laws. revert acc. induction auths as [|auth auths IH]; intros [actors inherited] Hf; cbn [foldM] in Hf; [by inv_run|].
  apply bind_Ok in Hf as (acc1 & Hs & Hf). apply IH in Hf. rewrite Hf. unfold inline_auth_step in Hs.
  apply bind_Ok in Hs as (_ & _ & Hs). apply bind_Ok in Hs as (b & _ & Hs). apply bind_Ok in Hs as (_ & _ & [= <-]). done.
Qed.

Lemma native_check_delay aenv cd (d : auth_db TP TU TL TG) a delay special limit :
  native_check aenv cd d a delay = Ok (special, limit) ->
  act_account a <> AuthorizationManager.system_account_name \/ act_name a <> canceldelay_name -> limit = delay.
Proof.
  clear laws. unfold native_check. intros Hn Hc. destruct (Z.eqb_spec (act_account a) AuthorizationManager.system_account_name) as [E|];
    cbn [negb] in Hn; [|congruence].
  destruct Hc as [|Hc]; [done|]. rewrite (proj2 (Z.eqb_neq _ canceldelay_name) Hc) in Hn.
  repeat (destruct (_ =? _); [by repeat inv_res1|]). congruence.
Qed.

(** C25: An unprivileged contract can send an inline action only with authorizations
    that its own code permission, [receiver@sysio.code], grants without any key: each
    one declared is satisfied by that level alone, waits counting at most the time
    since the transaction was published (or as much as it takes, once that time has
    reached [max_transaction_delay]; [canceldelay] also counts the delay of the
    transaction to cancel), and it is high enough for the action's link.  This is for
    nodes that check authorizations, in transactions that are neither read-only nor dry
    runs; without [restrict_action_to_self] the actions a contract sends to itself are
    exempt. *)
Theorem inline_action_authorized env a c (st : @trx_state node_world) c' st' :
  let d := ns_auth (nd_state (world st)) in
  let available := effective_delay (ne_auth nenv) (published_delay env) in
  auth_wf d -> (forall i p, idx_view (permissions d) !! i = Some p -> weights_wf (po_auth p)) ->
  skip_auth_check env = false -> ac_privileged c = false -> trx_read_only env = false -> trx_dry_run env = false ->
  (restrict_action_to_self_activated env = true \/ act_account a <> ac_receiver c) ->
  execute_inline env a c st = Ok (c', st') ->
  exists special limit, native_check (ne_auth nenv) (nc_codec (ne_codec nenv)) d a available = Ok (special, limit) /\
    (act_account a <> AuthorizationManager.system_account_name \/ act_name a <> canceldelay_name -> limit = available) /\
    forall auth, auth ∈ act_authorization a ->
      declared_ok d a special auth /\
      exists delay, delay <= limit /\
        level_granted (authority_of d) [] {[mk_level (ac_receiver c) (sysio_code_name env)]} delay auth.
Proof.
  clear laws. intros d available Hwf Hw Hs Hp Hr Hd Hself Hex. unfold execute_inline in Hex. rewrite Hs, Hp, Hr, Hd in Hex.
  apply bind_Ok in Hex as (_ & _ & Hex). apply bind_Ok in Hex as ([actors inherited] & Hf & Hex).
  apply bind_Ok in Hex as (_ & _ & Hex). cbn [negb andb] in Hex. apply bind_Ok in Hex as ([] & Hc & _).
  assert (restrict_action_to_self_activated env || negb (act_account a =? ac_receiver c) = true) as Hor.
  { destruct Hself as [->|Hne]; [done|]. rewrite (proj2 (Z.eqb_neq _ _) Hne). apply orb_true_r. }
  assert (inherited = ∅) as ->.
  { change inherited with (actors, inherited).2. eapply (inline_auths_uninherited _ c (world st)) with (acc := ([], ∅)).
    rewrite <- Hf. f_equal. f_equal. destruct (restrict_action_to_self_activated env); [done|].
    cbn in Hor |- *. by destruct (act_account a =? ac_receiver c). }
  set (m := check_inline _ _ _ _ _ _) in Hc. assert (m = Ok tt) as Hm.
  { unfold send_to_self_handler in Hc. rewrite Hor in Hc. destruct m as [[]|e]; [done|by destruct e]. }
  destruct (check_authorization_accepts (ne_auth nenv) (nc_codec (ne_codec nenv)) d [a] [] _ (published_delay env)
              (clock (world st)) false ∅ Hwf Hw Hm a) as (special & limit & Hn & Ha); [left|].
  exists special, limit. split; [done|]. split; [by eapply native_check_delay|]. intros auth Hin.
  destruct (Ha auth Hin) as [[Hx|Hg] Ho]; [set_solver|done].
Qed.
End node.
