(* ===== verification/TransactionRam.v ===== *)
(** * RAM of a transaction, from the tables to the account that pays

    Execution sums up the growth of the state; billing moves the RAM usage of one
    account by that sum.  Together: what the accounts are charged for is what the state
    grew by. *)

From S2P Require Import Prelude Exceptions Types Chainbase ObjectIndex IteratorCache Accumulators ResourceLimits.
From S2P Require Import Authority AuthorizationManager ContractTables ContractTableProps ContractTableTheorems.
From S2P Require Import AccessLists TransactionContext TransactionContextProps ActionExecution ActionTraces.
From S2P Require Import NativeActions NativeAccounts Privileged Deferred HostCalls NodeWorld.

Section ram.
Context `{SoftFloat} {TT KT IT TP TU TL TG TA TM TC LT UT : Type}.
Context `{!ObjectIndex table_id_object TT tid_conflict}.
Context `{!ObjectIndex key_value_object KT kv_conflict}.
Context `{!ObjectIndex index_object IT ix_conflict}.
Context `{!ChainIndex Z permission_object TP} `{!ChainIndex Z Z TU}
  `{!ChainIndex (Z * Z * Z) Z TL} `{!ChainIndex digest generated_transaction TG}.
Context `{!ChainIndex Z account_object TA} `{!ChainIndex Z account_metadata_object TM}
  `{!ChainIndex (digest * Z * Z) code_object TC}.
Context `{!ChainIndex (bool * Z) resource_limits_object LT} `{!ChainIndex Z resource_usage_object UT}.
Local Abbreviation world_type := (@node_world TT KT IT TP TU TL TG TA TM TC LT UT).

Context (nenv : native_env) (penv : priv_env) (denv : deferred_env) (clock : world_type -> res unit)
  (hash_output : world_type -> action -> list Z -> res digest) (laws : native_laws nenv).
#[local] Instance ram_world : ActionWorld world_type node_call node_answer :=
  node_action_world nenv penv denv clock hash_output.

Definition ram_of (rl : rl_db LT UT) (a : Z) : Z :=
  match idx_view (usage_idx rl) !! a with Some u => ram_usage u | None => 0 end.

(** The context that goes into billing after execution. *)
Definition after_exec (st : @trx_state world_type) (c : trx_context) : trx_context :=
  let t := ns_tables (nd_state (world st)) in
  set_ram_usage (total_ram_usage t) (merge_sort Z.le (elements (validate_ram_usage t))) c.

(** C23: From the first action to the bill: when a transaction of native actions and
    contracts has run and is paid for, billing moves the RAM usage of exactly one
    account, and by exactly the amount the billable size of the whole state (accounts,
    permissions, links, code, deferred transactions and contract tables) has grown,
    plus the corrections recorded for replaced deferred transactions.  The bounds are
    those of [node_trx_exec], and the sum of the RAM deltas is within [int64_t]. *)
Theorem transaction_ram_conserved fuel env levels apply_context_free context_free_actions actions
    (st st' : @trx_state world_type) tenv gl cpu net c (rl' : rl_db LT UT) :
  let s := nd_state (world st) in
  let s' := nd_state (world st') in
  action_traces st = [] -> executed_action_receipt_digests st = [] ->
  native_wf nenv s -> table_state_wf (ns_tables s) -> total_ram_usage (ns_tables s) = 0 ->
  trx_exec fuel env levels apply_context_free context_free_actions actions st = Some (Ok st') ->
  Z.of_nat (length (action_traces st')) < 2 ^ 32 -> nd_within (world st') ->
  is_i64 (total_ram_usage (ns_tables s')) -> ram_in_range (ns_rl s') ->
  bill tenv gl cpu net (after_exec st' c) (ns_rl s') = Ok rl' ->
  exists payer, forall a,
    ram_of rl' a - ram_of (ns_rl s') a =
      if a =? payer
      then state_bill nenv s' - state_bill nenv s + (corrections_of (world st') - corrections_of (world st)) else 0.
Proof.
  intros s s' Ht Hd Hwf Htw H0 Hrun Hlen Hin Hi Hr Hb.
  destruct (node_trx_balanced _ _ _ _ _ laws _ _ _ _ _ _ _ _ Ht Hd Hwf Htw Hrun Hlen Hin) as (_ & _ & Htot).
  apply bill_payer in Hb as (payer & Hc & _). apply charge_charges in Hc; [|done|exact Hi].
  destruct Hc as [(u & u' & Hu & Hu' & Hram & _) _ Ho _ _]. exists payer. intros a. unfold ram_of.
  destruct (a =? payer) eqn:E; bool_to_Z.
  - subst a. rewrite Hu, Hu', Hram. cbn in Hram |- *. subst s s'. lia.
  - rewrite (Ho a E). destruct (idx_view (usage_idx (ns_rl s')) !! a); lia.
Qed.
End ram.
