(* ===== verification/NodeExample.v ===== *)
(** * Native actions and contracts run on concrete tables

    A new chain, on which accounts are created, one gets code and a link; then a
    transaction of a native action and a contract that stores a row, notifies an account
    and sends an inline action with that account's authority, and one in which
    [reducepolicy] takes RAM back.  The theorems on native actions, action execution and
    billing are applied to them. *)

From S2P Require Import Prelude Exceptions Types Name Chainbase ObjectIndex IteratorCache Accumulators Authority Assets.
From S2P Require Import AuthorityChecker AuthorizationManager ResourceLimits ContractTables ContractTableProps.
From S2P Require Import ContractTableTheorems ContractTableSpecs AccessLists TransactionContext TransactionContextProps.
From S2P Require Import ActionExecution ActionExecutionProps ActionTraces TableCalls NativeActions NativeCode.
From S2P Require Import NativeAccounts NativeActionProps NativeReachable Packing ChainPacking ChainConfig Privileged.
From S2P Require Import Deferred HostCalls ReducePolicy NodeWorld TransactionRam.

Module NodeExample.

Local Abbreviation example_state := (@native_state (obj_table tid_conflict) (obj_table kv_conflict) (obj_table ix_conflict)
  (gmap Z permission_object) (gmap Z Z) (gmap (Z * Z * Z) Z) (gmap digest generated_transaction)
  (gmap Z account_object) (gmap Z account_metadata_object) (gmap (digest * Z * Z) code_object)
  (gmap (bool * Z) resource_limits_object) (gmap Z resource_usage_object)).
Local Abbreviation example_world := (@node_world (obj_table tid_conflict) (obj_table kv_conflict) (obj_table ix_conflict)
  (gmap Z permission_object) (gmap Z Z) (gmap (Z * Z * Z) Z) (gmap digest generated_transaction)
  (gmap Z account_object) (gmap Z account_metadata_object) (gmap (digest * Z * Z) code_object)
  (gmap (bool * Z) resource_limits_object) (gmap Z resource_usage_object)).

Definition alice : Z := AuthWitness.alice.
Definition key_auth : authority := AuthWitness.key_auth AuthWitness.k1.
Definition bob : Z := Eval vm_compute in n_ "bob".
Definition transfer_name : Z := Eval vm_compute in n_ "transfer".

(** Bob lets the code of Alice act for his active permission. *)
Definition bob_active : authority := mk_authority 1 [] [mk_plw (mk_level alice code_permission_name) 1] [].

(** One payload of each kind, and the accounts by number. *)
Definition payload {A} (a : A) (data : list Z) : res A := if bool_decide (data = []) then Ok a else Throw fc_std_exception_wrapper.
Definition new_account (data : list Z) : res newaccount :=
  match data with
  | [] => Ok (mk_newaccount sysio_name alice key_auth key_auth)
  | [1] => Ok (mk_newaccount sysio_name bob key_auth bob_active)
  | [2] => Ok (mk_newaccount sysio_name roa_name key_auth key_auth)
  | _ => Throw fc_std_exception_wrapper
  end.
Definition codec0 : native_codec := mk_native_codec
  (mk_codec (payload (mk_updateauth alice transfer_name active_name key_auth)) (payload (mk_deleteauth alice transfer_name))
     (payload (mk_linkauth alice sysio_name transfer_name active_name)) (payload (mk_unlinkauth alice sysio_name transfer_name))
     (payload (mk_canceldelay (mk_level alice active_name) digest_zero)))
  new_account (payload (mk_setcode alice 0 0 [1; 2; 3]))
  (payload (mk_setabi alice [9; 9])).

Definition sha (b : list Z) : digest := mk_digest 1 (foldr (fun x acc => x + 257 * acc) 0 b) 0 0.
Definition nenv : native_env :=
  mk_native_env AuthWitness.env codec0 false false (mk_lists [] [] [] [] [] []) 10 true false (fun _ => Ok tt) sha (fun _ => 34).

Lemma laws : native_laws nenv.
Proof.
  split; cbn; try (intros d x; unfold payload; case_bool_decide; [intros [= <-]; vm_compute; done|done]); try done.
  intros d x. unfold new_account. repeat case_match; try done; intros [= <-]; vm_compute; done.
Qed.

Definition or_else {A} (m : res A) (d : A) : A := match m with Ok a => a | Throw _ => d end.
Lemma or_else_ok {A} (m : res A) d : is_ok m = true -> m = Ok (or_else m d).
Proof. by destruct m. Qed.

Definition new_chain : res example_state := initialize_accounts nenv 1000 [5] AuthWitness.k1 ContractTableExample.s0.
Definition genesis : example_state :=
  or_else new_chain (mk_native ∅ ∅ ∅ AuthWitness.d3 ResourceLimits.initialize_database ContractTableExample.s0).

Lemma genesis_ok : new_chain = Ok genesis.
Proof. apply or_else_ok. vm_compute. reflexivity. Qed.

Definition sysio_action (name actor0 : Z) : action := mk_action sysio_name name [mk_level actor0 active_name] [].
Definition info (a : action) : context_info := mk_info sysio_name a true false true false.

Definition run (h : native_action) (name actor0 : Z) (s : example_state) : example_state :=
  or_else (apply_native nenv h (info (sysio_action name actor0)) s) genesis.

Definition with_alice : example_state := run na_newaccount newaccount_name sysio_name genesis.
Definition with_code : example_state := run na_setcode setcode_action alice with_alice.
Definition with_link : example_state := run na_linkauth linkauth_name alice with_code.

Lemma with_alice_ok : apply_native nenv na_newaccount (info (sysio_action newaccount_name sysio_name)) genesis = Ok with_alice.
Proof. apply or_else_ok. vm_compute. reflexivity. Qed.
Lemma with_code_ok : apply_native nenv na_setcode (info (sysio_action setcode_action alice)) with_alice = Ok with_code.
Proof. apply or_else_ok. vm_compute. reflexivity. Qed.
Lemma with_link_ok : apply_native nenv na_linkauth (info (sysio_action linkauth_name alice)) with_code = Ok with_link.
Proof. apply or_else_ok. vm_compute. reflexivity. Qed.

#[local] Opaque genesis with_alice with_code with_link.

Lemma no_codes : ns_codes with_alice = ∅.
Proof. apply map_empty. intros k. revert k. apply map_empty. vm_compute. reflexivity. Qed.

Lemma no_collision_alice : no_collision nenv [1; 2; 3] with_alice.
Proof. intros k o Hk. cbn in Hk. rewrite no_codes in Hk. exact (False_ind _ (lookup_empty_Some _ _ Hk)). Qed.

Lemma with_code_fits h a : action_fits nenv h (info a) with_alice.
Proof.
  intros _ x. cbn. unfold payload. destruct (bool_decide _); intros E; [|discriminate E].
  injection E as <-. apply no_collision_alice.
Qed.

Lemma fits_other (h : native_action) (c : context_info) (s : example_state) : h <> na_setcode -> action_fits nenv h c s.
Proof. intros Hh E. destruct (Hh E). Qed.

Lemma genesis_wf : native_wf nenv genesis.
Proof. exact (initialize_accounts_wf nenv _ [5] _ _ _ laws eq_refl genesis_ok). Qed.
Lemma with_alice_wf : native_wf nenv with_alice.
Proof. exact (proj1 (apply_native_steps nenv na_newaccount _ _ _ laws genesis_wf (fits_other na_newaccount _ _ ltac:(discriminate)) with_alice_ok)). Qed.
Lemma with_code_wf : native_wf nenv with_code.
Proof. exact (proj1 (apply_native_steps nenv na_setcode _ _ _ laws with_alice_wf (with_code_fits _ _) with_code_ok)). Qed.

Lemma native_reachable_wf_witness : native_reachable nenv with_link /\ native_wf nenv with_link.
Proof.
  assert (native_reachable nenv with_link) as Hr.
  { eapply (nr_action nenv nenv na_linkauth); [reflexivity|reflexivity|exact laws| |by apply fits_other|exact with_link_ok].
    eapply (nr_action nenv nenv na_setcode); [reflexivity|reflexivity|exact laws| |apply with_code_fits|exact with_code_ok].
    eapply (nr_action nenv nenv na_newaccount); [reflexivity|reflexivity|exact laws| |by apply fits_other|exact with_alice_ok].
    by eapply (nr_genesis nenv nenv _ [5]); [reflexivity|reflexivity|exact laws|reflexivity|exact genesis_ok]. }
  split; [exact Hr|]. exact (native_reachable_wf nenv with_link Hr).
Defined.

Lemma native_action_ram_witness :
  total_ram_usage (ns_tables with_code) - total_ram_usage (ns_tables with_alice) = 30 /\
  native_bill (fun _ => 34) with_code - native_bill (fun _ => 34) with_alice = 30.
Proof.
  pose proof (native_action_ram nenv na_setcode _ _ _ laws with_alice_wf (with_code_fits _ _) with_code_ok) as [E _].
  assert (total_ram_usage (ns_tables with_code) - total_ram_usage (ns_tables with_alice) = 30) as E' by (vm_compute; reflexivity).
  split; [exact E'|]. rewrite E' in E. symmetry. exact E.
Defined.

Lemma setcode_stores_code_witness :
  exists m', idx_view (ns_metadata with_code) !! alice = Some m' /\
    exists o, idx_view (ns_codes with_code) !! key_of m' = Some o /\ code o = [1; 2; 3].
Proof.
  assert (setcode_body nenv (info (sysio_action setcode_action alice)) (mk_setcode alice 0 0 [1; 2; 3]) with_alice = Ok with_code)
    as Hs by exact with_code_ok.
  destruct (setcode_stores_code nenv _ (mk_setcode alice 0 0 [1; 2; 3]) _ _ laws with_alice_wf eq_refl no_collision_alice Hs)
    as (m & m' & _ & Em & _ & Hc & _).
  exists m'. split; [rewrite Em; apply lookup_insert_eq|]. exact (proj2 Hc).
Defined.

Lemma authority_precondition_sound_witness :
  exists p, get_permission (ns_auth with_alice) (mk_level alice active_name) = Ok p.
Proof.
  assert (validate_authority_precondition nenv (mk_authority 1 [] [mk_plw (mk_level alice active_name) 1] []) with_alice = Ok tt)
    as Hv by (vm_compute; reflexivity).
  pose proof (authority_precondition_sound nenv _ _ with_alice_wf Hv) as Hf.
  inversion Hf as [|x l [Hx|Hx] _]; [|exact Hx]. exfalso. revert Hx. vm_compute. discriminate.
Defined.

Lemma native_links_resolved_witness : links_resolved with_link.
Proof.
  apply (native_links_resolved nenv na_linkauth (info (sysio_action linkauth_name alice)) with_code with_link with_code_wf eq_refl).
  - assert (links (ns_auth with_code) = ∅) as E by (apply map_empty; intros k; revert k; apply map_empty; vm_compute; reflexivity).
    intros a c t r Hk. cbn in Hk. rewrite E in Hk. exact (False_ind _ (lookup_empty_Some _ _ Hk)).
  - exact with_link_ok.
Defined.

(** ** A transaction of a native action and a contract *)

Definition opened : example_state :=
  or_else (apply_native nenv na_newaccount (info (mk_action sysio_name newaccount_name [mk_level sysio_name active_name] [1])) with_code) genesis.
Lemma with_bob_ok :
  apply_native nenv na_newaccount (info (mk_action sysio_name newaccount_name [mk_level sysio_name active_name] [1])) with_code = Ok opened.
Proof. apply or_else_ok. vm_compute. reflexivity. Qed.

(** A transaction starts to count its RAM at zero. *)
Definition new_transaction (t : @table_state (obj_table tid_conflict) (obj_table kv_conflict) (obj_table ix_conflict)) :=
  mk_ts (tables t) (key_values t) (indices t) (keyval_cache t) (itr_cache t) (_account_ram_deltas t) 0 ∅.
Definition with_bob : example_state := with_tables (new_transaction (ns_tables opened)) opened.

Lemma new_transaction_wf t : table_state_wf t -> table_state_wf (new_transaction t).
Proof. intros []. by constructor. Qed.

Lemma with_bob_wf : native_wf nenv with_bob.
Proof.
  enough (native_wf nenv opened) as [[] ?] by (split; [by constructor|done]).
  exact (proj1 (apply_native_steps nenv na_newaccount _ _ _ laws with_code_wf (fits_other na_newaccount _ _ ltac:(discriminate)) with_bob_ok)).
Qed.

Definition go : action := mk_action alice (n_ "go") [mk_level alice active_name] [].
Definition finish : action := mk_action alice (n_ "finish") [mk_level bob active_name] [].
Definition later : transaction := mk_transaction 0 0 0 0 5 10 [] [mk_action alice (n_ "later") [mk_level bob active_name] []] [].
Definition later_data : list Z := Eval vm_compute in or_else (pack p_transaction later) [].

(** What Alice's contract does: it stores a row, notifies Bob, and sends an inline action
    and a deferred transaction with his authority. *)
Definition contract (i : context_info) : @program node_call node_answer :=
  if (receiver i =? alice) && (act_name (act i) =? n_ "go") then
    p_call (call_world (nc_table (op_store 5 6 alice 1 [7]))) (fun _ =>
    p_call (call_require_recipient bob) (fun _ =>
    p_call (call_execute_inline finish) (fun _ =>
    p_call (call_world (nc_send_deferred 77 alice later_data 0)) (fun _ => p_exit))))
  else p_exit.

Definition env : @exec_env node_call node_answer :=
  mk_exec_env false false false false false false true true false true false 0 (mk_lists [] [] [] [] [] [])
    sysio_name setcode_action code_permission_name find_native_handler (fun _ _ _ i => contract i)
    (fun a => mk_digest (act_name a) 0 0 0) (fun r => mk_digest (r_global_sequence r) 0 0 0).

Definition penv : priv_env := PrivilegedExample.env.
Definition denv : deferred_env :=
  mk_deferred_env TransactionExample.env (mk_digest 5 0 0 0) TransactionExample.block_id true true true false false [] 0 0.

#[local] Instance world_ops : ActionWorld example_world node_call node_answer :=
  node_action_world nenv penv denv (fun _ => Ok tt) (fun _ a _ => Ok (mk_digest (act_name a) 0 0 0)).

Definition start : @trx_state example_world := mk_trx (mk_node with_bob PrivilegedExample.g1 0 ∅ True) 1000 [] [].
Definition actions0 : list action := [sysio_action setabi_name alice; go].
Definition transaction_run : option (res (@trx_state example_world)) := trx_exec 3 env 3 false [] actions0 start.
Definition result_or {A} (d : A) (r : option (res A)) : A := match r with Some (Ok a) => a | _ => d end.
Definition finished : @trx_state example_world := result_or start transaction_run.

Lemma node_run_finished : transaction_run = Some (Ok finished).
Proof.
  assert (match transaction_run with Some (Ok _) => true | _ => false end = true) as E by (vm_compute; reflexivity).
  unfold finished, result_or. destruct transaction_run as [[st|e]|]; [reflexivity|discriminate E|discriminate E].
Qed.

Lemma node_finished_length : zlength (action_traces finished) < 2 ^ 32.
Proof. vm_compute. reflexivity. Qed.

Lemma node_finished_within : nd_within (world finished).
Proof.
  vm_compute. split; [split; [split; [exact I|intros E; discriminate E]|split; [|reflexivity]]|].
  - apply table_state_small_check. vm_compute. reflexivity.
  - constructor. intros trx Ht. vm_compute in Ht. injection Ht as <-. split.
    + intros t b Hp Hb. vm_compute in Hp. injection Hp as <-. vm_compute in Hb. injection Hb as <-. vm_compute. reflexivity.
    + intros x n Hx. vm_compute in Hx. discriminate Hx.
Qed.


Lemma with_bob_tables : table_state_wf (ns_tables with_bob).
Proof.
  assert (table_state_wf (ns_tables genesis)) as H0 by exact ContractTableExample.s0_wf.
  destruct (apply_native_steps nenv na_newaccount _ _ _ laws genesis_wf (fits_other na_newaccount _ _ ltac:(discriminate)) with_alice_ok)
    as [_ H1].
  destruct (apply_native_steps nenv na_setcode _ _ _ laws with_alice_wf (with_code_fits _ _) with_code_ok) as [_ H2].
  destruct (apply_native_steps nenv na_newaccount _ _ _ laws with_code_wf (fits_other na_newaccount _ _ ltac:(discriminate)) with_bob_ok)
    as [_ H3].
  exact (new_transaction_wf _ (proj1 (ram_moved_wf _ _ _ H3 (proj1 (ram_moved_wf _ _ _ H2 (proj1 (ram_moved_wf _ _ _ H1 H0))))))).
Qed.

#[local] Opaque with_bob finished.

Lemma node_trx_exec_witness :
  total_ram_usage (ns_tables (nd_state (world finished))) - total_ram_usage (ns_tables with_bob) =
    state_bill nenv (nd_state (world finished)) - state_bill nenv with_bob +
    (corrections_of (world finished) - corrections_of (world start)).
Proof.
  exact (proj2 (proj2 (node_trx_exec nenv penv denv (fun _ => Ok tt) (fun _ a _ => Ok (mk_digest (act_name a) 0 0 0)) laws
    3 env 3 false [] actions0 start finished eq_refl eq_refl with_bob_wf with_bob_tables node_run_finished
    node_finished_length node_finished_within))).
Defined.

Lemma trx_exec_terminates_witness :
  (forall w : example_world, ActionExecution.max_inline_action_depth w < 2 ^ 16) /\
  exists r, forall fuel levels, 2 ^ 64 < Z.of_nat fuel -> 2 ^ 16 < Z.of_nat levels ->
    trx_exec fuel env levels false [] actions0 start = Some r.
Proof.
  assert (forall w : example_world, ActionExecution.max_inline_action_depth w < 2 ^ 16) as Hd
    by (intros w; apply (Z.mod_pos_bound _ (2 ^ 16) eq_refl)).
  split; [exact Hd|]. exact (trx_exec_terminates Hd env false [] actions0 start).
Defined.

(** The native action, the contract's, Bob's copy of it and the inline action. *)
Lemma trx_exec_receipts_witness :
  length (action_traces finished) = 4%nat /\
  exists rs, Some <$> rs ≡ₚ at_receipt <$> action_traces finished /\
    executed_action_receipt_digests finished = receipt_digest env <$> rs /\
    r_global_sequence <$> rs = [1001; 1002; 1003; 1004].
Proof.
  split; [vm_compute; reflexivity|].
  exact (trx_exec_receipts 3 env 3 false [] actions0 start finished eq_refl eq_refl node_run_finished node_finished_length).
Defined.

Lemma trx_exec_tree_witness :
  at_closest <$> action_traces finished = [0; 0; 2; 2] /\ traces_wf (action_traces finished).
Proof.
  split; [vm_compute; reflexivity|].
  exact (trx_exec_tree 3 env 3 false [] actions0 start finished eq_refl eq_refl node_run_finished node_finished_length).
Defined.

(** ** Bob's permission lets the inline action pass *)

Lemma with_bob_weights i p : idx_view (permissions (ns_auth with_bob)) !! i = Some p -> weights_wf (po_auth p).
Proof.
  revert i p. change (map_Forall (fun _ p => Forall (fun k => is_u16 (kw_weight k)) (keys (po_auth p)) /\
    Forall (fun a => is_u16 (plw_weight a)) (accounts (po_auth p)) /\
    Forall (fun w => is_u16 (ww_weight w)) (waits (po_auth p))) (idx_view (permissions (ns_auth with_bob)))).
  apply (bool_decide_unpack _). vm_compute. exact I.
Qed.

Definition scheduled : @trx_state example_world := schedule_input false start go.
Definition go_context : apply_context := mk_apply alice go false false 0 1 1 [(alice, 1)] [] [] [].

Lemma inline_action_authorized_witness :
  is_ok (execute_inline env finish go_context scheduled) = true /\
  exists delay, delay <= 0 /\
    level_granted (authority_of (ns_auth with_bob)) [] {[mk_level alice code_permission_name]} delay (mk_level bob active_name).
Proof.
  assert (is_ok (execute_inline env finish go_context scheduled) = true) as Hok by (vm_compute; reflexivity).
  split; [exact Hok|].
  destruct (execute_inline env finish go_context scheduled) as [[c' st']|e] eqn:E; [|discriminate Hok].
  destruct (inline_action_authorized nenv penv denv (fun _ => Ok tt) (fun _ a _ => Ok (mk_digest (act_name a) 0 0 0))
              env finish go_context scheduled c' st' (nw_auth _ _ _ (proj1 with_bob_wf)) with_bob_weights
              eq_refl eq_refl eq_refl eq_refl (or_introl eq_refl) E) as (special & limit & _ & El & Ha).
  destruct (Ha (mk_level bob active_name)) as (_ & delay & Hd & Hg); [left|].
  exists delay. split; [|exact Hg]. rewrite El in Hd by (left; discriminate). exact Hd.
Defined.

(** ** The system account pays for the transaction *)

Definition paying_env : trx_env := with_trx (mk_transaction 1100 0 0 0 5 0 [] actions0 []) TransactionExample.env.
Definition context : trx_context := TransactionExample.c1.
Definition billed_rl :=
  or_else (bill paying_env 1000 500 128 (after_exec finished context) (ns_rl (nd_state (world finished)))) (ns_rl with_bob).

Lemma billed_rl_ok :
  bill paying_env 1000 500 128 (after_exec finished context) (ns_rl (nd_state (world finished))) = Ok billed_rl.
Proof. apply or_else_ok. vm_compute. reflexivity. Qed.

Lemma finished_range : ram_in_range (ns_rl (nd_state (world finished))).
Proof.
  unfold ram_in_range. change (map_Forall (fun _ u => is_u64 (ram_usage u)) (idx_view (usage_idx (ns_rl (nd_state (world finished)))))).
  apply (bool_decide_unpack _). vm_compute. exact I.
Qed.
Lemma finished_total : is_i64 (total_ram_usage (ns_tables (nd_state (world finished)))).
Proof. apply (bool_decide_unpack _). vm_compute. exact I. Qed.
#[local] Opaque billed_rl.

Lemma transaction_ram_conserved_witness :
  exists payer, forall a,
    ram_of billed_rl a - ram_of (ns_rl (nd_state (world finished))) a =
      if a =? payer
      then state_bill nenv (nd_state (world finished)) - state_bill nenv with_bob +
           (corrections_of (world finished) - corrections_of (world start)) else 0.
Proof.
  exact (transaction_ram_conserved nenv penv denv (fun _ => Ok tt) (fun _ a _ => Ok (mk_digest (act_name a) 0 0 0)) laws
           3 env 3 false [] actions0 start finished paying_env 1000 500 128 context billed_rl
           eq_refl eq_refl with_bob_wf with_bob_tables eq_refl node_run_finished node_finished_length node_finished_within
           finished_total finished_range billed_rl_ok).
Defined.
End NodeExample.
