(* ===== verification/SchedulePipeline.v ===== *)
(** * From a proposed schedule to the active one ([controller.cpp], [block_header_state.cpp])

    A schedule a contract proposes waits in the global properties until its block is
    irreversible, is then promoted to pending by [start_block] and written into the
    header, and becomes active when that block is irreversible.  This file composes
    the intrinsics of [Privileged], the step of [start_block] and the header state. *)

From S2P Require Import Prelude Exceptions Types Authority ProducerSchedule BlockHeaderState.
From S2P Require Import Packing ChainPacking ChainConfig Privileged.

(** ** The controller *)

(** [start_block]: the promotion of the proposed schedule *)
Definition promote_proposed (g : global_properties) (p : pending_block_header_state)
  : res (option producer_authority_schedule * global_properties) :=
  match proposed_schedule_block_num g with
  | Some n =>
    if (n <=? dpos_irreversible_blocknum (p_common p))
       && bool_decide (producers (schedule (p_prev_pending_schedule p)) = [])
    then _ ← sys_assert (schedule_version (proposed_schedule g) =? u32 (p_active_schedule_version p + 1))
               producer_schedule_exception;
         Ok (Some (proposed_schedule g), set_proposal None empty_schedule g)
    else Ok (None, g)
  | None => Ok (None, g)
  end.

(** [active_producers] and [pending_producers] of a block that is being built;
    [new] is its [_new_pending_producer_schedule]. *)
Definition active_producers (p : pending_block_header_state) : producer_authority_schedule :=
  active_schedule (p_common p).
Definition pending_producers (p : pending_block_header_state) (new : option producer_authority_schedule)
  : producer_authority_schedule :=
  match new with Some s => s | None => schedule (p_prev_pending_schedule p) end.

(** What an intrinsic called in this block reads of the controller *)
Record in_block (p : pending_block_header_state) (new : option producer_authority_schedule) (e : priv_env) : Prop := {
  ib_num : u32 (pe_head_block_num e + 1) = block_num (p_common p);
  ib_active : pe_active_producers e = active_producers p;
  ib_pending : pe_pending_producers e = pending_producers p new }.

Inductive contract_step (p : pending_block_header_state) (new : option producer_authority_schedule)
  : global_properties -> global_properties -> Prop :=
| contract_proposes e b g v g' :
    in_block p new e -> set_proposed_producers e b g = Ok (v, g') -> contract_step p new g g'
| contract_proposes_ex e f b g v g' :
    in_block p new e -> set_proposed_producers_ex e f b g = Ok (v, g') -> contract_step p new g g'
| contract_sets_wasm e b g g' : set_wasm_parameters_packed e b g = Ok g' -> contract_step p new g g'
| contract_sets_blockchain e b g g' : set_blockchain_parameters_packed e b g = Ok g' -> contract_step p new g g'
| contract_sets_parameters e b g g' : set_parameters_packed e b g = Ok g' -> contract_step p new g g'.

(** One block on top of the head: the header state steps, the controller promotes,
    contracts run, the header is made, signed and finished. *)
Inductive block_step (cr : crypto)
  : global_properties * block_header_state -> global_properties * block_header_state -> Prop :=
| apply_block g s when_ confirmed p new g1 g2 wt trx_root action_root features s_header h sg sigs validator skip s' :
    next cr s when_ confirmed = Ok p ->
    promote_proposed g p = Ok (new, g1) ->
    rtc (contract_step p new) g1 g2 ->
    make_block_header cr p wt trx_root action_root new features s_header = Ok h ->
    finish_next cr p (set_producer_signature h sg) sigs wt validator skip = Ok s' ->
    block_step cr (g, s) (g2, s').

(** ** The invariant *)

(** The schedule a new proposal follows *)
Definition latest (active pending : producer_authority_schedule) : producer_authority_schedule :=
  if bool_decide (producers pending = []) then active else pending.

Definition proposal_follows (g : global_properties) (latest_ : producer_authority_schedule) : Prop :=
  match proposed_schedule_block_num g with
  | Some _ => schedule_version (proposed_schedule g) = u32 (schedule_version latest_ + 1)
  | None => True
  end.

Record pipeline_wf (gs : global_properties * block_header_state) : Prop := {
  pp_nonempty : producers (active_schedule (bhs_common gs.2)) <> [];
  pp_active : producers_wf (producers (active_schedule (bhs_common gs.2)));
  pp_pending : producers_wf (producers (schedule (pending_schedule gs.2)));
  pp_proposed : producers_wf (producers (proposed_schedule gs.1));
  pp_follows : proposal_follows gs.1 (latest (active_schedule (bhs_common gs.2)) (schedule (pending_schedule gs.2))) }.

(** The schedules [next] leaves, by whether it promoted the pending one. *)
Lemma next_schedules cr s when_ confirmed p : next cr s when_ confirmed = Ok p ->
  p_prev_pending_schedule p = pending_schedule s /\
  p_active_schedule_version p = schedule_version (active_schedule (bhs_common s)) /\
  (if p_was_pending_promoted p
   then producers (schedule (pending_schedule s)) <> [] /\ active_schedule (p_common p) = schedule (pending_schedule s)
   else active_schedule (p_common p) = active_schedule (bhs_common s)).
Proof.
  intros H. apply next_Ok in H as (pa & m & pr & cc & _ & _ & _ & _ & _ & _ & Hp & _ & _ & _ & Hpp & _ & Hv & _ & _ & _ & _ & Ha & _).
  rewrite Hp. split; [done|]. split; [done|]. rewrite Ha. destruct (_ && _) eqn:E; [|done].
  apply andb_true_iff in E as [E _]. split; [|done]. by destruct (producers _).
Qed.

Lemma controller_set_proposed_cases e ps g v g' : controller_set_proposed e ps g = (v, g') ->
  g' = g \/ (producers (proposed_schedule g') = ps /\
             proposed_schedule_block_num g' = Some (u32 (pe_head_block_num e + 1)) /\
             schedule_version (proposed_schedule g') =
               u32 (schedule_version (latest (pe_active_producers e) (pe_pending_producers e)) + 1)).
Proof.
  unfold controller_set_proposed, latest. destruct (_ && _); [by intros [= <- <-]; left|].
  destruct (match proposed_schedule_block_num g with Some _ => _ | None => _ end); [by intros [= <- <-]; left|].
  case_bool_decide; [by intros [= <- <-]; left|]. intros [= <- <-]. by right.
Qed.

Lemma contract_step_follows p new g g' : contract_step p new g g' ->
  producers_wf (producers (proposed_schedule g)) /\ proposal_follows g (latest (active_producers p) (pending_producers p new)) ->
  producers_wf (producers (proposed_schedule g')) /\ proposal_follows g' (latest (active_producers p) (pending_producers p new)).
Proof.
  intros Hst [Hw Hf].
  assert (forall e ps g g' v, in_block p new e -> producers_wf ps -> (v, g') = controller_set_proposed e ps g ->
    producers_wf (producers (proposed_schedule g)) -> proposal_follows g (latest (active_producers p) (pending_producers p new)) ->
    producers_wf (producers (proposed_schedule g')) /\ proposal_follows g' (latest (active_producers p) (pending_producers p new))) as Hset.
  { clear. intros e ps g g' v [Hn Ha Hp] Hps E Hw Hf. symmetry in E.
    apply controller_set_proposed_cases in E as [->|(E1 & E2 & E3)]; [done|].
    rewrite E1. split; [done|]. unfold proposal_follows. by rewrite E2, E3, Ha, Hp. }
  destruct Hst as [e b g v g' He H|e f b g v g' He H|e b g g' H|e b g g' H|e b g g' H].
  - destruct (set_proposed_producers_inv _ _ _ _ H) as (ps & Hps & E). eauto.
  - destruct (set_proposed_producers_ex_inv _ _ _ _ _ H) as (ps & Hps & E). eauto.
  - by apply bind_Ok in H as (u & _ & ([n s] & _ & (u' & _ & ([c r] & _ & ([] & _ & [= <-])%bind_Ok)%bind_Ok)%bind_Ok)%bind_Ok).
  - by apply bind_Ok in H as (u & _ & ([c r] & _ & ([] & _ & [= <-])%bind_Ok)%bind_Ok).
  - by apply bind_Ok in H as (u & _ & ([c r] & _ & ([] & _ & [= <-])%bind_Ok)%bind_Ok).
Qed.

(** ** Promotion *)

Lemma empty_producers_wf : producers_wf [].
Proof. split; [constructor|vm_compute; congruence|constructor..]. Qed.

Lemma promote_proposed_ok cr g s when_ confirmed p : pipeline_wf (g, s) -> next cr s when_ confirmed = Ok p ->
  exists new g1, promote_proposed g p = Ok (new, g1) /\
    producers_wf (producers (proposed_schedule g1)) /\
    proposal_follows g1 (latest (active_producers p) (pending_producers p new)) /\
    match new with
    | None => True
    | Some np => producers_wf (producers np) /\ schedule_version np = u32 (schedule_version (active_schedule (bhs_common s)) + 1) /\
        producers (schedule (pending_schedule s)) = [] /\ check_new_schedule p (schedule_version np) = Ok tt
    end.
Proof.
  intros [Hne Ha Hp Hpr Hf] (Epp & Ev & Hpromo)%next_schedules. cbn [fst snd] in *. unfold promote_proposed.
  assert (proposal_follows g (latest (active_producers p) (schedule (p_prev_pending_schedule p)))) as Hkeep.
  { unfold proposal_follows, latest, active_producers in *. destruct (proposed_schedule_block_num g); [|done].
    rewrite Epp. destruct (p_was_pending_promoted p).
    - destruct Hpromo as [Hn _]. by rewrite !bool_decide_eq_false_2 in * by done.
    - by rewrite Hpromo. }
  destruct (proposed_schedule_block_num g) as [n|] eqn:En; [|by exists None, g].
  destruct (_ && _) eqn:E; [|by exists None, g].
  apply andb_true_iff in E as [_ E%bool_decide_eq_true]. rewrite Epp in E.
  assert (schedule_version (proposed_schedule g) = u32 (schedule_version (active_schedule (bhs_common s)) + 1)) as Hver.
  { unfold proposal_follows in Hf. rewrite En in Hf. unfold latest in Hf. by rewrite bool_decide_eq_true_2 in Hf. }
  rewrite Ev, Hver, Z.eqb_refl. cbn [sys_assert mbind result_bind].
  eexists _, _. split; [reflexivity|]. split; [apply empty_producers_wf|]. split; [done|].
  split_and!; [done|done|done|]. rewrite Hver. unfold check_new_schedule.
  destruct (p_was_pending_promoted p); [by destruct Hpromo|]. rewrite Hpromo, Z.eqb_refl, Epp.
  by rewrite bool_decide_eq_true_2.
Qed.

(** ** The header carries the promoted schedule *)

(** Single-key authorities lose their weights on the way through a legacy header. *)
Definition legacy_of (p q : producer_authority) : Prop :=
  producer_name q = producer_name p /\
  exists k, bsa_keys (pa_authority p) = [k] /\ pa_authority q = mk_bsa 1 [mk_kw (kw_key k) 1].

Lemma to_legacy_spec np l : to_legacy np = Ok l ->
  schedule_version (from_legacy l) = schedule_version np /\ Forall2 legacy_of (producers np) (producers (from_legacy l)).
Proof.
  unfold to_legacy. intros (lps & Hf & [= <-])%bind_Ok. split; [done|]. cbn.
  revert Hf. set (step := fun acc p => _).
  assert (forall ps acc r, foldM step acc ps = Ok r -> exists ls, r = acc ++ ls /\
    Forall2 legacy_of ps (map (fun p => mk_producer_authority (lpk_name p) (mk_bsa 1 [mk_kw (lpk_key p) 1])) ls)) as H.
  { induction ps as [|p ps IH]; intros acc r; cbn [foldM].
    - intros [= <-]. exists []. by rewrite app_nil_r.
    - intros (acc' & Hs & Hf)%bind_Ok. unfold step in Hs.
      destruct (bsa_keys (pa_authority p)) as [|k [|? ?]] eqn:Ek; [done| |done].
      apply bind_Ok in Hs as (u & _ & [= <-]). destruct (IH _ _ Hf) as (ls & -> & Hls).
      exists (mk_legacy_key (producer_name p) (kw_key k) :: ls). rewrite <- app_assoc. split; [done|].
      cbn. constructor; [|done]. split; [done|]. eauto. }
  intros Hf. apply H in Hf as (ls & -> & Hls). exact Hls.
Qed.

Lemma legacy_of_wf ps qs : Forall2 legacy_of ps qs -> producers_wf ps -> producers_wf qs.
Proof.
  intros H [Hok Hc Hn Hs]. split.
  - clear -H Hok. induction H as [|p q ps qs [En (k & Ek & Eq)] _ IH]; [constructor|].
    apply Forall_cons in Hok as [(Hu & Ht & Hkeys) Hok]. constructor; [|by apply IH].
    split; [by rewrite En|]. rewrite Eq, Ek in *. destruct Hkeys as [Hkeys _]. apply Forall_cons in Hkeys as [[Hk _] _].
    split; [cbn; unfold is_u32; lia|]. split; [|unfold max_num_array_elements; cbn; lia].
    cbn. constructor; [|constructor]. split; [exact Hk|]. cbn. unfold is_u16. lia.
  - by rewrite <- (Forall2_length _ _ _ H).
  - assert (producer_name <$> qs = producer_name <$> ps) as ->; [|done].
    clear -H. induction H as [|p q ps qs [En _] _ IH]; [done|]. cbn. by rewrite En, IH.
  - clear -H. induction H as [|p q ps qs [_ (k & _ & Eq)] _ IH]; constructor; [|done]. rewrite Eq.
    split; [split; cbn; [unfold is_u32; lia|constructor; [unfold is_u16; cbn; lia|constructor]]|cbn; lia| |cbn; unfold sum_by; cbn; lia].
    cbn. apply NoDup_singleton.
Qed.

Lemma extract_loop_spec cr exts : forall first lb results r, extract_loop cr first lb exts results = Ok r ->
  exists es, r = results ++ es /\ Forall2 (fun d e => e.1 = d.1 /\ extract cr d.1 d.2 = Ok (Some e.2)) exts es.
Proof.
  induction exts as [|[n data] exts IH]; intros first lb results r; cbn [extract_loop].
  - intros [= <-]. exists []. by rewrite app_nil_r.
  - intros (u & _ & (m & Hm & (e & He%of_option_Ok & (u' & _ & Hl)%bind_Ok)%bind_Ok)%bind_Ok)%bind_Ok.
    subst m. destruct (IH _ _ _ _ Hl) as (es & -> & Hes). exists ((n, e) :: es).
    rewrite <- app_assoc. split; [done|]. by constructor.
Qed.

(** The schedule change among the extensions of a header that was made with [new]. *)
Definition changes_to (cr : crypto) (exts : list (Z * block_header_extension)) (new : option producer_authority_schedule) : Prop :=
  match new with
  | None => exts_count exts producer_schedule_change_id = 0
  | Some np => 0 < exts_count exts producer_schedule_change_id /\
      exts_lower_bound exts producer_schedule_change_id = Some (ext_producer_schedule_change np)
  end.

Ltac list_extensions Hr :=
  cbn in Hr; repeat (apply Forall2_cons_inv_l in Hr as ([? ?] & ? & [? ?] & Hr & ->));
  apply Forall2_nil_inv_l in Hr as ->; cbn in *; subst; cbn in *.

Lemma made_header_extensions cr p wt tr ar new features sh h exts :
  (forall np, new = Some np -> unpack_schedule cr (pack_schedule cr np) = Ok np) ->
  make_block_header cr p wt tr ar new features sh = Ok h ->
  validate_and_extract_header_extensions cr h = Ok exts ->
  match new with
  | None => h_new_producers h = None /\ changes_to cr exts None
  | Some np =>
    if is_builtin_activated (p_prev_activated_protocol_features p) wt
    then h_new_producers h = None /\ changes_to cr exts (Some np)
    else changes_to cr exts None /\ exists l, h_new_producers h = Some l /\ to_legacy np = Ok l
  end.
Proof.
  intros Hcodec. unfold make_block_header. intros ([legacy es] & Hm & [= <-])%bind_Ok Hx.
  apply extract_loop_spec in Hx as (r & -> & Hr). cbn [h_header_extensions app] in Hr.
  destruct new as [np|]; [destruct (is_builtin_activated _ _)|].
  - injection Hm as <- <-. split; [done|]. specialize (Hcodec np eq_refl).
    destruct (bool_decide _), sh; list_extensions Hr;
      repeat match goal with
      | H : (_ ← unpack_schedule _ _; _) = _ |- _ => rewrite Hcodec in H; cbn in H; simplify_eq
      end; by split.
  - apply bind_Ok in Hm as (l & Hl & [= <- <-]). split; [|by exists l].
    by destruct (bool_decide _), sh; list_extensions Hr.
  - injection Hm as <- <-. split; [done|].
    by destruct (bool_decide _), sh; list_extensions Hr.
Qed.

(** What finishing the header leaves as the pending schedule. *)
Lemma finish_next_pending cr p wt tr ar new features sh h sg sigs validator skip s' :
  (forall np, new = Some np -> unpack_schedule cr (pack_schedule cr np) = Ok np) ->
  make_block_header cr p wt tr ar new features sh = Ok h ->
  finish_next cr p (set_producer_signature h sg) sigs wt validator skip = Ok s' ->
  bhs_common s' = p_common p /\
  match new with
  | None => schedule (pending_schedule s') =
      (if p_was_pending_promoted p then mk_schedule (schedule_version (schedule (p_prev_pending_schedule p))) []
       else schedule (p_prev_pending_schedule p))
  | Some np => schedule (pending_schedule s') = np \/
      exists l, to_legacy np = Ok l /\ schedule (pending_schedule s') = from_legacy l
  end.
Proof.
  intros Hcodec Hmake. unfold finish_next. intros (u & _ & (r & Hr & (u' & _ & [= <-])%bind_Ok)%bind_Ok)%bind_Ok.
  unfold _finish_next in Hr. do 5 apply bind_Ok in Hr as (? & _ & Hr).
  apply bind_Ok in Hr as (exts & Hx & Hr).
  change (validate_and_extract_header_extensions cr h = Ok exts) in Hx.
  pose proof (made_header_extensions _ _ _ _ _ _ _ _ _ _ Hcodec Hmake Hx) as Hexts.
  apply bind_Ok in Hr as (old & Hold & Hr). apply bind_Ok in Hr as (mn & Hmn & Hr).
  apply bind_Ok in Hr as (nf & _ & [= <-]).
  split; [by destruct (bool_decide (sigs = []))|].
  assert (forall X, schedule (pending_schedule (if bool_decide (sigs = []) then X else set_additional_signatures X sigs))
            = schedule (pending_schedule X)) as -> by (intros X; by destruct (bool_decide (sigs = []))).
  cbn [h_new_producers set_producer_signature] in *.
  destruct new as [np|]; [destruct (is_builtin_activated _ _) eqn:Ew|]; cbn [changes_to] in Hexts.
  - destruct Hexts as (E1 & Hc & El). rewrite E1 in *. injection Hold as <-.
    rewrite (proj2 (Z.ltb_lt _ _) Hc) in Hmn. rewrite orb_true_r in Hmn. cbn [andb sys_assert mbind result_bind] in Hmn.
    rewrite El in Hmn. apply bind_Ok in Hmn as (? & _ & [= <-]). by left.
  - destruct Hexts as (Hc & l & E1 & Hl). rewrite E1 in *. rewrite Hc in Hmn. cbn [Z.ltb Z.compare] in Hmn.
    injection Hmn as ->. rewrite andb_false_r in Hold. apply bind_Ok in Hold as (? & _ & Hold).
    apply bind_Ok in Hold as (? & _ & [= <-]). right. exists l. done.
  - destruct Hexts as (E1 & Hc). rewrite E1 in *. injection Hold as <-. rewrite Hc in Hmn. by injection Hmn as <-.
Qed.

(** ** Every block keeps the pipeline well formed *)
Section pipeline.
Context (cr : crypto).
Hypothesis schedule_codec : forall s, schedule_ok s -> unpack_schedule cr (pack_schedule cr s) = Ok s.

Lemma block_step_wf gs gs' : block_step cr gs gs' -> pipeline_wf gs -> pipeline_wf gs'.
Proof.
  intros [g s when_ confirmed p new g1 g2 wt tr ar features sh h sg sigs validator skip s' Hn Hp Hc Hm Hfin] Hwf.
  pose proof (promote_proposed_ok cr g s when_ confirmed p Hwf Hn) as (new' & g1' & Hp' & Hw1 & Hf1 & Hnew).
  rewrite Hp in Hp'. injection Hp' as <- <-.
  assert (producers_wf (producers (proposed_schedule g2)) /\ proposal_follows g2 (latest (active_producers p) (pending_producers p new)))
    as [Hw2 Hf2].
  { revert Hc. apply (rtc_ind_r (fun x => producers_wf (producers (proposed_schedule x)) /\
      proposal_follows x (latest (active_producers p) (pending_producers p new)))); [done|].
    intros x y _ Hst Hx. exact (contract_step_follows p new x y Hst Hx). }
  destruct (next_schedules _ _ _ _ _ Hn) as (Epp & Ev & Hpromo).
  destruct (finish_next_pending cr p wt tr ar new features sh h sg sigs validator skip s') as [Ec Hpend]; [|exact Hm|exact Hfin|].
  { intros np ->. destruct Hnew as ([Hok Hlen _ _] & Hv & _). apply schedule_codec. split; [rewrite Hv; apply u32_range|].
    split; [exact Hok|]. unfold max_producers in Hlen. unfold max_num_array_elements. lia. }
  destruct Hwf as [Hne Ha Hpw _ _]. cbn [fst snd] in *. unfold active_producers in *.
  assert (producers (active_schedule (p_common p)) <> [] /\ producers_wf (producers (active_schedule (p_common p)))) as [Hne' Ha'].
  { destruct (p_was_pending_promoted p); [destruct Hpromo as [? ->]|rewrite Hpromo]; done. }
  assert (producers_wf (producers (schedule (pending_schedule s'))) /\
          schedule_version (latest (active_schedule (p_common p)) (schedule (pending_schedule s'))) =
          schedule_version (latest (active_schedule (p_common p)) (pending_producers p new))) as [Hpw' Hver].
  { unfold latest, pending_producers. destruct new as [np|].
    - destruct Hnew as (Hnp & _). destruct Hpend as [->|(l & [Hl1 Hl2]%to_legacy_spec & ->)]; [done|].
      split; [exact (legacy_of_wf _ _ Hl2 Hnp)|]. destruct Hl2; by rewrite ?Hl1.
    - rewrite Epp in *. rewrite Hpend. destruct (p_was_pending_promoted p); [|done]. destruct Hpromo as [Hpn ->].
      split; [apply empty_producers_wf|]. rewrite bool_decide_eq_true_2, bool_decide_eq_false_2 by done. done. }
  split; cbn [fst snd]; rewrite ?Ec; [done..|].
  unfold proposal_follows in *. destruct (proposed_schedule_block_num g2); [|done]. by rewrite Hver.
Qed.

(** C11: Whatever schedules contracts propose, block after block: the version check with
    which [start_block] promotes a proposed schedule never fails, the header check of
    the promoted schedule passes, and there is always an active schedule of 1 to 125
    distinct producers, so that every slot has a producer whose keys can sign. *)
Theorem schedule_pipeline_safe gs gs' :
  pipeline_wf gs -> rtc (block_step cr) gs gs' ->
  (forall when_ confirmed p, next cr gs'.2 when_ confirmed = Ok p ->
     exists new g1, promote_proposed gs'.1 p = Ok (new, g1) /\
       match new with Some np => check_new_schedule p (schedule_version np) = Ok tt | None => True end) /\
  (let ps := producers (active_schedule (bhs_common gs'.2)) in
   1 <= Z.of_nat (length ps) <= max_producers /\ NoDup (producer_name <$> ps)) /\
  (forall slot, 0 <= slot -> exists pa, get_scheduled_producer (bhs_common gs'.2) slot = Ok pa /\
     (keys_satisfy_and_relevant (kw_key <$> bsa_keys (pa_authority pa)) (pa_authority pa)).1 = true).
Proof.
  intros Hwf Hr. assert (pipeline_wf gs') as Hwf'.
  { revert Hr. apply (rtc_ind_r (fun x => pipeline_wf x)); [done|]. intros x y _ Hst Hx. exact (block_step_wf x y Hst Hx). }
  destruct gs' as [g s]. cbn [fst snd]. split; [|split].
  - intros when_ confirmed p Hn. destruct (promote_proposed_ok cr g s when_ confirmed p Hwf' Hn) as (new & g1 & Hp & _ & _ & Hnew).
    exists new, g1. split; [done|]. destruct new; [|done]. by destruct Hnew as (_ & _ & _ & ?).
  - destruct Hwf' as [Hne [_ Hc Hnd _] _ _ _]. cbn [fst snd] in *. split; [split; [|done]|done].
    destruct (producers (active_schedule (bhs_common s))); [done|]. cbn [length]. lia.
  - intros slot Hslot. destruct Hwf' as [Hne [_ _ _ Hs] _ _ _]. cbn [fst snd] in *.
    destruct (get_scheduled_producer_spec (bhs_common s) slot Hne Hslot) as (pa & Hpa & Hl).
    exists pa. split; [done|]. rewrite signing_wf_satisfied; [done|].
    rewrite Forall_forall in Hs. apply Hs. by apply list_elem_of_lookup_2 in Hl.
Qed.
End pipeline.

Module PipelineExample.
Import PrivilegedExample.
(** Schedules in header extensions are packed as [fc::raw::pack] does. *)
Definition cr : crypto :=
  mk_crypto (fun h => mk_digest (u64 (h_timestamp h * 2 ^ 33)) 1 2 3) (fun _ => digest_zero)
    (fun _ => digest_zero) (fun p => p.1) (fun sg _ => Ok (mk_public_key 0 sg)) (fun _ => Ok [])
    (fun b => unpack_bytes p_schedule b) (fun d => Ok d) (fun _ => [])
    (fun s => match pack p_schedule s with Ok b => b | Throw _ => [] end).

Lemma cr_schedule_codec s : schedule_ok s -> unpack_schedule cr (pack_schedule cr s) = Ok s.
Proof.
  intros Hs. destruct (unpack_bytes_lossless p_schedule schedule_ok s [] Hs) as (b & Hb & Hu).
  cbn [unpack_schedule pack_schedule cr]. rewrite Hb. by rewrite app_nil_r in Hu.
Qed.

Definition s0 : block_header_state :=
  mk_bhs (mk_common 10 9 9 (mk_schedule 7 [mk_producer_authority 4 (mk_bsa 1 [mk_kw (key 9) 1])]) Merkle.empty_im ∅
            (list_to_map [(4, 9)]) (mk_bsa 1 [mk_kw (key 9) 1]) [1])
    (calculate_id digest_zero 10) (mk_block_header 1 4 0 digest_zero digest_zero digest_zero 7 None [] [])
    (mk_schedule_info 0 digest_zero (mk_schedule 7 [])) {[ digest_zero ]} [] [].
Definition g0 : global_properties := initial_gpo genesis_config genesis_wasm.

(** The block at [when_] without calls of contracts *)
Definition quiet_block (when_ : Z) (gs : global_properties * block_header_state) : res (global_properties * block_header_state) :=
  p ← next cr gs.2 when_ 0;
  '(new, g1) ← promote_proposed gs.1 p;
  h ← make_block_header cr p (Some digest_zero) digest_zero digest_zero new [] None;
  s' ← finish_next cr p (set_producer_signature h []) [] (Some digest_zero) (fun _ _ _ => Ok tt) true;
  Ok (g1, s').

Lemma quiet_block_step when_ gs gs' : quiet_block when_ gs = Ok gs' -> block_step cr gs gs'.
Proof.
  destruct gs as [g s]. unfold quiet_block.
  intros (p & Hn & ([new g1] & Hp & (h & Hm & (s' & Hf & [= <-])%bind_Ok)%bind_Ok)%bind_Ok)%bind_Ok.
  eapply apply_block; [exact Hn|exact Hp|constructor|exact Hm|exact Hf].
Qed.

(** Block 11, in which a contract proposes, then blocks 12 and 13. *)
Definition env11 : priv_env :=
  mk_priv_env false 10 (active_schedule (bhs_common s0)) (schedule (pending_schedule s0)) true false 2
    (fun _ => true) (fun _ => true).
Definition get {A} (m : res A) (d : A) : A := match m with Ok a => a | Throw _ => d end.
Definition s1 : block_header_state := (get (quiet_block 2 (g0, s0)) (g0, s0)).2.
Definition gs2 : global_properties * block_header_state := get (quiet_block 3 (PrivilegedExample.g1, s1)) (g0, s0).
Definition gs3 : global_properties * block_header_state := get (quiet_block 4 gs2) (g0, s0).

Lemma block11 : block_step cr (g0, s0) (PrivilegedExample.g1, s1).
Proof.
  destruct (next cr s0 2 0) as [p|] eqn:Hn; [|vm_compute in Hn; discriminate Hn].
  eapply (apply_block cr g0 s0 2 0 p None g0 _ (Some digest_zero) digest_zero digest_zero [] None _ [] [] (fun _ _ _ => Ok tt) true);
    [exact Hn|reflexivity| |vm_compute in Hn; injection Hn as <-; vm_compute; reflexivity..].
  apply rtc_once. apply (contract_proposes_ex _ _ env11 1 packed g0 8); [|vm_compute; reflexivity].
  vm_compute in Hn. injection Hn as <-. split; vm_compute; reflexivity.
Qed.

Lemma start_wf : pipeline_wf (g0, s0).
Proof.
  split; cbn [fst snd g0 s0 initial_gpo]; try apply empty_producers_wf; [discriminate| |exact I].
  split.
  - constructor; [|constructor]. split; [cbn; unfold is_u64; lia|]. split; [cbn; unfold is_u32; lia|]. cbn.
    split; [|unfold max_num_array_elements; cbn; lia]. constructor; [|constructor].
    split; [split; [cbn; lia|reflexivity]|cbn; unfold is_u16; lia].
  - unfold max_producers. cbn. lia.
  - apply NoDup_singleton.
  - constructor; [|constructor]. split; [split|cbn; lia|apply NoDup_singleton|unfold sum_by; cbn; lia].
    + cbn. unfold is_u32. lia.
    + cbn. constructor; [unfold is_u16; cbn; lia|constructor].
Qed.

Lemma chain_runs : rtc (block_step cr) (g0, s0) gs3.
Proof.
  apply (rtc_l _ _ _ _ block11).
  apply (rtc_l _ _ gs2); [apply (quiet_block_step 3); vm_compute; reflexivity|].
  apply rtc_once. apply (quiet_block_step 4). vm_compute. reflexivity.
Qed.

Lemma schedule_pipeline_safe_witness :
  schedule_version (active_schedule (bhs_common gs3.2)) = 8 /\
  NoDup (producer_name <$> producers (active_schedule (bhs_common gs3.2))).
Proof.
  split; [vm_compute; reflexivity|].
  destruct (schedule_pipeline_safe cr cr_schedule_codec (g0, s0) gs3 start_wf chain_runs) as (_ & [_ H] & _). exact H.
Defined.
End PipelineExample.
