(* ===== verification/UnappliedQueue.v ===== *)
(** * The queue of unapplied transactions ([unapplied_transaction_queue.hpp])

    Transactions of abandoned blocks and incoming ones wait here.  The multi-index
    container is a list in order of insertion: its ordered indices keep elements with
    equal keys in that order.  An operation that throws keeps the changes it made, so
    operations return the state together with the exception.  Calls of [next] are
    recorded in the order they are made. *)

From S2P Require Import Prelude Exceptions Types.

(** ** Data *)

Inductive trx_enum_type := unknown | forked | aborted | incoming_api | incoming_p2p.
#[global] Instance trx_enum_type_eq_dec : EqDecision trx_enum_type.
Proof. solve_decision. Defined.
Definition type_rank (t : trx_enum_type) : Z :=
  match t with unknown => 0 | forked => 1 | aborted => 2 | incoming_api => 3 | incoming_p2p => 4 end.

(** [transaction_metadata], with the identity of the shared object *)
Record transaction_metadata := mk_meta {
  tm_ptr : Z;
  tm_id : digest;
  tm_expiration : Z;        (* seconds *)
  tm_unprunable_size : Z;   (* uint32_t; a transaction for which they do not fit is not queued *)
  tm_prunable_size : Z }.

(** [next] is the callback's identity, if there is one. *)
Record unapplied_transaction := mk_unapplied {
  trx_meta : transaction_metadata;
  ut_type : trx_enum_type;
  return_failure_trace : bool;
  ut_next : option Z }.

Definition ut_id (t : unapplied_transaction) : digest := tm_id (trx_meta t).
Definition ut_expiration (t : unapplied_transaction) : Z := tm_expiration (trx_meta t).
Definition is_incoming (t : unapplied_transaction) : bool :=
  bool_decide (ut_type t = incoming_p2p) || bool_decide (ut_type t = incoming_api).

Record unapplied_queue := mk_queue {
  queue : list unapplied_transaction;
  max_transaction_queue_size : Z;
  size_in_bytes : Z;
  incoming_count : Z;
  answered : list (Z * exn) }.

Definition new_queue : unapplied_queue := mk_queue [] (1024 * 1024 * 1024) 0 0 [].

Section queue.
(** [sizeof( transaction_metadata )] *)
Context (sizeof_meta : Z).

(** The two sizes are [uint32_t]: their sum and its double wrap at 32 bits before the
    [size_t] is added. *)
Definition calc_size (m : transaction_metadata) : Z :=
  u64 (u32 (u32 (tm_unprunable_size m + tm_prunable_size m) * 2) + sizeof_meta).

Definition find_by_id (i : digest) (q : unapplied_queue) : option unapplied_transaction :=
  List.find (fun t => bool_decide (ut_id t = i)) (queue q).

Definition get_trx (i : digest) (q : unapplied_queue) : option transaction_metadata := trx_meta <$> find_by_id i q.

Definition set_max_transaction_queue_size (v : Z) (q : unapplied_queue) : unapplied_queue :=
  mk_queue (queue q) v (size_in_bytes q) (incoming_count q) (answered q).

(** [clear] empties the container and nothing else. *)
Definition clear (q : unapplied_queue) : unapplied_queue :=
  mk_queue [] (max_transaction_queue_size q) (size_in_bytes q) (incoming_count q) (answered q).

(** [queue.insert] of a transaction whose id is new *)
Definition insert_back (t : unapplied_transaction) (q : unapplied_queue) : unapplied_queue :=
  mk_queue (queue q ++ [t]) (max_transaction_queue_size q) (size_in_bytes q) (incoming_count q) (answered q).

(** [added]: throws after the element is in the container. *)
Definition added (t : unapplied_transaction) (q : unapplied_queue) : unapplied_queue * option exn :=
  let size := calc_size (trx_meta t) in
  let q := if is_incoming t
           then mk_queue (queue q) (max_transaction_queue_size q) (size_in_bytes q) (u64 (incoming_count q + 1)) (answered q)
           else q in
  if is_incoming t && negb (u64 (size_in_bytes q + size) <? max_transaction_queue_size q)
  then (q, Some tx_resource_exhaustion)
  else (mk_queue (queue q) (max_transaction_queue_size q) (u64 (size_in_bytes q + size)) (incoming_count q) (answered q), None).

Definition removed (t : unapplied_transaction) (q : unapplied_queue) : unapplied_queue :=
  mk_queue (queue q) (max_transaction_queue_size q) (u64 (size_in_bytes q - calc_size (trx_meta t)))
    (if is_incoming t then u64 (incoming_count q - 1) else incoming_count q) (answered q).

Definition erase_id (i : digest) (q : unapplied_queue) : unapplied_queue :=
  mk_queue (List.filter (fun t => negb (bool_decide (ut_id t = i))) (queue q)) (max_transaction_queue_size q)
    (size_in_bytes q) (incoming_count q) (answered q).

(** [itr->next( exception )] *)
Definition answer (next : option Z) (e : exn) (q : unapplied_queue) : unapplied_queue :=
  mk_queue (queue q) (max_transaction_queue_size q) (size_in_bytes q) (incoming_count q)
    (answered q ++ match next with Some n => [(n, e)] | None => [] end).

(** [erase( itr )]; the iterator is the element's id. *)
Definition erase (t : unapplied_transaction) (q : unapplied_queue) : unapplied_queue := erase_id (ut_id t) (removed t q).

(** ** Adding *)

Definition insert_new (t : unapplied_transaction) (q : unapplied_queue) : unapplied_queue * option exn :=
  match find_by_id (ut_id t) q with
  | Some _ => (q, None)
  | None => added t (insert_back t q)
  end.

(** Neither of the two loops can throw: only incoming transactions are limited. *)
Definition add_all (type_ : trx_enum_type) (ms : list transaction_metadata) (q : unapplied_queue) : unapplied_queue :=
  foldl (fun q m => (insert_new (mk_unapplied m type_ false None) q).1) q ms.

(** [add_forked]: the branch is in reverse order. *)
Definition add_forked (forked_branch : list (list transaction_metadata)) (q : unapplied_queue) : unapplied_queue :=
  foldl (fun q trxs_metas => add_all forked trxs_metas q) q (rev forked_branch).

Definition add_aborted (aborted_trxs : list transaction_metadata) (q : unapplied_queue) : unapplied_queue :=
  add_all aborted aborted_trxs q.

Definition add_incoming (m : transaction_metadata) (api_trx rft : bool) (next : option Z) (q : unapplied_queue)
  : unapplied_queue * option exn :=
  match find_by_id (tm_id m) q with
  | None =>
    let t := mk_unapplied m (if api_trx then incoming_api else incoming_p2p) rft next in added t (insert_back t q)
  | Some t => if tm_ptr (trx_meta t) =? tm_ptr m then (q, None) else (answer next tx_duplicate q, None)
  end.

(** ** Removing *)

(** [persisted_by_expiry.begin()]: the first of those that expire first *)
Definition first_expiring (l : list unapplied_transaction) : option unapplied_transaction := first_min ut_expiration l.

(** [clear_expired]: [yield i] is the answer of the call number [i] of [yield]; the
    callback is told the transactions that are removed, as the third result. *)
Fixpoint clear_expired_loop (fuel : nat) (pending_block_time : Z) (yield : nat -> bool) (i : nat)
    (told : list unapplied_transaction) (q : unapplied_queue)
  : res (bool * unapplied_queue * list unapplied_transaction) :=
  match fuel with
  | O => Throw fuel_exhausted
  | S fuel =>
    match first_expiring (queue q) with
    | None => Ok (true, q, told)
    | Some t =>
      if pending_block_time <? ut_expiration t * 1000000 then Ok (true, q, told)
      else if yield i then Ok (false, q, told)
      else clear_expired_loop fuel pending_block_time yield (S i) (told ++ [t])
             (erase t (answer (ut_next t) expired_tx_exception q))
    end
  end.

Definition clear_expired (pending_block_time : Z) (yield : nat -> bool) (q : unapplied_queue)
  : res (bool * unapplied_queue * list unapplied_transaction) :=
  clear_expired_loop (S (length (queue q))) pending_block_time yield 0 [] q.

(** [clear_applied] on the ids of the packed transactions of a block *)
Definition clear_applied (ids : list digest) (q : unapplied_queue) : unapplied_queue :=
  if bool_decide (queue q = []) then q else
  foldl (fun q i => match find_by_id i q with
                    | Some t => erase t (answer (ut_next t) tx_duplicate q)
                    | None => q
                    end) q ids.

(** ** Iteration by type *)

Definition of_type (t : trx_enum_type) (q : unapplied_queue) : list unapplied_transaction :=
  List.filter (fun x => bool_decide (ut_type x = t)) (queue q).
(** From [begin] to [end] *)
Definition by_type (q : unapplied_queue) : list unapplied_transaction :=
  of_type unknown q ++ of_type forked q ++ of_type aborted q ++ of_type incoming_api q ++ of_type incoming_p2p q.
(** From [unapplied_begin] to [unapplied_end], and from [incoming_begin] to [incoming_end] *)
Definition unapplied_range (q : unapplied_queue) : list unapplied_transaction :=
  of_type unknown q ++ of_type forked q ++ of_type aborted q.
Definition incoming_range (q : unapplied_queue) : list unapplied_transaction :=
  of_type incoming_api q ++ of_type incoming_p2p q.

(** ** The counters *)

Definition total_size (l : list unapplied_transaction) : Z := sum_by (fun t => calc_size (trx_meta t)) l.
Definition count_incoming (l : list unapplied_transaction) : Z := sum_by (fun t => Z.b2z (is_incoming t)) l.

(** [bytes] and [count]: what the counters have drifted from the content *)
Record queue_inv (bytes count : Z) (q : unapplied_queue) : Prop := {
  qi_ids : NoDup (ut_id <$> queue q);
  qi_size : size_in_bytes q = u64 (total_size (queue q) + bytes);
  qi_count : incoming_count q = u64 (count_incoming (queue q) + count) }.

Lemma find_by_id_None i q : find_by_id i q = None <-> i ∉ ut_id <$> queue q.
Proof.
  unfold find_by_id. split.
  - intros H (t & -> & Ht)%list_elem_of_fmap. apply list_elem_of_In, (List.find_none _ _ H t) in Ht.
    by rewrite bool_decide_eq_true_2 in Ht.
  - intros Hn. destruct (List.find _ _) as [t|] eqn:E; [|done]. apply List.find_some in E as [Hin Hi%bool_decide_eq_true].
    exfalso. apply Hn. rewrite <- Hi. apply list_elem_of_fmap_2. by apply list_elem_of_In.
Qed.

Lemma find_by_id_Some i q t : find_by_id i q = Some t -> t ∈ queue q /\ ut_id t = i.
Proof.
  intros [Hin Hi%bool_decide_eq_true]%List.find_some. split; [by apply list_elem_of_In|done].
Qed.

Lemma filter_other_ids (l : list unapplied_transaction) t : ut_id t ∉ ut_id <$> l ->
  List.filter (fun x => negb (bool_decide (ut_id x = ut_id t))) l = l.
Proof.
  induction l as [|x l IH]; [done|]. cbn. intros [Hne Hn]%not_elem_of_cons.
  rewrite bool_decide_eq_false_2 by done. cbn. by rewrite IH.
Qed.

(** Erasing an element takes out that element alone. *)
Lemma erase_split q t : NoDup (ut_id <$> queue q) -> t ∈ queue q ->
  exists l1 l2, queue q = l1 ++ t :: l2 /\ queue (erase t q) = l1 ++ l2.
Proof.
  intros Hnd (l1 & l2 & E)%list_elem_of_split. exists l1, l2. split; [done|]. cbn. rewrite E in *.
  rewrite fmap_app, fmap_cons in Hnd. apply NoDup_app in Hnd as (_ & Hdis & [Hn2 _]%NoDup_cons).
  rewrite List.filter_app. cbn. rewrite bool_decide_eq_true_2 by done. cbn.
  rewrite !filter_other_ids; [done..|]. intros Hin. apply (Hdis _ Hin). left.
Qed.

Lemma erase_inv b c q t : queue_inv b c q -> t ∈ queue q -> queue_inv b c (erase t q).
Proof.
  intros [Hnd Hs Hc] Ht. destruct (erase_split q t Hnd Ht) as (l1 & l2 & E & E'). split; rewrite ?E'.
  - rewrite E in Hnd. rewrite fmap_app, fmap_cons in *. apply NoDup_app in Hnd as (H1 & H2 & [_ H3]%NoDup_cons).
    apply NoDup_app. split_and!; [done| |done]. intros x Hx Hx2. apply (H2 x Hx). by right.
  - cbn [size_in_bytes erase erase_id removed]. rewrite Hs, E. unfold total_size. rewrite !sum_by_app. cbn [sum_by foldr].
    unfold Z.sub. rewrite u64_idemp_l. f_equal. unfold sum_by. cbn [foldr]. lia.
  - cbn [incoming_count erase erase_id removed]. rewrite Hc, E. unfold count_incoming. rewrite !sum_by_app. unfold sum_by. cbn [foldr].
    destruct (is_incoming t); cbn [Z.b2z]; [unfold Z.sub; rewrite u64_idemp_l|]; f_equal; lia.
Qed.

Lemma answer_inv b c q n e : queue_inv b c q -> queue_inv b c (answer n e q).
Proof. by intros []; split. Qed.

Lemma added_inv b c q t : queue_inv b c q -> find_by_id (ut_id t) q = None ->
  let r := added t (insert_back t q) in
  queue r.1 = queue q ++ [t] /\
  match r.2 with
  | None => queue_inv b c r.1
  | Some e => e = tx_resource_exhaustion /\ is_incoming t = true /\ queue_inv (b - calc_size (trx_meta t)) c r.1
  end.
Proof.
  intros [Hnd Hs Hc] Hn%find_by_id_None. cbn zeta.
  assert (NoDup (ut_id <$> queue q ++ [t])) as Hnd'.
  { rewrite fmap_app. apply NoDup_app. split_and!; [done| |apply NoDup_singleton]. intros x Hx ->%list_elem_of_singleton. done. }
  assert (total_size (queue q ++ [t]) = total_size (queue q) + calc_size (trx_meta t)) as Es
    by (unfold total_size; rewrite sum_by_app; unfold sum_by; cbn [foldr]; lia).
  assert (count_incoming (queue q ++ [t]) = count_incoming (queue q) + Z.b2z (is_incoming t)) as Ec
    by (unfold count_incoming; rewrite sum_by_app; unfold sum_by; cbn [foldr]; lia).
  unfold added. destruct (is_incoming t) eqn:Ei; cbn [andb]; [destruct (negb _)|]; cbn [fst snd queue insert_back]; (split; [done|]).
  - split; [done|]. split; [done|]. split; cbn [queue size_in_bytes incoming_count insert_back]; [done|..].
    + rewrite Hs, Es. f_equal. lia.
    + rewrite Hc, u64_idemp_l, Ec. f_equal. cbn. lia.
  - split; cbn [queue size_in_bytes incoming_count insert_back]; [done|..].
    + rewrite Hs, u64_idemp_l, Es. f_equal. lia.
    + rewrite Hc, u64_idemp_l, Ec. f_equal. cbn. lia.
  - split; cbn [queue size_in_bytes incoming_count insert_back]; [done|..].
    + rewrite Hs, u64_idemp_l, Es. f_equal. lia.
    + rewrite Hc, Ec. f_equal. cbn. lia.
Qed.

Lemma insert_new_inv b c q t : is_incoming t = false -> queue_inv b c q -> queue_inv b c (insert_new t q).1.
Proof.
  intros Hi Hq. unfold insert_new. destruct (find_by_id (ut_id t) q) eqn:E; [done|].
  pose proof (added_inv b c q t Hq E) as [_ H]. destruct (added t (insert_back t q)) as [q' [e|]]; cbn in *; [|done].
  destruct H as (_ & H & _). congruence.
Qed.

Lemma add_all_inv b c ty ms : (ty = forked \/ ty = aborted) -> forall q, queue_inv b c q -> queue_inv b c (add_all ty ms q).
Proof.
  intros Hty. unfold add_all. induction ms as [|m ms IH]; intros q Hq; [done|]. cbn [foldl].
  apply IH, insert_new_inv; [|done]. by destruct Hty as [-> | ->].
Qed.

Lemma add_forked_inv b c branch q : queue_inv b c q -> queue_inv b c (add_forked branch q).
Proof.
  unfold add_forked. generalize (rev branch) as l. intros l. revert q. induction l as [|x l IH]; intros q Hq; [done|].
  cbn [foldl]. apply IH, add_all_inv; [by left|done].
Qed.

Lemma clear_applied_inv b c ids q : queue_inv b c q -> queue_inv b c (clear_applied ids q).
Proof.
  unfold clear_applied. case_bool_decide; [done|]. clear. revert q. induction ids as [|i ids IH]; intros q Hq; [done|].
  cbn [foldl]. apply IH. destruct (find_by_id i q) as [t|] eqn:E; [|done]. apply find_by_id_Some in E as [Ht _].
  apply erase_inv; [by apply answer_inv|done].
Qed.

(** ** Expired transactions *)

Definition expired (pending_block_time : Z) (t : unapplied_transaction) : Prop :=
  ut_expiration t * 1000000 <= pending_block_time.

Definition answers (e : exn) (ts : list unapplied_transaction) : list (Z * exn) :=
  omap (fun t => (fun n => (n, e)) <$> ut_next t) ts.

Record cleared (time : Z) (yield : nat -> bool) (i : nat) (q : unapplied_queue) (r : bool) (q' : unapplied_queue)
    (told : list unapplied_transaction) : Prop := {
  cl_content : queue q ≡ₚ told ++ queue q';
  cl_order : sublist (queue q') (queue q);
  cl_expired : Forall (expired time) told;
  cl_sorted : StronglySorted (fun x y => ut_expiration x <= ut_expiration y) told;
  cl_answers : answered q' = answered q ++ answers expired_tx_exception told;
  cl_done : r = true -> Forall (fun t => ~ expired time t) (queue q');
  cl_stopped : r = false -> yield (i + length told)%nat = true }.

Lemma clear_expired_loop_spec time yield b c fuel : forall i told q, queue_inv b c q -> (length (queue q) < fuel)%nat ->
  exists r q' told', clear_expired_loop fuel time yield i told q = Ok (r, q', told ++ told') /\
    cleared time yield i q r q' told' /\ queue_inv b c q'.
Proof.
  induction fuel as [|fuel IH]; intros i told q Hq Hf; [lia|]. cbn [clear_expired_loop].
  unfold first_expiring.
  pose proof (first_min_spec ut_expiration (queue q)) as Hfirst. destruct (first_min ut_expiration (queue q)) as [t|].
  - destruct Hfirst as [Ht Hmin]. destruct (Z.ltb_spec time (ut_expiration t * 1000000)) as [Hlt|Hle].
    { exists true, q, []. rewrite app_nil_r. split; [done|]. split; [|done].
      split; try done; try constructor; [cbn; by rewrite app_nil_r|].
      intros _. apply Forall_forall. intros x Hx. unfold expired. pose proof (Hmin x Hx). lia. }
    destruct (yield i) eqn:Ey.
    { exists false, q, []. rewrite app_nil_r. split; [done|]. split; [|done].
      split; try done; try constructor; [cbn; by rewrite app_nil_r|]. by rewrite Nat.add_0_r. }
    pose proof (erase_inv b c _ t (answer_inv b c q (ut_next t) expired_tx_exception Hq) Ht) as Hq'.
    destruct (erase_split (answer (ut_next t) expired_tx_exception q) t) as (l1 & l2 & E & E'); [by destruct Hq|done|].
    cbn [queue answer] in E.
    destruct (IH (S i) (told ++ [t]) _ Hq') as (r & q' & told' & Hl & Hc & Hi);
      [rewrite E'; rewrite E in Hf; rewrite length_app in *; cbn in Hf; lia|].
    exists r, q', (t :: told'). rewrite <- app_assoc in Hl. split; [exact Hl|]. split; [|done].
    destruct Hc as [C1 C2 C3 C4 C5 C6 C7]. rewrite E' in C1, C2.
    assert (forall x, x ∈ told' -> x ∈ queue q) as Hin.
    { intros x Hx. rewrite E. assert (x ∈ l1 ++ l2) as Hx' by (rewrite C1; apply elem_of_app; by left). set_solver. }
    split.
    + rewrite E, <- Permutation_middle, C1. done.
    + rewrite E. etransitivity; [exact C2|]. apply sublist_app; [done|]. by apply sublist_cons.
    + by constructor.
    + constructor; [done|]. apply Forall_forall. intros x Hx. by apply Hmin, Hin.
    + rewrite C5. cbn [answered erase erase_id removed answer]. rewrite <- app_assoc. f_equal.
      unfold answers. cbn. by destruct (ut_next t).
    + done.
    + intros Hr. cbn. rewrite Nat.add_succ_r. by apply C7.
  - exists true, q, []. rewrite app_nil_r. split; [done|]. split; [|done].
    split; rewrite ?Hfirst; try done; try constructor; cbn; by rewrite app_nil_r.
Qed.

(** [clear_expired] ends; it removes expired transactions only, those that expire
    first first, answers each removed one that has a callback once, keeps the others
    in order, and the counters stay right.  When it is not asked to stop it leaves no
    expired transaction. *)
Theorem clear_expired_spec time yield b c q :
  queue_inv b c q ->
  exists r q' told, clear_expired time yield q = Ok (r, q', told) /\
    cleared time yield 0 q r q' told /\ queue_inv b c q'.
Proof. intros Hq. apply (clear_expired_loop_spec time yield b c _ 0 [] q Hq). lia. Qed.

(** ** All operations *)

(** Steps with the drift of the two counters *)
Inductive queue_step : Z * Z * unapplied_queue -> Z * Z * unapplied_queue -> Prop :=
| step_set_max b c q v : queue_step (b, c, q) (b, c, set_max_transaction_queue_size v q)
| step_add_forked b c q branch : queue_step (b, c, q) (b, c, add_forked branch q)
| step_add_aborted b c q trxs : queue_step (b, c, q) (b, c, add_aborted trxs q)
| step_add_incoming b c q m api rft next q' :
    add_incoming m api rft next q = (q', None) -> queue_step (b, c, q) (b, c, q')
| step_reject_incoming b c q m api rft next q' e :
    add_incoming m api rft next q = (q', Some e) -> queue_step (b, c, q) (b - calc_size m, c, q')
| step_clear_expired b c q time yield r q' told :
    clear_expired time yield q = Ok (r, q', told) -> queue_step (b, c, q) (b, c, q')
| step_clear_applied b c q ids : queue_step (b, c, q) (b, c, clear_applied ids q)
| step_erase b c q t : t ∈ queue q -> queue_step (b, c, q) (b, c, erase t q)
| step_clear b c q :
    queue_step (b, c, q) (b + total_size (queue q), c + count_incoming (queue q), clear q).

Lemma add_incoming_inv b c m api rft next q q' e : queue_inv b c q -> add_incoming m api rft next q = (q', e) ->
  match e with
  | None => queue_inv b c q'
  | Some e => e = tx_resource_exhaustion /\ queue_inv (b - calc_size m) c q' /\
      get_trx (tm_id m) q = None /\ get_trx (tm_id m) q' = Some m
  end.
Proof.
  intros Hq. unfold add_incoming. destruct (find_by_id (tm_id m) q) as [t|] eqn:E.
  - destruct (_ =? _); intros [= <- <-]; [done|by apply answer_inv].
  - set (t := mk_unapplied m (if api then incoming_api else incoming_p2p) rft next). intros Ha.
    pose proof (added_inv b c q t Hq E) as [Hc H]. rewrite Ha in Hc, H. cbn [fst snd] in *. destruct e as [e|]; [|done].
    destruct H as (-> & _ & H). split_and!; [done|done|by unfold get_trx; rewrite E|].
    unfold get_trx, find_by_id. rewrite Hc. destruct H as [Hnd _ _]. rewrite Hc, fmap_app in Hnd.
    destruct (List.find _ (queue q ++ [t])) as [s|] eqn:Ef.
    + apply List.find_some in Ef as [[Hs|[<-|[]]]%in_app_iff Hi%bool_decide_eq_true]; [|done].
      apply NoDup_app in Hnd as (_ & Hd & _). exfalso. apply (Hd (tm_id m)); [|by left].
      rewrite <- Hi. apply list_elem_of_fmap_2. by apply list_elem_of_In.
    + apply (List.find_none _ _) with (x := t) in Ef; [by rewrite bool_decide_eq_true_2 in Ef|]. apply in_app_iff. by right; left.
Qed.

Lemma queue_step_inv b c q b' c' q' : queue_step (b, c, q) (b', c', q') -> queue_inv b c q -> queue_inv b' c' q'.
Proof.
  intros Hst Hq. inversion Hst as [? ? ? v|? ? ? branch|? ? ? trxs|? ? ? m api rft next ? Ha|? ? ? m api rft next ? e Ha|
    ? ? ? time yield r ? told Hc|? ? ? ids|? ? ? t Ht|? ? ?]; subst.
  - by destruct Hq; split.
  - by apply add_forked_inv.
  - apply add_all_inv; [by right|done].
  - exact (add_incoming_inv _ _ _ _ _ _ _ _ _ Hq Ha).
  - by destruct (add_incoming_inv _ _ _ _ _ _ _ _ _ Hq Ha) as (_ & ? & _).
  - destruct (clear_expired_loop_spec time yield b' c' (S (length (queue q))) 0 [] q Hq ltac:(lia)) as (r1 & q1 & t1 & H1 & _ & Hi).
    unfold clear_expired in Hc. congruence.
  - by apply clear_applied_inv.
  - by apply erase_inv.
  - destruct Hq as [_ Hs Hc]. split; [constructor|..]; cbn [queue clear size_in_bytes incoming_count].
    + rewrite Hs. f_equal. change (total_size []) with 0. lia.
    + rewrite Hc. f_equal. change (count_incoming []) with 0. lia.
Qed.

(** C34: In every reachable queue ids are unique and the two counters are, modulo 2^64,
    the sum of [calc_size] over the content and the number of incoming transactions,
    off by a drift with two sources only: an incoming transaction that is refused for
    its size lowers the size counter for good, and [clear] leaves both counters
    standing.  [calc_size] itself is computed in 32 bits, so that it is below the true
    size of a transaction of 2 GiB or more. *)
Theorem queue_reachable_inv b c q : rtc queue_step (0, 0, new_queue) (b, c, q) -> queue_inv b c q.
Proof.
  intros H. assert (forall x, rtc queue_step (0, 0, new_queue) x -> queue_inv x.1.1 x.1.2 x.2) as Hall.
  { apply (rtc_ind_r (fun x => queue_inv x.1.1 x.1.2 x.2)).
    - split; [constructor|reflexivity..].
    - intros [[b1 c1] q1] [[b2 c2] q2] _ Hst Hq. exact (queue_step_inv _ _ _ _ _ _ Hst Hq). }
  exact (Hall _ H).
Qed.

(** An incoming transaction that does not fit is refused with an exception and yet
    waits in the queue as if it had been accepted. *)
Theorem refused_transaction_queued m api rft next q q' e b c :
  queue_inv b c q -> add_incoming m api rft next q = (q', Some e) ->
  e = tx_resource_exhaustion /\ get_trx (tm_id m) q = None /\ get_trx (tm_id m) q' = Some m.
Proof. intros Hq Ha. by destruct (add_incoming_inv _ _ _ _ _ _ _ _ _ Hq Ha) as (? & _ & ? & ?). Qed.
End queue.

(** ** Iteration order *)


Lemma of_type_type t q x : x ∈ of_type t q -> ut_type x = t.
Proof. unfold of_type. by intros [_ ?%bool_decide_eq_true]%elem_of_List_filter. Qed.

Lemma ranks_sorted t q l :
  StronglySorted (fun x y => type_rank (ut_type x) <= type_rank (ut_type y)) l ->
  (forall x, x ∈ l -> type_rank t <= type_rank (ut_type x)) ->
  StronglySorted (fun x y => type_rank (ut_type x) <= type_rank (ut_type y)) (of_type t q ++ l).
Proof.
  intros Hl Hle. pose proof (of_type_type t q) as Ht. induction (of_type t q) as [|x xs IH]; [done|].
  cbn. constructor; [apply IH; intros y Hy; apply Ht; by right|].
  rewrite (Ht x) by left. apply Forall_forall. intros y [Hy|Hy]%elem_of_app; [|by apply Hle].
  rewrite (Ht y) by (by right). lia.
Qed.

(** Iterating by type meets the transactions of abandoned blocks before the incoming
    ones, type by type, and those of a type in the order they were added; an incoming
    transaction that is accepted comes after all others of its type. *)
Theorem by_type_spec sizeof_meta q :
  by_type q = unapplied_range q ++ incoming_range q /\
  StronglySorted (fun x y => type_rank (ut_type x) <= type_rank (ut_type y)) (by_type q) /\
  (forall t, List.filter (fun x => bool_decide (ut_type x = t)) (by_type q)
             = List.filter (fun x => bool_decide (ut_type x = t)) (queue q)) /\
  (forall m api rft next q', find_by_id (tm_id m) q = None -> add_incoming sizeof_meta m api rft next q = (q', None) ->
     let t := mk_unapplied m (if api then incoming_api else incoming_p2p) rft next in
     of_type (ut_type t) q' = of_type (ut_type t) q ++ [t]).
Proof.
  assert (forall t l, List.filter (fun x => bool_decide (ut_type x = t)) (List.filter (fun x => bool_decide (ut_type x = t)) l)
    = List.filter (fun x => bool_decide (ut_type x = t)) l) as Hsame.
  { intros t. induction l as [|x l IH]; [done|]. cbn. case_bool_decide as E; [|done]. cbn.
    rewrite bool_decide_eq_true_2 by done. by rewrite IH. }
  assert (forall t s l, t <> s -> List.filter (fun x => bool_decide (ut_type x = t)) (List.filter (fun x => bool_decide (ut_type x = s)) l) = [])
    as Hdiff.
  { intros t s l Hne. induction l as [|x l IH]; [done|]. cbn. case_bool_decide as E; [|done]. cbn.
    rewrite bool_decide_eq_false_2 by congruence. done. }
  split_and!.
  - unfold by_type, unapplied_range, incoming_range. by rewrite <- !app_assoc.
  - unfold by_type. rewrite <- (app_nil_r (of_type incoming_p2p q)).
    apply ranks_sorted; [apply ranks_sorted; [apply ranks_sorted; [apply ranks_sorted; [apply ranks_sorted; [apply SSorted_nil|]|]|]|]|];
      intros x Hx; rewrite ?elem_of_app, ?elem_of_nil in Hx;
      repeat match type of Hx with _ \/ _ => destruct Hx as [Hx|Hx] end; try done; apply of_type_type in Hx; rewrite Hx; cbn; lia.
  - intros t. unfold by_type, of_type. rewrite !List.filter_app.
    destruct t; rewrite Hsame, ?Hdiff by done; cbn; by rewrite ?app_nil_r.
  - intros m api rft next q' Hn. unfold add_incoming. rewrite Hn. set (t := mk_unapplied _ _ _ _). intros Ha. cbn zeta.
    assert (queue q' = queue q ++ [t]) as Eq.
    { unfold added in Ha. destruct (is_incoming t); cbn [andb] in Ha; [destruct (negb _)|]; by injection Ha as <-. }
    unfold of_type. rewrite Eq, List.filter_app. cbn [List.filter]. by rewrite bool_decide_eq_true_2.
Qed.

Module QueueExample.
Definition dg (x : Z) : digest := mk_digest x 0 0 0.
Definition meta (x e s : Z) : transaction_metadata := mk_meta x (dg x) e s 0.
Definition small_queue : unapplied_queue := set_max_transaction_queue_size 1000 new_queue.
Definition q1 : unapplied_queue := (add_incoming 100 (meta 1 5 50) true false (Some 7) small_queue).1.
Definition q2 : unapplied_queue := add_forked 100 [[meta 2 3 50]; [meta 3 9 50]] q1.
(** The fourth transaction has 100 + 600 bytes, more than is left. *)
Definition q3 : unapplied_queue := (add_incoming 100 (meta 4 4 300) false false (Some 8) q2).1.

Lemma q1_steps : rtc (queue_step 100) (0, 0, new_queue) (0, 0, q2).
Proof.
  eapply rtc_l; [apply (step_set_max 100 0 0 new_queue 1000)|].
  eapply rtc_l; [apply (step_add_incoming 100 0 0 small_queue (meta 1 5 50) true false (Some 7) q1); reflexivity|].
  apply rtc_once. apply step_add_forked.
Qed.

Lemma q2_inv : queue_inv 100 0 0 q2.
Proof.
  split; [|reflexivity..]. apply (bool_decide_unpack _). vm_compute. exact I.
Qed.

Lemma queue_reachable_inv_witness :
  queue_inv 100 (-700) 0 q3 /\ size_in_bytes (erase 100 (mk_unapplied (meta 4 4 300) incoming_p2p false (Some 8)) q3) = u64 (600 - 700).
Proof.
  split; [|vm_compute; reflexivity].
  apply (queue_reachable_inv 100 (-700) 0 q3). eapply rtc_r; [exact q1_steps|].
  apply (step_reject_incoming 100 0 0 q2 (meta 4 4 300) false false (Some 8) q3 tx_resource_exhaustion). vm_compute. reflexivity.
Defined.

Lemma refused_transaction_queued_witness : get_trx (dg 4) q2 = None /\ get_trx (dg 4) q3 = Some (meta 4 4 300).
Proof.
  destruct (refused_transaction_queued 100 (meta 4 4 300) false false (Some 8) q2 q3 tx_resource_exhaustion 0 0) as (_ & H1 & H2);
    [exact q2_inv|vm_compute; reflexivity|split; [exact H1|exact H2]].
Defined.

Lemma clear_expired_spec_witness :
  exists r q' told, clear_expired 100 6000000 (fun _ => false) q2 = Ok (r, q', told) /\
    cleared 6000000 (fun _ => false) 0 q2 r q' told /\ answered q' = [(7, expired_tx_exception)] /\ ut_id <$> told = [dg 2; dg 1].
Proof.
  destruct (clear_expired_spec 100 6000000 (fun _ => false) 0 0 q2 q2_inv) as (r & q' & told & H & Hc & _).
  exists r, q', told. split; [exact H|]. split; [exact Hc|]. vm_compute in H. injection H as <- <- <-.
  split; vm_compute; reflexivity.
Defined.
End QueueExample.
