(* ===== verification/SubjectiveBilling.v ===== *)
(** * Subjective billing ([subjective_billing.hpp])

    The CPU time a node charges accounts for transactions that are not in a block: the
    time of those that may still succeed is pending, the time of those that failed or
    expired decays.  An operation that throws keeps the changes it made, so operations
    return the state together with the exception. *)

From S2P Require Import Prelude Exceptions Types Accumulators.

(** ** Data *)

Record trx_cache_entry := mk_entry {
  ce_trx_id : digest;
  ce_account : Z;
  subjective_cpu_bill : Z;   (* int64_t *)
  ce_expiry : Z }.           (* microseconds *)

Record subjective_billing_info := mk_info {
  pending_cpu_us : Z;        (* uint64_t *)
  expired_accumulator : decay_accumulator }.

Definition new_info : subjective_billing_info := mk_info 0 new_decay_accumulator.

(** The cache in order of insertion *)
Record subjective_billing := mk_billing {
  sb_disabled : bool;
  trx_cache : list trx_cache_entry;
  account_bills : gmap Z subjective_billing_info;
  disabled_accounts : gset Z;
  average_window : Z }.      (* uint32_t *)

Definition subjective_time_interval_ms : Z := 5000.
Definition new_billing : subjective_billing :=
  mk_billing false [] ∅ ∅ (24 * 60 * 60 * 1000 / subjective_time_interval_ms).

Definition set_cache (l : list trx_cache_entry) (b : subjective_billing) : subjective_billing :=
  mk_billing (sb_disabled b) l (account_bills b) (disabled_accounts b) (average_window b).
Definition set_bills (m : gmap Z subjective_billing_info) (b : subjective_billing) : subjective_billing :=
  mk_billing (sb_disabled b) (trx_cache b) m (disabled_accounts b) (average_window b).

(** ** Operations *)

(** A negative time is a large unsigned number. *)
Definition time_ordinal_for (t : Z) : res Z :=
  let ordinal := u64 t / (1000 * subjective_time_interval_ms) in
  _ ← sys_assert (ordinal <=? u32_max) tx_resource_exhaustion;
  Ok ordinal.

(** [subjective_billing_info::empty] *)
Definition info_empty (i : subjective_billing_info) (time_ordinal window : Z) : res bool :=
  if pending_cpu_us i =? 0
  then v ← value_at (expired_accumulator i) time_ordinal window; Ok (v =? 0)
  else Ok false.

(** [remove_subjective_billing( entry )]; the assertion that an unsigned number is not
    negative always holds. *)
Definition remove_entry_billing (e : trx_cache_entry) (time_ordinal : Z) (b : subjective_billing)
  : subjective_billing * option exn :=
  match account_bills b !! ce_account e with
  | None => (b, None)
  | Some i =>
    let i := mk_info (u64 (pending_cpu_us i - subjective_cpu_bill e)) (expired_accumulator i) in
    match info_empty i time_ordinal (average_window b) with
    | Throw x => (set_bills (<[ce_account e := i]> (account_bills b)) b, Some x)
    | Ok true => (set_bills (delete (ce_account e) (account_bills b)) b, None)
    | Ok false => (set_bills (<[ce_account e := i]> (account_bills b)) b, None)
    end
  end.

Definition transition_to_expired (e : trx_cache_entry) (time_ordinal : Z) (b : subjective_billing)
  : subjective_billing * option exn :=
  match account_bills b !! ce_account e with
  | None => (b, None)
  | Some i =>
    let pending := u64 (pending_cpu_us i - subjective_cpu_bill e) in
    match decay_add (expired_accumulator i) (u64 (subjective_cpu_bill e)) time_ordinal (average_window b) with
    | Throw x => (set_bills (<[ce_account e := mk_info pending (expired_accumulator i)]> (account_bills b)) b, Some x)
    | Ok acc => (set_bills (<[ce_account e := mk_info pending acc]> (account_bills b)) b, None)
    end
  end.

Definition erase_entry (i : digest) (b : subjective_billing) : subjective_billing :=
  set_cache (List.filter (fun e => negb (bool_decide (ce_trx_id e = i))) (trx_cache b)) b.

(** [remove_subjective_billing( trx_id )] *)
Definition remove_trx_billing (i : digest) (time_ordinal : Z) (b : subjective_billing)
  : subjective_billing * option exn :=
  match List.find (fun e => bool_decide (ce_trx_id e = i)) (trx_cache b) with
  | None => (b, None)
  | Some e => match remove_entry_billing e time_ordinal b with
              | (b, None) => (erase_entry i b, None)
              | r => r
              end
  end.

(** [remove_subjective_billing( bsp )] on the ids of the packed transactions of a block *)
Fixpoint remove_block_billing (ids : list digest) (time_ordinal : Z) (b : subjective_billing)
  : subjective_billing * option exn :=
  match ids with
  | [] => (b, None)
  | i :: ids => match remove_trx_billing i time_ordinal b with
                | (b, None) => remove_block_billing ids time_ordinal b
                | r => r
                end
  end.

Definition disable (b : subjective_billing) : subjective_billing :=
  mk_billing true (trx_cache b) (account_bills b) (disabled_accounts b) (average_window b).
Definition disable_account (a : Z) (b : subjective_billing) : subjective_billing :=
  mk_billing (sb_disabled b) (trx_cache b) (account_bills b) ({[ a ]} ∪ disabled_accounts b) (average_window b).
Definition is_account_disabled (a : Z) (b : subjective_billing) : bool :=
  sb_disabled b || bool_decide (a ∈ disabled_accounts b).

(** [map::operator[]] creates the entry that is missing. *)
Definition info_of (a : Z) (b : subjective_billing) : subjective_billing_info := default new_info (account_bills b !! a).

(** [expire] in seconds, [elapsed] in microseconds *)
Definition subjective_bill (i : digest) (expire first_auth elapsed : Z) (b : subjective_billing) : subjective_billing :=
  if is_account_disabled first_auth b then b else
  let bill := Z.max 0 elapsed in
  if existsb (fun e => bool_decide (ce_trx_id e = i)) (trx_cache b) then b else
  let info := info_of first_auth b in
  set_bills (<[first_auth := mk_info (u64 (pending_cpu_us info + bill)) (expired_accumulator info)]> (account_bills b))
    (set_cache (trx_cache b ++ [mk_entry i first_auth bill (expire * 1000000)]) b).

Definition subjective_bill_failure (first_auth elapsed now : Z) (b : subjective_billing)
  : subjective_billing * option exn :=
  if is_account_disabled first_auth b then (b, None) else
  let bill := Z.max 0 elapsed in
  match time_ordinal_for now with
  | Throw x => (b, Some x)
  | Ok time_ordinal =>
    let info := info_of first_auth b in
    match decay_add (expired_accumulator info) bill time_ordinal (average_window b) with
    | Throw x => (set_bills (<[first_auth := info]> (account_bills b)) b, Some x)
    | Ok acc => (set_bills (<[first_auth := mk_info (pending_cpu_us info) acc]> (account_bills b)) b, None)
    end
  end.

Definition get_subjective_bill (first_auth now : Z) (b : subjective_billing) : res Z :=
  if is_account_disabled first_auth b then Ok 0 else
  time_ordinal ← time_ordinal_for now;
  match account_bills b !! first_auth with
  | Some i => v ← value_at (expired_accumulator i) time_ordinal (average_window b);
              Ok (i64 (u64 (pending_cpu_us i + v)))
  | None => Ok 0
  end.

(** [on_block]; no block is an empty [bsp]. *)
Definition on_block (block : option (list digest)) (now : Z) (b : subjective_billing) : subjective_billing * option exn :=
  match block with
  | None => (b, None)
  | Some ids =>
    if sb_disabled b then (b, None) else
    match time_ordinal_for now with
    | Throw x => (b, Some x)
    | Ok time_ordinal => if bool_decide (trx_cache b = []) then (b, None) else remove_block_billing ids time_ordinal b
    end
  end.

(** [idx.begin()] by expiry *)
Definition first_by_expiry (l : list trx_cache_entry) : option trx_cache_entry := first_min ce_expiry l.

(** The loop of [remove_expired]; [yield i] answers the call number [i]. *)
Fixpoint remove_expired_loop (fuel : nat) (pending_block_time time_ordinal : Z) (yield : nat -> bool) (i : nat)
    (b : subjective_billing) : res (bool * subjective_billing * option exn) :=
  match fuel with
  | O => Throw fuel_exhausted
  | S fuel =>
    match first_by_expiry (trx_cache b) with
    | None => Ok (true, b, None)
    | Some e =>
      if yield i then Ok (false, b, None) else
      if pending_block_time <? ce_expiry e then Ok (true, b, None) else
      match transition_to_expired e time_ordinal b with
      | (b, Some x) => Ok (true, b, Some x)
      | (b, None) => remove_expired_loop fuel pending_block_time time_ordinal yield (S i) (erase_entry (ce_trx_id e) b)
      end
    end
  end.

(** The answer says whether the work was finished. *)
Definition remove_expired (pending_block_time now : Z) (yield : nat -> bool) (b : subjective_billing)
  : res (bool * subjective_billing * option exn) :=
  if bool_decide (trx_cache b = []) then Ok (true, b, None) else
  match time_ordinal_for now with
  | Throw x => Ok (true, b, Some x)
  | Ok time_ordinal => remove_expired_loop (S (length (trx_cache b))) pending_block_time time_ordinal yield 0 b
  end.

(** C++ division truncates toward zero. *)
Definition set_expired_accumulator_average_window (decay_time : Z) (b : subjective_billing) : subjective_billing :=
  mk_billing (sb_disabled b) (trx_cache b) (account_bills b) (disabled_accounts b)
    (u32 (Z.quot (Z.quot decay_time 1000) subjective_time_interval_ms)).

(** ** The invariant *)

Definition bill_of (a : Z) (e : trx_cache_entry) : Z := if ce_account e =? a then subjective_cpu_bill e else 0.
Definition pending_of (a : Z) (l : list trx_cache_entry) : Z := sum_by (bill_of a) l.
Definition total_bills (l : list trx_cache_entry) : Z := sum_by subjective_cpu_bill l.

(** What is pending for an account is what its cached transactions are billed. *)
Record billing_inv (b : subjective_billing) : Prop := {
  bi_ids : NoDup (ce_trx_id <$> trx_cache b);
  bi_bills : Forall (fun e => 0 <= subjective_cpu_bill e <= max_raw_value) (trx_cache b);
  bi_total : total_bills (trx_cache b) <= u64_max;
  bi_pending a : pending_cpu_us (info_of a b) = pending_of a (trx_cache b);
  bi_accumulators a : dacc_wf (expired_accumulator (info_of a b));
  bi_window : 0 <= average_window b < 2 ^ 32 }.

Lemma pending_of_bounds a l : Forall (fun e => 0 <= subjective_cpu_bill e <= max_raw_value) l ->
  0 <= pending_of a l <= total_bills l.
Proof.
  unfold pending_of, total_bills. induction 1 as [|e l He _ IH]; [done|]. rewrite !sum_by_cons.
  unfold bill_of at 1 3. destruct (_ =? _); lia.
Qed.

Lemma time_ordinal_for_range t o : time_ordinal_for t = Ok o -> is_u32 o.
Proof.
  unfold time_ordinal_for, u32_max. intros (u & H%sys_assert_Ok & [= <-])%bind_Ok. apply Z.leb_le in H.
  split; [|lia]. apply Z.div_pos; [apply u64_range|done].
Qed.

Lemma info_of_set a i b c a' :
  info_of a' (set_bills (<[a := i]> (account_bills b)) c) = if bool_decide (a = a') then i else info_of a' b.
Proof.
  unfold info_of. cbn. case_bool_decide as E; [subst; by rewrite lookup_insert_eq|by rewrite lookup_insert_ne].
Qed.

Lemma find_entry i l : match List.find (fun e => bool_decide (ce_trx_id e = i)) l with
  | Some e => e ∈ l /\ ce_trx_id e = i
  | None => i ∉ ce_trx_id <$> l
  end.
Proof.
  destruct (List.find _ _) as [e|] eqn:E.
  - apply List.find_some in E as [Hin Hi%bool_decide_eq_true]. split; [by apply list_elem_of_In|done].
  - intros (e & -> & He)%list_elem_of_fmap. apply list_elem_of_In, (List.find_none _ _ E e) in He.
    by rewrite bool_decide_eq_true_2 in He.
Qed.

(** Erasing an entry takes out that entry alone. *)
Lemma erase_entry_split e b : NoDup (ce_trx_id <$> trx_cache b) -> e ∈ trx_cache b ->
  exists l1 l2, trx_cache b = l1 ++ e :: l2 /\ trx_cache (erase_entry (ce_trx_id e) b) = l1 ++ l2.
Proof.
  intros Hnd (l1 & l2 & E)%list_elem_of_split. exists l1, l2. split; [done|]. cbn. rewrite E in *.
  rewrite fmap_app, fmap_cons in Hnd. apply NoDup_app in Hnd as (_ & Hdis & [Hn2 _]%NoDup_cons).
  assert (forall l, ce_trx_id e ∉ ce_trx_id <$> l ->
    List.filter (fun x => negb (bool_decide (ce_trx_id x = ce_trx_id e))) l = l) as Hkeep.
  { induction l as [|x l IH]; [done|]. cbn. intros [Hne Hn]%not_elem_of_cons.
    rewrite bool_decide_eq_false_2 by done. cbn. by rewrite IH. }
  rewrite List.filter_app. cbn. rewrite bool_decide_eq_true_2 by done. cbn.
  rewrite !Hkeep; [done..|]. intros Hin. apply (Hdis _ Hin). left.
Qed.

(** The cache without an entry, with bills that are pending for the rest of it. *)
Lemma drop_entry_inv e b m :
  billing_inv b -> e ∈ trx_cache b ->
  (forall a, pending_cpu_us (default new_info (m !! a)) = pending_cpu_us (info_of a b) - bill_of a e) ->
  (forall a, dacc_wf (expired_accumulator (default new_info (m !! a)))) ->
  billing_inv (erase_entry (ce_trx_id e) (set_bills m b)).
Proof.
  intros [Hnd Hb Ht Hp Ha Hw] He Hm Hacc.
  destruct (erase_entry_split e (set_bills m b) Hnd He) as (l1 & l2 & E & E'). cbn [trx_cache set_bills] in E.
  rewrite E in Hnd, Hb, Ht. apply Forall_app in Hb as [Hb1 [Hbe Hb2]%Forall_cons].
  rewrite fmap_app, fmap_cons in Hnd. apply NoDup_app in Hnd as (Hn1 & Hn2 & [_ Hn3]%NoDup_cons).
  split; rewrite ?E'.
  - rewrite fmap_app. apply NoDup_app. split_and!; [done| |done]. intros x Hx Hx2. apply (Hn2 x Hx). by right.
  - by apply Forall_app.
  - unfold total_bills in *. rewrite sum_by_app in *. rewrite sum_by_cons in Ht. lia.
  - intros a. change (info_of a (erase_entry (ce_trx_id e) (set_bills m b))) with (default new_info (m !! a)).
    rewrite Hm, Hp, E. unfold pending_of. rewrite !sum_by_app, sum_by_cons. lia.
  - exact Hacc.
  - exact Hw.
Qed.

Lemma entry_account_bills e b : billing_inv b -> e ∈ trx_cache b ->
  0 <= subjective_cpu_bill e <= pending_cpu_us (info_of (ce_account e) b) /\ pending_cpu_us (info_of (ce_account e) b) <= u64_max.
Proof.
  intros [_ Hb Ht Hp _ _] He. rewrite Hp. pose proof (pending_of_bounds (ce_account e) _ Hb).
  apply list_elem_of_split in He as (l1 & l2 & E). rewrite E in *.
  apply Forall_app in Hb as [Hb1 [Hbe Hb2]%Forall_cons].
  pose proof (pending_of_bounds (ce_account e) _ Hb1). pose proof (pending_of_bounds (ce_account e) _ Hb2).
  assert (bill_of (ce_account e) e = subjective_cpu_bill e) as Eb by (unfold bill_of; by rewrite Z.eqb_refl).
  unfold pending_of in *. rewrite sum_by_app, sum_by_cons in *. lia.
Qed.

(** ** What an account is charged *)

(** Scaled by the precision of the accumulator, at a time ordinal *)
Definition scaled_charge (a o : Z) (b : subjective_billing) : Z :=
  d_decayed (expired_accumulator (info_of a b)) o (average_window b)
  + pending_cpu_us (info_of a b) * rate_limiting_precision.

Lemma value_at_total a o w : dacc_wf a -> is_u32 o -> 0 <= w < 2 ^ 32 ->
  value_at a o w = Ok (integer_divide_ceil (d_decayed a o w) rate_limiting_precision).
Proof. intros Ha Ho Hw. unfold value_at. by rewrite (proj1 (value_ex_at_total a o w Ha Ho Hw)). Qed.

Lemma divide_ceil_add v n p : 0 < p -> integer_divide_ceil (v + n * p) p = n + integer_divide_ceil v p.
Proof. intros Hp. unfold integer_divide_ceil. rewrite Z.div_add, Z.mod_add by lia. lia. Qed.

(** The bill of an account is its charge, rounded up. *)
Lemma get_subjective_bill_charge a now o b : billing_inv b -> is_account_disabled a b = false -> time_ordinal_for now = Ok o ->
  get_subjective_bill a now b = Ok (i64 (u64 (integer_divide_ceil (scaled_charge a o b) rate_limiting_precision))).
Proof.
  intros [_ _ _ _ Ha Hw] Hd Ho. unfold get_subjective_bill. rewrite Hd, Ho. cbn [mbind result_bind].
  pose proof (time_ordinal_for_range _ _ Ho) as Hr. specialize (Ha a). unfold scaled_charge, info_of in *.
  rewrite divide_ceil_add by done. destruct (account_bills b !! a) as [i|].
  - change (dacc_wf (expired_accumulator i)) in Ha. rewrite (value_at_total _ _ _ Ha Hr Hw). done.
  - cbn. unfold d_decayed. cbn. by repeat destruct (_ <=? _); repeat destruct (_ <? _).
Qed.

Lemma transition_spec e o b : billing_inv b -> e ∈ trx_cache b -> is_u32 o ->
  exists m, transition_to_expired e o b = (set_bills m b, None) /\
    billing_inv (erase_entry (ce_trx_id e) (set_bills m b)) /\
    forall a, scaled_charge a o b <= u64_max ->
      scaled_charge a o (erase_entry (ce_trx_id e) (set_bills m b)) = scaled_charge a o b.
Proof.
  intros Hb He Ho. pose proof (entry_account_bills e b Hb He) as [Hbill Hmax].
  assert (subjective_cpu_bill e <= max_raw_value) as Hraw
    by (pose proof (bi_bills b Hb) as H; rewrite Forall_forall in H; by apply H).
  unfold transition_to_expired. destruct (account_bills b !! ce_account e) as [i|] eqn:E.
  - assert (info_of (ce_account e) b = i) as Ei by (unfold info_of; by rewrite E). rewrite Ei in *.
    pose proof (bi_accumulators b Hb (ce_account e)) as Hacc. rewrite Ei in Hacc. unfold u64_max in Hmax.
    rewrite !u64_small by lia.
    pose proof (value_ex_at_total _ o _ Hacc Ho (bi_window b Hb)) as [_ Hdec].
    rewrite decay_add_spec; [|done|unfold is_u64; lia|done|apply Hb].
    rewrite (proj2 (Z.leb_le _ _) Hraw).
    set (i' := mk_info _ _). exists (<[ce_account e := i']> (account_bills b)). split; [done|].
    assert (forall a, default new_info (<[ce_account e := i']> (account_bills b) !! a) = if bool_decide (ce_account e = a) then i' else info_of a b) as Hinfo.
    { intros a. case_bool_decide as Ea; [by rewrite <- Ea, lookup_insert_eq|by rewrite lookup_insert_ne]. }
    split; [apply drop_entry_inv; [done|done|..]|]; [intros a; rewrite Hinfo..|].
    + unfold bill_of. case_bool_decide as Ea; [by rewrite <- Ea, Z.eqb_refl, Ei|]. rewrite (proj2 (Z.eqb_neq _ _)) by done. lia.
    + case_bool_decide; [|apply Hb]. subst i'. cbn. destruct Hacc as [Hl Hv]. unfold is_u32, is_u64, u64_max, rate_limiting_precision in *.
      split; unfold is_u32, is_u64; cbn; lia.
    + intros a Hle. unfold scaled_charge in *. change (info_of a (erase_entry _ (set_bills ?m b))) with (default new_info (m !! a)).
      change (average_window (erase_entry _ (set_bills _ b))) with (average_window b). rewrite Hinfo.
      case_bool_decide as Ea; [subst a|done]. rewrite Ei in *. subst i'. cbn [pending_cpu_us expired_accumulator].
      assert (forall v, d_decayed (mk_decay_accumulator (Z.max (d_last_ordinal (expired_accumulator i)) o) v) o (average_window b) = v) as ->.
      { intros v. unfold d_decayed. cbn. by rewrite (proj2 (Z.leb_le _ _)) by lia. }
      unfold rate_limiting_precision in *. rewrite Z.min_l by nia. nia.
  - assert (info_of (ce_account e) b = new_info) as Ei by (unfold info_of; by rewrite E). rewrite Ei in *. cbn in Hbill.
    exists (account_bills b). split; [by destruct b|]. split; [|done].
    apply drop_entry_inv; [done|done| |intros a; apply Hb]. intros a. unfold bill_of, info_of. destruct (_ =? _); lia.
Qed.

(** ** Transactions that made it into a block *)

Lemma d_decayed_new o w : d_decayed new_decay_accumulator o w = 0.
Proof. unfold d_decayed. cbn [d_last_ordinal d_value_ex new_decay_accumulator]. destruct (o <=? 0); [done|]. destruct (o <? 0 + w); by rewrite ?Z.mul_0_l, ?Zdiv_0_l. Qed.

(** Replacing the bills of one account alone. *)
Lemma refund_entry e o b m :
  billing_inv b -> e ∈ trx_cache b -> (forall a, ce_account e <> a -> m !! a = account_bills b !! a) ->
  let i := default new_info (m !! ce_account e) in
  pending_cpu_us i = pending_cpu_us (info_of (ce_account e) b) - subjective_cpu_bill e -> dacc_wf (expired_accumulator i) ->
  d_decayed (expired_accumulator i) o (average_window b)
    = d_decayed (expired_accumulator (info_of (ce_account e) b)) o (average_window b) ->
  billing_inv (erase_entry (ce_trx_id e) (set_bills m b)) /\
  forall a, scaled_charge a o (erase_entry (ce_trx_id e) (set_bills m b)) =
            scaled_charge a o b - bill_of a e * rate_limiting_precision.
Proof.
  intros Hb He Hother i Hp Hw Hd.
  assert (forall a, default new_info (m !! a) = if bool_decide (ce_account e = a) then i else info_of a b) as Hinfo.
  { intros a. case_bool_decide as Ea; [by rewrite <- Ea|]. unfold info_of. by rewrite Hother. }
  split.
  - apply drop_entry_inv; [done|done|..]; intros a; rewrite Hinfo; case_bool_decide as Ea; try apply Hb; try done.
    + rewrite Hp, <- Ea. unfold bill_of. by rewrite Z.eqb_refl.
    + unfold bill_of. rewrite (proj2 (Z.eqb_neq _ _)) by done. lia.
  - intros a. unfold scaled_charge. change (info_of a (erase_entry _ (set_bills m b))) with (default new_info (m !! a)).
    change (average_window (erase_entry _ (set_bills m b))) with (average_window b). rewrite Hinfo. unfold bill_of.
    case_bool_decide as Ea; [rewrite <- Ea, Hp, Hd, Z.eqb_refl; lia|]. rewrite (proj2 (Z.eqb_neq _ _)) by done. lia.
Qed.

Lemma remove_entry_spec e o b : billing_inv b -> e ∈ trx_cache b -> is_u32 o ->
  exists m, remove_entry_billing e o b = (set_bills m b, None) /\
    billing_inv (erase_entry (ce_trx_id e) (set_bills m b)) /\
    forall a, scaled_charge a o (erase_entry (ce_trx_id e) (set_bills m b)) =
              scaled_charge a o b - bill_of a e * rate_limiting_precision.
Proof.
  intros Hb He Ho. pose proof (entry_account_bills e b Hb He) as [Hbill Hmax].
  pose proof (bi_accumulators b Hb (ce_account e)) as Hacc. pose proof (bi_window b Hb) as Hw.
  pose proof (value_ex_at_total _ o _ Hacc Ho Hw) as [_ Hdec].
  unfold remove_entry_billing. destruct (account_bills b !! ce_account e) as [i|] eqn:E.
  - assert (info_of (ce_account e) b = i) as Ei by (unfold info_of; by rewrite E).
    unfold u64_max in Hmax. rewrite Ei in Hbill, Hmax, Hacc, Hdec. rewrite u64_small by lia. set (i' := mk_info _ _).
    assert (exists m, info_empty i' o (average_window b) = Ok true /\ m = delete (ce_account e) (account_bills b) /\
              pending_cpu_us i = subjective_cpu_bill e /\ d_decayed (expired_accumulator i) o (average_window b) = 0 \/
            info_empty i' o (average_window b) = Ok false /\ m = <[ce_account e := i']> (account_bills b)) as (m & Hm).
    { unfold info_empty. cbn [pending_cpu_us expired_accumulator i'].
      destruct (Z.eqb_spec (pending_cpu_us i - subjective_cpu_bill e) 0) as [E0|E0]; [|eexists; by right].
      rewrite (value_at_total _ _ _ Hacc Ho Hw). cbn [mbind result_bind].
      pose proof (integer_divide_ceil_spec (d_decayed (expired_accumulator i) o (average_window b)) rate_limiting_precision (proj1 Hdec) eq_refl).
      destruct (Z.eqb_spec (integer_divide_ceil (d_decayed (expired_accumulator i) o (average_window b)) rate_limiting_precision) 0) as [Ev|_];
        [|eexists; by right].
      rewrite Ev in H. eexists. left. split; [done|]. split; [done|]. lia. }
    exists m. destruct Hm as [(-> & -> & Hp0 & Hd0)|(-> & ->)]; (split; [done|]); apply refund_entry; try done.
    + intros a Ha. by rewrite lookup_delete_ne.
    + rewrite lookup_delete_eq, Ei. cbn. lia.
    + rewrite lookup_delete_eq. split; [unfold is_u32|unfold is_u64]; cbn; lia.
    + rewrite lookup_delete_eq, Ei, Hd0. apply d_decayed_new.
    + intros a Ha. by rewrite lookup_insert_ne.
    + by rewrite lookup_insert_eq, Ei.
    + by rewrite lookup_insert_eq.
    + by rewrite lookup_insert_eq, Ei.
  - assert (info_of (ce_account e) b = new_info) as Ei by (unfold info_of; by rewrite E). rewrite Ei in *. cbn in Hbill.
    exists (account_bills b). split; [by destruct b|]. apply refund_entry; try done; rewrite ?E, ?Ei; cbn; lia || done.
Qed.

Definition billed_in (a : Z) (ids : list digest) (l : list trx_cache_entry) : Z :=
  sum_by (bill_of a) (List.filter (fun e => bool_decide (ce_trx_id e ∈ ids)) l).

Lemma billed_in_split a i ids l1 e l2 : ce_trx_id e = i -> i ∉ ce_trx_id <$> l1 ++ l2 ->
  billed_in a (i :: ids) (l1 ++ e :: l2) = bill_of a e + billed_in a ids (l1 ++ l2).
Proof.
  intros <- Hn. assert (forall l, ce_trx_id e ∉ ce_trx_id <$> l ->
    List.filter (fun x => bool_decide (ce_trx_id x ∈ ce_trx_id e :: ids)) l = List.filter (fun x => bool_decide (ce_trx_id x ∈ ids)) l) as Hf.
  { induction l as [|x l IH]; [done|]. cbn. intros [Hne Hx]%not_elem_of_cons. rewrite IH by done.
    rewrite (bool_decide_ext (ce_trx_id x ∈ ce_trx_id e :: ids) (ce_trx_id x ∈ ids)); [done|].
    rewrite elem_of_cons. naive_solver. }
  rewrite fmap_app in Hn. apply not_elem_of_app in Hn as [Hn1 Hn2]. unfold billed_in.
  rewrite !List.filter_app. cbn [List.filter]. rewrite bool_decide_eq_true_2 by left.
  rewrite !Hf, !sum_by_app, sum_by_cons by done. lia.
Qed.

Lemma billed_in_absent a i ids l : i ∉ ce_trx_id <$> l -> billed_in a (i :: ids) l = billed_in a ids l.
Proof.
  intros Hn. unfold billed_in. f_equal. induction l as [|x l IH]; [done|]. cbn. apply not_elem_of_cons in Hn as [Hne Hx].
  rewrite IH by done. rewrite (bool_decide_ext (ce_trx_id x ∈ i :: ids) (ce_trx_id x ∈ ids)); [done|].
  rewrite elem_of_cons. naive_solver.
Qed.

Lemma remove_block_spec ids o : forall b, billing_inv b -> is_u32 o ->
  exists b', remove_block_billing ids o b = (b', None) /\ billing_inv b' /\
    trx_cache b' = List.filter (fun e => negb (bool_decide (ce_trx_id e ∈ ids))) (trx_cache b) /\
    forall a, scaled_charge a o b' = scaled_charge a o b - billed_in a ids (trx_cache b) * rate_limiting_precision.
Proof.
  induction ids as [|i ids IH]; intros b Hb Ho; cbn [remove_block_billing].
  - exists b. split_and!; [done|done|by induction (trx_cache b) as [|x l IHl]; cbn; [|rewrite <- IHl]|].
    intros a. assert (billed_in a [] (trx_cache b) = 0) as ->; [|lia]. unfold billed_in. by induction (trx_cache b).
  - unfold remove_trx_billing. pose proof (find_entry i (trx_cache b)) as Hf. destruct (List.find _ _) as [e|].
    + destruct Hf as [He Hi]. destruct (remove_entry_spec e o b Hb He Ho) as (m & -> & Hb' & Hc). rewrite <- Hi.
      destruct (IH _ Hb' Ho) as (b2 & H2 & Hb2 & Et & Hs). exists b2. split; [done|]. split; [done|].
      destruct (erase_entry_split e (set_bills m b) (bi_ids b Hb) He) as (l1 & l2 & E & E'). cbn [trx_cache set_bills] in E.
      assert (ce_trx_id e ∉ ce_trx_id <$> l1 ++ l2) as Hn.
      { pose proof (bi_ids b Hb) as Hnd. rewrite E, fmap_app, fmap_cons in Hnd. rewrite fmap_app.
        apply NoDup_app in Hnd as (_ & Hd & [Hn2 _]%NoDup_cons). apply not_elem_of_app. split; [|done].
        intros Hx. apply (Hd _ Hx). left. }
      split.
      * rewrite Et. cbn [trx_cache erase_entry set_cache set_bills]. clear. induction (trx_cache b) as [|x l IHl]; [done|].
        cbn. destruct (bool_decide_reflect (ce_trx_id x = ce_trx_id e)) as [Ex|Ex]; cbn.
        -- rewrite bool_decide_eq_true_2 by (rewrite Ex; left). done.
        -- rewrite (bool_decide_ext (ce_trx_id x ∈ ce_trx_id e :: ids) (ce_trx_id x ∈ ids)) by (rewrite elem_of_cons; naive_solver).
           destruct (bool_decide (ce_trx_id x ∈ ids)); cbn; by rewrite IHl.
      * intros a. rewrite Hs, Hc, E', E. rewrite (billed_in_split a (ce_trx_id e) ids l1 e l2 eq_refl Hn). lia.
    + destruct (IH b Hb Ho) as (b2 & H2 & Hb2 & Et & Hs). exists b2. split; [done|]. split; [done|]. split.
      * rewrite Et. clear -Hf. induction (trx_cache b) as [|x l IHl]; [done|]. cbn in *. apply not_elem_of_cons in Hf as [Hx Hl].
        rewrite (bool_decide_ext (ce_trx_id x ∈ i :: ids) (ce_trx_id x ∈ ids)) by (rewrite elem_of_cons; naive_solver).
        destruct (bool_decide (ce_trx_id x ∈ ids)); cbn; by rewrite IHl.
      * intros a. rewrite Hs. by rewrite (billed_in_absent a i ids).
Qed.

(** When a block arrives, each account is charged less by exactly what its cached
    transactions in the block were billed, these leave the cache and no exception is
    thrown. *)
Theorem on_block_refunds ids now o b :
  billing_inv b -> sb_disabled b = false -> time_ordinal_for now = Ok o ->
  exists b', on_block (Some ids) now b = (b', None) /\ billing_inv b' /\
    trx_cache b' = List.filter (fun e => negb (bool_decide (ce_trx_id e ∈ ids))) (trx_cache b) /\
    forall a, scaled_charge a o b' = scaled_charge a o b - billed_in a ids (trx_cache b) * rate_limiting_precision.
Proof.
  intros Hb Hd Ho. unfold on_block. rewrite Hd, Ho. case_bool_decide as E.
  - exists b. rewrite E. split_and!; [done..|]. intros a. unfold billed_in. cbn. lia.
  - apply remove_block_spec; [done|exact (time_ordinal_for_range _ _ Ho)].
Qed.

(** ** Transactions that expired *)

Lemma remove_expired_loop_spec time o yield fuel : forall i b, billing_inv b -> is_u32 o -> (length (trx_cache b) < fuel)%nat ->
  exists r b' gone, remove_expired_loop fuel time o yield i b = Ok (r, b', None) /\ billing_inv b' /\
    trx_cache b ≡ₚ gone ++ trx_cache b' /\ Forall (fun e => ce_expiry e <= time) gone /\
    sb_disabled b' = sb_disabled b /\ disabled_accounts b' = disabled_accounts b /\
    (r = true -> Forall (fun e => time < ce_expiry e) (trx_cache b')) /\
    (r = false -> exists n, yield n = true) /\
    forall a, scaled_charge a o b <= u64_max -> scaled_charge a o b' = scaled_charge a o b.
Proof.
  induction fuel as [|fuel IH]; intros i b Hb Ho Hf; [lia|]. cbn [remove_expired_loop]. unfold first_by_expiry.
  pose proof (first_min_spec ce_expiry (trx_cache b)) as Hfirst. destruct (first_min ce_expiry (trx_cache b)) as [e|].
  - destruct Hfirst as [He Hmin]. destruct (yield i) eqn:Ey.
    { exists false, b, []. split_and!; try done; try constructor; eauto. }
    destruct (Z.ltb_spec time (ce_expiry e)) as [Hlt|Hle].
    { exists true, b, []. split_and!; try done; try constructor. intros _. apply Forall_forall.
      intros x Hx. pose proof (Hmin x Hx). lia. }
    destruct (transition_spec e o b Hb He Ho) as (m & -> & Hb' & Hc).
    destruct (erase_entry_split e (set_bills m b) (bi_ids b Hb) He) as (l1 & l2 & E & E'). cbn [trx_cache set_bills] in E.
    destruct (IH (S i) _ Hb' Ho) as (r & b' & gone & Hl & Hi & Hp & Hg & Hd1 & Hd2 & Ht & Hs & Hch);
      [rewrite E'; rewrite E in Hf; rewrite length_app in *; cbn in Hf; lia|].
    exists r, b', (e :: gone). rewrite E' in Hp. split_and!; try done.
    + rewrite E, <- Permutation_middle, Hp. done.
    + by constructor.
    + intros a Ha. rewrite <- (Hc a Ha) in Ha |- *. by apply Hch.
  - exists true, b, []. rewrite Hfirst. split_and!; try done; constructor.
Qed.

(** C33: Removing expired transactions ends without an exception, takes only expired ones
    out of the cache, all of them unless it is asked to stop, and does not change what
    any account is charged at that moment, unless its accumulator saturates: their time
    stops being pending and starts to decay. *)
Theorem remove_expired_conserves time now o yield b :
  billing_inv b -> time_ordinal_for now = Ok o ->
  exists r b' gone, remove_expired time now yield b = Ok (r, b', None) /\ billing_inv b' /\
    trx_cache b ≡ₚ gone ++ trx_cache b' /\ Forall (fun e => ce_expiry e <= time) gone /\
    (r = true -> Forall (fun e => time < ce_expiry e) (trx_cache b')) /\
    (r = false -> exists n, yield n = true) /\
    forall a, scaled_charge a o b <= u64_max -> get_subjective_bill a now b' = get_subjective_bill a now b.
Proof.
  intros Hb Ho. unfold remove_expired. case_bool_decide as E.
  - exists true, b, []. rewrite E. split_and!; try done; constructor.
  - rewrite Ho. pose proof (time_ordinal_for_range _ _ Ho) as Hr.
    destruct (remove_expired_loop_spec time o yield (S (length (trx_cache b))) 0 b Hb Hr ltac:(lia))
      as (r & b' & gone & Hl & Hi & Hp & Hg & Hd1 & Hd2 & Ht & Hs & Hch).
    exists r, b', gone. split_and!; try done. intros a Ha.
    assert (is_account_disabled a b' = is_account_disabled a b) as Ed by (unfold is_account_disabled; by rewrite Hd1, Hd2).
    destruct (is_account_disabled a b) eqn:Edis; [unfold get_subjective_bill; by rewrite Ed, Edis|].
    rewrite !(get_subjective_bill_charge a now o) by done. by rewrite Hch.
Qed.

(** ** All operations *)

(** A bill is at most what the accumulator can represent, some 213 days, and the bills
    in the cache together fit in 64 bits. *)
Inductive billing_step (b : subjective_billing) : subjective_billing -> Prop :=
| step_disable : billing_step b (disable b)
| step_disable_account a : billing_step b (disable_account a b)
| step_set_window t : billing_step b (set_expired_accumulator_average_window t b)
| step_bill i expire a elapsed :
    elapsed <= max_raw_value -> total_bills (trx_cache b) + Z.max 0 elapsed <= u64_max ->
    billing_step b (subjective_bill i expire a elapsed b)
| step_bill_failure a elapsed now : is_i64 elapsed -> billing_step b (subjective_bill_failure a elapsed now b).1
| step_on_block block now : billing_step b (on_block block now b).1
| step_remove_expired time now yield r b' x :
    remove_expired time now yield b = Ok (r, b', x) -> billing_step b b'.

Lemma subjective_bill_inv i expire a elapsed b :
  elapsed <= max_raw_value -> total_bills (trx_cache b) + Z.max 0 elapsed <= u64_max ->
  billing_inv b -> billing_inv (subjective_bill i expire a elapsed b).
Proof.
  intros He Ht Hb. unfold subjective_bill. destruct (is_account_disabled a b); [done|].
  destruct (existsb _ _) eqn:Ex; [done|]. set (e := mk_entry i a (Z.max 0 elapsed) (expire * 1000000)).
  assert (i ∉ ce_trx_id <$> trx_cache b) as Hn.
  { intros (x & Hi & Hx)%list_elem_of_fmap. apply not_true_iff_false in Ex. apply Ex, existsb_exists.
    exists x. split; [by apply list_elem_of_In|]. by apply bool_decide_eq_true. }
  destruct Hb as [Hnd Hbills Htot Hp Hacc Hw]. pose proof (pending_of_bounds a _ Hbills) as Hpb.
  assert (0 <= max_raw_value) by done. unfold u64_max in *.
  split; cbn [trx_cache set_bills set_cache average_window].
  - rewrite fmap_app. apply NoDup_app. split_and!; [done| |apply NoDup_singleton]. intros x Hx ->%list_elem_of_singleton. done.
  - apply Forall_app. split; [done|]. constructor; [cbn; lia|constructor].
  - unfold total_bills in *. rewrite sum_by_app, sum_by_cons. cbn [subjective_cpu_bill e].
    change (sum_by subjective_cpu_bill []) with 0. unfold u64_max. lia.
  - intros a'. rewrite info_of_set.
    unfold pending_of. rewrite sum_by_app, sum_by_cons. change (sum_by (bill_of a') []) with 0.
    unfold bill_of at 2. cbn [ce_account subjective_cpu_bill e].
    case_bool_decide as Ea.
    + subst a'. rewrite Z.eqb_refl. cbn. rewrite Hp, u64_small by lia. unfold pending_of. lia.
    + rewrite (proj2 (Z.eqb_neq _ _)) by done. rewrite Hp. unfold pending_of. lia.
  - intros a'. rewrite info_of_set. case_bool_decide; [apply Hacc|]. exact (Hacc a').
  - done.
Qed.

Lemma bill_failure_inv a elapsed now b : is_i64 elapsed -> billing_inv b -> billing_inv (subjective_bill_failure a elapsed now b).1.
Proof.
  intros He Hb. unfold subjective_bill_failure. destruct (is_account_disabled a b); [done|].
  destruct (time_ordinal_for now) as [o|] eqn:Ho; [|done]. apply time_ordinal_for_range in Ho.
  destruct Hb as [Hnd Hbills Htot Hp Hacc Hw].
  assert (forall acc, dacc_wf acc -> billing_inv (set_bills (<[a := mk_info (pending_cpu_us (info_of a b)) acc]> (account_bills b)) b)) as Hset.
  { intros acc Ha. split; try done; intros a'; rewrite info_of_set; case_bool_decide as Ea; try apply Hp; try apply Hacc; [|done].
    subst. apply Hp. }
  unfold is_i64 in He. rewrite decay_add_spec; [|apply Hacc|unfold is_u64; lia|done|done].
  pose proof (value_ex_at_total _ o _ (Hacc a) Ho Hw) as [_ Hd]. specialize (Hacc a) as [Hl Hv].
  destruct (Z.leb_spec (Z.max 0 elapsed) max_raw_value).
  - apply Hset. unfold rate_limiting_precision, u64_max. split; unfold is_u32, is_u64 in *; cbn [d_last_ordinal d_value_ex]; lia.
  - cbn [fst]. specialize (Hset _ (conj Hl Hv)). by destruct (info_of a b).
Qed.

Lemma new_billing_inv : billing_inv new_billing.
Proof.
  split; [constructor|constructor|done| | |done].
  - intros a. unfold info_of. cbn [account_bills new_billing]. by rewrite lookup_empty.
  - intros a. unfold info_of. cbn [account_bills new_billing]. rewrite lookup_empty. done.
Qed.

(** Whatever happens, what is pending for an account is the sum of the bills of its
    transactions in the cache, so nothing is charged twice or forgotten. *)
Theorem billing_reachable_inv b : rtc billing_step new_billing b -> billing_inv b.
Proof.
  apply (rtc_ind_r (fun b => billing_inv b)).
  - apply new_billing_inv.
  - intros x y _ Hst Hx. destruct Hst as [|a|t|i expire a elapsed He Ht|a elapsed now He|block now|time now yield r b' e Hr].
    + by destruct Hx; split.
    + by destruct Hx; split.
    + destruct Hx; split; try done. apply u32_range.
    + by apply subjective_bill_inv.
    + by apply bill_failure_inv.
    + unfold on_block. destruct block as [ids|]; [|done]. destruct (sb_disabled x); [done|].
      destruct (time_ordinal_for now) as [o|] eqn:Ho; [|done]. case_bool_decide; [done|].
      by destruct (remove_block_spec ids o x Hx (time_ordinal_for_range _ _ Ho)) as (b' & -> & ? & _).
    + unfold remove_expired in Hr. case_bool_decide; [congruence|].
      destruct (time_ordinal_for now) as [o|] eqn:Ho; [|congruence].
      destruct (remove_expired_loop_spec time o yield (S (length (trx_cache x))) 0 x Hx (time_ordinal_for_range _ _ Ho) ltac:(lia))
        as (r1 & b1 & gone & Hl & Hi & _). congruence.
Qed.

Module BillingExample.
Definition dg (x : Z) : digest := mk_digest x 0 0 0.
Definition b1 : subjective_billing := subjective_bill (dg 1) 60 7 300 new_billing.
Definition b2 : subjective_billing := subjective_bill (dg 2) 90 7 500 b1.
Definition b3 : subjective_billing := (subjective_bill_failure 7 200 50000000 b2).1.

Lemma b3_reachable : rtc billing_step new_billing b3.
Proof.
  eapply rtc_l; [apply (step_bill _ (dg 1) 60 7 300); vm_compute; congruence|].
  eapply rtc_l; [apply (step_bill _ (dg 2) 90 7 500); vm_compute; congruence|].
  apply rtc_once. apply (step_bill_failure _ 7 200 50000000). unfold is_i64. lia.
Qed.

Lemma billing_reachable_inv_witness : pending_cpu_us (info_of 7 b3) = 800 /\ pending_of 7 (trx_cache b3) = 800.
Proof.
  pose proof (bi_pending b3 (billing_reachable_inv b3 b3_reachable) 7) as H. split; [vm_compute; reflexivity|].
  rewrite <- H. vm_compute. reflexivity.
Defined.

Lemma b3_inv : billing_inv b3.
Proof.
  unfold b3, b2, b1. apply bill_failure_inv; [unfold is_i64; lia|].
  apply subjective_bill_inv; [vm_compute; congruence..|]. apply subjective_bill_inv; [vm_compute; congruence..|].
  apply new_billing_inv.
Qed.

Lemma on_block_refunds_witness :
  exists b', on_block (Some [dg 2; dg 9]) 50000000 b3 = (b', None) /\ get_subjective_bill 7 50000000 b3 = Ok 1000 /\
    get_subjective_bill 7 50000000 b' = Ok 500.
Proof.
  destruct (on_block_refunds [dg 2; dg 9] 50000000 10 b3 b3_inv) as (b' & Hb & _); [reflexivity|vm_compute; reflexivity|].
  exists b'. split; [exact Hb|]. split; [vm_compute; reflexivity|]. vm_compute in Hb. injection Hb as <-. vm_compute. reflexivity.
Defined.

Lemma remove_expired_conserves_witness :
  exists r b' gone, remove_expired 70000000 70000000 (fun _ => false) b3 = Ok (r, b', None) /\ ce_trx_id <$> gone = [dg 1] /\
    get_subjective_bill 7 70000000 b' = get_subjective_bill 7 70000000 b3.
Proof.
  destruct (remove_expired_conserves 70000000 70000000 14 (fun _ => false) b3 b3_inv) as (r & b' & gone & Hr & _ & Hp & _ & _ & _ & Hc);
    [vm_compute; reflexivity|].
  exists r, b', gone. split; [exact Hr|]. split.
  - vm_compute in Hr. injection Hr as <- <-. change (trx_cache b3) with ([mk_entry (dg 1) 7 300 60000000] ++ [mk_entry (dg 2) 7 500 90000000]) in Hp.
    cbn [trx_cache] in Hp. apply (Permutation_app_inv_r [mk_entry (dg 2) 7 500 90000000]) in Hp.
    apply Permutation_singleton_l in Hp. rewrite <- Hp. reflexivity.
  - apply Hc. vm_compute. congruence.
Defined.
End BillingExample.
