(* ===== verification/Intrinsics.v ===== *)
(** * Whitelisted intrinsics and activation handlers ([whitelisted_intrinsics.cpp], [controller.cpp])

    The intrinsics contracts may import are kept in a multimap from hashes to names;
    activating a protocol feature runs a handler that adds intrinsics, supports key types,
    corrects RAM or drops the deferred transactions.  The multimap is the list of its
    entries in order; [std::hash] is a parameter about which nothing is assumed. *)

From S2P Require Import Prelude Exceptions Types Chainbase Accumulators ResourceLimits ProtocolFeatures.
Import builtin.

(** ** The whitelist *)
Section whitelist.
Context (hash : string -> Z).

Definition whitelisted_intrinsics_type := list (Z * string).

Fixpoint lower_bound (h : Z) (w : whitelisted_intrinsics_type) : whitelisted_intrinsics_type :=
  match w with
  | [] => []
  | e :: w' => if e.1 <? h then lower_bound h w' else w
  end.

(** [find_intrinsic_helper]: what is left of the container from the entry that is found *)
Fixpoint find_intrinsic_helper (h : Z) (name : string) (itr : whitelisted_intrinsics_type)
  : option whitelisted_intrinsics_type :=
  match itr with
  | [] => None
  | e :: rest => if negb (e.1 =? h) then None
                 else if bool_decide (e.2 = name) then Some itr else find_intrinsic_helper h name rest
  end.

Definition find_intrinsic (w : whitelisted_intrinsics_type) (h : Z) (name : string) : option whitelisted_intrinsics_type :=
  find_intrinsic_helper h name (lower_bound h w).

Definition is_intrinsic_whitelisted (w : whitelisted_intrinsics_type) (name : string) : bool :=
  match find_intrinsic_helper (hash name) name (lower_bound (hash name) w) with Some _ => true | None => false end.

(** [flat_multimap::emplace]: after the entries with the same key *)
Fixpoint emplace (h : Z) (name : string) (w : whitelisted_intrinsics_type) : whitelisted_intrinsics_type :=
  match w with
  | [] => [(h, name)]
  | e :: w' => if h <? e.1 then (h, name) :: w else e :: emplace h name w'
  end.

Definition add_intrinsic_to_whitelist (w : whitelisted_intrinsics_type) (name : string) : res whitelisted_intrinsics_type :=
  let h := hash name in
  match find_intrinsic w h name with
  | Some _ => Throw database_exception
  | None => Ok (emplace h name w)
  end.

(** Erasing at an iterator: what is before it, and what is after its entry. *)
Definition remove_intrinsic_from_whitelist (w : whitelisted_intrinsics_type) (name : string) : res whitelisted_intrinsics_type :=
  match find_intrinsic w (hash name) name with
  | Some itr => Ok (take (length w - length itr) w ++ drop 1 itr)
  | None => Throw database_exception
  end.

(** The set of names in its order *)
Definition reset_intrinsic_whitelist (s : list string) : whitelisted_intrinsics_type :=
  foldl (fun w name => emplace (hash name) name w) [] s.

Definition convert_intrinsic_whitelist_to_set (w : whitelisted_intrinsics_type) : gset string := list_to_set (snd <$> w).
End whitelist.

(** ** Activation handlers *)

(** [genesis_intrinsics.cpp] *)
Definition genesis_intrinsics : list string :=
  ["__ashrti3"; "__lshlti3"; "__lshrti3"; "__ashlti3"; "__divti3"; "__udivti3"; "__modti3"; "__umodti3";
   "__multi3"; "__addtf3"; "__subtf3"; "__multf3"; "__divtf3"; "__eqtf2"; "__netf2"; "__getf2"; "__gttf2";
   "__lttf2"; "__letf2"; "__cmptf2"; "__unordtf2"; "__negtf2"; "__floatsitf"; "__floatunsitf"; "__floatditf";
   "__floatunditf"; "__floattidf"; "__floatuntidf"; "__floatsidf"; "__extendsftf2"; "__extenddftf2";
   "__fixtfti"; "__fixtfdi"; "__fixtfsi"; "__fixunstfti"; "__fixunstfdi"; "__fixunstfsi"; "__fixsfti";
   "__fixdfti"; "__fixunssfti"; "__fixunsdfti"; "__trunctfdf2"; "__trunctfsf2"; "is_feature_active";
   "activate_feature"; "get_resource_limits"; "set_resource_limits"; "set_proposed_producers";
   "get_blockchain_parameters_packed"; "set_blockchain_parameters_packed"; "is_privileged"; "set_privileged";
   "get_active_producers"; "db_idx64_store"; "db_idx64_remove"; "db_idx64_update"; "db_idx64_find_primary";
   "db_idx64_find_secondary"; "db_idx64_lowerbound"; "db_idx64_upperbound"; "db_idx64_end"; "db_idx64_next";
   "db_idx64_previous"; "db_idx128_store"; "db_idx128_remove"; "db_idx128_update"; "db_idx128_find_primary";
   "db_idx128_find_secondary"; "db_idx128_lowerbound"; "db_idx128_upperbound"; "db_idx128_end";
   "db_idx128_next"; "db_idx128_previous"; "db_idx256_store"; "db_idx256_remove"; "db_idx256_update";
   "db_idx256_find_primary"; "db_idx256_find_secondary"; "db_idx256_lowerbound"; "db_idx256_upperbound";
   "db_idx256_end"; "db_idx256_next"; "db_idx256_previous"; "db_idx_double_store"; "db_idx_double_remove";
   "db_idx_double_update"; "db_idx_double_find_primary"; "db_idx_double_find_secondary";
   "db_idx_double_lowerbound"; "db_idx_double_upperbound"; "db_idx_double_end"; "db_idx_double_next";
   "db_idx_double_previous"; "db_idx_long_double_store"; "db_idx_long_double_remove";
   "db_idx_long_double_update"; "db_idx_long_double_find_primary"; "db_idx_long_double_find_secondary";
   "db_idx_long_double_lowerbound"; "db_idx_long_double_upperbound"; "db_idx_long_double_end";
   "db_idx_long_double_next"; "db_idx_long_double_previous"; "db_store_i64"; "db_update_i64"; "db_remove_i64";
   "db_get_i64"; "db_next_i64"; "db_previous_i64"; "db_find_i64"; "db_lowerbound_i64"; "db_upperbound_i64";
   "db_end_i64"; "assert_recover_key"; "recover_key"; "assert_sha256"; "assert_sha1"; "assert_sha512";
   "assert_ripemd160"; "sha1"; "sha256"; "sha512"; "ripemd160"; "check_transaction_authorization";
   "check_permission_authorization"; "get_permission_last_used"; "get_account_creation_time"; "current_time";
   "publication_time"; "abort"; "sysio_assert"; "sysio_assert_message"; "sysio_assert_code"; "sysio_exit";
   "read_action_data"; "action_data_size"; "current_receiver"; "require_recipient"; "require_auth";
   "require_auth2"; "has_auth"; "is_account"; "prints"; "prints_l"; "printi"; "printui"; "printi128";
   "printui128"; "printsf"; "printdf"; "printqf"; "printn"; "printhex"; "read_transaction"; "transaction_size";
   "expiration"; "tapos_block_prefix"; "tapos_block_num"; "get_action"; "send_inline";
   "send_context_free_inline"; "send_deferred"; "cancel_deferred"; "get_context_free_data"; "memcpy";
   "memmove"; "memcmp"; "memset"].

(** The intrinsics a feature adds *)
Definition intrinsics_of (f : builtin_protocol_feature_t) : list string :=
  match f with
  | preactivate_feature => ["preactivate_feature"; "is_feature_activated"]
  | get_sender => ["get_sender"]
  | wtmsig_block_signatures => ["set_proposed_producers_ex"]
  | action_return_value => ["set_action_return_value"]
  | configurable_wasm_limits => ["set_wasm_parameters_packed"; "get_wasm_parameters_packed"]
  | blockchain_parameters => ["get_parameters_packed"; "set_parameters_packed"]
  | get_code_hash => ["get_code_hash"]
  | get_block_num => ["get_block_num"]
  | crypto_primitives => ["alt_bn128_add"; "alt_bn128_mul"; "alt_bn128_pair"; "mod_exp"; "blake2_f"; "sha3"; "k1_recover"]
  | bls_primitives => ["bls_g1_add"; "bls_g2_add"; "bls_g1_weighted_sum"; "bls_g2_weighted_sum"; "bls_pairing";
                       "bls_g1_map"; "bls_g2_map"; "bls_fp_mod"; "bls_fp_mul"; "bls_fp_exp"]
  | _ => []
  end.

(** What the handlers change: the two members of the protocol state object, the RAM
    corrections in order of their ids, the generated transactions in order of their
    transaction ids, each with its payer and the size of its packed form, and the
    resource limits. *)
Record generated_transaction := mk_generated { gto_payer : Z; gto_packed_size : Z }.

Section handlers.
Context (hash : string -> Z).
Context {LT UT : Type} `{!ChainIndex (bool * Z) resource_limits_object LT} `{!ChainIndex Z resource_usage_object UT}.

Record handler_state := mk_handler_state {
  hs_intrinsics : whitelisted_intrinsics_type;
  hs_num_supported_key_types : Z;
  hs_ram_corrections : list (Z * Z);
  hs_generated : list generated_transaction;
  hs_rl : rl_db LT UT }.

Definition set_intrinsics (w : whitelisted_intrinsics_type) (s : handler_state) : handler_state :=
  mk_handler_state w (hs_num_supported_key_types s) (hs_ram_corrections s) (hs_generated s) (hs_rl s).
Definition set_num_supported_key_types (n : Z) (s : handler_state) : handler_state :=
  mk_handler_state (hs_intrinsics s) n (hs_ram_corrections s) (hs_generated s) (hs_rl s).

(** [config::billable_size_v<generated_transaction_object>] *)
Definition generated_billable_size : Z := (96 + 4 + 32 * 5 + 16 - 1) / 16 * 16.

(** [remove_scheduled_transaction] *)
Definition remove_scheduled_transaction (g : generated_transaction) (rl : rl_db LT UT) : res (rl_db LT UT) :=
  let ram_delta := i64 (- (generated_billable_size + gto_packed_size g)) in
  add_pending_ram_usage (gto_payer g) ram_delta rl.

(** The loop of the handler of [replace_deferred], for one account *)
Definition correct_ram (rl : rl_db LT UT) (c : Z * Z) : res (rl_db LT UT) :=
  current_ram_usage ← get_account_ram_usage c.1 rl;
  let ram_delta := if u64 current_ram_usage <? c.2 then i64 (- current_ram_usage) else i64 (- i64 c.2) in
  add_pending_ram_usage c.1 ram_delta rl.

(** [on_activation] *)
Definition on_activation (f : builtin_protocol_feature_t) (s : handler_state) : res handler_state :=
  match f with
  | replace_deferred =>
    rl ← foldM correct_ram (hs_rl s) (hs_ram_corrections s);
    Ok (mk_handler_state (hs_intrinsics s) (hs_num_supported_key_types s) [] (hs_generated s) rl)
  | webauthn_key => Ok (set_num_supported_key_types 3 s)
  | em_key => Ok (set_num_supported_key_types 4 s)
  | disable_deferred_trxs_stage_2 =>
    rl ← foldM (fun rl g => remove_scheduled_transaction g rl) (hs_rl s) (hs_generated s);
    Ok (mk_handler_state (hs_intrinsics s) (hs_num_supported_key_types s) (hs_ram_corrections s) [] rl)
  | _ => w ← foldM (add_intrinsic_to_whitelist hash) (hs_intrinsics s) (intrinsics_of f); Ok (set_intrinsics w s)
  end.

(** The constructor registers the handlers; a feature without one does nothing. *)
Definition has_handler (f : builtin_protocol_feature_t) : bool :=
  match f with
  | preactivate_feature | replace_deferred | get_sender | webauthn_key | wtmsig_block_signatures | action_return_value
  | configurable_wasm_limits | blockchain_parameters | get_code_hash | get_block_num | crypto_primitives
  | bls_primitives | disable_deferred_trxs_stage_2 | em_key => true
  | _ => false
  end.

Definition trigger_activation_handler (f : builtin_protocol_feature_t) (s : handler_state) : res handler_state :=
  if has_handler f then on_activation f s else Ok s.
End handlers.

(** ** The whitelist is a set of names *)
Section whitelist_props.
Context (hash : string -> Z).

Record whitelist_wf (w : whitelisted_intrinsics_type) : Prop := {
  wl_sorted : StronglySorted (fun x y => x.1 <= y.1) w;
  wl_hash : Forall (fun e => e.1 = hash e.2) w;
  wl_names : NoDup (snd <$> w) }.

Lemma lower_bound_split h w : StronglySorted (fun x y => x.1 <= y.1) w ->
  exists l, w = l ++ lower_bound h w /\ Forall (fun e => e.1 < h) l /\ Forall (fun e => h <= e.1) (lower_bound h w).
Proof.
  induction 1 as [|e w Hs IH He]; [by exists []|]. cbn. destruct (Z.ltb_spec e.1 h).
  - destruct IH as (l & E & Hl & Hr). exists (e :: l). split; [cbn; by rewrite <- E|]. split; [by constructor|done].
  - exists []. split_and!; [done|constructor|]. constructor; [done|]. apply (Forall_impl _ _ _ He). intros x Hx. lia.
Qed.

Lemma find_helper_spec h name w : StronglySorted (fun x y => x.1 <= y.1) w -> Forall (fun e => h <= e.1) w ->
  match find_intrinsic_helper h name w with
  | Some itr => exists l rest, w = l ++ (h, name) :: rest /\ itr = (h, name) :: rest
  | None => (h, name) ∉ w
  end.
Proof.
  induction 1 as [|e w Hs IH He]; cbn; [by intros _ ?%elem_of_nil|]. intros [Hle Hw]%Forall_cons.
  destruct (Z.eqb_spec e.1 h) as [E|E]; cbn.
  - case_bool_decide as En; [exists [], w; destruct e; cbn in *; by subst|]. specialize (IH Hw).
    destruct (find_intrinsic_helper h name w) as [itr|].
    + destruct IH as (l & rest & -> & ->). by exists (e :: l), rest.
    + intros [Ee|?]%elem_of_cons; [by subst e|done].
  - intros [Ee|Hin]%elem_of_cons; [by subst e|]. rewrite Forall_forall in He. pose proof (He _ Hin). cbn in *. lia.
Qed.

Lemma find_intrinsic_spec w name : whitelist_wf w ->
  match find_intrinsic w (hash name) name with
  | Some itr => exists l rest, w = l ++ (hash name, name) :: rest /\ itr = (hash name, name) :: rest
  | None => name ∉ snd <$> w
  end.
Proof.
  intros [Hs Hh Hn]. unfold find_intrinsic. destruct (lower_bound_split (hash name) w Hs) as (l & E & Hl & Hr).
  assert (StronglySorted (fun x y => x.1 <= y.1) (lower_bound (hash name) w)) as Hs2
    by (rewrite E in Hs; by apply StronglySorted_app_1_r in Hs).
  pose proof (find_helper_spec (hash name) name _ Hs2 Hr) as Hf. destruct (find_intrinsic_helper _ _ _) as [itr|].
  - destruct Hf as (l2 & rest & E2 & ->). exists (l ++ l2), rest. by rewrite <- app_assoc, <- E2.
  - intros ([h n] & -> & Hin)%list_elem_of_fmap. cbn in *. rewrite Forall_forall in Hh. pose proof (Hh _ Hin) as Eh. cbn in Eh. subst h.
    rewrite E in Hin. apply elem_of_app in Hin as [Hin|Hin]; [|done].
    rewrite Forall_forall in Hl. pose proof (Hl _ Hin). cbn in *. lia.
Qed.

Lemma emplace_perm h name w : emplace h name w ≡ₚ (h, name) :: w.
Proof. induction w as [|e w IH]; [done|]. cbn. destruct (_ <? _); [done|]. rewrite IH. apply Permutation_swap. Qed.

Lemma emplace_wf name w : whitelist_wf w -> name ∉ snd <$> w -> whitelist_wf (emplace (hash name) name w).
Proof.
  intros [Hs Hh Hn] Hni. split.
  - clear -Hs. induction Hs as [|e w Hs IH He]; cbn; [by repeat constructor|]. destruct (Z.ltb_spec (hash name) e.1).
    + constructor; [by constructor|]. constructor; [cbn; lia|]. apply (Forall_impl _ _ _ He). cbn. intros x Hx. lia.
    + constructor; [done|]. rewrite emplace_perm. by constructor.
  - rewrite emplace_perm. by constructor.
  - rewrite emplace_perm. by constructor.
Qed.

Lemma whitelisted_iff w name : whitelist_wf w -> is_intrinsic_whitelisted hash w name = true <-> name ∈ snd <$> w.
Proof.
  intros Hw. unfold is_intrinsic_whitelisted. change (find_intrinsic_helper _ _ _) with (find_intrinsic w (hash name) name).
  pose proof (find_intrinsic_spec w name Hw) as Hf. destruct (find_intrinsic _ _ _) as [itr|]; [|by split].
  destruct Hf as (l & rest & -> & _). split; [|done]. intros _. rewrite fmap_app. apply elem_of_app. right. left.
Qed.

Lemma add_intrinsic_ok w name : whitelist_wf w -> name ∉ snd <$> w ->
  exists w', add_intrinsic_to_whitelist hash w name = Ok w' /\ whitelist_wf w' /\ snd <$> w' ≡ₚ name :: (snd <$> w).
Proof.
  intros Hw Hn. unfold add_intrinsic_to_whitelist. pose proof (find_intrinsic_spec w name Hw) as Hf.
  destruct (find_intrinsic _ _ _) as [itr|].
  - destruct Hf as (l & rest & -> & _). exfalso. apply Hn. rewrite fmap_app. apply elem_of_app. right. left.
  - eexists. split; [done|]. split; [by apply emplace_wf|]. by rewrite emplace_perm.
Qed.

Lemma reset_whitelist_wf s : NoDup s -> whitelist_wf (reset_intrinsic_whitelist hash s) /\
  snd <$> reset_intrinsic_whitelist hash s ≡ₚ s.
Proof.
  intros Hnd. unfold reset_intrinsic_whitelist.
  assert (forall w, whitelist_wf w -> (forall x, x ∈ s -> x ∉ snd <$> w) ->
    whitelist_wf (foldl (fun w name => emplace (hash name) name w) w s) /\
    snd <$> foldl (fun w name => emplace (hash name) name w) w s ≡ₚ s ++ (snd <$> w)) as H.
  { induction s as [|x s IH]; intros w Hw Hd; [done|]. cbn [foldl]. apply NoDup_cons in Hnd as [Hx Hnd].
    assert (whitelist_wf (emplace (hash x) x w)) as Hw' by (apply emplace_wf; [done|apply Hd; left]).
    destruct (IH Hnd _ Hw') as [H1 H2].
    - intros y Hy. rewrite emplace_perm. cbn. intros [->|Hy2]%elem_of_cons; [done|]. apply (Hd y); [by right|done].
    - split; [done|]. rewrite H2, emplace_perm. cbn. symmetry. apply Permutation_middle. }
  destruct (H []) as [H1 H2]; [split; constructor|by intros x _ ?%elem_of_nil|]. by rewrite app_nil_r in H2.
Qed.
(** C31: The multimap behaves as a set of names whatever the hash function: looking up
    answers membership, adding and removing throw exactly when the name is there or
    missing and change the set by that name alone, and resetting with distinct names
    gives a whitelist of exactly these names. *)
Theorem whitelist_refines_set w name names :
  whitelist_wf w -> NoDup names ->
  let s := convert_intrinsic_whitelist_to_set w in
  (whitelist_wf (reset_intrinsic_whitelist hash names) /\
   convert_intrinsic_whitelist_to_set (reset_intrinsic_whitelist hash names) = list_to_set names) /\
  (is_intrinsic_whitelisted hash w name = true <-> name ∈ s) /\
  match add_intrinsic_to_whitelist hash w name with
  | Ok w' => name ∉ s /\ whitelist_wf w' /\ convert_intrinsic_whitelist_to_set w' = {[ name ]} ∪ s
  | Throw e => name ∈ s /\ e = database_exception
  end /\
  match remove_intrinsic_from_whitelist hash w name with
  | Ok w' => name ∈ s /\ whitelist_wf w' /\ convert_intrinsic_whitelist_to_set w' = s ∖ {[ name ]}
  | Throw e => name ∉ s /\ e = database_exception
  end.
Proof.
  intros Hw Hnames s. unfold s, convert_intrinsic_whitelist_to_set.
  split; [destruct (reset_whitelist_wf names Hnames) as [? ->]; done|].
  split; [rewrite elem_of_list_to_set; by apply whitelisted_iff|]. pose proof (find_intrinsic_spec w name Hw) as Hf. split.
  - destruct (decide (name ∈ snd <$> w)) as [Hin|Hn].
    + unfold add_intrinsic_to_whitelist. destruct (find_intrinsic _ _ _); [by rewrite elem_of_list_to_set|done].
    + destruct (add_intrinsic_ok w name Hw Hn) as (w' & -> & Hw' & Hp). rewrite elem_of_list_to_set. split_and!; [done..|]. by rewrite Hp.
  - unfold remove_intrinsic_from_whitelist. destruct (find_intrinsic _ _ _) as [itr|]; [|by rewrite elem_of_list_to_set].
    destruct Hf as (l & rest & E & ->). destruct Hw as [Hs Hh Hn]. rewrite E in *.
    assert (take (length (l ++ (hash name, name) :: rest) - length ((hash name, name) :: rest)) (l ++ (hash name, name) :: rest) = l) as ->.
    { rewrite length_app. replace (length l + _ - _)%nat with (length l) by lia. apply take_app_length. }
    cbn [drop skipn]. rewrite fmap_app, fmap_cons in *. apply NoDup_app in Hn as (Hn1 & Hn2 & [Hn3 Hn4]%NoDup_cons).
    apply Forall_app in Hh as [Hh1 [_ Hh2]%Forall_cons].
    assert (name ∉ snd <$> l) as Hnl by (intros Hx; apply (Hn2 _ Hx); left).
    rewrite elem_of_list_to_set. split_and!; [apply elem_of_app; right; left|split|].
    + assert (sublist (l ++ rest) (l ++ (hash name, name) :: rest)) as Hsub by (apply sublist_app; [done|by apply sublist_cons]).
      clear -Hs. induction l as [|e l IH]; cbn in *.
      * by inversion Hs.
      * apply StronglySorted_inv in Hs as [Hs He]. constructor; [by apply IH|].
        apply Forall_app in He as [? [_ ?]%Forall_cons]. by apply Forall_app.
    + by apply Forall_app.
    + rewrite fmap_app. apply NoDup_app. split_and!; [done| |done]. intros x Hx Hx2. apply (Hn2 x Hx). by right.
    + rewrite fmap_app. rewrite !list_to_set_app_L. cbn. set_solver.
Qed.

End whitelist_props.

(** ** Activating features *)
Section activation.
Context (hash : string -> Z).
Context {LT UT : Type} `{!ChainIndex (bool * Z) resource_limits_object LT} `{!ChainIndex Z resource_usage_object UT}.

Abbreviation usage_of d := (idx_view (usage_idx d)).

Definition known_usage (rl : rl_db LT UT) (a : Z) : Prop :=
  exists u, usage_of rl !! a = Some u /\ 0 <= ram_usage u < 2 ^ 63.

(** What is still to be given back to an account: its RAM corrections and the size of
    its pending deferred transactions. *)
Definition refund_of (g : generated_transaction) : Z := generated_billable_size + gto_packed_size g.
Definition owed (cs : list (Z * Z)) (gs : list generated_transaction) (a : Z) : Z :=
  foldr (fun c acc => (if c.1 =? a then c.2 else 0) + acc) 0 cs +
  foldr (fun g acc => (if gto_payer g =? a then refund_of g else 0) + acc) 0 gs.

(** Accounts with corrections exist, and the payers of pending deferred transactions
    use at least the RAM that is to be given back to them. *)
Definition covered (rl : rl_db LT UT) (cs : list (Z * Z)) (gs : list generated_transaction) : Prop :=
  Forall (fun c => known_usage rl c.1 /\ is_u64 c.2) cs /\
  Forall (fun g => 0 <= gto_packed_size g /\
    exists u, usage_of rl !! gto_payer g = Some u /\ owed cs gs (gto_payer g) <= ram_usage u < 2 ^ 63) gs.

(** A RAM correction never takes more than the account uses. *)
Lemma correct_ram_ok rl a n : known_usage rl a -> is_u64 n ->
  exists rl', correct_ram rl (a, n) = Ok rl' /\
    (forall b, b <> a -> usage_of rl' !! b = usage_of rl !! b) /\
    forall u, usage_of rl !! a = Some u ->
      exists u', usage_of rl' !! a = Some u' /\ ram_usage u' = Z.max 0 (ram_usage u - n).
Proof.
  intros (u & Hu & Hr) Hn. unfold is_u64 in Hn. unfold correct_ram, get_account_ram_usage, db_get. cbn [fst snd].
  rewrite idx_find_view. rewrite Hu. cbn [of_option mbind result_bind].
  rewrite (i64_small (ram_usage u)), (u64_small (ram_usage u)) by lia.
  set (delta := if ram_usage u <? n then _ else _).
  assert (delta = Z.max 0 (ram_usage u - n) - ram_usage u) as Ed.
  { subst delta. destruct (Z.ltb_spec (ram_usage u) n); [rewrite i64_small by lia; lia|].
    rewrite (i64_small n) by lia. rewrite i64_small by lia. lia. }
  pose proof (add_pending_ram_usage_spec a delta rl u Hu) as H. unfold is_u64, is_i64 in H.
  rewrite bool_decide_eq_true_2 in H by lia. destruct H as (rl' & H & Hall & _); [lia..|].
  exists rl'. split; [done|]. split.
  - intros b Hb. by rewrite Hall, decide_False.
  - intros u' [= <-]. rewrite Hall, decide_True by done. eexists. split; [done|]. cbn. lia.
Qed.

Lemma known_usage_corrected rl rl' a n b :
  (forall b, b <> a -> usage_of rl' !! b = usage_of rl !! b) ->
  (forall u, usage_of rl !! a = Some u -> exists u', usage_of rl' !! a = Some u' /\ ram_usage u' = Z.max 0 (ram_usage u - n)) ->
  is_u64 n -> known_usage rl b -> known_usage rl' b.
Proof.
  unfold is_u64. intros Ho Ha Hn (u & Hu & Hr). destruct (decide (b = a)) as [->|Hne].
  - destruct (Ha u Hu) as (u' & Hu' & E). exists u'. split; [done|]. lia.
  - exists u. by rewrite Ho.
Qed.

Lemma correct_all_ok cs gs : forall rl, covered rl cs gs ->
  exists rl', foldM correct_ram rl cs = Ok rl' /\ covered rl' [] gs.
Proof.
  induction cs as [|[a n] cs IH]; intros rl [Hcs Hgs]; cbn [foldM]; [by exists rl|].
  apply Forall_cons in Hcs as [[Ha Hn] Hcs]. destruct (correct_ram_ok rl a n Ha Hn) as (rl' & -> & Ho & Hu).
  apply IH. split.
  - apply (Forall_impl _ _ _ Hcs). intros c [Hk ?]. split; [|done]. by eapply known_usage_corrected.
  - apply (Forall_impl _ _ _ Hgs). intros g (H0 & u & Hg & Hle). split; [done|].
    unfold owed in Hle. cbn [foldr fst snd] in Hle. destruct (Z.eqb_spec a (gto_payer g)) as [E|E].
    + rewrite <- E in *. destruct (Hu u Hg) as (u' & Hu' & Eu). exists u'. split; [done|]. unfold owed. unfold is_u64 in Hn. cbn [snd] in Hn. lia.
    + exists u. rewrite Ho by done. split; [done|]. unfold owed. lia.
Qed.

Lemma owed_nonneg cs gs a :
  Forall (fun c => is_u64 c.2) cs -> Forall (fun g => 0 <= gto_packed_size g) gs -> 0 <= owed cs gs a.
Proof.
  intros Hc Hg. unfold owed. apply Z.add_nonneg_nonneg; [induction Hc as [|c cs Hc _ IH]|induction Hg as [|g gs Hg _ IH]];
    cbn [foldr]; [lia| |lia|].
  - unfold is_u64 in Hc. destruct (_ =? _); lia.
  - assert (0 <= refund_of g) by (unfold refund_of; change generated_billable_size with 272; lia). destruct (_ =? _); lia.
Qed.

Lemma remove_all_ok cs gs : forall rl, covered rl cs gs ->
  exists rl', foldM (fun rl g => remove_scheduled_transaction g rl) rl gs = Ok rl' /\ covered rl' cs [].
Proof.
  induction gs as [|g gs IH]; intros rl [Hcs Hgs]; cbn [foldM]; [by exists rl|].
  apply Forall_cons in Hgs as [(H0 & u & Hu & Hle) Hgs].
  assert (0 <= owed cs gs (gto_payer g)) as Hn.
  { apply owed_nonneg; [apply (Forall_impl _ _ _ Hcs); by intros ? [_ ?]|apply (Forall_impl _ _ _ Hgs); by intros ? [? _]]. }
  assert (forall b, owed cs (g :: gs) b = (if gto_payer g =? b then refund_of g else 0) + owed cs gs b) as Eo
    by (intros b; unfold owed; cbn [foldr]; lia).
  rewrite Eo, Z.eqb_refl in Hle.
  assert (0 < refund_of g) as Hpos by (unfold refund_of; change generated_billable_size with 272; lia).
  unfold remove_scheduled_transaction. fold (refund_of g). rewrite i64_small by lia.
  pose proof (add_pending_ram_usage_spec (gto_payer g) (- refund_of g) rl u Hu) as H. unfold is_u64, is_i64 in H.
  rewrite bool_decide_eq_true_2 in H by lia. destruct H as (rl' & -> & Hall & _); [lia..|]. cbn [mbind result_bind].
  apply IH. split.
  - apply (Forall_impl _ _ _ Hcs). intros c [(uc & Huc & Hrc) ?]. split; [|done]. unfold known_usage. rewrite Hall.
    destruct (decide _) as [E|]; [|by exists uc]. rewrite E in Huc. eexists. split; [done|]. cbn. lia.
  - apply (Forall_impl _ _ _ Hgs). intros g' (H0' & u' & Hu' & Hle'). split; [done|]. rewrite Eo in Hle'. rewrite Hall.
    destruct (decide _) as [E|Hne].
    + rewrite E in *. rewrite Z.eqb_refl in Hle'. assert (u' = u) as -> by congruence.
      eexists. split; [done|]. cbn. lia.
    + rewrite (proj2 (Z.eqb_neq _ _)) in Hle' by congruence. by exists u'.
Qed.

Lemma add_all_intrinsics names : forall w, whitelist_wf hash w -> NoDup names -> (forall x, x ∈ names -> x ∉ snd <$> w) ->
  exists w', foldM (add_intrinsic_to_whitelist hash) w names = Ok w' /\ whitelist_wf hash w' /\ snd <$> w' ≡ₚ names ++ (snd <$> w).
Proof.
  induction names as [|x names IH]; intros w Hw Hnd Hd; cbn [foldM]; [by exists w|].
  apply NoDup_cons in Hnd as [Hx Hnd]. destruct (add_intrinsic_ok hash w x Hw) as (w1 & -> & Hw1 & Hp1); [apply Hd; left|].
  destruct (IH w1 Hw1 Hnd) as (w2 & H2 & Hw2 & Hp2).
  - intros y Hy. rewrite Hp1. intros [->|Hy2]%elem_of_cons; [done|]. apply (Hd y); [by right|done].
  - exists w2. split; [done|]. split; [done|]. rewrite Hp2, Hp1. cbn. symmetry. apply Permutation_middle.
Qed.

Definition all_features : list builtin_protocol_feature_t :=
  [preactivate_feature; only_link_to_existing_permission; replace_deferred; no_duplicate_deferred_id;
   fix_linkauth_restriction; disallow_empty_producer_schedule; restrict_action_to_self; only_bill_first_authorizer;
   forward_setcode; get_sender; ram_restrictions; webauthn_key; wtmsig_block_signatures; action_return_value;
   blockchain_parameters; get_code_hash; configurable_wasm_limits; crypto_primitives; get_block_num; em_key;
   bls_primitives; disable_deferred_trxs_stage_1; disable_deferred_trxs_stage_2;
   disable_compression_in_transaction_merkle; reserved_private_fork_protocol_features].

Lemma all_features_all f : f ∈ all_features.
Proof. apply list_elem_of_In. destruct f; cbn; tauto. Qed.

Lemma all_intrinsics_distinct : NoDup (genesis_intrinsics ++ (all_features ≫= intrinsics_of)).
Proof. apply (bool_decide_unpack _). vm_compute. exact I. Qed.

Lemma NoDup_bind {A B} (f : A -> list B) l x y n : NoDup (l ≫= f) -> x ∈ l -> y ∈ l -> n ∈ f x -> n ∈ f y -> x = y.
Proof.
  induction l as [|z l IH]; [by intros _ ?%elem_of_nil|]. cbn. intros (H1 & H2 & H3)%NoDup_app.
  intros [->|Hx]%elem_of_cons [->|Hy]%elem_of_cons Hnx Hny; [done|..|by apply IH].
  - exfalso. apply (H2 n Hnx). apply list_elem_of_bind. eauto.
  - exfalso. apply (H2 n Hny). apply list_elem_of_bind. eauto.
Qed.

Lemma intrinsics_of_NoDup f : NoDup (intrinsics_of f).
Proof.
  pose proof all_intrinsics_distinct as (_ & _ & H)%NoDup_app. destruct (list_elem_of_split _ _ (all_features_all f)) as (l1 & l2 & E).
  rewrite E, bind_app in H. apply NoDup_app in H as (_ & _ & H). cbn in H. by apply NoDup_app in H as (H & _ & _).
Qed.

Definition state_covered (s : handler_state (LT := LT) (UT := UT)) : Prop :=
  covered (hs_rl s) (hs_ram_corrections s) (hs_generated s).

Lemma on_activation_ok f s : whitelist_wf hash (hs_intrinsics s) ->
  (forall x, x ∈ intrinsics_of f -> x ∉ snd <$> hs_intrinsics s) -> state_covered s ->
  exists s', trigger_activation_handler hash f s = Ok s' /\ whitelist_wf hash (hs_intrinsics s') /\
    snd <$> hs_intrinsics s' ≡ₚ intrinsics_of f ++ (snd <$> hs_intrinsics s) /\ state_covered s'.
Proof.
  intros Hw Hd Hc.
  assert (exists s', (w ← foldM (add_intrinsic_to_whitelist hash) (hs_intrinsics s) (intrinsics_of f); Ok (set_intrinsics w s)) = Ok s' /\
    whitelist_wf hash (hs_intrinsics s') /\ snd <$> hs_intrinsics s' ≡ₚ intrinsics_of f ++ (snd <$> hs_intrinsics s) /\
    state_covered s') as Hadd.
  { destruct (add_all_intrinsics (intrinsics_of f) _ Hw (intrinsics_of_NoDup f) Hd) as (w' & -> & Hw' & Hp).
    by exists (set_intrinsics w' s). }
  unfold trigger_activation_handler, on_activation. destruct f; cbn [has_handler intrinsics_of] in *; try exact Hadd;
    try (exists s; by split_and!); try (eexists; split; [done|]; by split_and!).
  - destruct (correct_all_ok _ _ _ Hc) as (rl' & -> & Hc'). eexists. split; [done|]. cbn. by split_and!.
  - destruct (remove_all_ok _ _ _ Hc) as (rl' & -> & Hc'). eexists. split; [done|]. cbn. by split_and!.
Qed.

Lemma activations_ok fs : forall before s, NoDup (before ++ fs) ->
  whitelist_wf hash (hs_intrinsics s) -> snd <$> hs_intrinsics s ≡ₚ genesis_intrinsics ++ (before ≫= intrinsics_of) ->
  state_covered s ->
  exists s', foldM (fun s f => trigger_activation_handler hash f s) s fs = Ok s' /\ whitelist_wf hash (hs_intrinsics s') /\
    snd <$> hs_intrinsics s' ≡ₚ genesis_intrinsics ++ ((before ++ fs) ≫= intrinsics_of).
Proof.
  induction fs as [|f fs IH]; intros before s Hnd Hw Hp Hc; cbn [foldM]; [exists s; by rewrite app_nil_r|].
  destruct (on_activation_ok f s Hw) as (s1 & -> & Hw1 & Hp1 & Hc1); [|done|].
  - intros x Hx. rewrite Hp. pose proof all_intrinsics_distinct as (_ & Hdis & Hall)%NoDup_app.
    intros [Hgen|(g & Hxg & Hin)%list_elem_of_bind]%elem_of_app.
    + apply (Hdis x Hgen). apply list_elem_of_bind. exists f. split; [done|apply all_features_all].
    + assert (f = g) as -> by (eapply (NoDup_bind intrinsics_of all_features); eauto using all_features_all).
      apply NoDup_app in Hnd as (_ & Hnd & _). apply (Hnd g Hin). left.
  - destruct (IH (before ++ [f]) s1) as (s2 & H2 & Hw2 & Hp2); [by rewrite <- app_assoc|done| |done|].
    + assert ((before ++ [f]) ≫= intrinsics_of = (before ≫= intrinsics_of) ++ intrinsics_of f) as ->
        by (rewrite bind_app; f_equal; apply app_nil_r).
      rewrite Hp1, Hp, (app_assoc genesis_intrinsics). apply Permutation_app_comm.
    + exists s2. rewrite <- app_assoc in Hp2. by split_and!.
Qed.

(** C32: The activation handlers do not collide: from the intrinsics of a new chain, any
    protocol features in any order, each once, are activated without an exception, and
    exactly the intrinsics of the genesis and of the activated features can be
    imported.  The features that give RAM back need what they rely on: an account with
    a RAM correction exists, and the payer of a pending deferred transaction uses at
    least the RAM that the corrections and the removed transactions give back to it. *)
Theorem activation_handlers_ok fs s :
  NoDup fs -> hs_intrinsics s = reset_intrinsic_whitelist hash genesis_intrinsics -> state_covered s ->
  exists s', foldM (fun s f => trigger_activation_handler hash f s) s fs = Ok s' /\
    forall name, is_intrinsic_whitelisted hash (hs_intrinsics s') name = true <->
      name ∈ genesis_intrinsics \/ exists f, f ∈ fs /\ name ∈ intrinsics_of f.
Proof.
  intros Hnd Hi Hc. pose proof all_intrinsics_distinct as (Hgen & _ & _)%NoDup_app.
  destruct (reset_whitelist_wf hash genesis_intrinsics Hgen) as [Hw Hp]. rewrite <- Hi in Hw, Hp.
  destruct (activations_ok fs [] s Hnd Hw) as (s' & H & Hw' & Hp'); [by rewrite Hp, app_nil_r|done|].
  exists s'. split; [done|]. intros name. rewrite (whitelisted_iff hash _ _ Hw'), Hp', elem_of_app, list_elem_of_bind.
  cbn [app]. split; intros [?|(f & ? & ?)]; auto; right; by exists f.
Qed.

(** The activation of [disable_deferred_trxs_stage_2] fails as long as the payer of the
    first pending deferred transaction uses less RAM than the transaction is billed
    for. *)
Theorem uncovered_refund_throws (s : handler_state (LT := LT) (UT := UT)) g gs u :
  hs_generated s = g :: gs -> usage_of (hs_rl s) !! gto_payer g = Some u ->
  0 <= ram_usage u < refund_of g -> refund_of g < 2 ^ 63 ->
  trigger_activation_handler hash disable_deferred_trxs_stage_2 s = Throw transaction_exception.
Proof.
  intros Hg Hu Hr Hb. unfold trigger_activation_handler, on_activation. cbn [has_handler]. rewrite Hg. cbn [foldM].
  assert (remove_scheduled_transaction g (hs_rl s) = Throw transaction_exception) as ->; [|done].
  unfold remove_scheduled_transaction. fold (refund_of g). rewrite i64_small by lia.
  pose proof (add_pending_ram_usage_spec (gto_payer g) (- refund_of g) _ u Hu) as H. unfold is_u64, is_i64 in H.
  rewrite bool_decide_eq_false_2 in H by lia. apply H; lia.
Qed.

(** Activating webauthn keys after EM keys takes the support of EM keys away again:
    the handlers overwrite the number of supported key types. *)
Theorem key_types_can_shrink (s : handler_state (LT := LT) (UT := UT)) :
  exists s1 s2, trigger_activation_handler hash em_key s = Ok s1 /\ trigger_activation_handler hash webauthn_key s1 = Ok s2 /\
    hs_num_supported_key_types s1 = 4 /\ hs_num_supported_key_types s2 = 3.
Proof. by eexists _, _. Qed.
End activation.

Module IntrinsicsExample.
Definition hash (s : string) : Z := Z.of_nat (String.length s).
Definition rl : rl_db (gmap (bool * Z) resource_limits_object) (gmap Z resource_usage_object) :=
  match initialize_account 7 initialize_database with
  | Ok d => match add_pending_ram_usage 7 500 d with Ok d => d | Throw _ => d end
  | Throw _ => initialize_database
  end.
Definition s0 : handler_state :=
  mk_handler_state (reset_intrinsic_whitelist hash genesis_intrinsics) 2 [(7, 150)] [mk_generated 7 20] rl.

Lemma activation_handlers_ok_witness :
  exists s', foldM (fun s f => trigger_activation_handler hash f s) s0
      [disable_deferred_trxs_stage_2; crypto_primitives; replace_deferred; get_sender] = Ok s' /\
    is_intrinsic_whitelisted hash (hs_intrinsics s') "get_sender" = true /\
    is_intrinsic_whitelisted hash (hs_intrinsics s') "bls_pairing" = false /\ hs_ram_corrections s' = [] /\
    get_account_ram_usage 7 (hs_rl s') = Ok 58.
Proof.
  destruct (activation_handlers_ok hash [disable_deferred_trxs_stage_2; crypto_primitives; replace_deferred; get_sender] s0)
    as (s' & H & Hw).
  - apply (bool_decide_unpack _). vm_compute. exact I.
  - reflexivity.
  - split.
    + constructor; [|constructor]. split; [eexists; split; [vm_compute; reflexivity|cbn; lia]|unfold is_u64; cbn; lia].
    + constructor; [|constructor]. split; [cbn; lia|]. eexists. split; [vm_compute; reflexivity|].
      split; [vm_compute; discriminate|cbn; lia].
  - exists s'. split; [exact H|]. vm_compute in H. injection H as <-. vm_compute. by split_and!.
Defined.

Lemma whitelist_refines_set_witness :
  exists w, add_intrinsic_to_whitelist hash (reset_intrinsic_whitelist hash ["abc"; "xyz"]) "pqr" = Ok w /\ whitelist_wf hash w.
Proof.
  pose proof (whitelist_refines_set hash (reset_intrinsic_whitelist hash ["abc"; "xyz"]) "pqr" ["abc"; "xyz"]) as H.
  destruct (add_intrinsic_to_whitelist hash (reset_intrinsic_whitelist hash ["abc"; "xyz"]) "pqr") as [w|e] eqn:E;
    [|vm_compute in E; discriminate E].
  exists w. split; [reflexivity|].
  assert (NoDup ["abc"; "xyz"]) as Hnd by (apply (bool_decide_unpack _); vm_compute; exact I).
  apply H; [apply reset_whitelist_wf|]; exact Hnd.
Defined.
End IntrinsicsExample.
