(* ===== verification/SnapshotScheduler.v ===== *)
(** * The snapshot scheduler ([snapshot_scheduler.cpp], [snapshot_scheduler.hpp], [pending_snapshot.hpp])

    Requests for snapshots by block number, their file, and the snapshots that wait
    until their block is irreversible.  Exceptions do not undo what was changed, so
    operations return the state with the exception.  Of the file system the state has the
    finished and the pending snapshots, by block id, and the requests the schedule's
    file holds; whether a write or a rename works is an input, as is what the chain
    answers ([chain_view]).  The order in which the hashed index of requests is walked
    is the parameter [hash_order]. *)

From S2P Require Import Prelude Exceptions Types.

(** ** Data *)

(** [get_final_path] and [get_pending_path] *)
Inductive snapshot_path := final_path (id : digest) | pending_path (id : digest).

Definition current_version : Z := 6.

Record snapshot_information := mk_snapshot_information {
  si_head_block_id : digest;
  si_head_block_num : Z;
  si_head_block_time : Z;
  si_version : Z;
  si_snapshot_name : snapshot_path }.

Record snapshot_request_information := mk_request {
  block_spacing : Z;
  start_block_num : Z;
  end_block_num : Z;
  snapshot_description : string }.

Record snapshot_schedule_information := mk_scheduled {
  snapshot_request_id : Z;
  request : snapshot_request_information;
  pending_snapshots : list snapshot_information }.

(** The callbacks: of a scheduled request, or of a caller of the API *)
Inductive next_handler := scheduled (srid : Z) | client (n : Z).
Definition snapshot_result := (snapshot_information + exn)%type.

Record pending_snapshot := mk_pending_snapshot { ps_block_id : digest; ps_next : list next_handler }.
Definition get_height (p : pending_snapshot) : Z := num_from_id (ps_block_id p).

Record snapshot_scheduler := mk_scheduler {
  snapshot_requests : list snapshot_schedule_information;   (* as_vector *)
  pending_snapshot_index : list pending_snapshot;           (* in order of insertion *)
  snapshot_id : Z;
  inflight_sid : Z;
  snapshot_db : option (list (Z * snapshot_request_information));
  client_answers : list (Z * snapshot_result);              (* calls of the clients' callbacks *)
  final_files : gset digest;
  pending_files : gset digest }.

Definition new_scheduler : snapshot_scheduler := mk_scheduler [] [] 0 0 None [] ∅ ∅.

Definition set_requests (l : list snapshot_schedule_information) (s : snapshot_scheduler) : snapshot_scheduler :=
  mk_scheduler l (pending_snapshot_index s) (snapshot_id s)
    (inflight_sid s) (snapshot_db s) (client_answers s) (final_files s) (pending_files s).
Definition set_pending (l : list pending_snapshot) (s : snapshot_scheduler) : snapshot_scheduler :=
  mk_scheduler (snapshot_requests s) l (snapshot_id s)
    (inflight_sid s) (snapshot_db s) (client_answers s) (final_files s) (pending_files s).
Definition set_snapshot_id (n : Z) (s : snapshot_scheduler) : snapshot_scheduler :=
  mk_scheduler (snapshot_requests s) (pending_snapshot_index s) n
    (inflight_sid s) (snapshot_db s) (client_answers s) (final_files s) (pending_files s).
Definition set_inflight (n : Z) (s : snapshot_scheduler) : snapshot_scheduler :=
  mk_scheduler (snapshot_requests s) (pending_snapshot_index s) (snapshot_id s) n
    (snapshot_db s) (client_answers s) (final_files s) (pending_files s).
Definition set_db (d : option (list (Z * snapshot_request_information))) (s : snapshot_scheduler) : snapshot_scheduler :=
  mk_scheduler (snapshot_requests s) (pending_snapshot_index s) (snapshot_id s)
    (inflight_sid s) d (client_answers s) (final_files s) (pending_files s).
Definition set_answers (l : list (Z * snapshot_result)) (s : snapshot_scheduler) : snapshot_scheduler :=
  mk_scheduler (snapshot_requests s) (pending_snapshot_index s) (snapshot_id s)
    (inflight_sid s) (snapshot_db s) l (final_files s) (pending_files s).
Definition set_final_files (f : gset digest) (s : snapshot_scheduler) : snapshot_scheduler :=
  mk_scheduler (snapshot_requests s) (pending_snapshot_index s) (snapshot_id s)
    (inflight_sid s) (snapshot_db s) (client_answers s) f (pending_files s).
Definition set_pending_files (f : gset digest) (s : snapshot_scheduler) : snapshot_scheduler :=
  mk_scheduler (snapshot_requests s) (pending_snapshot_index s) (snapshot_id s)
    (inflight_sid s) (snapshot_db s) (client_answers s) (final_files s) f.

Definition add_answer (n : Z) (r : snapshot_result) (s : snapshot_scheduler) : snapshot_scheduler :=
  set_answers (client_answers s ++ [(n, r)]) s.

(** ** The container of requests *)

Definition request_value (r : snapshot_request_information) : Z * Z * Z :=
  (block_spacing r, start_block_num r, end_block_num r).
Definition has_id (i : Z) (l : list snapshot_schedule_information) : bool :=
  existsb (fun r => snapshot_request_id r =? i) l.
Definition has_value (v : Z * Z * Z) (l : list snapshot_schedule_information) : bool :=
  existsb (fun r => bool_decide (request_value (request r) = v)) l.
Definition find_request (i : Z) (l : list snapshot_schedule_information) : option snapshot_schedule_information :=
  List.find (fun r => snapshot_request_id r =? i) l.

(** [emplace] and [insert] do nothing when the id or the value is taken. *)
Definition insert_request (r : snapshot_schedule_information) (l : list snapshot_schedule_information)
  : list snapshot_schedule_information :=
  if has_id (snapshot_request_id r) l || has_value (request_value (request r)) l then l else l ++ [r].

Definition modify_pending (f : list snapshot_information -> list snapshot_information) (i : Z)
    (l : list snapshot_schedule_information) : list snapshot_schedule_information :=
  (fun r => if snapshot_request_id r =? i then mk_scheduled (snapshot_request_id r) (request r) (f (pending_snapshots r)) else r) <$> l.

(** [x_serialize], when the file can be written *)
Definition x_serialize (writable : bool) (s : snapshot_scheduler) : snapshot_scheduler :=
  if writable then set_db (Some ((fun r => (snapshot_request_id r, request r)) <$> snapshot_requests s)) s else s.

(** ** Requests *)

Definition schedule_snapshot (writable : bool) (sri : snapshot_request_information) (s : snapshot_scheduler)
  : res (Z * snapshot_scheduler) :=
  _ ← sys_assert (negb (has_value (request_value sri) (snapshot_requests s))) duplicate_snapshot_request;
  _ ← sys_assert (start_block_num sri <=? end_block_num sri) invalid_snapshot_request;
  _ ← sys_assert (u32 (start_block_num sri + block_spacing sri) <=? end_block_num sri) invalid_snapshot_request;
  let id := snapshot_id s in
  let s := set_snapshot_id (u32 (id + 1)) s in
  let s := x_serialize writable (set_requests (insert_request (mk_scheduled id sri []) (snapshot_requests s)) s) in
  Ok (u32 (snapshot_id s - 1), s).

Definition unschedule_snapshot (writable : bool) (i : Z) (s : snapshot_scheduler)
  : res (snapshot_schedule_information * snapshot_scheduler) :=
  existing ← of_option snapshot_request_not_found (find_request i (snapshot_requests s));
  Ok (existing, x_serialize writable
        (set_requests (List.filter (fun r => negb (snapshot_request_id r =? i)) (snapshot_requests s)) s)).

Definition get_snapshot_requests (s : snapshot_scheduler) : list snapshot_schedule_information := snapshot_requests s.

(** [set_db_path] on a directory whose file holds [db]; an end of 0 meant forever. *)
Definition set_db_path (db : option (list (Z * snapshot_request_information))) (s : snapshot_scheduler) : snapshot_scheduler :=
  let s := set_db db s in
  match db with
  | None => s
  | Some sr => set_requests (foldl (fun l '(i, r) =>
      insert_request (mk_scheduled i (mk_request (block_spacing r) (start_block_num r)
        (if end_block_num r =? 0 then u32_max else end_block_num r) (snapshot_description r)) []) l) [] sr) s
  end.

(** ** Creating and finishing snapshots *)

(** What the chain answers: the read mode, the head block, and the number and the time of
    a block it has *)
Record chain_view := mk_chain_view {
  irreversible_mode : bool;
  head_block_id : digest;
  head_block_num : Z;
  head_block_time : Z;
  fetch_block_by_id : digest -> option (Z * Z) }.

(** The exception of writing a snapshot, and whether the rename that follows fails *)
Record disk := mk_disk { write_error : option exn; rename_fails : bool }.

Definition head_information (c : chain_view) (p : digest -> snapshot_path) : snapshot_information :=
  mk_snapshot_information (head_block_id c) (head_block_num c) (head_block_time c) current_version (p (head_block_id c)).

Definition add_pending_snapshot_info (si : snapshot_information) (s : snapshot_scheduler) : snapshot_scheduler :=
  set_requests (modify_pending (fun l => l ++ [si]) (inflight_sid s) (snapshot_requests s)) s.

(** The lambda [next] of [execute_snapshot], or the callback of a client *)
Definition call_next (h : next_handler) (r : snapshot_result) (s : snapshot_scheduler) : snapshot_scheduler * option exn :=
  match h, r with
  | scheduled srid, inr _ => (s, Some snapshot_execution_exception)
  | scheduled srid, inl info =>
    (set_requests (modify_pending (List.filter (fun p => si_head_block_num info <? si_head_block_num p)) srid (snapshot_requests s)) s, None)
  | client n, r => (add_answer n r s, None)
  end.

(** A handler attached to another is called after it. *)
Fixpoint call_all (hs : list next_handler) (r : snapshot_result) (s : snapshot_scheduler) : snapshot_scheduler * option exn :=
  match hs with
  | [] => (s, None)
  | h :: hs => match call_next h r s with
               | (s, None) => call_all hs r s
               | x => x
               end
  end.

(** [try { next( result ) } CATCH_AND_CALL( next )] *)
Definition try_next (hs : list next_handler) (r : snapshot_result) (s : snapshot_scheduler) : snapshot_scheduler * option exn :=
  match r with
  | inr e => call_all hs (inr e) s
  | inl info => match call_all hs (inl info) s with
                | (s, None) => (s, None)
                | (s, Some e) => call_all hs (inr e) s
                end
  end.

Definition write_and_rename (d : disk) : option exn :=
  match write_error d with
  | Some x => Some x
  | None => if rename_fails d then Some snapshot_finalization_exception else None
  end.

Definition create_snapshot (c : chain_view) (d : disk) (next : next_handler) (s : snapshot_scheduler)
  : snapshot_scheduler * option exn :=
  let head_id := head_block_id c in
  if bool_decide (head_id ∈ final_files s) then call_next next (inr snapshot_exists_exception) s
  else if irreversible_mode c then
    match write_and_rename d with
    | Some x => call_next next (inr x) s
    | None => try_next [next] (inl (head_information c final_path)) (set_final_files ({[head_id]} ∪ final_files s) s)
    end
  else if existsb (fun p => bool_decide (ps_block_id p = head_id)) (pending_snapshot_index s) then
    (set_pending ((fun p => if bool_decide (ps_block_id p = head_id)
                            then mk_pending_snapshot (ps_block_id p) (ps_next p ++ [next]) else p) <$> pending_snapshot_index s) s, None)
  else match write_and_rename d with
       | Some x => call_next next (inr x) s
       | None =>
         let s := set_pending_files ({[head_id]} ∪ pending_files s) s in
         let s := set_pending (pending_snapshot_index s ++ [mk_pending_snapshot head_id [next]]) s in
         (add_pending_snapshot_info (head_information c pending_path) s, None)
       end.

Definition execute_snapshot (c : chain_view) (d : disk) (srid : Z) (s : snapshot_scheduler) : snapshot_scheduler * option exn :=
  create_snapshot c d (scheduled srid) (set_inflight srid s).

(** [pending_snapshot::finalize] *)
Definition finalize (c : chain_view) (rename_fails : digest -> bool) (p : pending_snapshot) (s : snapshot_scheduler)
  : snapshot_scheduler * snapshot_result :=
  let block_id := ps_block_id p in
  match fetch_block_by_id c block_id with
  | None => (set_pending_files (pending_files s ∖ {[block_id]}) s, inr snapshot_finalization_exception)
  | Some (num, time) =>
    if rename_fails block_id then (s, inr snapshot_finalization_exception)
    else (set_final_files ({[block_id]} ∪ final_files s) (set_pending_files (pending_files s ∖ {[block_id]}) s),
          inl (mk_snapshot_information block_id num time current_version (final_path block_id)))
  end.

(** ** The listeners *)

Definition recurring_snapshot (height : Z) (req : snapshot_request_information) : bool :=
  negb (block_spacing req =? 0) && (u32 (start_block_num req + 1) <=? height) &&
  (u32 (height - start_block_num req - 1) mod block_spacing req =? 0).
Definition onetime_snapshot (height : Z) (req : snapshot_request_information) : bool :=
  (block_spacing req =? 0) && (height =? u32 (start_block_num req + 1)).
Definition marked_for_deletion (height : Z) (req : snapshot_request_information) : bool :=
  ((block_spacing req =? 0) && (u32 (start_block_num req + 1) <=? height)) ||
  ((0 <? height) && (end_block_num req <=? u32 (height - 1))).

(** The walk over the requests: one snapshot per height; the ids to unschedule *)
Fixpoint start_block_loop (height : Z) (c : chain_view) (d : disk) (reqs : list snapshot_schedule_information)
    (snapshot_executed : bool) (ids : list Z) (s : snapshot_scheduler) : snapshot_scheduler * (list Z + exn) :=
  match reqs with
  | [] => (s, inl ids)
  | r :: reqs =>
    let due := recurring_snapshot height (request r) || onetime_snapshot height (request r) in
    let ids' := if marked_for_deletion height (request r) then ids ++ [snapshot_request_id r] else ids in
    if due && negb snapshot_executed then
      match execute_snapshot c d (snapshot_request_id r) s with
      | (s, None) => start_block_loop height c d reqs true ids' s
      | (s, Some e) => (s, inr e)
      end
    else start_block_loop height c d reqs snapshot_executed ids' s
  end.

Fixpoint unschedule_all (writable : bool) (ids : list Z) (s : snapshot_scheduler) : snapshot_scheduler * option exn :=
  match ids with
  | [] => (s, None)
  | i :: ids => match unschedule_snapshot writable i s with
                | Ok (_, s) => unschedule_all writable ids s
                | Throw e => (s, Some e)
                end
  end.

Definition on_start_block (hash_order : list snapshot_schedule_information -> list snapshot_schedule_information)
    (writable : bool) (height : Z) (c : chain_view) (d : disk) (s : snapshot_scheduler) : snapshot_scheduler * option exn :=
  match start_block_loop height c d (hash_order (snapshot_requests s)) false [] s with
  | (s, inl ids) => unschedule_all writable ids s
  | (s, inr e) => (s, Some e)
  end.

Definition erase_pending (i : digest) (l : list pending_snapshot) : list pending_snapshot :=
  List.filter (fun p => negb (bool_decide (ps_block_id p = i))) l.

Fixpoint irreversible_loop (fuel : nat) (lib_height : Z) (c : chain_view) (rename_fails : digest -> bool)
    (s : snapshot_scheduler) : snapshot_scheduler * option exn :=
  match fuel with
  | O => (s, Some fuel_exhausted)
  | S fuel =>
    match first_min get_height (pending_snapshot_index s) with
    | None => (s, None)
    | Some pending =>
      if get_height pending <=? lib_height then
        let '(s, r) := finalize c rename_fails pending s in
        match try_next (ps_next pending) r s with
        | (s, None) => irreversible_loop fuel lib_height c rename_fails
                         (set_pending (erase_pending (ps_block_id pending) (pending_snapshot_index s)) s)
        | x => x
        end
      else (s, None)
    end
  end.

Definition on_irreversible_block (lib_height : Z) (c : chain_view) (rename_fails : digest -> bool) (s : snapshot_scheduler)
  : snapshot_scheduler * option exn :=
  irreversible_loop (S (length (pending_snapshot_index s))) lib_height c rename_fails s.

(** A node that starts again reads the schedule's file; the snapshots stay on disk. *)
Definition restart (s : snapshot_scheduler) : snapshot_scheduler :=
  set_db_path (snapshot_db s) (set_final_files (final_files s) (set_pending_files (pending_files s) new_scheduler)).

(** ** What the parts leave alone *)

Definition saved (l : list snapshot_schedule_information) : list (Z * snapshot_request_information) :=
  (fun r => (snapshot_request_id r, request r)) <$> l.

Lemma saved_modify f i l : saved (modify_pending f i l) = saved l.
Proof.
  unfold saved, modify_pending. rewrite <- list_fmap_compose. apply list_fmap_ext. intros k r _. cbn.
  by destruct (_ =? _).
Qed.

(** A callback changes the clients' answers and the requests' pending snapshots. *)
Record calls (s s' : snapshot_scheduler) : Prop := {
  calls_requests : saved (snapshot_requests s') = saved (snapshot_requests s);
  calls_pending : pending_snapshot_index s' = pending_snapshot_index s;
  calls_id : snapshot_id s' = snapshot_id s;
  calls_db : snapshot_db s' = snapshot_db s;
  calls_final : final_files s' = final_files s;
  calls_pending_files : pending_files s' = pending_files s }.

#[global] Instance calls_preorder : PreOrder calls.
Proof. split; [done|]. intros x y z [] []. split; congruence. Qed.

Lemma call_next_calls h r s : calls s (fst (call_next h r s)).
Proof. destruct h, r; try done. cbn. split; cbn; try done. apply saved_modify. Qed.

Lemma call_all_calls hs r : forall s, calls s (fst (call_all hs r s)).
Proof.
  induction hs as [|h hs IH]; intros s; [done|]. cbn. pose proof (call_next_calls h r s) as Hn.
  destruct (call_next h r s) as [s1 [e|]]; [done|]. etrans; [exact Hn|apply IH].
Qed.

Lemma call_all_success hs info : forall s, snd (call_all hs (inl info) s) = None.
Proof. induction hs as [|[] hs IH]; intros s; [done|apply IH..]. Qed.

Lemma call_all_clients hs r : (forall i, scheduled i ∉ hs) -> forall s, snd (call_all hs r s) = None.
Proof.
  induction hs as [|[i|n] hs IH]; intros Hh s; [done|set_solver|]. cbn. apply IH. set_solver.
Qed.

Lemma try_next_call_all hs r s : try_next hs r s = call_all hs r s.
Proof.
  destruct r as [info|e]; [|done]. cbn. pose proof (call_all_success hs info s) as H.
  destruct (call_all hs (inl info) s) as [s1 [e|]]; [done|done].
Qed.

(** Clients hear the result, when no exception stops the calls. *)
Lemma call_all_answers hs r : forall s n x, (n, x) ∈ client_answers (fst (call_all hs r s)) ->
  (n, x) ∈ client_answers s \/ (client n ∈ hs /\ x = r).
Proof.
  induction hs as [|h hs IH]; intros s n x Hx; [by left|]. cbn in Hx.
  destruct (call_next h r s) as [s1 e] eqn:Ec.
  assert (client_answers s1 = client_answers s \/ exists k, h = client k /\ client_answers s1 = client_answers s ++ [(k, r)]) as Hs1.
  { destruct h, r; cbn in Ec; simplify_eq; eauto. }
  assert (forall y, y ∈ client_answers s1 -> y ∈ client_answers s \/ exists k, h = client k /\ y = (k, r)) as Hin.
  { intros y Hy. destruct Hs1 as [E|(k & -> & E)]; rewrite E in Hy; [by left|].
    apply elem_of_app in Hy as [Hy|Hy%list_elem_of_singleton]; eauto. }
  assert ((n, x) ∈ client_answers s1 \/ (client n ∈ hs /\ x = r)) as [H1|[H1 ->]].
  { destruct e; [by left|]. by apply IH. }
  - apply Hin in H1 as [H1|(k & -> & [= -> ->])]; [by left|]. right. split; [left|done].
  - right. split; [by right|done].
Qed.

Lemma call_all_keeps hs r : forall s y, y ∈ client_answers s -> y ∈ client_answers (fst (call_all hs r s)).
Proof.
  induction hs as [|h hs IH]; intros s y Hy; [done|]. cbn.
  destruct (call_next h r s) as [s1 e] eqn:Ec.
  assert (y ∈ client_answers s1) as H1 by (destruct h, r; cbn in Ec; simplify_eq; try done; cbn; set_solver).
  destruct e; [done|by apply IH].
Qed.

Lemma call_all_answered hs r : forall s n, snd (call_all hs r s) = None -> client n ∈ hs ->
  (n, r) ∈ client_answers (fst (call_all hs r s)).
Proof.
  induction hs as [|h hs IH]; intros s n Hn Hin; [by apply elem_of_nil in Hin|]. cbn in *.
  destruct (call_next h r s) as [s1 [e|]] eqn:Ec; [done|]. apply elem_of_cons in Hin as [<-|Hin]; [|by apply IH].
  apply call_all_keeps. destruct r; cbn in Ec; simplify_eq; cbn; set_solver.
Qed.

(** ** The invariant *)

(** [reliable]: the schedule file is always written, and no request ends at block 0. *)
Record scheduler_inv (reliable : bool) (s : snapshot_scheduler) : Prop := {
  inv_ids : NoDup (fst <$> saved (snapshot_requests s));
  inv_values : NoDup ((fun r => request_value r.2) <$> saved (snapshot_requests s));
  inv_pending : NoDup (ps_block_id <$> pending_snapshot_index s);
  inv_success : forall n info, (n, inl info) ∈ client_answers s ->
    si_head_block_id info ∈ final_files s /\ si_snapshot_name info = final_path (si_head_block_id info);
  inv_db : reliable = true ->
    (snapshot_db s = None /\ snapshot_requests s = []) \/ snapshot_db s = Some (saved (snapshot_requests s));
  inv_end : reliable = true -> Forall (fun r => end_block_num r.2 <> 0) (saved (snapshot_requests s)) }.

Lemma saved_nil l : saved l = [] <-> l = [].
Proof. destruct l; done. Qed.

(** What a step that only works on snapshots must keep *)
Lemma inv_transfer w s s' : scheduler_inv w s ->
  saved (snapshot_requests s') = saved (snapshot_requests s) -> snapshot_db s' = snapshot_db s ->
  NoDup (ps_block_id <$> pending_snapshot_index s') ->
  (forall n info, (n, inl info) ∈ client_answers s' ->
    si_head_block_id info ∈ final_files s' /\ si_snapshot_name info = final_path (si_head_block_id info)) ->
  scheduler_inv w s'.
Proof.
  intros [] Er Ed Hp Ha. split; try done; try (by rewrite Er).
  intros Hw. rewrite Ed, Er. destruct (inv_db0 Hw) as [[? E]|?]; [left|by right]. split; [done|].
  apply saved_nil. by rewrite Er, E.
Qed.

Lemma call_all_inv w hs r s : scheduler_inv w s ->
  (forall info, r = inl info -> si_head_block_id info ∈ final_files s /\ si_snapshot_name info = final_path (si_head_block_id info)) ->
  scheduler_inv w (fst (call_all hs r s)).
Proof.
  intros Hs Hr. destruct (call_all_calls hs r s) as [Er Ep _ Ed Ef _].
  apply (inv_transfer w s); try done; [rewrite Ep; apply (inv_pending _ s Hs)|].
  intros n info Hi. rewrite Ef. apply call_all_answers in Hi as [Hi|[_ <-]]; [|by apply Hr].
  by apply (inv_success _ s Hs n).
Qed.

Lemma call_next_inv w h e s : scheduler_inv w s -> scheduler_inv w (fst (call_next h (inr e) s)).
Proof.
  intros Hs. pose proof (call_all_inv w [h] (inr e) s Hs ltac:(done)) as H. cbn in H.
  by destruct (call_next h (inr e) s) as [s1 []].
Qed.

Lemma attach_ids h i (l : list pending_snapshot) :
  ps_block_id <$> ((fun p => if bool_decide (ps_block_id p = i) then mk_pending_snapshot (ps_block_id p) (ps_next p ++ [h]) else p) <$> l)
    = ps_block_id <$> l.
Proof. rewrite <- list_fmap_compose. apply list_fmap_ext. intros k p _. cbn. by destruct (bool_decide _). Qed.

Lemma no_pending_fresh i l : existsb (fun p => bool_decide (ps_block_id p = i)) l = false -> i ∉ ps_block_id <$> l.
Proof.
  intros H Hin. apply list_elem_of_fmap in Hin as (p & -> & Hp). apply Is_true_false in H. apply H, Is_true_true.
  apply existsb_exists. exists p. split; [by apply list_elem_of_In|by apply bool_decide_eq_true].
Qed.

Lemma set_final_inv w i s : scheduler_inv w s -> scheduler_inv w (set_final_files ({[i]} ∪ final_files s) s).
Proof.
  intros Hs. apply (inv_transfer w s); try done; [apply (inv_pending _ s Hs)|]. intros n info Hi. cbn in *.
  destruct (inv_success _ s Hs n info Hi). set_solver.
Qed.

Lemma create_snapshot_inv w c d h s : scheduler_inv w s -> scheduler_inv w (fst (create_snapshot c d h s)).
Proof.
  intros Hs. unfold create_snapshot. case_bool_decide as Hf; [by apply call_next_inv|].
  destruct (irreversible_mode c).
  - destruct (write_and_rename d); [by apply call_next_inv|]. rewrite try_next_call_all.
    apply call_all_inv; [by apply set_final_inv|]. intros info [= <-]. cbn. set_solver.
  - destruct (existsb _ _) eqn:Ee.
    + apply (inv_transfer w s); try done; [|apply (inv_success _ s Hs)]. cbn. rewrite attach_ids. apply (inv_pending _ s Hs).
    + destruct (write_and_rename d); [by apply call_next_inv|].
      apply (inv_transfer w s); try done; [apply saved_modify| |apply (inv_success _ s Hs)]. cbn.
      rewrite fmap_app. apply NoDup_app. split; [apply (inv_pending _ s Hs)|]. split; [|apply NoDup_singleton].
      intros i Hi ->%list_elem_of_singleton. by apply no_pending_fresh in Ee.
Qed.

Lemma set_inflight_inv w i s : scheduler_inv w s -> scheduler_inv w (set_inflight i s).
Proof. intros []. by split. Qed.

Lemma execute_snapshot_inv w c d i s : scheduler_inv w s -> scheduler_inv w (fst (execute_snapshot c d i s)).
Proof. intros Hs. by apply create_snapshot_inv, set_inflight_inv. Qed.

Lemma finalize_inv w c rf p s : scheduler_inv w s -> scheduler_inv w (fst (finalize c rf p s)).
Proof.
  intros Hs. unfold finalize. destruct (fetch_block_by_id c (ps_block_id p)) as [[num time]|].
  - destruct (rf _); [done|]. apply (inv_transfer w s); try done; [apply (inv_pending _ s Hs)|]. intros n info Hi. cbn in *.
    destruct (inv_success _ s Hs n info Hi). set_solver.
  - destruct Hs. by split.
Qed.

Lemma finalize_result c rf p s info : snd (finalize c rf p s) = inl info ->
  si_head_block_id info ∈ final_files (fst (finalize c rf p s)) /\ si_snapshot_name info = final_path (si_head_block_id info).
Proof.
  unfold finalize. destruct (fetch_block_by_id c (ps_block_id p)) as [[num time]|]; [|done].
  destruct (rf _); [done|]. intros [= <-]. cbn. set_solver.
Qed.

Lemma erase_pending_inv w i s : scheduler_inv w s ->
  scheduler_inv w (set_pending (erase_pending i (pending_snapshot_index s)) s).
Proof.
  intros Hs. apply (inv_transfer w s); try done; [|apply (inv_success _ s Hs)]. cbn.
  eapply sublist_NoDup; [apply (inv_pending _ s Hs)|]. apply fmap_sublist. unfold erase_pending.
  generalize (pending_snapshot_index s). induction l as [|p l IH]; [done|]. cbn.
  destruct (negb _); by constructor.
Qed.

Lemma irreversible_loop_inv w lib c rf fuel : forall s, scheduler_inv w s -> scheduler_inv w (fst (irreversible_loop fuel lib c rf s)).
Proof.
  induction fuel as [|fuel IH]; intros s Hs; [done|]. cbn. destruct (first_min _ _) as [p|]; [|done].
  destruct (_ <=? _); [|done].
  pose proof (finalize_inv w c rf p s Hs) as Hf. pose proof (finalize_result c rf p s) as Hr.
  destruct (finalize c rf p s) as [s1 r]. cbn [fst snd] in *. rewrite try_next_call_all.
  pose proof (call_all_inv w (ps_next p) r s1 Hf Hr) as Hc.
  destruct (call_all (ps_next p) r s1) as [s2 [e|]]; [done|]. by apply IH, erase_pending_inv.
Qed.

(** ** The start of a block *)

Definition due (height : Z) (req : snapshot_request_information) : bool :=
  recurring_snapshot height req || onetime_snapshot height req.

(** Without wrap-around a snapshot is due right after the start block, and then at the
    request's spacing. *)
Lemma due_spec height req : is_u32 height -> is_u32 (block_spacing req) -> 0 <= start_block_num req < 2 ^ 32 - 1 ->
  due height req = true <->
  exists k, 0 <= k /\ height = start_block_num req + 1 + k * block_spacing req /\ (block_spacing req = 0 -> k = 0).
Proof.
  unfold is_u32, due, recurring_snapshot, onetime_snapshot. intros Hh Hb Hs.
  rewrite (u32_small (start_block_num req + 1)) by (unfold is_u32; lia).
  rewrite orb_true_iff, !andb_true_iff, negb_true_iff, Z.eqb_neq, Z.leb_le, !Z.eqb_eq.
  destruct (decide (start_block_num req + 1 <= height)) as [Hle|Hlt].
  - rewrite u32_small by (unfold is_u32; lia). destruct (decide (block_spacing req = 0)) as [E0|E0].
    + rewrite E0. split; [intros [[[? _] _]|[_ ?]]; [done|exists 0; lia]|].
      intros (k & _ & -> & Hk). right. lia.
    + rewrite Z.mod_divide by done. split.
      * intros [[_ [k Hk]]|[? _]]; [exists k; nia|lia].
      * intros (k & Hk & -> & _). left. split; [lia|]. exists k. lia.
  - split; [lia|]. intros (k & Hk & -> & _). nia.
Qed.

Lemma start_block_loop_executed height c d reqs : forall ids s,
  start_block_loop height c d reqs true ids s =
    (s, inl (ids ++ (snapshot_request_id <$> List.filter (fun r => marked_for_deletion height (request r)) reqs))).
Proof.
  induction reqs as [|r reqs IH]; intros ids s; [by rewrite app_nil_r|]. cbn -[marked_for_deletion recurring_snapshot onetime_snapshot].
  rewrite andb_false_r, IH. destruct (marked_for_deletion _ _); [|done]. by rewrite <- app_assoc.
Qed.

Lemma start_block_loop_spec height c d reqs : forall ids s,
  let all := ids ++ (snapshot_request_id <$> List.filter (fun r => marked_for_deletion height (request r)) reqs) in
  start_block_loop height c d reqs false ids s =
    match List.find (fun r => due height (request r)) reqs with
    | None => (s, inl all)
    | Some r => match execute_snapshot c d (snapshot_request_id r) s with
                | (s, None) => (s, inl all)
                | (s, Some e) => (s, inr e)
                end
    end.
Proof.
  induction reqs as [|r reqs IH]; intros ids s all; [unfold all; by rewrite app_nil_r|].
  cbn -[marked_for_deletion recurring_snapshot onetime_snapshot execute_snapshot]. change (recurring_snapshot height (request r) || onetime_snapshot height (request r))
    with (due height (request r)).
  assert (all = (if marked_for_deletion height (request r) then ids ++ [snapshot_request_id r] else ids) ++
    (snapshot_request_id <$> List.filter (fun r => marked_for_deletion height (request r)) reqs)) as ->.
  { unfold all. cbn -[marked_for_deletion]. destruct (marked_for_deletion _ _); [|done]. by rewrite <- app_assoc. }
  destruct (due height (request r)); cbn [andb negb]; [|apply IH].
  destruct (execute_snapshot c d _ s) as [s1 [e|]]; [done|apply start_block_loop_executed].
Qed.

(** Without the requests whose ids are given *)
Definition without (ids : list Z) (l : list snapshot_schedule_information) : list snapshot_schedule_information :=
  List.filter (fun r => negb (bool_decide (snapshot_request_id r ∈ ids))) l.

Lemma without_nil l : without [] l = l.
Proof. unfold without. induction l as [|r l IH]; [done|]. cbn. by rewrite IH. Qed.

Lemma without_cons i ids l :
  without ids (List.filter (fun r => negb (snapshot_request_id r =? i)) l) = without (i :: ids) l.
Proof.
  unfold without. induction l as [|r l IH]; [done|]. cbn. destruct (Z.eqb_spec (snapshot_request_id r) i) as [E|E]; cbn.
  - rewrite IH, bool_decide_eq_true_2; [done|]. rewrite E. left.
  - rewrite IH. assert (bool_decide (snapshot_request_id r ∈ i :: ids) = bool_decide (snapshot_request_id r ∈ ids)) as ->; [|done].
    apply bool_decide_ext. rewrite elem_of_cons. naive_solver.
Qed.

Lemma find_request_Some i l : i ∈ snapshot_request_id <$> l -> exists r, find_request i l = Some r /\ snapshot_request_id r = i.
Proof.
  unfold find_request. induction l as [|r l IH]; [intros []%elem_of_nil|]. rewrite fmap_cons, elem_of_cons. cbn.
  destruct (Z.eqb_spec (snapshot_request_id r) i) as [E|E]; [eauto|]. intros [?|?]; [done|by apply IH].
Qed.

Lemma elem_of_unscheduled i j l : j ∈ snapshot_request_id <$> l -> j <> i ->
  j ∈ snapshot_request_id <$> List.filter (fun r => negb (snapshot_request_id r =? i)) l.
Proof.
  intros (r & -> & Hr)%list_elem_of_fmap Hne. apply list_elem_of_fmap. exists r. split; [done|].
  apply list_elem_of_In, filter_In. split; [by apply list_elem_of_In|]. by apply negb_true_iff, Z.eqb_neq.
Qed.

Definition prune (writable : bool) (ids : list Z) (s : snapshot_scheduler) : snapshot_scheduler :=
  match ids with [] => s | _ => x_serialize writable (set_requests (without ids (snapshot_requests s)) s) end.

Lemma unschedule_all_spec w ids : forall s, NoDup ids -> (forall i, i ∈ ids -> i ∈ snapshot_request_id <$> snapshot_requests s) ->
  unschedule_all w ids s = (prune w ids s, None).
Proof.
  induction ids as [|i ids IH]; intros s Hnd Hin; [done|]. apply NoDup_cons in Hnd as [Hi Hnd].
  destruct (find_request_Some i (snapshot_requests s)) as (r & Hr & _); [apply Hin; left|].
  cbn. unfold unschedule_snapshot. rewrite Hr. cbn -[x_serialize]. rewrite IH; [|done|].
  - unfold prune. rewrite <- without_cons.
    destruct ids as [|j ids]; [by rewrite without_nil|by destruct w].
  - intros j Hj. assert (j <> i) by congruence. destruct w; cbn; (apply elem_of_unscheduled; [apply Hin; by right|done]).
Qed.

Lemma create_snapshot_saved c d h s : saved (snapshot_requests (fst (create_snapshot c d h s))) = saved (snapshot_requests s).
Proof.
  unfold create_snapshot. case_bool_decide; [apply call_next_calls|]. destruct (irreversible_mode c).
  - destruct (write_and_rename d); [apply call_next_calls|]. rewrite try_next_call_all. by rewrite (calls_requests _ _ (call_all_calls _ _ _)).
  - destruct (existsb _ _); [done|]. destruct (write_and_rename d); [apply call_next_calls|apply saved_modify].
Qed.

Lemma saved_ids l : snapshot_request_id <$> l = fst <$> saved l.
Proof. unfold saved. by rewrite <- list_fmap_compose. Qed.

Lemma saved_without ids l : saved (without ids l) = List.filter (fun r => negb (bool_decide (r.1 ∈ ids))) (saved l).
Proof.
  unfold saved, without. induction l as [|r l IH]; [done|]. cbn. destruct (negb _); [|done]. cbn. by rewrite IH.
Qed.

(** The ids of the requests that the walk over [order] marks *)
Definition marked_ids (height : Z) (order : list snapshot_schedule_information) : list Z :=
  snapshot_request_id <$> List.filter (fun r => marked_for_deletion height (request r)) order.

Lemma elem_of_marked_ids height order l r : order ≡ₚ l -> NoDup (fst <$> saved l) -> r ∈ saved l ->
  r.1 ∈ marked_ids height order <-> marked_for_deletion height r.2 = true.
Proof.
  intros Hp Hnd Hr. unfold marked_ids. rewrite list_elem_of_fmap.
  setoid_rewrite list_elem_of_In. setoid_rewrite filter_In. setoid_rewrite <- list_elem_of_In. setoid_rewrite Hp. split.
  - intros (x & E & Hx & Hm). apply (list_elem_of_fmap_2 (fun r => (snapshot_request_id r, request r))) in Hx as Hx'.
    change (_ <$> l) with (saved l) in Hx'. rewrite <- Hm. f_equal. destruct r as [i q]. cbn in *. subst i.
    apply (elem_of_list_to_map_1 (M := gmap Z) _ _ _ Hnd) in Hr, Hx'. congruence.
  - intros Hm. apply list_elem_of_fmap in Hr as (x & -> & Hx). by exists x.
Qed.

Lemma sublist_List_filter {A} (f : A -> bool) l : sublist (List.filter f l) l.
Proof. induction l as [|x l IH]; [done|]. cbn. destruct (f x); by constructor. Qed.

Lemma marked_ids_unscheduled height order l : order ≡ₚ l -> NoDup (fst <$> saved l) ->
  NoDup (marked_ids height order) /\ (forall i, i ∈ marked_ids height order -> i ∈ fst <$> saved l).
Proof.
  intros Hp Hnd. rewrite <- saved_ids in *.
  assert (sublist (marked_ids height order) (snapshot_request_id <$> order)) as Hsub by apply fmap_sublist, sublist_List_filter.
  split; [eapply sublist_NoDup; [|exact Hsub]; by rewrite Hp|].
  intros i Hi. rewrite <- Hp. by eapply sublist_subseteq.
Qed.

Lemma without_marked height order l l' : order ≡ₚ l -> NoDup (fst <$> saved l) -> saved l' = saved l ->
  saved (without (marked_ids height order) l') = List.filter (fun r => negb (marked_for_deletion height r.2)) (saved l).
Proof.
  intros Hp Hnd E. rewrite saved_without, E. apply List.filter_ext_in. intros r Hr%list_elem_of_In. f_equal.
  apply eq_bool_prop_intro. rewrite bool_decide_spec, Is_true_true. by apply (elem_of_marked_ids height order l).
Qed.

(** [on_start_block] is one execution at most, then one pruning. *)
Lemma on_start_block_eq order w height c d s : NoDup (fst <$> saved (snapshot_requests s)) ->
  order (snapshot_requests s) ≡ₚ snapshot_requests s ->
  let ids := marked_ids height (order (snapshot_requests s)) in
  on_start_block order w height c d s =
    match List.find (fun r => due height (request r)) (order (snapshot_requests s)) with
    | None => (prune w ids s, None)
    | Some r => match execute_snapshot c d (snapshot_request_id r) s with
                | (s, None) => (prune w ids s, None)
                | x => x
                end
    end.
Proof.
  intros Hnd Hp ids. destruct (marked_ids_unscheduled height _ _ Hp Hnd) as [Hids Hin].
  unfold on_start_block. rewrite start_block_loop_spec. cbn [app].
  change (snapshot_request_id <$> List.filter _ _) with ids.
  destruct (List.find _ _) as [r|].
  - pose proof (create_snapshot_saved c d (scheduled (snapshot_request_id r)) (set_inflight (snapshot_request_id r) s)) as Es.
    fold (execute_snapshot c d (snapshot_request_id r) s) in Es.
    destruct (execute_snapshot c d _ s) as [s1 [e|]]; [done|]. apply unschedule_all_spec; [done|].
    intros i Hi. rewrite saved_ids. cbn [fst] in Es. rewrite Es. by apply Hin.
  - apply unschedule_all_spec; [done|]. intros i Hi. rewrite saved_ids. by apply Hin.
Qed.

Lemma prune_saved w height order l s : order ≡ₚ l -> NoDup (fst <$> saved l) -> saved (snapshot_requests s) = saved l ->
  saved (snapshot_requests (prune w (marked_ids height order) s)) =
    List.filter (fun r => negb (marked_for_deletion height r.2)) (saved l).
Proof.
  intros Hp Hnd E. rewrite <- (without_marked height order l _ Hp Hnd E). unfold prune.
  destruct (marked_ids height order) as [|i ids]; [by rewrite without_nil|by destruct w].
Qed.

Lemma prune_frame w ids s : pending_snapshot_index (prune w ids s) = pending_snapshot_index s /\
  final_files (prune w ids s) = final_files s /\ client_answers (prune w ids s) = client_answers s.
Proof. unfold prune. destruct ids, w; done. Qed.

(** A scheduled snapshot succeeds exactly when it can be written. *)
Lemma execute_snapshot_result c d i s : let '(s', e) := execute_snapshot c d i s in
  match e with
  | None => head_block_id c ∉ final_files s /\ client_answers s' = client_answers s /\
      (if irreversible_mode c then head_block_id c ∈ final_files s' else head_block_id c ∈ ps_block_id <$> pending_snapshot_index s')
  | Some e => e = snapshot_execution_exception /\ (head_block_id c ∈ final_files s \/ write_and_rename d <> None) /\
      pending_snapshot_index s' = pending_snapshot_index s /\ final_files s' = final_files s
  end.
Proof.
  unfold execute_snapshot, create_snapshot. cbn [final_files set_inflight pending_snapshot_index].
  case_bool_decide as Hf; [cbn; naive_solver|]. destruct (irreversible_mode c).
  - destruct (write_and_rename d); cbn; [naive_solver|]. split; [done|]. split; [done|]. set_solver.
  - destruct (existsb _ _) eqn:Ee.
    + split; [done|]. split; [done|]. cbn. rewrite attach_ids.
      apply existsb_exists in Ee as (p & Hp%list_elem_of_In & E%bool_decide_eq_true). rewrite <- E.
      by apply list_elem_of_fmap_2.
    + destruct (write_and_rename d); cbn; [naive_solver|]. split; [done|]. split; [done|]. rewrite fmap_app. set_solver.
Qed.

(** At the start of a block in which a snapshot of the head can be written, the
    scheduler returns without an exception; exactly the requests that are past (one-time
    requests whose block is reached, and requests whose end is reached) are removed, in
    whatever order the hashed index is walked; if some request is due, the head block
    has a snapshot, pending or, in irreversible mode, finished; and if none is, no
    snapshot is made.  When one is due and cannot be written, the scheduler throws and
    no request is removed. *)
Theorem on_start_block_spec reliable order w height c d s : scheduler_inv reliable s ->
  order (snapshot_requests s) ≡ₚ snapshot_requests s ->
  let is_due := exists r, r ∈ snapshot_requests s /\ due height (request r) = true in
  let '(s', e) := on_start_block order w height c d s in
  (~ is_due \/ (head_block_id c ∉ final_files s /\ write_and_rename d = None) ->
    e = None /\ client_answers s' = client_answers s /\
    saved (snapshot_requests s') = List.filter (fun r => negb (marked_for_deletion height r.2)) (saved (snapshot_requests s))) /\
  (e = None -> is_due ->
    if irreversible_mode c then head_block_id c ∈ final_files s' else head_block_id c ∈ ps_block_id <$> pending_snapshot_index s') /\
  (~ is_due -> pending_snapshot_index s' = pending_snapshot_index s /\ final_files s' = final_files s) /\
  (is_due -> head_block_id c ∈ final_files s \/ (write_and_rename d <> None /\ head_block_id c ∉ ps_block_id <$> pending_snapshot_index s) ->
    e = Some snapshot_execution_exception /\ saved (snapshot_requests s') = saved (snapshot_requests s)).
Proof.
  intros Hs Hp is_due. pose proof (inv_ids _ s Hs) as Hnd. rewrite (on_start_block_eq order w height c d s Hnd Hp).
  destruct (List.find _ _) as [r|] eqn:Ef.
  - apply find_some in Ef as [Hr%list_elem_of_In Hd]. rewrite Hp in Hr. assert is_due as Hdue by (by exists r).
    pose proof (execute_snapshot_result c d (snapshot_request_id r) s) as Hex.
    pose proof (create_snapshot_saved c d (scheduled (snapshot_request_id r)) (set_inflight (snapshot_request_id r) s)) as Es.
    fold (execute_snapshot c d (snapshot_request_id r) s) in Es.
    destruct (execute_snapshot c d _ s) as [s1 [e|]] eqn:Ex; cbn [fst] in Es.
    + destruct Hex as (-> & Hfail & Hpend & Hfin). split; [naive_solver|]. split; [done|]. split; [done|]. done.
    + destruct Hex as (Hnf & Hans & Hhead).
      destruct (prune_frame w (marked_ids height (order (snapshot_requests s))) s1) as (E1 & E2 & E3).
      rewrite E1, E2, E3. split; [intros _; split; [done|]; split; [done|]; by apply prune_saved|].
      split; [done|]. split; [done|]. intros _ [?|[Hw Hnp]]; [done|]. exfalso.
      unfold execute_snapshot, create_snapshot in Ex. cbn [final_files set_inflight pending_snapshot_index] in Ex.
      rewrite bool_decide_eq_false_2 in Ex by done. destruct (write_and_rename d) eqn:Ew; [|done].
      destruct (irreversible_mode c); [done|]. destruct (existsb _ _) eqn:Ee; [|done].
      apply existsb_exists in Ee as (p & Hin%list_elem_of_In & E%bool_decide_eq_true). apply Hnp. rewrite <- E. by apply list_elem_of_fmap_2.
  - assert (~ is_due) as Hnd'.
    { intros (r & Hr & Hd). rewrite <- Hp in Hr. eapply find_none in Ef; [|by apply list_elem_of_In]. cbn in Ef. congruence. }
    destruct (prune_frame w (marked_ids height (order (snapshot_requests s))) s) as (E1 & E2 & E3).
    split; [intros _; split; [done|]; split; [done|]; by apply prune_saved|]. naive_solver.
Qed.

(** ** Irreversible blocks *)

(** The pending snapshot can be finished, and what its handlers are told. *)
Definition finishes (c : chain_view) (rename_fails : digest -> bool) (i : digest) : bool :=
  bool_decide (is_Some (fetch_block_by_id c i)) && negb (rename_fails i).
Definition outcome (c : chain_view) (rename_fails : digest -> bool) (p : pending_snapshot) : snapshot_result :=
  match fetch_block_by_id c (ps_block_id p) with
  | Some (num, time) =>
    if rename_fails (ps_block_id p) then inr snapshot_finalization_exception
    else inl (mk_snapshot_information (ps_block_id p) num time current_version (final_path (ps_block_id p)))
  | None => inr snapshot_finalization_exception
  end.

(** The ids of the due snapshots that can be finished *)
Definition finished_ids (lib : Z) (c : chain_view) (rename_fails : digest -> bool) (l : list pending_snapshot) : list digest :=
  ps_block_id <$> List.filter (fun p => (get_height p <=? lib) && finishes c rename_fails (ps_block_id p)) l.

Lemma finalize_spec c rf p s : let '(s', r) := finalize c rf p s in
  r = outcome c rf p /\ pending_snapshot_index s' = pending_snapshot_index s /\ snapshot_requests s' = snapshot_requests s /\
  client_answers s' = client_answers s /\
  final_files s' = (if finishes c rf (ps_block_id p) then {[ps_block_id p]} ∪ final_files s else final_files s).
Proof.
  unfold finalize, outcome, finishes. destruct (fetch_block_by_id c (ps_block_id p)) as [[num time]|] eqn:E; [|done].
  rewrite bool_decide_eq_true_2 by eauto. by destruct (rf _).
Qed.

Lemma outcome_success c rf p : finishes c rf (ps_block_id p) = true -> exists info, outcome c rf p = inl info.
Proof.
  unfold finishes, outcome. rewrite andb_true_iff, bool_decide_eq_true, negb_true_iff. intros [[[num time] ->] ->]. eauto.
Qed.

Lemma erase_pending_split p l : NoDup (ps_block_id <$> l) -> p ∈ l ->
  exists l1 l2, l = l1 ++ p :: l2 /\ erase_pending (ps_block_id p) l = l1 ++ l2.
Proof.
  intros Hnd (l1 & l2 & ->)%list_elem_of_split. exists l1, l2. split; [done|]. unfold erase_pending.
  rewrite fmap_app, fmap_cons, NoDup_app, NoDup_cons in Hnd. destruct Hnd as (_ & H1 & H2 & _).
  rewrite List.filter_app. cbn. rewrite bool_decide_eq_true_2 by done. cbn. f_equal.
  all: apply forallb_filter_id, forallb_forall; intros q Hq%list_elem_of_In; apply negb_true_iff, bool_decide_eq_false; intros E.
  - apply (H1 (ps_block_id q)); [by apply list_elem_of_fmap_2|]. rewrite E. left.
  - apply H2. rewrite <- E. by apply list_elem_of_fmap_2.
Qed.

(** A scheduled request waits only for snapshots that can be finished. *)
Definition no_scheduled_failure (lib : Z) (c : chain_view) (rf : digest -> bool) (l : list pending_snapshot) : Prop :=
  forall p i, p ∈ l -> get_height p <= lib -> scheduled i ∈ ps_next p -> finishes c rf (ps_block_id p) = true.

Lemma handlers_return lib c rf l p s : no_scheduled_failure lib c rf l -> p ∈ l -> get_height p <= lib ->
  snd (call_all (ps_next p) (outcome c rf p) s) = None.
Proof.
  intros Hok Hp Hh. destruct (finishes c rf (ps_block_id p)) eqn:Ef.
  - destruct (outcome_success c rf p Ef) as [info ->]. apply call_all_success.
  - apply call_all_clients. intros i Hi. rewrite (Hok p i) in Ef; done.
Qed.

(** All due snapshots of [s] are settled in [s']. *)
Record settled (lib : Z) (c : chain_view) (rf : digest -> bool) (s s' : snapshot_scheduler) : Prop := {
  settled_requests : saved (snapshot_requests s') = saved (snapshot_requests s);
  settled_pending : pending_snapshot_index s' = List.filter (fun p => lib <? get_height p) (pending_snapshot_index s);
  settled_files : forall i, i ∈ final_files s' <-> i ∈ finished_ids lib c rf (pending_snapshot_index s) \/ i ∈ final_files s;
  settled_kept : forall y, y ∈ client_answers s -> y ∈ client_answers s';
  settled_answers : forall p n, p ∈ pending_snapshot_index s -> get_height p <= lib -> client n ∈ ps_next p ->
    (n, outcome c rf p) ∈ client_answers s' }.

Lemma elem_of_finished_ids lib c rf l i :
  i ∈ finished_ids lib c rf l <-> exists p, i = ps_block_id p /\ p ∈ l /\ get_height p <= lib /\ finishes c rf (ps_block_id p) = true.
Proof.
  unfold finished_ids. rewrite list_elem_of_fmap.
  assert (forall p, p ∈ List.filter (fun p => (get_height p <=? lib) && finishes c rf (ps_block_id p)) l <->
    p ∈ l /\ get_height p <= lib /\ finishes c rf (ps_block_id p) = true) as Hf.
  { intros p. by rewrite !list_elem_of_In, filter_In, andb_true_iff, Z.leb_le. }
  split; intros (p & -> & Hp); exists p; (split; [done|]); by apply Hf.
Qed.

Lemma settled_none lib c rf s : (forall p, p ∈ pending_snapshot_index s -> lib < get_height p) -> settled lib c rf s s.
Proof.
  intros Hall. split; try done.
  - symmetry. apply forallb_filter_id, forallb_forall. intros q Hq%list_elem_of_In. by apply Z.ltb_lt, Hall.
  - intros i. rewrite elem_of_finished_ids. split; [by right|]. intros [(p & _ & Hp & Hle & _)|?]; [|done].
    pose proof (Hall p Hp). lia.
  - intros p n Hp Hle. pose proof (Hall p Hp). lia.
Qed.

Lemma settled_step lib c rf p l1 l2 s s2 s' : pending_snapshot_index s = l1 ++ p :: l2 -> get_height p <= lib ->
  saved (snapshot_requests s2) = saved (snapshot_requests s) ->
  final_files s2 = (if finishes c rf (ps_block_id p) then {[ps_block_id p]} ∪ final_files s else final_files s) ->
  (forall y, y ∈ client_answers s -> y ∈ client_answers s2) ->
  (forall n, client n ∈ ps_next p -> (n, outcome c rf p) ∈ client_answers s2) ->
  settled lib c rf (set_pending (l1 ++ l2) s2) s' -> settled lib c rf s s'.
Proof.
  intros E Hle Er Ef Hk Ha [Sr Sp Sf Sk Sa].
  cbn [snapshot_requests pending_snapshot_index final_files client_answers set_pending] in Sr, Sp, Sf, Sk, Sa.
  assert (forall q, q ∈ pending_snapshot_index s <-> q = p \/ q ∈ l1 ++ l2) as Hin.
  { intros q. rewrite E, !elem_of_app, elem_of_cons. tauto. }
  split.
  - by rewrite Sr.
  - rewrite Sp, E, !List.filter_app. cbn [List.filter]. by rewrite (proj2 (Z.ltb_ge _ _)) by done.
  - intros i. rewrite Sf, Ef, !elem_of_finished_ids. setoid_rewrite Hin.
    assert (i ∈ (if finishes c rf (ps_block_id p) then {[ps_block_id p]} ∪ final_files s else final_files s)
      <-> (i = ps_block_id p /\ finishes c rf (ps_block_id p) = true) \/ i ∈ final_files s) as ->.
    { destruct (finishes c rf (ps_block_id p)); [rewrite elem_of_union, elem_of_singleton|]; intuition congruence. }
    split.
    + intros [(q & Hq)|[[Hi Hfin]|?]]; [left; exists q; tauto|left; exists p; tauto|by right].
    + intros [(q & Hi & [->|Hq] & Hqh & Hfin)|?]; [right; left; by subst|left; by exists q|tauto].
  - intros y Hy. by apply Sk, Hk.
  - intros q n [->|Hq]%Hin Hqh Hqn; [by apply Sk, Ha|by apply Sa].
Qed.

Lemma irreversible_loop_spec lib c rf fuel : forall s, NoDup (ps_block_id <$> pending_snapshot_index s) ->
  no_scheduled_failure lib c rf (pending_snapshot_index s) -> (length (pending_snapshot_index s) < fuel)%nat ->
  exists s', irreversible_loop fuel lib c rf s = (s', None) /\ settled lib c rf s s'.
Proof.
  induction fuel as [|fuel IH]; intros s Hnd Hok Hf; [lia|]. cbn [irreversible_loop].
  pose proof (first_min_spec get_height (pending_snapshot_index s)) as Hmin. destruct (first_min _ _) as [p|].
  2: { exists s. split; [done|]. apply settled_none. rewrite Hmin. intros p []%elem_of_nil. }
  destruct Hmin as [Hp Hmin]. destruct (Z.leb_spec (get_height p) lib) as [Hle|Hgt].
  2: { exists s. split; [done|]. apply settled_none. intros q Hq. pose proof (Hmin q Hq). lia. }
  pose proof (finalize_spec c rf p s) as Hfin. destruct (finalize c rf p s) as [s1 r].
  destruct Hfin as (-> & Ep & Er & Ea & Eff). rewrite try_next_call_all.
  pose proof (handlers_return lib c rf _ p s1 Hok Hp Hle) as Hnone.
  pose proof (call_all_calls (ps_next p) (outcome c rf p) s1) as [Cr Cp _ _ Cf _].
  pose proof (call_all_answered (ps_next p) (outcome c rf p) s1) as Hans.
  pose proof (call_all_keeps (ps_next p) (outcome c rf p) s1) as Hkeep.
  destruct (call_all (ps_next p) (outcome c rf p) s1) as [s2 e]. cbn [fst snd] in *. subst e.
  destruct (erase_pending_split p (pending_snapshot_index s) Hnd Hp) as (l1 & l2 & E & E').
  rewrite Cp, Ep, E'.
  destruct (IH (set_pending (l1 ++ l2) s2)) as (s' & Hl & Hs'); cbn [pending_snapshot_index set_pending].
  - rewrite <- E'. eapply sublist_NoDup; [exact Hnd|]. apply fmap_sublist, sublist_List_filter.
  - intros q i Hq. apply Hok. rewrite E. rewrite elem_of_app in *. rewrite elem_of_cons. tauto.
  - rewrite E, length_app in Hf. cbn in Hf. rewrite length_app. lia.
  - exists s'. split; [done|]. apply (settled_step lib c rf p l1 l2 s s2 s'); try done; try congruence.
    + intros y Hy. apply Hkeep. by rewrite Ea.
    + intros n Hn. by apply Hans.
Qed.

(** C30: When a block becomes irreversible and no scheduled request waits for a snapshot
    that cannot be finished, every pending snapshot up to that height is settled: it
    leaves the index, the finished snapshots gain exactly the files of the blocks that
    are in the chain and can be renamed, every client waiting for one is told its outcome, success or
    failure, and the snapshots of higher blocks stay pending in their order. *)
Theorem on_irreversible_block_spec w lib c rf s : scheduler_inv w s ->
  no_scheduled_failure lib c rf (pending_snapshot_index s) ->
  exists s', on_irreversible_block lib c rf s = (s', None) /\
    pending_snapshot_index s' = List.filter (fun p => lib <? get_height p) (pending_snapshot_index s) /\
    (forall i, i ∈ final_files s' <-> i ∈ final_files s \/ exists p, i = ps_block_id p /\ p ∈ pending_snapshot_index s /\
       get_height p <= lib /\ finishes c rf i = true) /\
    (forall p n, p ∈ pending_snapshot_index s -> get_height p <= lib -> client n ∈ ps_next p ->
       (n, outcome c rf p) ∈ client_answers s').
Proof.
  intros Hs Hok. destruct (irreversible_loop_spec lib c rf (S (length (pending_snapshot_index s))) s) as (s' & Hl & [_ Hp Hf _ Ha]);
    [apply (inv_pending _ s Hs)|done|lia|].
  exists s'. split; [exact Hl|]. split; [done|]. split; [|done].
  intros i. rewrite Hf, elem_of_finished_ids. split.
  - intros [(p & -> & H)|?]; [right; exists p; tauto|by left].
  - intros [?|(p & -> & H)]; [by right|left; exists p; tauto].
Qed.

(** A scheduled snapshot of a block that is forked out stops all later ones.  Its
    callback throws before the snapshot leaves the index, so that at every later
    irreversible block the listener starts with it again and throws again: as long as
    the block stays out of the chain, no other pending snapshot is finished, whatever
    blocks become irreversible. *)
Theorem forked_snapshot_blocks p srid hs libs : ps_next p = scheduled srid :: hs ->
  Forall (fun '(lib, c, _) => get_height p <= lib /\ fetch_block_by_id c (ps_block_id p) = None) libs ->
  forall s, first_min get_height (pending_snapshot_index s) = Some p ->
  let s' := foldl (fun s '(lib, c, rf) => fst (on_irreversible_block lib c rf s)) s libs in
  pending_snapshot_index s' = pending_snapshot_index s /\ final_files s' = final_files s /\ client_answers s' = client_answers s.
Proof.
  intros Hn Hl. induction Hl as [|[[lib c] rf] libs [Hh Hc] Hl IH]; intros s Hp; [done|]. cbn.
  unfold on_irreversible_block. cbn [irreversible_loop]. rewrite Hp, (proj2 (Z.leb_le _ _)) by done.
  unfold finalize. rewrite Hc, try_next_call_all, Hn. cbn [call_all call_next fst].
  apply (IH (set_pending_files (pending_files s ∖ {[ps_block_id p]}) s)), Hp.
Qed.

(** ** The schedule's file *)

Lemma insert_request_fresh r l : snapshot_request_id r ∉ fst <$> saved l ->
  request_value (request r) ∉ (fun x => request_value x.2) <$> saved l -> insert_request r l = l ++ [r].
Proof.
  intros Hi Hv. unfold insert_request, has_id, has_value. destruct (_ || _) eqn:E; [|done]. exfalso.
  apply orb_true_iff in E as [(x & Hx & E)%existsb_exists|(x & Hx & E)%existsb_exists]; apply list_elem_of_In in Hx;
    apply (list_elem_of_fmap_2 (fun r => (snapshot_request_id r, request r))) in Hx; change (_ <$> l) with (saved l) in Hx.
  - apply Hi. apply Z.eqb_eq in E. rewrite <- E. by apply (list_elem_of_fmap_2 fst) in Hx.
  - apply Hv. apply bool_decide_eq_true in E. rewrite <- E. by apply (list_elem_of_fmap_2 (fun x => request_value x.2)) in Hx.
Qed.

Lemma insert_request_taken r l : snapshot_request_id r ∈ fst <$> saved l -> insert_request r l = l.
Proof.
  intros Hi. unfold insert_request, has_id. rewrite <- saved_ids in Hi. apply list_elem_of_fmap in Hi as (x & E & Hx).
  assert (existsb (fun x => snapshot_request_id x =? snapshot_request_id r) l = true) as ->; [|done].
  apply existsb_exists. exists x. split; [by apply list_elem_of_In|]. apply Z.eqb_eq. done.
Qed.

Lemma load_requests sr : forall l, Forall (fun r => end_block_num r.2 <> 0) sr ->
  NoDup (fst <$> saved l ++ sr) -> NoDup ((fun r => request_value r.2) <$> saved l ++ sr) ->
  saved (foldl (fun l '(i, r) =>
      insert_request (mk_scheduled i (mk_request (block_spacing r) (start_block_num r)
        (if end_block_num r =? 0 then u32_max else end_block_num r) (snapshot_description r)) []) l) l sr) = saved l ++ sr.
Proof.
  induction sr as [|[i r] sr IH]; intros l He Hi Hv; [by rewrite app_nil_r|]. cbn [foldl].
  apply Forall_cons in He as [He1 He2]. cbn in He1. rewrite (proj2 (Z.eqb_neq _ _)) by done.
  destruct r as [bs st en de]. cbn in *. set (r := mk_scheduled i _ []).
  assert (saved (l ++ [r]) = saved l ++ [(i, mk_request bs st en de)]) as El by (unfold saved; by rewrite fmap_app).
  rewrite insert_request_fresh; cbn.
  - rewrite IH; [|done|by rewrite El, <- app_assoc..]. by rewrite El, <- app_assoc.
  - rewrite fmap_app, NoDup_app in Hi. destruct Hi as (_ & Hi & _). intros H. apply (Hi i H). left.
  - rewrite fmap_app, NoDup_app in Hv. destruct Hv as (_ & Hv & _). intros H. apply (Hv _ H). left.
Qed.

Lemma insert_request_unique r l :
  NoDup (fst <$> saved l) -> NoDup ((fun x => request_value x.2) <$> saved l) ->
  NoDup (fst <$> saved (insert_request r l)) /\ NoDup ((fun x => request_value x.2) <$> saved (insert_request r l)).
Proof.
  intros Hi Hv. unfold insert_request. destruct (has_id _ _) eqn:Ei; [done|]. destruct (has_value _ _) eqn:Ev; [done|]. cbn [orb].
  assert (saved (l ++ [r]) = saved l ++ [(snapshot_request_id r, request r)]) as -> by (unfold saved; by rewrite fmap_app).
  rewrite !fmap_app. split; (apply NoDup_app; split; [done|]; split; [|apply NoDup_singleton]);
    intros x Hx ->%list_elem_of_singleton; apply list_elem_of_fmap in Hx as (y & E & Hy);
    apply list_elem_of_fmap in Hy as (z & -> & Hz%list_elem_of_In); cbn in E.
  - enough (has_id (snapshot_request_id r) l = true) by congruence. apply existsb_exists. exists z.
    split; [done|by apply Z.eqb_eq].
  - enough (has_value (request_value (request r)) l = true) by congruence. apply existsb_exists. exists z.
    split; [done|by apply bool_decide_eq_true].
Qed.

(** Whatever the file holds, the requests read from it have distinct ids and values. *)
Lemma restart_unique s :
  NoDup (fst <$> saved (snapshot_requests (restart s))) /\
  NoDup ((fun x => request_value x.2) <$> saved (snapshot_requests (restart s))).
Proof.
  unfold restart, set_db_path. destruct (snapshot_db s) as [sr|]; [|by split; constructor]. cbn [snapshot_requests set_requests].
  assert (forall l, NoDup (fst <$> saved l) /\ NoDup ((fun x => request_value x.2) <$> saved l) ->
    let l' := foldl (fun l '(i, r) => insert_request (mk_scheduled i (mk_request (block_spacing r) (start_block_num r)
        (if end_block_num r =? 0 then u32_max else end_block_num r) (snapshot_description r)) []) l) l sr in
    NoDup (fst <$> saved l') /\ NoDup ((fun x => request_value x.2) <$> saved l')) as H.
  { induction sr as [|[i r] sr IH]; intros l [Hi Hv]; [done|]. cbn [foldl]. by apply IH, insert_request_unique. }
  apply H. by split; constructor.
Qed.

Lemma restart_saved s : scheduler_inv true s -> saved (snapshot_requests (restart s)) = saved (snapshot_requests s).
Proof.
  intros Hs. unfold restart, set_db_path. destruct (inv_db _ s Hs eq_refl) as [[-> ->]|E]; [done|].
  rewrite E. cbn [snapshot_requests set_requests].
  rewrite load_requests; [done|apply (inv_end _ s Hs eq_refl)|apply (inv_ids _ s Hs)|apply (inv_values _ s Hs)].
Qed.

Lemma restart_inv w s : scheduler_inv w s -> scheduler_inv w (restart s).
Proof.
  intros Hs. destruct (restart_unique s) as [Hi Hv]. split; [done|done|..].
  - unfold restart, set_db_path. destruct (snapshot_db s); constructor.
  - unfold restart, set_db_path. intros n info. destruct (snapshot_db s); cbn; intros []%elem_of_nil.
  - intros ->. rewrite (restart_saved s Hs).
    destruct (inv_db _ s Hs eq_refl) as [[Ed Er]|Ed]; [left|right]; unfold restart, set_db_path; by rewrite Ed.
  - intros ->. rewrite (restart_saved s Hs). by apply (inv_end _ s Hs).
Qed.

(** ** All operations *)

(** The members of the invariant that a step which writes the file must show *)
Lemma serialize_inv w wr s l : scheduler_inv w s -> (w = true -> wr = true) ->
  NoDup (fst <$> saved l) -> NoDup ((fun r => request_value r.2) <$> saved l) ->
  (w = true -> Forall (fun r => end_block_num r.2 <> 0) (saved l)) ->
  scheduler_inv w (x_serialize wr (set_requests l s)).
Proof.
  intros [] Hw Hi Hv He. unfold x_serialize. destruct wr; split; cbn; try done; intros E.
  - by right.
  - by specialize (Hw E).
Qed.

Lemma set_snapshot_id_inv w n s : scheduler_inv w s -> scheduler_inv w (set_snapshot_id n s).
Proof. intros []. by split. Qed.

Lemma schedule_snapshot_inv w wr sri s i s' : scheduler_inv w s -> (w = true -> wr = true) ->
  (w = true -> end_block_num sri <> 0) -> schedule_snapshot wr sri s = Ok (i, s') -> scheduler_inv w s'.
Proof.
  intros Hs Hw He H. unfold schedule_snapshot in H.
  apply bind_Ok in H as ([] & _ & H). apply bind_Ok in H as ([] & _ & H).
  apply bind_Ok in H as ([] & _ & H). injection H as _ <-.
  destruct (insert_request_unique (mk_scheduled (snapshot_id s) sri []) (snapshot_requests s) (inv_ids _ s Hs) (inv_values _ s Hs)) as [Hi Hv].
  apply serialize_inv; [by apply set_snapshot_id_inv|done|done|done|]. intros E. specialize (He E). cbn [snapshot_requests set_snapshot_id].
  unfold insert_request. destruct (_ || _); [by apply (inv_end _ s Hs)|].
  unfold saved. rewrite fmap_app. apply Forall_app. split; [by apply (inv_end _ s Hs)|]. by apply Forall_singleton.
Qed.

Lemma remove_requests_inv w wr ids s : scheduler_inv w s -> (w = true -> wr = true) ->
  scheduler_inv w (x_serialize wr (set_requests (without ids (snapshot_requests s)) s)).
Proof.
  intros Hs Hw. assert (sublist (saved (without ids (snapshot_requests s))) (saved (snapshot_requests s))) as Hsub.
  { rewrite saved_without. apply sublist_List_filter. }
  apply serialize_inv; [done|done|..].
  - eapply sublist_NoDup; [apply (inv_ids _ s Hs)|by apply fmap_sublist].
  - eapply sublist_NoDup; [apply (inv_values _ s Hs)|by apply fmap_sublist].
  - intros E. pose proof (inv_end _ s Hs E) as He. rewrite Forall_forall in *. intros x Hx. eapply He, sublist_subseteq; done.
Qed.

Lemma unschedule_snapshot_inv w wr i s r s' : scheduler_inv w s -> (w = true -> wr = true) ->
  unschedule_snapshot wr i s = Ok (r, s') -> scheduler_inv w s'.
Proof.
  intros Hs Hw H. unfold unschedule_snapshot in H. apply bind_Ok in H as (x & _ & H). injection H as _ <-.
  rewrite <- (without_nil (List.filter _ _)), without_cons. by apply remove_requests_inv.
Qed.

Lemma start_block_inv w wr order height c d s : scheduler_inv w s -> (w = true -> wr = true) ->
  order (snapshot_requests s) ≡ₚ snapshot_requests s -> scheduler_inv w (fst (on_start_block order wr height c d s)).
Proof.
  intros Hs Hw Hp. rewrite (on_start_block_eq order wr height c d s (inv_ids _ s Hs) Hp).
  assert (forall ids s, scheduler_inv w s -> scheduler_inv w (prune wr ids s)) as Hprune.
  { intros [|i ids] s0 H0; [done|by apply remove_requests_inv]. }
  destruct (List.find _ _) as [r|]; [|by apply Hprune].
  pose proof (execute_snapshot_inv w c d (snapshot_request_id r) s Hs) as He.
  destruct (execute_snapshot _ _ _ _) as [s1 [e|]]; [done|by apply Hprune].
Qed.

(** The operations of a node.  Writing the schedule file can fail, which is only
    logged and can leave any file behind.  On a reliable node it does not fail, and no
    request ends at block 0, which the file's reader takes for no end. *)
Inductive scheduler_step (reliable : bool) : snapshot_scheduler -> snapshot_scheduler -> Prop :=
| step_schedule s w sri i s' : (reliable = true -> w = true) -> (reliable = true -> end_block_num sri <> 0) ->
    schedule_snapshot w sri s = Ok (i, s') -> scheduler_step reliable s s'
| step_unschedule s w i r s' : (reliable = true -> w = true) -> unschedule_snapshot w i s = Ok (r, s') ->
    scheduler_step reliable s s'
| step_file s db : reliable = false -> scheduler_step reliable s (set_db db s)
| step_create s c d n : scheduler_step reliable s (fst (create_snapshot c d (client n) s))
| step_start_block s w order height c d : (reliable = true -> w = true) ->
    order (snapshot_requests s) ≡ₚ snapshot_requests s ->
    scheduler_step reliable s (fst (on_start_block order w height c d s))
| step_irreversible s lib c rf : scheduler_step reliable s (fst (on_irreversible_block lib c rf s))
| step_restart s : scheduler_step reliable s (restart s).

Lemma scheduler_reach w s : rtc (scheduler_step w) new_scheduler s -> scheduler_inv w s.
Proof.
  intros Hr. assert (scheduler_inv w new_scheduler) as H0.
  { split; [constructor..|intros n info []%elem_of_nil|by left|constructor]. }
  revert H0. induction Hr as [s|x y z Hxy _ IH]; intros Hx; [done|]. apply IH. destruct Hxy.
  - by eapply schedule_snapshot_inv.
  - by eapply unschedule_snapshot_inv.
  - destruct Hx. subst w. by split.
  - by apply create_snapshot_inv.
  - by apply start_block_inv.
  - by apply irreversible_loop_inv.
  - by apply restart_inv.
Qed.

(** C29: In every reachable scheduler, also when the schedule file is lost or damaged,
    the requests have distinct ids and distinct values, each block has one pending
    snapshot at most, and every client that was told success has the finished snapshot
    of its block on disk under the name it was told.  As long as the file is always
    written and no request ends at block 0, the schedule survives a restart: a node
    that starts again has the same requests, with the same ids and in the same
    order. *)
Theorem scheduler_reachable_inv reliable s : rtc (scheduler_step reliable) new_scheduler s ->
  NoDup (snapshot_request_id <$> snapshot_requests s) /\
  NoDup ((fun r => request_value (request r)) <$> snapshot_requests s) /\
  NoDup (ps_block_id <$> pending_snapshot_index s) /\
  (forall n info, (n, inl info) ∈ client_answers s ->
    si_head_block_id info ∈ final_files s /\ si_snapshot_name info = final_path (si_head_block_id info)) /\
  (reliable = true -> saved (snapshot_requests (restart s)) = saved (snapshot_requests s)).
Proof.
  intros Hs%scheduler_reach. pose proof Hs as [Hi Hv Hp Ha Hd He]. rewrite saved_ids. split; [done|].
  split; [by unfold saved in Hv; rewrite <- list_fmap_compose in Hv|]. split; [done|]. split; [done|].
  intros ->. by apply restart_saved.
Qed.

(** After a restart the ids start at 0 again, so that a request scheduled when the
    file had a request number 0 is answered with success and the id 0, but is not
    scheduled: neither the requests nor the file have it. *)
Theorem restart_loses_request s r sri : scheduler_inv true s -> r ∈ snapshot_requests s -> snapshot_request_id r = 0 ->
  start_block_num sri <= end_block_num sri -> u32 (start_block_num sri + block_spacing sri) <= end_block_num sri ->
  request_value sri ∉ (fun r => request_value (request r)) <$> snapshot_requests s ->
  exists s', schedule_snapshot true sri (restart s) = Ok (0, s') /\
    snapshot_requests s' = snapshot_requests (restart s) /\ snapshot_db s' = Some (saved (snapshot_requests s)).
Proof.
  intros Hs Hr H0 H1 H2 Hv. pose proof (restart_saved s Hs) as E.
  assert (snapshot_id (restart s) = 0) as Eid by (unfold restart, set_db_path; by destruct (snapshot_db s)).
  unfold schedule_snapshot. rewrite (proj2 (negb_true_iff _)); cbn [sys_assert mbind result_bind].
  - rewrite (proj2 (Z.leb_le _ _)) by done. cbn [sys_assert mbind result_bind]. rewrite (proj2 (Z.leb_le _ _)) by done.
    cbn -[restart u32]. rewrite Eid, insert_request_taken.
    + eexists. split; [reflexivity|]. split; [done|]. cbn -[restart]. by fold (saved (snapshot_requests (restart s))); rewrite E.
    + rewrite E, <- saved_ids. cbn [snapshot_request_id]. rewrite <- H0. by apply (list_elem_of_fmap_2 snapshot_request_id).
  - destruct (has_value _ _) eqn:Eh; [|done]. exfalso. apply Hv.
    apply existsb_exists in Eh as (x & Hx%list_elem_of_In & Ex%bool_decide_eq_true).
    assert ((fun r => request_value (request r)) <$> snapshot_requests s = (fun r => request_value r.2) <$> saved (snapshot_requests s)) as ->
      by (unfold saved; by rewrite <- list_fmap_compose).
    rewrite <- E, <- Ex. unfold saved. rewrite <- list_fmap_compose. by apply (list_elem_of_fmap_2 (fun r => request_value (request r))).
Qed.

Module SchedulerExample.

Definition block (n : Z) : digest := calculate_id (mk_digest 7 8 9 10) n.
Definition view (out : list Z) (n : Z) : chain_view :=
  mk_chain_view false (block n) n (500000 * n)
    (fun i => if bool_decide (i ∈ block <$> out) then None else Some (num_from_id i, 500000 * num_from_id i)).
Definition good : disk := mk_disk None false.
Definition onetime : snapshot_request_information := mk_request 0 10 u32_max "".
Definition recurring : snapshot_request_information := mk_request 5 10 100 "".
Definition run {A} (r : res (A * snapshot_scheduler)) : snapshot_scheduler :=
  match r with Ok (_, s) => s | Throw _ => new_scheduler end.
Definition s2 : snapshot_scheduler := run (schedule_snapshot true recurring (run (schedule_snapshot true onetime new_scheduler))).
Definition s3 : snapshot_scheduler := fst (on_start_block (@rev _) true 11 (view [] 10) good s2).
Definition s4 : snapshot_scheduler := fst (create_snapshot (view [] 12) good (client 77) s3).
Definition s5 : snapshot_scheduler := fst (on_irreversible_block 12 (view [] 20) (fun _ => false) s4).

Lemma reach2 : rtc (scheduler_step true) new_scheduler s2.
Proof.
  eapply rtc_l; [by eapply (step_schedule true _ true onetime)|]. eapply rtc_once. by eapply (step_schedule true _ true recurring).
Qed.

Lemma reach4 : rtc (scheduler_step true) new_scheduler s4.
Proof.
  etrans; [exact reach2|]. eapply rtc_l; [apply (step_start_block true s2 true (@rev _)); [done|]; apply Permutation_sym, Permutation_rev|].
  eapply rtc_once. apply step_create.
Qed.

Lemma reach5 : rtc (scheduler_step true) new_scheduler s5.
Proof. etrans; [exact reach4|]. apply rtc_once, step_irreversible. Qed.

Lemma scheduler_reachable_inv_witness :
  client_answers s5 <> [] /\ saved (snapshot_requests (restart s5)) = [(1, recurring)].
Proof.
  split; [by vm_compute|]. destruct (scheduler_reachable_inv true s5 reach5) as (_ & _ & _ & _ & E). rewrite (E eq_refl). by vm_compute.
Defined.

Lemma on_start_block_spec_witness :
  snd (on_start_block (@rev _) true 11 (view [] 10) good s2) = None /\ saved (snapshot_requests s3) = [(1, recurring)].
Proof.
  pose proof (on_start_block_spec true (@rev _) true 11 (view [] 10) good s2 (scheduler_reach true s2 reach2)
    (Permutation_sym (Permutation_rev _))) as H.
  unfold s3. destruct (on_start_block _ _ _ _ _ s2) as [s' e]. destruct H as [H _].
  destruct H as (-> & _ & E); [right; by vm_compute|]. cbn [fst snd]. rewrite E. by vm_compute.
Defined.

Lemma on_irreversible_block_spec_witness : exists s',
  on_irreversible_block 12 (view [12] 20) (fun _ => false) s4 = (s', None) /\
  pending_snapshot_index s' = [] /\ (77, inr snapshot_finalization_exception) ∈ client_answers s'.
Proof.
  destruct (on_irreversible_block_spec true 12 (view [12] 20) (fun _ => false) s4 (scheduler_reach true s4 reach4)) as (s' & E & Ep & _ & Ea).
  - intros p i Hp _ Hi. apply list_elem_of_In in Hp. vm_compute in Hp. destruct Hp as [<-|[<-|[]]]; [by vm_compute|].
    apply list_elem_of_In in Hi. vm_compute in Hi. by destruct Hi as [Hi|[]].
  - exists s'. split; [exact E|]. split; [rewrite Ep; by vm_compute|].
    apply (Ea (mk_pending_snapshot (block 12) [client 77]) 77); [|by vm_compute|by left].
    apply list_elem_of_In. vm_compute. by right; left.
Defined.

(** A client waits for block 12 behind the scheduled snapshot of block 10, which is
    forked out. *)
Definition libs : list (Z * chain_view * (digest -> bool)) :=
  [(15, view [10] 20, fun _ => false); (1000, view [10] 1010, fun _ => false)].

Lemma forked_snapshot_blocks_witness :
  let s' := foldl (fun s '(lib, c, rf) => fst (on_irreversible_block lib c rf s)) s4 libs in
  length (pending_snapshot_index s') = 2%nat /\ final_files s' = ∅.
Proof.
  assert (Forall (fun '(lib, c, _) => get_height (mk_pending_snapshot (block 10) [scheduled 1]) <= lib /\
    fetch_block_by_id c (block 10) = None) libs) as Hl.
  { apply Forall_cons. split; [by vm_compute|]. apply Forall_cons. split; [by vm_compute|]. by apply Forall_nil. }
  assert (first_min get_height (pending_snapshot_index s4) = Some (mk_pending_snapshot (block 10) [scheduled 1])) as Hp by (by vm_compute).
  destruct (forked_snapshot_blocks (mk_pending_snapshot (block 10) [scheduled 1]) 1 [] libs eq_refl Hl s4 Hp) as (Ep & Ef & _).
  cbv zeta. rewrite Ep, Ef. split; by vm_compute.
Defined.

Lemma restart_loses_request_witness : exists s',
  schedule_snapshot true (mk_request 0 40 50 "") (restart s2) = Ok (0, s') /\
  saved (snapshot_requests s') = [(0, onetime); (1, recurring)].
Proof.
  destruct (restart_loses_request s2 (mk_scheduled 0 onetime []) (mk_request 0 40 50 "") (scheduler_reach true s2 reach2)) as (s' & E & Er & _).
  - apply list_elem_of_In. vm_compute. by left.
  - done.
  - by vm_compute.
  - by vm_compute.
  - rewrite list_elem_of_In. vm_compute. by intros [?|[?|[]]].
  - exists s'. split; [exact E|]. rewrite Er. by vm_compute.
Defined.

End SchedulerExample.
