(* ===== verification/Controller.v ===== *)
(** * Applying blocks ([controller.cpp])

    How the controller follows the fork database: it applies a block on top of its head,
    switches to a better branch and comes back when a block of that branch fails, and
    writes what has become irreversible to the block log.  An exception keeps the changes
    made before it, so operations are functions from a controller to a controller and a
    result; [op] is their monad.

    chainbase is outside of the sources: its undo stack is the class [UndoDatabase].  What
    a block does to the database is the class [BlockExecutor], whose operations are the
    parts of [start_block], [push_transaction] and [finalize_block] that other files model;
    the activation of protocol features is that of [ProtocolFeatures]. *)

From S2P Require Import Prelude Exceptions Types ForkDatabase ProtocolFeatures.
Import builtin fork_database.

(** ** The database *)

(** The content, the revision and what successive undos restore *)
Class UndoDatabase (S D : Type) := {
  db_content : D -> S;
  db_revision : D -> Z;
  db_history : D -> list S;
  db_write : S -> D -> D;
  db_start : D -> D;                (* start_undo_session *)
  db_undo : D -> D;
  db_commit : Z -> D -> D }.

Class UndoLaws (S D : Type) `{UndoDatabase S D} : Prop := {
  write_content s d : db_content (db_write s d) = s;
  write_history s d : db_history (db_write s d) = db_history d;
  write_revision s d : db_revision (db_write s d) = db_revision d;
  start_content d : db_content (db_start d) = db_content d;
  start_history d : db_history (db_start d) = db_content d :: db_history d;
  start_revision d : db_revision (db_start d) = db_revision d + 1;
  undo_content d s l : db_history d = s :: l -> db_content (db_undo d) = s;
  undo_history d s l : db_history d = s :: l -> db_history (db_undo d) = l;
  undo_revision d s l : db_history d = s :: l -> db_revision (db_undo d) = db_revision d - 1;
  commit_content n d : db_content (db_commit n d) = db_content d;
  commit_history n d : db_history (db_commit n d) = take (Z.to_nat (db_revision d - n)) (db_history d);
  commit_revision n d : db_revision (db_commit n d) = db_revision d }.

(** ** Blocks *)

(** [controller::block_status] *)
Inductive block_status := irreversible | validated_before | complete | incomplete | ephemeral.
#[export] Instance block_status_eq_dec : EqDecision block_status.
Proof. solve_decision. Defined.

(** [transaction_receipt_header], [transaction_receipt] *)
Record receipt_header := mk_receipt_header { r_status : Z; r_cpu_usage_us : Z; r_net_usage_words : Z }.
#[export] Instance receipt_header_eq_dec : EqDecision receipt_header.
Proof. solve_decision. Defined.
Definition hard_fail : Z := 2.

Inductive receipt_trx := receipt_packed (trx : digest) | receipt_scheduled (trx : digest).
Record transaction_receipt := mk_receipt { r_header : receipt_header; r_trx : receipt_trx }.

Section controller.
Context {W : Type}.
Abbreviation pso := (@protocol_state_object W).

(** What a block does to the database, besides the activation of features: the rest of
    [start_block]; [push_transaction] and [push_scheduled_transaction], with the receipts
    they add and the exception of the trace; the [s_header] and [finalize_block], with the
    id of the assembled block.  The receipts of a block are part of it. *)
Class BlockExecutor := {
  activation_handler : builtin_protocol_feature_t -> W -> res W;
  block_receipts : digest -> list transaction_receipt;
  start_block_rest : block_status -> digest -> pso -> res pso;
  push_transaction : block_status -> digest -> Z -> pso -> res (pso * list receipt_header * option exn);
  push_scheduled_transaction : block_status -> digest -> Z -> pso -> res (pso * list receipt_header * option exn);
  finish_block : block_status -> digest -> pso -> res (pso * digest) }.
Context `{BlockExecutor}.

(** The loop of [apply_block] over the receipts of the block *)
Fixpoint apply_receipts (s : block_status) (pending_trx_receipts : list receipt_header)
    (receipts : list transaction_receipt) (db : pso) : res pso :=
  match receipts with
  | [] => Ok db
  | receipt :: receipts =>
    '(db, added, except) ←
      match r_trx receipt with
      | receipt_packed trx => push_transaction s trx (r_cpu_usage_us (r_header receipt)) db
      | receipt_scheduled trx => push_scheduled_transaction s trx (r_cpu_usage_us (r_header receipt)) db
      end;
    let trx_receipts := pending_trx_receipts ++ added in
    let transaction_can_fail := (r_status (r_header receipt) =? hard_fail)
      && match r_trx receipt with receipt_scheduled _ => true | receipt_packed _ => false end in
    _ ← match except with
        | Some e => if transaction_can_fail then Ok tt else Throw e
        | None => Ok tt
        end;
    _ ← sys_assert (0 <? length trx_receipts)%nat block_validate_exception;
    _ ← sys_assert (length trx_receipts =? length pending_trx_receipts + 1)%nat block_validate_exception;
    _ ← sys_assert (bool_decide (last trx_receipts = Some (r_header receipt))) block_validate_exception;
    apply_receipts s trx_receipts receipts db
  end.

Definition new_protocol_feature_activations (b : block_state) : list digest := default [] (new_protocol_features b).

(** [apply_block] from [start_block] to the check of the id, on the content of the database
    and the protocol feature manager; the first result is the manager that is left. *)
Definition run_block (s : block_status) (b : block_state) (head_num : Z) (x : pso * protocol_feature_manager)
  : res protocol_feature_manager * res pso :=
  let rest p := start_block_rest s (id b) p in
  match start_block_features activation_handler head_num x.2 x.1 (new_protocol_feature_activations b)
          (fun p => _ ← rest p; Ok tt) with
  | (Ok m, Ok p) =>
    match p ← rest p;
          p ← apply_receipts s [] (block_receipts (id b)) p;
          '(p, assembled) ← finish_block s (id b) p;
          _ ← sys_assert (bool_decide (id b = assembled)) block_validate_exception;
          Ok p
    with
    | Ok p => (Ok m, Ok p)
    | Throw e => (popped_blocks_to m head_num, Throw e)
    end
  | (m, Throw e) => (m, Throw e)
  | (Throw e, Ok _) => (Throw e, Throw e)
  end.

(** ** The controller *)

Context {D : Type} `{UndoDatabase pso D}.

Inductive signal :=
  | block_start (n : Z) | pre_accepted_block (i : digest) | accepted_block_header (i : digest)
  | accepted_block (i : digest) | irreversible_block (i : digest).

(** Configuration, the answers of the listeners, and the results of writing to the block
    log and to the optional log of block states; a block state loaded from a snapshot has
    no block. *)
Record controller_env := mk_controller_env {
  irreversible_mode : bool;
  terminate_at_block : Z;
  handlers : signal -> res unit;
  append_block : digest -> res unit;       (* blog.append *)
  append_state : digest -> res unit;       (* slog->append, when there is an slog *)
  has_block : digest -> bool;
  log_first_block_num : Z }.
Context (env : controller_env).

Record controller := mk_controller {
  c_fork : fork_db;
  c_head : ptr;
  c_db : D;
  c_features : protocol_feature_manager;
  c_log : list digest;         (* the blocks appended to the block log *)
  c_shutdown : bool }.

Definition set_fork (d : fork_db) (c : controller) := mk_controller d (c_head c) (c_db c) (c_features c) (c_log c) (c_shutdown c).
Definition set_chain_head (p : ptr) (c : controller) := mk_controller (c_fork c) p (c_db c) (c_features c) (c_log c) (c_shutdown c).
Definition set_database (d : D) (c : controller) := mk_controller (c_fork c) (c_head c) d (c_features c) (c_log c) (c_shutdown c).
Definition set_features (m : protocol_feature_manager) (c : controller) :=
  mk_controller (c_fork c) (c_head c) (c_db c) m (c_log c) (c_shutdown c).
Definition set_log (l : list digest) (c : controller) := mk_controller (c_fork c) (c_head c) (c_db c) (c_features c) l (c_shutdown c).
Definition set_shutdown (b : bool) (c : controller) := mk_controller (c_fork c) (c_head c) (c_db c) (c_features c) (c_log c) b.

Definition block_of (c : controller) (p : ptr) : block_state := deref (c_fork c) p.
Definition head_block (c : controller) : block_state := block_of c (c_head c).

(** Operations that keep their changes when they throw *)
Definition op (A : Type) : Type := controller -> controller * res A.
#[global] Instance op_ret : MRet op := fun A a c => (c, Ok a).
#[global] Instance op_bind : MBind op := fun A B f m c =>
  match m c with
  | (c, Ok a) => f a c
  | (c, Throw e) => (c, Throw e)
  end.
Definition get : op controller := fun c => (c, Ok c).
Definition modify (f : controller -> controller) : op unit := fun c => (f c, Ok tt).
Definition lift {A} (r : res A) : op A := fun c => (c, r).
Definition throw {A} (e : exn) : op A := lift (Throw e).
Definition assert_ (b : bool) (e : exn) : op unit := lift (sys_assert b e).
(** The exception of an operation, if it throws *)
Definition try_ (m : op unit) : op (option exn) := fun c =>
  match m c with
  | (c, Ok _) => (c, Ok None)
  | (c, Throw e) => (c, Ok (Some e))
  end.

(** [emit] passes on only the exceptions that are meant to stop the node; [throw e] copies
    the exception as one of the class that was caught. *)
Definition emit (sig : signal) : op unit :=
  lift match handlers env sig with
       | Ok _ => Ok tt
       | Throw e => if is_a e controller_emit_signal_exception
                    then Throw controller_emit_signal_exception else Ok tt
       end.

Definition pop_features (n : Z) : op unit :=
  c ← get; m ← lift (popped_blocks_to (c_features c) n); modify (set_features m).
Definition fork_remove (i : digest) : op unit := c ← get; d ← lift (remove_impl (c_fork c) i); modify (set_fork d).
Definition fork_mark_valid (p : ptr) : op unit := c ← get; d ← lift (mark_valid_impl (c_fork c) p); modify (set_fork d).
Definition fork_add (p : ptr) : op unit := c ← get; d ← lift (add (c_fork c) (Some p) false); modify (set_fork d).
Definition fork_advance_root (i : digest) : op unit := fun c =>
  let '(d, r) := advance_root_impl (c_fork c) i in (set_fork d c, r).

Definition pop_block : op unit :=
  c ← get;
  let head := head_block c in
  prev ← match get_block_impl (c_fork c) (previous head) with
         | Some prev => mret prev
         | None =>
           r ← lift (of_option undefined_behavior (root (c_fork c)));
           _ ← assert_ (bool_decide (id (block_of c r) = previous head)) block_validate_exception;
           mret r
         end;
  _ ← assert_ (has_block env (id head)) block_validate_exception;
  _ ← modify (set_chain_head prev);
  _ ← modify (fun c => set_database (db_undo (c_db c)) c);
  pop_features (block_num (block_of c prev)).

(** [commit_block] with what follows the signal of the accepted block; the session of the
    pending block is undone by [abort_block] when anything throws. *)
Definition commit_block_with (after : op unit) (p : ptr) (s : block_status) : op unit :=
  except ← try_ (
    _ ← (if bool_decide (s = incomplete) then
           _ ← fork_add p;
           _ ← fork_mark_valid p;
           c ← get;
           _ ← emit (accepted_block_header (id (block_of c p)));
           c ← get;
           assert_ (bool_decide (head (c_fork c) = Some p)) fork_database_exception
         else if bool_decide (s = irreversible) then mret tt
         else fork_mark_valid p);
    _ ← modify (set_chain_head p);
    c ← get;
    _ ← emit (accepted_block (id (block_of c p)));
    after);
  match except with
  | None => mret tt
  | Some e =>
    _ ← modify (fun c => set_database (db_undo (c_db c)) c);
    c ← get;
    _ ← pop_features (block_num (head_block c));
    throw e
  end.

(** [start_block] to [commit_block]: the session of the block is open, its content is
    written; the signal of the start, then the work, then the commit *)
Definition apply_with (after : op unit) (p : ptr) (s : block_status) : op unit :=
  c ← get;
  let b := block_of c p in
  let head_num := block_num (head_block c) in
  _ ← emit (block_start (u32 (head_num + 1)));
  if negb (db_revision (c_db c) =? head_num) then
    _ ← pop_features head_num; throw database_exception
  else
    let session := db_start (c_db c) in
    match run_block s b head_num (db_content (c_db c), c_features c) with
    | (Ok m, Ok content) =>
      _ ← modify (set_database (db_write content session));
      _ ← modify (set_features m);
      commit_block_with after p s
    | (m, Throw e) =>
      _ ← modify (set_database (db_undo session));
      m ← lift m;
      _ ← modify (set_features m);
      throw e
    | (Throw e, Ok _) => throw e
    end.

Definition apply_block (p : ptr) (s : block_status) : op unit := apply_with (mret tt) p s.

(** ** The block log *)

Definition log_head_id (c : controller) : option digest := last (c_log c).

Definition fork_db_head (c : controller) : res ptr :=
  h ← (if irreversible_mode env then pending_head (c_fork c) else Ok (head (c_fork c)));
  of_option undefined_behavior h.

(** The loop over the branch, oldest block first; [root_id] is the last block written. *)
Fixpoint log_loop (branch : list ptr) (root_id : digest) : op (digest * option exn) :=
  match branch with
  | [] => mret (root_id, None)
  | p :: branch =>
    except ← try_ (
      _ ← (if irreversible_mode env then apply_block p complete else mret tt);
      c ← get;
      let b := block_of c p in
      _ ← emit (irreversible_block (id b));
      _ ← lift (append_block env (id b));
      _ ← modify (fun c => set_log (c_log c ++ [id b]) c);
      _ ← lift (append_state env (id b));
      modify (fun c => set_database (db_commit (block_num b) (c_db c)) c));
    match except with
    | None => c ← get; log_loop branch (id (block_of c p))
    | Some e => mret (root_id, Some e)
    end
  end.

Definition log_irreversible : op unit :=
  c ← get;
  r ← lift (of_option fork_database_exception (root (c_fork c)));
  let lib_num := match log_head_id c with
                 | Some i => num_from_id i
                 | None => u32 (log_first_block_num env - 1)
                 end in
  _ ← match log_head_id c with
      | Some i => assert_ (bool_decide (id (block_of c r) = i)) fork_database_exception
      | None => assert_ (block_num (block_of c r) =? lib_num) fork_database_exception
      end;
  fork_head ← lift (fork_db_head c);
  let fork_head := block_of c fork_head in
  if dpos_irreversible_blocknum fork_head <=? lib_num then mret tt else
  branch ← lift (fetch_branch_impl (c_fork c) (id fork_head) (dpos_irreversible_blocknum fork_head));
  '(root_id, except) ← log_loop (rev branch) (id (block_of c r));
  _ ← (if bool_decide (root_id = id (block_of c r)) then mret tt else fork_advance_root root_id);
  match except with
  | None => mret tt
  | Some e => throw e
  end.

Definition commit_block (p : ptr) (s : block_status) : op unit :=
  commit_block_with (if bool_decide (s = incomplete) then log_irreversible else mret tt) p s.

(** A block that this node produces, with the transactions that came to be in it: it is
    started and built on top of the head, assembled, signed and committed.  Transactions
    that failed meanwhile left nothing, so they are not seen here. *)
Definition produce_block (p : ptr) : op unit := apply_with log_irreversible p incomplete.

(** ** Switching forks *)

Fixpoint pop_blocks (n : nat) : op unit :=
  match n with O => mret tt | S n => _ ← pop_block; pop_blocks n end.

Fixpoint reapply (blocks : list ptr) : op unit :=
  match blocks with
  | [] => mret tt
  | p :: blocks => _ ← apply_block p validated_before; reapply blocks
  end.

Definition check_head (second : list ptr) : op unit :=
  c ← get;
  b ← lift (of_option undefined_behavior (last second));
  assert_ (bool_decide (id (head_block c) = previous (block_of c b))) fork_database_exception.

(** The blocks of the new branch, oldest first; [applied] of them are applied already and
    [second] is the branch that was left. *)
Fixpoint apply_branch (first : list ptr) (applied : nat) (second : list ptr) : op unit :=
  match first with
  | [] => mret tt
  | p :: first =>
    c ← get;
    except ← try_ (apply_block p (if validated (block_of c p) then validated_before else complete));
    match except with
    | None => apply_branch first (S applied) second
    | Some e =>
      _ ← fork_remove (id (block_of c p));
      _ ← pop_blocks applied;
      _ ← check_head second;
      _ ← reapply (rev second);
      throw e
    end
  end.

Definition maybe_switch_forks (new_head : ptr) (s : block_status) : op unit :=
  c ← get;
  let b := block_of c new_head in
  let head := head_block c in
  if bool_decide (previous b = id head) then
    except ← try_ (apply_block new_head s);
    match except with
    | None => log_irreversible
    | Some e => _ ← fork_remove (id b); throw e
    end
  else if negb (bool_decide (id b = id head)) then
    '(first, second) ← lift (fetch_branch_from_impl (c_fork c) (id b) (id head));
    _ ← (if bool_decide (second = []) then mret tt else
           _ ← pop_blocks (length second); check_head second);
    _ ← apply_branch (rev first) 0 second;
    log_irreversible
  else mret tt.

Definition push_block (p : ptr) : op unit :=
  c ← get;
  if (0 <? terminate_at_block env) && (terminate_at_block env <=? block_num (head_block c)) then
    modify (set_shutdown true)
  else
    _ ← emit (pre_accepted_block (id (block_of c p)));
    _ ← fork_add p;
    _ ← emit (accepted_block_header (id (block_of c p)));
    if negb (irreversible_mode env) then
      c ← get;
      new_head ← lift (h ← pending_head (c_fork c); of_option undefined_behavior h);
      maybe_switch_forks new_head complete
    else log_irreversible.

(** The end of [init], when the read mode was irreversible before: the best branch of the
    fork database is applied. *)
Fixpoint apply_best_loop (fuel : nat) : op unit :=
  match fuel with
  | O => throw fuel_exhausted
  | S fuel =>
    c ← get;
    p ← lift (h ← pending_head (c_fork c); of_option undefined_behavior h);
    h ← lift (of_option undefined_behavior (head (c_fork c)));
    if bool_decide (id (block_of c p) = id (block_of c h)) then mret tt else
    _ ← maybe_switch_forks p complete; apply_best_loop fuel
  end.

Definition apply_best_branch (fuel : nat) : op unit :=
  c ← get;
  h ← lift (of_option undefined_behavior (head (c_fork c)));
  r ← lift (of_option undefined_behavior (root (c_fork c)));
  p ← lift (p ← pending_head (c_fork c); of_option undefined_behavior p);
  if negb (irreversible_mode env) && negb (bool_decide (id (block_of c p) = id (block_of c h)))
     && bool_decide (id (block_of c h) = id (block_of c r))
  then apply_best_loop fuel
  else mret tt.

End controller.
