(* ===== verification/ControllerProps.v ===== *)
(** * The state of the chain is the replay of its blocks

    Applying a block either leads to the state of that block or changes nothing; a fork
    switch that fails comes back to the head it left; what is irreversible is never undone
    and is what the block log holds.  This is for a node whose listeners do not ask it to
    stop and whose logs can be written ([quiet]); [ControllerFaults] has what happens to
    others. *)

From S2P Require Import Prelude Exceptions Types ForkDatabase ForkTree ForkBranch.
From S2P Require Import ProtocolFeatures ProtocolFeatureProps Controller.
Import builtin fork_database.

(** ** Running a block *)

Section run_block.
Context {W : Type} `{BE : BlockExecutor W}.
Abbreviation pso := (@protocol_state_object W).

(** What a transaction or block does is the same under light validation, when full
    validation accepts it. *)
Class ExecutorLaws : Prop := {
  start_agrees s i p p' : start_block_rest s i p = Ok p' -> start_block_rest validated_before i p = Ok p';
  push_agrees s t cpu p r : push_transaction s t cpu p = Ok r -> push_transaction validated_before t cpu p = Ok r;
  scheduled_agrees s t cpu p r :
    push_scheduled_transaction s t cpu p = Ok r -> push_scheduled_transaction validated_before t cpu p = Ok r;
  finish_agrees s i p r : finish_block s i p = Ok r -> finish_block validated_before i p = Ok r }.

(** A manager that is initialised and has no activation after block [n] *)
Definition features_upto (n : Z) (m : protocol_feature_manager) : Prop :=
  pfm_wf m /\ initialized m = true /\ Forall (fun a => a.2 <= n) (ProtocolFeatures.activated_protocol_features m).

(** Starting a block leaves the manager as it was when it fails, and popping the block
    takes it back when it succeeds. *)
Lemma start_features_cases trigger n m (p : pso) fs rest :
  features_upto n m -> 0 <= n -> n + 1 < not_active ->
  (exists m' p', start_block_features trigger n m p fs rest = (Ok m', Ok p') /\ rest p' = Ok tt /\
     features_upto (n + 1) m' /\ popped_blocks_to m' n = Ok m) \/
  (exists e, start_block_features trigger n m p fs rest = (Ok m, Throw e)).
Proof.
  intros (Wf & Hi & Hle) H0 Hn. unfold start_block_features.
  rewrite u32_small by (unfold not_active, u32_max in *; lia). set (a0 := mk_activation _ _ _ _).
  destruct (activate_all trigger (n + 1) a0 fs) as [m1 r] eqn:E.
  destruct (activate_all_inv _ _ _ _ _ _ E Wf ltac:(lia) Hi) as (W1 & I1 & S1 & k & Hk & _).
  assert (popped_blocks_to m1 n = Ok m) as Hback.
  { apply (popped_restores m m1 n (n + 1) k); try done. lia. }
  destruct (_ ≫= _) as [p'|e] eqn:Er; [left|right; exists e; by rewrite Hback].
  exists m1, p'. split; [done|]. apply bind_Ok in Er as (a & _ & Er). apply bind_Ok in Er as ([] & _ & Er).
  apply bind_Ok in Er as ([] & Er & [= <-]). split_and!; [done| |done]. split_and!; [done..|].
  rewrite Hk. apply Forall_app. split; [eapply Forall_impl; [exact Hle|cbn; lia]|].
  apply Forall_fmap, Forall_true. intros d. cbn. lia.
Qed.

(** Whatever follows, the same features are activated. *)
Lemma start_features_rest trigger n m (p : pso) fs rest rest' m' p' :
  start_block_features trigger n m p fs rest = (m', Ok p') -> rest' p' = Ok tt ->
  start_block_features trigger n m p fs rest' = (m', Ok p').
Proof.
  unfold start_block_features. destruct (activate_all _ _ _ _) as [m1 r].
  destruct (_ ≫= _) as [p1|e] eqn:E; [|done]. intros [= <- <-] Hr.
  apply bind_Ok in E as (a & -> & E). apply bind_Ok in E as ([] & Ea & E).
  apply bind_Ok in E as ([] & _ & [= E]). cbn [mbind result_bind]. rewrite Ea. cbn [mbind result_bind].
  rewrite E, Hr. done.
Qed.

Lemma run_block_cases s b n x :
  features_upto n x.2 -> 0 <= n -> n + 1 < not_active ->
  (exists p m, run_block s b n x = (Ok m, Ok p) /\ features_upto (n + 1) m /\ popped_blocks_to m n = Ok x.2) \/
  (exists e, run_block s b n x = (Ok x.2, Throw e)).
Proof.
  intros Hf H0 Hn. unfold run_block.
  destruct (start_features_cases activation_handler n x.2 x.1 (new_protocol_feature_activations b)
    (fun p => _ ← start_block_rest s (id b) p; Ok tt) Hf H0 Hn) as [(m & p & -> & _ & Hm & Hpop)|(e & ->)].
  - destruct (_ ≫= _) as [p'|e]; [left; eauto|right; exists e]. by rewrite Hpop.
  - right. by exists e.
Qed.

Context `{EL : !ExecutorLaws}.

Lemma apply_receipts_agrees s rs receipts p p' :
  apply_receipts s rs receipts p = Ok p' -> apply_receipts validated_before rs receipts p = Ok p'.
Proof.
  revert rs p. induction receipts as [|[h t] receipts IH]; intros rs p; [done|]. cbn [apply_receipts r_trx r_header].
  intros ([[p1 added] ex] & Hp & H)%bind_Ok.
  assert (match t with
          | receipt_packed trx => push_transaction validated_before trx (r_cpu_usage_us h) p
          | receipt_scheduled trx => push_scheduled_transaction validated_before trx (r_cpu_usage_us h) p
          end = Ok (p1, added, ex)) as ->.
  { destruct t; eauto using push_agrees, scheduled_agrees. }
  cbn [mbind result_bind].
  apply bind_Ok in H as ([] & -> & H). apply bind_Ok in H as ([] & H1 & H).
  apply bind_Ok in H as ([] & H2 & H). apply bind_Ok in H as ([] & H3 & H). cbn [mbind result_bind].
  rewrite H1. cbn [mbind result_bind]. rewrite H2. cbn [mbind result_bind]. rewrite H3. cbn [mbind result_bind]. auto.
Qed.

(** A block that was applied once is applied with the same result as a validated one. *)
Lemma run_block_validated s b n x m p :
  run_block s b n x = (Ok m, Ok p) -> run_block validated_before b n x = (Ok m, Ok p).
Proof.
  unfold run_block.
  destruct (start_block_features _ _ _ _ _ _) as [[m1|e1] [p1|e]] eqn:E; try done.
  destruct (_ ≫= _) as [p2|e] eqn:Er; [|done]. intros [= <- <-].
  apply bind_Ok in Er as (q1 & Hs%start_agrees & Er). apply bind_Ok in Er as (q2 & Hr%apply_receipts_agrees & Er).
  apply bind_Ok in Er as ([q3 a] & Hf%finish_agrees & Er).
  rewrite (start_features_rest _ _ _ _ _ _ _ _ _ E) by (by rewrite Hs).
  rewrite Hs. cbn [mbind result_bind]. rewrite Hr. cbn [mbind result_bind]. rewrite Hf. cbn [mbind result_bind].
  by rewrite Er.
Qed.
End run_block.

Lemma run_block_shape {W} `{BE : BlockExecutor W} s b b' n x :
  same_shape b b' -> run_block s b n x = run_block s b' n x.
Proof.
  unfold same_shape, set_validated, run_block, new_protocol_feature_activations. intros H.
  injection H as -> _ _ _ _ _ ->. done.
Qed.

(** ** The tree of blocks *)

(** The root or a block of the index *)
Definition node (d : fork_db) (r p : ptr) : Prop := p = r \/ p ∈ index d.

Lemma node_inj d r p q : tree_wf d r -> node d r p -> node d r q -> id (deref d p) = id (deref d q) -> p = q.
Proof.
  intros Ht [->|Hp] [->|Hq] E; [done|..|by apply (forest_inj d); [apply Ht|..]].
  - by destruct (root_not_in_ids d r q Ht Hq).
  - by destruct (root_not_in_ids d r p Ht Hp).
Qed.

Lemma node_num d r p : tree_wf d r -> node d r p -> num_from_id (id (deref d p)) = block_num (deref d p).
Proof. intros Ht. by apply bid_num. Qed.

Lemma parent_node d r p : tree_wf d r -> p ∈ index d ->
  exists q, node d r q /\ previous (deref d p) = id (deref d q) /\ block_num (deref d p) = block_num (deref d q) + 1.
Proof.
  intros Ht Hp. destruct (tw_linked _ _ Ht p Hp) as (q & Hq & E). exists q. split_and!; [done..|].
  rewrite <- (node_num d r q Ht Hq), <- E. by apply (tw_forest _ _ Ht).
Qed.

Lemma mark_valid_cases d r h p :
  fdb_wf d r h -> p ∈ index d ->
  exists d' h', mark_valid_impl d p = Ok d' /\ fdb_wf d' r h' /\ index d' = index d /\
    (forall q, same_shape (deref d' q) (deref d q)) /\
    (forall q, validated (deref d' q) = true <-> validated (deref d q) = true \/ q = p) /\
    (validated (deref d p) = true -> d' = d) /\ (h' = h \/ h' = p).
Proof.
  intros Wf Hp. pose proof (tw_forest _ _ (wf_tree _ _ _ Wf)) as Hf.
  destruct (validated (deref d p)) eqn:Hv.
  { exists d, h. unfold mark_valid_impl. rewrite Hv. split_and!; try done; [|by left]. intros q. split; [by left|].
    by intros [?| ->]. }
  assert (exists d', mark_valid_impl d p = Ok d' /\
    (d' = modify_validated true p d \/ exists c, d' = set_head (modify_validated true p d) (Some c) /\ c ∈ index d /\
       first_preferred (deref (modify_validated true p d) c) (deref (modify_validated true p d) h) = true)) as (d' & E & Hd').
  { unfold mark_valid_impl. rewrite Hv, find_id_in by done. cbn [of_option mbind result_bind].
    destruct (by_lib_block_num _) as [|c l] eqn:Hb.
    { apply by_lib_nil in Hb. cbn in Hb. rewrite Hb in Hp. by apply elem_of_nil in Hp. }
    change (head (modify_validated true p d)) with (head d). rewrite (wf_head _ _ _ Wf). cbn [of_option mbind result_bind].
    assert (c ∈ index d) as Hci.
    { change (c ∈ index (modify_validated true p d)). rewrite <- (merge_sort_Permutation (lib_le (modify_validated true p d))).
      unfold by_lib_block_num in Hb. rewrite Hb. by left. }
    eexists. split; [done|]. destruct (first_preferred _ _) eqn:Hc; eauto. }
  destruct (mark_valid_wf _ _ _ _ _ Wf E) as [h' Wf'].
  assert (forall q, deref d' q = deref (modify_validated true p d) q) as Hde by (by destruct Hd' as [->|(c & -> & _)]).
  assert (forall q, validated (deref d' q) = true <-> validated (deref d q) = true \/ q = p) as Hval.
  { intros q. rewrite Hde, deref_modify. destruct (decide (q = p)) as [->|]; cbn; [tauto|]. naive_solver. }
  exists d', h'. split_and!; [done|done|by destruct Hd' as [->|(c & -> & _)]|..|done|done|].
  - intros q. rewrite Hde. apply modify_shape.
  - destruct Hd' as [->|(c & -> & Hci & Hc)]; [left; by apply (inj Some); rewrite <- (wf_head _ _ _ Wf'), <- (wf_head _ _ _ Wf)|].
    right. assert (h' = c) as -> by (apply (inj Some); by rewrite <- (wf_head _ _ _ Wf')).
    rewrite (first_preferred_shape _ _ _ _ (modify_shape _ _ _ _) (modify_shape _ _ _ _)) in Hc.
    destruct (Hval c) as [[Hcv|]%(fun H => H (wf_head_valid _ _ _ Wf')) _]; [|done].
    by rewrite (wf_best _ _ _ Wf c Hci Hcv) in Hc.
Qed.

Lemma elem_of_rev_list {A} (x : A) (l : list A) : x ∈ rev l <-> x ∈ l.
Proof. rewrite !list_elem_of_In. symmetry. apply in_rev. Qed.

(** The blocks [ps] follow each other on top of [i]. *)
Fixpoint path (d : fork_db) (i : digest) (ps : list ptr) : Prop :=
  match ps with
  | [] => True
  | p :: ps => p ∈ index d /\ previous (deref d p) = i /\ path d (id (deref d p)) ps
  end.

(** The id at the end of the path *)
Definition top (d : fork_db) (i : digest) (ps : list ptr) : digest :=
  match last ps with Some p => id (deref d p) | None => i end.

Lemma path_snoc d i ps p :
  path d i ps -> p ∈ index d -> previous (deref d p) = top d i ps -> path d i (ps ++ [p]).
Proof.
  revert i. induction ps as [|q ps IH]; intros i; cbn [path app]; [done|].
  intros (Hq & E & Hps) Hp Et. split_and!; [done..|]. apply IH; [done..|]. rewrite Et. unfold top.
  rewrite last_cons. by destruct (last ps).
Qed.

Lemma top_snoc d i ps p : top d i (ps ++ [p]) = id (deref d p).
Proof. unfold top. by rewrite last_snoc. Qed.

Lemma top_cons d i p ps : top d i (p :: ps) = top d (id (deref d p)) ps.
Proof. unfold top. rewrite last_cons. by destruct (last ps). Qed.

Lemma chain_path d a i l : chain d a i l -> path d a (rev l) /\ top d a (rev l) = i.
Proof.
  induction 1 as [|p l Hp Hc [IH1 IH2]]; [done|]. cbn [rev]. split; [by apply path_snoc|by rewrite top_snoc].
Qed.

Lemma path_chain d a ps : path d a ps -> chain d a (top d a ps) (rev ps).
Proof.
  revert a. induction ps as [|p ps IH]; intros a; cbn [path rev]; [constructor|].
  intros (Hp & <- & H%IH). rewrite top_cons. eapply chain_app; [exact H|]. constructor; [done|constructor].
Qed.

Lemma path_in d i ps p : path d i ps -> p ∈ ps -> p ∈ index d.
Proof.
  revert i. induction ps as [|q ps IH]; intros i; [by intros _ ?%elem_of_nil|]. cbn [path].
  intros (Hq & _ & H) [->|Hp]%elem_of_cons; eauto.
Qed.

Lemma path_ext d d' i ps :
  (forall p, p ∈ ps -> p ∈ index d -> p ∈ index d' /\ id (deref d' p) = id (deref d p) /\
     previous (deref d' p) = previous (deref d p)) -> path d i ps -> path d' i ps.
Proof.
  revert i. induction ps as [|p ps IH]; intros i H; cbn [path]; [done|]. intros (Hp & E & Hps).
  destruct (H p) as (? & Ei & Ep); [by left|done|]. split_and!; [done|congruence|]. rewrite Ei.
  apply IH; [|done]. intros q Hq. apply H. by right.
Qed.

Lemma chain_ext d d' i j l :
  (forall p, p ∈ l -> p ∈ index d' /\ id (deref d' p) = id (deref d p) /\ previous (deref d' p) = previous (deref d p)) ->
  chain d i j l -> chain d' i j l.
Proof.
  intros H Hc. induction Hc as [|p l Hp Hc IH]; [constructor|]. destruct (H p) as (? & Ei & Ep); [by left|].
  rewrite <- Ei. constructor; [done|]. rewrite Ep. apply IH. intros q Hq. apply H. by right.
Qed.

Lemma chain_split d a i l1 p l2 : chain d a i (l1 ++ p :: l2) -> chain d (id (deref d p)) i l1.
Proof.
  revert i. induction l1 as [|q l1 IH]; intros i Hc; inversion Hc as [|? ? Hq Hc']; subst; [constructor|].
  constructor; auto.
Qed.

Lemma chain_length d a i l : forest_wf d -> chain d a i l -> num_from_id i = num_from_id a + Z.of_nat (length l).
Proof.
  intros Hf. induction 1 as [|p l Hp _ IH]; cbn [length]; [lia|]. destruct (fw_header _ Hf p Hp) as [-> ->]. lia.
Qed.

(** The blocks up to a height are the older part of the branch. *)
Lemma chain_filter d a i l n :
  forest_wf d -> chain d a i l -> exists j, chain d a j (List.filter (fun q => block_num (deref d q) <=? n) l).
Proof.
  intros Hf. induction 1 as [|p l Hp Hc IH]; [exists a; constructor|]. cbn [List.filter].
  destruct (block_num (deref d p) <=? n) eqn:E; [|done]. apply Z.leb_le in E. exists (id (deref d p)).
  replace (List.filter _ l) with l; [by constructor|]. symmetry. apply List.forallb_filter_id, forallb_forall.
  intros q Hq%list_elem_of_In. pose proof (chain_num _ _ _ _ _ Hf Hc Hq). destruct (fw_header _ Hf p Hp). lia.
Qed.

Lemma previous_ne d r p x :
  tree_wf d r -> p ∈ index d -> x ∈ index d -> block_num (deref d x) <= block_num (deref d p) ->
  previous (deref d x) <> id (deref d p).
Proof.
  intros Ht Hp Hx Hn E. destruct (fw_header _ (tw_forest _ _ Ht) x Hx) as [_ H1].
  destruct (fw_header _ (tw_forest _ _ Ht) p Hp) as [H2 _]. rewrite E in H1. lia.
Qed.

Lemma path_desc d i ps p : path d i ps -> p ∈ ps -> desc d (id (deref d p)) (top d i ps).
Proof.
  revert i. induction ps as [|q ps IH]; intros i; [by intros _ ?%elem_of_nil|]. cbn [path]. rewrite top_cons.
  intros (Hq & E & H) [->|Hp]%elem_of_cons; [|by eauto].
  apply (chain_desc _ _ _ _ (path_chain _ _ _ H)).
Qed.

Lemma path_above d i ps p : path d i ps -> p ∈ ps -> desc d i (id (deref d p)).
Proof.
  revert i. induction ps as [|q ps IH]; intros i; [by intros _ ?%elem_of_nil|]. cbn [path].
  intros (Hq & <- & H) [->|Hp]%elem_of_cons; [constructor; [done|constructor]|].
  eapply desc_trans; [|by eapply IH]. constructor; [done|constructor].
Qed.

(** The irreversible block number does not decrease along a branch.  The code does not
    enforce this of headers; what follows needs it in irreversible mode only. *)
Definition lib_grows (d : fork_db) (r : ptr) : Prop :=
  forall p q, p ∈ index d -> node d r q -> previous (deref d p) = id (deref d q) ->
    dpos_irreversible_blocknum (deref d q) <= dpos_irreversible_blocknum (deref d p).

Lemma lib_grows_sub d d' r r' :
  lib_grows d r -> node d r r' -> (forall p, p ∈ index d' -> p ∈ index d) ->
  (forall p, node d r p -> same_shape (deref d' p) (deref d p)) -> lib_grows d' r'.
Proof.
  intros G Hr Hsub Hs p q Hp%Hsub Hq.
  assert (node d r q) as Hq' by (destruct Hq as [->|Hq%Hsub]; [done|by right]).
  destruct (same_shape_fields _ _ (Hs p (or_intror Hp))) as (_ & _ & -> & ->).
  destruct (same_shape_fields _ _ (Hs q Hq')) as (-> & _ & _ & ->). by apply G.
Qed.

Lemma lib_below d r p q :
  tree_wf d r -> lib_grows d r -> node d r p -> node d r q -> desc d (id (deref d p)) (id (deref d q)) ->
  p = q \/ first_preferred (deref d q) (deref d p) = true.
Proof.
  intros Ht T Hp Hq Hd.
  cut (p = q \/ (dpos_irreversible_blocknum (deref d p) <= dpos_irreversible_blocknum (deref d q) /\
               block_num (deref d p) < block_num (deref d q))).
  { intros [|[H1 H2]]; [by left|right]. unfold first_preferred, tie_less. 
    destruct (Z.lt_trichotomy (dpos_irreversible_blocknum (deref d p)) (dpos_irreversible_blocknum (deref d q)))
      as [H|[H|H]]; [|rewrite H, Z.eqb_refl|lia]; apply orb_true_iff; [left|right; cbn]; lia. }
  remember (id (deref d q)) as i eqn:Ei. revert q Hq Ei. induction Hd as [|x Hx _ IH]; intros q Hq Ei.
  - left. by apply (node_inj d r).
  - assert (x = q) as -> by (apply (node_inj d r); [done|by right|done..]). right.
    destruct (parent_node d r q Ht Hx) as (y & Hy & E & En). pose proof (T q y Hx Hy E).
    destruct (IH y Hy E) as [->|[]]; lia.
Qed.

(** ** Blocks and the states they lead to *)

Section tree_inv.
Context {W : Type} `{BE : BlockExecutor W}.
Abbreviation state := (@protocol_state_object W * protocol_feature_manager)%type.

(** [y] is the state of block [b] applied on [x], the state of block number [n]. *)
Definition leads (b : block_state) (n : Z) (x y : state) : Prop :=
  run_block validated_before b n x = (Ok y.2, Ok y.1).

Lemma leads_fun b n x y z : leads b n x y -> leads b n x z -> y = z.
Proof. unfold leads. destruct y, z. cbn. congruence. Qed.

Lemma leads_shape b b' n x y : same_shape b b' -> leads b n x y <-> leads b' n x y.
Proof. intros H. unfold leads. by rewrite (run_block_shape _ _ _ _ _ H). Qed.

(** [f] gives the state of every validated block: the one its parent's leads to. *)
Record tree_inv (d : fork_db) (r : ptr) (f : digest -> state) : Prop := {
  t_runs : forall p, p ∈ index d -> validated (deref d p) = true ->
    exists q, node d r q /\ validated (deref d q) = true /\ previous (deref d p) = id (deref d q) /\
      leads (deref d p) (block_num (deref d q)) (f (id (deref d q))) (f (id (deref d p)));
  t_good : forall p, node d r p -> validated (deref d p) = true ->
    features_upto (block_num (deref d p)) (f (id (deref d p))).2;
  t_num : 0 <= block_num (deref d r);
  t_root : num_from_id (previous (deref d r)) < block_num (deref d r);
  t_small : forall p, p ∈ index d -> block_num (deref d p) < not_active }.

(** The parent of a validated block, whichever way it is given *)
Lemma t_parent d r f p q :
  tree_wf d r -> tree_inv d r f -> p ∈ index d -> validated (deref d p) = true -> node d r q ->
  previous (deref d p) = id (deref d q) ->
  validated (deref d q) = true /\ leads (deref d p) (block_num (deref d q)) (f (id (deref d q))) (f (id (deref d p))).
Proof.
  intros Ht T Hp Hv Hq E. destruct (t_runs _ _ _ T p Hp Hv) as (q' & Hq' & Hv' & E' & L).
  replace q with q'; [done|]. apply (node_inj d r); [done..|congruence].
Qed.

(** What a validated block descends from is validated. *)
Lemma validated_below d r f p q :
  tree_wf d r -> tree_inv d r f -> p ∈ index d -> node d r q -> validated (deref d q) = true ->
  desc d (id (deref d p)) (id (deref d q)) -> validated (deref d p) = true.
Proof.
  intros Ht T Hp Hq Hv Hd. remember (id (deref d q)) as i eqn:Ei. revert q Hq Hv Ei.
  induction Hd as [|x Hx _ IH]; intros q Hq Hv Ei.
  - replace p with q; [done|]. symmetry. apply (node_inj d r); [done|by right|done|done].
  - assert (x = q) as -> by (apply (node_inj d r); [done|by right|done..]).
    destruct (t_runs _ _ _ T q Hx Hv) as (q' & Hq' & Hv' & E & _). by apply (IH q').
Qed.

Lemma same_tree_inv d d' r f :
  tree_inv d r f -> index d' = index d ->
  (forall p, node d r p -> deref d' p = deref d p) -> tree_inv d' r f.
Proof.
  intros T Ei Hd. assert (forall p, node d' r p <-> node d r p) as Hn by (intros p; unfold node; by rewrite Ei).
  assert (forall p, p ∈ index d' -> p ∈ index d /\ deref d' p = deref d p) as Hin.
  { intros p. rewrite Ei. intros Hp. split; [done|]. apply Hd. by right. }
  split.
  - intros p [Hp ->]%Hin Hv. destruct (t_runs _ _ _ T p Hp Hv) as (q & Hq & ?). exists q.
    rewrite Hn, (Hd q Hq). done.
  - intros p Hp%Hn. rewrite (Hd p Hp). by apply T.
  - rewrite Hd by (by left). apply T.
  - rewrite Hd by (by left). apply T.
  - intros p [Hp ->]%Hin. by apply T.
Qed.

(** Fewer blocks, with the parents of those that stay *)
Lemma sub_tree_inv d d' r r' f :
  tree_inv d r f -> tree_wf d r -> node d r r' ->
  (forall p, p ∈ index d' -> p ∈ index d) -> (forall p, deref d' p = deref d p) ->
  (forall p q, p ∈ index d' -> node d r q -> previous (deref d p) = id (deref d q) -> node d' r' q) ->
  tree_inv d' r' f.
Proof.
  intros T Ht Hr' Hsub Hd Hc.
  assert (forall p, node d' r' p -> node d r p) as Hn by (intros p [->|Hp]; [done|right; auto]).
  split.
  - intros p Hp. rewrite Hd. intros Hv. destruct (t_runs _ _ _ T p (Hsub p Hp) Hv) as (q & Hq & Hqv & E & L).
    exists q. rewrite Hd. split_and!; eauto.
  - intros p Hp. rewrite Hd. apply T. auto.
  - rewrite Hd. pose proof (above_root d r Ht r' Hr'). pose proof (t_num _ _ _ T). lia.
  - rewrite Hd. destruct Hr' as [->|Hr']; [apply T|]. destruct (fw_header _ (tw_forest _ _ Ht) r' Hr'). lia.
  - intros p Hp. rewrite Hd. apply T. auto.
Qed.

Definition upd (f : digest -> state) (i : digest) (y : state) : digest -> state :=
  fun j => if decide (j = i) then y else f j.

Lemma upd_eq f i y : upd f i y i = y.
Proof. unfold upd. by rewrite decide_True. Qed.
Lemma upd_ne f i j y : j <> i -> upd f i y j = f j.
Proof. intros. unfold upd. by rewrite decide_False. Qed.

Lemma upd_same_inv d r f i : tree_inv d r f -> tree_inv d r (upd f i (f i)).
Proof.
  intros T. assert (forall j, upd f i (f i) j = f j) as E by (intros j; unfold upd; by destruct (decide _) as [->|]).
  split; [| |apply T..].
  - intros p Hp Hv. destruct (t_runs _ _ _ T p Hp Hv) as (q & ?). exists q. by rewrite !E.
  - intros p. rewrite E. apply T.
Qed.

(** A block that was applied is marked. *)
Lemma mark_tree_inv d d' r f p q y :
  tree_wf d r -> tree_inv d r f -> p ∈ index d -> validated (deref d p) = false ->
  node d r q -> validated (deref d q) = true -> previous (deref d p) = id (deref d q) ->
  leads (deref d p) (block_num (deref d q)) (f (id (deref d q))) y -> features_upto (block_num (deref d p)) y.2 ->
  index d' = index d -> (forall x, same_shape (deref d' x) (deref d x)) ->
  (forall x, validated (deref d' x) = true <-> validated (deref d x) = true \/ x = p) ->
  tree_inv d' r (upd f (id (deref d p)) y).
Proof.
  intros Ht T Hp Hpv Hq Hqv E L G Ei Hs Hv.
  assert (forall x, node d' r x <-> node d r x) as Hn by (intros x; unfold node; by rewrite Ei).
  assert (forall x, node d r x -> x <> p -> upd f (id (deref d p)) y (id (deref d x)) = f (id (deref d x))) as Hf.
  { intros x Hx Hne. apply upd_ne. intros Ex. apply Hne. apply (node_inj d r); [done|done|by right|done]. }
  assert (q <> p) as Hqp by congruence.
  split.
  - intros x. rewrite Ei, Hv. intros Hx Hxv. destruct (same_shape_fields _ _ (Hs x)) as (-> & _ & -> & _).
    destruct (decide (x = p)) as [->|Hne].
    + exists q. destruct (same_shape_fields _ _ (Hs q)) as (-> & -> & _).
      rewrite (leads_shape _ _ _ _ _ (Hs p)), Hn, Hv, upd_eq, Hf by done. auto.
    + destruct Hxv as [Hxv|]; [|done]. destruct (t_runs _ _ _ T x Hx Hxv) as (z & Hz & Hzv & Ez & Lz). exists z.
      destruct (same_shape_fields _ _ (Hs z)) as (-> & -> & _).
      rewrite (leads_shape _ _ _ _ _ (Hs x)), Hn, Hv, (Hf x), (Hf z) by (done || by right || congruence). auto.
  - intros x Hx%Hn. rewrite Hv. intros Hxv. destruct (same_shape_fields _ _ (Hs x)) as (-> & -> & _).
    destruct (decide (x = p)) as [->|Hne]; [by rewrite upd_eq|]. rewrite Hf by done. apply T; [done|]. by destruct Hxv.
  - destruct (same_shape_fields _ _ (Hs r)) as (_ & -> & _). apply T.
  - destruct (same_shape_fields _ _ (Hs r)) as (_ & -> & -> & _). apply T.
  - intros x. rewrite Ei. destruct (same_shape_fields _ _ (Hs x)) as (_ & -> & _). apply T.
Qed.
End tree_inv.

(** ** The controller *)

Section controller_inv.
Context {W : Type} `{BE : BlockExecutor W} `{EL : !ExecutorLaws}.
Context {D : Type} `{UD : UndoDatabase (@protocol_state_object W) D} `{UL : !UndoLaws _ D}.
Context (env : controller_env).
Abbreviation state := (@protocol_state_object W * protocol_feature_manager)%type.
Abbreviation controller := (@controller D).
Abbreviation op := (@op D).

(** No listener asks for the node to stop, the logs can be written, and every block of the
    fork database has its body. *)
Record quiet : Prop := {
  q_emit : forall sig e, handlers env sig = Throw e -> is_a e controller_emit_signal_exception = false;
  q_append : forall i, append_block env i = Ok tt;
  q_state : forall i, append_state env i = Ok tt;
  q_body : forall i, has_block env i = true }.

Record inv (c : controller) (r h : ptr) (f : digest -> state) (base : Z) : Prop := {
  i_wf : fdb_wf (c_fork c) r h;
  i_tree : tree_inv (c_fork c) r f;
  i_head : node (c_fork c) r (c_head c);
  i_valid : validated (head_block c) = true;
  i_content : db_content (c_db c) = (f (id (head_block c))).1;
  i_features : c_features c = (f (id (head_block c))).2;
  i_revision : db_revision (c_db c) = block_num (head_block c);
  i_base : block_num (block_of c r) <= base <= block_num (head_block c);
  i_history : exists l, chain (c_fork c) (id (block_of c r)) (id (head_block c)) l /\
    db_history (c_db c) = take (Z.to_nat (block_num (head_block c) - base))
                            ((fun p => (f (previous (block_of c p))).1) <$> l) }.

(** The parts of the controller that a failed operation gives back *)
Record same_chain (c c' : controller) : Prop := {
  s_fork : c_fork c' = c_fork c;
  s_head : c_head c' = c_head c;
  s_features : c_features c' = c_features c;
  s_log : c_log c' = c_log c;
  s_content : db_content (c_db c') = db_content (c_db c);
  s_history : db_history (c_db c') = db_history (c_db c);
  s_revision : db_revision (c_db c') = db_revision (c_db c) }.

Lemma same_chain_inv c c' r h f base : same_chain c c' -> inv c r h f base -> inv c' r h f base.
Proof.
  intros [E1 E2 E3 _ E5 E6 E7] [I1 I2 I3 I4 I5 I6 I7 I8 I9]. unfold head_block, block_of in *.
  split; unfold head_block, block_of; rewrite ?E1, ?E2, ?E3, ?E5, ?E6, ?E7; done.
Qed.

Lemma op_bind_Ok {A B} (m : op A) (k : A -> op B) c c' a : m c = (c', Ok a) -> (m ≫= k) c = k a c'.
Proof. intros E. unfold mbind, op_bind. by rewrite E. Qed.
Lemma op_bind_Throw {A B} (m : op A) (k : A -> op B) c c' e : m c = (c', Throw e) -> (m ≫= k) c = (c', Throw e).
Proof. intros E. unfold mbind, op_bind. by rewrite E. Qed.
Lemma op_bind_get {B} (k : controller -> op B) c : (get ≫= k) c = k c c.
Proof. done. Qed.
Lemma op_bind_modify {B} g (k : unit -> op B) c : (modify g ≫= k) c = k tt (g c).
Proof. done. Qed.
Lemma op_bind_lift {A B} (x : A) (k : A -> op B) c : (lift (Ok x) ≫= k) c = k x c.
Proof. done. Qed.
Lemma try_Ok m (k : option exn -> op unit) (c c' : controller) u : m c = (c', Ok u) -> (try_ m ≫= k) c = k None c'.
Proof. intros E. unfold mbind, op_bind, try_. by rewrite E. Qed.
Lemma try_Throw m (k : option exn -> op unit) (c c' : controller) e :
  m c = (c', Throw e) -> (try_ m ≫= k) c = k (Some e) c'.
Proof. intros E. unfold mbind, op_bind, try_. by rewrite E. Qed.

Context (Q : quiet).

Lemma emit_quiet sig (c : controller) : emit env sig c = (c, Ok tt).
Proof.
  unfold emit, lift. destruct (handlers env sig) as [[]|e] eqn:E; [done|]. by rewrite (q_emit Q _ _ E).
Qed.

Lemma emit_step {B} sig (k : unit -> op B) (c : controller) : (emit env sig ≫= k) c = k tt c.
Proof. apply op_bind_Ok, emit_quiet. Qed.

(** The block on which [p] is applied is the head. *)
Lemma head_parent c r h f base p :
  inv c r h f base -> p ∈ index (c_fork c) -> previous (block_of c p) = id (head_block c) ->
  block_num (block_of c p) = block_num (head_block c) + 1 /\ 0 <= block_num (head_block c) /\
  features_upto (block_num (head_block c)) (f (id (head_block c))).2.
Proof.
  intros I Hp E. pose proof (wf_tree _ _ _ (i_wf _ _ _ _ _ I)) as Ht.
  destruct (parent_node _ _ _ Ht Hp) as (q & Hq & Eq & En).
  assert (q = c_head c) as -> by (apply (node_inj _ _ _ _ Ht Hq (i_head _ _ _ _ _ I)); unfold head_block, block_of in *; congruence).
  split_and!; [done|..].
  - pose proof (above_root _ _ Ht _ Hq). pose proof (t_num _ _ _ (i_tree _ _ _ _ _ I)). unfold head_block, block_of in *. lia.
  - apply (i_tree _ _ _ _ _ I); [done|]. apply I.
Qed.

(** The commit of a block that was run *)
Lemma commit_spec c p s d' :
  s = complete \/ s = validated_before -> mark_valid_impl (c_fork c) p = Ok d' ->
  commit_block_with env (mret tt) p s c = (set_chain_head p (set_fork d' c), Ok tt).
Proof.
  intros Hs E. unfold commit_block_with. erewrite try_Ok; [done|].
  assert (bool_decide (s = incomplete) = false /\ bool_decide (s = irreversible) = false) as [-> ->]
    by (by destruct Hs as [-> | ->]).
  erewrite op_bind_Ok; cycle 1.
  { unfold fork_mark_valid. rewrite op_bind_get, E. done. }
  rewrite op_bind_modify, op_bind_get, emit_step. done.
Qed.

(** The state after a block: what the run gives, and the history grows by one. *)
Lemma applied_inv c r h f base p y d' h' :
  inv c r h f base -> p ∈ index (c_fork c) -> previous (block_of c p) = id (head_block c) ->
  tree_inv d' r (upd f (id (block_of c p)) y) -> fdb_wf d' r h' -> index d' = index (c_fork c) ->
  (forall x, same_shape (deref d' x) (deref (c_fork c) x)) -> validated (deref d' p) = true ->
  inv (set_chain_head p (set_fork d' (set_features y.2 (set_database (db_write y.1 (db_start (c_db c))) c))))
    r h' (upd f (id (block_of c p)) y) base.
Proof.
  intros I Hp E T Wf' Ei Hs Hv. destruct (head_parent _ _ _ _ _ _ I Hp E) as (Hn & _ & _).
  pose proof (wf_tree _ _ _ (i_wf _ _ _ _ _ I)) as Ht. pose proof (i_base _ _ _ _ _ I) as Hb.
  destruct (same_shape_fields _ _ (Hs p)) as (Eid & En & Ep & _).
  split; unfold head_block, block_of; cbn [c_fork c_head c_db c_features set_chain_head set_fork set_features set_database].
  - done.
  - done.
  - right. by rewrite Ei.
  - done.
  - by rewrite write_content, Eid, upd_eq.
  - by rewrite Eid, upd_eq.
  - rewrite write_revision, start_revision, En, (i_revision _ _ _ _ _ I). done.
  - destruct (same_shape_fields _ _ (Hs r)) as (_ & -> & _). rewrite En.
    unfold head_block, block_of in *. lia.
  - destruct (i_history _ _ _ _ _ I) as (l & Hc & Hh). exists (p :: l).
    assert (forall x, x ∈ p :: l -> x ∈ index (c_fork c) /\ upd f (id (block_of c p)) y (previous (block_of c x)) = f (previous (block_of c x))) as Hl.
    { intros x [->|Hx]%elem_of_cons.
      - split; [done|]. apply upd_ne, (previous_ne _ r); [done..|lia].
      - pose proof (chain_in _ _ _ _ _ Hc Hx) as Hx'. split; [done|]. apply upd_ne, (previous_ne _ r); [done..|].
        pose proof (chain_num _ _ _ _ _ (tw_forest _ _ Ht) Hc Hx) as Hxn.
        unfold head_block, block_of in *. rewrite (node_num _ _ _ Ht (i_head _ _ _ _ _ I)) in Hxn. lia. }
    split.
    + apply (chain_ext (c_fork c)).
      { intros x [Hx _]%Hl. destruct (same_shape_fields _ _ (Hs x)) as (-> & _ & -> & _). by rewrite Ei. }
      destruct (same_shape_fields _ _ (Hs r)) as (-> & _). rewrite Eid. constructor; [done|].
      fold (block_of c p). by rewrite E.
    + rewrite write_history, start_history, Hh, En. fold (block_of c p). rewrite Hn.
      replace (Z.to_nat (block_num (head_block c) + 1 - base)) with (S (Z.to_nat (block_num (head_block c) - base))) by lia.
      rewrite (i_content _ _ _ _ _ I), <- E. rewrite fmap_cons, Ep. fold (block_of c p).
      rewrite (proj2 (Hl p ltac:(by left))). cbn [take]. f_equal. f_equal. apply list_fmap_ext.
      intros k x Hx%list_elem_of_lookup_2. destruct (same_shape_fields _ _ (Hs x)) as (_ & _ & -> & _).
      fold (block_of c x). by rewrite (proj2 (Hl x ltac:(by right))).
Qed.

(** What [f] says of the blocks that were validated *)
Definition agrees (d : fork_db) (r : ptr) (f f' : digest -> state) : Prop :=
  forall p, node d r p -> validated (deref d p) = true -> f' (id (deref d p)) = f (id (deref d p)).

(** A session that is undone *)
Lemma undone_chain c m : m = c_features c -> same_chain c (set_features m (set_database (db_undo (db_start (c_db c))) c)).
Proof.
  intros ->. pose proof (start_history (c_db c)) as Hh. split; cbn; try done.
  - eapply undo_content, Hh.
  - eapply undo_history, Hh.
  - rewrite (undo_revision _ _ _ Hh), start_revision. lia.
Qed.

(** [apply_block] on top of the head: the block is run and becomes the head, or nothing
    changes; a block that was validated before cannot fail as such. *)
Lemma apply_block_spec c r h f base p s :
  inv c r h f base -> p ∈ index (c_fork c) -> previous (block_of c p) = id (head_block c) ->
  s = complete \/ s = validated_before ->
  (exists c' h' f', apply_block env p s c = (c', Ok tt) /\ inv c' r h' f' base /\ c_head c' = p /\
     mark_valid_impl (c_fork c) p = Ok (c_fork c') /\ c_log c' = c_log c /\ agrees (c_fork c) r f f') \/
  (exists c' e, apply_block env p s c = (c', Throw e) /\ same_chain c c' /\
     (s = validated_before -> validated (block_of c p) = false)).
Proof.
  intros I Hp E Hs. destruct (head_parent _ _ _ _ _ _ I Hp E) as (Hn & H0 & Hg).
  pose proof (t_small _ _ _ (i_tree _ _ _ _ _ I) p Hp) as Hsm. fold (block_of c p) in Hsm.
  pose proof (wf_tree _ _ _ (i_wf _ _ _ _ _ I)) as Ht.
  unfold apply_block, apply_with. rewrite op_bind_get, emit_step.
  rewrite (i_revision _ _ _ _ _ I), Z.eqb_refl. cbn [negb].
  rewrite (i_content _ _ _ _ _ I), (i_features _ _ _ _ _ I), <- surjective_pairing.
  destruct (run_block_cases s (block_of c p) (block_num (head_block c)) (f (id (head_block c))) Hg H0 ltac:(lia))
    as [(content & m & Er & Hm & _)|(e & Er)]; rewrite Er; [left|right].
  - assert (leads (block_of c p) (block_num (head_block c)) (f (id (head_block c))) (content, m)) as L
      by (by apply run_block_validated in Er).
    destruct (mark_valid_cases _ _ _ p (i_wf _ _ _ _ _ I) Hp) as (d' & h' & Em & Wf' & Ei & Hsh & Hv & Hsame & _).
    rewrite !op_bind_modify. rewrite (commit_spec _ _ _ d') by done.
    do 2 eexists. exists (upd f (id (block_of c p)) (content, m)). split; [done|].
    assert (tree_inv d' r (upd f (id (block_of c p)) (content, m)) /\ agrees (c_fork c) r f (upd f (id (block_of c p)) (content, m)))
      as [T' Ha].
    { destruct (validated (block_of c p)) eqn:Hpv.
      - rewrite (Hsame Hpv).
        destruct (t_parent _ _ _ _ _ Ht (i_tree _ _ _ _ _ I) Hp Hpv (i_head _ _ _ _ _ I) E) as [_ L'].
        rewrite (leads_fun _ _ _ _ _ L L'). split; [apply upd_same_inv, I|].
        intros x _ _. unfold upd. by destruct (decide _) as [->|].
      - split.
        + apply (mark_tree_inv (c_fork c) d' r f p (c_head c)); try done; [apply I..|].
          fold (block_of c p). by rewrite Hn.
        + intros x Hx Hxv. apply upd_ne. intros Ex. assert (x = p) as ->; [|unfold block_of in *; congruence].
          apply (node_inj _ _ _ _ Ht Hx); [by right|done]. }
    split_and!; [|done..]. apply (applied_inv c r h f base p (content, m)); try done. apply Hv. by right.
  - do 2 eexists. rewrite op_bind_modify, op_bind_lift, op_bind_modify. split; [done|]. split.
    + apply undone_chain. symmetry. apply I.
    + intros ->. destruct (validated (block_of c p)) eqn:Hpv; [|done].
      destruct (t_parent _ _ _ _ _ Ht (i_tree _ _ _ _ _ I) Hp Hpv (i_head _ _ _ _ _ I) E) as [_ L'].
      unfold leads, block_of, head_block, block_of in *. by rewrite Er in L'.
Qed.

Lemma head_num c r h f base : inv c r h f base -> num_from_id (id (head_block c)) = block_num (head_block c).
Proof. intros I. apply (node_num _ r); [apply (wf_tree _ _ _ (i_wf _ _ _ _ _ I))|apply I]. Qed.

(** [pop_block] goes back to the parent of the head. *)
Lemma pop_block_spec c r h f base :
  inv c r h f base -> base < block_num (head_block c) ->
  exists c', pop_block env c = (c', Ok tt) /\ inv c' r h f base /\ c_fork c' = c_fork c /\
    id (head_block c') = previous (head_block c) /\ c_log c' = c_log c.
Proof.
  intros I Hb. pose proof (wf_tree _ _ _ (i_wf _ _ _ _ _ I)) as Ht. pose proof (i_base _ _ _ _ _ I) as Hbase.
  assert (c_head c ∈ index (c_fork c)) as Hh.
  { destruct (i_head _ _ _ _ _ I) as [E|]; [|done]. unfold head_block in *. rewrite E in *. lia. }
  assert (exists q, node (c_fork c) r q /\ previous (head_block c) = id (block_of c q) /\
    block_num (head_block c) = block_num (block_of c q) + 1 /\
    forall k : ptr -> op unit, (match get_block_impl (c_fork c) (previous (head_block c)) with
      | Some prev => mret prev
      | None => r ← lift (of_option undefined_behavior (root (c_fork c)));
          _ ← assert_ (bool_decide (id (block_of c r) = previous (head_block c))) block_validate_exception; mret r
      end ≫= k) c = k q c) as (q & Hq & Eq & En & Hk).
  { destruct (parent_node _ _ _ Ht Hh) as (q & Hq & Eq & En). exists q. split_and!; [done..|]. intros k.
    destruct (parent_cases _ _ _ Ht Hh) as [[E1 E2]|(q' & E1 & Hq' & E2 & _)]; unfold head_block, block_of in *.
    - rewrite E2. assert (q = r) as -> by (apply (node_inj _ _ _ _ Ht Hq); [by left|congruence]).
      rewrite (wf_root _ _ _ (i_wf _ _ _ _ _ I)). cbn [of_option].
      apply op_bind_Ok. rewrite op_bind_lift. unfold assert_. by rewrite bool_decide_true.
    - rewrite E1. by assert (q' = q) as -> by (apply (node_inj _ _ _ _ Ht); [by right|done|congruence]). }
  destruct (t_parent _ _ _ _ _ Ht (i_tree _ _ _ _ _ I) Hh (i_valid _ _ _ _ _ I) Hq Eq) as [Hqv L].
  assert (popped_blocks_to (c_features c) (block_num (block_of c q)) = Ok (f (id (block_of c q))).2) as Hpop.
  { rewrite (i_features _ _ _ _ _ I). pose proof (t_small _ _ _ (i_tree _ _ _ _ _ I) _ Hh).
    pose proof (above_root _ _ Ht _ Hq). pose proof (t_num _ _ _ (i_tree _ _ _ _ _ I)).
    destruct (run_block_cases validated_before (head_block c) (block_num (block_of c q)) (f (id (block_of c q))))
      as [(p & m & Er & _ & Hm)|(e & Er)]; unfold leads, head_block, block_of in *.
    - by apply I.
    - lia.
    - lia.
    - rewrite L in Er. by injection Er as <- _.
    - by rewrite L in Er. }
  destruct (i_history _ _ _ _ _ I) as (l & Hc & Hhist).
  inversion Hc as [Er|p l' Hp Hc' Ei]; [by destruct (root_not_in_ids _ _ _ Ht Hh)|]. subst l.
  assert (p = c_head c) as -> by (by apply (forest_inj (c_fork c)); [apply Ht|..]).
  replace (Z.to_nat (block_num (head_block c) - base)) with (S (Z.to_nat (block_num (block_of c q) - base))) in Hhist by lia.
  rewrite fmap_cons in Hhist. cbn [take] in Hhist.
  unfold pop_block. rewrite op_bind_get, Hk. unfold assert_ at 1. rewrite (q_body Q). cbn [sys_assert].
  rewrite op_bind_lift, !op_bind_modify. unfold pop_features. rewrite op_bind_get. cbn [c_features set_database set_chain_head].
  rewrite Hpop, op_bind_lift. eexists. split; [done|]. split_and!; [|done|done|done].
  split; unfold head_block; cbn; try done; try apply I.
  - rewrite (undo_content _ _ _ Hhist). unfold head_block, block_of in *. by rewrite Eq.
  - rewrite (undo_revision _ _ _ Hhist), (i_revision _ _ _ _ _ I). unfold head_block, block_of, deref in *. cbn in *. lia.
  - unfold head_block, block_of, deref in *. cbn in *. lia.
  - exists l'. rewrite (undo_history _ _ _ Hhist). unfold head_block, block_of in *. rewrite Eq in Hc'. done.
Qed.

Lemma pop_blocks_spec c r h f base a l :
  inv c r h f base -> chain (c_fork c) a (id (head_block c)) l -> base <= num_from_id a ->
  exists c', pop_blocks env (length l) c = (c', Ok tt) /\ inv c' r h f base /\ c_fork c' = c_fork c /\
    id (head_block c') = a /\ c_log c' = c_log c.
Proof.
  revert c. induction l as [|p l IH]; intros c I Hc Hb; cbn [pop_blocks length].
  { inversion Hc. exists c. split_and!; done. }
  pose proof (wf_tree _ _ _ (i_wf _ _ _ _ _ I)) as Ht.
  pose proof (chain_num _ _ _ _ p (tw_forest _ _ Ht) Hc ltac:(by left)) as Hn.
  rewrite (head_num _ _ _ _ _ I) in Hn. inversion Hc as [|? ? Hp Hc' Ei]; subst.
  assert (p = c_head c) as -> by (by apply (node_inj _ _ _ _ Ht); [by right|apply I|]).
  destruct (pop_block_spec c r h f base I) as (c1 & E1 & I1 & F1 & H1 & L1).
  { unfold head_block, block_of in *. lia. }
  rewrite (op_bind_Ok _ _ _ _ _ E1). destruct (IH c1 I1) as (c2 & E2 & I2 & F2 & H2 & L2).
  { rewrite F1, H1. done. }
  { done. }
  exists c2. split_and!; [done|done|by rewrite F2|done|by rewrite L2].
Qed.

(** Blocks that were validated are applied again. *)
Lemma reapply_spec c r h f base ps :
  inv c r h f base -> path (c_fork c) (id (head_block c)) ps ->
  (forall p, p ∈ ps -> validated (block_of c p) = true) ->
  exists c' h' f', reapply env ps c = (c', Ok tt) /\ inv c' r h' f' base /\ c_fork c' = c_fork c /\
    id (head_block c') = top (c_fork c) (id (head_block c)) ps /\ c_log c' = c_log c /\ agrees (c_fork c) r f f'.
Proof.
  revert c h f. induction ps as [|p ps IH]; intros c h f I Hps Hv; cbn [reapply path] in *.
  { exists c, h, f. split_and!; try done. }
  destruct Hps as (Hp & Ep & Hps). pose proof (Hv p ltac:(by left)) as Hpv.
  destruct (apply_block_spec c r h f base p validated_before I Hp Ep) as [(c1 & h1 & f1 & E1 & I1 & Hh1 & M1 & L1 & A1)|(c1 & e & _ & _ & H)];
    [by right| |by rewrite H in Hpv].
  assert (c_fork c1 = c_fork c) as F1.
  { unfold mark_valid_impl in M1. unfold block_of in Hpv. rewrite Hpv in M1. by injection M1. }
  rewrite (op_bind_Ok _ _ _ _ _ E1).
  assert (id (head_block c1) = id (deref (c_fork c) p)) as Hi1 by (unfold head_block, block_of; by rewrite Hh1, F1).
  destruct (IH c1 h1 f1 I1) as (c2 & h2 & f2 & E2 & I2 & F2 & H2 & L2 & A2).
  { by rewrite F1, Hi1. }
  { intros x Hx. unfold block_of. rewrite F1. apply Hv. by right. }
  exists c2, h2, f2. rewrite top_cons, <- Hi1, <- F1. split_and!; [done|done|done|done|congruence|].
  rewrite F1 in *. intros x Hx Hxv. rewrite (A2 x), (A1 x); done.
Qed.

(** Validated blocks stay, with their contents. *)
Definition keeps (d d' : fork_db) (r : ptr) : Prop :=
  forall x, node d r x -> validated (deref d x) = true ->
    node d' r x /\ validated (deref d' x) = true /\ same_shape (deref d' x) (deref d x).

Lemma keeps_trans d d1 d2 r : keeps d d1 r -> keeps d1 d2 r -> keeps d d2 r.
Proof.
  intros H1 H2 x Hx Hv. destruct (H1 x Hx Hv) as (Hx1 & Hv1 & S1). destruct (H2 x Hx1 Hv1) as (? & ? & S2).
  split_and!; [done..|]. unfold same_shape in *. congruence.
Qed.

Lemma agrees_trans d d1 r f f1 f2 : keeps d d1 r -> agrees d r f f1 -> agrees d1 r f1 f2 -> agrees d r f f2.
Proof.
  intros K A1 A2 x Hx Hv. destruct (K x Hx Hv) as (Hx1 & Hv1 & (Ei & _)%same_shape_fields).
  rewrite <- (A1 x Hx Hv), <- Ei. by apply A2.
Qed.

Lemma mark_keeps d r h p d' : fdb_wf d r h -> p ∈ index d -> mark_valid_impl d p = Ok d' -> keeps d d' r.
Proof.
  intros Wf Hp E. destruct (mark_valid_cases _ _ _ _ Wf Hp) as (d1 & h1 & E1 & _ & Ei & Hs & Hv & _).
  rewrite E in E1. injection E1 as <-. intros x Hx Hxv. split_and!; [|apply Hv; by left|done].
  unfold node. by rewrite Ei.
Qed.

(** On the way to [t]: the head of the fork database is below [t], or will be when [t] is
    validated. *)
Definition leading (d : fork_db) (r h t : ptr) : Prop :=
  desc d (id (deref d h)) (id (deref d t)) \/
  (t ∈ index d /\ forall x, node d r x -> validated (deref d x) = true ->
     desc d (id (deref d x)) (id (deref d t)) \/ first_preferred (deref d t) (deref d x) = true).

Lemma mark_desc d r h p d' a x :
  fdb_wf d r h -> p ∈ index d -> mark_valid_impl d p = Ok d' -> desc d a x -> desc d' a x.
Proof.
  intros Wf Hp E. destruct (mark_valid_cases _ _ _ _ Wf Hp) as (d1 & h1 & E1 & _ & Ei & Hs & _).
  rewrite E in E1. injection E1 as <-. induction 1 as [|q Hq _ IH]; [constructor|].
  destruct (same_shape_fields _ _ (Hs q)) as (E1 & _ & E2 & _).
  rewrite <- E1. constructor; [by rewrite Ei|by rewrite E2].
Qed.

Lemma mark_leading d r h p d' h' t :
  fdb_wf d r h -> p ∈ index d -> mark_valid_impl d p = Ok d' -> fdb_wf d' r h' ->
  desc d (id (deref d p)) (id (deref d t)) -> leading d r h t -> leading d' r h' t.
Proof.
  intros Wf Hp E Wf' Hd Hl. pose proof (fun a x => mark_desc _ _ _ _ _ a x Wf Hp E) as Hdesc.
  destruct (mark_valid_cases _ _ _ _ Wf Hp) as (d1 & h1 & E1 & Wf1 & Ei & Hs & Hv & _ & Hh).
  rewrite E in E1. injection E1 as <-.
  assert (h1 = h') as -> by (apply (inj Some); by rewrite <- (wf_head _ _ _ Wf1), <- (wf_head _ _ _ Wf')).
  assert (forall x, id (deref d' x) = id (deref d x)) as Hid by (intros x; by destruct (same_shape_fields _ _ (Hs x))).
  unfold leading. setoid_rewrite Hid. destruct Hl as [Hl|[Ht Hl]].
  - left. apply Hdesc. by destruct Hh as [->| ->].
  - right. split; [by rewrite Ei|]. intros x Hx Hxv%Hv. rewrite (first_preferred_shape _ _ _ _ (Hs t) (Hs x)).
    destruct Hxv as [Hxv| ->]; [|left; by apply Hdesc].
    destruct (Hl x) as [|]; [unfold node in *; by rewrite Ei in Hx|done|left; by apply Hdesc|by right].
Qed.

(** Once [t] is validated, the head of the fork database is [t] or below. *)
Lemma leading_head d r h t :
  fdb_wf d r h -> validated (deref d t) = true -> leading d r h t -> desc d (id (deref d h)) (id (deref d t)).
Proof.
  intros Wf Hv [|[Ht Hl]]; [done|]. destruct (Hl h) as [|Hp]; [apply Wf|apply Wf|done|].
  by rewrite (wf_best _ _ _ Wf t Ht Hv) in Hp.
Qed.

(** [pending_head]: the head of the fork database, or a block that is not validated and is
    preferred to all that are *)
Definition preferred (d : fork_db) (r h t : ptr) : Prop :=
  h = t \/
  (t ∈ index d /\ validated (deref d t) = false /\ forall x, node d r x -> validated (deref d x) = true ->
     desc d (id (deref d x)) (id (deref d t)) \/ first_preferred (deref d t) (deref d x) = true).

Lemma preferred_leading d r h t : preferred d r h t -> leading d r h t.
Proof. intros [->|(Ht & _ & H)]; [left; constructor|by right]. Qed.

Lemma pending_head_spec d r h :
  fdb_wf d r h -> exists t, pending_head d = Ok (Some t) /\ node d r t /\ preferred d r h t.
Proof.
  intros Wf. pose proof (wf_tree _ _ _ Wf) as Ht. unfold pending_head. rewrite (wf_head _ _ _ Wf).
  destruct (List.find _ _) as [p|] eqn:E; [|exists h; split_and!; [done|apply Wf|by left]].
  cbn [of_option mbind result_bind]. destruct (first_preferred (deref d p) (deref d h)) eqn:Hp;
    [exists p|exists h; split_and!; [done|apply Wf|by left]].
  apply find_some in E as [Hin%list_elem_of_In Hpv]. unfold by_lib_block_num in Hin.
  rewrite (merge_sort_Permutation (lib_le d)) in Hin. split_and!; [done|by right|]. right.
  split_and!; [done|by apply negb_true_iff in Hpv|]. intros x [->|Hx] Hxv; [left; by apply tree_desc_root|right].
  destruct (first_preferred (deref d p) (deref d x)) eqn:E; [done|].
  by rewrite (first_preferred_false_trans _ _ _ E (wf_best _ _ _ Wf x Hx Hxv)) in Hp.
Qed.

(** Taking out a block that could not be applied *)
Lemma remove_inv c r h f base p :
  inv c r h f base -> p ∈ index (c_fork c) -> validated (block_of c p) = false ->
  exists d', fork_remove (id (block_of c p)) c = (set_fork d' c, Ok tt) /\
    inv (set_fork d' c) r h f base /\ keeps (c_fork c) d' r /\ (forall x, deref d' x = deref (c_fork c) x).
Proof.
  intros I Hp Hv. pose proof (i_wf _ _ _ _ _ I) as Wf. pose proof (wf_tree _ _ _ Wf) as Ht.
  destruct (remove_impl_cases (c_fork c) (id (block_of c p)) h (tw_forest _ _ Ht) (wf_head _ _ _ Wf))
    as [(_ & d' & E & Hs & Hi)|[Hd _]].
  2: { assert (validated (block_of c p) = true); [|congruence].
       apply (validated_below _ _ _ p h Ht (i_tree _ _ _ _ _ I)); try done; apply Wf. }
  pose proof (shrinks_fields _ _ Hs) as (_ & _ & _ & Hde & Hsub).
  assert (keeps (c_fork c) d' r) as Hk.
  { intros x Hx Hxv. rewrite Hde. split_and!; [|done|done]. destruct Hx as [->|Hx]; [by left|right]. apply Hi.
    split; [done|]. intros Hd. assert (validated (block_of c p) = true); [|congruence].
    apply (validated_below _ _ _ p x Ht (i_tree _ _ _ _ _ I)); try done. by right. }
  exists d'. unfold fork_remove. rewrite op_bind_get, E, op_bind_lift. split_and!; [done| |done|done].
  assert (forall x, block_of (set_fork d' c) x = block_of c x) as Hb by (intros x; apply Hde).
  split; unfold head_block; rewrite ?Hb; cbn [c_fork c_head c_db c_features set_fork]; try apply I.
  - by eapply remove_wf.
  - apply (sub_tree_inv (c_fork c) d' r r); [apply I|done|by left|done|done|].
    intros x q Hx Hq Eq. destruct Hq as [->|Hq]; [by left|right]. apply Hi. split; [done|]. apply Hi in Hx as [Hx Hn].
    contradict Hn. constructor; [done|]. by rewrite Eq.
  - apply Hk; apply I.
  - destruct (i_history _ _ _ _ _ I) as (l & Hc & Hh). exists l. split.
    + apply (chain_ext (c_fork c)); [|done]. intros x Hx. rewrite Hde. split_and!; [|done|done].
      apply Hi. split; [by eapply chain_in|]. intros Hd.
      assert (validated (block_of c p) = true); [|congruence].
      apply (validated_below _ _ _ p (c_head c) Ht (i_tree _ _ _ _ _ I)); [done|apply I|apply I|].
      eapply desc_trans; [exact Hd|]. apply chain_path in Hc as [Hc1 Hc2].
      change (id (deref (c_fork c) (c_head c))) with (id (head_block c)). rewrite <- Hc2.
      apply path_desc; [done|]. by rewrite elem_of_rev_list.
    + rewrite Hh. f_equal. apply list_fmap_ext. intros. by rewrite Hb.
Qed.

(** The blocks of a path over which a fork switch goes *)
Lemma path_keeps d d' r i ps :
  keeps d d' r -> tree_wf d r -> r ∉ index d' -> path d i ps -> (forall p, p ∈ ps -> validated (deref d p) = true) ->
  path d' i ps /\ top d' i ps = top d i ps /\ forall p, p ∈ ps -> validated (deref d' p) = true.
Proof.
  intros K Ht Hr Hps Hv.
  assert (forall p, p ∈ ps -> p ∈ index d' /\ validated (deref d' p) = true /\ same_shape (deref d' p) (deref d p)) as H.
  { intros p Hp. pose proof (path_in _ _ _ _ Hps Hp) as Hin. destruct (K p) as ([->|?] & ? & ?); [by right|auto| |done].
    by destruct (root_not_in_index _ _ Ht). }
  split_and!.
  - apply (path_ext d); [|done]. intros p Hp _. destruct (H p Hp) as (? & _ & (? & _ & ? & _)%same_shape_fields). done.
  - unfold top. destruct (last ps) as [p|] eqn:E; [|done]. apply last_Some_elem_of in E.
    destruct (H p E) as (_ & _ & (? & _)%same_shape_fields). done.
  - intros p Hp. by apply H.
Qed.

Lemma inv_root c r h f base : inv c r h f base -> tree_wf (c_fork c) r /\ r ∉ index (c_fork c).
Proof. intros I. pose proof (wf_tree _ _ _ (i_wf _ _ _ _ _ I)) as Ht. split; [done|by apply root_not_in_index]. Qed.

(** A branch that fails: the block is removed, the blocks that were applied are popped and
    the branch that was left is applied again. *)
Lemma reversal_spec c r h f base p done_ second a old e :
  inv c r h f base -> p ∈ index (c_fork c) -> validated (block_of c p) = false ->
  chain (c_fork c) a (id (head_block c)) done_ -> base <= num_from_id a ->
  (forall x, x ∈ done_ -> validated (block_of c x) = true) ->
  chain (c_fork c) a old second -> (forall x, x ∈ second -> validated (block_of c x) = true) ->
  let recover : op unit := _ ← fork_remove (id (block_of c p)); _ ← pop_blocks env (length done_);
                 _ ← check_head second; _ ← reapply env (rev second); throw e in
  if bool_decide (second = []) then exists c', recover c = (c', Throw undefined_behavior) else
  exists c' h' f', recover c = (c', Throw e) /\ inv c' r h' f' base /\ id (head_block c') = old /\
    c_log c' = c_log c /\ keeps (c_fork c) (c_fork c') r /\ agrees (c_fork c) r f f'.
Proof.
  intros I Hp Hpv Hd Hb Hdv Hs Hsv recover. destruct (inv_root _ _ _ _ _ I) as [Ht _].
  destruct (remove_inv _ _ _ _ _ _ I Hp Hpv) as (d1 & E1 & I1 & K1 & Hde1).
  destruct (inv_root _ _ _ _ _ I1) as [_ Hr1]. cbn [c_fork set_fork] in Hr1.
  assert (chain d1 a (id (head_block c)) done_) as Hd1.
  { apply chain_path in Hd as [Hd1 Hd2]. destruct (path_keeps _ _ _ _ _ K1 Ht Hr1 Hd1) as (H1 & H2 & _).
    { intros x Hx. apply Hdv. by rewrite elem_of_rev_list in Hx. }
    apply path_chain in H1. by rewrite H2, Hd2, rev_involutive in H1. }
  assert (head_block (set_fork d1 c) = head_block c) as Hh1 by apply Hde1.
  destruct (pop_blocks_spec _ _ _ _ _ a done_ I1) as (c2 & E2 & I2 & F2 & H2 & L2); [by rewrite Hh1|done|].
  unfold recover. rewrite (op_bind_Ok _ _ _ _ _ E1), (op_bind_Ok _ _ _ _ _ E2).
  case_bool_decide as Hnil; [subst second; by eexists|].
  apply chain_path in Hs as [Hs1 Hs2].
  destruct (path_keeps _ _ _ _ _ K1 Ht Hr1 Hs1) as (P1 & P2 & P3).
  { intros x Hx. apply Hsv. by rewrite elem_of_rev_list in Hx. }
  erewrite op_bind_Ok; cycle 1.
  { unfold check_head. rewrite op_bind_get. destruct (last second) as [b|] eqn:El; [|by apply last_None in El].
    cbn [of_option]. rewrite op_bind_lift. unfold assert_. apply last_Some in El as [l' ->].
    rewrite rev_app_distr in P1. destruct P1 as (_ & Eb & _).
    rewrite bool_decide_true; [done|]. unfold block_of. rewrite F2, H2. by rewrite <- Eb. }
  destruct (reapply_spec c2 r h f base (rev second) I2) as (c3 & h3 & f3 & E3 & I3 & F3 & H3 & L3 & A3).
  { by rewrite F2, H2. }
  { intros x Hx. unfold block_of. rewrite F2. by apply P3. }
  exists c3, h3, f3. rewrite (op_bind_Ok _ _ _ _ _ E3). split_and!; [done|done|..].
  - rewrite H3, F2, H2. cbn [c_fork set_fork]. congruence.
  - by rewrite L3, L2.
  - by rewrite F3, F2.
  - rewrite F2 in A3. eapply agrees_trans; [exact K1|by intros ?|exact A3].
Qed.

(** A fork database in which only marks were set *)
Lemma mark_path d r h p d' i ps :
  fdb_wf d r h -> p ∈ index d -> mark_valid_impl d p = Ok d' -> path d i ps ->
  path d' i ps /\ top d' i ps = top d i ps.
Proof.
  intros Wf Hp E Hps. destruct (mark_valid_cases _ _ _ _ Wf Hp) as (d1 & h1 & E1 & _ & Ei & Hs & _).
  rewrite E in E1. injection E1 as <-. split.
  - apply (path_ext d); [|done]. intros x _ Hx. rewrite Ei.
    destruct (same_shape_fields _ _ (Hs x)) as (? & _ & ? & _). done.
  - unfold top. destruct (last ps) as [x|]; [|done]. by destruct (same_shape_fields _ _ (Hs x)) as (? & _).
Qed.

Lemma mark_chain d r h p d' a i l :
  fdb_wf d r h -> p ∈ index d -> mark_valid_impl d p = Ok d' -> chain d a i l -> chain d' a i l.
Proof.
  intros Wf Hp E Hc. apply chain_path in Hc as [H1 <-]. destruct (mark_path _ _ _ _ _ _ _ Wf Hp E H1) as [H2 <-].
  apply path_chain in H2. by rewrite rev_involutive in H2.
Qed.

Lemma mark_fields d r h p d' x :
  fdb_wf d r h -> p ∈ index d -> mark_valid_impl d p = Ok d' ->
  index d' = index d /\ same_shape (deref d' x) (deref d x) /\
  (validated (deref d' x) = true <-> validated (deref d x) = true \/ x = p).
Proof.
  intros Wf Hp E. destruct (mark_valid_cases _ _ _ _ Wf Hp) as (d1 & h1 & E1 & _ & Ei & Hs & Hv & _).
  rewrite E in E1. injection E1 as <-. split_and!; [done|done|apply Hv..].
Qed.

(** How the loop over the new branch ends: at its top, with the head of the fork database on
    the way there; or back at the head that was left. *)
Lemma apply_branch_spec c r h f base ps done_ second a old t :
  inv c r h f base -> path (c_fork c) (id (head_block c)) ps ->
  top (c_fork c) (id (head_block c)) ps = id (block_of c t) -> node (c_fork c) r t -> leading (c_fork c) r h t ->
  chain (c_fork c) a (id (head_block c)) done_ -> base <= num_from_id a ->
  (forall x, x ∈ done_ -> validated (block_of c x) = true) ->
  chain (c_fork c) a old second -> (forall x, x ∈ second -> validated (block_of c x) = true) ->
  (exists c' h' f', apply_branch env ps (length done_) second c = (c', Ok tt) /\ inv c' r h' f' base /\
     desc (c_fork c') (id (block_of c' h')) (id (head_block c')) /\
     c_log c' = c_log c /\ keeps (c_fork c) (c_fork c') r /\ agrees (c_fork c) r f f') \/
  (second = [] /\ exists c', apply_branch env ps (length done_) second c = (c', Throw undefined_behavior)) \/
  (exists c' h' f' e, apply_branch env ps (length done_) second c = (c', Throw e) /\ inv c' r h' f' base /\
     id (head_block c') = old /\ c_log c' = c_log c /\ keeps (c_fork c) (c_fork c') r /\ agrees (c_fork c) r f f').
Proof.
  revert c h f done_. induction ps as [|p ps IH]; intros c h f done_ I Hps Htop Ht Hpr Hd Hb Hdv Hs Hsv;
    pose proof (i_wf _ _ _ _ _ I) as Wf; pose proof (wf_tree _ _ _ Wf) as Htr; cbn [apply_branch path] in *.
  { left. assert (c_head c = t) as Eh.
    { by apply (node_inj _ _ _ _ Htr (i_head _ _ _ _ _ I)). }
    exists c, h, f. split_and!; try done. unfold head_block. rewrite Eh.
    apply (leading_head _ r); [done|rewrite <- Eh; apply I|done]. }
  destruct Hps as (Hp & Ep & Hps). rewrite op_bind_get. set (s := if validated (block_of c p) then _ else _).
  destruct (apply_block_spec c r h f base p s I Hp Ep)
    as [(c1 & h1 & f1 & E1 & I1 & Hh1 & M1 & L1 & A1)|(c1 & e & E1 & S1 & Hv1)].
  { unfold s. destruct (validated _); auto. }
  - rewrite (try_Ok _ _ _ _ _ E1). cbv beta iota.
    pose proof (mark_keeps _ _ _ _ _ Wf Hp M1) as K1. rewrite top_cons in Htop.
    destruct (mark_path _ _ _ _ _ _ _ Wf Hp M1 Hps) as [P1 T1].
    assert (id (head_block c1) = id (deref (c_fork c) p)) as Hi1.
    { unfold head_block, block_of. rewrite Hh1. by destruct (mark_fields _ _ _ _ _ p Wf Hp M1) as (_ & (? & _)%same_shape_fields & _). }
    destruct (mark_fields _ _ _ _ _ t Wf Hp M1) as (Ei & (Eit & _)%same_shape_fields & _).
    assert (forall x, validated (block_of c x) = true -> validated (block_of c1 x) = true) as Hval.
    { intros x Hx. apply (mark_fields _ _ _ _ _ x Wf Hp M1). by left. }
    destruct (IH c1 h1 f1 (p :: done_) I1) as [(c2 & h2 & f2 & E2 & I2 & Hh2 & L2 & K2 & A2)|[[-> (c2 & E2)]|
      (c2 & h2 & f2 & e2 & E2 & I2 & Hh2 & L2 & K2 & A2)]].
    + by rewrite Hi1.
    + rewrite Hi1, T1, Htop. done.
    + unfold node. by rewrite Ei.
    + apply (mark_leading (c_fork c) r h p); [done|done|done|apply I1| |done].
      fold (block_of c t). rewrite <- Htop.
      eapply chain_desc. by apply path_chain.
    + rewrite Hi1. apply (mark_chain _ _ _ _ _ _ _ _ Wf Hp M1). constructor; [done|]. by rewrite Ep.
    + done.
    + intros x [->|Hx]%elem_of_cons; [|by apply Hval, Hdv]. rewrite <- Hh1. apply I1.
    + by apply (mark_chain _ _ _ _ _ _ _ _ Wf Hp M1).
    + intros x Hx. by apply Hval, Hsv.
    + left. exists c2, h2, f2. split_and!; [done|done|done|congruence|by eapply keeps_trans|by eapply agrees_trans].
    + right; left. split; [done|]. by exists c2.
    + right; right. exists c2, h2, f2, e2.
      split_and!; [done|done|done|congruence|by eapply keeps_trans|by eapply agrees_trans].
  - rewrite (try_Throw _ _ _ _ _ E1). cbv beta iota. right.
    assert (validated (block_of c p) = false) as Hpv by (unfold s in Hv1; destruct (validated _); auto).
    pose proof (same_chain_inv _ _ _ _ _ _ S1 I) as I1. destruct S1 as [F1 Hh1 _ L1 _ _ _].
    assert (forall x, block_of c1 x = block_of c x) as B1 by (intros x; unfold block_of; by rewrite F1).
    assert (head_block c1 = head_block c) as H1 by (unfold head_block; by rewrite B1, Hh1).
    pose proof (reversal_spec c1 r h f base p done_ second a old e I1) as R. cbv zeta in R.
    rewrite F1, H1, B1 in R. setoid_rewrite B1 in R. specialize (R Hp Hpv Hd Hb Hdv Hs Hsv).
    case_bool_decide as Hnil; [left|right].
    + split; [done|]. by destruct R as (c2 & ->); exists c2.
    + destruct R as (c2 & h2 & f2 & E2 & I2 & Hh2 & L2 & K2 & A2). exists c2, h2, f2, e.
      split_and!; [done|done|done|congruence|done|done].
Qed.

(** ** Irreversible blocks *)

(** The states of the blocks of [bs], the first of which follows block number [n] *)
Fixpoint replay (n : Z) (bs : list block_state) (x : state) : option state :=
  match bs with
  | [] => Some x
  | b :: bs => match run_block validated_before b n x with
               | (Ok m, Ok p) => replay (block_num b) bs (p, m)
               | _ => None
               end
  end.

Lemma replay_app n bs bs' x y :
  replay n bs x = Some y -> replay n (bs ++ bs') x = replay (from_option block_num n (last bs)) bs' y.
Proof.
  revert n x. induction bs as [|b bs IH]; intros n x; cbn [replay app]; [by intros [= ->]|].
  destruct (run_block _ _ _ _) as [[m|] [p|]]; try done. intros E. rewrite (IH _ _ E), last_cons.
  by destruct (last bs).
Qed.

Lemma replay_path d r f i ps q :
  tree_wf d r -> tree_inv d r f -> node d r q -> id (deref d q) = i -> path d i ps ->
  (forall p, p ∈ ps -> validated (deref d p) = true) ->
  replay (block_num (deref d q)) (deref d <$> ps) (f i) = Some (f (top d i ps)).
Proof.
  intros Ht T. revert i q. induction ps as [|p ps IH]; intros i q Hq Ei; [done|]. rewrite fmap_cons, top_cons.
  cbn [path replay]. intros (Hp & Ep & Hps) Hv.
  destruct (t_parent d r f p q Ht T Hp (Hv p ltac:(by left)) Hq) as [_ L]; [congruence|]. unfold leads in L.
  rewrite Ei in L. rewrite L, <- surjective_pairing. apply IH; [by right|done|done|]. intros x Hx. apply Hv. by right.
Qed.

(** The last block of the log is the root. *)
Definition log_ok (c : controller) (r : ptr) : Prop :=
  match last (c_log c) with
  | Some i => i = id (block_of c r)
  | None => block_num (block_of c r) = u32 (log_first_block_num env - 1)
  end.

Definition set_committed (n : Z) (i : digest) (c : controller) : controller :=
  set_database (db_commit n (c_db c)) (set_log (c_log c ++ [i]) c).

Lemma committed_inv c r h f base n i :
  inv c r h f base -> base <= n <= block_num (head_block c) -> inv (set_committed n i c) r h f n.
Proof.
  intros I Hn. pose proof (i_base _ _ _ _ _ I) as Hb.
  split; unfold head_block, block_of in *; cbn [c_fork c_head c_db c_features set_committed set_database set_log];
    try apply I.
  - rewrite commit_content. apply I.
  - rewrite commit_revision. apply I.
  - lia.
  - destruct (i_history _ _ _ _ _ I) as (l & Hc & Hh). exists l. split; [done|].
    rewrite commit_history, Hh, (i_revision _ _ _ _ _ I), take_take. f_equal. unfold head_block, block_of in *. lia.
Qed.

Lemma log_loop_spec c r h f base i ps :
  irreversible_mode env = false ->
  inv c r h f base -> path (c_fork c) i ps -> base = num_from_id i ->
  (forall p, p ∈ ps -> block_num (block_of c p) <= block_num (head_block c)) ->
  exists c', log_loop env ps i c = (c', Ok (top (c_fork c) i ps, None)) /\
    inv c' r h f (num_from_id (top (c_fork c) i ps)) /\ c_fork c' = c_fork c /\ c_head c' = c_head c /\
    c_log c' = c_log c ++ ((fun p => id (block_of c p)) <$> ps) /\
    db_content (c_db c') = db_content (c_db c) /\ c_features c' = c_features c.
Proof.
  intros Hm. revert c base i. induction ps as [|p ps IH]; intros c base i I Hps -> Hn; cbn [log_loop path] in *.
  { exists c. rewrite app_nil_r. by split_and!. }
  destruct Hps as (Hp & Ep & Hps). destruct (inv_root _ _ _ _ _ I) as [Ht _].
  destruct (fw_header _ (tw_forest _ _ Ht) p Hp) as [N1 N2]. rewrite Ep in N2.
  assert (inv (set_committed (block_num (block_of c p)) (id (block_of c p)) c) r h f (block_num (block_of c p))) as I1.
  { eapply committed_inv; [done|]. split; [unfold block_of; lia|]. apply Hn. by left. }
  destruct (IH _ _ (id (block_of c p)) I1) as (c' & E & I' & F' & H' & L' & D' & M').
  { done. }
  { symmetry. exact N1. }
  { intros x Hx. apply Hn. by right. }
  exists c'. rewrite top_cons. split_and!; [|done|done|done|..].
  - unfold mbind at 1, op_bind at 1. unfold try_. rewrite Hm.
    assert (forall k : unit -> op unit, ((if false then apply_block env p complete else mret tt) ≫= k) c = k tt c) as Hk by done.
    rewrite Hk, op_bind_get, emit_step, (q_append Q), op_bind_lift, op_bind_modify, (q_state Q), op_bind_lift.
    unfold modify. rewrite op_bind_get. exact E.
  - rewrite L'. unfold set_committed, set_database, set_log, block_of. cbn [c_log c_fork]. by rewrite <- app_assoc, fmap_cons.
  - rewrite D'. unfold set_committed. cbn [c_db set_database]. apply commit_content.
  - by rewrite M'.
Qed.

(** The root goes up to a block of the branch of the head. *)
Lemma advance_inv c r h f q :
  inv c r h f (block_num (block_of c q)) -> q ∈ index (c_fork c) ->
  desc (c_fork c) (id (block_of c q)) (id (block_of c h)) -> desc (c_fork c) (id (block_of c q)) (id (head_block c)) ->
  exists d', fork_advance_root (id (block_of c q)) c = (set_fork d' c, Ok tt) /\
    inv (set_fork d' c) q h f (block_num (block_of c q)) /\ (forall x, deref d' x = deref (c_fork c) x) /\
    forall p, p ∈ index d' -> p ∈ index (c_fork c) /\ p <> q /\ desc (c_fork c) (id (block_of c q)) (id (block_of c p)).
Proof.
  intros I Hq Hdh Hd. pose proof (i_wf _ _ _ _ _ I) as Wf. destruct (inv_root _ _ _ _ _ I) as [Ht Hr].
  pose proof (tw_forest _ _ Ht) as Hf.
  assert (validated (block_of c q) = true) as Hv 
    by (apply (validated_below _ r f q (c_head c)); [done|apply I|done|apply I|apply I|done]).
  destruct (advance_root_cases _ _ _ _ q Wf (find_id_in _ _ Hf Hq) Hv)
    as [(_ & d' & E & Hh & Hr' & _ & _ & Hin)|(Hn & _)]; [|done].
  destruct (advance_root_wf _ _ _ _ _ Wf E) as [r' Wf'].
  assert (r' = q) as -> by (pose proof (wf_root _ _ _ Wf'); congruence).
  assert (forall x, deref d' x = deref (c_fork c) x) as Hde by (intros x; unfold deref; by rewrite Hh).
  assert (forall x, block_of (set_fork d' c) x = block_of c x) as Hb by (intros x; apply Hde).
  exists d'. unfold fork_advance_root. unfold block_of at 1. rewrite E. split_and!; [done| |done|intros p; apply Hin].
  split; unfold head_block; rewrite ?Hb; cbn [c_fork c_head c_db c_features set_fork]; try apply I; [done|..].
  - apply (sub_tree_inv (c_fork c) d' r q); [apply I|done|by right| |done|].
    + intros p Hp. by apply Hin.
    + intros p x (Hp & Hne & Hdp)%Hin Hx Ex. destruct (decide (x = q)) as [->|Hxq]; [by left|right].
      apply desc_inv in Hdp as [Hdp|Hdp]; [| |done..]; [by apply forest_inj in Hdp; [destruct Hne|..]|].
      rewrite Ex in Hdp. apply Hin. assert (x ∈ index (c_fork c)) as Hxi; [|done].
      destruct Hx as [->|]; [|done]. apply desc_num in Hdp; [|done].
      pose proof (tw_above _ _ Ht q Hq). rewrite (tw_root _ _ Ht), (proj1 (fw_header _ Hf q Hq)) in Hdp. lia.
  - destruct (decide (c_head c = q)) as [|Hne]; [by left|right]. apply Hin. split_and!; [|done|done].
    destruct (i_head _ _ _ _ _ I) as [Er|]; [|done]. unfold head_block in Hd. rewrite Er in Hd. apply desc_num in Hd; [|done].
    pose proof (tw_above _ _ Ht q Hq). unfold block_of in Hd.
    rewrite (tw_root _ _ Ht), (proj1 (fw_header _ Hf q Hq)) in Hd. lia.
  - pose proof (i_base _ _ _ _ _ I). unfold head_block in *. lia.
  - destruct (i_history _ _ _ _ _ I) as (l & Hc & Hh'). setoid_rewrite Hb.
    destruct (chain_ancestor _ _ _ _ _ Hf Hc Hd) as [Hdr|(p & Hpl & Ep)].
    { apply desc_num in Hdr; [|done]. pose proof (tw_above _ _ Ht q Hq). unfold block_of in Hdr.
      rewrite (tw_root _ _ Ht), (proj1 (fw_header _ Hf q Hq)) in Hdr. lia. }
    assert (p = q) as -> by (apply (forest_inj (c_fork c)); [done|by eapply chain_in|done..]).
    apply list_elem_of_split in Hpl as (l1 & l2 & ->). exists l1. pose proof (chain_split _ _ _ _ _ _ Hc) as Hc1.
    pose proof (chain_length _ _ _ _ Hf Hc1) as Hlen. rewrite (head_num _ _ _ _ _ I), (proj1 (fw_header _ Hf q Hq)) in Hlen.
    split.
    + apply (chain_ext (c_fork c)); [|done]. intros x Hx. rewrite Hde. split_and!; [|done|done].
      pose proof (chain_num _ _ _ _ _ Hf Hc1 Hx) as Hxn. apply Hin. split_and!; [by eapply chain_in|..].
      * intros ->. rewrite (proj1 (fw_header _ Hf q Hq)) in Hxn. lia.
      * apply chain_path in Hc1 as [P1 _]. by apply (path_above _ _ (rev l1)); [|rewrite elem_of_rev_list].
    + unfold head_block, block_of in *. rewrite Hh', fmap_app, take_app_le, !take_ge; [done|rewrite length_fmap; lia..].
Qed.

(** The branch that [log_irreversible] writes: the first blocks above the root *)
Lemma fetch_path d r t n :
  tree_wf d r -> node d r t ->
  exists ps, fetch_branch_impl d (id (deref d t)) n = Ok (rev ps) /\ path d (id (deref d r)) ps /\
    forall p, p ∈ ps -> desc d (id (deref d p)) (id (deref d t)).
Proof.
  intros Ht [->|Hin].
  - exists []. split_and!; [|done|by intros p ?%elem_of_nil]. apply fetch_branch_missing.
    intros (p & Hp & E)%elem_of_ids. by eapply root_not_in_ids.
  - destruct (fetch_branch_spec d r t n Ht Hin) as (l & Hc & _ & E & _).
    destruct (chain_filter _ _ _ _ n (tw_forest _ _ Ht) Hc) as [j Hj]. set (l' := List.filter _ l) in *. exists (rev l').
    rewrite rev_involutive. split_and!; [done|by apply chain_path in Hj as [? _]|].
    intros p Hp. rewrite elem_of_rev_list in Hp. apply elem_of_List_filter in Hp as [Hp _].
    apply chain_path in Hc as [P1 P2]. rewrite <- P2. apply path_desc; [done|]. by rewrite elem_of_rev_list.
Qed.

(** [log_irreversible] past its checks: it writes a path above the root, towards the head
    [t] of the fork database. *)
Lemma log_irreversible_start c r h f base t :
  inv c r h f base -> log_ok c r -> fork_db_head env c = Ok t -> node (c_fork c) r t ->
  exists ps, path (c_fork c) (id (block_of c r)) ps /\
    (forall p, p ∈ ps -> desc (c_fork c) (id (block_of c p)) (id (block_of c t))) /\
    (log_irreversible env c = (c, Ok tt) \/
     log_irreversible env c =
       ('(root_id, except) ← log_loop env ps (id (block_of c r));
        _ ← (if bool_decide (root_id = id (block_of c r)) then mret tt else fork_advance_root root_id);
        match except with None => mret tt | Some e => throw e end) c).
Proof.
  intros I Hlog Ef Hn. destruct (inv_root _ _ _ _ _ I) as [Ht _].
  destruct (fetch_path _ r t (dpos_irreversible_blocknum (block_of c t)) Ht Hn) as (ps & E & Hps & Hd).
  exists ps. split_and!; [done|done|].
  unfold log_irreversible. rewrite op_bind_get, (wf_root _ _ _ (i_wf _ _ _ _ _ I)). cbn [of_option]. rewrite op_bind_lift.
  set (lib := match log_head_id c with Some i => _ | None => _ end).
  assert (lib = block_num (block_of c r)) as El.
  { unfold lib, log_ok, log_head_id in *. destruct (last _); [subst; apply (tw_root _ _ Ht)|done]. }
  erewrite op_bind_Ok; cycle 1.
  { unfold assert_, lib, log_ok, log_head_id in *. destruct (last _) as [i|].
    - by rewrite bool_decide_true.
    - rewrite El, Z.eqb_refl. done. }
  rewrite Ef, op_bind_lift. destruct (dpos_irreversible_blocknum (block_of c t) <=? lib); [by left|right].
  change (id (deref (c_fork c) t)) with (id (block_of c t)) in E. rewrite E, op_bind_lift, rev_involutive. done.
Qed.

Lemma log_irreversible_spec c r h f :
  irreversible_mode env = false -> inv c r h f (block_num (block_of c r)) ->
  desc (c_fork c) (id (block_of c h)) (id (head_block c)) -> log_ok c r ->
  exists c' r' ps, log_irreversible env c = (c', Ok tt) /\ inv c' r' h f (block_num (block_of c' r')) /\
    log_ok c' r' /\ path (c_fork c) (id (block_of c r)) ps /\
    top (c_fork c) (id (block_of c r)) ps = id (block_of c' r') /\
    (forall p, p ∈ ps -> validated (block_of c p) = true) /\
    c_log c' = c_log c ++ ((fun p => id (block_of c p)) <$> ps) /\
    (forall x, block_of c' x = block_of c x) /\ c_head c' = c_head c /\
    db_content (c_db c') = db_content (c_db c) /\ c_features c' = c_features c.
Proof.
  intros Hm I Eh Hlog. pose proof (i_wf _ _ _ _ _ I) as Wf. destruct (inv_root _ _ _ _ _ I) as [Ht Hr].
  destruct (log_irreversible_start c r h f _ h I Hlog) as (ps & Hps & Hdh & E).
  { unfold fork_db_head. by rewrite Hm, (wf_head _ _ _ Wf). }
  { apply Wf. }
  assert (forall p, p ∈ ps -> desc (c_fork c) (id (block_of c p)) (id (head_block c))) as Hd
    by (intros p Hp; eapply desc_trans; [by apply Hdh|done]).
  destruct E as [-> | ->].
  { exists c, r, []. rewrite app_nil_r. split_and!; try done. by intros p ?%elem_of_nil. }
  destruct (log_loop_spec c r h f _ _ ps Hm I Hps) as (c1 & E1 & I1 & F1 & H1 & L1 & D1 & M1).
  { symmetry. apply (tw_root _ _ Ht). }
  { intros p Hp. rewrite <- (head_num _ _ _ _ _ I). unfold block_of.
    rewrite <- (node_num _ r p Ht) by (right; by eapply path_in). apply (desc_num (c_fork c)); [apply Ht|by apply Hd]. }
  rewrite (op_bind_Ok _ _ _ _ _ E1). cbv beta iota.
  assert (forall x, block_of c1 x = block_of c x) as B1 by (intros x; unfold block_of; by rewrite F1).
  assert (head_block c1 = head_block c) as HB1 by (unfold head_block; by rewrite B1, H1).
  assert (forall p, p ∈ ps -> validated (block_of c p) = true) as Hv.
  { intros p Hp. apply (validated_below _ r f p (c_head c)); [done|apply I|by eapply path_in|apply I|apply I|by apply Hd]. }
  destruct (last ps) as [q|] eqn:Elast.
  - assert (q ∈ ps) as Hq by (by apply last_Some_elem_of in Elast). pose proof (path_in _ _ _ _ Hps Hq) as Hqi.
    assert (top (c_fork c) (id (block_of c r)) ps = id (block_of c q)) as Et by (unfold top; by rewrite Elast).
    rewrite Et in *. rewrite bool_decide_false by (by apply root_not_in_ids).
    assert (num_from_id (id (block_of c q)) = block_num (block_of c1 q)) as En.
    { rewrite B1. apply (node_num _ r); [done|by right]. }
    rewrite En in I1. destruct (advance_inv c1 r h f q I1) as (d2 & E2 & I2 & Hde & _).
    { by rewrite F1. }
    { rewrite F1, !B1. by apply Hdh. }
    { rewrite F1, B1, HB1. by apply Hd. }
    rewrite B1 in E2. rewrite (op_bind_Ok _ _ _ _ _ E2).
    assert (forall x, block_of (set_fork d2 c1) x = block_of c x) as B2 by (intros x; rewrite <- B1; apply Hde).
    exists (set_fork d2 c1), q, ps. split_and!; try done.
    + rewrite B2, <- B1. exact I2.
    + unfold log_ok. cbn [c_log set_fork]. rewrite L1, last_app, fmap_last, Elast. cbn. symmetry. apply f_equal, B2.
    + by rewrite B2.
  - apply last_None in Elast. subst ps. cbn [top last] in *. rewrite bool_decide_true by done.
    exists c1, r, []. split_and!; try done.
    + rewrite B1. unfold block_of at 1. by rewrite <- (tw_root _ _ Ht).
    + unfold log_ok in *. rewrite L1, app_nil_r. by rewrite B1.
    + by rewrite B1.
Qed.

(** ** Switching forks *)

Record chain_inv (c : controller) (r h : ptr) (f : digest -> state) : Prop := {
  ci_inv : inv c r h f (block_num (block_of c r));
  ci_log : log_ok c r }.

(** The blocks [bs] that became irreversible are in the log, and lead from the state of the
    old root to that of the new one. *)
Definition advances (c : controller) (r : ptr) (f : digest -> state) (c' : controller) (r' : ptr)
    (f' : digest -> state) : Prop :=
  exists bs, c_log c' = c_log c ++ (id <$> bs) /\
    replay (block_num (block_of c r)) bs (f (id (block_of c r))) = Some (f' (id (block_of c' r'))) /\
    from_option block_num (block_num (block_of c r)) (last bs) = block_num (block_of c' r').

(** The head, its state and the log are as before. *)
Record restored (c c' : controller) : Prop := {
  re_head : id (head_block c') = id (head_block c);
  re_content : db_content (c_db c') = db_content (c_db c);
  re_features : c_features c' = c_features c;
  re_revision : db_revision (c_db c') = db_revision (c_db c);
  re_log : c_log c' = c_log c }.

(** How an operation that follows the fork database ends *)
Definition outcome (c : controller) (r : ptr) (f : digest -> state) (res : controller * res unit) : Prop :=
  match res with
  | (c', Ok _) => exists r' h' f', chain_inv c' r' h' f' /\ advances c r f c' r' f'
  | (c', Throw e) => e = undefined_behavior \/
      (exists h' f', chain_inv c' r h' f' /\ advances c r f c' r f') /\ restored c c'
  end.

Lemma keeps_root (c c' : controller) r h f f' base :
  inv c r h f base -> keeps (c_fork c) (c_fork c') r -> agrees (c_fork c) r f f' ->
  id (block_of c' r) = id (block_of c r) /\ block_num (block_of c' r) = block_num (block_of c r) /\
  f' (id (block_of c r)) = f (id (block_of c r)).
Proof.
  intros I K A. pose proof (wf_root_valid _ _ _ (i_wf _ _ _ _ _ I)) as Hv.
  destruct (K r ltac:(by left) Hv) as (_ & _ & (? & ? & _)%same_shape_fields). split_and!; [done..|].
  apply A; [by left|done].
Qed.

(** Back at the head: the head has its state, and the log and the root are as they were. *)
Lemma back_at_head c r h f c' h' f' :
  chain_inv c r h f -> inv c' r h' f' (block_num (block_of c r)) -> id (head_block c') = id (head_block c) ->
  c_log c' = c_log c -> keeps (c_fork c) (c_fork c') r -> agrees (c_fork c) r f f' ->
  (exists h' f', chain_inv c' r h' f' /\ advances c r f c' r f') /\ restored c c'.
Proof.
  intros [I Hl] I' Eh El K A. destruct (keeps_root _ _ _ _ _ _ _ I K A) as (E1 & E2 & E3).
  assert (f' (id (head_block c)) = f (id (head_block c))) as Ef by (apply A; apply I). split.
  - exists h', f'. split; [split|].
    + by rewrite E2.
    + unfold log_ok in *. by rewrite El, E1, E2.
    + exists []. rewrite app_nil_r. cbn. by rewrite E1, E2, E3.
  - split; [done| | | |done].
    + by rewrite (i_content _ _ _ _ _ I'), (i_content _ _ _ _ _ I), Eh, Ef.
    + by rewrite (i_features _ _ _ _ _ I'), (i_features _ _ _ _ _ I), Eh, Ef.
    + rewrite (i_revision _ _ _ _ _ I'), (i_revision _ _ _ _ _ I).
      by rewrite <- (head_num _ _ _ _ _ I'), <- (head_num _ _ _ _ _ I), Eh.
Qed.

(** The blocks that were written lead from the old root to the new one. *)
Lemma advances_path c r h f base c1 h1 f1 base1 qs c2 r2 :
  inv c r h f base -> inv c1 r h1 f1 base1 -> keeps (c_fork c) (c_fork c1) r -> agrees (c_fork c) r f f1 ->
  path (c_fork c1) (id (block_of c1 r)) qs -> (forall p, p ∈ qs -> validated (block_of c1 p) = true) ->
  top (c_fork c1) (id (block_of c1 r)) qs = id (block_of c2 r2) ->
  num_from_id (id (block_of c2 r2)) = block_num (block_of c2 r2) ->
  c_log c2 = c_log c ++ ((fun p => id (block_of c1 p)) <$> qs) ->
  advances c r f c2 r2 f1.
Proof.
  intros I I1 K A P V T N L. destruct (keeps_root _ _ _ _ _ _ _ I K A) as (E1 & E2 & E3).
  destruct (inv_root _ _ _ _ _ I1) as [Ht _]. exists (block_of c1 <$> qs). split_and!.
  - rewrite L. by rewrite <- list_fmap_compose.
  - rewrite <- E3, <- E1, <- E2, <- T. apply (replay_path _ _ _ _ _ r Ht); [apply I1|by left|done..].
  - rewrite <- N, <- T, fmap_last. unfold top. destruct (last qs) as [q|] eqn:Eq; cbn.
    + symmetry. apply (node_num _ r); [done|right]. eapply path_in; [done|by apply last_Some_elem_of].
    + rewrite <- E2. symmetry. apply (node_num _ r); [done|by left].
Qed.

(** The head of the fork database is on the branch of the head: what is irreversible is
    written. *)
Lemma switched_outcome c r h f c' f' h' :
  irreversible_mode env = false -> chain_inv c r h f ->
  inv c' r h' f' (block_num (block_of c r)) -> desc (c_fork c') (id (block_of c' h')) (id (head_block c')) ->
  c_log c' = c_log c -> keeps (c_fork c) (c_fork c') r -> agrees (c_fork c) r f f' ->
  outcome c r f (log_irreversible env c').
Proof.
  intros Hm [I Hl] I' Eh El K A. destruct (keeps_root _ _ _ _ _ _ _ I K A) as (E1 & E2 & E3).
  rewrite <- E2 in I'.
  destruct (log_irreversible_spec c' r h' f' Hm I' Eh) as (c2 & r2 & ps & -> & I2 & L2 & P & T & V & G & B & _).
  { unfold log_ok in *. by rewrite El, E1, E2. }
  exists r2, h', f'. split; [by split|]. eapply advances_path; [exact I|exact I'|done..| |by rewrite G, El].
  apply (node_num (c_fork c2) r2); [apply (inv_root _ _ _ _ _ I2)|by left].
Qed.

Lemma keeps_refl d r : keeps d d r.
Proof. by intros x. Qed.
Lemma agrees_refl d r f : agrees d r f f.
Proof. by intros x. Qed.

Lemma same_chain_back c r h f c' :
  chain_inv c r h f -> same_chain c c' -> (exists h' f', chain_inv c' r h' f' /\ advances c r f c' r f') /\ restored c c'.
Proof.
  intros C S. pose proof (same_chain_inv _ _ _ _ _ _ S (ci_inv _ _ _ _ C)) as I'.
  apply (back_at_head c r h f c' h f); try done.
  - unfold head_block, block_of. by rewrite (s_fork _ _ S), (s_head _ _ S).
  - apply S.
  - rewrite (s_fork _ _ S). apply keeps_refl.
Qed.

(** The new head is on top of the head. *)
Lemma on_top_outcome c r h f t :
  irreversible_mode env = false -> chain_inv c r h f -> t ∈ index (c_fork c) -> preferred (c_fork c) r h t ->
  previous (block_of c t) = id (head_block c) ->
  outcome c r f (maybe_switch_forks env t complete c).
Proof.
  intros Hm C Ht Hpr Ep. pose proof (ci_inv _ _ _ _ C) as I. pose proof (i_wf _ _ _ _ _ I) as Wf.
  unfold maybe_switch_forks. rewrite op_bind_get, bool_decide_true by done.
  destruct (apply_block_spec c r h f _ t complete I Ht Ep) as [(c1 & h1 & f1 & E1 & I1 & Hh1 & M1 & L1 & A1)|(c1 & e & E1 & S1 & _)];
    [by left|rewrite (try_Ok _ _ _ _ _ E1)|rewrite (try_Throw _ _ _ _ _ E1)].
  - destruct (mark_fields _ _ _ _ _ t Wf Ht M1) as (Ei & _ & Hv).
    eapply switched_outcome; [done|done|exact I1| |done|by eapply mark_keeps|done].
    unfold head_block. rewrite Hh1. apply (leading_head _ r); [apply I1|apply Hv; by right|].
    apply (mark_leading (c_fork c) r h t); [done|done|done|apply I1|constructor|by apply preferred_leading].
  - destruct (same_chain_back _ _ _ _ _ C S1) as [(h' & f' & C1 & Ad1) R1].
    pose proof (same_chain_inv _ _ _ _ _ _ S1 I) as I1. pose proof (s_fork _ _ S1) as F1.
    destruct (validated (block_of c t)) eqn:Hv.
    + assert (h = t) as -> by (destruct Hpr as [|(_ & Hpv & _)]; [done|unfold block_of in Hv; congruence]).
      assert (fork_remove (id (block_of c t)) c1 = (c1, Throw fork_database_exception)) as Er.
      { unfold fork_remove. rewrite op_bind_get, F1.
        destruct (remove_impl_cases (c_fork c) (id (block_of c t)) t) as [(Hn & _)|[_ ->]];
          [apply (wf_tree _ _ _ Wf)|apply Wf| |done]. destruct Hn. constructor. }
      rewrite (op_bind_Throw _ _ _ _ _ Er). right. split; [by exists h', f'|done].
    + destruct (remove_inv c1 r h f _ t I1) as (d2 & E2 & I2 & K2 & D2).
      { by rewrite F1. }
      { unfold block_of. by rewrite F1. }
      replace (block_of c1 t) with (block_of c t) in E2 by (unfold block_of; by rewrite F1).
      rewrite (op_bind_Ok _ _ _ _ _ E2). right. rewrite F1 in K2, D2.
      apply (back_at_head c r h f (set_fork d2 c1) h f); try done.
      * unfold head_block, block_of. cbn [c_fork c_head set_fork]. by rewrite D2, (s_head _ _ S1).
      * apply (s_log _ _ S1).
Qed.

(** The id at the bottom of a branch is that of a block of the tree. *)
Lemma chain_bottom d r a p l : tree_wf d r -> node d r p -> chain d a (id (deref d p)) l ->
  exists q, node d r q /\ id (deref d q) = a.
Proof.
  intros Ht Hp Hc. remember (id (deref d p)) as i eqn:Ei. revert p Hp Ei.
  induction Hc as [|x l Hx _ IH]; intros p Hp Ei; [by exists p|].
  destruct (tw_linked _ _ Ht x Hx) as (q & Hq & E). by apply (IH q).
Qed.

(** The new head is on another branch, or further up. *)
Lemma branch_outcome c r h f t s :
  irreversible_mode env = false -> chain_inv c r h f -> node (c_fork c) r t -> preferred (c_fork c) r h t ->
  previous (block_of c t) <> id (head_block c) -> id (block_of c t) <> id (head_block c) ->
  outcome c r f (maybe_switch_forks env t s c).
Proof.
  intros Hm C Ht Hpr Hn1 Hn2. pose proof (ci_inv _ _ _ _ C) as I. destruct (inv_root _ _ _ _ _ I) as [Htr _].
  unfold maybe_switch_forks. rewrite op_bind_get, !bool_decide_false by done. cbn [negb].
  destruct (fetch_branch_from_disjoint (c_fork c) r Htr t (c_head c) (wf_root _ _ _ (i_wf _ _ _ _ _ I))
    Ht (i_head _ _ _ _ _ I)) as (a & first & second & E & C1 & C2 & _).
  change (fetch_branch_from_impl (c_fork c) (id (block_of c t)) (id (head_block c)) = Ok (first, second)) in E.
  rewrite E, op_bind_lift. cbv beta iota.
  assert (block_num (block_of c r) <= num_from_id a) as Hb.
  { destruct (chain_bottom _ _ _ _ _ Htr (i_head _ _ _ _ _ I) C2) as (q & Hq & <-).
    rewrite (node_num _ _ _ Htr Hq). by apply above_root. }
  assert (forall x, x ∈ second -> validated (block_of c x) = true) as Hv.
  { intros x Hx. apply (validated_below _ r f x (c_head c)); [done|apply I|by eapply chain_in|apply I|apply I|].
    apply chain_path in C2 as [P1 P2]. rewrite <- P2. apply path_desc; [done|]. by rewrite elem_of_rev_list. }
  assert (exists c1, (if bool_decide (second = []) then mret tt else _ ← pop_blocks env (length second); check_head second) c
      = (c1, Ok tt) /\ inv c1 r h f (block_num (block_of c r)) /\ c_fork c1 = c_fork c /\ id (head_block c1) = a /\
      c_log c1 = c_log c) as (c1 & E1 & I1 & F1 & H1 & L1).
  { case_bool_decide as Hnil.
    - subst second. exists c. split_and!; try done. by inversion C2.
    - destruct (pop_blocks_spec c r h f _ a second I C2 Hb) as (c1 & E1 & I1 & F1 & H1 & L1).
      exists c1. rewrite (op_bind_Ok _ _ _ _ _ E1). split_and!; try done. unfold check_head. rewrite op_bind_get.
      destruct (last second) as [b|] eqn:El; [|by apply last_None in El]. cbn [of_option]. rewrite op_bind_lift.
      apply last_Some in El as [l' ->]. apply chain_path in C2 as [P1 _]. rewrite rev_app_distr in P1.
      destruct P1 as (_ & Eb & _). unfold assert_. rewrite bool_decide_true; [done|].
      unfold block_of. by rewrite F1, H1, Eb. }
  rewrite (op_bind_Ok _ _ _ _ _ E1). apply chain_path in C1 as [P1 P2].
  assert (forall x, block_of c1 x = block_of c x) as B1 by (intros x; unfold block_of; by rewrite F1).
  destruct (apply_branch_spec c1 r h f _ (rev first) [] second a (id (head_block c)) t I1)
    as [(c2 & h2 & f2 & E2 & I2 & Hh2 & L2 & K2 & A2)|[[_ (c2 & E2)]|(c2 & h2 & f2 & e & E2 & I2 & Hh2 & L2 & K2 & A2)]];
    rewrite ?F1, ?H1, ?B1; try done.
  { by apply preferred_leading. }
  { constructor. }
  { by intros x ?%elem_of_nil. }
  { intros x. rewrite B1. apply Hv. }
  - cbn [length] in E2. rewrite (op_bind_Ok _ _ _ _ _ E2). rewrite F1 in K2, A2.
    eapply switched_outcome; [done..|congruence|done|done].
  - cbn [length] in E2. rewrite (op_bind_Throw _ _ _ _ _ E2). by left.
  - cbn [length] in E2. rewrite (op_bind_Throw _ _ _ _ _ E2). rewrite F1 in K2, A2. right.
    eapply back_at_head; [done..|congruence|done|done].
Qed.

Lemma maybe_switch_outcome c r h f t :
  irreversible_mode env = false -> chain_inv c r h f -> node (c_fork c) r t -> preferred (c_fork c) r h t ->
  outcome c r f (maybe_switch_forks env t complete c).
Proof.
  intros Hm C Hn Hpr. pose proof (ci_inv _ _ _ _ C) as I. destruct (inv_root _ _ _ _ _ I) as [Ht _].
  assert (previous (block_of c t) = id (head_block c) -> t ∈ index (c_fork c) /\ id (block_of c t) <> id (head_block c)) as Hp.
  { intros E. destruct Hn as [->|Hin].
    - pose proof (t_root _ _ _ (i_tree _ _ _ _ _ I)) as Hr. fold (block_of c r) in Hr.
      rewrite E, (head_num _ _ _ _ _ I) in Hr. pose proof (i_base _ _ _ _ _ I). lia.
    - split; [done|]. intros E'. rewrite <- E' in E. by apply (previous_ne _ _ _ _ Ht Hin Hin) in E. }
  destruct (decide (previous (block_of c t) = id (head_block c))) as [Ep|Ep]; [apply on_top_outcome with h; tauto|].
  destruct (decide (id (block_of c t) = id (head_block c))) as [E|E]; [|by eapply branch_outcome].
  unfold maybe_switch_forks. rewrite op_bind_get, bool_decide_false, bool_decide_true by auto.
  exists r, h, f. split; [done|]. exists []. by rewrite app_nil_r.
Qed.

(** ** Irreversible mode *)

(** All validated blocks are on the branch of the head. *)
Definition only_head (c : controller) (r : ptr) : Prop :=
  forall x, node (c_fork c) r x -> validated (block_of c x) = true -> desc (c_fork c) (id (block_of c x)) (id (head_block c)).

(** The head of a controller in irreversible mode is the head of the fork database, and
    its state is committed.  The fork database follows because the irreversible number does
    not decrease; were it to, its head would stay at the old root. *)
Record committed (c : controller) (r h : ptr) (f : digest -> state) : Prop := {
  cm_inv : inv c r h f (block_num (head_block c));
  cm_head : c_head c = h;
  cm_only : only_head c r;
  cm_lib : lib_grows (c_fork c) r }.

(** Applying the next block keeps all this but the commit. *)
Lemma apply_committed c r h f p :
  committed c r h f -> p ∈ index (c_fork c) -> previous (block_of c p) = id (head_block c) ->
  (exists c' f', apply_block env p complete c = (c', Ok tt) /\ inv c' r p f' (block_num (head_block c)) /\
     c_head c' = p /\ only_head c' r /\ lib_grows (c_fork c') r /\ mark_valid_impl (c_fork c) p = Ok (c_fork c') /\ c_log c' = c_log c /\
     agrees (c_fork c) r f f') \/
  (exists c' e, apply_block env p complete c = (c', Throw e) /\ same_chain c c').
Proof.
  intros [I Eh V G] Hp E. pose proof (i_wf _ _ _ _ _ I) as Wf. destruct (inv_root _ _ _ _ _ I) as [Ht _].
  destruct (apply_block_spec c r h f _ p complete I Hp E ltac:(by left))
    as [(c1 & h1 & f1 & E1 & I1 & Hh1 & M1 & L1 & A1)|(c1 & e & E1 & S1 & _)]; [left|right; eauto].
  destruct (mark_fields _ _ _ _ _ p Wf Hp M1) as (Ei & (Eid & _ & Epr & _)%same_shape_fields & Hv).
  assert (forall x, node (c_fork c) r x -> validated (block_of c x) = true \/ x = p ->
    desc (c_fork c) (id (block_of c x)) (id (block_of c p))) as Hd.
  { intros x Hx [Hxv| ->]; [|constructor]. constructor; [done|]. fold (block_of c p). rewrite E. by apply V. }
  assert (only_head c1 r) as V1.
  { intros x Hx Hxv. destruct (mark_fields _ _ _ _ _ x Wf Hp M1) as (_ & (Ex & _)%same_shape_fields & Hv').
    unfold head_block, block_of. rewrite Hh1, Ex, Eid. apply (mark_desc _ _ _ _ _ _ _ Wf Hp M1).
    apply Hd; [unfold node in *; by rewrite Ei in Hx|by apply Hv']. }
  assert (lib_grows (c_fork c1) r) as G1.
  { apply (lib_grows_sub (c_fork c) _ r); [done|by left|by rewrite Ei|].
    intros x _. apply (mark_fields _ _ _ _ _ x Wf Hp M1). }
  assert (h1 = p) as ->.
  { pose proof (i_wf _ _ _ _ _ I1) as Wf1. assert (p ∈ index (c_fork c1)) as Hp1 by (by rewrite Ei).
    destruct (lib_below (c_fork c1) r h1 p) as [|Hpr]; [apply Wf1|done|apply Wf1|by right| |done|].
    - pose proof (V1 h1 (wf_head_in _ _ _ Wf1) (wf_head_valid _ _ _ Wf1)) as H. unfold head_block in H. by rewrite Hh1 in H.
    - rewrite (wf_best _ _ _ Wf1 p Hp1) in Hpr; [done|]. apply Hv. by right. }
  exists c1, f1. by split_and!.
Qed.

(** The loop applies and writes the blocks up to the first one that fails. *)
Lemma log_loop_committed c r h f ps :
  irreversible_mode env = true -> committed c r h f -> path (c_fork c) (id (head_block c)) ps ->
  exists c' h' f' qs ex, log_loop env ps (id (head_block c)) c = (c', Ok (id (head_block c'), ex)) /\
    committed c' r h' f' /\ keeps (c_fork c) (c_fork c') r /\ agrees (c_fork c) r f f' /\
    path (c_fork c') (id (head_block c)) qs /\ top (c_fork c') (id (head_block c)) qs = id (head_block c') /\
    c_log c' = c_log c ++ ((fun p => id (block_of c' p)) <$> qs).
Proof.
  intros Hm. revert c h f. induction ps as [|p ps IH]; intros c h f C Hps; cbn [log_loop path] in *.
  { exists c, h, f, [], None. rewrite app_nil_r. by split_and!. }
  destruct Hps as (Hp & Ep & Hps). pose proof (cm_inv _ _ _ _ C) as I. pose proof (i_wf _ _ _ _ _ I) as Wf.
  destruct (apply_committed c r h f p C Hp Ep) as [(c1 & f1 & E1 & I1 & Hh1 & V1 & G1 & M1 & L1 & A1)|(c1 & e & E1 & S1)].
  - pose proof (mark_keeps _ _ _ _ _ Wf Hp M1) as K1.
    destruct (mark_path _ _ _ _ _ _ _ Wf Hp M1 Hps) as [P1 _].
    destruct (mark_fields _ _ _ _ _ p Wf Hp M1) as (Ei & (Eid & En & Epr & _)%same_shape_fields & _).
    assert (head_block c1 = block_of c1 p) as Hb1 by (unfold head_block; by rewrite Hh1).
    set (c2 := set_committed (block_num (block_of c1 p)) (id (block_of c1 p)) c1).
    assert (committed c2 r p f1) as C2.
    { split; [|done..]. change (block_num (head_block c2)) with (block_num (head_block c1)). rewrite Hb1.
      apply (committed_inv c1 r p f1 (block_num (head_block c))); [done|].
      rewrite <- Hb1. pose proof (i_base _ _ _ _ _ I1). lia. }
    destruct (IH c2 p f1 C2) as (c3 & h3 & f3 & qs & ex & E3 & C3 & K3 & A3 & P3 & T3 & L3).
    { change (head_block c2) with (head_block c1). rewrite Hb1. unfold block_of. by rewrite Eid. }
    change (head_block c2) with (head_block c1) in *. rewrite Hb1 in *. change (c_fork c2) with (c_fork c1) in *.
    assert (p ∈ index (c_fork c3) /\ id (deref (c_fork c3) p) = id (block_of c1 p) /\
      previous (deref (c_fork c3) p) = id (head_block c)) as (Hp3 & Ei3 & Ep3).
    { destruct (K3 p) as (Hn & _ & (Es1 & _ & Es2 & _)%same_shape_fields).
      - right. by rewrite Ei.
      - apply (mark_fields _ _ _ _ _ p Wf Hp M1). by right.
      - split_and!; [|done|by rewrite Es2, Epr, Ep]. destruct Hn as [->|]; [|done].
        by destruct (root_not_in_index _ _ (wf_tree _ _ _ Wf)). }
    exists c3, h3, f3, (p :: qs), ex. split_and!; [|done|by eapply keeps_trans|by eapply agrees_trans|..].
    + unfold mbind at 1, op_bind at 1. unfold try_. rewrite Hm, (op_bind_Ok _ _ _ _ _ E1).
      rewrite op_bind_get, emit_step, (q_append Q), op_bind_lift, op_bind_modify, (q_state Q), op_bind_lift.
      unfold modify. rewrite op_bind_get. exact E3.
    + cbn [path]. by rewrite Ei3.
    + by rewrite top_cons, Ei3.
    + rewrite L3. change (c_log c2) with (c_log c1 ++ [id (block_of c1 p)]). rewrite L1, <- app_assoc, fmap_cons.
      unfold block_of at 3. by rewrite Ei3.
  - exists c1, h, f, [], (Some e). pose proof (same_chain_inv _ _ _ _ _ _ S1 I) as I1.
    destruct S1 as [F1 Hh1 _ L1 _ _ _]. destruct C as [_ Eh V G].
    assert (head_block c1 = head_block c) as Hb1 by (unfold head_block, block_of; by rewrite F1, Hh1).
    split_and!; rewrite ?F1, ?Hb1.
    + unfold mbind at 1, op_bind at 1. unfold try_. rewrite Hm, (op_bind_Throw _ _ _ _ _ E1). done.
    + split; [by rewrite Hb1|congruence| |by rewrite F1]. unfold only_head, block_of in *. rewrite F1, Hb1. done.
    + apply keeps_refl.
    + apply agrees_refl.
    + done.
    + done.
    + by rewrite L1, app_nil_r.
Qed.

(** Between blocks, the head of a controller in irreversible mode is the root. *)
Definition settled (c : controller) (r : ptr) : Prop :=
  c_head c = r /\ (forall x, x ∈ index (c_fork c) -> validated (block_of c x) = false) /\ lib_grows (c_fork c) r.

Lemma settled_committed c r h f : chain_inv c r h f -> settled c r -> committed c r r f.
Proof.
  intros [I _] (Eh & Hv & G). pose proof (i_wf _ _ _ _ _ I) as Wf.
  assert (h = r) as ->.
  { destruct (wf_head_in _ _ _ Wf) as [|Hh]; [done|]. pose proof (wf_head_valid _ _ _ Wf) as H.
    unfold block_of in Hv. by rewrite Hv in H. }
  split; [unfold head_block; by rewrite Eh|done| |done]. unfold only_head, head_block. rewrite Eh.
  intros x [->|Hx] Hxv; [constructor|]. by rewrite Hv in Hxv.
Qed.

(** Above the head there is no validated block. *)
Lemma advanced_settled c r h f d' q :
  committed c r h f -> c_head c = q -> (forall x, deref d' x = deref (c_fork c) x) ->
  (forall p, p ∈ index d' -> p ∈ index (c_fork c) /\ p <> q /\ desc (c_fork c) (id (block_of c q)) (id (block_of c p))) ->
  settled (set_fork d' c) q.
Proof.
  intros [I Eh V G] Eq Hd Hin. split_and!; [done| |].
  2: { apply (lib_grows_sub (c_fork c) _ r); [done|rewrite <- Eq; apply I|intros x; apply Hin|].
       intros x _. cbn [c_fork set_fork]. by rewrite Hd. }
  intros x (Hx & Hne & Hdx)%Hin. unfold block_of. cbn [c_fork set_fork].
  rewrite Hd. destruct (validated (deref (c_fork c) x)) eqn:Hv; [|done]. exfalso.
  destruct (inv_root _ _ _ _ _ I) as [Ht _]. pose proof (tw_forest _ _ Ht) as Hf.
  pose proof (V x ltac:(by right) Hv) as Hxq. apply desc_num in Hxq; [|done]. unfold head_block in Hxq. rewrite Eq in Hxq.
  apply desc_inv in Hdx as [E|Hdx]; [| |done..].
  - apply Hne. symmetry. apply (node_inj _ _ _ _ Ht); [rewrite <- Eq; apply I|by right|done].
  - apply desc_num in Hdx; [|done]. destruct (fw_header _ Hf x Hx) as [N1 N2]. unfold block_of in *. lia.
Qed.

Lemma committed_at_root c r h f : committed c r h f -> c_head c = r -> log_ok c r -> chain_inv c r r f /\ settled c r.
Proof.
  intros [I Eh V G] Er Hl. assert (h = r) as -> by congruence. destruct (inv_root _ _ _ _ _ I) as [Ht _].
  unfold only_head, head_block in *. rewrite Er in *. split; [by split|]. split_and!; [done| |done]. intros x Hx.
  destruct (validated (block_of c x)) eqn:Hv; [|done]. exfalso.
  pose proof (V x ltac:(by right) Hv) as Hd. apply desc_num in Hd; [|apply Ht]. unfold block_of in Hd.
  rewrite (tw_root _ _ Ht), (node_num _ _ _ Ht (or_intror Hx)) in Hd. pose proof (tw_above _ _ Ht x Hx). lia.
Qed.

(** After the loop the root goes up to the head. *)
Lemma advance_to_head c r h f i qs :
  committed c r h f -> path (c_fork c) (id (block_of c r)) qs -> top (c_fork c) (id (block_of c r)) qs = id (head_block c) ->
  log_ok (set_log i c) r -> c_log c = i ++ ((fun p => id (block_of c p)) <$> qs) ->
  exists d' r', (if bool_decide (id (head_block c) = id (block_of c r)) then mret tt
                 else fork_advance_root (id (head_block c))) c = (set_fork d' c, Ok tt) /\
    chain_inv (set_fork d' c) r' r' f /\ settled (set_fork d' c) r' /\ block_of (set_fork d' c) r' = head_block c.
Proof.
  intros C P T Hl L. pose proof (cm_inv _ _ _ _ C) as I. destruct (inv_root _ _ _ _ _ I) as [Ht _].
  destruct (decide (c_head c = r)) as [Er|Er].
  - assert (head_block c = block_of c r) as Eb by (unfold head_block; by rewrite Er). rewrite Eb, bool_decide_true by done.
    assert (qs = []) as ->.
    { destruct (last qs) as [q|] eqn:El; [|by apply last_None in El]. unfold top in T. rewrite El, Eb in T.
      exfalso. apply (root_not_in_ids _ _ q Ht); [eapply path_in; [done|by apply last_Some_elem_of]|done]. }
    exists (c_fork c), r. replace (set_fork (c_fork c) c) with c by (by destruct c). split; [done|].
    rewrite app_nil_r in L. destruct (committed_at_root c r h f C Er) as [? ?]; [|done].
    unfold log_ok in *. rewrite L. done.
  - destruct (i_head _ _ _ _ _ I) as [|Hq]; [done|]. rewrite bool_decide_false by (by apply root_not_in_ids).
    destruct (advance_inv c r h f (c_head c) I Hq) as (d' & E & I' & Hd & Hin);
      [rewrite (cm_head _ _ _ _ C); constructor|constructor|].
    exists d', (c_head c). split; [done|].
    assert (block_of (set_fork d' c) (c_head c) = head_block c) as Eb by apply Hd.
    assert (h = c_head c) as -> by (symmetry; apply C). split_and!; [|by eapply advanced_settled|done].
    split; [by rewrite Eb|]. unfold log_ok. cbn [c_log set_fork]. rewrite L, last_app, fmap_last, Eb.
    unfold top in T. destruct (last qs) as [q|]; [exact T|]. exfalso. apply Er.
    apply (node_inj _ _ _ _ Ht); [by right|by left|done].
Qed.

(** In irreversible mode, [log_irreversible] ends with a head that is the root, whether or
    not a block could not be applied. *)
Lemma log_committed_outcome c r h f c' res :
  irreversible_mode env = true -> chain_inv c r h f -> settled c r -> log_irreversible env c = (c', res) ->
  exists r' f', chain_inv c' r' r' f' /\ settled c' r' /\ advances c r f c' r' f'.
Proof.
  intros Hm C0 S. pose proof (settled_committed _ _ _ _ C0 S) as Cm. pose proof (ci_log _ _ _ _ C0) as Hl.
  pose proof (cm_inv _ _ _ _ Cm) as I.
  assert (head_block c = block_of c r) as Ehb by (unfold head_block; by rewrite (cm_head _ _ _ _ Cm)).
  destruct (pending_head_spec (c_fork c) r r) as (t & Et & Hn & _); [apply I|].
  destruct (log_irreversible_start c r r f _ t I Hl) as (ps & Hps & _ & E); [by unfold fork_db_head; rewrite Hm, Et|done|].
  destruct E as [-> | ->].
  { intros [= <- <-]. exists r, f. split_and!; [split; [by rewrite <- Ehb|done]|done|]. exists []. by rewrite app_nil_r. }
  rewrite <- Ehb in Hps |- *.
  destruct (log_loop_committed c r r f ps Hm Cm Hps) as (c1 & h1 & f1 & qs & ex & E1 & C1 & K1 & A1 & P1 & T1 & L1).
  rewrite (op_bind_Ok _ _ _ _ _ E1). cbv beta iota. pose proof (cm_inv _ _ _ _ C1) as I1.
  destruct (keeps_root _ _ _ _ _ _ _ I K1 A1) as (R1 & R2 & _). rewrite Ehb, <- R1 in *.
  destruct (advance_to_head c1 r h1 f1 (c_log c) qs C1 P1 T1) as (d' & r' & E2 & C2 & S2 & B2).
  { unfold log_ok in *. cbn [c_log set_log]. change (block_of (set_log (c_log c) c1) r) with (block_of c1 r). by rewrite R1, R2. }
  { done. }
  rewrite (op_bind_Ok _ _ _ _ _ E2). intros E. assert (c' = set_fork d' c1) as -> by (by destruct ex; injection E as <-).
  exists r', f1. split_and!; [done|done|].
  apply (advances_path c r r f _ c1 h1 f1 _ qs _ r' I I1); try done; rewrite ?B2; [|done|by eapply head_num].
  intros p Hp. destruct (inv_root _ _ _ _ _ I1) as [Ht1 _].
  apply (validated_below _ r f1 p (c_head c1) Ht1); [apply I1|by eapply path_in|apply I1|apply I1|].
  change (id (deref (c_fork c1) (c_head c1))) with (id (head_block c1)). rewrite <- T1. by apply path_desc.
Qed.

(** ** Receiving a block *)

(** A block state is made for the block and pushed. *)
Definition receive (b : block_state) : op unit := fun c =>
  let '(p, d) := make_shared (c_fork c) b in push_block env p (set_fork d c).

(** The header is numbered after its parent's.  In irreversible mode, its irreversible block
    number is moreover not below the parent's; this is an assumption about the chain, which
    the code does not check and which [dpos_irreversible_can_decrease] shows can fail. *)
Definition header_follows (c : controller) (b : block_state) : Prop :=
  header_wf b /\ validated b = false /\ block_num b < not_active /\
  (irreversible_mode env = true -> forall q, q ∈ index (c_fork c) \/ root (c_fork c) = Some q -> previous b = id (block_of c q) ->
    dpos_irreversible_blocknum (block_of c q) <= dpos_irreversible_blocknum b).

Lemma outcome_trans c c1 r f f1 res :
  restored c c1 -> f1 (id (block_of c1 r)) = f (id (block_of c r)) -> block_num (block_of c1 r) = block_num (block_of c r) ->
  outcome c1 r f1 res -> outcome c r f res.
Proof.
  intros R Ef En. pose proof (re_log _ _ R) as El. destruct res as [c' [u|e]]; cbn.
  - intros (r' & h' & f' & C' & bs & L & Re & La). exists r', h', f'. split; [done|]. exists bs.
    rewrite L, El, <- Ef, <- En. done.
  - intros [|[(h' & f' & C' & bs & L & Re & La) R']]; [by left|right]. split.
    + exists h', f'. split; [done|]. exists bs. rewrite L, El, <- Ef, <- En. done.
    + destruct R, R'. split; congruence.
Qed.

Lemma receive_inv c r h f base b :
  inv c r h f base ->
  let '(p, d) := make_shared (c_fork c) b in
  inv (set_fork d c) r h f base /\ keeps (c_fork c) d r /\ p ∉ index d /\ heap d !! p = Some b /\ p <> r /\
  index d = index (c_fork c) /\ root d = root (c_fork c) /\ forall x, node (c_fork c) r x -> deref d x = deref (c_fork c) x.
Proof.
  intros I. pose proof (i_wf _ _ _ _ _ I) as Wf. pose proof (make_shared_wf _ _ _ b Wf) as Wf'.
  unfold make_shared in *. cbn [snd] in Wf'. pose proof (is_fresh (dom (heap (c_fork c)))) as Hfr.
  set (p := fresh _) in *. set (d := set_heap _ _) in *.
  assert (forall x, node (c_fork c) r x -> x <> p) as Hne.
  { intros x Hx ->. apply Hfr, elem_of_dom, (wf_alive _ _ _ Wf), Hx. }
  assert (forall x, node (c_fork c) r x -> deref d x = deref (c_fork c) x) as Hd.
  { intros x Hx%Hne. unfold deref, d, set_heap; cbn. by rewrite lookup_total_insert_ne. }
  assert (p ∉ index (c_fork c)) as Hp by (intros Hp; by apply (Hne p); [right|]).
  split_and!; [|intros x Hx Hv; by rewrite (Hd x Hx)|done|cbn; by rewrite lookup_insert_eq|
               intros E; by apply (Hne p); [left|]|done|done|done].
  assert (forall x, node (c_fork c) r x -> block_of (set_fork d c) x = block_of c x) as Hb by apply Hd.
  split; unfold head_block; change (c_head (set_fork d c)) with (c_head c);
    rewrite ?(Hb _ (i_head _ _ _ _ _ I)), ?(Hb r) by (by left);
    cbn [c_fork c_head c_db c_features set_fork]; try apply I; [done|..].
  - apply (same_tree_inv (c_fork c)); [apply I|done|done].
  - destruct (i_history _ _ _ _ _ I) as (l & Hc & Hh). exists l.
    assert (forall x, x ∈ l -> x ∈ index (c_fork c)) as Hl by (intros; by eapply chain_in). split.
    + apply (chain_ext (c_fork c)); [|done]. intros x Hx. rewrite Hd by (right; auto). auto.
    + rewrite Hh. f_equal. apply list_fmap_ext. intros k x Hx%list_elem_of_lookup_2. by rewrite Hb by (right; auto).
Qed.

(** A block that is added is not validated, so it changes no state. *)
Lemma add_inv c r h f base p :
  inv c r h f base -> p ∉ index (c_fork c) -> is_Some (heap (c_fork c) !! p) -> header_follows c (block_of c p) ->
  match fork_add p c with
  | (c', Ok _) => exists h' d', c' = set_fork d' c /\ inv c' r h' f base /\ keeps (c_fork c) d' r /\
      (irreversible_mode env = true -> lib_grows (c_fork c) r -> lib_grows d' r) /\ forall x, deref d' x = deref (c_fork c) x /\ (x ∈ index d' -> x ∈ index (c_fork c) \/ x = p)
  | (c', Throw _) => c' = c
  end.
Proof.
  intros I Hp Ha (Hw & Hv & Hs & Hlib). pose proof (i_wf _ _ _ _ _ I) as Wf. destruct (inv_root _ _ _ _ _ I) as [Ht Hr].
  unfold fork_add. rewrite op_bind_get. destruct (add (c_fork c) (Some p) false) as [d'|e] eqn:E; [|done].
  rewrite op_bind_lift. cbn. unfold add in E. destruct (add_wf _ _ _ _ _ _ _ _ Wf Ha Hw E) as [h' Wf'].
  destruct (add_impl_Ok _ _ _ _ _ r _ (wf_root _ _ _ Wf) E) as (q & Hq & Eq & [[Hdup ->]|(Hnew & k & l & _ & Ed)]).
  { exists h', (c_fork c). split_and!; [done| |apply keeps_refl|done|intros x; split; [done|by left]]. destruct I. by split. }
  assert (index d' = index (c_fork c) ++ [p] /\ (forall x, deref d' x = deref (c_fork c) x)) as [Ei Hd].
  { rewrite Ed. clear. by case_match. }
  clear Ed. assert (forall x, x ∈ index d' <-> x ∈ index (c_fork c) \/ x = p) as Hin.
  { intros x. rewrite Ei, elem_of_app. by rewrite list_elem_of_singleton. }
  assert (forall x, node (c_fork c) r x -> node d' r x) as Hnode by (intros x [->|Hx]; [by left|right; apply Hin; by left]).
  assert (forall x, block_of (set_fork d' c) x = block_of c x) as Hb by apply Hd.
  assert (forall x, node d' r x -> validated (deref d' x) = true -> node (c_fork c) r x) as Hnv.
  { intros x [->|[Hx| ->]%Hin] Hxv; [by left|by right|]. rewrite Hd in Hxv. unfold block_of in Hv. congruence. }
  assert (forall x, node (c_fork c) r x -> id (deref (c_fork c) p) <> id (deref (c_fork c) x)) as Hpid.
  { intros x [->|Hx] Ex.
    - destruct Hw as [W1 W2]. unfold block_of in *. rewrite Eq in W2. rewrite Ex in W1.
      rewrite (node_num _ _ _ Ht Hq) in W2. rewrite (tw_root _ _ Ht) in W1. pose proof (above_root _ _ Ht _ Hq). lia.
    - apply Hnew, elem_of_ids. by exists x. }
  exists h', d'. split_and!; [done| |intros x Hx Hxv; rewrite Hd; by split_and!; [apply Hnode|..]| |
                             intros x; split; [done|apply Hin]].
  2: { intros Hm G x y [Hx| ->]%Hin Hy Exy; rewrite !Hd in *.
       - destruct Hy as [->|[Hy| ->]%Hin]; [apply G; [done|by left|done]|apply G; [done|by right|done]|].
         destruct (tw_linked _ _ Ht x Hx) as (z & Hz & Ez). destruct (Hpid z Hz). congruence.
       - destruct Hy as [->|[Hy| ->]%Hin]; [apply (Hlib Hm r); [right; apply Wf|done]|apply (Hlib Hm y); [by left|done]|lia]. }
  split; unfold head_block; rewrite ?Hb; cbn [c_fork c_head c_db c_features set_fork]; try apply I; [done|..].
  - pose proof (i_tree _ _ _ _ _ I) as T. split; rewrite ?Hd; try apply T.
    + intros x Hx Hxv. destruct (Hnv x ltac:(by right) Hxv) as [->|Hx']; [by apply root_not_in_index in Hx; [|apply Wf']|].
      rewrite Hd in *. destruct (t_runs _ _ _ T x Hx' Hxv) as (y & Hy & ?). exists y. rewrite Hd. split; [by apply Hnode|done].
    + intros x Hx Hxv. pose proof (Hnv x Hx Hxv). rewrite Hd in *. by apply T.
    + intros x [Hx| ->]%Hin; rewrite Hd; [by apply T|done].
  - apply Hnode, I.
  - destruct (i_history _ _ _ _ _ I) as (l' & Hc & Hh). exists l'. split.
    + apply (chain_ext (c_fork c)); [|done]. intros x Hx. rewrite Hd. split_and!; [|done|done].
      apply Hin. left. by eapply chain_in.
    + rewrite Hh. f_equal. apply list_fmap_ext. intros. by rewrite Hb.
Qed.

(** A change of the fork database that keeps the validated blocks *)
Lemma fork_changed c r h f d' h' :
  chain_inv c r h f -> inv (set_fork d' c) r h' f (block_num (block_of c r)) -> keeps (c_fork c) d' r ->
  chain_inv (set_fork d' c) r h' f /\ restored c (set_fork d' c) /\
  forall res, outcome (set_fork d' c) r f res -> outcome c r f res.
Proof.
  intros C I' K. pose proof (ci_inv _ _ _ _ C) as I.
  destruct (keeps_root c (set_fork d' c) r h f f _ I K ltac:(apply agrees_refl)) as (E1 & E2 & _).
  assert (restored c (set_fork d' c)) as R.
  { split; try done. destruct (K (c_head c)) as (_ & _ & (? & _)%same_shape_fields); [apply I|apply I|done]. }
  split_and!; [|done|].
  - split; [by rewrite E2|]. pose proof (ci_log _ _ _ _ C) as Hl. unfold log_ok in *. cbn [c_log set_fork].
    by rewrite E1, E2.
  - intros res. apply outcome_trans; [done|by rewrite E1|done].
Qed.

Lemma unchanged_outcome c r h f e : chain_inv c r h f -> outcome c r f (c, Throw e).
Proof.
  intros C. right. apply (back_at_head c r h f c h f); try done; apply C.
Qed.

(** What [push_block] does once the block is in the fork database *)
Definition follow_fork_db : op unit :=
  if negb (irreversible_mode env) then
    c ← get;
    new_head ← lift (h ← pending_head (c_fork c); of_option undefined_behavior h);
    maybe_switch_forks env new_head complete
  else log_irreversible env.

Lemma fresh_block c r h f b :
  chain_inv c r h f -> header_follows c b ->
  let '(p, d) := make_shared (c_fork c) b in
  chain_inv (set_fork d c) r h f /\ keeps (c_fork c) d r /\ p ∉ index d /\ is_Some (heap d !! p) /\
  block_of (set_fork d c) p = b /\ header_follows (set_fork d c) b /\ index d = index (c_fork c) /\
  (forall x, node (c_fork c) r x -> deref d x = deref (c_fork c) x) /\
  forall res, outcome (set_fork d c) r f res -> outcome c r f res.
Proof.
  intros C (Hw & Hv & Hs & Hlib).
  pose proof (receive_inv c r h f _ b (ci_inv _ _ _ _ C)) as R. destruct (make_shared (c_fork c) b) as [p d].
  destruct R as (I1 & K1 & Hp & Hheap & Hpr & Ei & Er & Hd). destruct (fork_changed _ _ _ _ _ _ C I1 K1) as (C1 & _ & O1).
  split_and!; try done; [unfold block_of, deref; cbn; by apply lookup_total_correct|]. split_and!; [done..|].
  cbn [c_fork set_fork]. intros Hm q Hq. assert (node (c_fork c) r q) as Hn.
  { rewrite Ei, Er in Hq. destruct Hq as [|Hq]; [by right|left].
    pose proof (wf_root _ _ _ (i_wf _ _ _ _ _ (ci_inv _ _ _ _ C))). congruence. }
  unfold block_of. cbn [c_fork set_fork]. rewrite (Hd q Hn). apply (Hlib Hm). by rewrite <- Ei, <- Er.
Qed.

Lemma receive_cases c r h f b :
  chain_inv c r h f -> header_follows c b ->
  exists d h', chain_inv (set_fork d c) r h' f /\ keeps (c_fork c) d r /\
    (forall x, x ∈ index d -> validated (deref d x) = true -> x ∈ index (c_fork c) /\ validated (block_of c x) = true) /\
    (irreversible_mode env = true -> lib_grows (c_fork c) r -> lib_grows d r) /\
    (receive b c = (set_shutdown true (set_fork d c), Ok tt) \/ (exists e, receive b c = (set_fork d c, Throw e)) \/
     receive b c = follow_fork_db (set_fork d c)).
Proof.
  intros C Hf. unfold receive. pose proof (fresh_block c r h f b C Hf) as R. destruct (make_shared (c_fork c) b) as [p d].
  destruct R as (C1 & K1 & Hp & Ha & Eb & Hf1 & Ei & Hd & _). pose proof Hf as (_ & Hv & _).
  assert (forall x, x ∈ index d -> validated (deref d x) = true -> x ∈ index (c_fork c) /\ validated (block_of c x) = true) as Hval.
  { intros x Hx. rewrite Ei in Hx. by rewrite Hd by (by right). }
  assert (lib_grows (c_fork c) r -> lib_grows d r) as G1.
  { intros G. apply (lib_grows_sub (c_fork c) _ r); [done|by left|by rewrite Ei|]. intros x Hx. by rewrite (Hd x Hx). }
  unfold push_block. rewrite op_bind_get. destruct (_ && _).
  { exists d, h. split_and!; [done..|]. by left. }
  rewrite emit_step. pose proof (add_inv (set_fork d c) r h f _ p (ci_inv _ _ _ _ C1) Hp) as Ad. rewrite Eb in Ad.
  specialize (Ad Ha Hf1). destruct (fork_add p (set_fork d c)) as [c2 [u|e]] eqn:E2.
  - destruct Ad as (h2 & d2 & -> & I2 & K2 & G2 & D2). destruct (fork_changed _ _ _ _ _ _ C1 I2 K2) as (C2 & _).
    exists d2, h2. split_and!; [done|by eapply keeps_trans|..].
    + intros x Hx. destruct (D2 x) as [-> Hin]. intros Hxv. apply Hval; [|done].
      destruct (Hin Hx) as [| ->]; [done|]. unfold block_of in Eb. cbn [c_fork set_fork] in *. by rewrite Eb, Hv in Hxv.
    + intros Hm G. by apply G2, G1.
    + right; right. by rewrite (op_bind_Ok _ _ _ _ _ E2), emit_step.
  - subst c2. exists d, h. split_and!; [done..|]. right; left. exists e. by rewrite (op_bind_Throw _ _ _ _ _ E2).
Qed.

Lemma receive_outcome c r h f b :
  irreversible_mode env = false -> chain_inv c r h f -> header_follows c b -> outcome c r f (receive b c).
Proof.
  intros Hm C Hf. destruct (receive_cases c r h f b C Hf) as (d & h' & C1 & K & _ & _ & E).
  destruct (fork_changed c r h f d h' C) as (_ & R & O); [|done|].
  { destruct (keeps_root c (set_fork d c) r h f f _ (ci_inv _ _ _ _ C) K ltac:(apply agrees_refl)) as (_ & <- & _).
    apply C1. }
  apply O. destruct E as [-> |[[e ->]| ->]].
  - exists r, h', f. destruct C1 as [[] ?]. split; [by split; [split|]|]. exists []. by rewrite app_nil_r.
  - by eapply unchanged_outcome.
  - unfold follow_fork_db. rewrite Hm. cbn [negb]. rewrite op_bind_get.
    destruct (pending_head_spec d r h') as (t & Et & Ht & Hpre); [apply (ci_inv _ _ _ _ C1)|].
    cbn [c_fork set_fork]. rewrite Et. cbn [mbind result_bind of_option].
    erewrite op_bind_Ok by reflexivity. by eapply maybe_switch_outcome.
Qed.

(** ** Producing a block *)

(** A block state is made for the assembled block, which is committed. *)
Definition produce (b : block_state) : op unit := fun c =>
  let '(p, d) := make_shared (c_fork c) b in produce_block env p (set_fork d c).

Lemma fork_add_eq p (c : controller) :
  fork_add p c = match add (c_fork c) (Some p) false with Ok d => (set_fork d c, Ok tt) | Throw e => (c, Throw e) end.
Proof. unfold fork_add. rewrite op_bind_get. by destruct (add _ _ _). Qed.

(** A block on top of the head is marked: the head may stay, or the block becomes the head. *)
Lemma marked_inv c r h f base p y :
  inv c r h f base -> p ∈ index (c_fork c) -> validated (block_of c p) = false ->
  previous (block_of c p) = id (head_block c) ->
  leads (block_of c p) (block_num (head_block c)) (f (id (head_block c))) y -> features_upto (block_num (block_of c p)) y.2 ->
  exists d' h' f', mark_valid_impl (c_fork c) p = Ok d' /\ head d' = Some h' /\ inv (set_fork d' c) r h' f' base /\
    inv (set_chain_head p (set_fork d' (set_features y.2 (set_database (db_write y.1 (db_start (c_db c))) c)))) r h' f' base /\
    keeps (c_fork c) d' r /\ agrees (c_fork c) r f f'.
Proof.
  intros I Hp Hv E L G. pose proof (i_wf _ _ _ _ _ I) as Wf. destruct (inv_root _ _ _ _ _ I) as [Ht _].
  destruct (mark_valid_cases _ _ _ p Wf Hp) as (d' & h' & Em & Wf' & Ei & Hs & Hval & _ & _).
  pose proof (mark_keeps _ _ _ _ _ Wf Hp Em) as K.
  assert (agrees (c_fork c) r f (upd f (id (block_of c p)) y)) as A.
  { intros x Hx Hxv. apply upd_ne. intros Ex. assert (x = p) as ->; [|unfold block_of in *; congruence].
    apply (node_inj _ _ _ _ Ht Hx); [by right|done]. }
  assert (tree_inv d' r (upd f (id (block_of c p)) y)) as T'.
  { apply (mark_tree_inv (c_fork c) d' r f p (c_head c)); try done; apply I. }
  exists d', h', (upd f (id (block_of c p)) y). split_and!; [done|apply Wf'| |apply (applied_inv c r h f base p y); try done|done|done].
  2: { apply Hval. by right. }
  destruct (K (c_head c)) as (Hn & Hv' & (E1 & E2 & _)%same_shape_fields); [apply I|apply I|].
  destruct (i_history _ _ _ _ _ I) as (l & Hc & Hh).
  split; unfold head_block, block_of; cbn [c_fork c_head c_db c_features set_fork]; rewrite ?E1, ?E2; try done.
  - rewrite (i_content _ _ _ _ _ I). symmetry. f_equal. apply A; apply I.
  - rewrite (i_features _ _ _ _ _ I). symmetry. f_equal. apply A; apply I.
  - apply I.
  - destruct (same_shape_fields _ _ (Hs r)) as (_ & -> & _). apply I.
  - exists l. destruct (same_shape_fields _ _ (Hs r)) as (-> & _). split; [by apply (mark_chain _ _ _ _ _ _ _ _ Wf Hp Em)|].
    rewrite Hh. unfold head_block, block_of. f_equal. apply list_fmap_ext. intros k x Hx%list_elem_of_lookup_2.
    destruct (same_shape_fields _ _ (Hs x)) as (_ & _ & -> & _). symmetry. f_equal.
    destruct (parent_node _ _ _ Ht (chain_in _ _ _ _ _ Hc Hx)) as (q & Hq & Eq & _). rewrite Eq. apply A; [done|].
    apply (t_parent _ _ _ x q Ht (i_tree _ _ _ _ _ I)); [by eapply chain_in| |done|done].
    apply (validated_below _ r f x (c_head c)); [done|apply I|by eapply chain_in|apply I|apply I|].
    apply chain_path in Hc as [P1 P2]. change (id (deref (c_fork c) (c_head c))) with (id (head_block c)).
    rewrite <- P2. apply path_desc; [done|]. by rewrite elem_of_rev_list.
Qed.

(** The pending block, whose session is open, and what [abort_block] makes of it *)
Definition pending (m : protocol_feature_manager) (content : @protocol_state_object W) (c : controller) : controller :=
  set_features m (set_database (db_write content (db_start (c_db c))) c).

Lemma abort_spec c d m content e :
  popped_blocks_to m (block_num (head_block (set_fork d c))) = Ok (c_features c) ->
  exists c', (_ ← modify (fun c => set_database (db_undo (c_db c)) c); c ← get;
              _ ← pop_features (block_num (head_block c)); throw (A:=unit) e) (set_fork d (pending m content c))
             = (c', Throw e) /\ same_chain (set_fork d c) c'.
Proof.
  intros Hp. rewrite op_bind_modify, op_bind_get. unfold pop_features.
  erewrite op_bind_Ok; [|rewrite op_bind_get; cbn [c_features pending set_features set_database set_fork];
    change (head_block (set_database _ (set_fork d (pending m content c)))) with (head_block (set_fork d c));
    rewrite Hp, op_bind_lift; reflexivity].
  eexists. split; [done|]. pose proof (write_history content (db_start (c_db c))) as Hh. rewrite start_history in Hh.
  split; cbn; try done.
  - eapply undo_content, Hh.
  - eapply undo_history, Hh.
  - rewrite (undo_revision _ _ _ Hh), write_revision, start_revision. lia.
Qed.

Lemma add_in d p d' : add d (Some p) false = Ok d' -> p ∈ index d'.
Proof.
  unfold add, add_impl. intros (? & _ & H)%bind_Ok. apply bind_Ok in H as (n & [= <-] & H).
  apply bind_Ok in H as (? & _ & H). apply bind_Ok in H as (? & _ & H). apply bind_Ok in H as (? & _ & H).
  destruct (find_id _ _); [done|]. destruct (by_lib_block_num _); [done|]. injection H as <-.
  case_match; cbn; apply elem_of_app; right; by left.
Qed.

(** What is done inside [commit_block] before anything is aborted *)
Definition commit_body (p : ptr) : op unit :=
  _ ← (_ ← fork_add p; _ ← fork_mark_valid p; c ← get; _ ← emit env (accepted_block_header (id (block_of c p)));
       c ← get; assert_ (bool_decide (head (c_fork c) = Some p)) fork_database_exception);
  _ ← modify (set_chain_head p);
  c ← get;
  _ ← emit env (accepted_block (id (block_of c p)));
  log_irreversible env.

Lemma commit_aborted c r h f p m content d h' f' e :
  chain_inv c r h f -> inv (set_fork d c) r h' f' (block_num (block_of c r)) ->
  keeps (c_fork c) d r -> agrees (c_fork c) r f f' ->
  popped_blocks_to m (block_num (head_block c)) = Ok (c_features c) ->
  commit_body p (pending m content c) = (set_fork d (pending m content c), Throw e) ->
  outcome c r f (commit_block env p incomplete (pending m content c)).
Proof.
  intros C I' K A Hpop E. pose proof (ci_inv _ _ _ _ C) as I. unfold commit_block, commit_block_with.
  rewrite !(bool_decide_true (incomplete = incomplete)) by done. erewrite try_Throw by exact E. cbv beta iota.
  destruct (K (c_head c)) as (_ & _ & (E1 & E2 & _)%same_shape_fields); [apply I|apply I|].
  destruct (abort_spec c d m content e) as (c' & E' & S).
  { unfold head_block, block_of in *. cbn [c_fork c_head set_fork]. by rewrite E2. }
  rewrite E'. right. apply (back_at_head c r h f c' h' f'); [done|by eapply same_chain_inv|..].
  - unfold head_block, block_of. rewrite (s_fork _ _ S), (s_head _ _ S). done.
  - apply (s_log _ _ S).
  - by rewrite (s_fork _ _ S).
  - done.
Qed.

(** The commit of a produced block: it becomes the head of both, or the node is where it
    was, with the block in the fork database or not. *)
Lemma commit_produced c r h f p m content :
  irreversible_mode env = false -> chain_inv c r h f -> p ∉ index (c_fork c) -> is_Some (heap (c_fork c) !! p) ->
  header_follows c (block_of c p) -> previous (block_of c p) = id (head_block c) ->
  leads (block_of c p) (block_num (head_block c)) (f (id (head_block c))) (content, m) ->
  features_upto (block_num (block_of c p)) m -> popped_blocks_to m (block_num (head_block c)) = Ok (c_features c) ->
  outcome c r f (commit_block env p incomplete (pending m content c)).
Proof.
  intros Hm C Hp Ha Hf Ep L G Hpop. pose proof (ci_inv _ _ _ _ C) as I.
  pose proof (add_inv c r h f _ p I Hp Ha Hf) as Ad. rewrite fork_add_eq in Ad.
  destruct (add (c_fork c) (Some p) false) as [d1|e] eqn:Ea.
  2: { apply (commit_aborted c r h f p m content (c_fork c) h f e); try done; [by destruct c|].
       unfold commit_body. erewrite op_bind_Throw; [reflexivity|]. erewrite op_bind_Throw; [reflexivity|].
       rewrite fork_add_eq. change (c_fork (pending m content c)) with (c_fork c). by rewrite Ea. }
  destruct Ad as (h1 & d1' & E1 & I1 & K1 & _ & D1). injection E1 as <-.
  assert (forall x, block_of (set_fork d1 c) x = block_of c x) as B1 by (intros x; apply D1).
  assert (head_block (set_fork d1 c) = head_block c) as HB by apply B1.
  destruct (marked_inv (set_fork d1 c) r h1 f _ p (content, m) I1) as (d2 & h2 & f2 & E2 & Eh2 & I2 & I3 & K2 & A2);
    rewrite ?B1, ?HB; try done; [by eapply add_in|apply Hf|].
  cbn [c_fork set_fork] in E2. assert (keeps (c_fork c) d2 r) as K by (by eapply keeps_trans).
  assert (agrees (c_fork c) r f f2) as A by (eapply agrees_trans; [exact K1|apply agrees_refl|done]).
  assert (forall k : unit -> op unit, ((_ ← fork_add p; _ ← fork_mark_valid p; c ← get;
       _ ← emit env (accepted_block_header (id (block_of c p)));
       c ← get; assert_ (bool_decide (head (c_fork c) = Some p)) fork_database_exception) ≫= k) (pending m content c)
    = if bool_decide (h2 = p) then k tt (set_fork d2 (pending m content c))
      else (set_fork d2 (pending m content c), Throw fork_database_exception)) as Hfirst.
  { intros k. unfold mbind at 1, op_bind at 1. erewrite op_bind_Ok; [|rewrite fork_add_eq;
      change (c_fork (pending m content c)) with (c_fork c); rewrite Ea; reflexivity].
    erewrite op_bind_Ok; [|unfold fork_mark_valid; rewrite op_bind_get; cbn [c_fork set_fork];
      rewrite E2, op_bind_lift; reflexivity].
    rewrite op_bind_get, emit_step, op_bind_get. unfold assert_, lift, modify. cbn [c_fork set_fork].
    rewrite Eh2. destruct (decide (h2 = p)) as [->|Hne].
    - by rewrite !bool_decide_true.
    - rewrite !bool_decide_false by congruence. done. }
  destruct (decide (h2 = p)) as [->|Hne].
  - rewrite bool_decide_true in Hfirst by done.
    pose proof (switched_outcome c r h f _ f2 p Hm C I3 ltac:(constructor) eq_refl K A) as O.
    destruct (keeps_root c (set_fork d2 c) r h f f2 _ I K A) as (R1 & R2 & _).
    set (c3 := set_chain_head p _) in *.
    destruct (log_irreversible_spec c3 r p f2 Hm) as (c4 & _ & _ & E4 & _).
    { change (block_of c3 r) with (block_of (set_fork d2 c) r). by rewrite R2. }
    { constructor. }
    { pose proof (ci_log _ _ _ _ C) as Hl. unfold log_ok in *. change (c_log c3) with (c_log c).
      change (block_of c3 r) with (block_of (set_fork d2 c) r). by rewrite R1, R2. }
    unfold commit_block, commit_block_with. rewrite !(bool_decide_true (incomplete = incomplete)) by done.
    erewrite try_Ok; [|rewrite Hfirst, op_bind_modify, op_bind_get, emit_step; exact E4]. by rewrite E4 in O.
  - rewrite bool_decide_false in Hfirst by done.
    apply (commit_aborted c r h f p m content d2 h2 f2 fork_database_exception); try done.
    unfold commit_body. by rewrite Hfirst.
Qed.

Lemma produce_outcome c r h f b :
  irreversible_mode env = false -> chain_inv c r h f -> header_follows c b -> previous b = id (head_block c) ->
  outcome c r f (produce b c).
Proof.
  intros Hm C Hf Ep. unfold produce. pose proof (fresh_block c r h f b C Hf) as R.
  destruct (make_shared (c_fork c) b) as [p d].
  destruct R as (C1 & K1 & Hp & Ha & Eb & Hf1 & Ei & Hd & O1). apply O1. clear O1.
  assert (head_block (set_fork d c) = head_block c) as HB by (apply Hd, (ci_inv _ _ _ _ C)). rewrite <- HB in Ep.
  set (c1 := set_fork d c) in *. change d with (c_fork c1) in Hp, Ha. clear Hd K1 Ei. clearbody c1. pose proof (ci_inv _ _ _ _ C1) as I1.
  destruct (inv_root _ _ _ _ _ I1) as [Ht _]. pose proof Hf1 as ([_ Hn] & _ & Hs & _).
  rewrite Ep, (head_num _ _ _ _ _ I1) in Hn.
  unfold produce_block, apply_with. rewrite op_bind_get, emit_step, (i_revision _ _ _ _ _ I1), Z.eqb_refl. cbn [negb].
  rewrite (i_content _ _ _ _ _ I1), (i_features _ _ _ _ _ I1), <- surjective_pairing.
  assert (0 <= block_num (head_block c1)) as H0.
  { pose proof (i_base _ _ _ _ _ I1). pose proof (t_num _ _ _ (i_tree _ _ _ _ _ I1)). unfold block_of in *. lia. }
  destruct (run_block_cases incomplete (block_of c1 p) (block_num (head_block c1)) (f (id (head_block c1))))
    as [(content & m & Er & Hm' & Hpop)|(e & Er)]; [apply (i_tree _ _ _ _ _ I1); apply I1|done|lia|..]; rewrite Er.
  - rewrite !op_bind_modify. change (outcome c1 r f (commit_block env p incomplete (pending m content c1))).
    apply (commit_produced c1 r h f); rewrite ?Eb; try done.
    + rewrite <- Eb. by apply run_block_validated in Er.
    + by rewrite Hn.
    + by rewrite (i_features _ _ _ _ _ I1).
  - rewrite op_bind_modify, op_bind_lift, op_bind_modify. right. apply (same_chain_back c1 r h f); [done|].
    apply undone_chain. symmetry. apply I1.
Qed.

Lemma outcome_step c r f c' res :
  outcome c r f (c', res) -> res <> Throw undefined_behavior ->
  exists r' h' f', chain_inv c' r' h' f' /\ advances c r f c' r' f'.
Proof.
  destruct res as [u|e]; cbn; [done|]. intros [->|[(h' & f' & ?) _]] Hub; [done|]. by exists r, h', f'.
Qed.

(** A received block, in either mode *)
Lemma receive_step c r h f b c' res :
  chain_inv c r h f -> (irreversible_mode env = true -> settled c r) -> header_follows c b ->
  receive b c = (c', res) -> res <> Throw undefined_behavior ->
  exists r' h' f', chain_inv c' r' h' f' /\ (irreversible_mode env = true -> settled c' r') /\ advances c r f c' r' f'.
Proof.
  intros C S Hf E Hub. destruct (irreversible_mode env) eqn:Hm.
  - specialize (S eq_refl). destruct (receive_cases c r h f b C Hf) as (d & h' & C1 & K & Hval & HG & Er).
    destruct (keeps_root c (set_fork d c) r h f f _ (ci_inv _ _ _ _ C) K ltac:(apply agrees_refl)) as (R1 & R2 & _).
    assert (settled (set_fork d c) r) as S1.
    { destruct S as (Eh & Hv & G). split_and!; [done| |by apply HG]. intros x Hx. destruct (validated _) eqn:Hxv; [|done].
      destruct (Hval x Hx Hxv) as [Hx' Hxv']. by rewrite Hv in Hxv'. }
    assert (forall c2 r2 f2, advances (set_fork d c) r f c2 r2 f2 -> advances c r f c2 r2 f2) as Ha.
    { intros c2 r2 f2. unfold advances. by rewrite R1, R2. }
    rewrite E in Er. destruct Er as [[= -> ->]|[[e [= -> ->]]|Er]].
    + exists r, h', f. destruct C1 as [[] ?]. split_and!; [by split; [split|]|done|]. apply Ha. exists []. by rewrite app_nil_r.
    + exists r, h', f. split_and!; [done|done|]. apply Ha. exists []. by rewrite app_nil_r.
    + unfold follow_fork_db in Er. rewrite Hm in Er. cbn [negb] in Er. symmetry in Er.
      destruct (log_committed_outcome _ _ _ _ _ _ Hm C1 S1 Er) as (r' & f' & C' & S' & A'). exists r', r', f'. auto.
  - pose proof (receive_outcome c r h f b Hm C Hf) as O. rewrite E in O.
    destruct (outcome_step _ _ _ _ _ O Hub) as (r' & h' & f' & ? & ?). exists r', h', f'. by split_and!.
Qed.

(** ** Reachable states *)

(** A controller whose only block is the root, with the state [x] of that block: at
    genesis, from a snapshot, or from a fork database without blocks *)
Record started (c : controller) (r : ptr) (x : state) : Prop := {
  st_root : root (c_fork c) = Some r /\ head (c_fork c) = Some r /\ index (c_fork c) = [];
  st_alive : is_Some (heap (c_fork c) !! r);
  st_block : validated (block_of c r) = true /\ num_from_id (id (block_of c r)) = block_num (block_of c r) /\
    0 <= block_num (block_of c r) /\ num_from_id (previous (block_of c r)) < block_num (block_of c r);
  st_head : c_head c = r;
  st_state : db_content (c_db c) = x.1 /\ c_features c = x.2;
  st_features : features_upto (block_num (block_of c r)) x.2;
  st_database : db_revision (c_db c) = block_num (block_of c r) /\ db_history (c_db c) = [];
  st_log : log_ok c r }.

Lemma started_inv c r x : started c r x -> chain_inv c r r (fun _ => x).
Proof.
  intros [(Hr & Hh & Hi) Ha (Hv & Hn & H0 & Hp) Eh [Ec Em] Hf [Erev Ehist] Hl]. split; [|done].
  assert (forall p, p ∉ index (c_fork c)) as Hno by (intros p; rewrite Hi; apply not_elem_of_nil).
  split; unfold head_block; rewrite ?Eh; try done; try lia.
  - split; try done; [|by left|intros p [->|Hp']; [done|by destruct (Hno p)]|intros p Hp'; by destruct (Hno p)].
    split; [split|..]; try done; try (intros p Hp'; by destruct (Hno p)).
    unfold ids. rewrite Hi. constructor.
  - split; try done; try (intros p Hp'; by destruct (Hno p)).
    intros p [->|Hp'] _; [done|by destruct (Hno p)].
  - by left.
  - exists []. split; [constructor|]. by rewrite Ehist, Z.sub_diag.
Qed.

(** One block: received, or produced on top of the head by a node that is not in
    irreversible mode *)
Inductive ctl_step (c : controller) : controller * res unit -> Prop :=
| step_receive b : header_follows c b -> ctl_step c (receive b c)
| step_produce b : irreversible_mode env = false -> header_follows c b -> previous b = id (head_block c) ->
    ctl_step c (produce b c).

(** Blocks follow one another, accepted or not. *)
Inductive ctl_reachable (c0 : controller) : controller -> Prop :=
| ctl_start : ctl_reachable c0 c0
| ctl_block c c' res : ctl_reachable c0 c -> ctl_step c (c', res) -> res <> Throw undefined_behavior ->
    ctl_reachable c0 c'.

Lemma ctl_step_inv c r h f c' res :
  chain_inv c r h f -> (irreversible_mode env = true -> settled c r) -> ctl_step c (c', res) ->
  res <> Throw undefined_behavior ->
  exists r' h' f', chain_inv c' r' h' f' /\ (irreversible_mode env = true -> settled c' r') /\ advances c r f c' r' f'.
Proof.
  intros C S St Hub. inversion St as [b Hf E|b Hm Hf Hp E].
  - by eapply receive_step.
  - pose proof (produce_outcome c r h f b Hm C Hf Hp) as O. rewrite E in O.
    destruct (outcome_step _ _ _ _ _ O Hub) as (r' & h' & f' & ? & ?). exists r', h', f'. split_and!; [done| |done].
    by rewrite Hm.
Qed.

(** The invariant of the run: the blocks [bs] that were written to the log since the start
    lead from the state of the start to that of the root. *)
Lemma reachable_inv c0 r0 x c :
  started c0 r0 x -> ctl_reachable c0 c ->
  exists r h f, chain_inv c r h f /\ (irreversible_mode env = true -> settled c r) /\ advances c0 r0 (fun _ => x) c r f.
Proof.
  intros St. induction 1 as [|c c' res Hc (r & h & f & C & S & bs & L & Re & La) E Hub].
  - exists r0, r0, (fun _ => x). split_and!; [by apply started_inv| |exists []; by rewrite app_nil_r].
    intros _. pose proof (proj2 (proj2 (st_root _ _ _ St))) as Hi.
    split_and!; [apply St|intros p|intros p q]; rewrite Hi; by intros ?%elem_of_nil.
  - destruct (ctl_step_inv _ _ _ _ _ _ C S E Hub) as (r' & h' & f' & C' & S' & bs' & L' & Re' & La').
    exists r', h', f'. split_and!; [done|done|]. exists (bs ++ bs'). split_and!.
    + by rewrite L', L, fmap_app, app_assoc.
    + by rewrite (replay_app _ _ _ _ _ Re), La.
    + rewrite last_app. destruct (last bs') as [b'|]; cbn in La' |- *; [done|]. by rewrite La.
Qed.

(** C1: In every state that a controller reaches by receiving and producing blocks, accepted
    or refused, the database and the protocol features are what the blocks lead to: those
    written to the block log since the start, then the reversible ones from the root to the
    head, replayed in order from the state of the start.  The revision is the number of the
    head; in irreversible mode the head is the root, so the log alone gives the state.

    Conditions: the node started with the root as its only block; it is [quiet] (no listener
    asks it to stop, the logs can be written, every block has its body); what full validation accepts, light validation accepts with
    the same result ([ExecutorLaws]); no call ran into undefined behaviour; headers are
    numbered after their parents; and, in irreversible mode only, the irreversible number
    of a header is not below its parent's, which the code does not enforce. *)
Theorem chain_state_is_replay c0 r0 x c :
  started c0 r0 x -> ctl_reachable c0 c ->
  exists bs r l, c_log c = c_log c0 ++ (id <$> bs) /\ root (c_fork c) = Some r /\
    chain (c_fork c) (id (block_of c r)) (id (head_block c)) l /\
    replay (block_num (block_of c0 r0)) (bs ++ (block_of c <$> rev l)) x = Some (db_content (c_db c), c_features c) /\
    db_revision (c_db c) = block_num (head_block c) /\ (irreversible_mode env = true -> l = []).
Proof.
  intros St Hc. destruct (reachable_inv _ _ _ _ St Hc) as (r & h & f & [I _] & S & bs & L & Re & La).
  destruct (i_history _ _ _ _ _ I) as (l & Hch & _). exists bs, r, l.
  split_and!; [done|apply I|done| |apply I|].
  2: { intros [Eh _]%S. pose proof (chain_length _ _ _ _ (tw_forest _ _ (proj1 (inv_root _ _ _ _ _ I))) Hch) as Hn.
       unfold head_block in Hn. rewrite Eh in Hn. destruct l; [done|cbn [length] in Hn; lia]. }
  rewrite (replay_app _ _ _ _ _ Re), La.
  destruct (inv_root _ _ _ _ _ I) as [Ht _]. apply chain_path in Hch as [P1 P2].
  rewrite (i_content _ _ _ _ _ I), (i_features _ _ _ _ _ I), <- surjective_pairing, <- P2.
  apply (replay_path (c_fork c) r f _ (rev l) r Ht); [apply I|by left|done|done|].
  intros p Hp. apply (validated_below _ r f p (c_head c)); [done|apply I|by eapply path_in|apply I|apply I|].
  change (id (deref (c_fork c) (c_head c))) with (id (head_block c)). rewrite <- P2. by apply path_desc.
Qed.

(** C5: On a node that is not in irreversible mode, a block that is refused, on top of the
    head or as part of another branch to which the controller had begun to switch, or that
    was produced and could not be committed, leaves the head, the database, the protocol
    features and the block log as they were.

    Conditions: the node started with the root as its only block; no listener asks it to
    stop, the logs can be written and every block has its body ([quiet]); what full
    validation accepts, light validation accepts with the same result; headers are numbered
    after their parents; the exception is not undefined behaviour, which a failure on a branch that
    was never applied is ([unapplied_branch_undefined]).  Nothing is asked of the
    irreversible numbers of the headers. *)
Theorem refused_block_restores c0 r0 x c c' e :
  irreversible_mode env = false -> started c0 r0 x -> ctl_reachable c0 c ->
  ctl_step c (c', Throw e) -> e <> undefined_behavior -> restored c c'.
Proof.
  intros Hm St Hc E Hub. destruct (reachable_inv _ _ _ _ St Hc) as (r & h & f & C & _).
  inversion E as [b Hf E'|b _ Hf Hp E'];
    [pose proof (receive_outcome c r h f b Hm C Hf) as O|pose proof (produce_outcome c r h f b Hm C Hf Hp) as O];
    rewrite E' in O; by destruct O as [|[_ ?]].
Qed.

(** C6: What was irreversible stays so: a block, accepted or refused, only appends to the block
    log, whose last block is the root of the fork database, from which the head descends.

    Conditions: the node started with the root as its only block; the logs can be written,
    no listener asks it to stop and every block has its body ([quiet]); what full validation
    accepts, light validation accepts with the same result; headers are numbered after their
    parents; no undefined behaviour; and, in irreversible mode only, the irreversible
    number of a header is not below its parent's.  A log of block states that cannot be
    written does break the agreement of log and root: the block is in the block log, and
    the root stays below it. *)
Theorem irreversible_blocks_stay c0 r0 x c c' res :
  started c0 r0 x -> ctl_reachable c0 c -> ctl_step c (c', res) -> res <> Throw undefined_behavior ->
  c_log c `prefix_of` c_log c' /\ exists r', root (c_fork c') = Some r' /\
    (forall i, last (c_log c') = Some i -> i = id (block_of c' r')) /\
    desc (c_fork c') (id (block_of c' r')) (id (head_block c')).
Proof.
  intros St Hc E Hub. destruct (reachable_inv _ _ _ _ St Hc) as (r & h & f & C & S & _).
  destruct (ctl_step_inv _ _ _ _ _ _ C S E Hub) as (r' & h' & f' & [I' Hl] & _ & bs & L & _).
  split; [rewrite L; by apply prefix_app_r|]. exists r'. split_and!; [apply I'| |].
  - intros i Ei. unfold log_ok in Hl. by rewrite Ei in Hl.
  - destruct (i_history _ _ _ _ _ I') as (l & Hch & _). by eapply chain_desc.
Qed.
End controller_inv.
