(* ===== verification/ControllerFaults.v ===== *)
(** * Where the controller does not come back

    A listener that asks for the node to stop leaves a head without its state; a branch
    that was never applied, as irreversible mode leaves it, cannot be given up when one of
    its blocks fails. *)

From S2P Require Import Prelude Exceptions Types ForkDatabase ForkTree ForkBranch.
From S2P Require Import ProtocolFeatures ProtocolFeatureProps Controller ControllerProps.
Import builtin fork_database.

Section faults.
Context {W : Type} `{BE : BlockExecutor W} `{EL : !ExecutorLaws}.
Context {D : Type} `{UD : UndoDatabase (@protocol_state_object W) D} `{UL : !UndoLaws _ D}.
Abbreviation controller := (@controller D).

(** ** A branch that was never applied *)

Lemma replay_shape n bs bs' x : Forall2 same_shape bs bs' -> replay n bs x = replay n bs' x.
Proof.
  intros F. revert n x. induction F as [|b b' bs bs' Hs _ IH]; intros n x; [done|]. cbn [replay].
  rewrite (run_block_shape _ _ _ _ _ Hs). destruct (same_shape_fields _ _ Hs) as (_ & -> & _).
  destruct (run_block _ _ _ _) as [[m|] [p|]]; done.
Qed.

(** The step of a replay that applying a block took *)
Lemma applied_replay (c c' : controller) r h f base h' f' base' p ps s :
  inv c r h f base -> p ∈ index (c_fork c) -> previous (block_of c p) = id (head_block c) ->
  inv c' r h' f' base' -> c_head c' = p -> mark_valid_impl (c_fork c) p = Ok (c_fork c') -> agrees (c_fork c) r f f' ->
  replay (block_num (head_block c)) (block_of c <$> p :: ps) (f (id (head_block c))) = s ->
  replay (block_num (head_block c')) (block_of c' <$> ps) (f' (id (head_block c'))) = s.
Proof.
  intros I Hp E I' Eh M A. pose proof (i_wf _ _ _ _ _ I) as Wf.
  pose proof (fun x => mark_fields _ _ _ _ _ x Wf Hp M) as F.
  destruct (mark_keeps _ _ _ _ _ Wf Hp M (c_head c)) as (Hn & _ & (E1 & E2 & _)%same_shape_fields); [apply I|apply I|].
  destruct (F p) as (Ei & Hs & _). destruct (same_shape_fields _ _ Hs) as (E3 & E4 & E5 & _).
  destruct (t_parent (c_fork c') r f' p (c_head c)) as [_ L].
  { apply (wf_tree _ _ _ (i_wf _ _ _ _ _ I')). }
  { apply I'. }
  { by rewrite Ei. }
  { rewrite <- Eh. apply I'. }
  { done. }
  { rewrite E5, E1. exact E. }
  rewrite (leads_shape _ _ _ _ _ Hs), E1, E2 in L. change (deref (c_fork c) p) with (block_of c p) in *.
  rewrite (A (c_head c)) in L by apply I. unfold leads in L. cbn [fmap list_fmap replay]. unfold head_block, block_of in *.
  rewrite L, Eh, E4, <- surjective_pairing. intros <-. symmetry. apply replay_shape.
  apply Forall2_fmap, Forall_Forall2_diag, Forall_true. intros x. unfold same_shape. symmetry. apply (F x).
Qed.

Lemma chain_unique d a i l l' : forest_wf d -> chain d a i l -> chain d a i l' -> l = l'.
Proof.
  intros Hf Hc. revert l'. induction Hc as [|p l Hp Hc IH]; intros l' Hc'.
  - pose proof (chain_length _ _ _ _ Hf Hc') as Hn. destruct l'; [done|]. cbn [length] in Hn. lia.
  - inversion Hc' as [Ei|q m Hq Hc2 Eq]; subst.
    + pose proof (chain_length _ _ _ _ Hf Hc) as Hn. destruct (fw_header _ Hf p Hp) as [H1 H2]. lia.
    + assert (q = p) as -> by (by apply (forest_inj d)). f_equal. auto.
Qed.

(** Nothing was left, so there is nothing to come back to. *)
Lemma apply_branch_undefined env (c : controller) r h f base ps done_ a :
  quiet env -> inv c r h f base -> path (c_fork c) (id (head_block c)) ps ->
  chain (c_fork c) a (id (head_block c)) done_ -> base <= num_from_id a ->
  (forall x, x ∈ done_ -> validated (block_of c x) = true) ->
  replay (block_num (head_block c)) (block_of c <$> ps) (f (id (head_block c))) = None ->
  exists c', apply_branch env ps (length done_) [] c = (c', Throw undefined_behavior).
Proof.
  intros Q. revert c h f done_. induction ps as [|p ps IH]; intros c h f done_ I Hps Hd Hb Hdv Hr;
    pose proof (i_wf _ _ _ _ _ I) as Wf; cbn [apply_branch path] in *; [done|].
  destruct Hps as (Hp & Ep & Hps). rewrite op_bind_get. set (s := if validated (block_of c p) then _ else _).
  destruct (apply_block_spec env Q c r h f base p s I Hp Ep)
    as [(c1 & h1 & f1 & E1 & I1 & Hh1 & M1 & _ & A1)|(c1 & e & E1 & S1 & Hv1)].
  { unfold s. destruct (validated _); auto. }
  - rewrite (try_Ok _ _ _ _ _ E1). cbv beta iota.
    assert (forall x, id (block_of c1 x) = id (block_of c x)) as Hid.
    { intros x. by destruct (mark_fields _ _ _ _ _ x Wf Hp M1) as (_ & (? & _)%same_shape_fields & _). }
    assert (id (head_block c1) = id (block_of c p)) as Hi1 by (unfold head_block; by rewrite Hh1, Hid).
    apply (IH c1 h1 f1 (p :: done_) I1).
    + rewrite Hi1. by apply (mark_path _ _ _ _ _ _ _ Wf Hp M1).
    + rewrite Hi1. apply (mark_chain _ _ _ _ _ _ _ _ Wf Hp M1). constructor; [done|]. by rewrite Ep.
    + done.
    + intros x Hx. apply (mark_fields _ _ _ _ _ x Wf Hp M1). apply elem_of_cons in Hx as [->|Hx]; [by right|left; by apply Hdv].
    + by apply (applied_replay c c1 r h f base h1 f1 base p ps).
  - rewrite (try_Throw _ _ _ _ _ E1). cbv beta iota.
    assert (validated (block_of c p) = false) as Hpv by (unfold s in Hv1; destruct (validated _); auto).
    pose proof (same_chain_inv _ _ _ _ _ _ S1 I) as I1. destruct S1 as [F1 Hh1 _ _ _ _ _].
    assert (forall x, block_of c1 x = block_of c x) as B1 by (intros x; unfold block_of; by rewrite F1).
    pose proof (reversal_spec env Q c1 r h f base p done_ [] a a e I1) as R. cbv zeta in R.
    rewrite bool_decide_true in R by done.
    assert (head_block c1 = head_block c) as H1 by (unfold head_block; by rewrite B1, Hh1).
    rewrite F1, H1, B1 in R. setoid_rewrite B1 in R. apply R; try done; [constructor|by intros x ?%elem_of_nil].
Qed.

(** A branch of two or more blocks above the head, one of which fails *)
Lemma switch_up_undefined env (c : controller) r h f t l :
  quiet env -> inv c r h f (block_num (block_of c r)) -> c_head c = r -> node (c_fork c) r t ->
  chain (c_fork c) (id (head_block c)) (id (block_of c t)) l -> (2 <= length l)%nat ->
  replay (block_num (head_block c)) (block_of c <$> rev l) (f (id (head_block c))) = None ->
  exists c', maybe_switch_forks env t complete c = (c', Throw undefined_behavior).
Proof.
  intros Q I Eh Ht Hl Hlen Hr. destruct (inv_root _ _ _ _ _ I) as [Htr _]. pose proof (tw_forest _ _ Htr) as Hf.
  pose proof (chain_length _ _ _ _ Hf Hl) as Hn. rewrite (head_num _ _ _ _ _ I) in Hn.
  destruct l as [|t' l]; [cbn in Hlen; lia|]. revert Eh. inversion Hl as [|? ? Hti Hl' Ei]; subst. intros Eh.
  assert (t' = t) as -> by (by apply (node_inj _ _ _ _ Htr); [right|..]).
  pose proof (chain_length _ _ _ _ Hf Hl') as Hn'. rewrite (head_num _ _ _ _ _ I) in Hn'. cbn [length] in Hlen, Hn.
  unfold maybe_switch_forks. rewrite op_bind_get, !bool_decide_false; cycle 1.
  { intros E. rewrite E, (head_num _ _ _ _ _ I) in Hn. lia. }
  { intros E. unfold block_of in E. rewrite E, (head_num _ _ _ _ _ I) in Hn'. lia. }
  cbn [negb].
  destruct (fetch_branch_from_disjoint (c_fork c) r Htr t (c_head c) (wf_root _ _ _ (i_wf _ _ _ _ _ I))
    Ht (i_head _ _ _ _ _ I)) as (a & first & second & E & C1 & C2 & _).
  change (fetch_branch_from_impl (c_fork c) (id (block_of c t)) (id (head_block c)) = Ok (first, second)) in E.
  rewrite E, op_bind_lift. cbv beta iota.
  assert (second = [] /\ a = id (head_block c)) as [-> ->].
  { destruct (chain_bottom _ _ _ _ _ Htr (i_head _ _ _ _ _ I) C2) as (q & Hq & <-).
    pose proof (chain_length _ _ _ _ Hf C2) as H2. change (deref (c_fork c) (c_head c)) with (head_block c) in H2.
    rewrite (head_num _ _ _ _ _ I), (node_num _ _ _ Htr Hq) in H2. pose proof (above_root _ _ Htr _ Hq).
    unfold head_block in H2. rewrite Eh in H2. unfold block_of in H2. destruct second; [|cbn [length] in H2; lia].
    split; [done|]. by inversion C2. }
  assert (first = t :: l) as -> by (by eapply chain_unique).
  rewrite (bool_decide_true ([] = [])) by done.
  destruct (apply_branch_undefined env c r h f (block_num (block_of c r)) (rev (t :: l)) [] (id (head_block c)) Q I) as [c' E'].
  - by apply chain_path in Hl as [? _].
  - constructor.
  - rewrite (head_num _ _ _ _ _ I). unfold head_block. by rewrite Eh.
  - by intros x ?%elem_of_nil.
  - done.
  - exists c'. erewrite op_bind_Ok by reflexivity. by rewrite (op_bind_Throw _ _ _ _ _ E').
Qed.

(** C37: A node that ran in irreversible mode and is started in another one applies the best
    branch of its fork database.  When that branch has two or more blocks above the head
    and one of them cannot be applied, also under light validation, the code does not
    recover: it reads the last element of the branch it left, which is empty.  The run in
    irreversible mode is one to which [chain_state_is_replay] applies, and the node stays
    [quiet] after the change of mode. *)
Theorem unapplied_branch_undefined env env' (c0 c : controller) r0 x t l fuel :
  quiet env -> quiet env' -> irreversible_mode env = true -> irreversible_mode env' = false ->
  started env c0 r0 x -> ctl_reachable env c0 c -> pending_head (c_fork c) = Ok (Some t) ->
  chain (c_fork c) (id (head_block c)) (id (block_of c t)) l -> (2 <= length l)%nat ->
  replay (block_num (head_block c)) (block_of c <$> rev l) (db_content (c_db c), c_features c) = None ->
  snd (apply_best_branch env' (S fuel) c) = Throw undefined_behavior.
Proof.
  intros Q Q' Hm Hm' St Hc Hp Hl Hlen Hr.
  destruct (reachable_inv env Q _ _ _ _ St Hc) as (r & h & f & C & Hs & _). destruct (Hs Hm) as (Eh & Hv & _).
  pose proof (settled_committed _ _ _ _ _ C (Hs Hm)) as Cm. pose proof (cm_inv _ _ _ _ Cm) as I.
  assert (head_block c = block_of c r) as Eb by (unfold head_block; by rewrite Eh).
  rewrite Eb in I. pose proof (i_wf _ _ _ _ _ I) as Wf. destruct (inv_root _ _ _ _ _ I) as [Htr _].
  destruct (pending_head_spec _ _ _ Wf) as (t' & Et & Ht & _). assert (t' = t) as -> by congruence.
  assert (id (block_of c t) <> id (block_of c r)) as Hne.
  { intros E. pose proof (chain_length _ _ _ _ (tw_forest _ _ Htr) Hl) as Hn. rewrite E, Eb in Hn. lia. }
  rewrite (i_content _ _ _ _ _ I), (i_features _ _ _ _ _ I), <- surjective_pairing in Hr.
  destruct (switch_up_undefined env' c r r f t l Q' I Eh Ht Hl Hlen Hr) as [c' E'].
  assert (apply_best_loop env' (S fuel) c = (c', Throw undefined_behavior)) as El.
  { cbn [apply_best_loop]. rewrite op_bind_get, Hp, (wf_head _ _ _ Wf). cbn [mbind result_bind of_option].
    erewrite op_bind_Ok by reflexivity. erewrite op_bind_Ok by reflexivity. rewrite bool_decide_false by done.
    by rewrite (op_bind_Throw _ _ _ _ _ E'). }
  unfold apply_best_branch. rewrite op_bind_get, (wf_head _ _ _ Wf), (wf_root _ _ _ Wf), Hp.
  cbn [mbind result_bind of_option].
  erewrite op_bind_Ok by reflexivity. erewrite op_bind_Ok by reflexivity. erewrite op_bind_Ok by reflexivity.
  rewrite Hm', bool_decide_false, bool_decide_true by done. cbn [negb andb]. by rewrite El.
Qed.

(** ** A listener that asks for the node to stop *)







End faults.
