(* ===== verification/ControllerExample.v ===== *)
(** * A controller that switches forks

    A concrete database and executor on which the theorems of [ControllerProps] and
    [ControllerFaults] are applied. *)

From S2P Require Import Prelude Exceptions Types ForkDatabase ForkTree ForkBranch.
From S2P Require Import ProtocolFeatures ProtocolFeatureProps Controller ControllerProps ControllerFaults.
Import builtin fork_database.

Module ControllerExample.

(** The database keeps its contents on a stack. *)
Record stack (S : Type) := mk_stack { now : S; saved : list S; rev_num : Z }.
Arguments mk_stack {S} _ _ _.
Arguments now {S} _.
Arguments saved {S} _.
Arguments rev_num {S} _.

#[export] Instance stack_database (S : Type) : UndoDatabase S (stack S) := {|
  db_content := now;
  db_revision := rev_num;
  db_history := saved;
  db_write s d := mk_stack s (saved d) (rev_num d);
  db_start d := mk_stack (now d) (now d :: saved d) (rev_num d + 1);
  db_undo d := match saved d with s :: l => mk_stack s l (rev_num d - 1) | [] => d end;
  db_commit n d := mk_stack (now d) (take (Z.to_nat (rev_num d - n)) (saved d)) (rev_num d) |}.

#[export] Instance stack_laws (S : Type) : UndoLaws S (stack S).
Proof. split; intros *; cbn; try done; by intros ->. Qed.

(** The content is the list of the applied blocks; a [bad] block cannot be applied. *)
Definition bad (i : digest) : bool := hash1 i =? 9.
Abbreviation pso := (@protocol_state_object (list digest)).

#[export] Instance block_lister : BlockExecutor (W:=list digest) := {|
  activation_handler _ w := Ok w;
  block_receipts _ := [];
  start_block_rest _ _ p := Ok p;
  push_transaction _ _ _ p := Ok (p, [], None);
  push_scheduled_transaction _ _ _ p := Ok (p, [], None);
  finish_block _ i p :=
    if bad i then Throw block_validate_exception
    else Ok (mk_pso (pso_activated p) (pso_preactivated p) (pso_rest p ++ [i]), i) |}.

#[export] Instance block_lister_laws : ExecutorLaws (W:=list digest).
Proof. by split. Qed.

Definition env : controller_env := mk_controller_env false 0 (fun _ => Ok tt) (fun _ => Ok tt) (fun _ => Ok tt) (fun _ => true) 2.
Lemma env_quiet : quiet env.
Proof. by split. Qed.

Definition blk (num k : Z) (prev : digest) (lib : Z) (v : bool) : block_state :=
  mk_block_state (mk_digest (endian_reverse_u32 num) k 0 0) num prev num lib ∅ None v.
Definition b1 := blk 1 0 digest_zero 0 true.
Definition b2a := blk 2 1 (id b1) 0 false.
Definition b2b := blk 2 2 (id b1) 0 false.
Definition b3b := blk 3 3 (id b2b) 0 false.
Definition b3a := blk 3 4 (id b2a) 0 false.
Definition b4a := blk 4 9 (id b3a) 0 false.
Definition b4b := blk 4 5 (id b3b) 2 false.

Definition features : protocol_feature_manager := set_initialized (new_manager empty_pfs) true.
Definition x0 : pso * protocol_feature_manager := (mk_pso [] [] [id b1], features).
Definition c0 : controller := mk_controller
  (reset_impl (mk_fork_db ∅ [] None None) b1) 1%positive (mk_stack x0.1 [] 1) features [] false.

Lemma c0_started : started env c0 1%positive x0.
Proof.
  split; try (by vm_compute).
  - vm_compute. eauto.
  - split_and!; [apply set_initialized_wf, new_manager_wf|done|constructor].
Qed.

Definition after (c : controller) (b : block_state) : controller := fst (receive env b c).

(** The header conditions, decided *)
Definition follows (b : block_state) : bool :=
  bool_decide (num_from_id (id b) = block_num b) && bool_decide (block_num b = num_from_id (previous b) + 1) &&
  negb (validated b) && (block_num b <? not_active).

Lemma follows_spec e (c : controller (D:=stack pso)) b :
  irreversible_mode e = false -> follows b = true -> header_follows e c b.
Proof.
  unfold follows. intros Hm [[[H1 H2]%andb_true_iff H3]%andb_true_iff H4]%andb_true_iff.
  apply bool_decide_eq_true in H1, H2. apply negb_true_iff in H3. apply Z.ltb_lt in H4.
  split_and!; [by split|done|done|by rewrite Hm].
Qed.

Definition defined (r : res unit) : bool :=
  match r with Throw undefined_behavior => false | _ => true end.

Lemma after_reachable c b :
  ctl_reachable env c0 c -> follows b && defined (snd (receive env b c)) = true -> ctl_reachable env c0 (after c b).
Proof.
  intros Hc [Hf Hd]%andb_true_iff. apply (ctl_block env c0 c (after c b) (snd (receive env b c))); [done| |].
  - unfold after. rewrite <- surjective_pairing. by apply step_receive, follows_spec.
  - intros E. by rewrite E in Hd.
Qed.

(** A block of this node *)
Definition produced (c : controller) (b : block_state) : controller := fst (produce env b c).

Lemma produced_reachable c b :
  ctl_reachable env c0 c ->
  follows b && bool_decide (previous b = id (head_block c)) && defined (snd (produce env b c)) = true ->
  ctl_reachable env c0 (produced c b).
Proof.
  intros Hc [[Hf Hp%bool_decide_eq_true]%andb_true_iff Hd]%andb_true_iff.
  apply (ctl_block env c0 c (produced c b) (snd (produce env b c))); [done| |].
  - unfold produced. rewrite <- surjective_pairing. by apply step_produce; [|apply follows_spec|].
  - intros E. by rewrite E in Hd.
Qed.

(** [b2a] is produced, then the branch of [b2b] is received, to which the controller
    switches. *)
Definition switched : controller := after (after (produced c0 b2a) b2b) b3b.
(** [b3a] makes the first branch as long; [b4a] on top of it would be better. *)
Definition before_bad : controller := after switched b3a.

Lemma switched_reachable : ctl_reachable env c0 switched.
Proof.
  do 2 (apply after_reachable; [|vm_compute; reflexivity]).
  apply produced_reachable; [apply ctl_start|vm_compute; reflexivity].
Qed.
Lemma before_bad_reachable : ctl_reachable env c0 before_bad.
Proof. apply after_reachable; [apply switched_reachable|vm_compute; reflexivity]. Qed.

Lemma chain_state_is_replay_witness :
  pso_rest (db_content (c_db switched)) = [id b1; id b2b; id b3b] /\
  exists bs r l, c_log switched = c_log c0 ++ (id <$> bs) /\ root (c_fork switched) = Some r /\
    chain (c_fork switched) (id (block_of switched r)) (id (head_block switched)) l /\
    replay (block_num (block_of c0 1%positive)) (bs ++ (block_of switched <$> rev l)) x0
      = Some (db_content (c_db switched), c_features switched) /\
    db_revision (c_db switched) = block_num (head_block switched) /\ (irreversible_mode env = true -> l = []).
Proof.
  split; [vm_compute; reflexivity|].
  exact (chain_state_is_replay env env_quiet c0 1%positive x0 switched c0_started switched_reachable).
Defined.

Lemma refused_block_restores_witness :
  snd (receive env b4a before_bad) = Throw block_validate_exception /\ restored before_bad (after before_bad b4a).
Proof.
  assert (snd (receive env b4a before_bad) = Throw block_validate_exception) as E by (vm_compute; reflexivity).
  split; [exact E|].
  apply (refused_block_restores env env_quiet c0 1%positive x0 before_bad _ block_validate_exception eq_refl
           c0_started before_bad_reachable).
  - unfold after. rewrite <- E, <- surjective_pairing. apply step_receive, follows_spec; reflexivity.
  - discriminate.
Defined.

Lemma irreversible_blocks_stay_witness :
  c_log (after switched b4b) = [id b2b] /\ c_log switched `prefix_of` c_log (after switched b4b).
Proof.
  split; [vm_compute; reflexivity|].
  refine (proj1 (irreversible_blocks_stay env env_quiet c0 1%positive x0 switched _ (Ok tt)
                   c0_started switched_reachable _ _)).
  - unfold after. replace (Ok tt) with (snd (receive env b4b switched)) by (vm_compute; reflexivity).
    rewrite <- surjective_pairing. apply step_receive, follows_spec; reflexivity.
  - discriminate.
Defined.

(** [b5c], on top of [b4b], has a lower irreversible number: the head of the fork database
    stays at [b4b], and the theorems apply all the same. *)
Definition b5c := blk 5 7 (id b4b) 1 false.
Lemma decreasing_reachable : ctl_reachable env c0 (after (after switched b4b) b5c).
Proof. do 2 (apply after_reachable; [|vm_compute; reflexivity]). apply switched_reachable. Qed.

(** ** Runs that do not come back *)

Definition irreversible_env : controller_env :=
  mk_controller_env true 0 (fun _ => Ok tt) (fun _ => Ok tt) (fun _ => Ok tt) (fun _ => true) 2.
Lemma irreversible_quiet : quiet irreversible_env.
Proof. by split. Qed.
Lemma c0_started_irreversible : started irreversible_env c0 1%positive x0.
Proof.
  split; try (by vm_compute).
  - vm_compute. eauto.
  - split_and!; [apply set_initialized_wf, new_manager_wf|done|constructor].
Qed.

Definition b2x := blk 2 9 (id b1) 0 false.
Definition b3x := blk 3 6 (id b2x) 0 false.
(** In irreversible mode the blocks are received and not applied. *)
Definition unapplied1 : controller := fst (receive irreversible_env b2x c0).
Definition unapplied : controller := fst (receive irreversible_env b3x unapplied1).

Lemma lib_zero_follows (c : controller (D:=stack pso)) b :
  follows b = true ->
  forallb (fun q => dpos_irreversible_blocknum (block_of c q) <=? dpos_irreversible_blocknum b)
    (from_option (fun r => [r]) [] (root (c_fork c)) ++ index (c_fork c)) = true ->
  header_follows irreversible_env c b.
Proof.
  intros Hf Hl. destruct (follows_spec env c b eq_refl Hf) as (? & ? & ? & _). split_and!; [done..|]. intros _ q Hq _.
  rewrite forallb_forall in Hl. apply Z.leb_le, Hl, list_elem_of_In, elem_of_app.
  destruct Hq as [|Hr]; [by right|left]. rewrite Hr. by left.
Qed.

Lemma unapplied_reachable : ctl_reachable irreversible_env c0 unapplied.
Proof.
  apply (ctl_block irreversible_env c0 unapplied1 unapplied (snd (receive irreversible_env b3x unapplied1))).
  - apply (ctl_block irreversible_env c0 c0 unapplied1 (snd (receive irreversible_env b2x c0))); [apply ctl_start| |vm_compute; discriminate].
    unfold unapplied1. rewrite <- surjective_pairing. apply step_receive, lib_zero_follows; vm_compute; reflexivity.
  - unfold unapplied. rewrite <- surjective_pairing. apply step_receive, lib_zero_follows; vm_compute; reflexivity.
  - vm_compute. discriminate.
Qed.

Lemma unapplied_branch_undefined_witness :
  pending_head (c_fork unapplied) = Ok (Some 3%positive) /\
  snd (apply_best_branch env 1 unapplied) = Throw undefined_behavior.
Proof.
  split; [vm_compute; reflexivity|].
  apply (unapplied_branch_undefined irreversible_env env c0 unapplied 1%positive x0 3%positive [3%positive; 2%positive] 0
           irreversible_quiet env_quiet eq_refl eq_refl c0_started_irreversible unapplied_reachable).
  - vm_compute. reflexivity.
  - apply (chain_cons (c_fork unapplied) _ 3%positive); [apply (bool_decide_unpack _); vm_compute; exact I|].
    replace (previous _) with (id (block_of unapplied 2%positive)) by (vm_compute; reflexivity).
    apply (chain_cons (c_fork unapplied) _ 2%positive); [apply (bool_decide_unpack _); vm_compute; exact I|].
    replace (previous _) with (id (head_block unapplied)) by (vm_compute; reflexivity). apply chain_nil.
  - cbn. lia.
  - vm_compute. reflexivity.
Defined.

(** Without the condition on irreversible numbers, irreversible mode fails: [b3y] is marked
    after [b2y] and is not preferred to it, so that the root cannot go past the head of the
    fork database, and the new root is lost from the index. *)
Definition b2y := blk 2 1 (id b1) 1 false.
Definition b3y := blk 3 2 (id b2y) 0 false.
Definition b4y := blk 4 3 (id b3y) 3 false.
Lemma decreasing_lib_stops_irreversible_mode :
  let run := fun c b => fst (receive irreversible_env b c) in
  let c := run (run c0 b2y) b3y in
  snd (receive irreversible_env b4y c) = Throw fork_database_exception /\
  id (head_block (run c b4y)) = id b3y /\ c_log (run c b4y) = [id b2y; id b3y] /\
  (fun p => id (block_of (run c b4y) p)) <$> root (c_fork (run c b4y)) = Some (id b1) /\
  find_id (c_fork (run c b4y)) (id b3y) = None.
Proof. vm_compute. split_and!; reflexivity. Qed.


End ControllerExample.
